(* ===== verification/_CoqProject ===== *)
-Q . S2P
Prelude.v
GoStrings.v
Regexp.v
YamlTemplates.v
Labels.v
Conditions.v
SyncMap.v
SyncSession.v
NsInformer.v
Leader.v
CRWatcher.v
Debouncer.v
Prog.v
Errors.v
Diagnostic.v
Middleware.v
MiddlewareController.v
Json.v
Adoption.v
JsonTools.v
StatusRule.v
CacheStore.v
WorkloadPhase.v
Ownership.v
Recompute.v
FieldPath.v
IntentMerge.v
IntentSchema.v
IntentRecord.v
IntentWriter.v
IntentGC.v
IntentPublication.v
IntentProtocol.v
Configurations.v
Operator.v
OperatorUpgrade.v
OperatorResources.v
OperatorController.v
OperatorRuntime.v
Triggers.v
Readiness.v
Catalog.v
Packages.v
PackageInstall.v
CatalogCheck.v
MiddlewareRender.v
MiddlewareUpgrade.v
MiddlewareApply.v
PauseAdoption.v
WatcherEvents.v
RbacClients.v
Templates.v
ActionReport.v
Actions.v
PreActions.v
OperatorRender.v
OperatorSystem.v
MiddlewareSystem.v
