(* ===== verification/Prelude.v ===== *)
(** * A verification library for OpenSaola

    OpenSaola is a Kubernetes operator, written in Go, that installs middleware
    (databases, caches, brokers) from packages and keeps the installed objects
    in the state that [Middleware] resources ask for.  This library models its
    core in Rocq and proves what that core is meant to guarantee.

    ** The program and its parts

    - The Middleware controller ([internal/controller]) reconciles one
      [Middleware] at a time: finalizer, deletion, pause and resume, checks,
      package replacement, publishing or updating the child resources, status.
      It reads and writes the API server through [internal/k8s/middleware.go].
    - While reconciliation is paused an administrator may change the primary
      custom resource; [internal/service/middleware/reconcile_adoption.go]
      turns those changes into overrides and applies them afterwards.
    - The synchronizer ([internal/service/synchronizer]) keeps the runtime
      status up to date: one session per primary resource, shared informers per
      namespace, a debouncer per Middleware, and the recomputation of the
      status from the resource, the declared CEL rules
      ([internal/service/statusrule]) and the pods, claims and workloads found.
    - The watcher ([internal/service/watcher]) runs one informer per namespace
      and kind of custom resource, shared by the Middlewares that need it.
    - [internal/cache] is the TTL cache behind the package-level caches.
    - Writers of children go through [internal/k8s/managed_resource.go]: what a
      writer wants (its intent) is saved in a Secret before the object that
      names it is written, the next write merges three ways between the saved
      intent, the new one and the live object, and a collector deletes the
      records that nothing points to any more.
    - [internal/service/middlewareconfiguration] applies the resources rendered
      from configurations, keeps an inventory of them and deletes those that
      are no longer rendered or whose owner goes away.
    - The operator controller ([middlewareoperator_controller.go] and
      [internal/service/middlewareoperator]) does for the Deployment and RBAC
      objects of an operator what the Middleware controller does for custom
      resources: deletion, pause gate, upgrade to another package, publishing,
      repair of a Deployment that drifted, status.
    - A package is a Secret with an archive ([internal/service/packages]).
      [internal/service/middlewarepackage] installs and removes it: it creates
      and deletes the catalog objects (baselines, operator and action
      baselines, configurations) that the two controllers above read.
    - [internal/service/middleware] merges a Middleware with its baseline
      ([pkg/tools/json.go]), renders templates, upgrades it to another package
      and applies or deletes the stages of its children in order.  Failures
      are wrapped as diagnostics ([internal/service/status/diagnostic.go]).
    - [middlewareoperator_runtime_controller.go] publishes whether an operator's
      Deployment is ready, with a diagnosis of what keeps it from being so.
    - [internal/service/middlewareaction] executes actions: commands, HTTP
      requests and CUE programs, once; the same steps, as pre-actions, change a
      Middleware or an operator before it is applied.

    ** Files

    - [Prelude]: results, Go maps of strings, machine integers, invariants of
      step relations, runs of one goroutine.
    - [Labels]: keys, states and conditions of [api/v1], and the predicates
      that decide whether writes are suspended.
    - [Conditions]: [status/condition.go] and the pause marker of
      [controller/reconcile_suspension.go].
    - [SyncMap]: the operations of [sync.Map] that the registries use, and the
      discipline under which an entry identifies its owner.
    - [SyncSession]: [sync_state.go] and the session part of
      [SyncCustomResourceV2], as a step relation over goroutines.
    - [NsInformer]: [resource_cache_informer.go], likewise.
    - [Leader]: the tasks of [cmd/leader_background.go] and the manager that
      leaders pass on, likewise.
    - [CRWatcher]: the shared watchers of [watcher/customresource.go], likewise,
      and the restart backoff.
    - [WatcherEvents]: the event handlers of the same file and the start of the
      watchers for the Middlewares that are there.
    - [Debouncer]: [debouncer.go], one debouncer with its timers and the
      registry.
    - [Prog]: programs that call their environment, their runs against any
      handler, and a weakest precondition over all answers; retrying on
      conflict.
    - [Errors]: error values as the code can tell them apart.
    - [Diagnostic]: [status/diagnostic.go].
    - [Middleware]: the [Middleware] resource, its client functions
      ([internal/k8s/middleware.go]) and delete contexts.
    - [MiddlewareController]: [Reconcile] and the pause state machine.
    - [Json]: decoded JSON values, their induction, equality and codes.
    - [Adoption]: [reconcile_adoption.go], overrides and their verification.
    - [JsonTools]: [pkg/tools/json.go], the structural merge and comparison.
    - [StatusRule]: [statusrule.go] and [status_rules.go].
    - [CacheStore]: [internal/cache/store.go].
    - [WorkloadPhase]: phases of Deployments, StatefulSets and DaemonSets.
    - [Ownership]: which resources belong to a Middleware, include lists.
    - [Recompute]: [recomputeAndUpdateStatus] and its projections.
    - [FieldPath]: the paths, sets and typed values of structured-merge-diff
      that the merge relies on, as interfaces, with instances.
    - [IntentMerge]: [intent_merge.go] and [observed_spec_changes.go].
    - [IntentSchema]: [intent_schema.go], the schema closure and the resolver.
    - [IntentRecord]: the records, their codec and identity checks, the objects
      they are about ([ObjectApi]) and the configuration tracks.
    - [IntentWriter]: the operations on records ([resource_intent.go]) and the
      write loop of [managed_resource.go] and [configuration_adoption.go].
    - [IntentGC]: [resource_intent_gc.go] and [reconcile_pause_snapshot.go].
    - [IntentPublication]: which calls the writer and the collector make, after
      which.
    - [IntentProtocol]: writers and collectors together, with a server whose
      writes may take effect and be reported as failed: every state reachable.
    - [GoStrings]: the functions of the [strings] package the code uses.
    - [Regexp]: what the regular expressions of the code share.
    - [YamlTemplates]: [pkg/tools/yaml.go].
    - [Configurations]: [middlewareconfiguration].
    - [Operator]: the [MiddlewareOperator], the calls of its controller, its
      client functions ([k8s/middlewareoperator.go]) and its delete context.
    - [OperatorUpgrade]: [Check] and [ReplacePackage] of
      [service/middlewareoperator/middlewareoperator.go].
    - [OperatorResources]: its [HandleResource], [deployment.go] and [rbac.go].
    - [OperatorController]: [middlewareoperator_controller.go].
    - [RbacClients]: [internal/k8s/rbac.go], and its requests for an operator.
    - [OperatorRender]: the rendering of an operator with its baseline and the
      hydration of a deleted one, of [middlewareoperator.go].
    - [OperatorSystem]: the operator controller with its RBAC clients, rendering,
      pre-actions and packages, as one program.
    - [OperatorRuntime]: [middlewareoperator_runtime_controller.go] and its
      diagnosis.
    - [Triggers]: the event filters of the controllers, and which Deployments an
      event makes the runtime controller look at.
    - [Readiness]: [readiness_diagnostic.go] of the synchronizer and its recheck.
    - [Catalog]: the data and clients of the catalog objects, packages and
      their Secrets.
    - [Packages]: [packages.go], [tar.go], the lookup of a catalog object in
      the cluster, the cache and its package, the rendering loop of
      configurations.
    - [PackageInstall]: [middlewarepackage.go] and its controller.
    - [CatalogCheck]: the checks of the four kinds and their controllers.
    - [MiddlewareRender]: the merge with the baseline and the rendering of
      [service/middleware/middleware.go], and the values of [template.go].
    - [Templates]: [funcs.go], [lookup_func.go] and [template.go] of [pkg/tools].
    - [MiddlewareUpgrade]: its [Check] and [ReplacePackage].
    - [MiddlewareApply]: [service/middleware/resource.go] and
      [customresource.go].
    - [PauseAdoption]: the snapshot and the adoption of
      [reconcile_adoption.go], and differences of objects.
    - [ActionReport]: [action_diagnostics.go], masking and bounds.
    - [Actions]: the steps of actions and their controller.
    - [PreActions]: [preaction.go].
    - [MiddlewareSystem]: the controller with these components, as one program.

    Above each definition that translates code a comment names the Go symbol
    and its file (with line numbers where it is a part of a function).

    ** How the code is modelled

    Pure functions are Rocq functions.  Goroutines that share memory
    ([SyncSession], [NsInformer], [Leader], [CRWatcher], [CacheStore]) are program counters over a
    shared state; each atomic action is one step, any number of goroutines may
    run, and the theorems are about every reachable state.  A controller, whose
    concurrency is with the API server and not with shared memory, is a [prog]:
    the server and the components it drives may answer anything, and theorems
    hold for every handler.  Where one component calls another, [interp] runs
    the calls of the first as the programs of the second, and the disciplines
    of both are put together ([MiddlewareSystem], [OperatorSystem]).  A Go panic
    is an outcome where the code can have one.  Times are integers; maps are [gmap]s, and where Go's iteration order
    could matter it is an argument.  Integers keep their width where they are
    computed with ([wrap64] in the debouncer's configuration and in the EMQX
    replica count).

    Code outside the repository is a parameter: the finalizer and condition
    helpers of Kubernetes ([MetaConditions], [ControllerUtil]), retrying on
    conflict ([RetryOnConflict]), JSON text, hashes and merge patches
    ([JsonLib], [MergePatchLib]), CEL ([CelEngine]), gjson ([GJson]), field paths and typed
    values ([FieldPathLib], [TypedLib]), unstructured objects
    ([UnstructuredApi], [ObjectApi]), the record encoders ([IntentCodec]), JSON
    patches ([JsonPatch]), schemas ([SchemaLib], [OpenApi]), archives and their
    YAML documents ([PackageFormat]), YAML and metadata codecs ([YamlLib],
    [MetaCodec], [SubjectCodec], [ObjectDecode]), label selectors
    ([LabelSelectors]), comparison ([GoCmp]), CUE ([CueLib]), URLs ([UrlLib]), the order in which a
    map is visited ([MapOrder]).  Each class states
    only documented behaviour and has an instance, used by the witnesses.  The
    YAML decoder, [schema.ParseGroupVersion], the format of times and the like
    are function arguments without laws.

    ** What the theorems show

    - Controller: children are written only through an open pause gate; the
      finalizer goes only after the cleanup; the reported state and observed
      generation are what the conditions and the outcome say; status writes
      keep what other writers own; a resume touches only its own session.
    - Middleware stages: configurations after pre-actions, the primary
      resource after the configurations and as it renders, a merged resume only
      over the adopted resource, the deletion of the primary resource after the
      cleanup; each stage reports its outcome; an upgrade writes only to switch
      to the enabled package or to drop the request.  In the whole system the
      finalizer goes only when the children are deleted or never were created.
    - Merging: explicit values win, the baseline fills in the rest, the result
      has the type of its arguments; fixed pre-actions are the baseline's; the
      check of required parameters is exact; diagnostics hide no cause; of the
      YAML that is to be rendered only quotes around template actions go;
      templates that include each other come to an end, with a bounded depth.
    - Overrides: a later explicit edit wins path by path, other adopted values
      stay; the last check before a resumed write is exact; the overrides computed
      at the end of a pause make of the render what was merged.
    - Leaders: managers that are not current are stopped, and the leader in
      office keeps the one it created.
    - Synchronizer: at most one live session per resource, its debouncer stays
      registered, channels are closed once, acquisition terminates; one live
      informer set per namespace; no notification is lost, bursts coalesce,
      a replaced debouncer's cleanup spares its replacement; a relevant event
      notifies once, the owner of a deleted resource is asked once to rebuild it
      when it is live, and never otherwise.
    - Status: the operator's status is authoritative, ownership follows UIDs
      before labels, include lists are deterministic, rules are first-match,
      Running means converged; the readiness diagnosis names the first object
      that fails, and what a first start withholds it withholds for two
      minutes.
    - Cache: reads are those of the last write until it expires; where operations
      overlap, too, but for a value that was stored between the load and the
      eviction of an older one.
    - Intents: what the writer no longer wants is removed unless others changed
      it, what it wants is written, defaults are captured only where declared;
      records round-trip; no published object ever points to a record that is
      gone, whatever the interleaving and whichever writes fail; records are
      deleted only when superseded or settled; the schema closure terminates,
      its hash depends only on what is reachable, a cached schema is never
      stale.
    - Configurations: the cleanup deletes only recorded, unchanged, owned objects
      that no configuration renders any more, and only in an update; the teardown only owned or explicitly deletable ones.
    - Operators: children are written only for an operator that carries the
      finalizer and is neither suspended nor being deleted, the finalizer goes
      only after the cleanup; its accounts, roles and bindings are written only
      as they are to be, and all of them; a deletion works on the permissions that
      the baseline and the operator declare, under the names that their
      templates render to then; the requests of a whole pass, those of the
      components included, come in that order; an operator is switched only to the one enabled
      package of the requested version; a drifted Deployment is repaired only
      when nothing else is going on; the two writers of the status keep each
      other's part; the reported state is what the conditions say; the runtime
      status is of the Deployment read, Ready exactly when it is, and otherwise
      names what is wrong with it.
    - Packages: as long as the Secret is there, its catalog objects go only when
      nobody uses the package or to make room for a requested installation, its
      finalizer only after all of them; once it is gone nothing is checked; a Secret becomes enabled only when all are there; what a
      failed installation rolls back; the parse cache is invisible; an object
      found by name is of the package asked for; checks publish the verdict.

    - Actions: an action is executed once and ends with a state; a step that
      succeeded is not executed again and its condition says how it went, in a
      bounded message where no value of a known key word is left; pre-actions
      touch nothing in the cluster, and for rendering not even a command runs.

    ** Bounds and fuel

    [iterate] runs one goroutine alone for a number of actions; the termination
    theorems give the number that suffices (six to ten) for every reachable
    state.  [retry] has no bound of its own: its law is loop induction, and the
    bounded loop of [Prog] satisfies it for every bound.  The visit of a
    schema takes fuel; one more than the number of types is enough
    ([IntentSchema]).  [Sweep] asks for a page as long as the server has one;
    its pages are an argument.  The replacement of a pattern takes as many
    steps as the text has bytes, which is enough since a match is not empty
    ([ActionReport]).  Executions of templates may be nested to a depth that is
    an argument; 1001 times the number of named templates is enough without
    [tpl] ([Templates]).  Programs and all other recursive functions are
    structurally recursive.

    ** Not modelled

    - [cmd/main.go], the client constructors, the construction of informers and
      the registration of controllers: they start and connect libraries and
      decide nothing.  What the manager delivers to a controller is [Triggers].
    - [zz_generated.deepcopy.go]: generated; objects are values here.
    - The wrappers of the API client that only pass a call on (listings, plain
      creations, updates and deletions): the callers' calls stand for them.
    - The engines of templates and CUE, the process, the network, compression
      and the archive format: libraries, parameters of the files that use them.
    - Logging, events and metrics: nothing reads them back.  The pairs that a
      diagnostic gives to the log are in [Diagnostic].
    - The texts that name a resource in a refused write ([managedIdentityError]):
      the refusal is modelled, its wording is not.
    - Helpers without a caller in the repository. *)

From stdpp Require Import base gmap strings list relations option sorting.
From Stdlib Require Import ZArith Lia.

(** ** Results: a Go function returning [(T, error)] *)

Inductive result (E A : Type) : Type :=
  | Ok (a : A)
  | Err (e : E).
Arguments Ok {E A} _.
Arguments Err {E A} _.

#[export] Instance result_ret E : MRet (result E) := λ A a, Ok a.
#[export] Instance result_bind E : MBind (result E) := λ A B f m,
  match m with Ok a => f a | Err e => Err e end.
#[export] Instance result_fmap E : FMap (result E) := λ A B f m,
  match m with Ok a => Ok (f a) | Err e => Err e end.

#[export] Instance result_eq_dec `{EqDecision E, EqDecision A} : EqDecision (result E A).
Proof. solve_decision. Defined.

Definition is_ok {E A} (r : result E A) : bool :=
  match r with Ok _ => true | Err _ => false end.

(** ** Go maps with string values: reading an absent key gives the empty string *)

Declare Scope go_scope.
Delimit Scope go_scope with go.
Open Scope go_scope.

Definition str_at (m : gmap string string) (k : string) : string :=
  default "" (m !! k).
Notation "m .[ k ]" := (str_at m k) (at level 1, left associativity, format "m .[ k ]") : go_scope.

(** ** Machine integers *)

(** Two's complement wrap-around of [int32] and [int64] arithmetic. *)
Definition wrap32 (z : Z) : Z := ((z + 2 ^ 31) `mod` 2 ^ 32 - 2 ^ 31)%Z.
Definition wrap64 (z : Z) : Z := ((z + 2 ^ 63) `mod` 2 ^ 64 - 2 ^ 63)%Z.

Lemma wrap32_id z : (- 2 ^ 31 ≤ z < 2 ^ 31)%Z → wrap32 z = z.
Proof. intros. unfold wrap32. rewrite Z.mod_small; lia. Qed.

Lemma wrap32_add a b : wrap32 (wrap32 a + b) = wrap32 (a + b).
Proof.
  unfold wrap32. f_equal.
  replace ((a + 2 ^ 31) `mod` 2 ^ 32 - 2 ^ 31 + b + 2 ^ 31)%Z
    with ((a + 2 ^ 31) `mod` 2 ^ 32 + b)%Z by lia.
  rewrite Zplus_mod_idemp_l. f_equal. lia.
Qed.

(** ** Reachability and invariants of a step relation *)

Section Invariants.
Context {S : Type} (step : relation S).

Definition preserved (I : S → Prop) : Prop := ∀ s s', step s s' → I s → I s'.

Lemma preserved_rtc (I : S → Prop) s s' :
    preserved I → rtc step s s' → I s → I s'.
Proof. intros Hp Hr. induction Hr; eauto. Qed.
End Invariants.

(** ** Running one goroutine alone: iterate its next action until it returns *)

Section Iterate.
Context {S P : Type} (next : S → P → option (S * P)).

Fixpoint iterate (fuel : nat) (s : S) (p : P) : S * P :=
  match fuel with
  | 0 => (s, p)
  | Datatypes.S n => match next s p with Some (s', p') => iterate n s' p' | None => (s, p) end
  end.

Lemma iterate_step fuel s p s' p' :
  next s p = Some (s', p') → iterate (Datatypes.S fuel) s p = iterate fuel s' p'.
Proof. intros Hn. simpl. by rewrite Hn. Qed.

Lemma iterate_final fuel s p : next s p = None → iterate fuel s p = (s, p).
Proof. intros Hn. destruct fuel; simpl; by rewrite ?Hn. Qed.
End Iterate.

(** ** Sorting by a string key ([sort.Slice], [sort.Strings])

    Go's sort is not stable; when the keys are distinct the result is the only
    sorted arrangement, whatever the order before. *)

Section SortBy.
Context {A : Type} (key : A → string).

Definition key_le (a b : A) : Prop := String.le (key a) (key b).
#[export] Instance key_le_dec a b : Decision (key_le a b).
Proof. unfold key_le. apply _. Defined.
#[export] Instance key_le_trans : Transitive key_le.
Proof. intros a b c. unfold key_le. apply transitivity. Qed.
#[export] Instance key_le_total : Total key_le.
Proof. intros a b. apply (total String.le). Qed.

Definition sort_by (l : list A) : list A := merge_sort key_le l.

Lemma sort_by_Permutation l : sort_by l ≡ₚ l.
Proof. apply merge_sort_Permutation. Qed.

Lemma NoDup_key (l : list A) a b : NoDup (key <$> l) → a ∈ l → b ∈ l → key a = key b → a = b.
Proof.
  intros Hnd [i Hi]%list_elem_of_lookup [j Hj]%list_elem_of_lookup Hk.
  assert (i = j) as ->; [|congruence]. eapply (NoDup_lookup (key <$> l)); [done| |]; rewrite list_lookup_fmap.
  - by rewrite Hi.
  - by rewrite Hj, Hk.
Qed.

Lemma sort_by_unique l l' : NoDup (key <$> l) → l ≡ₚ l' → sort_by l = sort_by l'.
Proof.
  intros Hnd Hperm. apply (Sorted_unique_strong key_le); [|apply (Sorted_merge_sort key_le)..|].
  - intros a b Ha Hb Hab Hba. rewrite sort_by_Permutation in Ha. rewrite sort_by_Permutation, <- Hperm in Hb.
    unfold key_le in *. apply (anti_symm String.le) in Hab; [|done]. by eapply NoDup_key.
  - by rewrite !sort_by_Permutation.
Qed.

Lemma sort_by_sorted l : Sorted key_le (sort_by l).
Proof. apply (Sorted_merge_sort key_le). Qed.
End SortBy.
