(* ===== verification/GoStrings.v ===== *)
(** * Functions of Go's [strings] package

    Strings are bytes.  White space and cut sets are ASCII: the two white-space
    characters that Unicode has between U+0080 and U+00FF, and those above,
    are not trimmed here. *)
From Stdlib Require Import Ascii String.
From stdpp Require Import base strings list option.
From S2P Require Import Prelude.

(** [strings.Contains] *)
Definition contains (sub s : string) : bool := match String.index 0 sub s with Some _ => true | None => false end.

Definition is_space (a : ascii) : bool :=
  match Ascii.nat_of_ascii a with 9 | 10 | 11 | 12 | 13 | 32 => true | _ => false end.

Fixpoint trim_left (cut : ascii → bool) (s : string) : string :=
  match s with String a s' => if cut a then trim_left cut s' else s | EmptyString => EmptyString end.
Fixpoint reverse (acc s : string) : string :=
  match s with String a s => reverse (String a acc) s | EmptyString => acc end.
Definition trim_right (cut : ascii → bool) (s : string) : string := reverse "" (trim_left cut (reverse "" s)).
Definition trim (cut : ascii → bool) (s : string) : string := trim_right cut (trim_left cut s).

(** [strings.TrimSpace], [strings.TrimLeft(s, " ")] and [strings.Trim(s, cutset)] *)
Definition TrimSpace (s : string) : string := trim is_space s.
Definition TrimLeftSpaces (s : string) : string := trim_left (λ a, Ascii.eqb a " "%char) s.
Definition in_cutset (cutset : list ascii) (a : ascii) : bool := existsb (Ascii.eqb a) cutset.
Definition Trim (cutset : list ascii) (s : string) : string := trim (in_cutset cutset) s.

(** [strings.HasPrefix] and [strings.TrimPrefix] *)
Definition HasPrefix (s prefix : string) : bool := String.prefix prefix s.
Fixpoint drop_string (n : nat) (s : string) : string :=
  match n, s with S n, String _ s => drop_string n s | _, _ => s end.
Definition TrimPrefix (s prefix : string) : string := if HasPrefix s prefix then drop_string (String.length prefix) s else s.

(** [strings.Split] with a separator of one byte *)
Fixpoint split_on (sep : ascii) (s : string) : list string :=
  match s with
  | EmptyString => [""]
  | String a s =>
      if Ascii.eqb a sep then "" :: split_on sep s
      else match split_on sep s with x :: l => String a x :: l | [] => [String a ""] end
  end.

(** [strings.Join] *)
Fixpoint Join (parts : list string) (sep : string) : string :=
  match parts with
  | [] => ""
  | [p] => p
  | p :: parts => p +:+ sep +:+ Join parts sep
  end.

Definition newline : ascii := Ascii.ascii_of_nat 10.
Definition double_quote : ascii := Ascii.ascii_of_nat 34.
Definition single_quote : ascii := Ascii.ascii_of_nat 39.

(** ** Concatenation *)

Lemma string_app_assoc (a b c : string) : (a +:+ b) +:+ c = a +:+ (b +:+ c).
Proof. induction a as [|x a IH]; [done|]. exact (f_equal (String x) IH). Qed.
Lemma string_app_nil (a : string) : a +:+ "" = a.
Proof. induction a as [|x a IH]; [done|]. exact (f_equal (String x) IH). Qed.
Lemma string_app_inj (a b c : string) : a +:+ b = a +:+ c → b = c.
Proof. induction a as [|x a IH]; [done|]. intros Heq. apply IH. by injection Heq. Qed.
Lemma string_app_eq (a b c d : string) : a +:+ b = c +:+ d → (∃ e, c = a +:+ e ∧ b = e +:+ d) ∨ (∃ e, a = c +:+ e ∧ d = e +:+ b).
Proof.
  revert c. induction a as [|x a IH]; intros c Heq; [left; by exists c|].
  destruct c as [|y c]; [right; by exists (String x a)|]. injection Heq as -> Heq.
  destruct (IH c Heq) as [(e & -> & ?)|(e & -> & ?)]; [left|right]; by exists e.
Qed.

Lemma contains_in a sub b : contains sub (a +:+ sub +:+ b) = true.
Proof.
  unfold contains. destruct (String.index 0 sub (a +:+ sub +:+ b)) eqn:He; [done|].
  destruct (decide (sub = "")) as [->|Hne]; [by destruct a, b|].
  exfalso. refine (String.index_correct3 0 (String.length a) _ _ He Hne (Nat.le_0_l _) _).
  clear He Hne. induction a as [|c a IH]; simpl; [|exact IH].
  induction sub as [|c sub IH]; simpl; [by destruct b|]. exact (f_equal (String c) IH).
Qed.
Lemma Join_split parts sep p : p ∈ parts → ∃ a b, Join parts sep = a +:+ p +:+ b.
Proof.
  induction parts as [|q parts IH]; [by intros ?%elem_of_nil|]. intros [<- | Hin]%elem_of_cons.
  - destruct parts as [|r parts]; [exists "", ""; simpl; by rewrite string_app_nil|].
    by exists "", (sep +:+ Join (r :: parts) sep).
  - destruct (IH Hin) as (a & b & Heq). destruct parts as [|r parts]; [by apply elem_of_nil in Hin|].
    exists (q +:+ sep +:+ a), b. change (Join (q :: r :: parts) sep) with (q +:+ sep +:+ Join (r :: parts) sep).
    rewrite Heq. by rewrite !string_app_assoc.
Qed.

Example TrimSpace_ex : TrimSpace "  a b " = "a b".
Proof. reflexivity. Qed.
Example split_ex : split_on newline (String "a" (String newline "b")) = ["a"; "b"].
Proof. reflexivity. Qed.
