(* ===== verification/Regexp.v ===== *)
(** * Regular expressions

    What the patterns of the code share: they are written as matchers on the
    bytes of a string, and replaced as [Regexp.ReplaceAllString] does. *)
From Stdlib Require Import NArith Lia Ascii String.
From stdpp Require Import base strings list option.
From S2P Require Import Prelude GoStrings.

(** A matcher answers the text that is kept of a match at the front of the
    string, and what is left after the match. *)
Abbreviation matcher := (string → option (string * string)).

(** [\s] *)
Definition re_space (a : ascii) : bool := let n := Ascii.N_of_ascii a in existsb (N.eqb n) [9; 10; 12; 13; 32]%N.

Fixpoint span (p : ascii → bool) (s : string) : string * string :=
  match s with
  | String a s' => if p a then let '(k, r) := span p s' in (String a k, r) else ("", s)
  | EmptyString => ("", "")
  end.

Fixpoint first_match {A} (l : list (option A)) : option A :=
  match l with [] => None | Some a :: _ => Some a | None :: l => first_match l end.

(** [Regexp.ReplaceAllString]: after a match the search goes on behind it.
    [fuel] bounds the number of steps; the length of the string is enough. *)
Fixpoint replace_all (fuel : nat) (m : matcher) (mask s : string) : string :=
  match fuel, s with
  | S fuel, String a s' =>
      match m s with
      | Some (kept, r) => kept +:+ mask +:+ replace_all fuel m mask r
      | None => String a (replace_all fuel m mask s')
      end
  | _, _ => s
  end.
Definition ReplaceAllString (m : matcher) (mask s : string) : string := replace_all (String.length s) m mask s.

(** ** Lemmas *)

Lemma first_match_none {A} (l : list (option A)) : first_match l = None ↔ ∀ x, x ∈ l → x = None.
Proof.
  induction l as [|[a|] l IH]; simpl; [split; [intros _ x ?%elem_of_nil|]; done| |].
  - split; [done|]. intros Hx. by specialize (Hx (Some a) ltac:(by left)).
  - rewrite IH. split; [intros Hx x [->|?]%elem_of_cons; auto|]. intros Hx x ?. apply Hx. by right.
Qed.

Lemma first_match_some {A} (l : list (option A)) a : first_match l = Some a → Some a ∈ l.
Proof. induction l as [|[b|] l IH]; simpl; [done|intros [= ->]; by left|]. intros ?. right. auto. Qed.

Lemma span_app p s : s = (span p s).1 +:+ (span p s).2.
Proof.
  induction s as [|a s IH]; [done|]. simpl. destruct (p a); [|done]. destruct (span p s) as [k r]. exact (f_equal (String a) IH).
Qed.

Lemma span_cons p a k s : p a = true → span p (String a k +:+ s) = (String a (span p (k +:+ s)).1, (span p (k +:+ s)).2).
Proof. intros Ha. change (String a k +:+ s) with (String a (k +:+ s)). cbn [span]. rewrite Ha. by destruct (span p (k +:+ s)). Qed.

Fixpoint all_chars (p : ascii → bool) (s : string) : bool :=
  match s with String a s => p a && all_chars p s | EmptyString => true end.

Lemma span_all p k s : all_chars p k = true → span p (k +:+ s) = (k +:+ (span p s).1, (span p s).2).
Proof.
  induction k as [|a k IH]; [intros _; change ("" +:+ s) with s; change ("" +:+ (span p s).1) with (span p s).1; apply surjective_pairing|]. intros [Ha Hk]%andb_prop.
  rewrite span_cons by done. by rewrite IH.
Qed.

Lemma span_all_chars p s : all_chars p (span p s).1 = true.
Proof. induction s as [|a s IH]; [done|]. cbn [span]. destruct (p a) eqn:Ha; [|done]. destruct (span p s). simpl in *. by rewrite Ha. Qed.

Lemma all_chars_mono (p q : ascii → bool) s : (∀ a, p a = true → q a = true) → all_chars p s = true → all_chars q s = true.
Proof. intros Hpq. induction s as [|a s IH]; [done|]. intros [Ha Hs]%andb_prop. cbn [all_chars]. by rewrite Hpq, IH. Qed.


(** ** What a replacement hides

    Two texts are alike for a pattern if they differ only in what its matches
    do not keep; a pattern that matches more than nothing makes them one text. *)
Inductive alike (m : matcher) : string → string → Prop :=
  | alike_nil : alike m "" ""
  | alike_char a s s' : m (String a s) = None → m (String a s') = None → alike m s s' → alike m (String a s) (String a s')
  | alike_match s s' kept r r' : m s = Some (kept, r) → m s' = Some (kept, r') → alike m r r' → alike m s s'.

Definition shrinks (m : matcher) : Prop := ∀ s k r, m s = Some (k, r) → String.length r < String.length s.

Lemma replace_all_alike m mask s s' fuel fuel' :
  shrinks m → alike m s s' → String.length s ≤ fuel → String.length s' ≤ fuel' → replace_all fuel m mask s = replace_all fuel' m mask s'.
Proof.
  intros Hm Ha. revert fuel fuel'. induction Ha as [|a s s' Hs Hs' _ IH|s s' k r r' Hs Hs' _ IH]; intros fuel fuel' Hf Hf'.
  - by destruct fuel, fuel'.
  - simpl in Hf, Hf'. destruct fuel as [|fuel]; [lia|]. destruct fuel' as [|fuel']; [lia|]. cbn [replace_all]. rewrite Hs, Hs'.
    f_equal. apply IH; lia.
  - pose proof (Hm _ _ _ Hs). pose proof (Hm _ _ _ Hs'). destruct s as [|a s]; [simpl in *; lia|]. destruct s' as [|a' s']; [simpl in *; lia|].
    simpl String.length in *. destruct fuel as [|fuel]; [lia|]. destruct fuel' as [|fuel']; [lia|]. cbn [replace_all]. rewrite Hs, Hs'.
    do 2 f_equal. apply IH; lia.
Qed.

Lemma ReplaceAllString_alike m mask s s' : shrinks m → alike m s s' → ReplaceAllString m mask s = ReplaceAllString m mask s'.
Proof. intros Hm Ha. by apply replace_all_alike. Qed.

Lemma alike_empty m s : shrinks m → alike m "" s → s = "".
Proof. intros Hm Ha. inversion Ha as [| |? ? k r r' Hs]; subst; [done|]. apply Hm in Hs. simpl in Hs. lia. Qed.
Lemma alike_sym m s s' : alike m s s' → alike m s' s.
Proof. induction 1; by econstructor. Qed.

Lemma ReplaceAllString_empty m mask s : mask ≠ "" → ReplaceAllString m mask s = "" → s = "".
Proof.
  intros Hmask. destruct s as [|a s]; [done|]. unfold ReplaceAllString. cbn [String.length replace_all].
  destruct (m (String a s)) as [[k r]|]; [|done]. destruct k; [|done]. by destruct mask.
Qed.
