(* ===== verification/YamlTemplates.v ===== *)
(** * Template actions in YAML

    [ProcessYAMLGoTemp] of [pkg/tools/yaml.go] works on YAML that was just
    encoded: where the value of a key is a template action in quotes it takes
    the quotes away, so that the value is of whatever type the action renders
    to; of two pairs of quotes it takes one.  The four patterns are written as
    matchers on bytes ([Regexp]). *)
From Stdlib Require Import NArith Lia Ascii String.
From stdpp Require Import base strings list option.
From S2P Require Import Prelude GoStrings Regexp.

(** ** The patterns *)

(** [\w] *)
Definition re_word (a : ascii) : bool :=
  let n := Ascii.N_of_ascii a in let between i j := N.leb i n && N.leb n j in
  between 48%N 57%N || between 65%N 90%N || between 95%N 95%N || between 97%N 122%N.

(** The group [\s*\w+\s*:\s*].  No byte is of two of its classes: there is one way to
    match it from a position. *)
Definition take_key (s : string) : option (string * string) :=
  let '(before, s) := span re_space s in
  let '(word, s) := span re_word s in
  let '(after, s) := span re_space s in
  match word, s with
  | String _ _, String c s =>
      if Ascii.eqb c ":" then let '(gap, s) := span re_space s in Some (before +:+ word +:+ after +:+ ":" +:+ gap, s) else None
  | _, _ => None
  end.

Definition after_literal (lit s : string) : option string := if HasPrefix s lit then Some (drop_string (String.length lit) s) else None.

(** [.*?] and a literal: the shortest text, without the end of the line, that
    the literal follows. *)
Fixpoint up_to (lit s : string) : option (string * string) :=
  match after_literal lit s with
  | Some rest => Some ("", rest)
  | None => match s with
            | String a s => if Ascii.eqb a newline then None else '(t, rest) ← up_to lit s; Some (String a t, rest)
            | EmptyString => None
            end
  end.

(** A key, then [open], an action and [close]; what is kept has [quote] around
    the action. *)
Definition quoted_action (open close quote : string) : matcher := λ s,
  '(key, s) ← take_key s; s ← after_literal (open +:+ "{{") s; '(t, s) ← up_to ("}}" +:+ close) s;
  Some (key +:+ quote +:+ "{{" +:+ t +:+ "}}" +:+ quote, s).

Definition sq : string := String single_quote "".
Definition dq : string := String double_quote "".
(** [ProcessYAMLGoTemp], pkg/tools/yaml.go:34-34 *)
Definition singleQuotePattern : matcher := quoted_action sq sq "".
(** [ProcessYAMLGoTemp], pkg/tools/yaml.go:35-35 *)
Definition doubleQuotePattern : matcher := quoted_action dq dq "".
(** [ProcessYAMLGoTemp], pkg/tools/yaml.go:36-36 *)
Definition nestedDoubleInSinglePattern : matcher := quoted_action (sq +:+ dq) (dq +:+ sq) sq.
(** [ProcessYAMLGoTemp], pkg/tools/yaml.go:37-37 *)
Definition nestedSingleInDoublePattern : matcher := quoted_action (dq +:+ sq) (sq +:+ dq) dq.

(** [Regexp.MatchString] *)
Fixpoint MatchString (m : matcher) (s : string) : bool :=
  match m s with
  | Some _ => true
  | None => match s with String _ s => MatchString m s | EmptyString => false end
  end.

(** [ProcessYAMLGoTemp], pkg/tools/yaml.go *)
Definition process_line (line : string) : string :=
  if MatchString nestedDoubleInSinglePattern line then ReplaceAllString nestedDoubleInSinglePattern "" line
  else if MatchString nestedSingleInDoublePattern line then ReplaceAllString nestedSingleInDoublePattern "" line
  else if MatchString singleQuotePattern line then ReplaceAllString singleQuotePattern "" line
  else if MatchString doubleQuotePattern line then ReplaceAllString doubleQuotePattern "" line
  else line.
(** [ProcessYAMLGoTemp], pkg/tools/yaml.go *)
Definition ProcessYAMLGoTemp (yamlBytes : string) : string :=
  Join (process_line <$> split_on newline yamlBytes) (String newline "").

(** ** Lines and texts *)

Definition text (l : list string) : string := Join l (String newline "").

Lemma split_nonempty c s : split_on c s ≠ [].
Proof. induction s as [|a s IH]; [done|]. cbn [split_on]. destruct (Ascii.eqb a c); [done|]. by destruct (split_on c s). Qed.

Lemma Join_cons p l sep : l ≠ [] → Join (p :: l) sep = p +:+ sep +:+ Join l sep.
Proof. by destruct l. Qed.

Lemma text_split s : text (split_on newline s) = s.
Proof.
  unfold text. induction s as [|a s IH]; [done|]. cbn [split_on]. destruct (Ascii.eqb_spec a newline) as [->|Ha].
  - rewrite Join_cons by apply split_nonempty. by rewrite IH.
  - pose proof (split_nonempty newline s) as Hne. destruct (split_on newline s) as [|x l]; [done|].
    rewrite <- IH. by destruct l.
Qed.

(** A text is its lines. *)
Definition one_line : string → bool := all_chars (λ a, negb (Ascii.eqb a newline)).

Lemma split_line x s : one_line x = true → split_on newline (x +:+ String newline s) = x :: split_on newline s.
Proof.
  induction x as [|a x IH]; [done|]. intros [Ha Hx]%andb_prop.
  change (String a x +:+ String newline s) with (String a (x +:+ String newline s)). cbn [split_on].
  destruct (Ascii.eqb a newline); [done|]. by rewrite IH.
Qed.
Lemma split_last x : one_line x = true → split_on newline x = [x].
Proof.
  induction x as [|a x IH]; [done|]. intros [Ha Hx]%andb_prop. cbn [split_on]. destruct (Ascii.eqb a newline); [done|]. by rewrite IH.
Qed.

Lemma split_text l : l ≠ [] → Forall (λ x, one_line x = true) l → split_on newline (text l) = l.
Proof.
  intros Hne Hl. induction Hl as [|x l Hx Hl IH]; [done|]. unfold text. destruct l as [|y l]; [by apply split_last|].
  rewrite Join_cons by done. change (x +:+ String newline "" +:+ Join (y :: l) (String newline "")) with (x +:+ String newline (text (y :: l))).
  rewrite split_line by done. by rewrite IH.
Qed.

(** ** What a pattern matches *)

Lemma after_literal_app lit s r : after_literal lit s = Some r → s = lit +:+ r.
Proof.
  unfold after_literal, HasPrefix. revert s. induction lit as [|a lit IH]; intros s; [by destruct s; simpl; intros [= <-]|].
  destruct s as [|b s]; [done|]. cbn [String.prefix String.length drop_string]. destruct (ascii_dec a b) as [->|]; [|done].
  intros Hs. exact (f_equal (String b) (IH s Hs)).
Qed.
Lemma after_literal_here lit r : after_literal lit (lit +:+ r) = Some r.
Proof.
  unfold after_literal, HasPrefix. induction lit as [|a lit IH]; [by destruct r|].
  change (String a lit +:+ r) with (String a (lit +:+ r)). cbn [String.prefix String.length drop_string].
  by destruct (ascii_dec a a).
Qed.

Lemma up_to_app lit s t r : up_to lit s = Some (t, r) → s = t +:+ lit +:+ r.
Proof.
  revert t. induction s as [|a s IH]; intros t; cbn [up_to].
  - destruct (after_literal lit "") as [x|] eqn:Ha; [|done]. intros [= <- <-]. exact (after_literal_app _ _ _ Ha).
  - destruct (after_literal lit (String a s)) as [x|] eqn:Ha; [intros [= <- <-]; exact (after_literal_app _ _ _ Ha)|].
    destruct (Ascii.eqb a newline); [done|]. destruct (up_to lit s) as [[t' r']|]; [|done]. intros [= <- <-].
    exact (f_equal (String a) (IH t' eq_refl)).
Qed.

Lemma take_key_app s k r : take_key s = Some (k, r) → s = k +:+ r.
Proof.
  unfold take_key. pose proof (span_app re_space s) as E1. destruct (span re_space s) as [k1 s1]. simpl in E1.
  pose proof (span_app re_word s1) as E2. destruct (span re_word s1) as [k2 s2]. simpl in E2.
  pose proof (span_app re_space s2) as E3. destruct (span re_space s2) as [k3 s3]. simpl in E3.
  destruct k2 as [|w k2], s3 as [|c s3]; try done. destruct (Ascii.eqb_spec c ":") as [->|]; [|done].
  pose proof (span_app re_space s3) as E4. destruct (span re_space s3) as [k4 s4]. simpl in E4. intros [= <- <-].
  rewrite E1, E2, E3, E4, !string_app_assoc. done.
Qed.

Lemma quoted_action_inv o c q s k r : quoted_action o c q s = Some (k, r) →
  ∃ key t, s = key +:+ o +:+ "{{" +:+ t +:+ "}}" +:+ c +:+ r ∧ k = key +:+ q +:+ "{{" +:+ t +:+ "}}" +:+ q.
Proof.
  unfold quoted_action. destruct (take_key s) as [[key s1]|] eqn:E1; [|done]. cbn [mbind option_bind].
  destruct (after_literal _ s1) as [s2|] eqn:E2; [|done]. cbn [mbind option_bind].
  destruct (up_to _ s2) as [[t s3]|] eqn:E3; [|done]. cbn [mbind option_bind]. intros [= <- <-].
  apply take_key_app in E1 as ->. apply after_literal_app in E2 as ->. apply up_to_app in E3 as ->.
  exists key, t. by rewrite !string_app_assoc.
Qed.

Lemma MatchString_iff m s : MatchString m s = true ↔ ∃ p s', s = p +:+ s' ∧ is_Some (m s').
Proof.
  split.
  - induction s as [|a s IH]; cbn [MatchString]; destruct (m _) eqn:Hm.
    + intros _. exists "", "". by rewrite Hm.
    + done.
    + intros _. exists "", (String a s). by rewrite Hm.
    + intros (p & s' & -> & ?)%IH. by exists (String a p), s'.
  - intros (p & s' & -> & [x Hx]). induction p as [|a p IH].
    + change ("" +:+ s') with s'. destruct s' as [|a s']; cbn [MatchString]; by rewrite Hx.
    + change (String a p +:+ s') with (String a (p +:+ s')). cbn [MatchString]. destruct (m (String a _)); [done|exact IH].
Qed.

(** ** Which characters go *)

(** The characters of a kind. *)
Fixpoint only_chars (p : ascii → bool) (s : string) : string :=
  match s with String a s => if p a then String a (only_chars p s) else only_chars p s | EmptyString => "" end.
Definition is_quote (a : ascii) : bool := Ascii.eqb a single_quote || Ascii.eqb a double_quote.
(** A text without its quotes, and its quotes. *)
Definition unquoted : string → string := only_chars (λ a, negb (is_quote a)).
Definition quotes : string → string := only_chars is_quote.

Lemma only_chars_app p a b : only_chars p (a +:+ b) = only_chars p a +:+ only_chars p b.
Proof.
  induction a as [|c a IH]; [done|]. change (String c a +:+ b) with (String c (a +:+ b)). cbn [only_chars].
  destruct (p c); [exact (f_equal (String c) IH)|exact IH].
Qed.
Lemma only_chars_none p s : all_chars (λ a, negb (p a)) s = true → only_chars p s = "".
Proof. induction s as [|a s IH]; [done|]. intros [Ha Hs]%andb_prop. cbn [only_chars]. destruct (p a); [done|auto]. Qed.
Lemma only_chars_join p l sep : only_chars p (Join l sep) = Join (only_chars p <$> l) (only_chars p sep).
Proof.
  induction l as [|x l IH]; [done|]. destruct l as [|y l]; [done|]. rewrite !fmap_cons, !Join_cons by done.
  by rewrite !only_chars_app, IH.
Qed.

(** A matcher that keeps everything but quotes. *)
Definition quotes_only (m : matcher) : Prop := ∀ s k r, m s = Some (k, r) → unquoted s = unquoted (k +:+ r).

Lemma quoted_action_quotes o c q : unquoted o = "" → unquoted c = "" → unquoted q = "" → quotes_only (quoted_action o c q).
Proof.
  intros Ho Hc Hq s k r (key & t & -> & ->)%quoted_action_inv. unfold unquoted in *.
  rewrite !only_chars_app, Ho, Hc, Hq, !string_app_assoc. done.
Qed.

Lemma replace_quotes m s : quotes_only m → unquoted (ReplaceAllString m "" s) = unquoted s.
Proof.
  intros Hm. unfold ReplaceAllString. generalize (String.length s) as fuel. intros fuel. revert s.
  induction fuel as [|fuel IH]; intros s; [done|]. destruct s as [|a s]; [done|]. cbn [replace_all].
  destruct (m (String a s)) as [[k r]|] eqn:E; [|cbn [unquoted only_chars]; unfold unquoted in *; cbn [only_chars]; by rewrite IH].
  rewrite (Hm _ _ _ E). change ("" +:+ replace_all fuel m "" r) with (replace_all fuel m "" r). unfold unquoted in *.
  by rewrite !only_chars_app, IH.
Qed.

Lemma line_quotes line : unquoted (process_line line) = unquoted line.
Proof. unfold process_line. repeat case_match; try done; by apply replace_quotes, quoted_action_quotes. Qed.

(** What a pattern needs: the opening of an action, and its quotes. *)
Lemma match_action o c q s : MatchString (quoted_action o c q) s = true →
  contains "{{" s = true ∧ ∃ a b d, quotes s = a +:+ quotes o +:+ b +:+ quotes c +:+ d.
Proof.
  intros (p & s' & -> & [[k r] (key & t & -> & _)%quoted_action_inv])%MatchString_iff. split.
  - replace (p +:+ key +:+ o +:+ "{{" +:+ t +:+ "}}" +:+ c +:+ r) with ((p +:+ key +:+ o) +:+ "{{" +:+ (t +:+ "}}" +:+ c +:+ r))
      by (by rewrite !string_app_assoc).
    apply contains_in.
  - exists (quotes (p +:+ key)), (quotes t), (quotes r). unfold quotes. rewrite !only_chars_app, !string_app_assoc. done.
Qed.

Lemma line_plain line : contains "{{" line = false → process_line line = line.
Proof.
  intros Hno. unfold process_line.
  assert (Hm : ∀ o c q, MatchString (quoted_action o c q) line = false).
  { intros o c q. apply not_true_iff_false. intros [Hc _]%match_action. congruence. }
  unfold nestedDoubleInSinglePattern, nestedSingleInDoublePattern, singleQuotePattern, doubleQuotePattern. by rewrite !Hm.
Qed.

Lemma contains_split sub x : contains sub x = true → ∃ p q, x = p +:+ sub +:+ q.
Proof.
  unfold contains. induction x as [|a x IH]; cbn [String.index].
  - destruct sub; [|done]. intros _. by exists "", "".
  - destruct (String.prefix sub (String a x)) eqn:Hp.
    + intros _. exists "", (drop_string (String.length sub) (String a x)). refine (after_literal_app sub _ _ _).
      unfold after_literal, HasPrefix. by rewrite Hp.
    + destruct (String.index 0 sub x); [|done]. intros _. destruct IH as (p & q & ->); [done|]. by exists (String a p), q.
Qed.
Lemma contains_part sub a x b : contains sub x = true → contains sub (a +:+ x +:+ b) = true.
Proof.
  intros (p & q & ->)%contains_split. replace (a +:+ (p +:+ sub +:+ q) +:+ b) with ((a +:+ p) +:+ sub +:+ (q +:+ b)) by (by rewrite !string_app_assoc).
  apply contains_in.
Qed.

Lemma process_plain s : contains "{{" s = false → ProcessYAMLGoTemp s = s.
Proof.
  intros Hno. unfold ProcessYAMLGoTemp. rewrite <- (text_split s) at 2. unfold text. f_equal.
  rewrite <- (list_fmap_id (split_on newline s)) at 2. apply list_fmap_ext. intros i line Hi. apply line_plain.
  apply not_true_iff_false. intros Hc. apply list_elem_of_lookup_2 in Hi.
  destruct (Join_split _ (String newline "") line Hi) as (a & b & Hs). fold (text (split_on newline s)) in Hs. rewrite text_split in Hs.
  pose proof (contains_part "{{" a line b Hc) as Hc'. congruence.
Qed.

Lemma process_quotes s : unquoted (ProcessYAMLGoTemp s) = unquoted s.
Proof.
  unfold ProcessYAMLGoTemp. rewrite <- (text_split s) at 2. unfold text, unquoted. rewrite !only_chars_join. f_equal.
  rewrite <- list_fmap_compose. apply list_fmap_ext. intros i line _. apply line_quotes.
Qed.

(** ** A value that is an action *)

(** A line with a value, and an action without quotes in it. *)
Definition key_line (indent key value : string) : string := indent +:+ key +:+ ": " +:+ value.
Definition template_action (body : string) : string := "{{" +:+ body +:+ "}}".
Definition in_quotes (q s : string) : string := q +:+ s +:+ q.
Definition well_keyed (indent key : string) : Prop :=
  all_chars re_space indent = true ∧ one_line indent = true ∧ all_chars re_word key = true ∧ key ≠ "".
Definition plain_body (body : string) : Prop := all_chars (λ a, negb (is_quote a) && negb (Ascii.eqb a newline)) body = true.

Lemma word_not_space a : re_word a = true → re_space a = false.
Proof. destruct a as [[] [] [] [] [] [] [] []]; by vm_compute. Qed.
Lemma word_not_quote a : re_word a = true → negb (is_quote a) = true.
Proof. destruct a as [[] [] [] [] [] [] [] []]; by vm_compute. Qed.
Lemma space_not_quote a : re_space a = true → negb (is_quote a) = true.
Proof. destruct a as [[] [] [] [] [] [] [] []]; by vm_compute. Qed.
Lemma quote_not_space a : is_quote a = true → re_space a = false.
Proof. destruct a as [[] [] [] [] [] [] [] []]; by vm_compute. Qed.

Lemma key_taken indent key q rest : well_keyed indent key → is_quote q = true →
  take_key (key_line indent key (String q rest)) = Some (indent +:+ key +:+ ": ", String q rest).
Proof.
  intros (Hi & _ & Hk & Hne) Hq. unfold take_key, key_line. rewrite (span_all _ _ _ Hi).
  destruct key as [|w key]; [done|]. pose proof Hk as [Hw _]%andb_prop.
  assert (Hstop : span re_space (String w key +:+ ": " +:+ String q rest) = ("", String w key +:+ ": " +:+ String q rest)).
  { change (String w key +:+ ?s) with (String w (key +:+ s)). cbn [span]. by rewrite word_not_space. }
  rewrite Hstop. cbn [fst snd]. rewrite (span_all _ _ _ Hk). change (": " +:+ String q rest) with (String ":" (String " " (String q rest))).
  change (span re_word (String ":" (String " " (String q rest)))) with ("", String ":" (String " " (String q rest))). cbn [fst snd].
  rewrite string_app_nil. change (span re_space (String ":" (String " " (String q rest)))) with ("", String ":" (String " " (String q rest))).
  cbn [Ascii.eqb]. change (span re_space (String " " (String q rest))) with (let '(k, r) := span re_space (String q rest) in (String " " k, r)).
  cbn [span]. rewrite (quote_not_space q Hq). by rewrite string_app_nil.
Qed.
Lemma body_found body c cs r : plain_body body → is_quote c = true →
  up_to ("}}" +:+ String c cs) (body +:+ "}}" +:+ String c cs +:+ r) = Some (body, r).
Proof.
  intros Hb Hc. induction body as [|a body IH].
  - change ("" +:+ ?s) with s. rewrite <- string_app_assoc. pose proof (after_literal_here ("}}" +:+ String c cs) r) as Ha.
    destruct (("}}" +:+ String c cs) +:+ r); cbn [up_to]; by rewrite Ha.
  - apply andb_prop in Hb as [[_ Ha]%andb_prop Hb].
    change (String a body +:+ ?s) with (String a (body +:+ s)). cbn [up_to].
    destruct (after_literal _ _) as [x|] eqn:E.
    + exfalso. apply after_literal_app in E. destruct body as [|b [|b' body]]; simpl in E; injection E; intros.
      * subst c. by vm_compute in Hc.
      * subst c. by vm_compute in Hc.
      * subst b'. apply andb_prop in Hb as [_ [[Hq _]%andb_prop _]%andb_prop]. by rewrite Hc in Hq.
    + apply negb_true_iff in Ha. rewrite Ha, IH; [done|exact Hb].
Qed.

(** A pattern matches the line of which the value is an action in its quotes. *)
Lemma value_matched o os c cs q indent key body : is_quote o = true → is_quote c = true → well_keyed indent key → plain_body body →
  quoted_action (String o os) (String c cs) q (key_line indent key (String o os +:+ template_action body +:+ String c cs)) =
  Some (key_line indent key (in_quotes q (template_action body)), "").
Proof.
  intros Ho Hc Hk Hb. unfold quoted_action. change (String o os +:+ ?s) with (String o (os +:+ s)).
  rewrite key_taken by done. cbn [mbind option_bind].
  assert (E : String o (os +:+ template_action body +:+ String c cs) = (String o (os +:+ "{{")) +:+ (body +:+ "}}" +:+ String c cs +:+ "")).
  { unfold template_action. rewrite string_app_nil. change (String o (os +:+ "{{") +:+ ?s) with (String o ((os +:+ "{{") +:+ s)). by rewrite !string_app_assoc. }
  rewrite E, (after_literal_here (String o (os +:+ "{{"))). cbn [mbind option_bind]. rewrite body_found by done. cbn [mbind option_bind].
  unfold key_line, in_quotes, template_action. by rewrite !string_app_assoc.
Qed.

Lemma whole_match m s k : m s = Some (k, "") → s ≠ "" → MatchString m s = true ∧ ReplaceAllString m "" s = k.
Proof.
  intros Hm Hs. destruct s as [|a s]; [done|]. unfold ReplaceAllString. cbn [MatchString String.length replace_all]. rewrite Hm.
  split; [done|]. change ("" +:+ ?s) with s. destruct (String.length s); cbn [replace_all]; by rewrite string_app_nil.
Qed.

(** The quotes of such a line. *)
Lemma line_quotes_are indent key o c body : well_keyed indent key → plain_body body →
  quotes o = o → quotes c = c → quotes (key_line indent key (o +:+ template_action body +:+ c)) = o +:+ c.
Proof.
  intros (Hi & _ & Hk & _) Hb Ho Hc. unfold key_line, template_action, quotes in *. rewrite !only_chars_app, Ho, Hc.
  rewrite (only_chars_none _ indent) by (eapply all_chars_mono; [apply space_not_quote|exact Hi]).
  rewrite (only_chars_none _ key) by (eapply all_chars_mono; [apply word_not_quote|exact Hk]).
  rewrite (only_chars_none _ body); [done|]. eapply all_chars_mono; [|exact Hb]. by intros a [? _]%andb_prop.
Qed.

Lemma length_app_string (a b : string) : String.length (a +:+ b) = String.length a + String.length b.
Proof. induction a as [|x a IH]; [done|]. exact (f_equal S IH). Qed.
Lemma no_length (a : string) : String.length a = 0 → a = "".
Proof. by destruct a. Qed.

(** A pattern matches no line with fewer quotes than its own, and of those with
    as many only one with these. *)
Definition other_quotes (x o c : string) : bool :=
  bool_decide (String.length x ≤ String.length (quotes o) + String.length (quotes c)) && negb (String.eqb x (quotes o +:+ quotes c)).
Lemma match_quotes o c q s x : quotes s = x → other_quotes x o c = true → MatchString (quoted_action o c q) s = false.
Proof.
  intros Hx [Hl%bool_decide_eq_true Hne%negb_true_iff%String.eqb_neq]%andb_prop. apply not_true_iff_false. intros [_ (a & b & d & Hq)]%match_action. apply Hne.
  rewrite <- Hx, Hq in Hl. rewrite !length_app_string in Hl.
  rewrite (no_length a), (no_length b), (no_length d) in Hq by lia. rewrite <- Hx, Hq. simpl. by rewrite string_app_nil.
Qed.

Definition opens (o : string) : bool := match o with String a _ => is_quote a | EmptyString => false end.
Lemma value_processed o c q indent key body : opens o = true → opens c = true → well_keyed indent key → plain_body body →
  let s := key_line indent key (o +:+ template_action body +:+ c) in let m := quoted_action o c q in
  MatchString m s = true ∧ ReplaceAllString m "" s = key_line indent key (in_quotes q (template_action body)).
Proof.
  destruct o as [|a o], c as [|a' c]; try done. intros Ho Hc Hk Hb s m. apply whole_match; [by apply value_matched|].
  destruct Hk as (_ & _ & _ & Hk). unfold s, key_line. destruct indent; [by destruct key|done].
Qed.

(** C15: What becomes of the YAML of a resource before it is rendered.  Only
    quotes go, and nothing of a text without actions; lines are processed one by
    one; and the value of a key that is an action in quotes of either kind loses
    them, of two pairs the outer one. *)
Theorem actions_unquoted indent key body :
  well_keyed indent key → plain_body body →
  (∀ s, unquoted (ProcessYAMLGoTemp s) = unquoted s ∧ (contains "{{" s = false → ProcessYAMLGoTemp s = s)) ∧
  (∀ lines, lines ≠ [] → Forall (λ x, one_line x = true) lines → ProcessYAMLGoTemp (text lines) = text (process_line <$> lines)) ∧
  let line := key_line indent key in
  process_line (line (in_quotes sq (template_action body))) = line (template_action body) ∧
  process_line (line (in_quotes dq (template_action body))) = line (template_action body) ∧
  process_line (line (in_quotes sq (in_quotes dq (template_action body)))) = line (in_quotes sq (template_action body)) ∧
  process_line (line (in_quotes dq (in_quotes sq (template_action body)))) = line (in_quotes dq (template_action body)).
Proof.
  intros Hk Hb. split; [intros s; split; [apply process_quotes|apply process_plain]|].
  split; [intros lines Hne Hl; unfold ProcessYAMLGoTemp; by rewrite split_text|]. cbv zeta.
  assert (Hin : ∀ o c, in_quotes o (in_quotes c (template_action body)) = (o +:+ c) +:+ template_action body +:+ (c +:+ o)).
  { intros o c. unfold in_quotes. by rewrite !string_app_assoc. }
  assert (Hq : ∀ o c, quotes o = o → quotes c = c → quotes (key_line indent key (o +:+ template_action body +:+ c)) = o +:+ c).
  { intros o c. by apply line_quotes_are. }
  unfold process_line, nestedDoubleInSinglePattern, nestedSingleInDoublePattern, singleQuotePattern, doubleQuotePattern.
  pose proof (λ o c q Ho Hc, value_processed o c q indent key body Ho Hc Hk Hb) as Hv. cbv zeta in Hv.
  assert (Hone : ∀ o, in_quotes o (template_action body) = o +:+ template_action body +:+ o) by done.
  assert (Hplain : in_quotes "" (template_action body) = template_action body) by apply string_app_nil. rewrite !Hin. split_and!.
  - rewrite Hone, 2!(match_quotes _ _ _ _ _ (Hq sq sq eq_refl eq_refl)) by reflexivity.
    destruct (Hv sq sq "" eq_refl eq_refl) as [-> Hr]. by rewrite Hr, Hplain.
  - rewrite Hone, 3!(match_quotes _ _ _ _ _ (Hq dq dq eq_refl eq_refl)) by reflexivity.
    destruct (Hv dq dq "" eq_refl eq_refl) as [-> Hr]. by rewrite Hr, Hplain.
  - by destruct (Hv (sq +:+ dq) (dq +:+ sq) sq eq_refl eq_refl) as [-> Hr].
  - rewrite (match_quotes _ _ _ _ _ (Hq (dq +:+ sq) (sq +:+ dq) eq_refl eq_refl)) by reflexivity.
    by destruct (Hv (dq +:+ sq) (sq +:+ dq) dq eq_refl eq_refl) as [-> Hr].
Qed.

(** ** Examples *)


Example process_ex :
  ProcessYAMLGoTemp (text ["a: " +:+ in_quotes sq "{{ .A }}"; "  b-c:  " +:+ in_quotes dq "{{ .B }}"; "d: " +:+ in_quotes sq (in_quotes dq "{{ .D }}");
    "e: " +:+ in_quotes dq (in_quotes sq "{{ .E }}"); "- " +:+ in_quotes sq "{{ .F }}"; "g: " +:+ in_quotes sq "x{{ .G }}"]) =
  text ["a: {{ .A }}"; "  b-c:  {{ .B }}"; "d: " +:+ in_quotes sq "{{ .D }}"; "e: " +:+ in_quotes dq "{{ .E }}";
    "- " +:+ in_quotes sq "{{ .F }}"; "g: " +:+ in_quotes sq "x{{ .G }}"].
Proof. vm_compute. done. Qed.

(** A quote that YAML has doubled within quotes is taken for the end. *)
Example doubled_quote_broken :
  ProcessYAMLGoTemp ("owner: " +:+ in_quotes sq ("{{ .Name }}" +:+ sq +:+ sq +:+ "s")) = "owner: {{ .Name }}" +:+ sq +:+ "s" +:+ sq.
Proof. vm_compute. done. Qed.

(** A key of a chart's values. *)
Lemma actions_unquoted_witness :
  let line := key_line "  " "replicas" in
  well_keyed "  " "replicas" ∧ plain_body " .Values.replicas " ∧
  process_line (line (in_quotes sq "{{ .Values.replicas }}")) = line "{{ .Values.replicas }}".
Proof.
  assert (Hk : well_keyed "  " "replicas") by (by split_and!). assert (Hb : plain_body " .Values.replicas ") by done.
  split; [exact Hk|]. split; [exact Hb|]. exact (proj1 (proj2 (proj2 (actions_unquoted "  " "replicas" " .Values.replicas " Hk Hb)))).
Defined.
