(* ===== verification/Labels.v ===== *)
(** * Labels, annotations and constants of the API types ([api/v1]) *)
From stdpp Require Import base gmap strings list option.
From S2P Require Import Prelude.

(** ** Annotation and label keys ([api/v1/labels.go]) *)

(** [LabelPackageVersion], api/v1/labels.go *)
Definition LabelPackageVersion : string := "middleware.cn/packageversion".
(** [LabelPackageName], api/v1/labels.go *)
Definition LabelPackageName : string := "middleware.cn/packagename".
(** [LabelComponent], api/v1/labels.go *)
Definition LabelComponent : string := "middleware.cn/component".
(** [LabelProject], api/v1/labels.go *)
Definition LabelProject : string := "middleware.cn/project".
(** [LabelBaseline], api/v1/labels.go *)
Definition LabelBaseline : string := "middleware.cn/baseline".
(** [LabelEnabled], api/v1/labels.go *)
Definition LabelEnabled : string := "middleware.cn/enabled".
(** [FinalizerPackageSecret], api/v1/labels.go *)
Definition FinalizerPackageSecret : string := "middleware.cn/package-secret-cleanup".
(** [LabelApp], api/v1/labels.go *)
Definition LabelApp : string := "middleware.cn/app".
(** [LabelConfigurations], api/v1/labels.go *)
Definition LabelConfigurations : string := "middleware.cn/configurations".
(** [LabelUpdate], api/v1/labels.go *)
Definition LabelUpdate : string := "middleware.cn/update".
(** [LabelNoOperator], api/v1/labels.go *)
Definition LabelNoOperator : string := "middleware.cn/nooperator".
(** [LabelInstall], api/v1/labels.go *)
Definition LabelInstall : string := "middleware.cn/install".
(** [LabelUnInstall], api/v1/labels.go *)
Definition LabelUnInstall : string := "middleware.cn/uninstall".
(** [AnnotationInstallDigest], api/v1/labels.go *)
Definition AnnotationInstallDigest : string := "middleware.cn/installDigest".
(** [AnnotationInstallError], api/v1/labels.go *)
Definition AnnotationInstallError : string := "middleware.cn/installError".
(** [AnnotationUninstallError], api/v1/labels.go *)
Definition AnnotationUninstallError : string := "middleware.cn/uninstallError".
(** [AnnotationSuspendReconcile], api/v1/labels.go *)
Definition AnnotationSuspendReconcile : string := "middleware.cn/suspend-reconcile".
(** [AnnotationResumePolicy], api/v1/labels.go *)
Definition AnnotationResumePolicy : string := "middleware.cn/resume-policy".
(** [AnnotationConfigurationOwnershipPolicy], api/v1/labels.go *)
Definition AnnotationConfigurationOwnershipPolicy : string := "middleware.cn/configurationOwnershipPolicy".
(** [AnnotationConfigurationDeletePolicy], api/v1/labels.go *)
Definition AnnotationConfigurationDeletePolicy : string := "middleware.cn/configurationDeletePolicy".
(** [AnnotationConfigurationDisablePolicy], api/v1/labels.go *)
Definition AnnotationConfigurationDisablePolicy : string := "middleware.cn/configurationDisablePolicy".
(** [AnnotationConfigurationOwnerUID], api/v1/labels.go *)
Definition AnnotationConfigurationOwnerUID : string := "middleware.cn/configurationOwnerUID".
(** [AnnotationConfigurationUID], api/v1/labels.go *)
Definition AnnotationConfigurationUID : string := "middleware.cn/configurationUID".
(** [ConfigurationOwnershipPolicyManaged], api/v1/labels.go *)
Definition ConfigurationOwnershipPolicyManaged : string := "managed".
(** [ConfigurationDeletePolicyDelete], api/v1/labels.go *)
Definition ConfigurationDeletePolicyDelete : string := "delete".
(** [ConfigurationDeletePolicyOrphan], api/v1/labels.go *)
Definition ConfigurationDeletePolicyOrphan : string := "orphan".
(** [ConfigurationDisablePolicyDelete], api/v1/labels.go *)
Definition ConfigurationDisablePolicyDelete : string := "delete".
(** [ConfigurationDisablePolicyOrphan], api/v1/labels.go *)
Definition ConfigurationDisablePolicyOrphan : string := "orphan".
(** [FinalizerMiddleware], api/v1/labels.go *)
Definition FinalizerMiddleware : string := "middleware.cn/middleware-cleanup".
(** [FinalizerMiddlewareOperator], api/v1/labels.go *)
Definition FinalizerMiddlewareOperator : string := "middleware.cn/middlewareoperator-cleanup".

(** ** States, condition types and reasons ([api/v1/common.go]), which are strings *)

(** [StateAvailable], api/v1/common.go *)
Definition StateAvailable : string := "Available".
(** [StateUnavailable], api/v1/common.go *)
Definition StateUnavailable : string := "Unavailable".
(** [StateUpdating], api/v1/common.go *)
Definition StateUpdating : string := "Updating".
(** [CondTypeChecked], api/v1/common.go *)
Definition CondTypeChecked : string := "Checked".
(** [CondTypeBuildPreResource], api/v1/common.go *)
Definition CondTypeBuildPreResource : string := "BuildPreResource".
(** [CondTypeBuildExtraResource], api/v1/common.go *)
Definition CondTypeBuildExtraResource : string := "BuildExtraResource".
(** [CondTypeApplyRBAC], api/v1/common.go *)
Definition CondTypeApplyRBAC : string := "ApplyRBAC".
(** [CondTypeApplyOperator], api/v1/common.go *)
Definition CondTypeApplyOperator : string := "ApplyOperator".
(** [CondTypeApplyCluster], api/v1/common.go *)
Definition CondTypeApplyCluster : string := "ApplyCluster".
(** [CondTypeMapCueFields], api/v1/common.go *)
Definition CondTypeMapCueFields : string := "MapCueFields".
(** [CondTypeExecuteAction], api/v1/common.go *)
Definition CondTypeExecuteAction : string := "ExecuteAction".
(** [CondTypeExecuteCue], api/v1/common.go *)
Definition CondTypeExecuteCue : string := "ExecuteCue".
(** [CondTypeExecuteCmd], api/v1/common.go *)
Definition CondTypeExecuteCmd : string := "ExecuteCmd".
(** [CondTypeExecuteHttp], api/v1/common.go *)
Definition CondTypeExecuteHttp : string := "ExecuteHttp".
(** [CondTypeRunning], api/v1/common.go *)
Definition CondTypeRunning : string := "Running".
(** [CondTypeTemplateParseWithBaseline], api/v1/common.go *)
Definition CondTypeTemplateParseWithBaseline : string := "TemplateParseWithBaseline".
(** [CondTypeUpdating], api/v1/common.go *)
Definition CondTypeUpdating : string := "Updating".
(** [CondTypeReconcilePaused], api/v1/common.go *)
Definition CondTypeReconcilePaused : string := "ReconcilePaused".
(** [CondTypeReconcileAdoption], api/v1/common.go *)
Definition CondTypeReconcileAdoption : string := "ReconcileAdoption".
(** [CondReasonUnknown], api/v1/common.go *)
Definition CondReasonUnknown : string := "Unknown".
(** [CondReasonIniting], api/v1/common.go *)
Definition CondReasonIniting : string := "Initing".
(** [CondReasonCheckedFailed], api/v1/common.go *)
Definition CondReasonCheckedFailed : string := "CheckedFailed".
(** [CondReasonCheckedSuccess], api/v1/common.go *)
Definition CondReasonCheckedSuccess : string := "CheckedSuccess".
(** [CondReasonBuildExtraResourceSuccess], api/v1/common.go *)
Definition CondReasonBuildExtraResourceSuccess : string := "BuildExtraResourceSuccess".
(** [CondReasonBuildExtraResourceFailed], api/v1/common.go *)
Definition CondReasonBuildExtraResourceFailed : string := "BuildExtraResourceFailed".
(** [CondReasonApplyRBACSuccess], api/v1/common.go *)
Definition CondReasonApplyRBACSuccess : string := "ApplyRBACSuccess".
(** [CondReasonApplyRBACFailed], api/v1/common.go *)
Definition CondReasonApplyRBACFailed : string := "ApplyRBACFailed".
(** [CondReasonApplyOperatorSuccess], api/v1/common.go *)
Definition CondReasonApplyOperatorSuccess : string := "ApplyOperatorSuccess".
(** [CondReasonApplyOperatorFailed], api/v1/common.go *)
Definition CondReasonApplyOperatorFailed : string := "ApplyOperatorFailed".
(** [CondReasonApplyClusterSuccess], api/v1/common.go *)
Definition CondReasonApplyClusterSuccess : string := "ApplyClusterSuccess".
(** [CondReasonApplyClusterFailed], api/v1/common.go *)
Definition CondReasonApplyClusterFailed : string := "ApplyClusterFailed".
(** [CondReasonMapCueFieldsSuccess], api/v1/common.go *)
Definition CondReasonMapCueFieldsSuccess : string := "MapCueFieldsSuccess".
(** [CondReasonMapCueFieldsFailed], api/v1/common.go *)
Definition CondReasonMapCueFieldsFailed : string := "MapCueFieldsFailed".
(** [CondReasonExecuteActionSuccess], api/v1/common.go *)
Definition CondReasonExecuteActionSuccess : string := "ExecuteActionSuccess".
(** [CondReasonExecuteActionFailed], api/v1/common.go *)
Definition CondReasonExecuteActionFailed : string := "ExecuteActionFailed".
(** [CondReasonExecuteCueSuccess], api/v1/common.go *)
Definition CondReasonExecuteCueSuccess : string := "ExecuteCueSuccess".
(** [CondReasonExecuteCueFailed], api/v1/common.go *)
Definition CondReasonExecuteCueFailed : string := "ExecuteCueFailed".
(** [CondReasonExecuteCmdSuccess], api/v1/common.go *)
Definition CondReasonExecuteCmdSuccess : string := "ExecuteCmdSuccess".
(** [CondReasonExecuteCmdFailed], api/v1/common.go *)
Definition CondReasonExecuteCmdFailed : string := "ExecuteCmdFailed".
(** [CondReasonRunningSuccess], api/v1/common.go *)
Definition CondReasonRunningSuccess : string := "RunningSuccess".
(** [CondReasonRunningFailed], api/v1/common.go *)
Definition CondReasonRunningFailed : string := "RunningFailed".
(** [CondReasonUpdatingSuccess], api/v1/common.go *)
Definition CondReasonUpdatingSuccess : string := "UpdatingSuccess".
(** [CondReasonUpdatingFailed], api/v1/common.go *)
Definition CondReasonUpdatingFailed : string := "UpdatingFailed".
(** [CondReasonTemplateParseWithBaselineSuccess], api/v1/common.go *)
Definition CondReasonTemplateParseWithBaselineSuccess : string := "TemplateParseWithBaselineSuccess".
(** [CondReasonTemplateParseWithBaselineFailed], api/v1/common.go *)
Definition CondReasonTemplateParseWithBaselineFailed : string := "TemplateParseWithBaselineFailed".
(** [CondReasonReconcilePaused], api/v1/common.go *)
Definition CondReasonReconcilePaused : string := "ReconcilePaused".
(** [CondReasonReconcileSnapshotFailed], api/v1/common.go *)
Definition CondReasonReconcileSnapshotFailed : string := "ReconcileSnapshotFailed".
(** [CondReasonReconcileAdoptionSucceeded], api/v1/common.go *)
Definition CondReasonReconcileAdoptionSucceeded : string := "ReconcileAdoptionSucceeded".
(** [CondReasonReconcileAdoptionFailed], api/v1/common.go *)
Definition CondReasonReconcileAdoptionFailed : string := "ReconcileAdoptionFailed".
(** [CondReasonReconcileAdoptionConflict], api/v1/common.go *)
Definition CondReasonReconcileAdoptionConflict : string := "ReconcileAdoptionConflict".

(** [metav1.ConditionStatus], a string too. *)
Definition ConditionTrue : string := "True".
Definition ConditionFalse : string := "False".
Definition ConditionUnknown : string := "Unknown".

(** [metav1.Condition]; a time is a [Z]. *)
Record condition := Condition {
  c_type : string;
  c_status : string;
  c_observedGeneration : Z;
  c_lastTransitionTime : Z;
  c_reason : string;
  c_message : string;
}.
#[export] Instance condition_eq_dec : EqDecision condition.
Proof. solve_decision. Defined.

(** ** Suspension of reconciliation ([api/v1/labels.go]) *)

(** [ReconcileResumePolicy], api/v1/labels.go:82-93 *)
Inductive ReconcileResumePolicy := ResumeMerge | ResumeApply.
#[export] Instance ReconcileResumePolicy_eq_dec : EqDecision ReconcileResumePolicy.
Proof. solve_decision. Defined.

(** [IsReconcileSuspended], api/v1/labels.go *)
Definition IsReconcileSuspended (annotations : gmap string string) : bool :=
  bool_decide (annotations.[AnnotationSuspendReconcile] = "true").

(** The second result of the code is [false] exactly when this is [None]. *)
(** [ReconcileResumePolicyFor], api/v1/labels.go *)
Definition ReconcileResumePolicyFor (annotations : gmap string string) : option ReconcileResumePolicy :=
  if decide (annotations.[AnnotationResumePolicy] = "merge") then Some ResumeMerge
  else if decide (annotations.[AnnotationResumePolicy] = "apply") then Some ResumeApply
  else None.

(** [IsMiddlewareReconcileWriteSuspended], api/v1/labels.go *)
Definition IsMiddlewareReconcileWriteSuspended
    (annotations : gmap string string) (conditions : list condition) : bool :=
  if IsReconcileSuspended annotations then true
  else if ReconcileResumePolicyFor annotations then false
  else existsb (λ c, bool_decide (c_type c = CondTypeReconcilePaused)
                     && bool_decide (c_status c = ConditionTrue)) conditions.

(** *** Lemmas *)

Lemma suspended_iff annotations :
  IsReconcileSuspended annotations = true ↔ annotations !! AnnotationSuspendReconcile = Some "true".
Proof.
  unfold IsReconcileSuspended, str_at. rewrite bool_decide_eq_true.
  destruct (annotations !! _); simpl; naive_solver.
Qed.

Lemma resume_policy_spec annotations :
  match ReconcileResumePolicyFor annotations with
  | Some ResumeMerge => annotations.[AnnotationResumePolicy] = "merge"
  | Some ResumeApply => annotations.[AnnotationResumePolicy] = "apply"
  | None => annotations.[AnnotationResumePolicy] ≠ "merge" ∧ annotations.[AnnotationResumePolicy] ≠ "apply"
  end.
Proof. unfold ReconcileResumePolicyFor. by repeat case_decide. Qed.
