(* ===== verification/Conditions.v ===== *)
(** * Status conditions and the durable pause marker

    [internal/service/status/condition.go], the condition helpers of
    [internal/controller/reconcile_suspension.go] and the fold of the
    conditions into a state in [internal/controller/middleware_controller.go].
    A [*Condition] points into the slice of conditions, so an operation on it
    is an update of the slice at that index. *)
From stdpp Require Import base gmap strings list option.
From Stdlib Require Import ZArith Lia.
From S2P Require Import Prelude Labels.

(** ** The library functions the code calls

    [meta.FindStatusCondition] returns a pointer to the first condition of the
    type, here its index; [meta.SetStatusCondition] appends a condition whose
    type is absent, and sets its transition time only if it is zero. *)
Class MetaConditions := {
  FindStatusCondition : list condition → string → option nat;
  SetStatusCondition : list condition → condition → list condition;
  find_some cs t i : FindStatusCondition cs t = Some i →
    ∃ c, cs !! i = Some c ∧ c_type c = t ∧ ∀ j c', j < i → cs !! j = Some c' → c_type c' ≠ t;
  find_none cs t : FindStatusCondition cs t = None ↔ Forall (λ c, c_type c ≠ t) cs;
  set_absent cs c : Forall (λ c', c_type c' ≠ c_type c) cs → c_lastTransitionTime c ≠ 0%Z →
    SetStatusCondition cs c = cs ++ [c];
}.

(** An implementation, for the witnesses. *)
Definition find_index (cs : list condition) (t : string) : option nat :=
  fst <$> list_find (λ c, c_type c = t) cs.
Definition set_by_append (cs : list condition) (c : condition) : list condition := cs ++ [c].

Lemma find_index_some cs t i : find_index cs t = Some i →
  ∃ c, cs !! i = Some c ∧ c_type c = t ∧ ∀ j c', j < i → cs !! j = Some c' → c_type c' ≠ t.
Proof.
  unfold find_index. intros ([i' c] & Hf & ->)%fmap_Some. simpl.
  apply list_find_Some in Hf as (? & ? & Hj). exists c. split_and!; try done. intros j c' ??. by eapply Hj.
Qed.

Lemma find_index_none cs t : find_index cs t = None ↔ Forall (λ c, c_type c ≠ t) cs.
Proof. unfold find_index. by rewrite fmap_None, list_find_None. Qed.

Definition meta_by_list : MetaConditions :=
  Build_MetaConditions find_index set_by_append find_index_some find_index_none (λ _ _ _ _, eq_refl).

(** ** [internal/service/status/condition.go] *)

(** The reason given by a switch on the condition's type: the constants are the
    type followed by the suffix only by convention, so they are spelled out. *)
Definition reason_of (table : list (string * string)) (t old : string) : string :=
  match list_find (λ kv, kv.1 = t) table with Some (_, (_, r)) => r | None => old end.

(** [Failed], internal/service/status/condition.go:57-82 *)
Definition failed_reasons : list (string * string) :=
  [ (CondTypeChecked, CondReasonCheckedFailed);
    (CondTypeBuildExtraResource, CondReasonBuildExtraResourceFailed);
    (CondTypeApplyRBAC, CondReasonApplyRBACFailed);
    (CondTypeApplyOperator, CondReasonApplyOperatorFailed);
    (CondTypeApplyCluster, CondReasonApplyClusterFailed);
    (CondTypeMapCueFields, CondReasonMapCueFieldsFailed);
    (CondTypeExecuteAction, CondReasonExecuteActionFailed);
    (CondTypeExecuteCue, CondReasonExecuteCueFailed);
    (CondTypeExecuteCmd, CondReasonExecuteCmdFailed);
    (CondTypeRunning, CondReasonRunningFailed);
    (CondTypeUpdating, CondReasonUpdatingFailed);
    (CondTypeTemplateParseWithBaseline, CondReasonTemplateParseWithBaselineFailed) ].

(** [Success], internal/service/status/condition.go:95-120 *)
Definition success_reasons : list (string * string) :=
  [ (CondTypeChecked, CondReasonCheckedSuccess);
    (CondTypeBuildExtraResource, CondReasonBuildExtraResourceSuccess);
    (CondTypeApplyRBAC, CondReasonApplyRBACSuccess);
    (CondTypeApplyOperator, CondReasonApplyOperatorSuccess);
    (CondTypeApplyCluster, CondReasonApplyClusterSuccess);
    (CondTypeMapCueFields, CondReasonMapCueFieldsSuccess);
    (CondTypeExecuteAction, CondReasonExecuteActionSuccess);
    (CondTypeExecuteCue, CondReasonExecuteCueSuccess);
    (CondTypeExecuteCmd, CondReasonExecuteCmdSuccess);
    (CondTypeRunning, CondReasonRunningSuccess);
    (CondTypeUpdating, CondReasonUpdatingSuccess);
    (CondTypeTemplateParseWithBaseline, CondReasonTemplateParseWithBaselineSuccess) ].

(** [Failed], internal/service/status/condition.go *)
Definition Failed (now : Z) (message : string) (og : Z) (c : condition) : condition :=
  let reason := reason_of failed_reasons (c_type c) (c_reason c) in
  let reason := if String.prefix "STEP-" (c_type c) then CondReasonExecuteActionFailed else reason in
  Condition (c_type c) ConditionFalse og now reason message.

(** [Success], internal/service/status/condition.go *)
Definition Success (now og : Z) (c : condition) : condition :=
  Condition (c_type c) ConditionTrue og now (reason_of success_reasons (c_type c) (c_reason c)) "Succeeded".

(** [SuccessWithMsg], internal/service/status/condition.go *)
Definition SuccessWithMsg (now : Z) (msg : string) (og : Z) (c : condition) : condition :=
  let reason := reason_of [(CondTypeExecuteCmd, CondReasonExecuteCmdSuccess);
                           (CondTypeExecuteCue, CondReasonExecuteCueSuccess)] (c_type c) (c_reason c) in
  let reason := if String.prefix "STEP-" (c_type c) then CondReasonExecuteActionSuccess else reason in
  Condition (c_type c) ConditionTrue og now reason msg.

(** [ConditionInit], internal/service/status/condition.go *)
Definition ConditionInit (now : Z) (typo : string) (og : Z) : condition :=
  Condition typo ConditionUnknown og now CondReasonIniting "Initializing".

Section Operations.
Context `{MetaConditions}.

(** The conditions afterwards and the index of the one pointed to ([None]: the
    nil pointer, whose use panics). *)
(** [GetCondition], internal/service/status/condition.go *)
Definition GetCondition (now : Z) (conditions : list condition) (conditionType : string) :
    list condition * option nat :=
  match FindStatusCondition conditions conditionType with
  | Some i => (conditions, Some i)
  | None =>
      let conditions := SetStatusCondition conditions (ConditionInit now conditionType 1) in
      (conditions, FindStatusCondition conditions conditionType)
  end.

(** ** The pause marker ([internal/controller/reconcile_suspension.go]) *)

(** [reconcilePausedMessage], internal/controller/reconcile_suspension.go *)
Definition reconcilePausedMessage : string :=
  "reconciliation is suspended by middleware.cn/suspend-reconcile=true".

(** [None]: the nil pointer was used. *)
(** [markReconcilePaused], internal/controller/reconcile_suspension.go *)
Definition markReconcilePaused (now : Z) (conditions : list condition) (generation : Z) :
    option (list condition * bool) :=
  let '(conditions, p) := GetCondition now conditions CondTypeReconcilePaused in
  i ← p; c ← conditions !! i;
  let wasPaused := bool_decide (c_status c = ConditionTrue) in
  if bool_decide (c_status c = ConditionTrue) &&
     bool_decide (c_observedGeneration c = generation) &&
     bool_decide (c_reason c = CondReasonReconcilePaused) &&
     bool_decide (c_message c = reconcilePausedMessage)
  then Some (conditions, false)
  else
    let ltt := if wasPaused then c_lastTransitionTime c else now in
    Some (<[i := Condition (c_type c) ConditionTrue generation ltt
                   CondReasonReconcilePaused reconcilePausedMessage]> conditions, true).

(** [hasReconcilePaused], internal/controller/reconcile_suspension.go *)
Definition hasReconcilePaused (conditions : list condition) : bool :=
  existsb (λ c, bool_decide (c_type c = CondTypeReconcilePaused)
                && bool_decide (c_status c = ConditionTrue)) conditions.

(** The loop of the two [clear] functions. *)
(** [clearReconcilePaused], internal/controller/reconcile_suspension.go:70-82 *)
Definition clear_type (t : string) (conditions : list condition) : list condition * bool :=
  foldl (λ '(filtered, removed) c,
           if decide (c_type c = t) then (filtered, true) else (filtered ++ [c], removed))
        ([], false) conditions.

(** [clearReconcilePaused], internal/controller/reconcile_suspension.go *)
Definition clearReconcilePaused (conditions : list condition) : list condition * bool :=
  let '(filtered, removed) := clear_type CondTypeReconcilePaused conditions in
  if removed then (filtered, removed) else (conditions, removed).

(** [setReconcileAdoptionCondition], internal/controller/reconcile_suspension.go *)
Definition setReconcileAdoptionCondition (now : Z) (conditions : list condition)
    (conditionStatus reason message : string) (generation : Z) : option (list condition * bool) :=
  let '(conditions, p) := GetCondition now conditions CondTypeReconcileAdoption in
  i ← p; c ← conditions !! i;
  if bool_decide (c_status c = conditionStatus) &&
     bool_decide (c_observedGeneration c = generation) &&
     bool_decide (c_reason c = reason) &&
     bool_decide (c_message c = message)
  then Some (conditions, false)
  else
    let ltt := if decide (c_status c = conditionStatus) then c_lastTransitionTime c else now in
    Some (<[i := Condition (c_type c) conditionStatus generation ltt reason message]> conditions, true).

(** [clearReconcileAdoptionCondition], internal/controller/reconcile_suspension.go *)
Definition clearReconcileAdoptionCondition (conditions : list condition) : list condition * bool :=
  let '(filtered, removed) := clear_type CondTypeReconcileAdoption conditions in
  if removed then (filtered, removed) else (conditions, removed).
End Operations.

(** ** Lemmas *)

Lemma clear_type_acc t cs fs r :
  foldl (λ '(filtered, removed) c,
           if decide (c_type c = t) then (filtered, true) else (filtered ++ [c], removed)) (fs, r) cs =
  (fs ++ filter (λ c, c_type c ≠ t) cs, r || existsb (λ c, bool_decide (c_type c = t)) cs).
Proof.
  revert fs r. induction cs as [|c cs IH]; intros fs r; simpl.
  - by rewrite app_nil_r, orb_false_r.
  - rewrite filter_cons. destruct (decide (c_type c = t)) as [Ht|Ht].
    + rewrite IH, decide_False, bool_decide_eq_true_2 by naive_solver. by rewrite !orb_true_r.
    + rewrite IH, decide_True, bool_decide_eq_false_2 by done. by rewrite <- app_assoc.
Qed.

Lemma clear_type_spec t cs :
  clear_type t cs = (filter (λ c, c_type c ≠ t) cs, existsb (λ c, bool_decide (c_type c = t)) cs).
Proof. unfold clear_type. by rewrite clear_type_acc. Qed.

Lemma filter_absent t cs :
  existsb (λ c, bool_decide (c_type c = t)) cs = false → filter (λ c, c_type c ≠ t) cs = cs.
Proof.
  induction cs as [|c cs IH]; [done|]. simpl. intros [Hc Hcs]%orb_false_iff.
  apply bool_decide_eq_false in Hc. by rewrite filter_cons, decide_True, IH.
Qed.

(** Clearing keeps the other conditions, in order, and tells whether there was
    one to remove. *)
Lemma clearReconcilePaused_spec cs :
  clearReconcilePaused cs = (filter (λ c, c_type c ≠ CondTypeReconcilePaused) cs,
                             existsb (λ c, bool_decide (c_type c = CondTypeReconcilePaused)) cs).
Proof.
  unfold clearReconcilePaused. rewrite clear_type_spec. destruct (existsb _ cs) eqn:E; [done|].
  by rewrite filter_absent.
Qed.

Lemma clearReconcileAdoption_spec cs :
  clearReconcileAdoptionCondition cs = (filter (λ c, c_type c ≠ CondTypeReconcileAdoption) cs,
                             existsb (λ c, bool_decide (c_type c = CondTypeReconcileAdoption)) cs).
Proof.
  unfold clearReconcileAdoptionCondition. rewrite clear_type_spec. destruct (existsb _ cs) eqn:E; [done|].
  by rewrite filter_absent.
Qed.

Lemma filter_insert_type t (cs : list condition) i c c' :
  cs !! i = Some c → c_type c = t → c_type c' = t →
  filter (λ c, c_type c ≠ t) (<[i := c']> cs) = filter (λ c, c_type c ≠ t) cs.
Proof.
  intros Hi Hc Hc'. revert i Hi. induction cs as [|x cs IH]; intros [|i] Hi; simplify_eq/=.
  - rewrite !filter_cons, !decide_False by naive_solver. done.
  - rewrite !filter_cons. by rewrite IH.
Qed.

Lemma has_paused_spec cs :
  hasReconcilePaused cs = true ↔ ∃ c, c ∈ cs ∧ c_type c = CondTypeReconcilePaused ∧ c_status c = ConditionTrue.
Proof.
  unfold hasReconcilePaused. rewrite existsb_exists. setoid_rewrite <- list_elem_of_In.
  setoid_rewrite andb_true_iff. by setoid_rewrite bool_decide_eq_true.
Qed.

Lemma has_paused_cleared cs : hasReconcilePaused (clearReconcilePaused cs).1 = false.
Proof.
  rewrite clearReconcilePaused_spec. apply not_true_iff_false. rewrite has_paused_spec.
  intros (c & Hc & ? & _). apply list_elem_of_filter in Hc as [Hc _]. done.
Qed.

Section Lemmas.
Context `{MetaConditions}.

(** The laws determine which condition is found. *)
Lemma find_first cs t i c :
  cs !! i = Some c → c_type c = t → (∀ j c', j < i → cs !! j = Some c' → c_type c' ≠ t) →
  FindStatusCondition cs t = Some i.
Proof.
  intros Hi Hc Hfirst. destruct (FindStatusCondition cs t) as [j|] eqn:Ef.
  - apply find_some in Ef as (c' & Hj & Hc' & Hlt). f_equal.
    destruct (Nat.lt_trichotomy i j) as [|[|]]; [|done|]; exfalso; naive_solver.
  - apply find_none in Ef. rewrite Forall_lookup in Ef. by destruct (Ef i c).
Qed.

Lemma find_update cs t i c :
  FindStatusCondition cs t = Some i → c_type c = t → FindStatusCondition (<[i := c]> cs) t = Some i.
Proof.
  intros (c0 & Hi & Hc0 & Hlt)%find_some Hc. eapply find_first; [|exact Hc|].
  - apply list_lookup_insert_eq. by eapply lookup_lt_Some.
  - intros j c' Hj. rewrite list_lookup_insert_ne by lia. by apply Hlt.
Qed.

Lemma GetCondition_spec now cs t : (now ≠ 0)%Z →
  ∃ cs' i c, GetCondition now cs t = (cs', Some i) ∧ cs' !! i = Some c ∧ c_type c = t ∧
    FindStatusCondition cs' t = Some i ∧
    filter (λ c, c_type c ≠ t) cs' = filter (λ c, c_type c ≠ t) cs ∧
    (FindStatusCondition cs t = Some i ∧ cs' = cs ∨ FindStatusCondition cs t = None ∧ c = ConditionInit now t 1).
Proof.
  intros Hnow. unfold GetCondition. destruct (FindStatusCondition cs t) as [i|] eqn:Ef.
  - destruct (find_some _ _ _ Ef) as (c & Hi & Hc & _). exists cs, i, c. eauto 10.
  - pose proof Ef as Hno. apply find_none in Hno. rewrite set_absent by done.
    assert (Hl : (cs ++ [ConditionInit now t 1]) !! length cs = Some (ConditionInit now t 1))
      by (by rewrite lookup_app_r, Nat.sub_diag by done).
    assert (Hf : FindStatusCondition (cs ++ [ConditionInit now t 1]) t = Some (length cs)).
    { eapply find_first; [exact Hl|done|]. intros j c' Hj. rewrite lookup_app_l by done.
      intros Hj'. exact (Forall_lookup_1 _ _ _ _ Hno Hj'). }
    exists (cs ++ [ConditionInit now t 1]), (length cs), (ConditionInit now t 1). rewrite Hf. split_and!; try done.
    + rewrite list.filter_app. rewrite (filter_cons_False _ (ConditionInit now t 1)) by naive_solver.
      by rewrite app_nil_r.
    + by right.
Qed.

(** The condition [markReconcilePaused] leaves. *)
Definition paused_condition (ltt generation : Z) : condition :=
  Condition CondTypeReconcilePaused ConditionTrue generation ltt CondReasonReconcilePaused reconcilePausedMessage.

Lemma mark_spec now cs g : (now ≠ 0)%Z →
  ∃ cs' i ltt changed, markReconcilePaused now cs g = Some (cs', changed) ∧
    FindStatusCondition cs' CondTypeReconcilePaused = Some i ∧ cs' !! i = Some (paused_condition ltt g) ∧
    filter (λ c, c_type c ≠ CondTypeReconcilePaused) cs' = filter (λ c, c_type c ≠ CondTypeReconcilePaused) cs ∧
    (changed = false → cs' = cs) ∧
    ltt = match FindStatusCondition cs CondTypeReconcilePaused ≫= λ i, cs !! i with
          | Some c => if decide (c_status c = ConditionTrue) then c_lastTransitionTime c else now
          | None => now end.
Proof.
  intros Hnow. destruct (GetCondition_spec now cs CondTypeReconcilePaused Hnow)
    as (cs1 & i & c & Hg & Hi & Hc & Hf & Hfil & Hold).
  unfold markReconcilePaused. rewrite Hg. simpl. rewrite Hi. simpl.
  destruct (bool_decide (c_status c = ConditionTrue) && _ && _ && _) eqn:Esame.
  - rewrite !andb_true_iff, !bool_decide_eq_true in Esame. destruct Esame as [[[Hs Ho] Hr] Hm].
    exists cs1, i, (c_lastTransitionTime c), false. split_and!; try done.
    + rewrite Hi. f_equal. destruct c; unfold paused_condition; simpl in *; by subst.
    + intros _. destruct Hold as [[_ ?]|[_ ->]]; done.
    + destruct Hold as [[-> ->]|[-> ->]]; [|done]. simpl. by rewrite Hi, decide_True.
  - eexists _, i, _, true. split; [reflexivity|]. rewrite list_lookup_insert_eq by (by eapply lookup_lt_Some).
    split; [by apply find_update|]. split; [by rewrite Hc|].
    rewrite (filter_insert_type _ _ _ c) by done. split; [done|]. split; [done|].
    destruct Hold as [[-> ->]|[-> ->]]; simpl; [rewrite Hi|done].
    case_decide; [by rewrite bool_decide_eq_true_2|by rewrite bool_decide_eq_false_2].
Qed.
End Lemmas.

(** ** Properties *)

Section Properties.
Context `{MetaConditions}.

(** The pause marker is durable, idempotent and self-contained: marking
    always succeeds and leaves a True marker of the current generation whose
    transition time is when the pause began; marking again in the same
    generation changes nothing (so no status write is due); the other
    conditions are untouched; and clearing afterwards gives back exactly the
    conditions other than the marker. *)
Theorem pause_marker_lifecycle now later cs g :
  now ≠ 0%Z →
  ∃ cs' changed ltt, markReconcilePaused now cs g = Some (cs', changed) ∧
    paused_condition ltt g ∈ cs' ∧
    (hasReconcilePaused cs = false → ltt = now) ∧
    hasReconcilePaused cs' = true ∧
    markReconcilePaused later cs' g = Some (cs', false) ∧
    clearReconcilePaused cs' = (filter (λ c, c_type c ≠ CondTypeReconcilePaused) cs, true) ∧
    hasReconcilePaused (clearReconcilePaused cs').1 = false.
Proof.
  intros Hnow. destruct (mark_spec now cs g Hnow) as (cs' & i & ltt & ch & Hm & Hf & Hi & Hfil & _ & Hltt).
  assert (Hin : paused_condition ltt g ∈ cs') by (by eapply list_elem_of_lookup_2).
  exists cs', ch, ltt. split_and!; try done.
  - intros Hno. rewrite Hltt. destruct (FindStatusCondition cs _) as [j|] eqn:Ej; [|done]. simpl.
    apply find_some in Ej as (c & Hj & Hc & _). rewrite Hj. rewrite decide_False; [done|].
    intros Ht. apply not_true_iff_false in Hno. apply Hno, has_paused_spec. exists c.
    split; [by eapply list_elem_of_lookup_2|done].
  - apply has_paused_spec. by exists (paused_condition ltt g).
  - unfold markReconcilePaused, GetCondition. rewrite Hf. simpl. rewrite Hi. simpl.
    by rewrite !bool_decide_eq_true_2.
  - rewrite clearReconcilePaused_spec, Hfil. f_equal. apply existsb_exists.
    exists (paused_condition ltt g). split; [by apply list_elem_of_In|]. by rewrite bool_decide_eq_true_2.
  - apply has_paused_cleared.
Qed.

(** While the marker is set, the Middleware write path stays closed until a
    supported resume policy approves the next write, also after the suspend
    annotation was simply deleted; once the marker is cleared only the
    annotation, with the exact value "true", closes it. *)
Theorem write_suspension now cs g annotations cs' changed :
  now ≠ 0%Z → markReconcilePaused now cs g = Some (cs', changed) →
  (IsMiddlewareReconcileWriteSuspended annotations cs' = false ↔
     annotations !! AnnotationSuspendReconcile ≠ Some "true" ∧
     (annotations !! AnnotationResumePolicy = Some "merge" ∨ annotations !! AnnotationResumePolicy = Some "apply")) ∧
  (IsMiddlewareReconcileWriteSuspended annotations (clearReconcilePaused cs').1 = true ↔
     annotations !! AnnotationSuspendReconcile = Some "true").
Proof.
  intros Hnow Hmark. destruct (mark_spec now cs g Hnow) as (cs1 & i & ltt & ch & Hm & _ & Hi & _).
  rewrite Hm in Hmark. injection Hmark as -> ->.
  assert (Hp : hasReconcilePaused cs' = true).
  { apply has_paused_spec. exists (paused_condition ltt g). split; [by eapply list_elem_of_lookup_2|done]. }
  pose proof (has_paused_cleared cs') as Hc. unfold hasReconcilePaused in Hp, Hc.
  unfold IsMiddlewareReconcileWriteSuspended. rewrite Hp, Hc. rewrite <- suspended_iff.
  pose proof (resume_policy_spec annotations) as Hpol. unfold str_at in Hpol.
  destruct (IsReconcileSuspended annotations); [naive_solver|].
  destruct (ReconcileResumePolicyFor annotations) as [[]|], (annotations !! AnnotationResumePolicy);
    simpl in *; naive_solver.
Qed.
End Properties.

Definition ready : condition := Condition CondTypeRunning ConditionTrue 3 10 "RunningSuccess" "Succeeded".

Lemma pause_marker_lifecycle_witness :
  ∃ cs' changed, @markReconcilePaused meta_by_list 50%Z [ready] 3%Z = Some (cs', changed) ∧
    @markReconcilePaused meta_by_list 60%Z cs' 3%Z = Some (cs', false) ∧ (clearReconcilePaused cs').1 = [ready].
Proof.
  destruct (@pause_marker_lifecycle meta_by_list 50%Z 60%Z [ready] 3%Z ltac:(discriminate))
    as (cs' & ch & ltt & H1 & _ & _ & _ & H2 & H3 & _).
  exists cs', ch. split; [exact H1|]. split; [exact H2|]. rewrite H3. reflexivity.
Defined.

Lemma write_suspension_witness :
  IsMiddlewareReconcileWriteSuspended ∅ [ready; paused_condition 50 3] = true ∧
  IsMiddlewareReconcileWriteSuspended {[AnnotationResumePolicy := "apply"]} [ready; paused_condition 50 3] = false.
Proof.
  pose proof (λ a, @write_suspension meta_by_list 50%Z [ready] 3%Z a [ready; paused_condition 50 3] true
    ltac:(discriminate) eq_refl) as H.
  split.
  - apply not_false_iff_true. intros Hf. apply (H ∅) in Hf as [_ [Hf|Hf]]; discriminate Hf.
  - apply (H {[AnnotationResumePolicy := "apply"]}). split; [intros Hf; discriminate Hf|right; reflexivity].
Defined.
