(* ===== verification/SyncMap.v ===== *)
(** * Identity-scoped registries over [sync.Map]

    Three components of the operator (SyncV2 sessions, namespace informer
    entries, custom resource watchers) keep their live objects in a
    [sync.Map] and follow one discipline: an object is published with
    [LoadOrStore] only where the key is free, and is withdrawn with
    [CompareAndDelete] only by identity and only once it is dead.  This file
    models the four [sync.Map] operations of the Go standard library the
    source uses and proves, once, what the discipline gives. *)
From stdpp Require Import base gmap strings list option.
From S2P Require Import Prelude.

(** ** The operations *)

Section Ops.
Context {K V : Type} `{Countable K, EqDecision V}.
Implicit Types (m : gmap K V) (k : K) (v : V).

(** [m.Load(k)]. *)
Definition map_load m k : option V := m !! k.

(** [m.LoadOrStore(k, v)]: the value now at [k] and whether it was there
    before. *)
Definition load_or_store m k v : gmap K V * (V * bool) :=
  match m !! k with
  | Some w => (m, (w, true))
  | None => (<[k := v]> m, (v, false))
  end.

(** [m.CompareAndDelete(k, v)]. *)
Definition compare_and_delete m k v : gmap K V :=
  if decide (m !! k = Some v) then delete k m else m.

Lemma cad_lookup_ne m k k' v : k ≠ k' → compare_and_delete m k v !! k' = m !! k'.
Proof. intros. unfold compare_and_delete. case_decide; by simplify_map_eq. Qed.

Lemma cad_lookup_Some m k v k' w :
  compare_and_delete m k v !! k' = Some w ↔ m !! k' = Some w ∧ ¬ (k' = k ∧ w = v).
Proof.
  unfold compare_and_delete. case_decide as Hd.
  - rewrite lookup_delete_Some. naive_solver.
  - naive_solver.
Qed.

Lemma cad_keeps_other m k v w : m !! k = Some w → w ≠ v → compare_and_delete m k v !! k = Some w.
Proof. intros. apply cad_lookup_Some. naive_solver. Qed.

Lemma cad_other_id m k v : m !! k ≠ Some v → compare_and_delete m k v = m.
Proof. intros. unfold compare_and_delete. by rewrite decide_False. Qed.
End Ops.

(** ** The discipline

    [home] is a history variable: the key under which each object was
    published.  [homed] says that a published object that is no longer in the
    map under its key is dead. *)

Section Homed.
Context {K L V : Type} `{Countable K, Countable L, EqDecision V}.
Context (emb : L → V) `{!Inj (=) (=) emb}.
Implicit Types (m : gmap K V) (home : gmap L K) (dead : L → Prop).

Definition homed m home dead : Prop :=
  ∀ l k, home !! l = Some k → m !! k = Some (emb l) ∨ dead l.

Lemma homed_empty dead : homed ∅ ∅ dead.
Proof. intros l k. by rewrite lookup_empty. Qed.

Lemma homed_mono m home dead dead' :
  (∀ l, dead l → dead' l) → homed m home dead → homed m home dead'.
Proof. intros Hsub Hh l k Hl. destruct (Hh l k Hl); eauto. Qed.

Lemma homed_publish m home dead k l :
  m !! k = None → homed m home dead → homed (<[k := emb l]> m) (<[l := k]> home) dead.
Proof.
  intros Hk Hh l' k'. rewrite lookup_insert_Some.
  intros [[-> ->]|[Hne Hl']]; [left; by simplify_map_eq|].
  destruct (Hh l' k' Hl') as [Hm|?]; [|by right].
  left. destruct (decide (k = k')); by simplify_map_eq.
Qed.

Lemma homed_withdraw m home dead k l :
  dead l → homed m home dead → homed (compare_and_delete m k (emb l)) home dead.
Proof.
  intros Hd Hh l' k' Hl'. destruct (Hh l' k' Hl') as [Hm|?]; [|by right].
  destruct (decide (l' = l)) as [->|]; [by right|].
  left. apply cad_lookup_Some. naive_solver.
Qed.

(** The point of the discipline: two live objects never share a key. *)
Lemma homed_exclusive m home dead k l1 l2 :
  homed m home dead → home !! l1 = Some k → home !! l2 = Some k →
  ¬ dead l1 → ¬ dead l2 → l1 = l2.
Proof. intros Hh H1 H2 Hd1 Hd2. destruct (Hh _ _ H1), (Hh _ _ H2); naive_solver. Qed.

(** ... and the live one is what a reader of the map finds. *)
Lemma homed_current m home dead k l :
  homed m home dead → home !! l = Some k → ¬ dead l → m !! k = Some (emb l).
Proof. intros Hh Hl Hd. by destruct (Hh _ _ Hl). Qed.
End Homed.

Create HintDb registry.
#[export] Hint Resolve homed_empty homed_publish homed_withdraw : registry.
