(* ===== verification/SyncSession.v ===== *)
(** * SyncV2 sessions ([internal/service/synchronizer/sync_state.go] and the
    life of [SyncCustomResourceV2] in [sync_v2.go])

    One session runs per custom resource.  Sessions live in a heap, the
    registry [SyncCustomResourceStopChanMap] is a [sync.Map] from session keys
    to heap locations, and every goroutine is a program counter.  A step of the
    system is one atomic action of one goroutine: a [sync.Map] operation or a
    critical section under the session's mutex. *)
From stdpp Require Import base gmap strings list option relations.
From S2P Require Import Prelude SyncMap.

Abbreviation loc := nat (only parsing).

(** ** Data *)

(** The session record; a closed channel is the number of times it was closed,
    so that a second close (a panic in Go) would be visible. *)
(** [syncCustomResourceSession], internal/service/synchronizer/sync_state.go *)
Record session := Session {
  ss_parent : nat;         (** the context it was derived from *)
  ss_cancelled : bool;     (** its own [cancel] was called *)
  ss_stop_closes : nat;    (** closes of [stopCh] *)
  ss_done_closes : nat;    (** closes of [done] *)
  ss_stopped : bool;
  ss_once : bool;          (** [releaseOnce] has begun *)
  ss_lease : N;
}.

(** A value of the registry: a session, or (the map is untyped) anything else. *)
Inductive entry := ESession (l : loc) | EOther.
#[export] Instance entry_eq_dec : EqDecision entry.
Proof. solve_decision. Defined.

#[export] Instance ESession_inj : Inj (=) (=) ESession.
Proof. by intros ?? [= ->]. Qed.

Definition lease_modulus : N := 2 ^ 64.

(** The process: the registry, the heap, the contexts cancelled from outside,
    the lease counter, the debouncer registry (each debouncer is the token of
    the session that registered it), and the history variable [sy_home]. *)
Record sys := Sys {
  sy_map : gmap string entry;
  sy_heap : gmap loc session;
  sy_ctx_done : gset nat;
  sy_next_lease : N;
  sy_deb : gmap string loc;
  sy_home : gmap loc string;
}.

Definition sys_empty : sys := Sys ∅ ∅ ∅ 0 ∅ ∅.

Definition set_map (s : sys) m := Sys m (sy_heap s) (sy_ctx_done s) (sy_next_lease s) (sy_deb s) (sy_home s).
Definition set_deb (s : sys) d := Sys (sy_map s) (sy_heap s) (sy_ctx_done s) (sy_next_lease s) d (sy_home s).
Definition upd_session (s : sys) (l : loc) (f : session → session) : sys :=
  Sys (sy_map s) (alter f l (sy_heap s)) (sy_ctx_done s) (sy_next_lease s) (sy_deb s) (sy_home s).

(** ** Operations *)

(** [ctx.Err() != nil]: cancelled itself, or through its parent. *)
Definition ctx_err (s : sys) (x : session) : bool :=
  ss_cancelled x || bool_decide (ss_parent x ∈ sy_ctx_done s).

(** [newSyncCustomResourceSession], internal/service/synchronizer/sync_state.go *)
Definition new_session (s : sys) (parent : nat) : sys * loc :=
  let l := fresh (dom (sy_heap s)) in
  let lease := ((sy_next_lease s + 1) `mod` lease_modulus)%N in
  (Sys (sy_map s) (<[l := Session parent false 0 0 false false lease]> (sy_heap s))
       (sy_ctx_done s) lease (sy_deb s) (sy_home s), l).

Arguments new_session : simpl never.

(** [stop], internal/service/synchronizer/sync_state.go *)
Definition stop (x : session) : session :=
  if ss_stopped x then x
  else Session (ss_parent x) true (S (ss_stop_closes x)) (ss_done_closes x) true (ss_once x) (ss_lease x).

Definition cancel (x : session) : session :=
  Session (ss_parent x) true (ss_stop_closes x) (ss_done_closes x) (ss_stopped x) (ss_once x) (ss_lease x).
Definition begin_once (x : session) : session :=
  Session (ss_parent x) (ss_cancelled x) (ss_stop_closes x) (ss_done_closes x) (ss_stopped x) true (ss_lease x).
Definition close_done (x : session) : session :=
  Session (ss_parent x) (ss_cancelled x) (ss_stop_closes x) (S (ss_done_closes x)) (ss_stopped x) (ss_once x) (ss_lease x).

(** A nil session (no such location) counts as stopped. *)
(** [isStopped], internal/service/synchronizer/sync_state.go *)
Definition is_stopped (s : sys) (l : loc) : bool :=
  match sy_heap s !! l with
  | None => true
  | Some x => ss_stopped x || ctx_err s x
  end.

(** The registered callback is [RegisterDebouncer(ns, mid.Name, triggerFn)]. *)
(** [registerIfActive], internal/service/synchronizer/sync_state.go *)
Definition register_if_active (s : sys) (l : loc) (mid : string) : sys * bool :=
  if is_stopped s l then (s, false)
  else (set_deb s (<[mid := l]> (sy_deb s)), true).

(** ** Goroutines *)

Inductive pc :=
  (* acquireSyncCustomResourceSession *)
  | AcqNew (key mid : string) (parent : nat)
  | AcqLoadOrStore (key mid : string) (parent : nat) (cand : loc)
  | AcqExamine (key mid : string) (parent : nat) (cand : loc) (actual : entry)
  | AcqEvict (key mid : string) (parent : nat) (existing : loc)
  | AcqJoined (existing : loc)
  | AcqFailed
  (* SyncCustomResourceV2, once it owns the session *)
  | V2Setup (key mid : string) (l : loc)
  | V2Debounce (key mid : string) (l : loc)
  | V2Block (key mid : string) (l : loc)
  | V2Unregister (key mid : string) (l : loc)
  (* release *)
  | RelBegin (key : string) (l : loc)
  | RelDelete (key : string) (l : loc)
  | RelCancel (l : loc)
  | RelClose (l : loc)
  (* StopSyncCustomResource and StopAllSyncCustomResources *)
  | StopKeys (todo : list string)
  | StopSignal (key : string) (l : loc) (todo : list string)
  | StopEvict (key : string) (l : loc) (todo : list string)
  | Returned.

(** [acquireSyncCustomResourceSession], internal/service/synchronizer/sync_state.go *)
Definition acquire_step (s : sys) (p : pc) : option (sys * pc) :=
  match p with
  | AcqNew key mid parent =>
      let '(s', cand) := new_session s parent in Some (s', AcqLoadOrStore key mid parent cand)
  | AcqLoadOrStore key mid parent cand =>
      match load_or_store (sy_map s) key (ESession cand) with
      | (m, (_, false)) => (* not loaded: the candidate is published *)
          Some (Sys m (sy_heap s) (sy_ctx_done s) (sy_next_lease s) (sy_deb s)
                    (<[cand := key]> (sy_home s)), V2Setup key mid cand)
      | (_, (actual, true)) => Some (s, AcqExamine key mid parent cand actual)
      end
  | AcqExamine key mid parent cand actual =>
      let s' := upd_session s cand cancel in
      match actual with
      | EOther => Some (s', AcqFailed)
      | ESession existing =>
          if is_stopped s' existing then Some (s', AcqEvict key mid parent existing)
          else Some (s', AcqJoined existing)
      end
  | AcqEvict key mid parent existing =>
      Some (set_map s (compare_and_delete (sy_map s) key (ESession existing)), AcqNew key mid parent)
  | _ => None
  end.

(** [release], internal/service/synchronizer/sync_state.go *)
Definition release_step (s : sys) (p : pc) : option (sys * pc) :=
  match p with
  | RelBegin key l =>
      match sy_heap s !! l with
      | Some x => if ss_once x then Some (s, Returned)
                  else Some (upd_session s l begin_once, RelDelete key l)
      | None => Some (s, Returned)
      end
  | RelDelete key l =>
      Some (set_map s (compare_and_delete (sy_map s) key (ESession l)), RelCancel l)
  | RelCancel l => Some (upd_session s l cancel, RelClose l)
  | RelClose l => Some (upd_session s l close_done, Returned)
  | _ => None
  end.

(** [StopSyncCustomResource], internal/service/synchronizer/sync_state.go:137-149 *)
Definition stop_step (s : sys) (p : pc) : option (sys * pc) :=
  match p with
  | StopKeys [] => Some (s, Returned)
  | StopKeys (key :: todo) =>
      match map_load (sy_map s) key with
      | Some (ESession l) => Some (s, StopSignal key l todo)
      | _ => Some (s, StopKeys todo)
      end
  | StopSignal key l todo => Some (upd_session s l stop, StopEvict key l todo)
  | StopEvict key l todo =>
      Some (set_map s (compare_and_delete (sy_map s) key (ESession l)), StopKeys todo)
  | _ => None
  end.

(** The part of [SyncCustomResourceV2] after it owns its session; [setup] is
    the outcome of finding the informer manager and registering the namespace. *)
(** [SyncCustomResourceV2], internal/service/synchronizer/sync_v2.go:947-1004 *)
Definition v2_step (setup : bool) (s : sys) (p : pc) : option (sys * pc) :=
  match p with
  | V2Setup key mid l => Some (s, if setup then V2Debounce key mid l else RelBegin key l)
  | V2Debounce key mid l =>
      let '(s', active) := register_if_active s l mid in
      Some (s', if active then V2Block key mid l else RelBegin key l)
  | V2Block key mid l => if is_stopped s l then Some (s, V2Unregister key mid l) else None
  | V2Unregister key mid l =>
      Some (set_deb s (compare_and_delete (sy_deb s) mid l), RelBegin key l)
  | _ => None
  end.

Definition exec (setup : bool) (s : sys) (p : pc) : option (sys * pc) :=
  match p with
  | AcqNew _ _ _ | AcqLoadOrStore _ _ _ _ | AcqExamine _ _ _ _ _ | AcqEvict _ _ _ _ => acquire_step s p
  | RelBegin _ _ | RelDelete _ _ | RelCancel _ | RelClose _ => release_step s p
  | StopKeys _ | StopSignal _ _ _ | StopEvict _ _ _ => stop_step s p
  | _ => v2_step setup s p
  end.

(** ** The system *)

Definition config : Type := sys * gmap nat pc.

(** [SyncCustomResourceV2] is entered with a key and the name of its
    Middleware; the stop functions are entered with the keys they visit
    ([StopAllSyncCustomResources] visits what [Range] yields). *)
Inductive entry_point (mid_of : string → string) : pc → Prop :=
  | enter_sync key parent : entry_point mid_of (AcqNew key (mid_of key) parent)
  | enter_stop keys : entry_point mid_of (StopKeys keys).

Inductive step (mid_of : string → string) : relation config :=
  | step_run s s' pool tid p p' setup :
      pool !! tid = Some p → exec setup s p = Some (s', p') →
      step mid_of (s, pool) (s', <[tid := p']> pool)
  | step_spawn s pool tid p :
      pool !! tid = None → entry_point mid_of p →
      step mid_of (s, pool) (s, <[tid := p]> pool)
  | step_cancel_context s pool c :
      step mid_of (s, pool)
        (Sys (sy_map s) (sy_heap s) ({[c]} ∪ sy_ctx_done s) (sy_next_lease s) (sy_deb s) (sy_home s), pool).

Definition initial : config := (sys_empty, ∅).

(** ** Invariant *)

(** A session is dead once it is stopped, its context is done or its release
    has begun. *)
Definition dead (s : sys) (l : loc) : Prop :=
  ∃ x, sy_heap s !! l = Some x ∧ (ss_stopped x || ctx_err s x || ss_once x = true).

(** The session a goroutine will release, or already is releasing. *)
Definition owns (p : pc) : option loc :=
  match p with
  | AcqLoadOrStore _ _ _ l | V2Setup _ _ l | V2Debounce _ _ l | V2Block _ _ l
  | V2Unregister _ _ l | RelBegin _ l | RelDelete _ l | RelCancel l | RelClose l => Some l
  | _ => None
  end.

Definition holds (s : sys) (once : bool) (l : loc) : Prop :=
  ∃ x, sy_heap s !! l = Some x ∧ ss_once x = once ∧ ss_done_closes x = 0.

Definition owned (s : sys) (key : string) (l : loc) : Prop :=
  sy_home s !! l = Some key ∧ holds s false l.

Definition in_heap (s : sys) (a : entry) : Prop :=
  match a with ESession l => is_Some (sy_heap s !! l) | EOther => True end.

Definition session_ok (x : session) : Prop :=
  ss_stop_closes x = (if ss_stopped x then 1 else 0) ∧ ss_done_closes x ≤ 1.

Section Invariant.
Context (mid_of : string → string) `{!Inj (=) (=) mid_of}.

Definition pc_ok (s : sys) (p : pc) : Prop :=
  match p with
  | AcqNew key mid _ => mid = mid_of key
  | AcqExamine key mid _ _ a => mid = mid_of key ∧ in_heap s a
  | AcqLoadOrStore key mid _ l => mid = mid_of key ∧ sy_home s !! l = None ∧ holds s false l
  | AcqEvict key mid _ l => mid = mid_of key ∧ dead s l
  | V2Setup key mid l | V2Debounce key mid l => mid = mid_of key ∧ owned s key l
  | V2Block key mid l =>
      mid = mid_of key ∧ owned s key l ∧ (¬ dead s l → sy_deb s !! mid = Some l)
  | V2Unregister key mid l => mid = mid_of key ∧ owned s key l ∧ dead s l
  | RelBegin key l => owned s key l
  | RelDelete _ l | RelCancel l | RelClose l => holds s true l
  | StopSignal _ l _ => is_Some (sy_heap s !! l)
  | StopEvict _ l _ => dead s l
  | _ => True
  end.

Record inv (c : config) : Prop := Inv {
  inv_homed : homed ESession (sy_map c.1) (sy_home c.1) (dead c.1);
  inv_heap : ∀ l k, sy_home c.1 !! l = Some k → is_Some (sy_heap c.1 !! l);
  inv_map : ∀ k a, sy_map c.1 !! k = Some a → in_heap c.1 a;
  inv_sessions : ∀ l x, sy_heap c.1 !! l = Some x → session_ok x;
  inv_pc : ∀ tid p, c.2 !! tid = Some p → pc_ok c.1 p;
  inv_owner : ∀ t1 t2 p1 p2 l, c.2 !! t1 = Some p1 → c.2 !! t2 = Some p2 →
    owns p1 = Some l → owns p2 = Some l → t1 = t2;
}.

(** What a step of a goroutine that owns [o] leaves to the others. *)
Record frame (o : option loc) (s s' : sys) : Prop := Frame {
  fr_heap : ∀ l x, sy_heap s !! l = Some x → ∃ x', sy_heap s' !! l = Some x' ∧
    (o ≠ Some l → ss_once x' = ss_once x ∧ ss_done_closes x' = ss_done_closes x);
  fr_dead : ∀ l, dead s l → dead s' l;
  fr_home : ∀ l, is_Some (sy_heap s !! l) → o ≠ Some l → sy_home s' !! l = sy_home s !! l;
  fr_deb : ∀ l k, o ≠ Some l → owned s k l → ¬ dead s' l →
    sy_deb s !! mid_of k = Some l → sy_deb s' !! mid_of k = Some l;
}.

Lemma frame_in_heap o s s' l : frame o s s' → is_Some (sy_heap s !! l) → is_Some (sy_heap s' !! l).
Proof. intros F [x Hx]. destruct (fr_heap _ _ _ F l x Hx) as (x' & ? & _). eauto. Qed.

Lemma frame_holds o s s' b l : frame o s s' → o ≠ Some l → holds s b l → holds s' b l.
Proof.
  intros F Hne (x & Hx & Ho & Hc). destruct (fr_heap _ _ _ F l x Hx) as (x' & ? & Hk).
  destruct (Hk Hne) as [??]. exists x'. split_and!; congruence.
Qed.

Lemma frame_owned o s s' k l : frame o s s' → o ≠ Some l → owned s k l → owned s' k l.
Proof.
  intros F Hne [Hh Hl]. split; [|by eapply frame_holds].
  destruct Hl as (x & Hx & _). rewrite (fr_home _ _ _ F); eauto.
Qed.

Lemma frame_pc o s s' p : frame o s s' → (∀ l, owns p = Some l → o ≠ Some l) → pc_ok s p → pc_ok s' p.
Proof.
  intros F Hne. destruct p; simpl in *;
    try specialize (Hne _ eq_refl); rewrite ?bool_decide_eq_true; try tauto;
    try (by intros; destruct_and?; eauto using frame_owned, frame_holds, frame_in_heap, fr_dead).
  - intros (-> & Hh & Ho). split_and!; eauto using frame_holds.
    destruct Ho as (x & Hx & _). rewrite (fr_home _ _ _ F); eauto.
  - destruct actual; intros [? ?]; split; simpl in *; eauto using frame_in_heap.
  - intros (-> & Ho & Hd). split_and!; eauto using frame_owned.
    intros Hnd. eapply fr_deb; eauto. apply Hd. intros ?. by apply Hnd, (fr_dead _ _ _ F).
Qed.

(** *** The steps *)

(** An update of one session that only makes it more dead. *)
Definition ages (f : session → session) : Prop := ∀ x,
  ss_parent (f x) = ss_parent x ∧ (ss_stopped x = true → ss_stopped (f x) = true) ∧
  (ss_cancelled x = true → ss_cancelled (f x) = true) ∧ (ss_once x = true → ss_once (f x) = true) ∧
  (session_ok x → ss_done_closes (f x) ≤ 1 → session_ok (f x)).

Definition keeps_release (f : session → session) : Prop := ∀ x,
  ss_once (f x) = ss_once x ∧ ss_done_closes (f x) = ss_done_closes x.

Lemma ages_stop : ages stop.
Proof. intros [? ? ? ? [] ? ?]; unfold stop, session_ok; simpl; naive_solver lia. Qed.
Lemma ages_cancel : ages cancel.
Proof. intros [? ? ? ? [] ? ?]; unfold cancel, session_ok; simpl; naive_solver. Qed.
Lemma ages_begin_once : ages begin_once.
Proof. intros [? ? ? ? [] ? ?]; unfold begin_once, session_ok; simpl; naive_solver. Qed.
Lemma ages_close_done : ages close_done.
Proof. intros [? ? ? ? [] ? ?]; unfold close_done, session_ok; simpl; naive_solver. Qed.
Lemma keeps_stop : keeps_release stop.
Proof. intros [? ? ? ? [] ? ?]; done. Qed.
Lemma keeps_cancel : keeps_release cancel.
Proof. by intros []. Qed.

Lemma upd_lookup s l f l' :
  sy_heap (upd_session s l f) !! l' = if decide (l = l') then f <$> sy_heap s !! l' else sy_heap s !! l'.
Proof. unfold upd_session; simpl. rewrite lookup_alter. case_decide; by subst. Qed.

Lemma dead_upd s l f l' : ages f → dead s l' → dead (upd_session s l f) l'.
Proof.
  intros Ha (x & Hx & Hd). unfold dead. rewrite upd_lookup.
  case_decide; [|by eauto]. subst. rewrite Hx. eexists; split; [done|].
  destruct (Ha x) as (Hp & Hs & Hc & Ho & _). unfold ctx_err in *. simpl in *. rewrite Hp.
  rewrite !orb_true_iff in *. tauto.
Qed.

Lemma frame_upd o s l f :
  ages f → keeps_release f ∨ o = Some l → frame o s (upd_session s l f).
Proof.
  intros Ha Hk. split.
  - intros l' x Hx. rewrite upd_lookup. case_decide; subst; [|by eauto].
    rewrite Hx. eexists; split; [done|]. intros Hne. destruct Hk as [Hk|]; [apply Hk|done].
  - intros. by apply dead_upd.
  - done.
  - done.
Qed.

Lemma frame_set_map o s m : frame o s (set_map s m).
Proof. split; eauto. Qed.

Record global_ok (s : sys) : Prop := GlobalOk {
  go_homed : homed ESession (sy_map s) (sy_home s) (dead s);
  go_heap : ∀ l k, sy_home s !! l = Some k → is_Some (sy_heap s !! l);
  go_map : ∀ k a, sy_map s !! k = Some a → in_heap s a;
  go_sessions : ∀ l x, sy_heap s !! l = Some x → session_ok x;
}.

Lemma global_set_map s m :
  global_ok s → homed ESession m (sy_home s) (dead s) →
  (∀ k a, m !! k = Some a → in_heap s a) → global_ok (set_map s m).
Proof. intros [] Hh Hm. by split. Qed.

Lemma global_withdraw s k l :
  global_ok s → dead s l → global_ok (set_map s (compare_and_delete (sy_map s) k (ESession l))).
Proof.
  intros Hg Hd. apply global_set_map; [done| |].
  - apply homed_withdraw; [apply _|done|apply Hg].
  - intros k' a [Ha _]%cad_lookup_Some. by eapply go_map.
Qed.

Lemma global_upd s l f :
  global_ok s → ages f →
  (∀ x, sy_heap s !! l = Some x → ss_done_closes (f x) ≤ 1) → global_ok (upd_session s l f).
Proof.
  intros [Hh Hp Hm Hs] Ha Hf. split; simpl.
  - eapply homed_mono; [|done]. intros. by apply dead_upd.
  - intros l' k Hl'. rewrite lookup_alter_is_Some. eauto.
  - intros k a Ha'. specialize (Hm k a Ha'). destruct a; [|done]. simpl.
    by rewrite lookup_alter_is_Some.
  - intros l' x. rewrite lookup_alter. case_decide; [|by apply Hs]. subst.
    intros (x' & Hx' & ->)%fmap_Some. apply Ha; eauto.
Qed.

Lemma owns_in_heap s p l : pc_ok s p → owns p = Some l → is_Some (sy_heap s !! l).
Proof.
  destruct p; simpl; intros Hok [= <-]; unfold owned, holds in *; naive_solver.
Qed.

(** One goroutine moves: the others keep their assertions by the frame. *)
Lemma inv_update s s' pool tid p p' o :
  inv (s, pool) → pool !! tid = Some p → frame o s s' → global_ok s' → pc_ok s' p' →
  (∀ l, o = Some l → owns p = Some l) →
  (∀ l, owns p' = Some l → owns p = Some l ∨ sy_heap s !! l = None) →
  inv (s', <[tid := p']> pool).
Proof.
  intros [Hh Hp Hm Hs Hpc Ho] Htid F [Hh' Hp' Hm' Hs'] Hok Hfo Hown; simpl in *.
  split; simpl; try done.
  - intros t q. rewrite lookup_insert_Some. intros [[<- <-]|[Hne Hq]]; [done|].
    eapply frame_pc; [done| |by eauto]. intros l Hl Heq. apply Hne. eauto.
  - assert (Hx : ∀ t q l, pool !! t = Some q → tid ≠ t → owns q = Some l → owns p' ≠ Some l).
    { intros t q l Hq Hne Hl Hp'l. destruct (Hown l Hp'l) as [?|HN]; [by eauto|].
      destruct (owns_in_heap s q l (Hpc _ _ Hq) Hl). congruence. }
    intros t1 t2 q1 q2 l. rewrite !lookup_insert_Some.
    intros [[<- <-]|[? ?]] [[<- <-]|[? ?]] ? ?; eauto; exfalso; eapply Hx; eauto.
Qed.

Lemma inv_global c : inv c → global_ok c.1.
Proof. intros []. by split. Qed.

Lemma not_stopped_not_dead s l :
  is_stopped s l = false → holds s false l → ¬ dead s l.
Proof.
  unfold is_stopped. intros Hs (x & Hx & Ho & _) (x' & Hx' & Hd).
  rewrite Hx in Hx', Hs. injection Hx' as <-. by rewrite Hs, Ho in Hd.
Qed.

Lemma is_stopped_dead s l : is_Some (sy_heap s !! l) → is_stopped s l = true → dead s l.
Proof.
  unfold is_stopped. intros [x Hx] Hs. rewrite Hx in Hs. exists x. by rewrite Hs.
Qed.

Lemma stop_dead s l : is_Some (sy_heap s !! l) → dead (upd_session s l stop) l.
Proof.
  intros [x Hx]. eexists. rewrite upd_lookup, decide_True, Hx by done.
  split; [done|]. by destruct x as [? ? ? ? [] ? ?].
Qed.

Lemma once_dead s l : holds s true l → dead s l.
Proof. intros (x & Hx & Ho & _). exists x. rewrite Ho, orb_true_r. done. Qed.

Lemma frame_new s parent s' l :
  new_session s parent = (s', l) → global_ok s →
  frame None s s' ∧ global_ok s' ∧ sy_heap s !! l = None ∧ sy_home s' !! l = None ∧ holds s' false l.
Proof.
  intros [= <- Hl] Hg. rewrite Hl.
  assert (Hn : sy_heap s !! l = None).
  { apply not_elem_of_dom. rewrite <- Hl. apply is_fresh. }
  assert (Hne : ∀ l' x, sy_heap s !! l' = Some x → l ≠ l') by (intros; congruence).
  destruct Hg as [Hh Hp Hm Hs].
  assert (Hd : ∀ l', dead s l' → dead (Sys (sy_map s)
      (<[l:=Session parent false 0 0 false false
          ((sy_next_lease s + 1) `mod` lease_modulus)]> (sy_heap s)) (sy_ctx_done s)
      ((sy_next_lease s + 1) `mod` lease_modulus) (sy_deb s) (sy_home s)) l').
  { intros l' (x & Hx & Hdx). exists x. simpl. by rewrite lookup_insert_ne by eauto. }
  split_and!; simpl.
  - split; simpl; [|done|done|done]. intros l' x Hx. exists x. by rewrite lookup_insert_ne by eauto.
  - split; simpl.
    + by eapply homed_mono.
    + intros l' k Hl'. rewrite lookup_insert_is_Some. destruct (decide (l = l')); eauto.
    + intros k [l'|] Ha; [|done]. simpl. rewrite lookup_insert_is_Some.
      destruct (decide (l = l')); [by left|]. right. split; [done|]. by apply (Hm k (ESession l')).
    + intros l' x. rewrite lookup_insert_Some. intros [[_ <-]|[_ Hx]]; [|by eapply Hs]. split; simpl; lia.
  - done.
  - apply eq_None_not_Some. intros [k Hk]. destruct (Hp l k Hk). congruence.
  - eexists. by simplify_map_eq.
Qed.

Lemma acquire_step_inv s pool tid p s' p' :
  inv (s, pool) → pool !! tid = Some p → acquire_step s p = Some (s', p') →
  inv (s', <[tid := p']> pool).
Proof.
  intros Hi Htid Hstep. pose proof (inv_global _ Hi) as Hg. simpl in Hg.
  pose proof (inv_pc _ Hi _ _ Htid) as Hpc. simpl in Hpc.
  pose proof (λ l, owns_in_heap s p l Hpc) as Hin.
  destruct p; try discriminate; cbn [acquire_step pc_ok] in *; destruct_and?; subst.
  - destruct (new_session s parent) as [s1 c] eqn:E. injection Hstep as <- <-.
    destruct (frame_new _ _ _ _ E Hg) as (F & ? & ? & ? & ?).
    eapply inv_update; eauto; simpl; naive_solver.
  - unfold load_or_store in Hstep. destruct (sy_map s !! key) as [a|] eqn:Ek; simplify_eq/=.
    + eapply (inv_update _ _ _ _ _ _ None); eauto; simpl; [by split; eauto| |done..].
      split; [done|]. by eapply go_map.
    + destruct Hg as [Hh Hp Hm Hs].
      eapply (inv_update _ _ _ _ _ _ (Some cand)); [done|done| | | |naive_solver..].
      * split; simpl; [|done|intros; by rewrite lookup_insert_ne by congruence|done].
        intros l x Hx. exists x. eauto.
      * split; simpl; [by apply homed_publish| | |done].
        -- intros l k. rewrite lookup_insert_Some. intros [[<- _]|[_ ?]]; [by apply Hin|by eauto].
        -- intros k a. rewrite lookup_insert_Some. intros [[_ <-]|[_ ?]]; [by apply Hin|by eapply Hm].
      * split; [done|]. split; [apply lookup_insert_eq|done].
  - assert (Hi' : ∀ p', pc_ok (upd_session s cand cancel) p' → owns p' = None →
      inv (upd_session s cand cancel, <[tid:=p']> pool)).
    { intros q Hq Hn. eapply (inv_update _ _ _ _ _ _ None); eauto; try congruence.
      - apply frame_upd; eauto using ages_cancel, keeps_cancel.
      - apply global_upd; eauto using ages_cancel. intros x Hx.
        destruct (go_sessions _ Hg _ _ Hx). by destruct x. }
    destruct actual as [l|]; [|by simplify_eq/=; apply Hi'].
    destruct (is_stopped _ l) eqn:El; simplify_eq/=; apply Hi'; try done.
    simpl. split; [done|]. apply is_stopped_dead; [|done].
    rewrite upd_lookup. case_decide; subst; [|done]. by apply fmap_is_Some.
  - simplify_eq/=. eapply (inv_update _ _ _ _ _ _ None); eauto using frame_set_map, global_withdraw; done.
Qed.

Lemma holds_upd s l b f b' :
  holds s b l → (∀ x, ss_once x = b → ss_done_closes x = 0 →
    ss_once (f x) = b' ∧ ss_done_closes (f x) = 0) → holds (upd_session s l f) b' l.
Proof.
  intros (x & Hx & Ho & Hc) Hf. exists (f x). rewrite upd_lookup, decide_True, Hx by done.
  destruct (Hf x Ho Hc). done.
Qed.

Lemma release_step_inv s pool tid p s' p' :
  inv (s, pool) → pool !! tid = Some p → release_step s p = Some (s', p') →
  inv (s', <[tid := p']> pool).
Proof.
  intros Hi Htid Hstep. pose proof (inv_global _ Hi) as Hg. simpl in Hg.
  pose proof (inv_pc _ Hi _ _ Htid) as Hpc. simpl in Hpc.
  assert (Hret : inv (s, <[tid := Returned]> pool)).
  { eapply (inv_update _ _ _ _ _ _ None); eauto; [by split; eauto|done..]. }
  destruct p; try discriminate; cbn [release_step pc_ok] in *.
  - destruct (sy_heap s !! l) as [x|] eqn:El; [|by simplify_eq].
    destruct (ss_once x) eqn:Eo; simplify_eq; [done|].
    eapply (inv_update _ _ _ _ _ _ (Some l)); [done|done| | | |naive_solver..].
    + apply frame_upd; eauto using ages_begin_once.
    + apply global_upd; eauto using ages_begin_once. intros y Hy.
      destruct (go_sessions _ Hg _ _ Hy). by destruct y.
    + simpl. eapply holds_upd; [apply Hpc|]. naive_solver.
  - simplify_eq. eapply (inv_update _ _ _ _ _ _ (Some l)); [done|done| | |done|naive_solver..].
    + apply frame_set_map.
    + apply global_withdraw; [done|by apply once_dead].
  - simplify_eq. eapply (inv_update _ _ _ _ _ _ (Some l)); [done|done| | | |naive_solver..].
    + apply frame_upd; eauto using ages_cancel, keeps_cancel.
    + apply global_upd; eauto using ages_cancel. intros y Hy.
      destruct (go_sessions _ Hg _ _ Hy). by destruct y.
    + simpl. eapply holds_upd; [apply Hpc|]. naive_solver.
  - simplify_eq. eapply (inv_update _ _ _ _ _ _ (Some l)); [done|done| | |done|naive_solver..].
    + apply frame_upd; eauto using ages_close_done.
    + apply global_upd; eauto using ages_close_done. intros y Hy.
      destruct Hpc as (x & Hx & _ & Hc). simplify_eq. simpl. lia.
Qed.

Lemma stop_step_inv s pool tid p s' p' :
  inv (s, pool) → pool !! tid = Some p → stop_step s p = Some (s', p') →
  inv (s', <[tid := p']> pool).
Proof.
  intros Hi Htid Hstep. pose proof (inv_global _ Hi) as Hg. simpl in Hg.
  pose proof (inv_pc _ Hi _ _ Htid) as Hpc. simpl in Hpc.
  assert (Hsame : ∀ q, pc_ok s q → owns q = None → inv (s, <[tid := q]> pool)).
  { intros q Hq Hn. eapply (inv_update _ _ _ _ _ _ None); eauto; [by split; eauto|done|congruence]. }
  destruct p as [| | | | | | | | | | | | | |todo|key l todo|key l todo|]; try discriminate;
    cbn [stop_step pc_ok] in *.
  - destruct todo as [|key todo]; simplify_eq; [by apply Hsame|].
    unfold map_load in Hstep. destruct (sy_map s !! key) as [[l|]|] eqn:Ek; simplify_eq;
      apply Hsame; try done. simpl. by apply (go_map _ Hg key (ESession l)).
  - simplify_eq. eapply (inv_update _ _ _ _ _ _ None); [done|done| | | |done..].
    + apply frame_upd; eauto using ages_stop, keeps_stop.
    + apply global_upd; eauto using ages_stop. intros x Hx.
      destruct (go_sessions _ Hg _ _ Hx), (keeps_stop x). lia.
    + by apply stop_dead.
  - simplify_eq. eapply (inv_update _ _ _ _ _ _ None); eauto using frame_set_map, global_withdraw; done.
Qed.

Lemma frame_register s key l :
  global_ok s → owned s key l → is_stopped s l = false →
  frame (Some l) s (set_deb s (<[mid_of key := l]> (sy_deb s))).
Proof.
  intros Hg [Hh Hl] Hs. split; simpl; eauto.
  intros l' k Hne [Hh' _] Hd Hdeb.
  rewrite lookup_insert_ne; [done|]. intros ->%(inj mid_of). apply Hne. f_equal.
  eapply (homed_exclusive ESession); [apply (go_homed _ Hg)|done..| |done].
  by apply not_stopped_not_dead.
Qed.

Lemma frame_unregister s mid l :
  dead s l → frame None s (set_deb s (compare_and_delete (sy_deb s) mid l)).
Proof.
  intros Hd. split; simpl; eauto.
  intros l' k _ _ Hd' Hdeb. apply cad_lookup_Some. split; [done|]. intros [_ ->]. done.
Qed.

Lemma v2_step_inv setup s pool tid p s' p' :
  inv (s, pool) → pool !! tid = Some p → v2_step setup s p = Some (s', p') →
  inv (s', <[tid := p']> pool).
Proof.
  intros Hi Htid Hstep. pose proof (inv_global _ Hi) as Hg. simpl in Hg.
  pose proof (inv_pc _ Hi _ _ Htid) as Hpc. simpl in Hpc.
  assert (Hsame : ∀ q, pc_ok s q → owns q = owns p → inv (s, <[tid := q]> pool)).
  { intros q Hq Hn. eapply (inv_update _ _ _ _ _ _ None); eauto; [by split; eauto|done|]. rewrite Hn. auto. }
  destruct p; try discriminate; cbn [v2_step pc_ok] in *; destruct_and?; subst.
  - destruct setup; simplify_eq; by apply Hsame.
  - unfold register_if_active in Hstep. destruct (is_stopped s l) eqn:Es; simplify_eq; [by apply Hsame|].
    eapply (inv_update _ _ _ _ _ _ (Some l)); [done|done| | | |naive_solver..].
    + by apply frame_register.
    + destruct Hg; by split.
    + simpl. split_and!; [done|done|]. intros _. apply lookup_insert_eq.
  - destruct (is_stopped s l) eqn:Es; simplify_eq. apply Hsame; [|done].
    simpl. split_and!; [done..|]. apply is_stopped_dead; [|done].
    by eapply owns_in_heap; [apply (inv_pc _ Hi _ _ Htid)|].
  - simplify_eq. eapply (inv_update _ _ _ _ _ _ None); [done|done| | |done|naive_solver..].
    + by apply frame_unregister.
    + destruct Hg; by split.
Qed.

Lemma exec_inv setup s pool tid p s' p' :
  inv (s, pool) → pool !! tid = Some p → exec setup s p = Some (s', p') →
  inv (s', <[tid := p']> pool).
Proof.
  destruct p; simpl; intros; try discriminate; solve
    [eapply acquire_step_inv; eassumption | eapply release_step_inv; eassumption
    |eapply stop_step_inv; eassumption | eapply (v2_step_inv setup); eassumption].
Qed.

Lemma spawn_inv s pool tid p :
  inv (s, pool) → pool !! tid = None → entry_point mid_of p → inv (s, <[tid := p]> pool).
Proof.
  intros [Hh Hp Hm Hs Hpc Ho] Htid Hent; split; simpl in *; try done.
  - intros t q. rewrite lookup_insert_Some. intros [[_ <-]|[_ Hq]]; [by destruct Hent|eauto].
  - intros t1 t2 q1 q2 l. rewrite !lookup_insert_Some.
    destruct Hent; intros [[<- <-]|[? ?]] [[<- <-]|[? ?]] ? ?; try done; eauto.
Qed.

Lemma cancel_context_inv s pool c :
  inv (s, pool) →
  inv (Sys (sy_map s) (sy_heap s) ({[c]} ∪ sy_ctx_done s) (sy_next_lease s) (sy_deb s) (sy_home s), pool).
Proof.
  intros [Hh Hp Hm Hs Hpc Ho]; simpl in *.
  assert (Hd : ∀ l, dead s l → dead (Sys (sy_map s) (sy_heap s) ({[c]} ∪ sy_ctx_done s)
      (sy_next_lease s) (sy_deb s) (sy_home s)) l).
  { intros l (x & Hx & Hl). exists x. split; [done|]. revert Hl. unfold ctx_err; simpl.
    destruct (ss_stopped x), (ss_cancelled x), (ss_once x); simpl; rewrite ?orb_true_r, ?orb_false_r; auto.
    rewrite !bool_decide_eq_true. set_solver. }
  split; simpl; try done.
  - by eapply homed_mono.
  - intros tid p Hp'. eapply (frame_pc None s); eauto. split; simpl; eauto.
Qed.

Lemma step_inv c c' : step mid_of c c' → inv c → inv c'.
Proof. destruct 1; eauto using exec_inv, spawn_inv, cancel_context_inv. Qed.

Lemma initial_inv : inv initial.
Proof. split; simpl; try (intros *; by rewrite lookup_empty). intros l k. by rewrite lookup_empty. Qed.

Lemma reachable_inv c : rtc (step mid_of) initial c → inv c.
Proof. intros Hr. eapply preserved_rtc; [|done|apply initial_inv]. intros ???. by apply step_inv. Qed.
End Invariant.

(** ** A scheduler, to run concrete interleavings *)

Inductive action := Spawn (tid : nat) (p : pc) | Run (tid : nat) (setup : bool) | CancelContext (c : nat).

Definition is_entry_point (mid_of : string → string) (p : pc) : bool :=
  match p with
  | AcqNew key mid _ => bool_decide (mid = mid_of key)
  | StopKeys _ => true
  | _ => false
  end.

Definition act (mid_of : string → string) (c : config) (a : action) : option config :=
  match a with
  | Spawn tid p =>
      match c.2 !! tid with
      | Some _ => None
      | None => if is_entry_point mid_of p then Some (c.1, <[tid := p]> c.2) else None
      end
  | Run tid setup =>
      p ← c.2 !! tid; '(s', p') ← exec setup c.1 p; Some (s', <[tid := p']> c.2)
  | CancelContext x =>
      Some (Sys (sy_map c.1) (sy_heap c.1) ({[x]} ∪ sy_ctx_done c.1) (sy_next_lease c.1)
                (sy_deb c.1) (sy_home c.1), c.2)
  end.

Fixpoint acts (mid_of : string → string) (c : config) (l : list action) : option config :=
  match l with
  | [] => Some c
  | a :: l => c' ← act mid_of c a; acts mid_of c' l
  end.

Lemma act_step mid_of c a c' : act mid_of c a = Some c' → step mid_of c c'.
Proof.
  destruct c as [s pool], a as [tid p|tid setup|x]; simpl; intros Ha.
  - destruct (pool !! tid) eqn:Et; [done|].
    destruct (is_entry_point mid_of p) eqn:Ep; simplify_eq.
    constructor; [done|]. destruct p; try done; [|constructor].
    apply bool_decide_eq_true in Ep as ->. constructor.
  - destruct (pool !! tid) as [p|] eqn:Et; [|done]. simpl in Ha.
    destruct (exec setup s p) as [[s' p']|] eqn:Ee; simplify_eq/=. by econstructor.
  - simplify_eq. constructor.
Qed.

Lemma acts_reachable mid_of c l c' : acts mid_of c l = Some c' → rtc (step mid_of) c c'.
Proof.
  revert c. induction l as [|a l IH]; intros c; simpl; [by intros [= <-]|].
  destruct (act mid_of c a) eqn:Ea; simpl; [|done]. intros. eapply rtc_l; eauto using act_step.
Qed.

(** ** Properties *)

(** The goroutine runs [SyncCustomResourceV2] for [key] with session [l]:
    it has acquired it and not yet begun its cleanup. *)
Definition running (p : pc) : option (string * loc) :=
  match p with
  | V2Setup key _ l | V2Debounce key _ l | V2Block key _ l => Some (key, l)
  | _ => None
  end.

(** C8: At most one [SyncCustomResourceV2] goroutine runs with a live session
    for one key, under every interleaving of acquisitions, releases, stops and
    context cancellations; and its session is the one in the registry. *)
Theorem session_exclusive (mid_of : string → string) `{!Inj (=) (=) mid_of} s pool t1 t2 p1 p2 key l1 l2 :
  rtc (step mid_of) initial (s, pool) →
  pool !! t1 = Some p1 → pool !! t2 = Some p2 →
  running p1 = Some (key, l1) → running p2 = Some (key, l2) →
  is_stopped s l1 = false → is_stopped s l2 = false →
  t1 = t2 ∧ sy_map s !! key = Some (ESession l1).
Proof.
  intros Hr H1 H2 R1 R2 S1 S2. pose proof (reachable_inv _ _ Hr) as Hi.
  assert (Ho : ∀ t p l, pool !! t = Some p → running p = Some (key, l) → owned s key l ∧ owns p = Some l).
  { intros t p l Ht Hp. pose proof (inv_pc _ _ Hi t p Ht) as Hpc. simpl in Hpc.
    destruct p; simplify_eq/=; naive_solver. }
  destruct (Ho _ _ _ H1 R1) as [[Hh1 Hl1] O1], (Ho _ _ _ H2 R2) as [[Hh2 Hl2] O2].
  assert (l1 = l2) as <-.
  { apply (homed_exclusive ESession _ _ _ key _ _ (inv_homed _ _ Hi)); auto using not_stopped_not_dead. }
  split; [by apply (inv_owner _ _ Hi t1 t2 p1 p2 l1)|].
  apply (homed_current ESession _ _ _ _ _ (inv_homed _ _ Hi)); auto using not_stopped_not_dead.
Qed.

(** A running session that is alive keeps its own debouncer registered for
    its Middleware: the cleanup of an older session never removes it and a
    stopped session never registers over it. *)
Theorem live_session_keeps_debouncer (mid_of : string → string) `{!Inj (=) (=) mid_of} s pool t key mid l :
  rtc (step mid_of) initial (s, pool) →
  pool !! t = Some (V2Block key mid l) → is_stopped s l = false →
  sy_deb s !! mid = Some l.
Proof.
  intros Hr Ht Hs. pose proof (reachable_inv _ _ Hr) as Hi.
  destruct (inv_pc _ _ Hi _ _ Ht) as (-> & [_ Hl] & Hd).
  apply Hd. by apply not_stopped_not_dead.
Qed.

(** No channel of a session is closed twice (a second close panics), and
    [stopCh] is closed exactly when the session is marked stopped. *)
Theorem session_channels_closed_once (mid_of : string → string) `{!Inj (=) (=) mid_of} s pool l x :
  rtc (step mid_of) initial (s, pool) → sy_heap s !! l = Some x →
  ss_stop_closes x = (if ss_stopped x then 1 else 0) ∧ ss_done_closes x ≤ 1.
Proof. intros Hr Hx. apply (inv_sessions _ _ (reachable_inv _ _ Hr) _ _ Hx). Qed.

(** [acquireSyncCustomResourceSession] alone: its loop, run until it returns. *)
Abbreviation acquire_run := (iterate acquire_step).

Inductive acquire_outcome (s s' : sys) (key mid : string) : pc → Prop :=
  | acquired l :
      sy_heap s !! l = None → sy_map s' !! key = Some (ESession l) →
      (∀ k, k ≠ key → sy_map s' !! k = sy_map s !! k) →
      (sy_map s !! key = None ∨ ∃ e, sy_map s !! key = Some (ESession e) ∧ is_stopped s e = true) →
      acquire_outcome s s' key mid (V2Setup key mid l)
  | joined e :
      sy_map s !! key = Some (ESession e) → is_stopped s e = false → sy_map s' = sy_map s →
      acquire_outcome s s' key mid (AcqJoined e)
  | failed : sy_map s !! key = Some EOther → sy_map s' = sy_map s → acquire_outcome s s' key mid AcqFailed.

Lemma new_session_spec s parent s1 c :
  new_session s parent = (s1, c) →
  sy_heap s !! c = None ∧ sy_map s1 = sy_map s ∧
  (∀ l, l ≠ c → sy_heap s1 !! l = sy_heap s !! l) ∧ sy_ctx_done s1 = sy_ctx_done s.
Proof.
  intros [= <- <-]. split_and!; try done.
  - apply not_elem_of_dom, is_fresh.
  - intros l Hl. simpl. by rewrite lookup_insert_ne by done.
Qed.

Lemma is_stopped_ext s s' l :
  sy_heap s' !! l = sy_heap s !! l → sy_ctx_done s' = sy_ctx_done s → is_stopped s' l = is_stopped s l.
Proof. intros Hl Hc. unfold is_stopped, ctx_err. by rewrite Hl, Hc. Qed.

(** The key is free: two actions publish a fresh session. *)
Lemma acquire_run_free fuel s key mid parent :
  sy_map s !! key = None → 2 ≤ fuel →
  ∃ s' l, acquire_run fuel s (AcqNew key mid parent) = (s', V2Setup key mid l) ∧
    sy_heap s !! l = None ∧ sy_map s' = <[key := ESession l]> (sy_map s).
Proof.
  intros Hk Hf. destruct fuel as [|[|fuel]]; [lia..|]. cbn [iterate acquire_step].
  destruct (new_session s parent) as [s1 c] eqn:E.
  destruct (new_session_spec _ _ _ _ E) as (Hc & Hm & _ & _).
  cbn [iterate acquire_step]. unfold load_or_store. rewrite Hm, Hk.
  rewrite iterate_final by done. eauto.
Qed.

(** Called alone in any reachable state, [acquireSyncCustomResourceSession]
    returns within six actions: it publishes a fresh session when the key is
    free or held by a stopped session, joins the holder when it is alive, and
    fails (leaving the registry alone) on a foreign value. *)
Theorem acquire_terminates (mid_of : string → string) `{!Inj (=) (=) mid_of} s pool key mid parent fuel :
  rtc (step mid_of) initial (s, pool) → 6 ≤ fuel →
  ∃ s' p, acquire_run fuel s (AcqNew key mid parent) = (s', p) ∧ acquire_outcome s s' key mid p.
Proof.
  intros Hr Hf. pose proof (inv_map _ _ (reachable_inv _ _ Hr)) as Hmap. simpl in Hmap.
  destruct (sy_map s !! key) as [a|] eqn:Ek; cycle 1.
  { destruct (acquire_run_free fuel s key mid parent) as (s' & l & -> & Hl & Hm); [done|lia|].
    do 2 eexists; split; [done|]. constructor; rewrite ?Hm; auto; intros; by simplify_map_eq. }
  do 4 (destruct fuel as [|fuel]; [lia|]). cbn [iterate acquire_step].
  destruct (new_session s parent) as [s1 c] eqn:E.
  destruct (new_session_spec _ _ _ _ E) as (Hc & Hm & Hh & Hx).
  cbn [iterate acquire_step]. unfold load_or_store. rewrite Hm, Ek.
  cbn [iterate acquire_step]. destruct a as [e|]; cycle 1.
  { do 2 eexists; split; [done|]. by constructor. }
  assert (Hec : e ≠ c). { intros ->. destruct (Hmap _ _ Ek). congruence. }
  rewrite (is_stopped_ext s) by (rewrite ?upd_lookup, ?decide_False by done; auto).
  destruct (is_stopped s e) eqn:Es; cycle 1.
  { do 2 eexists; split; [done|]. by constructor. }
  cbn [iterate acquire_step]. set (s2 := set_map _ _).
  assert (Hm2 : sy_map s2 = delete key (sy_map s)).
  { unfold s2, compare_and_delete; simpl. by rewrite Hm, decide_True. }
  destruct (acquire_run_free fuel s2 key mid parent) as (s' & l & -> & Hl & Hm');
    [by rewrite Hm2, lookup_delete_eq|lia|].
  do 2 eexists; split; [done|]. rewrite Hm2 in Hm'. constructor; rewrite ?Hm'; eauto.
  - unfold s2 in Hl. simpl in Hl. rewrite lookup_alter_None in Hl.
    destruct (decide (l = c)) as [->|]; [done|]. by rewrite <- Hh.
  - by rewrite lookup_insert_eq.
  - intros k Hne. by rewrite lookup_insert_ne, lookup_delete_ne by done.
Qed.

(** ** Witnesses *)

(** A handover: goroutine 0 runs for "k"; goroutine 2 stops the key; goroutine
    1 takes over while goroutine 0 is still cleaning up. *)
Definition handover : config :=
  default initial (acts id initial
    ([Spawn 0 (AcqNew "k" "k" 7)] ++ replicate 4 (Run 0 true) ++
     [Spawn 2 (StopKeys ["k"])] ++ replicate 3 (Run 2 true) ++
     [Spawn 1 (AcqNew "k" "k" 7); Run 1 true; Run 1 true; Run 0 true; Run 1 true; Run 1 true; Run 0 true])).

Lemma handover_reachable : rtc (step id) initial (handover.1, handover.2).
Proof.
  eapply (acts_reachable _ _ ([Spawn 0 (AcqNew "k" "k" 7)] ++ replicate 4 (Run 0 true) ++
     [Spawn 2 (StopKeys ["k"])] ++ replicate 3 (Run 2 true) ++
     [Spawn 1 (AcqNew "k" "k" 7); Run 1 true; Run 1 true; Run 0 true; Run 1 true; Run 1 true; Run 0 true])).
  vm_compute. reflexivity.
Qed.

Lemma session_exclusive_witness :
  1 = 1 ∧ sy_map handover.1 !! "k" = Some (ESession 1).
Proof.
  apply (session_exclusive id handover.1 handover.2 1 1
    (V2Block "k" "k" 1) (V2Block "k" "k" 1) "k" 1 1 handover_reachable);
    vm_compute; reflexivity.
Defined.

Lemma live_session_keeps_debouncer_witness : sy_deb handover.1 !! "k" = Some 1.
Proof.
  apply (live_session_keeps_debouncer id handover.1 handover.2 1 "k" "k" 1 handover_reachable);
    vm_compute; reflexivity.
Defined.

Lemma session_channels_closed_once_witness :
  ss_stop_closes (Session 7 true 1 0 true false 1) = 1 ∧ 0 ≤ 1.
Proof.
  apply (session_channels_closed_once id handover.1 handover.2 0 (Session 7 true 1 0 true false 1)
    handover_reachable); vm_compute; reflexivity.
Defined.

Lemma acquire_terminates_witness :
  ∃ s' p, acquire_run 6 handover.1 (AcqNew "k" "k" 7) = (s', p) ∧
    acquire_outcome handover.1 s' "k" "k" p.
Proof. exact (acquire_terminates id _ _ "k" "k" 7 6 handover_reachable (le_n 6)). Defined.
