(* ===== verification/NsInformer.v ===== *)
(** * The namespace informer manager
    ([internal/service/synchronizer/resource_cache_informer.go])

    One entry per namespace holds the shared informers; SyncV2 sessions
    register against it and the last one to leave tears it down.  As in
    [SyncSession], entries live in a heap, [entries] is a [sync.Map] and a step
    is one [sync.Map] operation or one critical section of an entry's mutex. *)
From stdpp Require Import base gmap strings list option relations.
From Stdlib Require Import ZArith.
From S2P Require Import Prelude SyncMap.

Abbreviation loc := nat (only parsing).
#[local] Arguments iterate : simpl never.

(** ** Entries *)

(** [ne_ready] is what [WaitForCacheSync] reported; the code keeps only
    [synced]. *)
(** [nsEntry], internal/service/synchronizer/resource_cache_informer.go *)
Record ns_entry := NsEntry {
  ne_stopped : bool;
  ne_cancelled : bool;
  ne_refCount : Z;               (** int32 *)
  ne_midKeys : gset string;
  ne_synced : bool;
  ne_ready : bool;
}.

(** [addRegistration], internal/service/synchronizer/resource_cache_informer.go *)
Definition addRegistration (midKey : string) (e : ns_entry) : ns_entry * (bool * bool * Z) :=
  if ne_stopped e then (e, (false, false, ne_refCount e))
  else if decide (midKey ∈ ne_midKeys e) then (e, (false, true, ne_refCount e))
  else
    let n := wrap32 (ne_refCount e + 1) in
    (NsEntry (ne_stopped e) (ne_cancelled e) n ({[midKey]} ∪ ne_midKeys e) (ne_synced e) (ne_ready e),
     (true, true, n)).

(** [removeRegistration], internal/service/synchronizer/resource_cache_informer.go *)
Definition removeRegistration (midKey : string) (e : ns_entry) : ns_entry * (bool * bool * Z) :=
  if decide (midKey ∈ ne_midKeys e) then
    let keys := ne_midKeys e ∖ {[midKey]} in
    let n := wrap32 (ne_refCount e - 1) in
    if (n <=? 0)%Z
    then (NsEntry true (ne_cancelled e) 0 keys (ne_synced e) (ne_ready e), (true, true, 0%Z))
    else (NsEntry (ne_stopped e) (ne_cancelled e) n keys (ne_synced e) (ne_ready e), (true, false, n))
  else (e, (false, false, ne_refCount e)).

Definition cancel_entry (e : ns_entry) : ns_entry :=
  NsEntry (ne_stopped e) true (ne_refCount e) (ne_midKeys e) (ne_synced e) (ne_ready e).

(** [stop], internal/service/synchronizer/resource_cache_informer.go:198-203 *)
Definition stop_entry (e : ns_entry) : ns_entry :=
  cancel_entry (NsEntry true (ne_cancelled e) (ne_refCount e) (ne_midKeys e) (ne_synced e) (ne_ready e)).

(** After [WaitForCacheSync] returned [ready] ("every informer synced"):
    [entry.synced.Store(true)] happens in either case. *)
Definition finish_sync (ready : bool) (e : ns_entry) : ns_entry :=
  NsEntry (ne_stopped e) (ne_cancelled e) (ne_refCount e) (ne_midKeys e) true ready.

(** ** The manager *)

Inductive value := VEntry (l : loc) | VOther.
#[export] Instance value_eq_dec : EqDecision value.
Proof. solve_decision. Defined.
#[export] Instance VEntry_inj : Inj (=) (=) VEntry.
Proof. by intros ?? [= ->]. Qed.

Record mgr := Mgr {
  mg_entries : gmap string value;
  mg_heap : gmap loc ns_entry;
  mg_home : gmap loc string;
}.

Definition set_entries (m : mgr) es := Mgr es (mg_heap m) (mg_home m).
Definition put_entry (m : mgr) l e := Mgr (mg_entries m) (<[l := e]> (mg_heap m)) (mg_home m).

(** [GetCache], internal/service/synchronizer/resource_cache_informer.go *)
Definition GetCache (m : mgr) (ns : string) : option loc :=
  match map_load (mg_entries m) ns with
  | Some (VEntry l) =>
      match mg_heap m !! l with
      | Some e => if ne_stopped e || negb (ne_synced e) then None else Some l
      | None => None
      end
  | _ => None
  end.

(** ** Goroutines *)

Inductive pc :=
  (* Register *)
  | RegLoad (ns midKey : string)
  | RegJoin (ns midKey : string) (l : loc)
  | RegEvict (ns midKey : string) (l : loc)
  | RegCreate (ns midKey : string)
  | RegWaitSync (ns midKey : string) (l : loc)
  | RegFailed
  | RegDone (ns midKey : string) (l : loc)
  (* Unregister *)
  | UnLoad (ns midKey : string)
  | UnRemove (ns midKey : string) (l : loc)
  | UnCancel (ns : string) (l : loc)
  | UnEvict (ns : string) (l : loc)
  (* stopAll, over the namespaces Range yields *)
  | StopNext (todo : list string)
  | StopMark (ns : string) (l : loc) (todo : list string)
  | StopEvict (ns : string) (l : loc) (todo : list string)
  | Returned.

(** One action of [Register]; [ready] is what [WaitForCacheSync] reports. *)
(** [Register], internal/service/synchronizer/resource_cache_informer.go *)
Definition register_step (ready : bool) (m : mgr) (p : pc) : option (mgr * pc) :=
  match p with
  | RegLoad ns midKey =>
      match map_load (mg_entries m) ns with
      | Some (VEntry l) => Some (m, RegJoin ns midKey l)
      | Some VOther => Some (m, RegFailed)
      | None => Some (m, RegCreate ns midKey)
      end
  | RegJoin ns midKey l =>
      e ← mg_heap m !! l;
      let '(e', (added, active, refCount)) := addRegistration midKey e in
      Some (put_entry m l e', if active then RegDone ns midKey l else RegEvict ns midKey l)
  | RegEvict ns midKey l =>
      Some (set_entries m (compare_and_delete (mg_entries m) ns (VEntry l)), RegLoad ns midKey)
  | RegCreate ns midKey =>
      let l := fresh (dom (mg_heap m)) in
      match load_or_store (mg_entries m) ns (VEntry l) with
      | (es, (_, false)) =>
          Some (Mgr es (<[l := NsEntry false false 1 {[midKey]} false false]> (mg_heap m))
                    (<[l := ns]> (mg_home m)), RegWaitSync ns midKey l)
      | (_, (VEntry l', true)) => Some (m, RegJoin ns midKey l')
      | (_, (VOther, true)) => Some (m, RegFailed)
      end
  | RegWaitSync ns midKey l =>
      e ← mg_heap m !! l; Some (put_entry m l (finish_sync ready e), RegDone ns midKey l)
  | _ => None
  end.

(** [Unregister], internal/service/synchronizer/resource_cache_informer.go *)
Definition unregister_step (m : mgr) (p : pc) : option (mgr * pc) :=
  match p with
  | UnLoad ns midKey =>
      match map_load (mg_entries m) ns with
      | Some (VEntry l) => Some (m, UnRemove ns midKey l)
      | _ => Some (m, Returned)
      end
  | UnRemove ns midKey l =>
      e ← mg_heap m !! l;
      let '(e', (removed, shouldStop, remaining)) := removeRegistration midKey e in
      Some (put_entry m l e', if removed && shouldStop then UnCancel ns l else Returned)
  | UnCancel ns l => e ← mg_heap m !! l; Some (put_entry m l (cancel_entry e), UnEvict ns l)
  | UnEvict ns l =>
      Some (set_entries m (compare_and_delete (mg_entries m) ns (VEntry l)), Returned)
  | _ => None
  end.

(** [stopAll], internal/service/synchronizer/resource_cache_informer.go *)
Definition stopAll_step (m : mgr) (p : pc) : option (mgr * pc) :=
  match p with
  | StopNext [] => Some (m, Returned)
  | StopNext (ns :: todo) =>
      match map_load (mg_entries m) ns with
      | Some (VEntry l) => Some (m, StopMark ns l todo)
      | _ => Some (m, StopNext todo)
      end
  | StopMark ns l todo => e ← mg_heap m !! l; Some (put_entry m l (stop_entry e), StopEvict ns l todo)
  | StopEvict ns l todo =>
      Some (set_entries m (compare_and_delete (mg_entries m) ns (VEntry l)), StopNext todo)
  | _ => None
  end.

Definition exec (ready : bool) (m : mgr) (p : pc) : option (mgr * pc) :=
  match register_step ready m p with
  | Some r => Some r
  | None => match unregister_step m p with Some r => Some r | None => stopAll_step m p end
  end.

Definition config : Type := mgr * gmap nat pc.
Definition initial : config := (Mgr ∅ ∅ ∅, ∅).

Inductive entry_point : pc → Prop :=
  | enter_register ns midKey : entry_point (RegLoad ns midKey)
  | enter_unregister ns midKey : entry_point (UnLoad ns midKey)
  | enter_stopAll todo : entry_point (StopNext todo).

Inductive step : relation config :=
  | step_run m m' pool tid p p' ready :
      pool !! tid = Some p → exec ready m p = Some (m', p') →
      step (m, pool) (m', <[tid := p']> pool)
  | step_spawn m pool tid p :
      pool !! tid = None → entry_point p → step (m, pool) (m, <[tid := p]> pool).

(** ** Invariant *)

Definition dead (m : mgr) (l : loc) : Prop :=
  ∃ e, mg_heap m !! l = Some e ∧ ne_stopped e = true.

(** A live entry counts its registrations and has at least one. *)
Definition entry_ok (e : ns_entry) : Prop :=
  ne_stopped e = false →
  ne_refCount e = wrap32 (Z.of_nat (size (ne_midKeys e))) ∧ ne_midKeys e ≠ ∅.

Definition pc_ok (m : mgr) (p : pc) : Prop :=
  match p with
  | RegJoin _ _ l | RegWaitSync _ _ l | UnRemove _ _ l | StopMark _ l _ => is_Some (mg_heap m !! l)
  | RegEvict _ _ l | UnCancel _ l | UnEvict _ l | StopEvict _ l _ => dead m l
  | _ => True
  end.

Record global_ok (m : mgr) : Prop := GlobalOk {
  go_homed : homed VEntry (mg_entries m) (mg_home m) (dead m);
  go_entries : ∀ ns l, mg_entries m !! ns = Some (VEntry l) → is_Some (mg_heap m !! l);
  go_home : ∀ l ns, mg_home m !! l = Some ns → is_Some (mg_heap m !! l);
  go_heap : ∀ l e, mg_heap m !! l = Some e → entry_ok e;
}.

Record inv (c : config) : Prop := Inv {
  inv_global : global_ok c.1;
  inv_pc : ∀ tid p, c.2 !! tid = Some p → pc_ok c.1 p;
}.

(** Entries never disappear from the heap and never come back to life. *)
Definition evolves (m m' : mgr) : Prop :=
  ∀ l e, mg_heap m !! l = Some e → ∃ e', mg_heap m' !! l = Some e' ∧
    (ne_stopped e = true → ne_stopped e' = true).

Lemma ns_evolves_refl m : evolves m m.
Proof. intros l e ?. eauto. Qed.

Lemma evolves_set_entries m es : evolves m (set_entries m es).
Proof. intros l e ?. eauto. Qed.

Lemma ns_evolves_heap m m' l : evolves m m' → is_Some (mg_heap m !! l) → is_Some (mg_heap m' !! l).
Proof. intros He [e Hl]. destruct (He l e Hl) as (? & ? & _). eauto. Qed.

Lemma ns_evolves_dead m m' l : evolves m m' → dead m l → dead m' l.
Proof. intros He (e & Hl & Hs). destruct (He l e Hl) as (e' & ? & ?). exists e'. eauto. Qed.

Lemma ns_evolves_pc m m' p : evolves m m' → pc_ok m p → pc_ok m' p.
Proof. intros He. destruct p; simpl; eauto using ns_evolves_heap, ns_evolves_dead. Qed.

Lemma ns_evolves_put m l e e' :
  mg_heap m !! l = Some e → (ne_stopped e = true → ne_stopped e' = true) → evolves m (put_entry m l e').
Proof.
  intros Hl Hs l' x Hx. simpl. rewrite lookup_insert. case_decide; subst; simplify_eq; eauto.
Qed.

Lemma ns_global_put m l e e' :
  global_ok m → mg_heap m !! l = Some e → (ne_stopped e = true → ne_stopped e' = true) →
  entry_ok e' → global_ok (put_entry m l e').
Proof.
  intros [Hh He Ho Hp] Hl Hs Hok. pose proof (ns_evolves_put _ _ _ _ Hl Hs) as Hev.
  split; simpl.
  - eapply homed_mono; [|done]. eauto using ns_evolves_dead.
  - intros ns l' Hns. apply (ns_evolves_heap _ _ _ Hev). eauto.
  - intros l' ns Hns. apply (ns_evolves_heap _ _ _ Hev). eauto.
  - intros l' x. rewrite lookup_insert_Some. naive_solver.
Qed.

Lemma ns_global_withdraw m ns l :
  global_ok m → dead m l → global_ok (set_entries m (compare_and_delete (mg_entries m) ns (VEntry l))).
Proof.
  intros [Hh He Ho Hp] Hd. split; simpl; try done.
  - by apply homed_withdraw; [apply _|..].
  - intros ns' l' [? _]%cad_lookup_Some. eauto.
Qed.

Lemma inv_move m m' pool tid p' :
  inv (m, pool) → evolves m m' → global_ok m' → pc_ok m' p' → inv (m', <[tid := p']> pool).
Proof.
  intros [Hg Hp] He Hg' Hok. split; [done|]. intros t q. simpl. rewrite lookup_insert_Some.
  intros [[_ <-]|[_ Hq]]; [done|]. eapply ns_evolves_pc; [done|by apply (Hp t q)].
Qed.

Lemma addRegistration_ok midKey e e' r :
  addRegistration midKey e = (e', r) → entry_ok e →
  entry_ok e' ∧ (ne_stopped e = true → ne_stopped e' = true) ∧
  (r.1.2 = negb (ne_stopped e)) ∧ (r.1.2 = true → midKey ∈ ne_midKeys e').
Proof.
  unfold addRegistration, entry_ok. intros Ha Hok.
  destruct (ne_stopped e) eqn:Es; simplify_eq/=; [naive_solver|].
  destruct (Hok eq_refl) as [Hr Hn].
  case_decide; simplify_eq/=; [naive_solver|].
  split_and!; try done; [|set_solver]. intros _. split; [|set_solver].
  rewrite Hr, wrap32_add, size_union, size_singleton by set_solver. f_equal. lia.
Qed.

Lemma removeRegistration_ok midKey e e' r :
  removeRegistration midKey e = (e', r) → entry_ok e →
  entry_ok e' ∧ (ne_stopped e = true → ne_stopped e' = true) ∧
  (r.1.2 = true → ne_stopped e' = true) ∧ (r.1.1 = bool_decide (midKey ∈ ne_midKeys e)) ∧
  midKey ∉ ne_midKeys e'.
Proof.
  unfold removeRegistration, entry_ok. intros Ha Hok.
  case_decide as Hin; simplify_eq/=; cycle 1.
  { rewrite bool_decide_eq_false_2 by done. naive_solver. }
  rewrite bool_decide_eq_true_2 by done.
  destruct (Z.leb_spec (wrap32 (ne_refCount e - 1)) 0); simplify_eq/=;
    split_and!; try done; try set_solver.
  intros Hs. destruct (Hok Hs) as [Hr Hn]. rewrite Hr in *.
  replace (wrap32 (Z.of_nat (size (ne_midKeys e))) - 1)%Z
    with (wrap32 (Z.of_nat (size (ne_midKeys e))) + -1)%Z in * by lia.
  rewrite wrap32_add in *. rewrite size_difference, size_singleton by set_solver.
  assert (size (ne_midKeys e) ≠ 0) by (rewrite size_empty_iff; set_solver).
  rewrite Nat2Z.inj_sub by lia. split; [f_equal; lia|].
  intros Hemp. assert (size (ne_midKeys e) = 1) as H1.
  { by rewrite (union_difference_singleton_L _ _ Hin), Hemp, (right_id_L ∅ (∪)), size_singleton. }
  rewrite H1 in *. vm_compute in H. done.
Qed.

(** *** The steps *)

Lemma register_step_inv ready m pool tid p m' p' :
  inv (m, pool) → pool !! tid = Some p → register_step ready m p = Some (m', p') →
  inv (m', <[tid := p']> pool).
Proof.
  intros Hi Htid Hstep. pose proof (inv_global _ Hi) as Hg. simpl in Hg.
  pose proof (inv_pc _ Hi _ _ Htid) as Hpc. simpl in Hpc.
  destruct p; try discriminate; cbn [register_step pc_ok] in *.
  - unfold map_load in Hstep. destruct (mg_entries m !! ns) as [[l|]|] eqn:En; simplify_eq;
      (eapply inv_move; eauto using ns_evolves_refl; simpl; eauto using go_entries).
  - destruct Hpc as [e He]. rewrite He in Hstep. simpl in Hstep.
    destruct (addRegistration midKey e) as [e' [[added active] n]] eqn:Ea. simplify_eq.
    destruct (addRegistration_ok _ _ _ _ Ea (go_heap _ Hg _ _ He)) as (Hok & Hs & Hact & _).
    simpl in Hact. subst active.
    eapply inv_move; eauto using ns_evolves_put, ns_global_put.
    destruct (ne_stopped e) eqn:Es; simpl; [|done].
    exists e'. simpl. rewrite lookup_insert_eq. auto.
  - simplify_eq. eapply inv_move; eauto using ns_global_withdraw, evolves_set_entries; done.
  - unfold load_or_store in Hstep. destruct (mg_entries m !! ns) as [[l|]|] eqn:En; simplify_eq;
      [eapply inv_move; eauto using ns_evolves_refl; simpl; eauto using go_entries..|].
    set (l := fresh (dom (mg_heap m))) in *.
    assert (Hn : mg_heap m !! l = None) by (apply not_elem_of_dom, is_fresh).
    assert (Hev : evolves m (Mgr (<[ns:=VEntry l]> (mg_entries m))
      (<[l:=NsEntry false false 1 {[midKey]} false false]> (mg_heap m)) (<[l:=ns]> (mg_home m)))).
    { intros l' e Hl'. exists e. simpl. by rewrite lookup_insert_ne by congruence. }
    eapply inv_move; [done..| |simpl; by rewrite lookup_insert_eq; eauto].
    destruct Hg as [Hh He Ho Hp]. split; simpl.
    + eapply homed_mono; [|by apply homed_publish]. eauto using ns_evolves_dead.
    + intros ns' l'. rewrite lookup_insert_Some, lookup_insert_is_Some.
      destruct (decide (l = l')); naive_solver.
    + intros l' ns'. rewrite lookup_insert_Some, lookup_insert_is_Some.
      destruct (decide (l = l')); naive_solver.
    + intros l' e. rewrite lookup_insert_Some. intros [[_ <-]|[_ ?]]; [|by eauto].
      intros _. simpl ne_refCount. simpl ne_midKeys. rewrite size_singleton. split; [done|set_solver].
  - destruct Hpc as [e He]. rewrite He in Hstep. simplify_eq/=.
    eapply inv_move; eauto using ns_evolves_put; [|done].
    eapply ns_global_put; eauto. exact (go_heap _ Hg _ _ He).
Qed.

Lemma unregister_step_inv m pool tid p m' p' :
  inv (m, pool) → pool !! tid = Some p → unregister_step m p = Some (m', p') →
  inv (m', <[tid := p']> pool).
Proof.
  intros Hi Htid Hstep. pose proof (inv_global _ Hi) as Hg. simpl in Hg.
  pose proof (inv_pc _ Hi _ _ Htid) as Hpc. simpl in Hpc.
  destruct p; try discriminate; cbn [unregister_step pc_ok] in *.
  - unfold map_load in Hstep. destruct (mg_entries m !! ns) as [[l|]|] eqn:En; simplify_eq;
      (eapply inv_move; eauto using ns_evolves_refl; simpl; eauto using go_entries).
  - destruct Hpc as [e He]. rewrite He in Hstep. simpl in Hstep.
    destruct (removeRegistration midKey e) as [e' [[removed should] n]] eqn:Er. simplify_eq.
    destruct (removeRegistration_ok _ _ _ _ Er (go_heap _ Hg _ _ He)) as (Hok & Hs & Hst & _ & _).
    eapply inv_move; eauto using ns_evolves_put, ns_global_put.
    destruct removed, should; simpl; try done.
    exists e'. simpl. rewrite lookup_insert_eq. auto.
  - destruct Hpc as (e & He & Hs). rewrite He in Hstep. simplify_eq/=.
    eapply inv_move; eauto using ns_evolves_put.
    + eapply ns_global_put; eauto. exact (go_heap _ Hg _ _ He).
    + exists (cancel_entry e). simpl. by rewrite lookup_insert_eq.
  - simplify_eq. eapply inv_move; eauto using ns_global_withdraw, evolves_set_entries; done.
Qed.

Lemma ns_stopAll_step_inv m pool tid p m' p' :
  inv (m, pool) → pool !! tid = Some p → stopAll_step m p = Some (m', p') →
  inv (m', <[tid := p']> pool).
Proof.
  intros Hi Htid Hstep. pose proof (inv_global _ Hi) as Hg. simpl in Hg.
  pose proof (inv_pc _ Hi _ _ Htid) as Hpc. simpl in Hpc.
  destruct p as [| | | | | | | | | | |todo|ns l todo|ns l todo|]; try discriminate;
    cbn [stopAll_step pc_ok] in *.
  - destruct todo as [|ns todo]; simplify_eq; [by eapply inv_move; eauto using ns_evolves_refl|].
    unfold map_load in Hstep. destruct (mg_entries m !! ns) as [[l|]|] eqn:En; simplify_eq;
      (eapply inv_move; eauto using ns_evolves_refl; simpl; eauto using go_entries).
  - destruct Hpc as [e He]. rewrite He in Hstep. simplify_eq/=.
    eapply inv_move; eauto using ns_evolves_put.
    + by eapply ns_global_put.
    + exists (stop_entry e). simpl. by rewrite lookup_insert_eq.
  - simplify_eq. eapply inv_move; eauto using ns_global_withdraw, evolves_set_entries; done.
Qed.

Lemma ns_step_inv c c' : step c c' → inv c → inv c'.
Proof.
  destruct 1 as [m m' pool tid p p' ready Htid He|m pool tid p Htid Hent]; intros Hi.
  - unfold exec in He. destruct (register_step ready m p) as [[]|] eqn:E1; simplify_eq;
      [by eapply register_step_inv|].
    destruct (unregister_step m p) as [[]|] eqn:E2; simplify_eq; [by eapply unregister_step_inv|].
    by eapply ns_stopAll_step_inv.
  - eapply inv_move; eauto using ns_evolves_refl; [apply Hi|by destruct Hent].
Qed.

Lemma ns_initial_inv : inv initial.
Proof.
  split; [split; simpl; [apply homed_empty|..]|]; simpl; intros *; by rewrite lookup_empty.
Qed.

Lemma ns_reachable_inv c : rtc step initial c → inv c.
Proof. intros Hr. eapply preserved_rtc; [|done|apply ns_initial_inv]. intros ???. by apply ns_step_inv. Qed.

(** ** Properties *)

(** At any time a namespace has at most one live informer set: two
    published entries of one namespace that are both live are the same entry,
    it is the one [Register] and [GetCache] find, its reference count is the
    number of its registrations, and it has at least one. *)
Theorem one_live_entry m pool ns l1 l2 e1 e2 :
  rtc step initial (m, pool) →
  mg_home m !! l1 = Some ns → mg_home m !! l2 = Some ns →
  mg_heap m !! l1 = Some e1 → mg_heap m !! l2 = Some e2 →
  ne_stopped e1 = false → ne_stopped e2 = false →
  l1 = l2 ∧ mg_entries m !! ns = Some (VEntry l1) ∧
  ne_refCount e1 = wrap32 (Z.of_nat (size (ne_midKeys e1))) ∧ ne_midKeys e1 ≠ ∅.
Proof.
  intros Hr Hh1 Hh2 Hl1 Hl2 Hs1 Hs2.
  destruct (inv_global _ (ns_reachable_inv _ Hr)) as [Hh _ _ Hp]. simpl in *.
  assert (Hd1 : ¬ dead m l1) by (intros (? & ? & ?); simplify_eq; congruence).
  assert (Hd2 : ¬ dead m l2) by (intros (? & ? & ?); simplify_eq; congruence).
  split; [by eapply (homed_exclusive VEntry _ _ _ _ _ _ Hh)|].
  split; [by apply (homed_current VEntry _ _ _ _ _ Hh)|]. by apply (Hp l1).
Qed.

Definition registered (m : mgr) (ns midKey : string) (l : loc) : Prop :=
  mg_entries m !! ns = Some (VEntry l) ∧
  ∃ e, mg_heap m !! l = Some e ∧ ne_stopped e = false ∧ midKey ∈ ne_midKeys e.

Lemma exec_RegCreate ready m ns midKey :
  mg_entries m !! ns = None →
  ∃ m' l, exec ready m (RegCreate ns midKey) = Some (m', RegWaitSync ns midKey l) ∧
    registered m' ns midKey l.
Proof.
  intros Hn. do 2 eexists. unfold exec, register_step, load_or_store. rewrite Hn.
  split; [done|]. split; simpl; [apply lookup_insert_eq|].
  eexists. rewrite lookup_insert_eq. split; [done|]. split; [done|]. set_solver.
Qed.

Lemma exec_RegWaitSync ready m ns midKey l :
  registered m ns midKey l →
  ∃ m', exec ready m (RegWaitSync ns midKey l) = Some (m', RegDone ns midKey l) ∧
    registered m' ns midKey l ∧ GetCache m' ns = Some l.
Proof.
  intros (Hm & e & He & Hs & Hk). eexists. unfold exec, register_step. rewrite He. split; [done|].
  unfold registered, GetCache, map_load. simpl. rewrite Hm, lookup_insert_eq. simpl. rewrite Hs.
  split; [|done]. split; [done|]. eauto.
Qed.

Lemma run_RegCreate fuel ready m ns midKey :
  mg_entries m !! ns = None → 2 ≤ fuel →
  ∃ m' l, iterate (exec ready) fuel m (RegCreate ns midKey) = (m', RegDone ns midKey l) ∧
    registered m' ns midKey l ∧ GetCache m' ns = Some l.
Proof.
  intros Hn Hf. destruct fuel as [|[|fuel]]; [lia..|].
  destruct (exec_RegCreate ready m ns midKey Hn) as (m1 & l & E1 & Hr).
  destruct (exec_RegWaitSync ready m1 ns midKey l Hr) as (m2 & E2 & Hr2 & Hc).
  rewrite (iterate_step _ _ _ _ _ _ E1), (iterate_step _ _ _ _ _ _ E2), iterate_final by done. eauto.
Qed.

(** Called alone in any reachable state, [Register] returns within six
    actions.  Unless a foreign value sits under the namespace (then it reports
    an error), the namespace then has a live published entry that holds the
    caller's registration; an entry this call created also serves its cache. *)
Theorem Register_terminates m pool ns midKey ready fuel :
  rtc step initial (m, pool) → 6 ≤ fuel →
  (mg_entries m !! ns = Some VOther ∧
   iterate (exec ready) fuel m (RegLoad ns midKey) = (m, RegFailed)) ∨
  ∃ m' l, iterate (exec ready) fuel m (RegLoad ns midKey) = (m', RegDone ns midKey l) ∧
    registered m' ns midKey l ∧
    (mg_heap m !! l = None → GetCache m' ns = Some l).
Proof.
  intros Hr Hf. destruct (inv_global _ (ns_reachable_inv _ Hr)) as [_ He _ Hp]. simpl in *.
  do 4 (destruct fuel as [|fuel]; [lia|]).
  destruct (mg_entries m !! ns) as [[l|]|] eqn:En; cycle 1.
  { left. split; [done|]. rewrite (iterate_step _ _ _ _ m RegFailed); [by apply iterate_final|].
    unfold exec, register_step, map_load. by rewrite En. }
  { right. rewrite (iterate_step _ _ _ _ m (RegCreate ns midKey)) by
      (unfold exec, register_step, map_load; by rewrite En).
    destruct (run_RegCreate (S (S (S fuel))) ready m ns midKey) as (m' & l & ? & ? & ?); eauto; lia. }
  right. destruct (He ns l En) as [e Hle].
  rewrite (iterate_step _ _ _ _ m (RegJoin ns midKey l)) by
    (unfold exec, register_step, map_load; by rewrite En).
  destruct (addRegistration midKey e) as [e' [[added active] n]] eqn:Ea.
  destruct (addRegistration_ok _ _ _ _ Ea (Hp _ _ Hle)) as (_ & Hs & Hact & Hin).
  simpl in Hact, Hin.
  rewrite (iterate_step _ _ _ _ (put_entry m l e')
    (if active then RegDone ns midKey l else RegEvict ns midKey l)) by
    (unfold exec, register_step; rewrite Hle; simpl; by rewrite Ea).
  destruct active.
  { rewrite iterate_final by done. do 2 eexists. split; [done|]. split; [|congruence].
    split; [done|]. exists e'. simpl. rewrite lookup_insert_eq. split_and!; auto.
    unfold addRegistration in Ea. destruct (ne_stopped e) eqn:?; [done|]. case_decide; by simplify_eq/=. }
  set (m1 := set_entries (put_entry m l e') (compare_and_delete (mg_entries m) ns (VEntry l))).
  assert (Hm1 : mg_entries m1 !! ns = None).
  { unfold m1, compare_and_delete. simpl. by rewrite decide_True, lookup_delete_eq. }
  rewrite (iterate_step _ _ _ _ m1 (RegLoad ns midKey)) by done.
  rewrite (iterate_step _ _ _ _ m1 (RegCreate ns midKey)) by
    (unfold exec, register_step, map_load; by rewrite Hm1).
  destruct (run_RegCreate fuel ready m1 ns midKey) as (m' & l' & ? & ? & ?); eauto; lia.
Qed.

(** [Unregister] called alone removes exactly the caller's registration:
    when others remain the entry stays published and alive with the others
    registered; when it was the last, the informers are cancelled, the entry
    is marked stopped and it leaves the map.  Other namespaces are untouched. *)
Theorem Unregister_tears_down_last m pool ns midKey l e fuel :
  rtc step initial (m, pool) → 4 ≤ fuel →
  mg_entries m !! ns = Some (VEntry l) → mg_heap m !! l = Some e →
  ne_stopped e = false → midKey ∈ ne_midKeys e → (Z.of_nat (size (ne_midKeys e)) < 2 ^ 31)%Z →
  ∃ m' e', iterate (exec true) fuel m (UnLoad ns midKey) = (m', Returned) ∧
    mg_heap m' = <[l := e']> (mg_heap m) ∧ ne_midKeys e' = ne_midKeys e ∖ {[midKey]} ∧
    if decide (ne_midKeys e = {[midKey]})
    then mg_entries m' = delete ns (mg_entries m) ∧ ne_stopped e' = true ∧ ne_cancelled e' = true
    else mg_entries m' = mg_entries m ∧ ne_stopped e' = false ∧ ne_cancelled e' = ne_cancelled e.
Proof.
  intros Hr Hf En Hl Hs Hin Hsz.
  destruct (inv_global _ (ns_reachable_inv _ Hr)) as [_ _ _ Hp]. destruct (Hp _ _ Hl Hs) as [Hc Hne].
  assert (Hpos : size (ne_midKeys e) ≠ 0) by (rewrite size_empty_iff; set_solver).
  rewrite wrap32_id in Hc by lia.
  do 4 (destruct fuel as [|fuel]; [lia|]).
  rewrite (iterate_step _ _ _ _ m (UnRemove ns midKey l)) by
    (unfold exec, unregister_step, map_load; simpl; by rewrite En).
  assert (Hone : ne_midKeys e = {[midKey]} ↔ size (ne_midKeys e) = 1).
  { split; [intros ->; apply size_singleton|]. intros H1. apply size_1_elem_of in H1 as [x Hx].
    apply leibniz_equiv in Hx. rewrite Hx in Hin |- *. by apply elem_of_singleton in Hin as ->. }
  destruct (removeRegistration midKey e) as [e1 [[removed should] n]] eqn:Er.
  assert (Er' := Er). unfold removeRegistration in Er'. rewrite decide_True in Er' by done.
  rewrite Hc, wrap32_id in Er' by lia.
  rewrite (iterate_step _ _ _ _ (put_entry m l e1) (if removed && should then UnCancel ns l else Returned))
    by (unfold exec, unregister_step; simpl; rewrite Hl; simpl; by rewrite Er).
  case_decide as Hd; [rewrite Hone in Hd|rewrite Hone in Hd];
    (destruct (Z.leb_spec (Z.of_nat (size (ne_midKeys e)) - 1) 0); [try lia|try lia]); simplify_eq/=.
  - erewrite iterate_step by
      (unfold exec, unregister_step; simpl; by rewrite lookup_insert_eq).
    erewrite iterate_step by done. rewrite iterate_final by done.
    do 2 eexists. split; [done|]. simpl. rewrite insert_insert_eq. split; [done|].
    split; [done|]. unfold compare_and_delete. by rewrite decide_True.
  - rewrite iterate_final by done. do 2 eexists. split_and!; done.
Qed.

(** ** Witnesses *)

Lemma iterate_reachable ready fuel m pool tid p m' p' :
  pool !! tid = Some p → iterate (exec ready) fuel m p = (m', p') →
  rtc step (m, pool) (m', <[tid := p']> pool).
Proof.
  revert m pool p. induction fuel as [|fuel IH]; intros m pool p Ht Hit.
  - unfold iterate in Hit. simplify_eq. by rewrite insert_id.
  - destruct (exec ready m p) as [[m1 p1]|] eqn:E.
    + rewrite (iterate_step _ _ _ _ _ _ E) in Hit. eapply rtc_l; [by econstructor|].
      rewrite <- (insert_insert_eq pool tid p' p1). apply (IH _ _ p1); [|done]. apply lookup_insert_eq.
    + rewrite iterate_final in Hit by done. simplify_eq. by rewrite insert_id.
Qed.

(** Two sessions registered in "ns"; the informers were not ready. *)
Definition two_registered : mgr :=
  let m1 := (iterate (exec false) 6 (Mgr ∅ ∅ ∅) (RegLoad "ns" "ns/a#1")).1 in
  (iterate (exec false) 6 m1 (RegLoad "ns" "ns/b#2")).1.

Lemma two_registered_reachable : ∃ pool, rtc step initial (two_registered, pool).
Proof.
  eexists. eapply rtc_l; [apply (step_spawn _ _ 0 (RegLoad "ns" "ns/a#1")); [done|constructor]|].
  etrans.
  { apply (iterate_reachable false 6 _ _ 0 (RegLoad "ns" "ns/a#1")); [done|vm_compute; reflexivity]. }
  eapply rtc_l; [apply (step_spawn _ _ 1 (RegLoad "ns" "ns/b#2")); [done|constructor]|].
  apply (iterate_reachable false 6 _ _ 1 (RegLoad "ns" "ns/b#2")); [done|vm_compute; reflexivity].
Qed.

(** [GetCache] serves a cache whose informers never reported being synced,
    because [Register] stores [synced] after a timed-out wait too. *)
Lemma cache_served_unsynced :
  ∃ m pool l e, rtc step initial (m, pool) ∧ GetCache m "ns" = Some l ∧
    mg_heap m !! l = Some e ∧ ne_ready e = false.
Proof.
  destruct two_registered_reachable as [pool Hp]. exists two_registered, pool.
  do 2 eexists. split; [done|]. vm_compute. eauto.
Qed.

Lemma one_live_entry_witness :
  0 = 0 ∧ mg_entries two_registered !! "ns" = Some (VEntry 0) ∧
  2%Z = wrap32 (Z.of_nat (size ({["ns/b#2"; "ns/a#1"]} : gset string))) ∧
  ({["ns/b#2"; "ns/a#1"]} : gset string) ≠ ∅.
Proof.
  destruct two_registered_reachable as [pool Hp].
  refine (one_live_entry two_registered pool "ns" 0 0
    (NsEntry false false 2 {["ns/b#2"; "ns/a#1"]} true false)
    (NsEntry false false 2 {["ns/b#2"; "ns/a#1"]} true false) Hp _ _ _ _ _ _); vm_compute; reflexivity.
Defined.

Lemma Register_terminates_witness :
  ∃ m' l, iterate (exec true) 6 two_registered (RegLoad "ns" "ns/c#3") = (m', RegDone "ns" "ns/c#3" l) ∧
    registered m' "ns" "ns/c#3" l.
Proof.
  destruct two_registered_reachable as [pool Hp].
  destruct (Register_terminates two_registered pool "ns" "ns/c#3" true 6 Hp (le_n 6))
    as [[H _]|(m' & l & H & Hr & _)]; [vm_compute in H; discriminate|eauto].
Defined.

Lemma Unregister_tears_down_last_witness :
  ∃ m' e', iterate (exec true) 4 two_registered (UnLoad "ns" "ns/a#1") = (m', Returned) ∧
    ne_stopped e' = false.
Proof.
  destruct two_registered_reachable as [pool Hp].
  destruct (Unregister_tears_down_last two_registered pool "ns" "ns/a#1" 0
    (NsEntry false false 2 {["ns/b#2"; "ns/a#1"]} true false) 4 Hp (le_n 4))
    as (m' & e' & H & _ & _ & Hd); [vm_compute; reflexivity..|set_solver|vm_compute; reflexivity|].
  destruct (decide _) as [Hx|]; [apply (f_equal size) in Hx; vm_compute in Hx; discriminate|]. exists m', e'. naive_solver.
Defined.
