(* ===== verification/Leader.v ===== *)
(** * Leaders and the informer manager

    [cmd/leader_background.go] and the package-level manager of
    [internal/service/synchronizer/resource_cache_informer.go]: a process may be
    elected several times, and the background tasks of a former leader may still
    be unwinding while those of the next one start.  The entries of a manager
    are in [NsInformer]; here a manager is its root context and its callback.

    The manager's mutex makes each operation on [globalManager] one step. *)
From stdpp Require Import base list option relations.
From Stdlib Require Import Lia.
From S2P Require Import Prelude.

(** ** Managers *)

(** A manager's root context is derived from the context of the leader that
    created it. *)
(** [NsInformerManager], internal/service/synchronizer/resource_cache_informer.go *)
Record manager := NsInformerManager { mg_leader : nat; mg_cancelled : bool; mg_callback : bool }.
Definition cancel_root (m : manager) : manager := NsInformerManager (mg_leader m) true (mg_callback m).
(** [NsInformerManager.SetEventCallback], internal/service/synchronizer/resource_cache_informer.go *)
Definition SetEventCallback (m : manager) : manager := NsInformerManager (mg_leader m) (mg_cancelled m) true.

(** Where the tasks of a leader are: before each of their actions. *)
Inductive task_pc :=
  | StopWatchers | StopSessions | StartManager
  | SetCallback (m : nat)
  | AwaitDone (m : option nat)
  | StopManager (m : option nat)
  | Ended.
(** [leaderBackgroundTasks], cmd/leader_background.go *)
Record leader := Leader { ld_pc : task_pc; ld_done : bool }.

Record state := State { st_leaders : list leader; st_managers : list manager; st_global : option nat }.
Implicit Types (s : state) (i g id : nat) (m : manager).

Definition at_pc (pc : task_pc) (l : leader) : leader := Leader pc (ld_done l).
Definition cancel_context (l : leader) : leader := Leader (ld_pc l) true.
Definition set_pc i pc s : state := State (alter (at_pc pc) i (st_leaders s)) (st_managers s) (st_global s).
Definition on_manager (f : manager → manager) id s : state := State (st_leaders s) (alter f id (st_managers s)) (st_global s).
Definition set_global (g : option nat) s : state := State (st_leaders s) (st_managers s) g.

Definition context_done s i : bool := match st_leaders s !! i with Some l => ld_done l | None => false end.
(** [rootCtx.Done()] *)
Definition root_done s m : bool := mg_cancelled m || context_done s (mg_leader m).

(** [NsInformerManager.stopAll], internal/service/synchronizer/resource_cache_informer.go *)
Definition stopAll id s : state := on_manager cancel_root id s.

(** [built]: whether the clientset could be built. *)
(** [StartNsInformerManager], internal/service/synchronizer/resource_cache_informer.go:84-99 *)
Definition create_manager i (built : bool) s : state * option nat :=
  if built
  then (State (st_leaders s) (st_managers s ++ [NsInformerManager i false false]) (Some (length (st_managers s))),
        Some (length (st_managers s)))
  else (s, None).
(** [StartNsInformerManager], internal/service/synchronizer/resource_cache_informer.go *)
Definition StartNsInformerManager i (built : bool) s : state * option nat :=
  match st_global s with
  | Some g =>
      match st_managers s !! g with
      | Some m => if root_done s m then create_manager i built (set_global None (stopAll g s)) else (s, Some g)
      | None => (s, None)
      end
  | None => create_manager i built s
  end.

(** [StopNsInformerManagerIfCurrent], internal/service/synchronizer/resource_cache_informer.go *)
Definition StopNsInformerManagerIfCurrent (want : option nat) s : state :=
  match want with
  | None => s
  | Some id => if decide (st_global s = Some id) then set_global None (stopAll id s) else s
  end.

(** ** The tasks of a leader *)

(** [leaderBackgroundTasks.Start], cmd/leader_background.go *)
Definition Start (cfg built : bool) i (pc : task_pc) s : option state :=
  match pc with
  | StopWatchers => Some (set_pc i StopSessions s)
  | StopSessions => Some (set_pc i (if cfg then StartManager else AwaitDone None) s)
  | StartManager =>
      let '(s, m) := StartNsInformerManager i built s in
      Some (set_pc i (match m with Some id => SetCallback id | None => AwaitDone None end) s)
  | SetCallback id => Some (set_pc i (AwaitDone (Some id)) (on_manager SetEventCallback id s))
  | AwaitDone m => if context_done s i then Some (set_pc i (StopManager m) s) else None
  | StopManager m => Some (set_pc i Ended (StopNsInformerManagerIfCurrent m s))
  | Ended => None
  end.

(** The tasks have asked for a manager. *)
Definition started (l : leader) : Prop := match ld_pc l with StopWatchers | StopSessions | StartManager => False | _ => True end.

(** A leader is elected when the contexts of the former ones are done; with
    [orderly], also only after their tasks have asked for a manager. *)
Inductive step (orderly : Prop) : state → state → Prop :=
  | step_elected s :
      Forall (λ l, ld_done l = true ∧ (orderly → started l)) (st_leaders s) →
      step orderly s (State (st_leaders s ++ [Leader StopWatchers false]) (st_managers s) (st_global s))
  | step_lost s i :
      step orderly s (State (alter cancel_context i (st_leaders s)) (st_managers s) (st_global s))
  | step_task cfg built s i l s' :
      st_leaders s !! i = Some l → Start cfg built i (ld_pc l) s = Some s' → step orderly s s'.
Definition initial : state := State [] [] None.
Definition reachable (orderly : Prop) s : Prop := rtc (step orderly) initial s.

(** ** What the leader in office has *)

(** The manager that a task holds. *)
Definition held (pc : task_pc) : option nat :=
  match pc with SetCallback id => Some id | AwaitDone m | StopManager m => m | _ => None end.

(** Managers other than the current one are stopped, and the current one is known. *)
Definition no_strays s : Prop :=
  (∀ g, st_global s = Some g → g < length (st_managers s)) ∧
  ∀ id m, st_managers s !! id = Some m → st_global s = Some id ∨ mg_cancelled m = true.

Lemma stopAll_managers id s k m : st_managers (stopAll id s) !! k = Some m →
  (k = id ∧ mg_cancelled m = true ∧ ∃ m0, st_managers s !! k = Some m0 ∧ m = cancel_root m0) ∨ (k ≠ id ∧ st_managers s !! k = Some m).
Proof.
  simpl. destruct (decide (k = id)) as [->|Hne]; [|rewrite list_lookup_alter_ne by done; auto].
  rewrite list_lookup_alter_eq. intros (m0 & Hm & ->)%fmap_Some. left. eauto.
Qed.

Lemma strays_cleared s id : no_strays s → st_global s = Some id → no_strays (set_global None (stopAll id s)).
Proof.
  intros [Hb Hs] Hg. split; [done|]. intros k m Hm. right.
  destruct (stopAll_managers id s k m Hm) as [(_ & ? & _)|[Hne Hk]]; [done|].
  destruct (Hs k m Hk); [congruence|done].
Qed.

Lemma strays_created s i built s' (m : option nat) : no_strays s → st_global s = None → create_manager i built s = (s', m) → no_strays s'.
Proof.
  intros [Hb Hs] Hg. unfold create_manager. destruct built; intros [= <- <-]; [|done]. split; simpl.
  - intros g [= <-]. rewrite length_app. simpl. lia.
  - intros id mg [Hm|(Hle & Hm)]%lookup_app_Some.
    + right. destruct (Hs id mg Hm); [congruence|done].
    + left. apply list_lookup_singleton_Some in Hm as [Hm _]. f_equal. lia.
Qed.

Lemma strays_set i pc s : no_strays s → no_strays (set_pc i pc s).
Proof. done. Qed.

Lemma start_strays i built s s' (m : option nat) : no_strays s → StartNsInformerManager i built s = (s', m) → no_strays s'.
Proof.
  intros Hn. unfold StartNsInformerManager. destruct (st_global s) as [g|] eqn:Hg; [|by apply strays_created].
  destruct (st_managers s !! g) as [mg|]; [|by intros [= <- _]]. destruct (root_done s mg); [|by intros [= <- _]].
  apply strays_created; [by apply strays_cleared|done].
Qed.

Lemma stop_strays want s : no_strays s → no_strays (StopNsInformerManagerIfCurrent want s).
Proof. intros Hn. destruct want as [id|]; [|done]. simpl. case_decide; [by apply strays_cleared|done]. Qed.

Lemma callback_strays id s : no_strays s → no_strays (on_manager SetEventCallback id s).
Proof.
  intros [Hb Hs]. split; simpl; [intros g Hg; rewrite length_alter; auto|]. intros k m Hm.
  destruct (decide (k = id)) as [->|Hne]; [|rewrite list_lookup_alter_ne in Hm by done; auto].
  rewrite list_lookup_alter_eq in Hm. apply fmap_Some in Hm as (m0 & Hm & ->). apply (Hs _ m0 Hm).
Qed.

Lemma strays_step orderly s s' : step orderly s s' → no_strays s → no_strays s'.
Proof.
  intros Hstep Hn. destruct Hstep as [s _|s i|cfg built s i l s' _ Hs]; [done|done|].
  destruct (ld_pc l) as [| | |id|m|m|]; simpl in Hs; try (injection Hs as <-).
  - done.
  - done.
  - destruct (StartNsInformerManager i built s) as [s1 m] eqn:E. injection Hs as <-. apply strays_set. by eapply start_strays.
  - by apply strays_set, callback_strays.
  - destruct (context_done s i); [by injection Hs as <-|done].
  - by apply strays_set, stop_strays.
  - done.
Qed.

(** *** With elections in order *)

Definition former_started s : Prop :=
  ∀ j l, st_leaders s !! j = Some l → S j < length (st_leaders s) → ld_done l = true ∧ started l.
(** A leader holds a manager of its own, and all its others are stopped. *)
Definition own_managers s : Prop :=
  ∀ j l, st_leaders s !! j = Some l →
    (∀ id, held (ld_pc l) = Some id → ∃ m, st_managers s !! id = Some m ∧ mg_leader m = j) ∧
    (∀ id m, st_managers s !! id = Some m → mg_leader m = j → held (ld_pc l) = Some id ∨ mg_cancelled m = true).
(** The manager of the leader in office runs. *)
Definition running s id (pc : task_pc) : Prop :=
  st_global s = Some id ∧ ∃ m, st_managers s !! id = Some m ∧ mg_cancelled m = false ∧ (pc = AwaitDone (Some id) → mg_callback m = true).
Definition in_office s : Prop :=
  ∀ j l id, st_leaders s !! j = Some l → ld_done l = false →
    ld_pc l = SetCallback id ∨ ld_pc l = AwaitDone (Some id) → running s id (ld_pc l).
Definition known_leaders s : Prop := ∀ id m, st_managers s !! id = Some m → mg_leader m < length (st_leaders s).
Record ordered s : Prop := {
  ord_strays : no_strays s;
  ord_former : former_started s;
  ord_own : own_managers s;
  ord_office : in_office s;
  ord_known : known_leaders s;
}.

Lemma only_last s j l : former_started s → st_leaders s !! j = Some l → ld_done l = false ∨ ¬ started l → S j = length (st_leaders s).
Proof.
  intros Hf Hl Hor. destruct (decide (S j < length (st_leaders s))) as [Hlt|]; [destruct (Hf j l Hl Hlt); by destruct Hor as [?|?]; [congruence|]|].
  apply lookup_lt_Some in Hl. lia.
Qed.

(** Changing where one leader is. *)
Lemma leader_at i pc s j l : st_leaders (set_pc i pc s) !! j = Some l →
  (j = i ∧ ∃ l0, st_leaders s !! i = Some l0 ∧ l = at_pc pc l0) ∨ (j ≠ i ∧ st_leaders s !! j = Some l).
Proof.
  simpl. destruct (decide (j = i)) as [->|Hne]; [|rewrite list_lookup_alter_ne by done; auto].
  rewrite list_lookup_alter_eq. intros (l0 & Hl & ->)%fmap_Some. left. eauto.
Qed.

Lemma former_set i pc s : former_started s → (match pc with StopWatchers | StopSessions | StartManager => False | _ => True end ∨
    ∃ l, st_leaders s !! i = Some l ∧ ¬ started l) → former_started (set_pc i pc s).
Proof.
  intros Hf Hpc j l Hl Hlt. simpl in Hlt. rewrite length_alter in Hlt.
  destruct (leader_at _ _ _ _ _ Hl) as [(-> & l0 & Hl0 & ->)|[_ Hl']]; [|by eapply Hf].
  destruct (Hf i l0 Hl0 Hlt) as [Hd Hs]. split; [done|]. destruct Hpc as [Hpc|(l' & Hl' & Hn)]; [exact Hpc|by simplify_eq].
Qed.

(** Managers are only added, for [i], and stopped. *)
Definition grows i s s' : Prop :=
  (∀ id m, st_managers s !! id = Some m → ∃ m', st_managers s' !! id = Some m' ∧ mg_leader m' = mg_leader m ∧
     (mg_cancelled m = true → mg_cancelled m' = true)) ∧
  (∀ id m', st_managers s' !! id = Some m' → mg_leader m' = i ∨ ∃ m, st_managers s !! id = Some m).
(** What the leader in office has is not touched. *)
Definition spares i s s' : Prop :=
  ∀ j l id, j ≠ i → st_leaders s !! j = Some l → ld_done l = false → ld_pc l = SetCallback id ∨ ld_pc l = AwaitDone (Some id) →
    st_global s' = st_global s ∧ st_managers s' !! id = st_managers s !! id.

Lemma grows_refl i s : grows i s s.
Proof. split; eauto. Qed.

(** A step of the tasks of [i] to [pc]. *)
Lemma ordered_set i pc l s s' :
  ordered s → st_leaders s !! i = Some l → st_leaders s' = st_leaders s → grows i s s' → spares i s s' →
  no_strays s' → former_started (set_pc i pc s) → i < length (st_leaders s) →
  (∀ id, held pc = Some id → ∃ m, st_managers s' !! id = Some m ∧ mg_leader m = i) →
  (∀ id m, st_managers s' !! id = Some m → mg_leader m = i → held pc = Some id ∨ mg_cancelled m = true) →
  (ld_done l = false → ∀ id, pc = SetCallback id ∨ pc = AwaitDone (Some id) → running s' id pc) →
  ordered (set_pc i pc s').
Proof.
  intros [_ Hf Ho Hi Hk] Hl Hls [Hgrow Hback] Hspare Hn Hf' Hlt Hown Hown' Hrun.
  assert (Hcase : ∀ j l', st_leaders (set_pc i pc s') !! j = Some l' → (j = i ∧ l' = at_pc pc l) ∨ (j ≠ i ∧ st_leaders s !! j = Some l')).
  { intros j l' [(-> & l0 & Hl0 & ->)|[? Hj]]%leader_at; rewrite Hls in *; [left; split; [done|]; congruence|by right]. }
  split.
  - by apply strays_set.
  - intros j l' Hj Hlt'. apply (Hf' j l'); simpl in *; by rewrite <- ?Hls.
  - intros j l' [[-> ->]|[Hne Hj]]%Hcase; [split; [exact Hown|exact Hown']|].
    destruct (Ho j l' Hj) as [Ho1 Ho2]. split.
    + intros id Hid. destruct (Ho1 id Hid) as (m & Hm & <-). destruct (Hgrow id m Hm) as (m' & ? & ? & _). eauto.
    + intros id m' Hm' Hj'. simpl in Hm'. destruct (Hback id m' Hm') as [?|[m Hm]]; [congruence|].
      destruct (Hgrow id m Hm) as (m'' & Hm'' & Hle & Hc). simplify_eq. destruct (Ho2 id m Hm) as [?|?]; [congruence|by left|right; auto].
  - intros j l' id [[-> ->]|[Hne Hj]]%Hcase Hd Hpc; [by apply Hrun|].
    destruct (Hi j l' id Hj Hd Hpc) as (Hg & m & Hm & Hc & Hcb).
    destruct (Hspare j l' id Hne Hj Hd Hpc) as [Hg' Hm'].
    split; [by simpl; rewrite Hg', Hg|]. exists m. split; [|done]. simpl. by rewrite Hm'.
  - intros id m' Hm'. simpl in *. rewrite length_alter, Hls. destruct (Hback id m' Hm') as [->|[m Hm]]; [done|].
    destruct (Hgrow id m Hm) as (m'' & Hm'' & Hle & _). simplify_eq. rewrite Hle. by eapply Hk.
Qed.

Lemma stop_grows i id s : grows i s (set_global None (stopAll id s)).
Proof.
  split; simpl; intros k m Hm.
  - destruct (decide (k = id)) as [->|Hne]; [|rewrite list_lookup_alter_ne by done; eauto].
    rewrite list_lookup_alter_eq, Hm. by exists (cancel_root m).
  - right. apply lookup_lt_Some in Hm. rewrite length_alter in Hm. by apply lookup_lt_is_Some.
Qed.

Lemma ordered_idle i pc l s : ordered s → st_leaders s !! i = Some l → ¬ started l → held (ld_pc l) = None → held pc = None →
  ordered (set_pc i pc s).
Proof.
  intros Hs Hl Hns Hh Hpc. pose proof Hs as [Hn Hf Ho Hi Hk]. pose proof (lookup_lt_Some _ _ _ Hl) as Hlt.
  eapply (ordered_set i pc l s s); try done; [apply grows_refl|apply former_set; [done|right; by exists l]| | |].
  - intros id. by rewrite Hpc.
  - intros id m Hm Hj. destruct (Ho i l Hl) as [_ Ho2]. destruct (Ho2 id m Hm Hj) as [He|?]; [by rewrite Hh in He|by right].
  - intros _ id [-> | ->]; done.
Qed.

Lemma create_ordered i built l s0 s s' (m : option nat) :
  ordered s0 → st_leaders s0 !! i = Some l → ld_pc l = StartManager →
  st_leaders s = st_leaders s0 → grows i s0 s → no_strays s → st_global s = None → create_manager i built s = (s', m) →
  ordered (set_pc i (match m with Some id => SetCallback id | None => AwaitDone None end) s').
Proof.
  intros Hs Hl Hpc Hls Hg Hn Hnone Hc. pose proof Hs as [_ Hf Ho _ _]. pose proof (lookup_lt_Some _ _ _ Hl) as Hlt.
  assert (Hns : ¬ started l) by (unfold started; rewrite Hpc; tauto).
  pose proof (only_last s0 i l Hf Hl (or_intror Hns)) as Hlast.
  assert (Hold : ∀ id m', st_managers s !! id = Some m' → mg_leader m' = i → mg_cancelled m' = true).
  { intros id m' Hm' _. destruct (proj2 Hn id m' Hm'); [congruence|done]. }
  pose proof (strays_created _ _ _ _ _ Hn Hnone Hc) as Hn'. unfold create_manager in Hc.
  assert (Hspare : ∀ s1, spares i s0 s1).
  { intros s1 j l' id Hne Hj Hd _. pose proof (only_last s0 j l' Hf Hj (or_introl Hd)). lia. }
  destruct built; injection Hc as <- <-.
  - eapply (ordered_set i _ l s0); try done; [| | | |].
    + destruct Hg as [Hg1 Hg2]. split; simpl.
      * intros id m Hm. destruct (Hg1 id m Hm) as (m' & Hm' & ?). exists m'. split; [by apply lookup_app_l_Some|done].
      * intros id m' [Hm'|(_ & Hm')]%lookup_app_Some; [by apply (Hg2 id m')|]. apply list_lookup_singleton_Some in Hm' as [_ <-]. by left.
    + apply former_set; [done|by left].
    + intros id [= <-]. exists (NsInformerManager i false false). split; [|done]. simpl. rewrite lookup_app_r by lia. by rewrite Nat.sub_diag.
    + simpl. intros id m' [Hm'|(Hle & Hm')]%lookup_app_Some Hj; [right; by eapply Hold|left].
      apply list_lookup_singleton_Some in Hm' as [Hm' _]. f_equal. lia.
    + intros _ id [[= <-]|?]; [|done]. split; [done|]. exists (NsInformerManager i false false). split_and!; [|done|done].
      simpl. rewrite lookup_app_r by lia. by rewrite Nat.sub_diag.
  - eapply (ordered_set i _ l s0); try done; [apply former_set; [done|by left]| |].
    + intros id m' Hm' Hj. right. by eapply Hold.
    + intros _ id [?|?]; done.
Qed.

Lemma manager_ordered i built l s s' (m : option nat) :
  ordered s → st_leaders s !! i = Some l → ld_pc l = StartManager → StartNsInformerManager i built s = (s', m) →
  ordered (set_pc i (match m with Some id => SetCallback id | None => AwaitDone None end) s').
Proof.
  intros Hs Hl Hpc. pose proof Hs as [Hn Hf Ho _ Hk]. unfold StartNsInformerManager.
  destruct (st_global s) as [g|] eqn:Hg; [|by eapply create_ordered; try done; apply grows_refl].
  destruct (st_managers s !! g) as [mg|] eqn:Hmg; [|by apply Hn in Hg; apply lookup_lt_is_Some in Hg as [? ?]; congruence].
  destruct (root_done s mg) eqn:Hr; [by eapply create_ordered; try done; [apply stop_grows|by apply strays_cleared]|].
  exfalso. unfold root_done in Hr. apply orb_false_iff in Hr as [Hc Hd]. unfold context_done in Hd.
  destruct (lookup_lt_is_Some_2 _ _ (Hk g mg Hmg)) as [lr Hlr]. rewrite Hlr in Hd.
  assert (Hns : ¬ started l) by (unfold started; rewrite Hpc; tauto).
  pose proof (only_last _ _ _ Hf Hl (or_intror Hns)) as E1. pose proof (only_last _ _ _ Hf Hlr (or_introl Hd)) as E2.
  assert (Hi : mg_leader mg = i) by lia. destruct (Ho i l Hl) as [_ Ho2]. destruct (Ho2 g mg Hmg Hi) as [Hh|?]; [by rewrite Hpc in Hh|congruence].
Qed.

Lemma callback_ordered i l s id :
  ordered s → st_leaders s !! i = Some l → ld_pc l = SetCallback id → ordered (set_pc i (AwaitDone (Some id)) (on_manager SetEventCallback id s)).
Proof.
  intros Hs Hl Hpc. pose proof Hs as [Hn Hf Ho Hi Hk]. destruct (Ho i l Hl) as [Ho1 Ho2].
  destruct (Ho1 id) as (m & Hm & Hmi); [by rewrite Hpc|]. pose proof (lookup_lt_Some _ _ _ Hl) as Hlt.
  assert (Hlook : ∀ k, st_managers (on_manager SetEventCallback id s) !! k = (if decide (k = id) then Some (SetEventCallback m) else st_managers s !! k)).
  { intros k. simpl. case_decide as Hk'; [subst k; by rewrite list_lookup_alter_eq, Hm|by rewrite list_lookup_alter_ne by done]. }
  eapply (ordered_set i _ l s); try done.
  - split; intros k mk; rewrite Hlook; case_decide as Hk'.
    + subst k. intros Hk2. rewrite Hm in Hk2. injection Hk2 as <-. by exists (SetEventCallback m).
    + eauto.
    + subst k. right. by exists m.
    + eauto.
  - intros j l' id' Hne Hj _ Hh. split; [done|]. rewrite Hlook. case_decide as Hk'; [|done]. subst id'.
    destruct (Ho j l' Hj) as [Hj1 _]. destruct (Hj1 id) as (m' & Hm' & ?); [by destruct Hh as [-> | ->]|]. congruence.
  - by apply callback_strays.
  - apply former_set; [done|by left].
  - intros id' [= <-]. exists (SetEventCallback m). rewrite Hlook. case_decide; done.
  - intros k mk. rewrite Hlook. case_decide as Hk'; [subst k; by left|]. intros Hmk Hj. destruct (Ho2 k mk Hmk Hj) as [Hh|?]; [|by right].
    rewrite Hpc in Hh. by simplify_eq/=.
  - intros Hd id' [?|[= <-]]; [done|]. destruct (Hi i l id Hl Hd (or_introl Hpc)) as (Hg & m' & Hm' & Hc & _). split; [done|].
    exists (SetEventCallback m). rewrite Hlook. rewrite decide_True by done. simplify_eq. done.
Qed.

Lemma stop_ordered i l s want :
  ordered s → st_leaders s !! i = Some l → ld_pc l = StopManager want → ordered (set_pc i Ended (StopNsInformerManagerIfCurrent want s)).
Proof.
  intros Hs Hl Hpc. pose proof Hs as [Hn Hf Ho Hi Hk]. destruct (Ho i l Hl) as [Ho1 Ho2]. pose proof (lookup_lt_Some _ _ _ Hl) as Hlt.
  assert (Hnot : ∀ j l' id, j ≠ i → st_leaders s !! j = Some l' → held (ld_pc l') = Some id → want ≠ Some id).
  { intros j l' id Hne Hj Hh ->. destruct (Ho1 id) as (m & Hm & ?); [by rewrite Hpc|]. destruct (Ho j l' Hj) as [Hj1 _].
    destruct (Hj1 id Hh) as (m' & Hm' & ?). congruence. }
  assert (Hgone : ∀ s1, no_strays s1 → (∀ id, want = Some id → st_global s1 ≠ Some id) →
    (∀ id m, st_managers s1 !! id = Some m → ∃ m0, st_managers s !! id = Some m0 ∧ mg_leader m0 = mg_leader m ∧ (mg_cancelled m0 = true → mg_cancelled m = true)) →
    ∀ id m, st_managers s1 !! id = Some m → mg_leader m = i → held Ended = Some id ∨ mg_cancelled m = true).
  { intros s1 Hn1 Hg1 Hb id m Hm Hmi. right. destruct (Hb id m Hm) as (m0 & Hm0 & Hl0 & Hc0).
    destruct (Ho2 id m0 Hm0) as [Hh|?]; [congruence| |auto]. rewrite Hpc in Hh. simpl in Hh.
    destruct (proj2 Hn1 id m Hm) as [Hg|?]; [by destruct (Hg1 id Hh)|done]. }
  destruct want as [id|]; cbn [StopNsInformerManagerIfCurrent].
  - case_decide as Hg.
    + eapply (ordered_set i _ l s); try done; [apply stop_grows| |by apply strays_cleared|apply former_set; [done|by left]| |].
      * intros j l' id' Hne Hj Hd Hh. exfalso. destruct (Hi j l' id' Hj Hd Hh) as (Hg' & _).
        apply (Hnot j l' id' Hne Hj); [by destruct Hh as [-> | ->]|congruence].
      * apply Hgone; [by apply strays_cleared|done|]. intros k m Hm. destruct (stopAll_managers id s k m Hm) as [(_ & _ & m0 & ? & ->)|[_ ?]]; eauto.
      * intros _ id' [?|?]; done.
    + eapply (ordered_set i _ l s); try done; [apply grows_refl|apply former_set; [done|by left]| |intros _ id' [?|?]; done].
      apply Hgone; [done| |eauto]. by intros ? [= <-].
  - eapply (ordered_set i _ l s); try done; [apply grows_refl|apply former_set; [done|by left]| |intros _ id' [?|?]; done].
    apply Hgone; [done|done|eauto].
Qed.

Lemma elected_ordered s : Forall (λ l, ld_done l = true ∧ (True → started l)) (st_leaders s) → ordered s →
  ordered (State (st_leaders s ++ [Leader StopWatchers false]) (st_managers s) (st_global s)).
Proof.
  intros Hall [Hn Hf Ho Hi Hk]. rewrite list.Forall_forall in Hall.
  assert (Hold : ∀ j l, st_leaders s !! j = Some l → ld_done l = true ∧ started l).
  { intros j l Hl. destruct (Hall l (list_elem_of_lookup_2 _ _ _ Hl)). auto. }
  split; [exact Hn| | | |].
  - intros j l Hj Hlt. simpl in *. apply lookup_app_Some in Hj as [Hj|(Hle & Hj)]; [by eapply Hold|].
    apply list_lookup_singleton_Some in Hj as [? <-]. rewrite length_app in Hlt. simpl in Hlt. lia.
  - intros j l Hj. simpl in *. apply lookup_app_Some in Hj as [Hj|(Hle & Hj)]; [by apply (Ho j l)|].
    apply list_lookup_singleton_Some in Hj as [Hj <-]. split; [done|]. intros id m Hm Hmj. pose proof (Hk id m Hm). lia.
  - intros j l id Hj Hd Hpc. simpl in *. apply lookup_app_Some in Hj as [Hj|(Hle & Hj)]; [destruct (Hold j l Hj); congruence|].
    apply list_lookup_singleton_Some in Hj as [_ <-]. by destruct Hpc.
  - intros id m Hm. simpl in *. rewrite length_app. pose proof (Hk id m Hm). lia.
Qed.

Lemma lost_ordered s i : ordered s → ordered (State (alter cancel_context i (st_leaders s)) (st_managers s) (st_global s)).
Proof.
  intros [Hn Hf Ho Hi Hk].
  assert (Hcase : ∀ j l, alter cancel_context i (st_leaders s) !! j = Some l →
    ∃ l0, st_leaders s !! j = Some l0 ∧ ld_pc l = ld_pc l0 ∧ (ld_done l = false → ld_done l0 = false) ∧ (ld_done l0 = true → ld_done l = true)).
  { intros j l. destruct (decide (j = i)) as [->|Hne]; [|rewrite list_lookup_alter_ne by done; intros Hj; by exists l].
    rewrite list_lookup_alter_eq. intros (l0 & Hl & ->)%fmap_Some. by exists l0. }
  split; [exact Hn| | | |].
  - intros j l (l0 & Hj & Hpc & _ & Hd)%Hcase Hlt. simpl in Hlt. rewrite length_alter in Hlt. destruct (Hf j l0 Hj Hlt) as [? Hst].
    split; [auto|]. unfold started in *. by rewrite Hpc.
  - intros j l (l0 & Hj & Hpc & _)%Hcase. rewrite Hpc. by apply Ho.
  - intros j l id (l0 & Hj & Hpc & Hd & _)%Hcase Hdl. rewrite Hpc. intros Hp. by apply (Hi j l0 id); auto.
  - intros id m Hm. simpl. rewrite length_alter. by apply (Hk id m).
Qed.

Lemma ordered_step s s' : step True s s' → ordered s → ordered s'.
Proof.
  intros Hstep Hs. destruct Hstep as [s Hall|s i|cfg built s i l s' Hl Ht]; [by apply elected_ordered|by apply lost_ordered|].
  destruct (ld_pc l) as [| | |id|m|m|] eqn:Hpc; simpl in Ht; try (injection Ht as <-).
  - eapply ordered_idle; try done; [unfold started; rewrite Hpc; tauto|by rewrite Hpc].
  - eapply ordered_idle; try done; [unfold started; rewrite Hpc; tauto|by rewrite Hpc|by destruct cfg].
  - destruct (StartNsInformerManager i built s) as [s1 m] eqn:E. injection Ht as <-. by eapply manager_ordered.
  - by eapply callback_ordered.
  - destruct (context_done s i) eqn:Hd; [injection Ht as <-|done]. pose proof Hs as [Hn Hf Ho Hi Hk]. destruct (Ho i l Hl) as [Ho1 Ho2].
    rewrite Hpc in Ho1, Ho2. eapply (ordered_set i _ l s s); try done; [apply grows_refl|apply former_set; [done|by left]|by eapply lookup_lt_Some|].
    intros _ id [?|?]; done.
  - by eapply stop_ordered.
  - done.
Qed.

(** C37: The informer manager under changing leaders.  However the tasks of
    leaders interleave and whenever contexts end: a manager that is not the
    current one is stopped, so that its informers do not stay.  If a leader is
    elected only when the former ones have lost their context and their tasks
    have asked for a manager, then the leader in office, once its tasks wait,
    has the current manager, one that it created itself, running and with its
    events wired to the debouncers, whatever cleanup of former leaders is still
    to come; and a leader whose tasks have ended leaves no manager running. *)
Theorem leader_keeps_manager :
  (∀ orderly s id m, reachable orderly s → st_managers s !! id = Some m → st_global s = Some id ∨ mg_cancelled m = true) ∧
  ∀ s i l, reachable True s → st_leaders s !! i = Some l →
    (∀ id, ld_done l = false → ld_pc l = AwaitDone (Some id) →
       st_global s = Some id ∧ ∃ m, st_managers s !! id = Some m ∧ mg_leader m = i ∧ mg_cancelled m = false ∧ mg_callback m = true) ∧
    (ld_pc l = Ended → ∀ id m, st_managers s !! id = Some m → mg_leader m = i → mg_cancelled m = true).
Proof.
  split.
  - intros orderly s id m Hr. revert id m.
    assert (Hn : no_strays s); [|exact (proj2 Hn)].
    eapply (preserved_rtc (step orderly) no_strays); [intros ? ?; apply strays_step|exact Hr|]. by split.
  - intros s i l Hr Hl. assert (Hs : ordered s).
    { eapply (preserved_rtc (step True) ordered); [intros ? ?; apply ordered_step|exact Hr|]. by split; try split; intros. }
    destruct Hs as [_ _ Ho Hi _]. destruct (Ho i l Hl) as [Ho1 Ho2]. split.
    + intros id Hd Hpc. destruct (Hi i l id Hl Hd (or_intror Hpc)) as (Hg & m & Hm & Hc & Hcb). split; [done|].
      destruct (Ho1 id) as (m' & Hm' & ?); [by rewrite Hpc|]. simplify_eq. exists m. auto.
    + intros Hpc id m Hm Hmi. destruct (Ho2 id m Hm Hmi) as [Hh|?]; [|done]. by rewrite Hpc in Hh.
Qed.

(** ** Examples *)

Definition run_task (i : nat) (s : state) : state :=
  match st_leaders s !! i with Some l => default s (Start true true i (ld_pc l) s) | None => s end.
Definition elect (s : state) : state := State (st_leaders s ++ [Leader StopWatchers false]) (st_managers s) (st_global s).
Definition lose (i : nat) (s : state) : state := State (alter cancel_context i (st_leaders s)) (st_managers s) (st_global s).
Lemma after_task orderly i s : reachable orderly s → reachable orderly (run_task i s).
Proof.
  intros Hr. unfold run_task. destruct (st_leaders s !! i) as [l|] eqn:Hl; [|done]. destruct (Start true true i (ld_pc l) s) as [s'|] eqn:Hs; [|done].
  eapply rtc_r; [exact Hr|]. by eapply step_task.
Qed.
Lemma after_election orderly s : Forall (λ l, ld_done l = true ∧ (orderly → started l)) (st_leaders s) → reachable orderly s → reachable orderly (elect s).
Proof. intros Hall Hr. eapply rtc_r; [exact Hr|by apply step_elected]. Qed.
Lemma after_loss orderly i s : reachable orderly s → reachable orderly (lose i s).
Proof. intros Hr. eapply rtc_r; [exact Hr|apply step_lost]. Qed.

(** Two terms in order: the second leader's manager outlives the first's cleanup. *)
Definition two_terms : state :=
  run_task 0 (run_task 1 (run_task 1 (run_task 1 (run_task 1 (run_task 0 (elect (lose 0 (run_task 0 (run_task 0 (run_task 0 (run_task 0 (elect initial)))))))))))).
Lemma leader_keeps_manager_witness :
  st_managers two_terms = [NsInformerManager 0 true true; NsInformerManager 1 false true] ∧ st_global two_terms = Some 1 ∧
  reachable True two_terms ∧
  (∃ m, st_managers two_terms !! 1 = Some m ∧ mg_leader m = 1 ∧ mg_cancelled m = false ∧ mg_callback m = true).
Proof.
  assert (Hr : reachable True two_terms).
  { unfold two_terms. repeat apply after_task. apply after_election; [by repeat constructor|]. apply after_loss. repeat apply after_task.
    apply after_election; [constructor|]. apply rtc_refl. }
  split_and!; [reflexivity|reflexivity|exact Hr|].
  exact (proj2 (proj1 (proj2 leader_keeps_manager two_terms 1 (Leader (AwaitDone (Some 1)) false) Hr eq_refl) 1 eq_refl eq_refl)).
Defined.

(** The tasks of a leader that lost its term before they asked for a manager get
    that of the next leader, and their cleanup stops it: the leader in office is
    left without. *)
Definition late_start : state :=
  run_task 0 (run_task 0 (run_task 0 (run_task 0 (run_task 1 (run_task 1 (run_task 1 (run_task 1
    (elect (lose 0 (run_task 0 (run_task 0 (elect initial)))))))))))).
Example late_start_stops_successor :
  reachable False late_start ∧ st_leaders late_start !! 1 = Some (Leader (AwaitDone (Some 0)) false) ∧
  st_global late_start = None ∧ st_managers late_start = [NsInformerManager 1 true true].
Proof.
  split_and!; [|reflexivity..]. unfold late_start. repeat apply after_task. apply after_election; [by repeat constructor|].
  apply after_loss. repeat apply after_task. apply after_election; [constructor|]. apply rtc_refl.
Qed.
