(* ===== verification/CRWatcher.v ===== *)
(** * Custom resource watchers ([internal/service/watcher/customresource.go]) and
    their restart backoff ([internal/k8s/backoff.go])

    All custom resources of one kind in one namespace share a watcher; its
    members are the resource names.  The watcher's goroutine restarts its
    informer with a backoff until the last member leaves or the leader's
    context ends. *)
From stdpp Require Import base gmap strings list option relations.
From Stdlib Require Import ZArith.
From S2P Require Import Prelude SyncMap.

Abbreviation loc := nat (only parsing).

(** ** Backoff, in nanoseconds *)

Definition panicBackoffBase : Z := 1000000000.
Definition panicBackoffMax : Z := 60000000000.

(** The Go code computes in float64; [base * 2^(attempt-1)] is exact there as
    long as it is below the cap, and infinite or NaN values take the cap. *)
(** [CalcPanicBackoff], internal/k8s/backoff.go *)
Definition CalcPanicBackoff (attempt : Z) : Z :=
  let attempt := if (attempt <=? 0)%Z then 1%Z else attempt in
  let d := (panicBackoffBase * 2 ^ (attempt - 1))%Z in
  if (panicBackoffMax <=? d)%Z then panicBackoffMax else d.

(** ** Watchers *)

(** [CustomResourceWatcher], internal/service/watcher/customresource.go *)
Record watcher := Watcher {
  w_ctx : nat;              (** the context its goroutine runs under *)
  w_stop_closes : nat;      (** closes of [StopChan] *)
  w_members : gset string;
  w_stopped : bool;
  w_done_closes : nat;      (** closes of [done] *)
}.

(** [NewCRWatcher], internal/service/watcher/customresource.go *)
Definition NewCRWatcher (ctx : nat) : watcher := Watcher ctx 0 ∅ false 0.

(** [stopLocked], internal/service/watcher/customresource.go *)
Definition stopLocked (w : watcher) : watcher :=
  if w_stopped w then w else Watcher (w_ctx w) (S (w_stop_closes w)) (w_members w) true (w_done_closes w).

(** [addMember], internal/service/watcher/customresource.go *)
Definition addMember (name : string) (w : watcher) : watcher * bool :=
  if decide (name = "") then (w, false)
  else if w_stopped w then (w, false)
  else (Watcher (w_ctx w) (w_stop_closes w) ({[name]} ∪ w_members w) (w_stopped w) (w_done_closes w), true).

(** Returns [(removed, empty)]. *)
(** [removeMember], internal/service/watcher/customresource.go *)
Definition removeMember (name : string) (w : watcher) : watcher * (bool * bool) :=
  if decide (name = "") then (w, (false, false))
  else if decide (name ∈ w_members w) then
    let w' := Watcher (w_ctx w) (w_stop_closes w) (w_members w ∖ {[name]}) (w_stopped w) (w_done_closes w) in
    if decide (w_members w' = ∅) then (stopLocked w', (true, true)) else (w', (true, false))
  else (w, (false, bool_decide (w_members w = ∅))).

Definition close_done (w : watcher) : watcher :=
  Watcher (w_ctx w) (w_stop_closes w) (w_members w) (w_stopped w) (S (w_done_closes w)).

(** ** The process *)

Inductive value := VWatcher (l : loc) | VOther.
#[export] Instance value_eq_dec : EqDecision value.
Proof. solve_decision. Defined.
#[export] Instance VWatcher_inj : Inj (=) (=) VWatcher.
Proof. by intros ?? [= ->]. Qed.

(** [CustomResourceWatcherMap], the watchers, the cancelled contexts, and the
    history variable of [SyncMap]. *)
Record sys := Sys {
  sy_map : gmap string value;
  sy_heap : gmap loc watcher;
  sy_ctx_done : gset nat;
  sy_home : gmap loc string;
}.

Definition set_map (s : sys) m := Sys m (sy_heap s) (sy_ctx_done s) (sy_home s).
Definition put (s : sys) l w := Sys (sy_map s) (<[l := w]> (sy_heap s)) (sy_ctx_done s) (sy_home s).
Definition cancel_ctx (s : sys) c := Sys (sy_map s) (sy_heap s) ({[c]} ∪ sy_ctx_done s) (sy_home s).
Definition ctx_done (s : sys) (w : watcher) : bool := bool_decide (w_ctx w ∈ sy_ctx_done s).

Inductive pc :=
  (* ensureCRWatcher *)
  | EnsLoadOrStore (key name : string) (ctx : nat)
  | EnsJoin (key name : string) (ctx : nat) (l : loc)
  | EnsEvict (key name : string) (ctx : nat) (l : loc)
  | EnsOwn (key name : string) (ctx : nat) (l : loc)
  | EnsReturn (l : loc) (created : bool)
  | EnsFailed
  (* run *)
  | RunStart (key : string) (l : loc)
  | RunCheck (key : string) (l : loc) (attempt : Z)
  | RunInformer (key : string) (l : loc) (attempt : Z)
  | RunExited (key : string) (l : loc) (attempt : Z)
  | RunBackoff (key : string) (l : loc) (attempt : Z) (delay : Z)
  | RunDelete (key : string) (l : loc)
  | RunClose (l : loc)
  (* the goroutine that turns the context's end into a stop *)
  | CtxWatch (l : loc)
  (* ReleaseCRWatcher *)
  | RelLoad (key name : string)
  | RelRemove (key name : string) (l : loc)
  | RelEvict (key : string) (l : loc)
  (* StopAllCRWatchers, over the keys Range yields *)
  | StopNext (todo : list string)
  | StopMark (key : string) (l : loc) (todo : list string)
  | StopEvict (key : string) (l : loc) (todo : list string)
  | Returned.

(** An action yields the new state, where the goroutine goes on, and the
    goroutine it starts, if any. *)
Definition outcome : Type := sys * pc * option pc.

(** [ensureCRWatcher], internal/service/watcher/customresource.go *)
Definition ensure_step (s : sys) (p : pc) : option outcome :=
  match p with
  | EnsLoadOrStore key name ctx =>
      if decide (name = "") then Some (s, EnsFailed, None) else
      let cand := fresh (dom (sy_heap s)) in
      match load_or_store (sy_map s) key (VWatcher cand) with
      | (_, (VOther, true)) => Some (s, EnsFailed, None)
      | (_, (VWatcher existing, true)) => Some (s, EnsJoin key name ctx existing, None)
      | (m, (_, false)) =>
          Some (Sys m (<[cand := NewCRWatcher ctx]> (sy_heap s)) (sy_ctx_done s)
                    (<[cand := key]> (sy_home s)), EnsOwn key name ctx cand, None)
      end
  | EnsJoin key name ctx l =>
      w ← sy_heap s !! l;
      let '(w', ok) := addMember name w in
      Some (put s l w', if ok then EnsReturn l false else EnsEvict key name ctx l, None)
  | EnsEvict key name ctx l =>
      Some (set_map s (compare_and_delete (sy_map s) key (VWatcher l)), EnsLoadOrStore key name ctx, None)
  | EnsOwn key name ctx l =>
      w ← sy_heap s !! l;
      let '(w', ok) := addMember name w in
      if ok then Some (put s l w', EnsReturn l true, Some (RunStart key l))
      else Some (put s l w', EnsEvict key name ctx l, None)
  | _ => None
  end.

(** The selects of [run]: with the context done or [StopChan] closed the
    goroutine returns; [timer] picks the timer branch of the last select,
    which Go may choose even when another branch is ready. *)
(** [run], internal/service/watcher/customresource.go *)
Definition run_step (timer : bool) (s : sys) (p : pc) : option outcome :=
  match p with
  | RunStart key l => Some (s, RunCheck key l 1, Some (CtxWatch l))
  | RunCheck key l attempt =>
      w ← sy_heap s !! l;
      if ctx_done s w || w_stopped w then Some (s, RunDelete key l, None)
      else Some (s, RunInformer key l attempt, None)
  | RunInformer key l attempt => Some (s, RunExited key l attempt, None)
  | RunExited key l attempt =>
      w ← sy_heap s !! l;
      if ctx_done s w || w_stopped w then Some (s, RunDelete key l, None)
      else Some (s, RunBackoff key l attempt (CalcPanicBackoff attempt), None)
  | RunBackoff key l attempt delay =>
      w ← sy_heap s !! l;
      if timer then Some (s, RunCheck key l (attempt + 1), None)
      else if ctx_done s w || w_stopped w then Some (s, RunDelete key l, None) else None
  | RunDelete key l =>
      Some (set_map s (compare_and_delete (sy_map s) key (VWatcher l)), RunClose l, None)
  | RunClose l => w ← sy_heap s !! l; Some (put s l (close_done w), Returned, None)
  | CtxWatch l =>
      w ← sy_heap s !! l;
      if ctx_done s w then Some (put s l (stopLocked w), Returned, None)
      else if w_stopped w then Some (s, Returned, None) else None
  | _ => None
  end.

(** [ReleaseCRWatcher], internal/service/watcher/customresource.go *)
Definition release_step (s : sys) (p : pc) : option outcome :=
  match p with
  | RelLoad key name =>
      match map_load (sy_map s) key with
      | Some (VWatcher l) => Some (s, RelRemove key name l, None)
      | _ => Some (s, Returned, None)
      end
  | RelRemove key name l =>
      w ← sy_heap s !! l;
      let '(w', (removed, empty)) := removeMember name w in
      Some (put s l w', if negb removed || negb empty then Returned else RelEvict key l, None)
  | RelEvict key l =>
      Some (set_map s (compare_and_delete (sy_map s) key (VWatcher l)), Returned, None)
  | _ => None
  end.

(** [StopAllCRWatchers], internal/service/watcher/customresource.go *)
Definition stopAll_step (s : sys) (p : pc) : option outcome :=
  match p with
  | StopNext [] => Some (s, Returned, None)
  | StopNext (key :: todo) =>
      match map_load (sy_map s) key with
      | Some (VWatcher l) => Some (s, StopMark key l todo, None)
      | _ => Some (s, StopNext todo, None)
      end
  | StopMark key l todo => w ← sy_heap s !! l; Some (put s l (stopLocked w), StopEvict key l todo, None)
  | StopEvict key l todo =>
      Some (set_map s (compare_and_delete (sy_map s) key (VWatcher l)), StopNext todo, None)
  | _ => None
  end.

Definition exec (timer : bool) (s : sys) (p : pc) : option outcome :=
  match p with
  | EnsLoadOrStore _ _ _ | EnsJoin _ _ _ _ | EnsEvict _ _ _ _ | EnsOwn _ _ _ _ => ensure_step s p
  | RelLoad _ _ | RelRemove _ _ _ | RelEvict _ _ => release_step s p
  | StopNext _ | StopMark _ _ _ | StopEvict _ _ _ => stopAll_step s p
  | _ => run_step timer s p
  end.

Definition config : Type := sys * gmap nat pc.
Definition initial : config := (Sys ∅ ∅ ∅ ∅, ∅).

Inductive entry_point : pc → Prop :=
  | enter_ensure key name ctx : entry_point (EnsLoadOrStore key name ctx)
  | enter_release key name : entry_point (RelLoad key name)
  | enter_stopAll todo : entry_point (StopNext todo).

Inductive step : relation config :=
  | step_run s s' pool tid p p' timer :
      pool !! tid = Some p → exec timer s p = Some (s', p', None) →
      step (s, pool) (s', <[tid := p']> pool)
  | step_run_go s s' pool tid tid' p p' q timer :
      pool !! tid = Some p → pool !! tid' = None → exec timer s p = Some (s', p', Some q) →
      step (s, pool) (s', <[tid' := q]> (<[tid := p']> pool))
  | step_spawn s pool tid p :
      pool !! tid = None → entry_point p → step (s, pool) (s, <[tid := p]> pool)
  | step_cancel s pool c : step (s, pool) (cancel_ctx s c, pool).

(** ** Invariant *)

Definition dead (s : sys) (l : loc) : Prop :=
  ∃ w, sy_heap s !! l = Some w ∧ w_stopped w || ctx_done s w = true.

(** Whoever started an informer supervisor left it stopped or with members. *)
Definition claimed (s : sys) (l : loc) : Prop :=
  ∃ w, sy_heap s !! l = Some w ∧ (w_stopped w = true ∨ w_members w ≠ ∅).

(** The goroutine that supervises, or is about to supervise, a watcher. *)
Definition owns (p : pc) : option loc :=
  match p with
  | EnsOwn _ _ _ l | RunStart _ l | RunCheck _ l _ | RunInformer _ l _ | RunExited _ l _
  | RunBackoff _ l _ _ | RunDelete _ l | RunClose l => Some l
  | _ => None
  end.

Definition pc_ok (s : sys) (p : pc) : Prop :=
  match p with
  | EnsJoin _ name _ l => name ≠ "" ∧ is_Some (sy_heap s !! l)
  | EnsOwn key name _ l => name ≠ "" ∧ is_Some (sy_heap s !! l) ∧ sy_home s !! l = Some key
  | RelRemove _ _ l | StopMark _ l _ | CtxWatch l | RunClose l => is_Some (sy_heap s !! l)
  | EnsEvict _ _ _ l | RelEvict _ l | StopEvict _ l _ | RunDelete _ l => dead s l
  | RunStart key l | RunCheck key l _ | RunInformer key l _ | RunExited key l _ | RunBackoff key l _ _ =>
      claimed s l ∧ sy_home s !! l = Some key
  | _ => True
  end.

Definition watcher_ok (w : watcher) : Prop := w_stop_closes w = (if w_stopped w then 1 else 0).

Record global_ok (s : sys) : Prop := GlobalOk {
  go_homed : homed VWatcher (sy_map s) (sy_home s) (dead s);
  go_map : ∀ k l, sy_map s !! k = Some (VWatcher l) → is_Some (sy_heap s !! l);
  go_home : ∀ l k, sy_home s !! l = Some k → is_Some (sy_heap s !! l);
  go_heap : ∀ l w, sy_heap s !! l = Some w → watcher_ok w;
}.

Record inv (c : config) : Prop := Inv {
  inv_global : global_ok c.1;
  inv_pc : ∀ tid p, c.2 !! tid = Some p → pc_ok c.1 p;
  inv_owner : ∀ t1 t2 p1 p2 l, c.2 !! t1 = Some p1 → c.2 !! t2 = Some p2 →
    owns p1 = Some l → owns p2 = Some l → t1 = t2;
}.

Definition ages (w w' : watcher) : Prop :=
  w_ctx w' = w_ctx w ∧ (w_stopped w = true → w_stopped w' = true) ∧
  (w_stopped w = true ∨ w_members w ≠ ∅ → w_stopped w' = true ∨ w_members w' ≠ ∅).

Record evolves (s s' : sys) : Prop := Evolves {
  ev_heap : ∀ l w, sy_heap s !! l = Some w → ∃ w', sy_heap s' !! l = Some w' ∧ ages w w';
  ev_home : ∀ l k, sy_home s !! l = Some k → sy_home s' !! l = Some k;
  ev_ctx : sy_ctx_done s ⊆ sy_ctx_done s';
}.

Lemma ages_refl w : ages w w.
Proof. done. Qed.
#[local] Hint Resolve ages_refl : core.

Lemma cr_evolves_heap s s' l : evolves s s' → is_Some (sy_heap s !! l) → is_Some (sy_heap s' !! l).
Proof. intros He [w Hl]. destruct (ev_heap _ _ He l w Hl) as (? & ? & _). eauto. Qed.

Lemma cr_evolves_dead s s' l : evolves s s' → dead s l → dead s' l.
Proof.
  intros He (w & Hl & Hd). destruct (ev_heap _ _ He l w Hl) as (w' & ? & Hc & Hs & _).
  exists w'. split; [done|]. unfold ctx_done in *. rewrite Hc.
  rewrite orb_true_iff, bool_decide_eq_true in *. pose proof (ev_ctx _ _ He). set_solver.
Qed.

Lemma evolves_claimed s s' l : evolves s s' → claimed s l → claimed s' l.
Proof.
  intros He (w & Hl & Hd). destruct (ev_heap _ _ He l w Hl) as (w' & ? & _ & _ & Hc).
  exists w'. auto.
Qed.

Lemma cr_evolves_pc s s' p : evolves s s' → pc_ok s p → pc_ok s' p.
Proof.
  intros He. destruct p; simpl; intros; destruct_and?; split_and?;
    eauto using cr_evolves_heap, cr_evolves_dead, evolves_claimed, ev_home.
Qed.

Lemma cr_evolves_refl s : evolves s s.
Proof. split; eauto. Qed.
Lemma evolves_set_map s m : evolves s (set_map s m).
Proof. split; simpl; eauto. Qed.
Lemma evolves_cancel s c : evolves s (cancel_ctx s c).
Proof. split; simpl; eauto; set_solver. Qed.
Lemma cr_evolves_put s l w w' : sy_heap s !! l = Some w → ages w w' → evolves s (put s l w').
Proof.
  intros Hl Ha. split; simpl; eauto. intros l' x Hx.
  rewrite lookup_insert. case_decide; subst; simplify_eq; eauto.
Qed.

Lemma global_evolves_homed s s' :
  evolves s s' → sy_map s' = sy_map s → sy_home s' = sy_home s → global_ok s →
  homed VWatcher (sy_map s') (sy_home s') (dead s') ∧
  (∀ k l, sy_map s' !! k = Some (VWatcher l) → is_Some (sy_heap s' !! l)) ∧
  (∀ l k, sy_home s' !! l = Some k → is_Some (sy_heap s' !! l)).
Proof.
  intros He -> -> [Hh Hm Ho _]. split_and!; eauto using cr_evolves_heap.
  eapply homed_mono; [|done]. eauto using cr_evolves_dead.
Qed.

Lemma cr_global_put s l w w' :
  global_ok s → sy_heap s !! l = Some w → ages w w' → watcher_ok w' → global_ok (put s l w').
Proof.
  intros Hg Hl Ha Hok.
  destruct (global_evolves_homed s (put s l w') (cr_evolves_put _ _ _ _ Hl Ha) eq_refl eq_refl Hg)
    as (? & ? & ?).
  split; try done. simpl. intros l' x. rewrite lookup_insert_Some.
  intros [[_ <-]|[_ ?]]; [done|]. by eapply go_heap.
Qed.

Lemma global_cancel s c : global_ok s → global_ok (cancel_ctx s c).
Proof.
  intros Hg. destruct (global_evolves_homed s (cancel_ctx s c) (evolves_cancel s c) eq_refl eq_refl Hg)
    as (? & ? & ?). split; try done. apply Hg.
Qed.

Lemma cr_global_withdraw s k l :
  global_ok s → dead s l → global_ok (set_map s (compare_and_delete (sy_map s) k (VWatcher l))).
Proof.
  intros [Hh Hm Ho Hp] Hd. split; simpl; try done.
  - by apply homed_withdraw; [apply _|..].
  - intros k' l' [? _]%cad_lookup_Some. eauto.
Qed.

Lemma stopLocked_ok w :
  watcher_ok w → ages w (stopLocked w) ∧ watcher_ok (stopLocked w) ∧ w_stopped (stopLocked w) = true.
Proof.
  unfold stopLocked, watcher_ok, ages. destruct (w_stopped w) eqn:Es; simpl; rewrite ?Es; naive_solver.
Qed.

Lemma addMember_ok name w w' ok :
  addMember name w = (w', ok) → watcher_ok w →
  ages w w' ∧ watcher_ok w' ∧
  (ok = true → name ∈ w_members w' ∧ w_stopped w' = w_stopped w) ∧
  (name ≠ "" → ok = negb (w_stopped w)).
Proof.
  unfold addMember, ages, watcher_ok. intros Ha Hok.
  repeat case_decide; [by simplify_eq|].
  destruct (w_stopped w) eqn:Es; simplify_eq/=; rewrite ?Es; split_and!; try done; try set_solver.
Qed.

Lemma removeMember_ok name w w' removed empty :
  removeMember name w = (w', (removed, empty)) → watcher_ok w →
  ages w w' ∧ watcher_ok w' ∧ (removed = true → empty = true → w_stopped w' = true) ∧
  (∀ other, other ≠ name → other ∈ w_members w → other ∈ w_members w' ∧ w_stopped w' = w_stopped w).
Proof.
  unfold removeMember. intros Hr Hok.
  case_decide as Hn; [by simplify_eq|].
  case_decide as Hin; [|by simplify_eq].
  case_decide as He; simplify_eq.
  - set (w1 := Watcher _ _ _ _ _) in *.
    destruct (stopLocked_ok w1) as ((H1 & H2 & H3) & H4 & H5); [done|].
    unfold ages. rewrite H5. split_and!; try done; auto; simpl in He; set_solver.
  - unfold ages, watcher_ok in *. simpl in *. split_and!; try done; [naive_solver|].
    intros other Hne Ho. split; [|done]. by rewrite elem_of_difference, elem_of_singleton.
Qed.

(** One goroutine moves, perhaps starting another. *)
Lemma cr_inv_update s s' pool tid p p' q :
  inv (s, pool) → pool !! tid = Some p → evolves s s' → global_ok s' → pc_ok s' p' →
  (∀ l, owns p' = Some l → owns p = Some l ∨ sy_heap s !! l = None) →
  match q with
  | None => True
  | Some (tid', p'') => pool !! tid' = None ∧ pc_ok s' p'' ∧
      (∀ l, owns p'' = Some l → owns p = Some l ∧ owns p' ≠ Some l)
  end →
  inv (s', match q with None => <[tid := p']> pool | Some (tid', p'') => <[tid' := p'']> (<[tid := p']> pool) end).
Proof.
  intros [Hg Hpc Ho] Htid He Hg' Hok Hown Hq; simpl in *.
  assert (Hin : ∀ t r l, pool !! t = Some r → owns r = Some l → is_Some (sy_heap s !! l)).
  { intros t r l Hr Hl. specialize (Hpc t r Hr). destruct Hg as [_ _ Hgh _].
    destruct r; simplify_eq/=; try (by destruct_and?); try (destruct Hpc as (? & ? & _); by eauto);
      destruct_and?; eauto. }
  assert (H1 : inv (s', <[tid := p']> pool)).
  { split; simpl; [done| |].
    - intros t r. rewrite lookup_insert_Some. intros [[_ <-]|[_ Hr]]; [done|]. eauto using cr_evolves_pc.
    - assert (Hx : ∀ t r l, pool !! t = Some r → tid ≠ t → owns r = Some l → owns p' ≠ Some l).
      { intros t r l Hr Hne Hl Hp'l. destruct (Hown l Hp'l) as [?|HN]; [by eauto|].
        destruct (Hin t r l Hr Hl). congruence. }
      intros t1 t2 q1 q2 l. rewrite !lookup_insert_Some.
      intros [[<- <-]|[? ?]] [[<- <-]|[? ?]] ? ?; eauto; exfalso; eapply Hx; eauto. }
  destruct q as [[tid' p'']|]; [|done]. destruct Hq as (Hfresh & Hok'' & Hown'').
  destruct H1 as [_ Hpc1 Ho1]. split; simpl in *; [done| |].
  - intros t r. rewrite lookup_insert_Some. intros [[_ <-]|[_ Hr]]; eauto.
  - assert (Hx : ∀ t r l, <[tid := p']> pool !! t = Some r → owns r = Some l → owns p'' ≠ Some l).
    { intros t r l. rewrite lookup_insert_Some. intros [[<- <-]|[Hne Hr]] Hl Hl'.
      - by destruct (Hown'' l Hl').
      - destruct (Hown'' l Hl') as [Hpl _]. by apply Hne, (Ho tid t p r l). }
    intros t1 t2 q1 q2 l. rewrite !(lookup_insert_Some _ tid').
    intros [[<- <-]|[? ?]] [[<- <-]|[? ?]] ? ?; try done;
      [exfalso; eapply Hx; eauto..|by eapply Ho1].
Qed.

(** The same, as a statement about an outcome of [exec]. *)
Definition continue (pool : gmap nat pc) (tid tid' : nat) (p' : pc) (q : option pc) : gmap nat pc :=
  match q with None => <[tid := p']> pool | Some p'' => <[tid' := p'']> (<[tid := p']> pool) end.

Lemma inv_continue s s' pool tid tid' p p' q :
  inv (s, pool) → pool !! tid = Some p → pool !! tid' = None →
  evolves s s' → global_ok s' → pc_ok s' p' →
  (∀ l, owns p' = Some l → owns p = Some l ∨ sy_heap s !! l = None) →
  (∀ p'', q = Some p'' → pc_ok s' p'' ∧ (∀ l, owns p'' = Some l → owns p = Some l ∧ owns p' ≠ Some l)) →
  inv (s', continue pool tid tid' p' q).
Proof.
  intros Hi Ht Hf He Hg Hok Hown Hq.
  destruct q as [p''|]; [|by apply (cr_inv_update s s' pool tid p p' None)].
  apply (cr_inv_update s s' pool tid p p' (Some (tid', p''))); try done.
  split_and!; [done|..]; by apply Hq.
Qed.

Section Steps.
Context (s : sys) (pool : gmap nat pc) (tid tid' : nat) (p : pc).
Context (Hi : inv (s, pool)) (Htid : pool !! tid = Some p) (Hfresh : pool !! tid' = None).

(** The state does not change, or changes only in the map or in one watcher. *)
Lemma continue_same p' q :
  pc_ok s p' → (∀ l, owns p' = Some l → owns p = Some l) →
  (∀ p'', q = Some p'' → pc_ok s p'' ∧ (∀ l, owns p'' = Some l → owns p = Some l ∧ owns p' ≠ Some l)) →
  inv (s, continue pool tid tid' p' q).
Proof using All.
  intros. pose proof (inv_global _ Hi : global_ok s). eapply inv_continue; eauto using cr_evolves_refl.
Qed.

Lemma continue_withdraw k l p' :
  dead s l → (∀ s', evolves s s' → pc_ok s' p') → (∀ l, owns p' = Some l → owns p = Some l) →
  inv (set_map s (compare_and_delete (sy_map s) k (VWatcher l)), continue pool tid tid' p' None).
Proof using All.
  intros Hd Hp' Ho. pose proof (inv_global _ Hi : global_ok s).
  eapply inv_continue; eauto using evolves_set_map, cr_global_withdraw. done.
Qed.

Lemma continue_put l w w' p' q :
  sy_heap s !! l = Some w → ages w w' → watcher_ok w' → pc_ok (put s l w') p' →
  (∀ l, owns p' = Some l → owns p = Some l) →
  (∀ p'', q = Some p'' → pc_ok (put s l w') p'' ∧ (∀ l, owns p'' = Some l → owns p = Some l ∧ owns p' ≠ Some l)) →
  inv (put s l w', continue pool tid tid' p' q).
Proof using All.
  intros. pose proof (inv_global _ Hi : global_ok s).
  eapply inv_continue; eauto using cr_evolves_put, cr_global_put.
Qed.

End Steps.

(** Facts a step's case analysis needs, taken before the case analysis. *)
Ltac enter_step :=
  match goal with
  | Hi : inv (?s, ?pool), Htid : ?pool !! ?tid = Some ?p, Hfresh : ?pool !! ?tid' = None |- _ =>
      pose proof (continue_same s pool tid tid' p Hi Htid Hfresh) as Csame;
      pose proof (continue_withdraw s pool tid tid' p Hi Htid Hfresh) as Cwithdraw;
      pose proof (continue_put s pool tid tid' p Hi Htid Hfresh) as Cput;
      pose proof (inv_pc _ Hi _ _ Htid : pc_ok s p) as Hpc';
      pose proof (inv_global _ Hi : global_ok s) as Hg'
  end.

Lemma dead_put s l w' : w_stopped w' = true → dead (put s l w') l.
Proof. intros Hs. exists w'. simpl. rewrite lookup_insert_eq, Hs. done. Qed.

Lemma ensure_step_inv s pool tid tid' p s' p' q :
  inv (s, pool) → pool !! tid = Some p → pool !! tid' = None →
  ensure_step s p = Some (s', p', q) → inv (s', continue pool tid tid' p' q).
Proof.
  intros Hi Htid Hfresh Hstep. enter_step.
  destruct p; try discriminate; cbn [ensure_step pc_ok] in Hstep, Hpc'.
  - case_decide; [simplify_eq; by apply Csame|].
    unfold load_or_store in Hstep. destruct (sy_map s !! key) as [[l|]|] eqn:Ek; simplify_eq;
      [apply Csame; simpl; try done; eauto using go_map|by apply Csame|].
    set (l := fresh (dom (sy_heap s))) in *.
    assert (Hn : sy_heap s !! l = None) by (apply not_elem_of_dom, is_fresh).
    assert (Hnh : sy_home s !! l = None).
    { apply eq_None_not_Some. intros [k Hk]. destruct (go_home _ Hg' _ _ Hk). congruence. }
    eapply inv_continue; eauto; simpl; [| | |naive_solver|done].
    + split; simpl; [|intros l' k Hl'; by rewrite lookup_insert_ne by congruence|done].
      intros l' w Hl'. exists w. by rewrite lookup_insert_ne by congruence.
    + destruct Hg' as [Hh Hm Ho Hp]. split; simpl.
      * eapply homed_mono; [|by apply homed_publish]. intros l' (w & Hl' & Hd).
        exists w. simpl. by rewrite lookup_insert_ne by congruence.
      * intros k l'. rewrite lookup_insert_Some, lookup_insert_is_Some.
        destruct (decide (l = l')); naive_solver.
      * intros l' k. rewrite lookup_insert_Some, lookup_insert_is_Some.
        destruct (decide (l = l')); naive_solver.
      * intros l' w. rewrite lookup_insert_Some. intros [[_ <-]|[_ ?]]; [done|eauto].
    + split_and!; [done|by rewrite lookup_insert_eq|by rewrite lookup_insert_eq].
  - destruct Hpc' as [Hne [w Hw]]. rewrite Hw in Hstep. simpl in Hstep.
    destruct (addMember name w) as [w' ok] eqn:Ea. simplify_eq.
    destruct (addMember_ok _ _ _ _ Ea (go_heap _ Hg' _ _ Hw)) as (Ha & Hok & _ & Hst).
    rewrite Hst in * by done. eapply Cput; eauto; destruct (w_stopped w) eqn:Es; simpl; try done.
    apply dead_put. by apply Ha.
  - simplify_eq. by apply Cwithdraw.
  - destruct Hpc' as (Hne & [w Hw] & Hh). rewrite Hw in Hstep. simpl in Hstep.
    destruct (addMember name w) as [w' ok] eqn:Ea.
    destruct (addMember_ok _ _ _ _ Ea (go_heap _ Hg' _ _ Hw)) as (Ha & Hok & Hmem & Hst).
    rewrite Hst in * by done. destruct (w_stopped w) eqn:Es; simpl in Hstep; simplify_eq.
    + eapply Cput; eauto; try done. simpl. apply dead_put. by apply Ha.
    + eapply Cput; eauto; try done. simpl.
      intros ? [= <-]. split; [|naive_solver]. split; [|done].
      exists w'. simpl. rewrite lookup_insert_eq. split; [done|]. right.
      destruct (Hmem eq_refl). set_solver.
Qed.

Lemma run_step_inv s pool tid tid' p timer s' p' q :
  inv (s, pool) → pool !! tid = Some p → pool !! tid' = None →
  run_step timer s p = Some (s', p', q) → inv (s', continue pool tid tid' p' q).
Proof.
  intros Hi Htid Hfresh Hstep. enter_step.
  assert (Hdead : ∀ l w, sy_heap s !! l = Some w → ctx_done s w || w_stopped w = true → dead s l).
  { intros l w Hw Hd. exists w. by rewrite orb_comm. }
  destruct p; try discriminate; cbn [run_step pc_ok] in Hstep, Hpc'.
  - simplify_eq. apply Csame; simpl; try done.
    intros ? [= <-]. split; [|done]. simpl. destruct Hpc' as [(w & Hw & _) _]. eauto.
  - destruct Hpc' as [(w & Hw & Hc) Hh]. rewrite Hw in Hstep. simpl in Hstep.
    destruct (ctx_done s w || w_stopped w) eqn:Ed; simplify_eq; apply Csame; simpl;
      try done; first [by eapply Hdead | by split; [exists w; eauto|]].
  - simplify_eq. by apply Csame.
  - destruct Hpc' as [(w & Hw & Hc) Hh]. rewrite Hw in Hstep. simpl in Hstep.
    destruct (ctx_done s w || w_stopped w) eqn:Ed; simplify_eq; apply Csame; simpl;
      try done; first [by eapply Hdead | by split; [exists w; eauto|]].
  - destruct Hpc' as [(w & Hw & Hc) Hh]. rewrite Hw in Hstep. simpl in Hstep.
    destruct timer; [|destruct (ctx_done s w || w_stopped w) eqn:Ed]; simplify_eq;
      apply Csame; simpl; try done; first [by eapply Hdead | by split; [exists w; eauto|]].
  - simplify_eq. apply Cwithdraw; try done. intros s' He.
    destruct Hpc' as (w & Hw & _). eapply cr_evolves_heap; eauto.
  - destruct Hpc' as [w Hw]. rewrite Hw in Hstep. simpl in Hstep. simplify_eq.
    eapply Cput; eauto; try done. exact (go_heap _ Hg' _ _ Hw).
  - destruct Hpc' as [w Hw]. rewrite Hw in Hstep. simpl in Hstep.
    destruct (stopLocked_ok w (go_heap _ Hg' _ _ Hw)) as (? & ? & ?).
    destruct (ctx_done s w); [|destruct (w_stopped w)]; simplify_eq;
      [by eapply Cput|by apply Csame].
Qed.

Lemma cr_release_step_inv s pool tid tid' p s' p' q :
  inv (s, pool) → pool !! tid = Some p → pool !! tid' = None →
  release_step s p = Some (s', p', q) → inv (s', continue pool tid tid' p' q).
Proof.
  intros Hi Htid Hfresh Hstep. enter_step.
  destruct p; try discriminate; cbn [release_step pc_ok] in Hstep, Hpc'.
  - unfold map_load in Hstep. destruct (sy_map s !! key) as [[l|]|] eqn:Ek; simplify_eq;
      apply Csame; simpl; eauto using go_map; done.
  - destruct Hpc' as [w Hw]. rewrite Hw in Hstep. simpl in Hstep.
    destruct (removeMember name w) as [w' [removed empty]] eqn:Er. simplify_eq.
    destruct (removeMember_ok _ _ _ _ _ Er (go_heap _ Hg' _ _ Hw)) as (Ha & Hok & Hst & _).
    eapply Cput; eauto; destruct removed, empty; simpl; try done. by apply dead_put, Hst.
  - simplify_eq. by apply Cwithdraw.
Qed.

Lemma cr_stopAll_step_inv s pool tid tid' p s' p' q :
  inv (s, pool) → pool !! tid = Some p → pool !! tid' = None →
  stopAll_step s p = Some (s', p', q) → inv (s', continue pool tid tid' p' q).
Proof.
  intros Hi Htid Hfresh Hstep. enter_step.
  destruct p as [| | | | | | | | | | | | | | | | |todo|key l todo|key l todo|]; try discriminate;
    cbn [stopAll_step pc_ok] in Hstep, Hpc'.
  - destruct todo as [|key todo]; simplify_eq; [by apply Csame|].
    unfold map_load in Hstep. destruct (sy_map s !! key) as [[l|]|] eqn:Ek; simplify_eq;
      apply Csame; simpl; eauto using go_map; done.
  - destruct Hpc' as [w Hw]. rewrite Hw in Hstep. simpl in Hstep. simplify_eq.
    destruct (stopLocked_ok w (go_heap _ Hg' _ _ Hw)) as (? & ? & ?).
    eapply Cput; eauto; try done. by apply dead_put.
  - simplify_eq. by apply Cwithdraw.
Qed.

Lemma cr_exec_inv s pool tid tid' p timer s' p' q :
  inv (s, pool) → pool !! tid = Some p → pool !! tid' = None →
  exec timer s p = Some (s', p', q) → inv (s', continue pool tid tid' p' q).
Proof.
  intros Hi Htid Hfresh He. assert (Hc : ensure_step s p = Some (s', p', q) ∨ release_step s p = Some (s', p', q) ∨
    stopAll_step s p = Some (s', p', q) ∨ run_step timer s p = Some (s', p', q)).
  { destruct p; simpl in He; auto. }
  destruct Hc as [?|[?|[?|?]]];
    eauto using ensure_step_inv, cr_release_step_inv, cr_stopAll_step_inv, run_step_inv.
Qed.

Lemma cr_step_inv c c' : step c c' → inv c → inv c'.
Proof.
  destruct 1 as [s s' pool tid p p' timer Ht He|s s' pool tid tid' p p' q timer Ht Hf He|
    s pool tid p Hf Hent|s pool c]; intros Hi.
  - assert (Hf : pool !! fresh (dom pool) = None) by (apply not_elem_of_dom, is_fresh).
    apply (cr_exec_inv s pool tid _ p timer s' p' None Hi Ht Hf He).
  - apply (cr_exec_inv s pool tid tid' p timer s' p' (Some q) Hi Ht Hf He).
  - destruct Hi as [Hg Hpc Ho]. split; simpl in *; [done| |].
    + intros t r. rewrite lookup_insert_Some. intros [[_ <-]|[_ Hr]]; [by destruct Hent|eauto].
    + intros t1 t2 q1 q2 l. rewrite !lookup_insert_Some.
      destruct Hent; intros [[<- <-]|[? ?]] [[<- <-]|[? ?]] ? ?; try done; eauto.
  - destruct Hi as [Hg Hpc Ho]. split; simpl in *; [by apply global_cancel| |done].
    intros t r Hr. eapply cr_evolves_pc; [apply evolves_cancel|eauto].
Qed.

Lemma cr_initial_inv : inv initial.
Proof.
  split; [split; simpl; [apply homed_empty|..]|..]; simpl; intros *; by rewrite lookup_empty.
Qed.

Lemma cr_reachable_inv c : rtc step initial c → inv c.
Proof. intros Hr. eapply preserved_rtc; [|done|apply cr_initial_inv]. intros ???. by apply cr_step_inv. Qed.

(** ** Properties *)

(** C39: At most one informer runs per namespace and kind: two goroutines
    inside their informers for the same key, with watchers neither stopped nor
    out of context, are the same goroutine; its watcher is the published one
    and still has a member. *)
Theorem one_informer_per_key s pool t1 t2 key l1 l2 n1 n2 w1 w2 :
  rtc step initial (s, pool) →
  pool !! t1 = Some (RunInformer key l1 n1) → pool !! t2 = Some (RunInformer key l2 n2) →
  sy_heap s !! l1 = Some w1 → sy_heap s !! l2 = Some w2 →
  w_stopped w1 || ctx_done s w1 = false → w_stopped w2 || ctx_done s w2 = false →
  t1 = t2 ∧ sy_map s !! key = Some (VWatcher l1) ∧ w_members w1 ≠ ∅.
Proof.
  intros Hr H1 H2 Hl1 Hl2 Hs1 Hs2. pose proof (cr_reachable_inv _ Hr) as Hi.
  destruct (inv_pc _ Hi _ _ H1) as [(w & Hw & Hc) Hh1]. destruct (inv_pc _ Hi _ _ H2) as [_ Hh2].
  simpl in *. simplify_eq.
  assert (Hd1 : ¬ dead s l1) by (intros (? & ? & ?); simplify_eq; congruence).
  assert (Hd2 : ¬ dead s l2) by (intros (? & ? & ?); simplify_eq; congruence).
  pose proof (go_homed _ (inv_global _ Hi)) as Hh. simpl in Hh.
  assert (l1 = l2) as <- by (by apply (homed_exclusive VWatcher _ _ _ key _ _ Hh)).
  apply orb_false_iff in Hs1 as [Hs1 _].
  split_and!; [by apply (inv_owner _ Hi t1 t2 _ _ l1 H1 H2)| |by destruct Hc; congruence].
  by apply (homed_current VWatcher _ _ _ _ _ Hh).
Qed.

(** One goroutine alone, its started goroutines left aside. *)
Definition alone (s : sys) (p : pc) : option (sys * pc) :=
  match exec true s p with Some (s', p', _) => Some (s', p') | None => None end.

Definition joined (s : sys) (key name : string) (l : loc) : Prop :=
  sy_map s !! key = Some (VWatcher l) ∧
  ∃ w, sy_heap s !! l = Some w ∧ w_stopped w = false ∧ name ∈ w_members w.

#[local] Arguments iterate : simpl never.

Lemma ensure_free fuel s key name ctx :
  sy_map s !! key = None → name ≠ "" → 2 ≤ fuel →
  ∃ s' l, iterate alone fuel s (EnsLoadOrStore key name ctx) = (s', EnsReturn l true) ∧
    joined s' key name l.
Proof.
  intros Hn Hne Hf. destruct fuel as [|[|fuel]]; [lia..|].
  erewrite iterate_step by
    (unfold alone; simpl; rewrite decide_False by done; unfold load_or_store; by rewrite Hn).
  erewrite iterate_step by
    (unfold alone; simpl; rewrite lookup_insert_eq; simpl;
     unfold addMember; by rewrite decide_False by done).
  rewrite iterate_final by done. do 2 eexists. split; [done|].
  split; simpl; [apply lookup_insert_eq|]. rewrite lookup_insert_eq.
  eexists. split; [done|]. simpl. split; [done|set_solver].
Qed.

(** Called alone in any reachable state with a non-empty name,
    [ensureCRWatcher] returns within five actions: either it reports a
    foreign map value, or the name is a member of the published, unstopped
    watcher, created by this call exactly when the key was free or held by a
    stopped watcher. *)
Theorem ensure_terminates s pool key name ctx fuel :
  rtc step initial (s, pool) → name ≠ "" → 5 ≤ fuel →
  (sy_map s !! key = Some VOther ∧
   iterate alone fuel s (EnsLoadOrStore key name ctx) = (s, EnsFailed)) ∨
  ∃ s' l created, iterate alone fuel s (EnsLoadOrStore key name ctx) = (s', EnsReturn l created) ∧
    joined s' key name l ∧
    (created = false ↔ ∃ e w, sy_map s !! key = Some (VWatcher e) ∧ sy_heap s !! e = Some w ∧
                              w_stopped w = false).
Proof.
  intros Hr Hne Hf. destruct (inv_global _ (cr_reachable_inv _ Hr)) as [_ Hm _ Hp]. simpl in *.
  destruct (sy_map s !! key) as [[l|]|] eqn:Ek; cycle 1.
  { left. split; [done|]. destruct fuel as [|fuel]; [lia|].
    erewrite iterate_step by
      (unfold alone; simpl; rewrite decide_False by done; unfold load_or_store; by rewrite Ek).
    by apply iterate_final. }
  { right. destruct (ensure_free fuel s key name ctx) as (s' & l & -> & Hj); [done..|lia|].
    do 3 eexists. split; [done|]. split; [done|]. naive_solver. }
  right. do 3 (destruct fuel as [|fuel]; [lia|]). destruct (Hm _ _ Ek) as [w Hw].
  erewrite iterate_step by
    (unfold alone; simpl; rewrite decide_False by done; unfold load_or_store; by rewrite Ek).
  destruct (addMember name w) as [w' ok] eqn:Ea.
  destruct (addMember_ok _ _ _ _ Ea (Hp _ _ Hw)) as (_ & _ & Hmem & Hst).
  erewrite (iterate_step _ _ _ (EnsJoin key name ctx l)) by
    (unfold alone; simpl; rewrite Hw; simpl; by rewrite Ea).
  destruct (w_stopped w) eqn:Es; rewrite (Hst Hne) in *; simpl negb; cbv iota.
  - set (s1 := set_map (put s l w') (compare_and_delete (sy_map s) key (VWatcher l))).
    assert (Hm1 : sy_map s1 !! key = None).
    { unfold s1, compare_and_delete. simpl. by rewrite decide_True, lookup_delete_eq. }
    rewrite (iterate_step _ _ _ _ s1 (EnsLoadOrStore key name ctx)) by done.
    destruct (ensure_free fuel s1 key name ctx) as (s' & l' & -> & Hj); [done..|lia|].
    do 3 eexists. split; [done|]. split; [done|]. naive_solver.
  - rewrite iterate_final by done. do 3 eexists. split; [done|]. split; [|naive_solver].
    destruct (Hmem eq_refl). split; [done|]. exists w'. simpl. by rewrite lookup_insert_eq.
Qed.

(** [ReleaseCRWatcher] called alone: releasing one of several members
    leaves the watcher published and running for the others; releasing the
    last one stops it, closes [StopChan] and withdraws it; releasing a name
    that is not a member changes nothing. *)
Theorem release_spares_other_members s pool key name l w fuel :
  rtc step initial (s, pool) → name ≠ "" → 3 ≤ fuel →
  sy_map s !! key = Some (VWatcher l) → sy_heap s !! l = Some w → w_stopped w = false →
  ∃ s' w', iterate alone fuel s (RelLoad key name) = (s', Returned) ∧ sy_heap s' = <[l := w']> (sy_heap s) ∧
    if decide (name ∈ w_members w) then
      w_members w' = w_members w ∖ {[name]} ∧
      if decide (w_members w ∖ {[name]} = ∅)
      then w_stopped w' = true ∧ w_stop_closes w' = 1 ∧ sy_map s' = delete key (sy_map s)
      else w_stopped w' = false ∧ sy_map s' = sy_map s
    else w' = w ∧ sy_map s' = sy_map s.
Proof.
  intros Hr Hne Hf Ek Hw Hs.
  assert (Hok : watcher_ok w) by (by eapply go_heap; [apply (inv_global _ (cr_reachable_inv _ Hr))|]).
  do 3 (destruct fuel as [|fuel]; [lia|]).
  erewrite iterate_step by (unfold alone; simpl; unfold map_load; by rewrite Ek).
  destruct (removeMember name w) as [w' [removed empty]] eqn:Er.
  erewrite (iterate_step _ _ _ (RelRemove key name l)) by
    (unfold alone; simpl; rewrite Hw; simpl; by rewrite Er).
  unfold removeMember in Er. rewrite decide_False in Er by done. simpl in Er.
  unfold watcher_ok in Hok. rewrite Hs in Hok.
  repeat case_decide; simplify_eq/=;
    try (rewrite iterate_final by done; do 2 eexists; by split_and!).
  - erewrite iterate_step by done. rewrite iterate_final by done.
    do 2 eexists. split; [done|]. simpl. split; [done|].
    unfold stopLocked. simpl. rewrite Hs. simpl. split_and!; [done..|by rewrite Hok|].
    unfold compare_and_delete. by rewrite decide_True.
Qed.

(** The restart delay stays between one second and one minute, never
    shrinks as the attempts grow, and doubles until it reaches the cap. *)
Theorem backoff_bounded_monotone a b :
  (panicBackoffBase ≤ CalcPanicBackoff a ≤ panicBackoffMax)%Z ∧
  ((a ≤ b)%Z → (CalcPanicBackoff a ≤ CalcPanicBackoff b)%Z) ∧
  ((1 ≤ a)%Z → (CalcPanicBackoff (a + 1) < panicBackoffMax)%Z →
   CalcPanicBackoff (a + 1) = (2 * CalcPanicBackoff a)%Z).
Proof.
  assert (Hpos : ∀ x, (1 ≤ x)%Z → (1 ≤ 2 ^ (x - 1))%Z).
  { intros x Hx. rewrite <- (Z.pow_0_r 2). apply Z.pow_le_mono_r; lia. }
  assert (Hlo : ∀ x, (panicBackoffBase ≤ CalcPanicBackoff x ≤ panicBackoffMax)%Z).
  { intros x. unfold CalcPanicBackoff, panicBackoffBase, panicBackoffMax in *.
    destruct (Z.leb_spec x 0); [|pose proof (Hpos x)]; case_match eqn:E; simpl in *; try lia. }
  split; [apply Hlo|split].
  - intros Hab. unfold CalcPanicBackoff, panicBackoffBase, panicBackoffMax in *.
    set (a' := if (a <=? 0)%Z then 1%Z else a). set (b' := if (b <=? 0)%Z then 1%Z else b).
    assert (Hle : (1 ≤ a' ≤ b')%Z) by (subst a' b'; destruct (Z.leb_spec a 0), (Z.leb_spec b 0); lia).
    assert (Hp : (2 ^ (a' - 1) ≤ 2 ^ (b' - 1))%Z) by (apply Z.pow_le_mono_r; lia).
    repeat case_match; lia.
  - intros Ha. unfold CalcPanicBackoff, panicBackoffBase, panicBackoffMax in *.
    destruct (Z.leb_spec a 0), (Z.leb_spec (a + 1) 0); try lia.
    replace (a + 1 - 1)%Z with (Z.succ (a - 1)) by lia. rewrite Z.pow_succ_r by lia.
    pose proof (Hpos a Ha). repeat case_match; lia.
Qed.

(** ** A scheduler and the witnesses *)

Inductive action := Spawn (tid : nat) (p : pc) | Run (tid tid' : nat) (timer : bool).

Definition is_entry_point (p : pc) : bool :=
  match p with EnsLoadOrStore _ _ _ | RelLoad _ _ | StopNext _ => true | _ => false end.

Definition act (c : config) (a : action) : option config :=
  match a with
  | Spawn tid p =>
      match c.2 !! tid with
      | None => if is_entry_point p then Some (c.1, <[tid := p]> c.2) else None
      | Some _ => None
      end
  | Run tid tid' timer =>
      p ← c.2 !! tid; '(s', p', q) ← exec timer c.1 p;
      match q, c.2 !! tid' with
      | Some _, Some _ => None
      | _, _ => Some (s', continue c.2 tid tid' p' q)
      end
  end.

Fixpoint acts (c : config) (l : list action) : option config :=
  match l with [] => Some c | a :: l => c' ← act c a; acts c' l end.

Lemma cr_acts_reachable c l c' : acts c l = Some c' → rtc step c c'.
Proof.
  revert c. induction l as [|a l IH]; intros c; simpl; [by intros [= <-]|].
  destruct (act c a) as [c1|] eqn:Ea; simpl; [|done]. intros Hc'. eapply rtc_l; [|by apply IH].
  destruct c as [s pool], a as [tid p|tid tid' timer]; simpl in Ea.
  - destruct (pool !! tid) eqn:Et; [done|].
    destruct (is_entry_point p) eqn:Ep; simplify_eq. constructor; [done|]. destruct p; done || constructor.
  - destruct (pool !! tid) as [p|] eqn:Et; [|done]. simpl in Ea.
    destruct (exec timer s p) as [[[s' p'] [q|]]|] eqn:Ee; simpl in Ea; [| |done].
    + destruct (pool !! tid') eqn:Et'; simplify_eq. by econstructor.
    + destruct (pool !! tid'); simplify_eq; by econstructor.
Qed.

(** Two resources "a" and "b" share the watcher of "ns/kind"; its informer runs. *)
Definition sharing_schedule : list action :=
  [Spawn 0 (EnsLoadOrStore "ns/kind" "a" 1); Run 0 9 true; Run 0 1 true; Run 1 2 true; Run 1 9 true;
   Spawn 3 (EnsLoadOrStore "ns/kind" "b" 1); Run 3 9 true; Run 3 9 true].
Definition sharing : config := default initial (acts initial sharing_schedule).

Lemma sharing_reachable : rtc step initial (sharing.1, sharing.2).
Proof. apply (cr_acts_reachable _ sharing_schedule). vm_compute. reflexivity. Qed.

Definition shared_watcher : watcher := Watcher 1 0 {["b"; "a"]} false 0.

Lemma one_informer_per_key_witness :
  1 = 1 ∧ sy_map sharing.1 !! "ns/kind" = Some (VWatcher 0) ∧ w_members shared_watcher ≠ ∅.
Proof.
  apply (one_informer_per_key sharing.1 sharing.2 1 1 "ns/kind" 0 0 1 1
    shared_watcher shared_watcher sharing_reachable); vm_compute; reflexivity.
Defined.

Lemma ensure_terminates_witness :
  ∃ s' l created, iterate alone 5 sharing.1 (EnsLoadOrStore "ns/kind" "c" 1) = (s', EnsReturn l created) ∧
    joined s' "ns/kind" "c" l.
Proof.
  destruct (ensure_terminates sharing.1 sharing.2 "ns/kind" "c" 1 5 sharing_reachable ltac:(done) (le_n 5))
    as [[H _]|(s' & l & created & H & Hj & _)]; [vm_compute in H; discriminate|eauto].
Defined.

Lemma release_spares_other_members_witness :
  ∃ s' w', iterate alone 3 sharing.1 (RelLoad "ns/kind" "a") = (s', Returned) ∧ w_stopped w' = false.
Proof.
  destruct (release_spares_other_members sharing.1 sharing.2 "ns/kind" "a" 0 shared_watcher 3
    sharing_reachable ltac:(done) (le_n 3)) as (s' & w' & H & _ & Hd); [vm_compute; reflexivity..|].
  rewrite decide_True in Hd by (simpl; set_solver). destruct Hd as [_ Hd].
  rewrite decide_False in Hd by (intros Heq; apply (f_equal size) in Heq; vm_compute in Heq; discriminate).
  destruct Hd. eauto.
Defined.

Lemma backoff_bounded_monotone_witness :
  (CalcPanicBackoff 3 ≤ CalcPanicBackoff 9)%Z ∧ CalcPanicBackoff 4 = (2 * CalcPanicBackoff 3)%Z.
Proof.
  split; [apply (backoff_bounded_monotone 3 9); lia|].
  apply (backoff_bounded_monotone 3 9); [lia|vm_compute; reflexivity].
Defined.
