(* ===== verification/Debouncer.v ===== *)
(** * Debouncing of informer events ([internal/service/synchronizer/debouncer.go])

    A debouncer coalesces the events of one Middleware into few status
    recomputations.  Its mutex makes [Notify], [Stop] and the timer callback
    atomic; what is not atomic is the timer itself: once it has expired its
    callback runs in a goroutine of its own and [timer.Stop] no longer
    prevents it.  Times are in nanoseconds. *)
From stdpp Require Import base gmap strings list option relations.
From Stdlib Require Import ZArith Ascii.
From S2P Require Import Prelude.
#[local] Open Scope Z_scope.

(** ** Configuration *)

Definition defaultDebounceWindowMs : Z := 200.
Definition defaultDebounceMaxDelayMs : Z := 5000.
Definition millisecond : Z := 1000000.

(** [debounceWindow], internal/service/synchronizer/debouncer.go *)
Definition debounceWindow (debounce_window_ms : Z) : Z :=
  let ms := if debounce_window_ms <=? 0 then defaultDebounceWindowMs else debounce_window_ms in
  wrap64 (ms * millisecond).

(** [debounceMaxDelay], internal/service/synchronizer/debouncer.go *)
Definition debounceMaxDelay (debounce_max_delay_ms : Z) : Z :=
  let ms := if debounce_max_delay_ms <=? 0 then defaultDebounceMaxDelayMs else debounce_max_delay_ms in
  wrap64 (ms * millisecond).

(** ** One debouncer *)

(** A timer made by [time.AfterFunc]: armed, or expired with its callback
    waiting for the debouncer's mutex. *)
Inductive timer_state := Armed (deadline : Z) | InFlight (deadline : Z).

Definition deadline_of (t : timer_state) : Z :=
  match t with Armed d | InFlight d => d end.

(** The fields of the struct, then the debouncer's timers in the runtime, the
    times [triggerFn] was called, and a history variable: the time of the
    oldest [Notify] not yet followed by a call. *)
(** [Debouncer], internal/service/synchronizer/debouncer.go *)
Record debouncer := Debouncer {
  d_timer : option nat;
  d_window : Z;
  d_maxDelay : Z;
  d_pending : bool;
  d_lastFire : option Z;        (** [None]: the zero time *)
  d_timers : gmap nat timer_state;
  d_fired : list Z;
  d_owed : option Z;
}.

(** [NewDebouncer], internal/service/synchronizer/debouncer.go *)
Definition NewDebouncer (window maxDelay : Z) : debouncer :=
  Debouncer None window maxDelay false None ∅ [] None.

(** [timer.Stop()] on the debouncer's timer field: an armed timer is gone, an
    expired one runs on. *)
Definition stop_timer (timers : gmap nat timer_state) (t : option nat) : gmap nat timer_state :=
  match t with
  | None => timers
  | Some id => match timers !! id with Some (Armed _) => delete id timers | _ => timers end
  end.

(** [Notify], internal/service/synchronizer/debouncer.go *)
Definition Notify (now : Z) (d : debouncer) : debouncer :=
  let overdue := match d_lastFire d with None => false | Some t => d_maxDelay d <=? now - t end in
  if overdue then
    Debouncer None (d_window d) (d_maxDelay d) false (Some now)
      (stop_timer (d_timers d) (d_timer d)) (now :: d_fired d) None
  else
    let owed := match d_owed d with Some t => Some t | None => Some now end in
    if d_pending d then
      Debouncer (d_timer d) (d_window d) (d_maxDelay d) (d_pending d) (d_lastFire d)
        (d_timers d) (d_fired d) owed
    else
      let id := fresh (dom (d_timers d)) in
      Debouncer (Some id) (d_window d) (d_maxDelay d) true (d_lastFire d)
        (<[id := Armed (now + d_window d)]> (d_timers d)) (d_fired d) owed.

(** The runtime expires timer [id]: its callback starts. *)
Definition expire (now : Z) (id : nat) (d : debouncer) : option debouncer :=
  match d_timers d !! id with
  | Some (Armed dl) =>
      if dl <=? now then
        Some (Debouncer (d_timer d) (d_window d) (d_maxDelay d) (d_pending d) (d_lastFire d)
                (<[id := InFlight dl]> (d_timers d)) (d_fired d) (d_owed d))
      else None
  | _ => None
  end.

(** The function given to [AfterFunc]: its critical section, then [triggerFn]. *)
(** [Notify], internal/service/synchronizer/debouncer.go:119-127 *)
Definition timer_callback (now : Z) (id : nat) (d : debouncer) : option debouncer :=
  match d_timers d !! id with
  | Some (InFlight _) =>
      Some (Debouncer None (d_window d) (d_maxDelay d) false (Some now)
              (delete id (d_timers d)) (now :: d_fired d) None)
  | _ => None
  end.

(** [Stop], internal/service/synchronizer/debouncer.go *)
Definition Stop (d : debouncer) : debouncer :=
  Debouncer None (d_window d) (d_maxDelay d) false (d_lastFire d)
    (stop_timer (d_timers d) (d_timer d)) (d_fired d) None.

(** *** Its runs *)

Inductive dstep : relation (Z * debouncer) :=
  | dstep_tick now now' d : now ≤ now' → dstep (now, d) (now', d)
  | dstep_notify now d : dstep (now, d) (now, Notify now d)
  | dstep_expire now id d d' : expire now id d = Some d' → dstep (now, d) (now, d')
  | dstep_callback now id d d' : timer_callback now id d = Some d' → dstep (now, d) (now, d')
  | dstep_stop now d : dstep (now, d) (now, Stop d).

Section Runs.
Context (window maxDelay start : Z) (Hwindow : 0 ≤ window).

Record dinv (c : Z * debouncer) : Prop := DInv {
  di_window : d_window c.2 = window;
  di_pending : d_pending c.2 = true → ∃ id t, d_timer c.2 = Some id ∧ d_timers c.2 !! id = Some t;
  di_idle : d_pending c.2 = false → d_timer c.2 = None;
  di_now : ∀ id t, d_timers c.2 !! id = Some t → deadline_of t ≤ c.1 + window;
  di_past : ∀ id dl, d_timers c.2 !! id = Some (InFlight dl) → dl ≤ c.1;
  di_owed : ∀ t, d_owed c.2 = Some t → t ≤ c.1 ∧
    ∃ id st, d_timers c.2 !! id = Some st ∧ deadline_of st ≤ t + window;
}.

Lemma stop_timer_lookup ts t id st : stop_timer ts t !! id = Some st → ts !! id = Some st.
Proof.
  unfold stop_timer. destruct t as [i|]; [|done]. destruct (ts !! i) as [[]|]; try done.
  rewrite lookup_delete_Some. naive_solver.
Qed.

Lemma notify_inv now d : dinv (now, d) → dinv (now, Notify now d).
Proof using Hwindow.
  intros [Hw Hp Hi Hn Hpast Ho]; simpl in *. unfold Notify.
  destruct (match d_lastFire d with None => false | Some t => _ end).
  { split; simpl; eauto; try done; eauto using stop_timer_lookup. }
  destruct (d_pending d) eqn:Ep.
  - destruct (Hp eq_refl) as (id & st & Hid & Hst). split; simpl; eauto; try congruence.
    + intros t Ht. destruct (d_owed d) as [t'|]; simplify_eq; [by eauto|].
      split; [lia|]. exists id, st. split; [done|]. by apply (Hn id).
  - set (id := fresh (dom (d_timers d))).
    assert (Hf : d_timers d !! id = None) by (apply not_elem_of_dom, is_fresh).
    split; simpl; [done| |done| | |].
    + intros _. exists id. rewrite lookup_insert_eq. eauto.
    + intros i st. rewrite lookup_insert_Some. intros [[_ <-]|[_ ?]]; simpl; [lia|by eapply Hn].
    + intros i dl. rewrite lookup_insert_Some. intros [[_ ?]|[_ ?]]; [done|by eapply Hpast].
    + intros t Ht. destruct (d_owed d) as [t'|]; simplify_eq.
      * destruct (Ho t eq_refl) as [? (i & st & Hst & ?)]. split; [done|]. exists i, st.
        rewrite lookup_insert_ne by congruence. eauto.
      * split; [lia|]. exists id, (Armed (t + d_window d)). rewrite lookup_insert_eq. simpl. split; [done|lia].
Qed.

Lemma expire_inv now id d d' : expire now id d = Some d' → dinv (now, d) → dinv (now, d').
Proof.
  unfold expire. destruct (d_timers d !! id) as [[dl|]|] eqn:Et; try done.
  destruct (Z.leb_spec dl now); [|done]. intros [= <-] [Hw Hp Hi Hn Hpast Ho]; simpl in *.
  split; simpl; [done| |done| | |].
  - intros Hpend. destruct (Hp Hpend) as (i & t & Hi' & Ht). exists i. rewrite Hi'.
    destruct (decide (id = i)) as [->|]; [rewrite lookup_insert_eq|rewrite lookup_insert_ne by done]; eauto.
  - intros i t. rewrite lookup_insert_Some. intros [[<- <-]|[_ ?]]; [|by eapply Hn].
    apply (Hn id (Armed dl) Et).
  - intros i dl'. rewrite lookup_insert_Some. intros [[_ [= <-]]|[_ ?]]; [done|by eapply Hpast].
  - intros t Ht. destruct (Ho t Ht) as [? (i & st & Hst & Hd)]. split; [done|].
    destruct (decide (id = i)) as [->|].
    + exists i, (InFlight dl). rewrite lookup_insert_eq. by simplify_eq.
    + exists i, st. by rewrite lookup_insert_ne.
Qed.

Lemma callback_inv now id d d' : timer_callback now id d = Some d' → dinv (now, d) → dinv (now, d').
Proof.
  unfold timer_callback. destruct (d_timers d !! id) as [[|dl]|] eqn:Et; try done.
  intros [= <-] [Hw Hp Hi Hn Hpast Ho]; simpl in *.
  split; simpl; try done; intros i t; rewrite lookup_delete_Some; naive_solver.
Qed.

Lemma stop_inv now d : dinv (now, d) → dinv (now, Stop d).
Proof. intros [Hw Hp Hi Hn Hpast Ho]; simpl in *. split; simpl; eauto using stop_timer_lookup; done. Qed.

Lemma tick_inv now now' d : now ≤ now' → dinv (now, d) → dinv (now', d).
Proof.
  intros Hle [Hw Hp Hi Hn Hpast Ho]; simpl in *. split; simpl; try done.
  - intros id t Ht. specialize (Hn id t Ht). lia.
  - intros id dl Ht. specialize (Hpast id dl Ht). lia.
  - intros t Ht. destruct (Ho t Ht). split; [lia|done].
Qed.

Lemma dstep_inv c c' : dstep c c' → dinv c → dinv c'.
Proof using Hwindow.
  destruct 1; eauto using tick_inv, notify_inv, expire_inv, callback_inv, stop_inv.
Qed.

Lemma dreachable_inv c : rtc dstep (start, NewDebouncer window maxDelay) c → dinv c.
Proof using Hwindow.
  intros Hr. eapply preserved_rtc; [intros ???; by apply dstep_inv|done|].
  split; simpl; try done; intros *; by rewrite lookup_empty.
Qed.
End Runs.

(** *** Properties of one debouncer *)

(** C38: No notification is lost: in every reachable state, while a [Notify]
    made at [t] has not been followed by a trigger (nor by a [Stop]), a timer
    is due at [t + window] at the latest, and once that time has come its
    expiry or its callback is enabled; the callback calls the trigger. *)
Theorem notify_not_lost window maxDelay start now d t :
  0 ≤ window → rtc dstep (start, NewDebouncer window maxDelay) (now, d) → d_owed d = Some t →
  t ≤ now ∧
  (∃ id st, d_timers d !! id = Some st ∧ deadline_of st ≤ t + window) ∧
  (t + window ≤ now → ∃ id d', expire now id d = Some d' ∨
     timer_callback now id d = Some d' ∧ d_fired d' = now :: d_fired d ∧ d_owed d' = None).
Proof.
  intros Hw Hr Ho. pose proof (dreachable_inv window maxDelay start Hw _ Hr) as [_ _ _ _ _ Hi].
  destruct (Hi t Ho) as [Hle (id & st & Hst & Hd)]; simpl in *. split_and!; [done|by eauto|].
  intros Hnow. exists id. unfold expire, timer_callback. rewrite Hst. destruct st as [dl|dl]; simpl in Hd.
  - destruct (Z.leb_spec dl now); [|lia]. eauto.
  - eexists. right. split_and!; done.
Qed.

(** Notifications at the given times, with nothing in between. *)
Definition notify_all (times : list Z) (d : debouncer) : debouncer :=
  foldl (λ d t, Notify t d) d times.

(** A burst of notifications on an idle debouncer costs one timer and no
    immediate trigger, as long as none of them comes [maxDelay] or more after
    the last trigger: the later ones change nothing at all. *)
Theorem burst_coalesced t0 times d :
  d_pending d = false →
  (∀ last t, d_lastFire d = Some last → t ∈ t0 :: times → t - last < d_maxDelay d) →
  notify_all (t0 :: times) d = Notify t0 d ∧
  d_fired (Notify t0 d) = d_fired d ∧
  ∃ id, d_timers d !! id = None ∧ d_timer (Notify t0 d) = Some id ∧
    d_timers (Notify t0 d) = <[id := Armed (t0 + d_window d)]> (d_timers d).
Proof.
  intros Hp Hlast.
  assert (Hover : ∀ t, t ∈ t0 :: times →
    match d_lastFire d with None => false | Some l => d_maxDelay d <=? t - l end = false).
  { intros t Ht. destruct (d_lastFire d) as [l|] eqn:El; [|done].
    apply Z.leb_gt. by apply Hlast. }
  split_and!.
  - unfold notify_all. simpl foldl.
    assert (Hfix : ∀ t, t ∈ times → Notify t (Notify t0 d) = Notify t0 d).
    { intros t Ht. unfold Notify. rewrite (Hover t0), Hp by set_solver. simpl.
      rewrite (Hover t) by set_solver. by destruct (d_owed d). }
    induction times as [|t times IH]; [done|]. simpl. rewrite Hfix by set_solver.
    apply IH; set_solver.
  - unfold Notify. by rewrite (Hover t0), Hp by set_solver.
  - exists (fresh (dom (d_timers d))). unfold Notify. rewrite (Hover t0), Hp by set_solver.
    split_and!; try done. apply not_elem_of_dom, is_fresh.
Qed.

(** A notification [maxDelay] or more after the last trigger triggers at
    once, whatever is pending, and an armed timer of the debouncer is
    cancelled with it. *)
Theorem notify_max_delay now last d :
  d_lastFire d = Some last → d_maxDelay d ≤ now - last →
  d_fired (Notify now d) = now :: d_fired d ∧ d_lastFire (Notify now d) = Some now ∧
  d_pending (Notify now d) = false ∧ d_timer (Notify now d) = None ∧
  (∀ id dl, d_timer d = Some id → d_timers d !! id = Some (Armed dl) →
     d_timers (Notify now d) = delete id (d_timers d)).
Proof.
  intros Hl Hd. unfold Notify. rewrite Hl. destruct (Z.leb_spec (d_maxDelay d) (now - last)); [|lia].
  split_and!; try done. intros id dl Hid Ht. simpl. unfold stop_timer. by rewrite Hid, Ht.
Qed.

(** Runs in which the callback of an expired timer takes the mutex before any
    other call does. *)
Inductive prompt_step : relation (Z * debouncer) :=
  | prompt_tick now now' d : now ≤ now' → prompt_step (now, d) (now', d)
  | prompt_notify now d : prompt_step (now, d) (now, Notify now d)
  | prompt_fire now id d d' d'' :
      expire now id d = Some d' → timer_callback now id d' = Some d'' → prompt_step (now, d) (now, d'')
  | prompt_stop now d : prompt_step (now, d) (now, Stop d).

Lemma prompt_timers start window maxDelay now d :
  rtc prompt_step (start, NewDebouncer window maxDelay) (now, d) →
  match d_timer d with
  | None => d_timers d = ∅ ∧ d_pending d = false
  | Some id => (∃ dl, d_timers d = {[id := Armed dl]}) ∧ d_pending d = true
  end.
Proof.
  set (I := λ c : Z * debouncer, match d_timer c.2 with
    | None => d_timers c.2 = ∅ ∧ d_pending c.2 = false
    | Some id => (∃ dl, d_timers c.2 = {[id := Armed dl]}) ∧ d_pending c.2 = true end).
  intros Hr. apply (preserved_rtc prompt_step I _ (now, d)) in Hr; [done| |done].
  clear. unfold I. intros c c' Hs. destruct Hs as [| now d|now id d d' d'' He Hc|now d]; simpl.
  - done.
  - unfold Notify. destruct (match d_lastFire d with None => false | Some t => _ end); simpl.
    + destruct (d_timer d) as [id|]; simpl; [|by intros [-> _]].
      intros [[dl ->] _]. by rewrite lookup_singleton_eq, delete_singleton_eq.
    + destruct (d_pending d) eqn:Ep; simpl; [done|].
      destruct (d_timer d) as [id|]; [by intros [_ ?]|]. intros [-> _]. eauto.
  - unfold expire in He. destruct (d_timers d !! id) as [[dl|]|] eqn:Et; try done.
    destruct (dl <=? now); simplify_eq. unfold timer_callback in Hc. simpl in Hc.
    rewrite lookup_insert_eq in Hc. simplify_eq/=. destruct (d_timer d) as [i|].
    + intros [[dl' Hdl] _]. rewrite Hdl in Et |- *. apply lookup_singleton_Some in Et as [-> ?].
      by rewrite delete_insert_eq, delete_singleton_eq.
    + intros [Hemp _]. by rewrite Hemp in Et.
  - destruct (d_timer d) as [id|]; simpl; [|by intros [-> _]].
    intros [[dl ->] _]. by rewrite lookup_singleton_eq, delete_singleton_eq.
Qed.

(** When expired callbacks take the mutex promptly, [Stop] leaves no timer
    behind, so nothing triggers after it until the next [Notify]. *)
Theorem stop_cancels start window maxDelay now d :
  rtc prompt_step (start, NewDebouncer window maxDelay) (now, d) →
  d_timers (Stop d) = ∅ ∧ ∀ later id, expire later id (Stop d) = None ∧ timer_callback later id (Stop d) = None.
Proof.
  intros Hr. assert (He : d_timers (Stop d) = ∅).
  { pose proof (prompt_timers _ _ _ _ _ Hr) as Ht. unfold Stop. simpl.
    destruct (d_timer d) as [id|]; simpl; [|by destruct Ht].
    destruct Ht as [[dl ->] _]. by rewrite lookup_singleton_eq, delete_singleton_eq. }
  split; [done|]. intros later id. unfold expire, timer_callback. by rewrite He, lookup_empty.
Qed.

(** Without that promptness a timer can escape [Stop]: a callback that waits
    for the mutex while [Notify] triggers on [maxDelay] and re-arms clears the
    field that tracks the new timer.  Executable schedules show it. *)
Inductive daction := Tick (t : Z) | DoNotify | DoExpire (id : nat) | DoCallback (id : nat) | DoStop.

Definition dact (c : Z * debouncer) (a : daction) : option (Z * debouncer) :=
  match a with
  | Tick t => if c.1 <=? t then Some (t, c.2) else None
  | DoNotify => Some (c.1, Notify c.1 c.2)
  | DoExpire id => d ← expire c.1 id c.2; Some (c.1, d)
  | DoCallback id => d ← timer_callback c.1 id c.2; Some (c.1, d)
  | DoStop => Some (c.1, Stop c.2)
  end.

Fixpoint dacts (c : Z * debouncer) (l : list daction) : option (Z * debouncer) :=
  match l with [] => Some c | a :: l => c' ← dact c a; dacts c' l end.

Lemma dacts_reachable c l c' : dacts c l = Some c' → rtc dstep c c'.
Proof.
  revert c. induction l as [|a l IH]; intros [now d]; simpl; [by intros [= <-]|].
  destruct (dact (now, d) a) as [c1|] eqn:Ea; simpl; [|done]. intros Hc'. eapply rtc_l; [|by apply IH].
  destruct a as [t| |id|id|]; simpl in Ea.
  - destruct (Z.leb_spec now t); simplify_eq. by constructor.
  - simplify_eq. constructor.
  - destruct (expire now id d) eqn:E; simplify_eq/=. by econstructor.
  - destruct (timer_callback now id d) eqn:E; simplify_eq/=. by econstructor.
  - simplify_eq. constructor.
Qed.

(** One ordinary cycle, then a second timer expires just when [maxDelay] has
    passed and [Notify] gets the mutex first. *)
Definition race : list daction :=
  [DoNotify; Tick 200; DoExpire 0; DoCallback 0; Tick 5100; DoNotify; Tick 5300; DoExpire 0;
   DoNotify; DoNotify; DoCallback 0].

Lemma stop_can_leave_timer :
  ∃ now d id dl, rtc dstep (0, NewDebouncer 200 5000) (now, d) ∧
    d_timer (Stop d) = None ∧ d_timers (Stop d) !! id = Some (Armed dl) ∧
    ∃ now' d', rtc dstep (now, Stop d) (now', d') ∧ d_fired d' = now' :: d_fired d.
Proof.
  exists 5300. eexists _, 1%nat, 5500. split; [apply (dacts_reachable _ race); vm_compute; reflexivity|].
  split; [done|]. split; [vm_compute; reflexivity|].
  exists 5500. eexists. split; [|shelve].
  apply (dacts_reachable _ [Tick 5500; DoExpire 1; DoCallback 1]). vm_compute. reflexivity.
  Unshelve. vm_compute. reflexivity.
Qed.

(** ** The registry

    [NsDebounceRegistry]: keys to debouncers, which live in a heap; every
    operation runs under the registry's lock. *)

(** [NsDebounceRegistry], internal/service/synchronizer/debouncer.go *)
Record registry := Registry {
  r_debouncers : gmap string nat;
  r_heap : gmap nat debouncer;
}.

(** [registryKey], internal/service/synchronizer/debouncer.go *)
Definition registryKey (ns midName : string) : string := (ns +:+ "/" +:+ midName)%string.

Definition stop_at (id : nat) (r : registry) : registry :=
  Registry (r_debouncers r) (alter Stop id (r_heap r)).

(** [Register], internal/service/synchronizer/debouncer.go *)
Definition Register (ns midName : string) (window maxDelay : Z) (r : registry) : registry * nat :=
  let key := registryKey ns midName in
  let id := fresh (dom (r_heap r)) in
  let r := Registry (r_debouncers r) (<[id := NewDebouncer window maxDelay]> (r_heap r)) in
  let r := match r_debouncers r !! key with Some existing => stop_at existing r | None => r end in
  (Registry (<[key := id]> (r_debouncers r)) (r_heap r), id).

(** [Unregister], internal/service/synchronizer/debouncer.go *)
Definition Unregister (ns midName : string) (r : registry) : registry :=
  let key := registryKey ns midName in
  match r_debouncers r !! key with
  | Some id => let r := stop_at id r in Registry (delete key (r_debouncers r)) (r_heap r)
  | None => r
  end.

(** [UnregisterIfCurrent], internal/service/synchronizer/debouncer.go *)
Definition UnregisterIfCurrent (ns midName : string) (want : nat) (r : registry) : registry * bool :=
  let key := registryKey ns midName in
  match r_debouncers r !! key with
  | Some current =>
      if decide (current = want)
      then let r := stop_at current r in (Registry (delete key (r_debouncers r)) (r_heap r), true)
      else (r, false)
  | None => (r, false)
  end.

(** The test of [NotifyNamespace] on a key: longer than the prefix "ns/" and
    starting with it. *)
Definition in_namespace (ns key : string) : bool :=
  let prefix := (ns +:+ "/")%string in
  (String.length prefix <? String.length key)%nat && String.prefix prefix key.

(** Go visits the map in an unspecified order; [todo] is the order taken. *)
(** [NotifyNamespace], internal/service/synchronizer/debouncer.go *)
Definition NotifyNamespace (now : Z) (ns : string) (todo : list (string * nat)) (r : registry) : registry :=
  Registry (r_debouncers r)
    (foldl (λ heap '(key, id), if in_namespace ns key then alter (Notify now) id heap else heap)
       (r_heap r) todo).

(** [NotifyMiddleware], internal/service/synchronizer/debouncer.go *)
Definition NotifyMiddleware (now : Z) (ns midName : string) (r : registry) : registry * bool :=
  match r_debouncers r !! registryKey ns midName with
  | None => (r, false)
  | Some id => (Registry (r_debouncers r) (alter (Notify now) id (r_heap r)), true)
  end.

(** [StopAll], internal/service/synchronizer/debouncer.go *)
Definition StopAll (todo : list (string * nat)) (r : registry) : registry :=
  foldl (λ r '(key, id), let r := stop_at id r in Registry (delete key (r_debouncers r)) (r_heap r)) r todo.

(** Each registered debouncer exists and is registered under one key. *)
Record registry_ok (r : registry) : Prop := RegistryOk {
  ro_heap : ∀ key id, r_debouncers r !! key = Some id → is_Some (r_heap r !! id);
  ro_inj : ∀ k1 k2 id, r_debouncers r !! k1 = Some id → r_debouncers r !! k2 = Some id → k1 = k2;
}.

(** A name without a slash: every Kubernetes namespace and object name. *)
Definition no_slash (s : string) : Prop := "/"%char ∉ String.list_ascii_of_string s.

Lemma app_cons a s t : (String a s +:+ t = String a (s +:+ t))%string.
Proof. reflexivity. Qed.
Lemma app_empty s : ("" +:+ s = s)%string.
Proof. reflexivity. Qed.
Lemma length_cons a s : String.length (String a s) = S (String.length s).
Proof. reflexivity. Qed.
Lemma prefix_cons a s b t :
  String.prefix (String a s) (String b t) = if ascii_dec a b then String.prefix s t else false.
Proof. reflexivity. Qed.

Lemma in_namespace_spec ns ns' midName :
  no_slash ns → no_slash ns' →
  in_namespace ns (registryKey ns' midName) = true ↔ ns = ns' ∧ midName ≠ "".
Proof.
  unfold in_namespace, registryKey, no_slash. intros H1 H2.
  rewrite andb_true_iff, Nat.ltb_lt.
  revert ns' H1 H2. induction ns as [|a ns IH]; intros [|b ns'] H1 H2;
    cbn [String.list_ascii_of_string] in *; rewrite ?app_cons, ?app_empty, ?length_cons, prefix_cons.
  - destruct (ascii_dec "/" "/"); [|done].
    destruct midName; cbn; split; try naive_solver lia; intros [? _]; lia.
  - destruct (ascii_dec "/" b) as [<-|]; [set_solver|naive_solver].
  - destruct (ascii_dec a "/") as [->|]; [set_solver|naive_solver].
  - destruct (ascii_dec a b) as [<-|]; [|naive_solver].
    rewrite <- Nat.succ_lt_mono, IH by set_solver. naive_solver.
Qed.

Lemma foldl_alter_lookup (f : debouncer → debouncer) (sel : string → bool) (todo : list (string * nat)) (heap : gmap nat debouncer) (id : nat) :
  NoDup (todo.*2) →
  foldl (λ heap '(key, i), if sel key then alter f i heap else heap) heap todo !! id =
  if existsb (λ '(key, i), sel key && (i =? id)%nat) todo then f <$> heap !! id else heap !! id.
Proof.
  revert heap. induction todo as [|[key i] todo IH]; intros heap Hnd; [done|].
  apply NoDup_cons in Hnd as [Hi Hnd]. simpl. rewrite IH by done.
  destruct (sel key) eqn:Es; simpl; [|done].
  destruct (Nat.eqb_spec i id) as [->|Hne]; simpl.
  - assert (existsb (λ '(key, i), sel key && (i =? id)%nat) todo = false) as ->.
    { apply not_true_iff_false. rewrite existsb_exists. intros ([k j] & Hin & Hb).
      apply andb_true_iff in Hb as [_ Hj%Nat.eqb_eq]. subst. apply Hi, list_elem_of_In.
      by apply (in_map snd) in Hin. }
    by rewrite lookup_alter_eq.
  - by rewrite lookup_alter_ne.
Qed.

(** *** The registry's invariant *)

Inductive rstep : relation registry :=
  | rstep_register ns mid w m r : rstep r (Register ns mid w m r).1
  | rstep_unregister ns mid r : rstep r (Unregister ns mid r)
  | rstep_unregister_if ns mid want r : rstep r (UnregisterIfCurrent ns mid want r).1
  | rstep_notify_ns now ns todo r : rstep r (NotifyNamespace now ns todo r)
  | rstep_notify now ns mid r : rstep r (NotifyMiddleware now ns mid r).1
  | rstep_stop_all todo r : todo ≡ₚ map_to_list (r_debouncers r) → rstep r (StopAll todo r).

Lemma stop_at_ok id r : registry_ok r → registry_ok (stop_at id r).
Proof.
  intros [Hh Hi]. split; simpl; [|done]. intros key i Hk. rewrite lookup_alter_is_Some. by eauto.
Qed.

Lemma delete_ok key r : registry_ok r → registry_ok (Registry (delete key (r_debouncers r)) (r_heap r)).
Proof. intros [Hh Hi]. split; simpl; intros *; rewrite !lookup_delete_Some; naive_solver. Qed.

Lemma heap_ok (heap : gmap nat debouncer) r :
  dom heap = dom (r_heap r) → registry_ok r → registry_ok (Registry (r_debouncers r) heap).
Proof.
  intros Hdom [Hh Hi]. split; simpl; [|done]. intros key id Hk.
  rewrite <- elem_of_dom, Hdom, elem_of_dom. by eauto.
Qed.

Lemma Register_ok ns mid w m r : registry_ok r → registry_ok (Register ns mid w m r).1.
Proof.
  intros Hok. unfold Register. set (id := fresh (dom (r_heap r))).
  assert (Hf : r_heap r !! id = None) by (apply not_elem_of_dom, is_fresh).
  assert (Hno : ∀ key, r_debouncers r !! key ≠ Some id).
  { intros key Hk. destruct (ro_heap _ Hok _ _ Hk). congruence. }
  set (r1 := Registry (r_debouncers r) (<[id := NewDebouncer w m]> (r_heap r))).
  assert (Hr1 : registry_ok r1).
  { split; simpl; [|apply (ro_inj _ Hok)]. intros key i Hk. rewrite lookup_insert_ne by (by intros ->; destruct (Hno key)).
    by eapply ro_heap. }
  set (r2 := match r_debouncers r1 !! registryKey ns mid with Some e => stop_at e r1 | None => r1 end).
  assert (Hr2 : registry_ok r2 ∧ r_debouncers r2 = r_debouncers r ∧ is_Some (r_heap r2 !! id)).
  { unfold r2. destruct (r_debouncers r1 !! _); split_and!; auto using stop_at_ok; simpl;
      rewrite ?lookup_alter_is_Some, lookup_insert_eq; eauto. }
  destruct Hr2 as ([Hh Hi] & Heq & Hid). rewrite Heq in Hh, Hi |- *. simpl. split; simpl.
  - intros key i. rewrite lookup_insert_Some. naive_solver.
  - intros k1 k2 i. rewrite !lookup_insert_Some. naive_solver.
Qed.

Lemma rstep_ok r r' : rstep r r' → registry_ok r → registry_ok r'.
Proof.
  intros Hs Hok. destruct Hs as [| | |now ns todo r| |todo r _].
  - by apply Register_ok.
  - unfold Unregister. destruct (r_debouncers r !! _); [|done]. by apply (delete_ok _ (stop_at _ _)), stop_at_ok.
  - unfold UnregisterIfCurrent. destruct (r_debouncers r !! _); [|done]. case_decide; [|done].
    by apply (delete_ok _ (stop_at _ _)), stop_at_ok.
  - apply heap_ok; [|done]. generalize (r_heap r). induction todo as [|[key id] todo IH]; intros heap; [done|].
    simpl. rewrite IH. destruct (in_namespace ns key); [|done]. apply dom_alter_L.
  - unfold NotifyMiddleware. destruct (r_debouncers r !! _); [|done]. apply heap_ok; [apply dom_alter_L|done].
  - unfold StopAll. revert r Hok. induction todo as [|[key id] todo IH]; intros r Hok; [done|].
    simpl. apply IH. by apply (delete_ok _ (stop_at _ _)), stop_at_ok.
Qed.

Lemma rreachable_ok r : rtc rstep (Registry ∅ ∅) r → registry_ok r.
Proof.
  intros Hr. eapply preserved_rtc; [intros ???; by apply rstep_ok|done|]. split; simpl; intros *; by rewrite lookup_empty.
Qed.

(** *** Properties of the registry *)

(** [NotifyNamespace] notifies the debouncers registered in the namespace,
    each once, and no other one, in whatever order Go visits the map; names
    that contain no slash (those of Kubernetes) are never confused, and an
    entry with the empty name is skipped. *)
Theorem notify_namespace_exact now ns todo r ns' mid id d :
  rtc rstep (Registry ∅ ∅) r → todo ≡ₚ map_to_list (r_debouncers r) → no_slash ns → no_slash ns' →
  r_debouncers r !! registryKey ns' mid = Some id → r_heap r !! id = Some d →
  r_heap (NotifyNamespace now ns todo r) !! id =
    Some (if bool_decide (ns = ns' ∧ mid ≠ "") then Notify now d else d).
Proof.
  intros Hr Htodo H1 H2 Hreg Hd. destruct (rreachable_ok _ Hr) as [_ Hinj]. simpl.
  assert (Hnd : NoDup (todo.*2)).
  { rewrite Htodo. apply NoDup_fmap_2_strong; [|apply NoDup_map_to_list].
    intros [k1 i1] [k2 i2] Hk1%elem_of_map_to_list Hk2%elem_of_map_to_list; simpl. intros ->.
    f_equal. by eapply Hinj. }
  rewrite foldl_alter_lookup, Hd by done. clear Hnd.
  destruct (existsb _ todo) eqn:E.
  - apply existsb_exists in E as ([key i] & Hin & [Hns ->%Nat.eqb_eq]%andb_true_iff).
    apply list_elem_of_In in Hin. rewrite Htodo in Hin. apply elem_of_map_to_list in Hin.
    rewrite (Hinj _ _ _ Hin Hreg), in_namespace_spec in Hns by done. by rewrite bool_decide_eq_true_2.
  - rewrite bool_decide_eq_false_2; [done|]. intros Hns. apply not_true_iff_false in E. apply E.
    apply existsb_exists. exists (registryKey ns' mid, id). split.
    + apply list_elem_of_In. rewrite Htodo. by apply elem_of_map_to_list.
    + rewrite Nat.eqb_refl, andb_true_r. by apply in_namespace_spec.
Qed.

(** Re-registering a middleware stops the debouncer it replaces, and the
    late cleanup of the replaced session, which asks for its own debouncer to
    be removed, leaves the replacement registered and untouched; the cleanup
    of the current session stops and removes its own. *)
Theorem replacement_survives_old_cleanup ns mid w m r old d :
  rtc rstep (Registry ∅ ∅) r → r_debouncers r !! registryKey ns mid = Some old → r_heap r !! old = Some d →
  let '(r', new) := Register ns mid w m r in
  r_heap r' !! old = Some (Stop d) ∧
  r_debouncers r' !! registryKey ns mid = Some new ∧ r_heap r' !! new = Some (NewDebouncer w m) ∧
  UnregisterIfCurrent ns mid old r' = (r', false) ∧
  (UnregisterIfCurrent ns mid new r').2 = true ∧
  r_debouncers (UnregisterIfCurrent ns mid new r').1 !! registryKey ns mid = None.
Proof.
  intros Hr Hreg Hd. unfold Register, UnregisterIfCurrent. simpl. set (id := fresh (dom (r_heap r))).
  assert (Hf : r_heap r !! id = None) by (apply not_elem_of_dom, is_fresh).
  assert (Hne : id ≠ old) by congruence. rewrite Hreg. simpl. rewrite !lookup_insert_eq.
  split_and!.
  - rewrite lookup_alter_eq, lookup_insert_ne by done. by rewrite Hd.
  - done.
  - by rewrite lookup_alter_ne, lookup_insert_eq by done.
  - by rewrite decide_False.
  - by rewrite decide_True.
  - rewrite decide_True by done. simpl. apply lookup_delete_eq.
Qed.

(** *** The properties at concrete inputs *)

Definition trace1 : list daction := [DoNotify; Tick 200; DoExpire 0; DoCallback 0; Tick 300; DoNotify].

Lemma notify_not_lost_witness :
  ∃ d, rtc dstep (0, NewDebouncer 200 5000) (300, d) ∧
    ∃ id st, d_timers d !! id = Some st ∧ deadline_of st ≤ 300 + 200.
Proof.
  destruct (dacts (0, NewDebouncer 200 5000) trace1) as [[now d]|] eqn:E; [|vm_compute in E; discriminate E].
  pose proof (dacts_reachable _ _ _ E) as Hr. vm_compute in E. injection E as <- <-. eexists. split; [exact Hr|].
  destruct (notify_not_lost 200 5000 0 _ _ 300 ltac:(lia) Hr eq_refl) as (_ & H & _). exact H.
Defined.

Lemma burst_coalesced_witness :
  notify_all [0; 50; 100; 180] (NewDebouncer 200 5000) = Notify 0 (NewDebouncer 200 5000).
Proof.
  apply (burst_coalesced 0 [50; 100; 180] (NewDebouncer 200 5000)); [reflexivity|].
  intros last t Hl. discriminate Hl.
Defined.

Lemma notify_max_delay_witness :
  ∃ d, d_fired (Notify 5200 d) = [5200; 200].
Proof.
  exists (Debouncer None 200 5000 false (Some 200) ∅ [200] None).
  apply (notify_max_delay 5200 200 (Debouncer None 200 5000 false (Some 200) ∅ [200] None));
    [reflexivity|simpl; lia].
Defined.

Lemma stop_cancels_witness :
  d_timers (Stop (Notify 0 (NewDebouncer 200 5000))) = ∅.
Proof.
  apply (stop_cancels 0 200 5000 0 (Notify 0 (NewDebouncer 200 5000))).
  apply rtc_once. constructor.
Defined.

Definition registry1 : registry :=
  (Register "prod" "redis" 200 5000 (Register "prod2" "redis" 200 5000 (Registry ∅ ∅)).1).1.

Lemma registry1_reachable : rtc rstep (Registry ∅ ∅) registry1.
Proof. eapply rtc_l; [|apply rtc_once]; apply rstep_register. Qed.

Lemma no_slash_dec s : forallb (λ a, negb (Ascii.eqb a "/")) (String.list_ascii_of_string s) = true → no_slash s.
Proof.
  intros Hf Hin. rewrite forallb_forall in Hf. apply list_elem_of_In, Hf in Hin.
  by rewrite Ascii.eqb_refl in Hin.
Qed.

Lemma notify_namespace_exact_witness :
  ∃ now ns todo, todo ≡ₚ map_to_list (r_debouncers registry1) ∧
    r_heap (NotifyNamespace now ns todo registry1) !! 1%nat = Some (Notify 7 (NewDebouncer 200 5000)) ∧
    r_heap (NotifyNamespace now ns todo registry1) !! 0%nat = Some (NewDebouncer 200 5000).
Proof.
  exists 7, "prod", (map_to_list (r_debouncers registry1)). split; [reflexivity|]. split.
  - rewrite (notify_namespace_exact 7 "prod" _ registry1 "prod" "redis" 1%nat (NewDebouncer 200 5000));
      [reflexivity|exact registry1_reachable|reflexivity|by apply no_slash_dec..|reflexivity|reflexivity].
  - rewrite (notify_namespace_exact 7 "prod" _ registry1 "prod2" "redis" 0%nat (NewDebouncer 200 5000));
      [reflexivity|exact registry1_reachable|reflexivity|by apply no_slash_dec..|reflexivity|reflexivity].
Defined.

Lemma replacement_survives_old_cleanup_witness :
  let '(r', new) := Register "prod" "redis" 200 5000 registry1 in
  UnregisterIfCurrent "prod" "redis" 1%nat r' = (r', false) ∧ r_debouncers r' !! "prod/redis" = Some new.
Proof.
  pose proof (replacement_survives_old_cleanup "prod" "redis" 200 5000 registry1 1%nat
    (NewDebouncer 200 5000) registry1_reachable eq_refl eq_refl) as H.
  destruct (Register "prod" "redis" 200 5000 registry1) as [r' new].
  destruct H as (_ & H1 & _ & H2 & _). split; [exact H2|exact H1].
Defined.
