(* ===== verification/Prog.v ===== *)
(** * Programs that call their environment

    A controller is a function that interleaves its own decisions with calls
    to the API server and to other components.  [prog E A] is such a function:
    a tree of calls [E R], each answered by an [R] on which the rest depends.
    [run] executes it against a handler and logs the calls; [holds] is the
    weakest precondition over all answers, so what is proved with it is true
    of every run against every handler. *)
From stdpp Require Import base list.
From S2P Require Import Prelude.

Section Programs.
Context {E : Type → Type}.

Inductive prog (A : Type) : Type :=
  | Ret (a : A)
  | Do {R : Type} (c : E R) (k : R → prog A).

Inductive event : Type := | Ev {R : Type} (c : E R) (answer : R).

#[export] Instance prog_ret : MRet prog := Ret.
#[export] Instance prog_bind : MBind prog := λ A B f,
  fix go p := match p with Ret _ a => f a | Do _ c k => Do _ c (λ r, go (k r)) end.

Definition call {R} (c : E R) : prog R := Do _ c (Ret _).

(** An environment: a state [W] and the answer to each call. *)
Definition handler (W : Type) : Type := ∀ R, E R → W → R * W.

Fixpoint run {W A} (h : handler W) (p : prog A) (w : W) : A * list event :=
  match p with
  | Ret _ a => (a, [])
  | Do _ c k => let '(r, w') := h _ c w in
               let '(a, tr) := run h (k r) w' in (a, Ev c r :: tr)
  end.

(** [holds p tr Q]: after the calls [tr], every way [p] ends satisfies [Q] of
    all the calls made and of the result. *)
Fixpoint holds {A} (p : prog A) (tr : list event) (Q : list event → A → Prop) : Prop :=
  match p with
  | Ret _ a => Q tr a
  | Do _ c k => ∀ r, holds (k r) (tr ++ [Ev c r]) Q
  end.

Lemma holds_run {W A} (h : handler W) (p : prog A) w tr Q :
  holds p tr Q → Q (tr ++ (run h p w).2) (run h p w).1.
Proof.
  revert w tr. induction p as [a|R c k IH]; intros w tr; simpl; [by rewrite app_nil_r|].
  intros Hk. destruct (h R c w) as [r w'] eqn:Eh. specialize (IH r w' _ (Hk r)).
  destruct (run h (k r) w') as [a tr']. simpl in *. by rewrite <- app_assoc in IH.
Qed.

Corollary holds_run_pair {W A} (h : handler W) (p : prog A) w Q :
  holds p [] Q → let '(a, tr) := run h p w in Q tr a.
Proof. intros Hp%(holds_run h p w). by destruct (run h p w). Qed.

Lemma holds_bind {A B} (p : prog A) (f : A → prog B) tr Q :
  holds (p ≫= f) tr Q ↔ holds p tr (λ tr a, holds (f a) tr Q).
Proof.
  revert tr. induction p as [a|R c k IH]; intros tr; [done|]. simpl.
  split; intros Hk r; by apply IH, Hk.
Qed.

Lemma holds_mono {A} (p : prog A) tr (Q Q' : list event → A → Prop) :
  holds p tr Q → (∀ tr' a, Q (tr ++ tr') a → Q' (tr ++ tr') a) → holds p tr Q'.
Proof.
  revert tr. induction p as [a|R c k IH]; intros tr Hp HQ; simpl in *.
  - specialize (HQ [] a). rewrite app_nil_r in HQ. by apply HQ.
  - intros r. eapply IH; [apply Hp|]. intros tr' a. rewrite <- app_assoc. apply HQ.
Qed.

(** Every call of [p], given the calls before it, satisfies [ok]. *)
Fixpoint calls_ok {A} (ok : event → Prop) (p : prog A) : Prop :=
  match p with
  | Ret _ a => True
  | Do _ c k => ∀ r, ok (Ev c r) ∧ calls_ok ok (k r)
  end.

Lemma calls_ok_run {W A} (h : handler W) ok (p : prog A) w :
  calls_ok ok p → Forall ok (run h p w).2.
Proof.
  revert w. induction p as [a|R c k IH]; intros w Hp; simpl; [by constructor|].
  destruct (h R c w) as [r w']. destruct (Hp r) as [Hr Hk]. specialize (IH r w' Hk).
  destruct (run h (k r) w'). by constructor.
Qed.

Lemma calls_ok_bind {A B} ok (p : prog A) (f : A → prog B) :
  calls_ok ok p → (∀ a, calls_ok ok (f a)) → calls_ok ok (p ≫= f).
Proof.
  intros Hp Hf. induction p as [a|R c k IH]; simpl; [done|]. intros r.
  destruct (Hp r). split; [done|by apply IH].
Qed.

Lemma calls_ok_mono {A} (ok ok' : event → Prop) (p : prog A) :
  (∀ e, ok e → ok' e) → calls_ok ok p → calls_ok ok' p.
Proof. intros Hok. induction p as [a|R c k IH]; simpl; [done|]. intros Hp r. destruct (Hp r). eauto. Qed.
(** A property of every call in the light of the calls before it. *)
Definition each (P : list event → event → Prop) (tr : list event) : Prop :=
  ∀ l e l', tr = l ++ e :: l' → P l e.

Lemma each_nil P : each P [].
Proof. intros l e l' Heq. by destruct l. Qed.

Lemma each_lookup P tr n e : each P tr → tr !! n = Some e → P (take n tr) e.
Proof. intros Hall He. apply (Hall _ _ (drop (S n) tr)). symmetry. by apply take_drop_middle. Qed.

Lemma each_snoc P tr e : each P (tr ++ [e]) ↔ each P tr ∧ P tr e.
Proof.
  split.
  - intros Hall. split; [|by apply (Hall tr e [])].
    intros l e' l' ->. apply (Hall l e' (l' ++ [e])). by rewrite <- app_assoc.
  - intros [Hall He] l e' l' Heq. destruct l' as [|e'' l'' _] using rev_ind.
    + by apply app_inj_tail in Heq as [<- <-].
    + rewrite app_comm_cons, app_assoc in Heq. apply app_inj_tail in Heq as [-> _]. by eapply Hall.
Qed.
(** From [tr] on, any call is fine. *)
Lemma holds_any {A} (p : prog A) P tr :
  each P tr → (∀ l e, tr `prefix_of` l → P l e) → holds p tr (λ tr' _, each P tr').
Proof.
  revert tr. induction p as [a|R c k IH]; intros tr Htr HP; simpl; [done|]. intros r. apply IH.
  - apply each_snoc. split; [done|by apply HP].
  - intros l e Hl. apply HP. etrans; [by apply prefix_app_r|done].
Qed.
End Programs.
Arguments prog : clear implicits.
Arguments event : clear implicits.
Arguments handler : clear implicits.
Arguments Ret {E A} a.
Arguments Do {E A R} c k.

(** ** Retrying on conflict

    [retry.RetryOnConflict]: runs the function again as long as it returns a
    conflict and the backoff lasts, and returns the error of the last run.
    What the function keeps in captured variables is the state [σ].  The law
    is loop induction: an invariant that each run preserves when it ends in a
    conflict, and a postcondition that each run establishes. *)
Class RetryOnConflict (E : Type → Type) (err : Type) (conflict : err → bool) := {
  retry : ∀ {σ}, σ → (σ → prog E (option err * σ)) → prog E (option err * σ);
  retry_holds {σ} (body : σ → prog E (option err * σ)) s tr I Q :
    (∀ s tr, I s tr → holds (body s) tr (λ tr r, Q tr r ∧
       match r.1 with Some e => conflict e = true → I r.2 tr | None => True end)) →
    I s tr → holds (retry s body) tr Q;
}.

(** A bounded loop implements it. *)
Section Bounded.
Context {E : Type → Type} {err : Type} (conflict : err → bool).

Fixpoint retry_n (n : nat) {σ} (s : σ) (body : σ → prog E (option err * σ)) : prog E (option err * σ) :=
  match n with
  | 0 => body s
  | S n => r ← body s;
           match r.1 with
           | Some e => if conflict e then retry_n n r.2 body else Ret r
           | None => Ret r
           end
  end.

Lemma retry_n_holds n {σ} (body : σ → prog E (option err * σ)) s tr I Q :
  (∀ s tr, I s tr → holds (body s) tr (λ tr r, Q tr r ∧
     match r.1 with Some e => conflict e = true → I r.2 tr | None => True end)) →
  I s tr → holds (retry_n n s body) tr Q.
Proof.
  intros Hbody. revert s tr. induction n as [|n IH]; intros s tr HI.
  - eapply holds_mono; [by apply Hbody|]. naive_solver.
  - apply holds_bind. eapply holds_mono; [by apply Hbody|]. intros tr' [[e|] s'] [HQ Hc]; simpl in *; [|done].
    destruct (conflict e); [|done]. by apply IH, Hc.
Qed.

Definition bounded_retry (n : nat) : RetryOnConflict E err conflict :=
  {| retry := @retry_n n; retry_holds := @retry_n_holds n |}.
End Bounded.

(** ** Programs whose calls are all of a kind, given the calls before them *)

Section Only.
Context {E : Type → Type}.
Implicit Types K P : list (event E) → event E → Prop.

(** [p] preserves every property of runs that the events of kind [K] cannot break. *)
Definition only {A} K (p : prog E A) : Prop :=
  ∀ P tr, (∀ l e, K l e → P l e) → each P tr → holds p tr (λ tr' _, each P tr').

Lemma only_ret {A} K (a : A) : only K (Ret a : prog E A).
Proof. by intros P tr _ Htr. Qed.

Lemma only_call {R} K (c : E R) : (∀ l r, K l (Ev c r)) → only K (call c).
Proof. intros Hc P tr HK Htr r. simpl. apply each_snoc. auto. Qed.

Lemma only_bind {A B} K (p : prog E A) (f : A → prog E B) :
  only K p → (∀ a, only K (f a)) → only K (p ≫= f).
Proof.
  intros Hp Hf P tr HK Htr. apply holds_bind. eapply holds_mono; [by apply Hp|].
  intros tr' a Htr'. by apply Hf.
Qed.

Lemma only_any {A} (p : prog E A) : only (λ _ _, True) p.
Proof. intros P tr HP Htr. apply holds_any; auto. Qed.

Lemma only_mono {A} K K' (p : prog E A) : (∀ l e, K l e → K' l e) → only K p → only K' p.
Proof. intros HK Hp P tr HK' Htr. apply Hp; auto. Qed.

Lemma only_retry {err conflict} `{!RetryOnConflict E err conflict} {σ} K (s : σ) body :
  (∀ s, only K (body s)) → only K (retry s body).
Proof.
  intros Hbody P tr HK Htr. apply (retry_holds _ _ _ (λ _ tr, each P tr)); [|done].
  intros s' tr' Htr'. eapply holds_mono; [by apply Hbody|]. intros tr'' [[e|] ?] ?; simpl; auto.
Qed.

Lemma only_holds {A} K (p : prog E A) P tr :
  only K p → (∀ l e, K l e → P l e) → each P tr → holds p tr (λ tr' _, each P tr').
Proof. intros Hp. apply Hp. Qed.

Lemma only_run {W A} K (p : prog E A) (h : handler E W) w : only K p → each K (run h p w).2.
Proof.
  intros Hp. apply (holds_run h p w [] (λ tr _, each K tr)). apply Hp; [done|apply each_nil].
Qed.
End Only.

(** ** Programs that may fail: the rest runs only after a success *)

Definition try {E Er A B} (p : prog E (result Er A)) (f : A → prog E (result Er B)) : prog E (result Er B) :=
  r ← p; match r with Ok a => f a | Err e => Ret (Err e) end.
Notation "x ←? p ; q" := (try p (λ x, q)) (at level 20, p at level 100, q at level 200, right associativity) : go_scope.
Notation "' x ←? p ; q" := (try p (λ x, q))
  (at level 20, x strict pattern, p at level 100, q at level 200, right associativity) : go_scope.
Definition pure {E Er A} (r : result Er A) : prog E (result Er A) := Ret r.

(** ** Disciplines

    A discipline says which calls may follow which.  [spec D p tr Q]: [p],
    started after [tr], keeps the discipline and ends as [Q] says. *)
Section Spec.
Context {E : Type → Type} {D : list (event E) → event E → Prop}.

Definition spec {A} (p : prog E A) (tr : list (event E)) (Q : list (event E) → A → Prop) : Prop :=
  each D tr → holds p tr (λ tr' a, each D tr' ∧ tr `prefix_of` tr' ∧ Q tr' a).

Lemma spec_bind {A B} (p : prog E A) (f : A → prog E B) tr Q Q' :
  spec p tr Q → (∀ tr' a, tr `prefix_of` tr' → Q tr' a → spec (f a) tr' Q') → spec (p ≫= f) tr Q'.
Proof.
  intros Hp Hf Htr. apply holds_bind. eapply holds_mono; [by apply Hp|]. intros tr' a (Hok & Hpre & HQ).
  eapply holds_mono; [by apply Hf|]. intros tr'' b (? & Hpre' & ?). split_and!; [done|by etrans|done].
Qed.

Lemma spec_ret {A} (a : A) tr (Q : list (event E) → A → Prop) : Q tr a → spec (Ret a) tr Q.
Proof. intros HQ Htr. simpl. done. Qed.

Lemma spec_mono {A} (p : prog E A) tr (Q Q' : list (event E) → A → Prop) :
  spec p tr Q → (∀ tr' a, tr `prefix_of` tr' → Q tr' a → Q' tr' a) → spec p tr Q'.
Proof. intros Hp HQ Htr. eapply holds_mono; [by apply Hp|]. intros tr' a (? & ? & ?). eauto. Qed.

Lemma spec_call {R} (c : E R) tr (Q : list (event E) → R → Prop) :
  (∀ r, D tr (Ev c r)) → (∀ r, Q (tr ++ [Ev c r]) r) → spec (call c) tr Q.
Proof. intros Hj HQ Htr r. split_and!; [by apply each_snoc|by apply prefix_app_r|apply HQ]. Qed.

(** A pure step. *)
Lemma spec_try_pure {A B Er} (r : result Er A) (f : A → prog E (result Er B)) tr Q :
  (∀ e, Q tr (Err e)) → (∀ a, r = Ok a → spec (f a) tr Q) → spec (try (pure r) f) tr Q.
Proof. intros He Hf. destruct r as [a|e]; [by apply Hf|by apply spec_ret]. Qed.

(** A loop: an invariant of the state it carries. *)
Lemma spec_retry {err conflict} `{!RetryOnConflict E err conflict} {σ} (s : σ) body tr (I : σ → list (event E) → Prop) Q :
  (∀ s tr, I s tr → spec (body s) tr (λ tr r, Q tr r ∧
     match r.1 with Some e => conflict e = true → I r.2 tr | None => True end)) →
  I s tr → spec (retry s body) tr Q.
Proof.
  intros Hbody HI Htr.
  apply (retry_holds body s tr (λ s tr', I s tr' ∧ each D tr' ∧ tr `prefix_of` tr')); [|by split].
  intros s' tr' (HI' & Htr' & Hpre). eapply holds_mono; [by apply Hbody|].
  intros tr'' [oe s''] (Hd & Hpre' & HQ & Hc). assert (tr `prefix_of` tr' ++ tr'') by (by etrans). simpl in *.
  split_and!; try done. destruct oe; [|done]. auto.
Qed.

(** A program whose calls are all of a kind keeps a discipline that accepts
    that kind from here on. *)
Lemma only_spec {A} K (p : prog E A) tr :
  only K p → (∀ l e, tr `prefix_of` l → K l e → D l e) → spec p tr (λ _ _, True).
Proof.
  intros Hp HK Htr. eapply holds_mono.
  { apply (Hp (λ l e, tr `prefix_of` l → D l e) tr); [auto|]. intros l e l' Heq _. by eapply Htr. }
  intros tr' a Hall. split_and!; [|by apply prefix_app_r|done].
  intros l e l' Heq. destruct (app_eq_inv _ _ _ _ (eq_sym Heq)) as [(k & -> & Hk)|(k & -> & Hk)].
  - eapply Hall; [done|]. by apply prefix_app_r.
  - destruct k as [|e' k]; simplify_eq/=.
    + eapply (Hall l e l'); [by rewrite !app_nil_r|by rewrite app_nil_r].
    + by eapply Htr.
Qed.

Lemma spec_run {W A} (p : prog E A) (h : handler E W) w Q : spec p [] Q → each D (run h p w).2.
Proof. intros Hp. apply (holds_run h p w [] (λ tr _, each D tr)). eapply holds_mono; [apply Hp, each_nil|]. by intros ?? []. Qed.

Lemma spec_run_pair {W A} (p : prog E A) (h : handler E W) w Q :
  spec p [] Q → each D (run h p w).2 ∧ Q (run h p w).2 (run h p w).1.
Proof.
  intros Hp. apply (holds_run h p w [] (λ tr a, each D tr ∧ Q tr a)). eapply holds_mono; [apply Hp, each_nil|]. by intros ?? (? & ? & ?).
Qed.
End Spec.
Arguments spec {E} D {A} p tr Q.

(** *** A part of a list *)

Lemma single {A} (l l' : list A) x y : l ++ x :: l' = [y] → l = [] ∧ x = y.
Proof. destruct l as [|z [|]]; intros Heq; by simplify_eq/=. Qed.
Lemma map_middle {A B} (f : A → B) k s1 e s2 : s1 ++ e :: s2 = map f k → ∃ k1 e' k2, k = k1 ++ e' :: k2 ∧ s1 = map f k1 ∧ e = f e'.
Proof.
  revert s1. induction k as [|x k IH]; intros s1 Heq; [by destruct s1|]. destruct s1 as [|y s1]; simplify_eq/=.
  - by exists [], x, k.
  - destruct (IH s1) as (k1 & e' & k2 & -> & -> & ->); [done|]. by exists (x :: k1), e', k2.
Qed.

(** ** Running a program's calls as programs

    Where one component calls another, its calls are themselves programs.
    [interp f p] runs [f c] for every call [c] of [p].  [outcome p l a]: [p] may
    make the calls [l], answered as [l] says, and end with [a].  [segments f trE
    trF]: the calls [trF] are those of the programs [f c], in the order of the
    events of [trE], each ending with the answer its event records. *)
Section Interp.

Fixpoint outcome {E A} (p : prog E A) (l : list (event E)) (a : A) : Prop :=
  match p with
  | Ret b => l = [] ∧ a = b
  | Do c k => ∃ r l', l = Ev c r :: l' ∧ outcome (k r) l' a
  end.

Lemma holds_outcome {E A} (p : prog E A) tr Q :
  holds p tr Q ↔ ∀ l a, outcome p l a → Q (tr ++ l) a.
Proof.
  revert tr. induction p as [b|R c k IH]; intros tr; simpl.
  - split; [|intros Hp; specialize (Hp [] b); rewrite app_nil_r in Hp; auto].
    intros HQ l a [-> ->]. by rewrite app_nil_r.
  - split.
    + intros Hk l a (r & l' & -> & Hl). rewrite cons_middle, app_assoc. by apply (proj1 (IH r _) (Hk r)).
    + intros Hp r. apply IH. intros l a Hl. rewrite <- app_assoc. apply Hp. eauto.
Qed.

Lemma holds_and {E A} (p : prog E A) tr Q Q' :
  holds p tr Q → holds p tr Q' → holds p tr (λ tr' a, Q tr' a ∧ Q' tr' a).
Proof. rewrite !holds_outcome. auto. Qed.

Lemma holds_true {E A} (p : prog E A) tr : holds p tr (λ _ _, True).
Proof. by apply holds_outcome. Qed.

Lemma spec_holds {E A} (D : list (event E) → event E → Prop) (p : prog E A) tr Q Q' :
  spec D p tr Q → holds p tr Q' → spec D p tr (λ tr' a, Q tr' a ∧ Q' tr' a).
Proof.
  intros Hp Hq Htr. eapply holds_mono; [apply holds_and; [by apply Hp|exact Hq]|]. by intros tr' a ((? & ? & ?) & ?).
Qed.

Lemma outcome_bind {E A B} (p : prog E A) (g : A → prog E B) l b :
  outcome (p ≫= g) l b ↔ ∃ l1 l2 a, l = l1 ++ l2 ∧ outcome p l1 a ∧ outcome (g a) l2 b.
Proof.
  revert l. induction p as [x|R c k IH]; intros l; simpl.
  - split; [intros Hl; by exists [], l, x|]. by intros (l1 & l2 & a & -> & [-> ->] & ?).
  - split.
    + intros (r & l' & -> & Hl). apply IH in Hl as (l1 & l2 & a & -> & ? & ?).
      exists (Ev c r :: l1), l2, a. eauto 10.
    + intros (l1 & l2 & a & -> & (r & l' & -> & ?) & ?). exists r, (l' ++ l2). split; [done|].
      apply IH. eauto 10.
Qed.

Context {E F : Type → Type} (f : ∀ R, E R → prog F R).

Fixpoint interp {A} (p : prog E A) : prog F A :=
  match p with Ret a => Ret a | Do c k => r ← f _ c; interp (k r) end.

Inductive segments : list (event E) → list (event F) → Prop :=
  | segments_nil : segments [] []
  | segments_cons {R} (c : E R) r l trE trF :
      outcome (f _ c) l r → segments trE trF → segments (Ev c r :: trE) (l ++ trF).

Lemma interp_outcome {A} (p : prog E A) l a :
  outcome (interp p) l a → ∃ trE, outcome p trE a ∧ segments trE l.
Proof.
  revert l. induction p as [b|R c k IH]; intros l; simpl.
  - intros [-> ->]. exists []. repeat constructor.
  - intros (l1 & l2 & r & -> & Hc & Hk)%outcome_bind. destruct (IH r l2 Hk) as (trE & ? & ?).
    exists (Ev c r :: trE). split; [eauto|by constructor].
Qed.

(** What holds of the calls of [p] holds of the calls that implement them. *)
Lemma holds_interp {A} (p : prog E A) Q :
  holds p [] Q → holds (interp p) [] (λ trF a, ∃ trE, segments trE trF ∧ Q trE a).
Proof.
  intros Hp. apply holds_outcome. intros l a (trE & Ho & Hs)%interp_outcome. exists trE.
  split; [done|]. by apply (proj1 (holds_outcome p [] Q) Hp).
Qed.

(** Every implementing call belongs to a call of [p]. *)
Lemma segments_split trE l e l' :
  segments trE (l ++ e :: l') →
  ∃ trE1 R (c : E R) r trE2 l1 s1 s2, trE = trE1 ++ Ev c r :: trE2 ∧ segments trE1 l1 ∧
    l = l1 ++ s1 ∧ outcome (f _ c) (s1 ++ e :: s2) r.
Proof.
  remember (l ++ e :: l') as tr eqn:Heq. intros Hs. revert l Heq.
  induction Hs as [|R c r seg trE trF Hc Hs IH]; intros l Heq; [by destruct l|].
  destruct (app_eq_inv _ _ _ _ Heq) as [(k & Hk & Hk')|(k & Hk & Hk')]; simplify_eq.
  - destruct k as [|e' k]; simplify_eq/=.
    + destruct (IH [] eq_refl) as (trE1 & R' & c' & r' & trE2 & l1 & s1 & s2 & -> & Hs1 & Hl & Ho).
      exists (Ev c r :: trE1), R', c', r', trE2, ((l ++ []) ++ l1), s1, s2. split_and!; [done|by constructor| |done].
      rewrite <- app_assoc, <- Hl. by rewrite !app_nil_r.
    + exists [], R, c, r, trE, [], l, k. split_and!; [done|constructor|done|done].
  - destruct (IH k eq_refl) as (trE1 & R' & c' & r' & trE2 & l1 & s1 & s2 & -> & Hs1 & -> & Ho).
    exists (Ev c r :: trE1), R', c', r', trE2, (seg ++ l1), s1, s2. split_and!; [done|by constructor| |done].
    by rewrite app_assoc.
Qed.

Lemma segments_elem trE trF e :
  segments trE trF → e ∈ trF →
  ∃ R (c : E R) r l, Ev c r ∈ trE ∧ e ∈ l ∧ outcome (f _ c) l r.
Proof.
  intros Hs (l & l' & ->)%list_elem_of_split.
  apply segments_split in Hs as (trE1 & R & c & r & trE2 & l1 & s1 & s2 & -> & _ & _ & Ho).
  exists R, c, r, (s1 ++ e :: s2). rewrite !elem_of_app, !elem_of_cons. auto.
Qed.
(** The calls that implement an event are among those of the whole. *)
Lemma segments_of {R} (c : E R) r trE trF :
  segments trE trF → Ev c r ∈ trE → ∃ l, outcome (f _ c) l r ∧ l ⊆ trF.
Proof.
  intros Hs. induction Hs as [|R' c' r' seg trE trF Hc Hs IH]; [by intros ?%elem_of_nil|].
  intros [Heq|Hin]%elem_of_cons.
  - assert (Hseg : ∃ l, outcome (f _ c) l r ∧ l = seg).
    { set (P := λ e : event E, match e with Ev c r => ∃ l, outcome (f _ c) l r ∧ l = seg end).
      change (P (Ev c r)). rewrite Heq. simpl. eauto. }
    destruct Hseg as (l & Hl & ->). exists seg. split; [done|]. intros e He. apply elem_of_app. by left.
  - destruct (IH Hin) as (l & Hl & Hsub). exists l. split; [done|]. intros e He. apply elem_of_app. right. by apply Hsub.
Qed.
End Interp.

Lemma outcome_only {E A} K (p : prog E A) l a : only K p → outcome p l a → each K l.
Proof.
  intros Hp Ho. assert (Hh : holds p [] (λ tr _, each K tr)) by (apply Hp; [done|apply each_nil]).
  exact (proj1 (holds_outcome p [] _) Hh l a Ho).
Qed.

Lemma outcome_spec {E A} D (p : prog E A) Q l a : spec D p [] Q → outcome p l a → each D l ∧ Q l a.
Proof.
  intros Hp Ho. pose proof (proj1 (holds_outcome p [] _) (Hp (each_nil _)) l a Ho) as (? & _ & ?). done.
Qed.

Lemma outcome_call {E R} (c : E R) l r : outcome (call c) l r → l = [Ev c r].
Proof. by intros (r' & l' & -> & -> & ->). Qed.

(** Among the calls [l], a run of [p] from its first call to its last, which
    ended with [a]. *)
Definition answered {E A} (p : prog E A) (l : list (event E)) (a : A) : Prop :=
  ∃ l1 k l2, l = l1 ++ k ++ l2 ∧ outcome p k a.

Lemma answered_prefix {E A} (p : prog E A) l l' a : answered p l a → l `prefix_of` l' → answered p l' a.
Proof. intros (l1 & k & l2 & -> & Ho) [l3 ->]. exists l1, k, (l2 ++ l3). by rewrite <- !app_assoc. Qed.

Lemma answered_here {E A} (p : prog E A) tr : holds p tr (answered p).
Proof. apply holds_outcome. intros l a Ho. exists tr, l, []. by rewrite app_nil_r. Qed.

Lemma answered_app_l {E A} (p : prog E A) l l' a : answered p l' a → answered p (l ++ l') a.
Proof. intros (l1 & k & l2 & -> & Ho). exists (l ++ l1), k, l2. by rewrite <- app_assoc. Qed.

Lemma holds_extends {E A} (p : prog E A) tr : holds p tr (λ tr' _, tr `prefix_of` tr').
Proof. apply holds_outcome. intros l a _. by apply prefix_app_r. Qed.

(** A success of a program that may fail. *)
Lemma outcome_try {E Er A B} (p : prog E (result Er A)) (f : A → prog E (result Er B)) l b :
  outcome (try p f) l (Ok b) → ∃ l1 l2 a, l = l1 ++ l2 ∧ outcome p l1 (Ok a) ∧ outcome (f a) l2 (Ok b).
Proof.
  unfold try. intros (l1 & l2 & [a|e] & -> & Hp & Hf)%outcome_bind; [eauto 10|]. by destruct Hf.
Qed.
Lemma outcome_try_pure {E Er A B} (r : result Er A) (f : A → prog E (result Er B)) l b :
  outcome (try (pure r) f) l (Ok b) → ∃ a, r = Ok a ∧ outcome (f a) l (Ok b).
Proof. intros (l1 & l2 & a & -> & [-> <-] & Hf)%outcome_try. eauto. Qed.

(** ** A component's programs among the calls of another *)

Section Embed.
Context {E F : Type → Type} (g : ∀ R, E R → F R).

(** Each call of [p] as a call of the larger kind. *)
Definition embed {A} (p : prog E A) : prog F A := interp (λ R c, call (g R c)) p.
Definition embedded (e : event E) : event F := match e with Ev c r => Ev (g _ c) r end.

Lemma holds_embed {A} (p : prog E A) tr0 tr Q :
  holds p tr0 Q → holds (embed p) tr (λ tr' a, ∃ l, tr' = tr ++ map embedded l ∧ Q (tr0 ++ l) a).
Proof.
  revert tr0 tr. induction p as [a|R c k IH]; intros tr0 tr; simpl.
  - intros HQ. exists []. by rewrite !app_nil_r.
  - intros Hk r. eapply holds_mono; [apply IH, Hk|]. intros tr' a (l & Hl & HQ). exists (Ev c r :: l).
    split; [by rewrite Hl, <- app_assoc|]. by rewrite <- app_assoc in HQ.
Qed.

Lemma only_embed {A} K K' (p : prog E A) :
  only K p → (∀ l e l', K l e → K' l' (embedded e)) → only K' (embed p).
Proof.
  intros Hp HK P tr HP Htr. assert (HpK : holds p [] (λ tr _, each K tr)) by (by apply Hp; [|apply each_nil]).
  eapply holds_mono; [exact (holds_embed p [] tr _ HpK)|]. intros tr' _ (l & Hl & Hall). rewrite Hl. clear Hl.
  induction l as [|e l IH] using rev_ind; [by rewrite app_nil_r|]. apply each_snoc in Hall as [Hall He].
  rewrite map_app, app_assoc. apply each_snoc. split; [by apply IH|]. eapply HP, HK, He.
Qed.

Lemma outcome_embed {A} (p : prog E A) l a : outcome (embed p) l a → ∃ k, l = map embedded k ∧ outcome p k a.
Proof.
  intros Ho. assert (Hp : holds p [] (outcome p)) by (by apply holds_outcome).
  pose proof (proj1 (holds_outcome _ [] _) (holds_embed p [] [] _ Hp) l a Ho) as (k & Hk & ?). by exists k.
Qed.

(** What a program establishes, with the calls it made. *)
Lemma spec_embed {A} (D : list (event F) → event F → Prop) (p : prog E A) tr Q :
  holds p [] (λ l a, (∀ l1 e l2, l = l1 ++ e :: l2 → D (tr ++ map embedded l1) (embedded e)) ∧ Q l a) →
  spec D (embed p) tr (λ tr' a, ∃ l, tr' = tr ++ map embedded l ∧ Q l a).
Proof.
  intros Hp Htr. eapply holds_mono; [apply (holds_embed p [] tr _ Hp)|].
  intros tr' a (l & Hl & HD & HQ). simpl in HD, HQ. rewrite Hl. clear Hl. split_and!; [|by apply prefix_app_r|by eauto].
  revert HD. clear HQ. induction l as [|e l IH] using rev_ind; intros HD; [by rewrite app_nil_r|].
  rewrite map_app, app_assoc. apply each_snoc. split.
  - apply IH. intros l1 e' l2 ->. eapply (HD l1 e' (l2 ++ [e])). by rewrite <- app_assoc.
  - by apply (HD l e []).
Qed.
End Embed.
