(* ===== verification/Errors.v ===== *)
(** * Errors

    An [error] is what the code sees of an error value through the wrapping of
    [fmt.Errorf("%w")]: what [errors.Is] and the [apierrors.Is*] tests find,
    its text, the first API status that [errors.As] finds in its chain, and
    whether there is a [Diagnostic] of [internal/service/status/diagnostic.go]
    in it. *)
From Stdlib Require Import ZArith.
From stdpp Require Import base strings list option.
From S2P Require Import Prelude.

Inductive err_kind :=
  | NotFound | Conflict | AlreadyExists | Invalid | Forbidden | Unauthorized | ServiceUnavailable
  | PackageNotReady | PackageInstallFailed | ObservedSpecChanged | PauseSnapshotInvalid | NoMatch | GroupVersionNotFound
  | PackageUnavailableExceeded | NoOperator | OperatorFinalizerAdded | OperatorReconcilePaused | BadRequest | OtherError.
#[export] Instance err_kind_eq_dec : EqDecision err_kind.
Proof. solve_decision. Defined.

(** [metav1.StatusCause], [metav1.StatusDetails] and [metav1.Status]. *)
Record status_cause := StatusCause { sc_type : string; sc_field : string; sc_message : string }.
#[export] Instance status_cause_eq_dec : EqDecision status_cause.
Proof. solve_decision. Defined.
Record status_details := StatusDetails { sd_kind : string; sd_name : string; sd_causes : list status_cause }.
#[export] Instance status_details_eq_dec : EqDecision status_details.
Proof. solve_decision. Defined.
Record api_status := APIStatus { as_reason : string; as_code : Z; as_details : option status_details }.
#[export] Instance api_status_eq_dec : EqDecision api_status.
Proof. solve_decision. Defined.

Record error := MkError {
  e_kind : err_kind;
  e_msg : string;
  e_status : option api_status;
  e_diagnosed : bool;
}.
#[export] Instance error_eq_dec : EqDecision error.
Proof. solve_decision. Defined.

(** An error of a kind, without API status. *)
Definition Error (k : err_kind) (msg : string) : error := MkError k msg None false.
Definition new_error (msg : string) : error := Error OtherError msg.
(** [fmt.Errorf("msg: %w", e)] *)
Definition wrap_error (msg : string) (e : error) : error :=
  MkError (e_kind e) (msg +:+ ": " +:+ e_msg e) (e_status e) (e_diagnosed e).
Definition is_conflict (e : error) : bool := bool_decide (e_kind e = Conflict).
Definition is_not_found (e : error) : bool := bool_decide (e_kind e = NotFound).
