(* ===== verification/Diagnostic.v ===== *)
(** * Diagnostics of failures

    [internal/service/status/diagnostic.go]: the structured error that the
    controllers put around a failure, its message and the category of its
    cause, and the key-value pairs of its log line.  Letters are those of
    ASCII where they are lowered. *)
From Stdlib Require Import ZArith Lia Ascii String.
From stdpp Require Import base strings list option pretty.
From S2P Require Import Prelude GoStrings Errors.

(** [FailurePhase], internal/service/status/diagnostic.go:28-38 *)
Definition PhaseConfigValidation : string := "config-validation".
(** [PhaseTemplateRender], internal/service/status/diagnostic.go:32-32 *)
Definition PhaseTemplateRender : string := "template-render".
(** [PhaseRuntimeReconcile], internal/service/status/diagnostic.go:36-36 *)
Definition PhaseRuntimeReconcile : string := "runtime-reconcile".
(** [PhaseWorkloadReadiness], internal/service/status/diagnostic.go:37-37 *)
Definition PhaseWorkloadReadiness : string := "workload-readiness".
(** [PhaseImageDiscovery], internal/service/status/diagnostic.go:34-34 *)
Definition PhaseImageDiscovery : string := "image-discovery-export".
(** [PhaseRemotePullDeploy], internal/service/status/diagnostic.go:35-35 *)
Definition PhaseRemotePullDeploy : string := "remote-pull-deploy".

(** [ObjectRef], internal/service/status/diagnostic.go *)
Record object_ref := ObjectRef { ref_apiVersion : string; ref_kind : string; ref_namespace : string; ref_name : string }.
#[export] Instance object_ref_eq_dec : EqDecision object_ref.
Proof. solve_decision. Defined.
Definition no_object : object_ref := ObjectRef "" "" "" "".

(** [schema.GroupVersion.String] *)
Definition group_version (group version : string) : string := if String.eqb group "" then version else group +:+ "/" +:+ version.

(** [ObjectRefFromObject], internal/service/status/diagnostic.go *)
Definition ObjectRefFromObject (namespace name group version kind : string) : object_ref :=
  ObjectRef (group_version group version) kind namespace name.

(** [strings.ToLower] *)
Definition lower_ascii (a : ascii) : ascii :=
  let n := Ascii.nat_of_ascii a in if (65 <=? n) && (n <=? 90) then Ascii.ascii_of_nat (n + 32) else a.
Fixpoint ToLower (s : string) : string :=
  match s with EmptyString => EmptyString | String a s => String (lower_ascii a) (ToLower s) end.

Definition nonempty (s : string) : bool := negb (String.eqb s "").

(** [String], internal/service/status/diagnostic.go *)
Definition ref_string (r : object_ref) : string :=
  (if nonempty (ref_apiVersion r) then ref_apiVersion r +:+ "/" else "") +:+
  (if nonempty (ref_kind r) then ref_kind r else "<unknown-kind>") +:+
  (if nonempty (ref_namespace r) then " " +:+ ref_namespace r +:+ "/" +:+ ref_name r
   else if nonempty (ref_name r) then " " +:+ ref_name r else "").

(** [Diagnostic], internal/service/status/diagnostic.go *)
Record diagnostic := Diagnostic {
  d_phase : string;
  d_controller : string;
  d_resource : object_ref;
  d_failedObject : object_ref;
  d_owner : object_ref;
  d_fieldPath : string;
  d_expected : string;
  d_actual : string;
  d_generation : Z;
  d_observedGeneration : Z;
  d_next : string;
}.

(** The parts of a list that are there. *)
Definition optional (b : bool) (s : string) : list string := if b then [s] else [].

(** [formatStatusCauses], internal/service/status/diagnostic.go:332-343 *)
Definition cause_fields (cause : status_cause) : list string :=
  optional (nonempty (sc_type cause)) ("type=" +:+ sc_type cause) ++
  optional (nonempty (sc_field cause)) ("field=" +:+ sc_field cause) ++
  optional (nonempty (sc_message cause)) ("message=" +:+ sc_message cause).

(** [formatStatusCauses], internal/service/status/diagnostic.go *)
Definition formatStatusCauses (causes : list status_cause) : string :=
  Join (omap (λ cause, match cause_fields cause with [] => None | fields => Some (Join fields ",") end) causes) "|".

(** [apiStatusFromError], internal/service/status/diagnostic.go *)
Definition apiStatusFromError (err : option error) : option api_status := err ≫= e_status.

(** The categories that an API status has by its reason. *)
(** [CauseCategory], internal/service/status/diagnostic.go:174-190 *)
Definition status_category (status : api_status) : option string :=
  let reason := as_reason status in
  if bool_decide (reason ∈ ["Forbidden"; "Unauthorized"]) then Some "RBACForbidden"
  else if bool_decide (reason ∈ ["Invalid"; "BadRequest"]) then Some "Validation"
  else if String.eqb reason "Conflict" then Some "Conflict"
  else if bool_decide (reason ∈ ["TooManyRequests"; "Timeout"; "ServerTimeout"]) then Some "APIServerTransient"
  else if String.eqb reason "NotFound" then
    match as_details status with
    | Some details => if nonempty (sd_kind details) then Some "ResourceNotFound" else Some "CRDDiscovery"
    | None => Some "CRDDiscovery"
    end
  else None.

Definition any_of (subs : list string) (msg : string) : bool := existsb (λ sub, contains sub msg) subs.

(** The cases of the switch on the message, in order. *)
(** [CauseCategory], internal/service/status/diagnostic.go:192-228 *)
Definition message_cases : list ((string → bool) * string) := [
  (any_of ["x509"; "certificate signed by unknown authority"; "tls"], "RegistryTLS");
  (any_of ["unauthorized"; "authentication required"; "pull access denied"], "RegistryAuth");
  (λ msg, any_of ["manifest unknown"; "name unknown"] msg ||
          (contains "not found" msg && any_of ["image"; "registry"; "repository"] msg), "RegistryNotFound");
  (any_of ["imagepullbackoff"; "errimagepull"; "failed to pull image"; "pull access denied"], "ImagePull");
  (any_of ["registry"; "repository"; "manifest unknown"; "name unknown"], "Registry");
  (any_of ["forbidden"; "rbac"; "permission"], "RBACForbidden");
  (any_of ["failedmount"; "failedattachvolume"; "mountvolume"; "unable to attach or mount volumes"], "VolumeMountFailed");
  (any_of ["failedscheduling"; "unschedulable"], "SchedulingUnschedulable");
  (any_of ["failedbinding"; "persistentvolumeclaim"; "pvc pending"], "PVCPending");
  (any_of ["progressdeadlineexceeded"; "exceeded its progress deadline"], "RolloutStalled");
  (any_of ["minimumreplicasunavailable"; "does not have minimum availability"], "WorkloadUnavailable");
  (any_of ["rbac"], "RBAC");
  (any_of ["no matches for kind"; "server could not find the requested resource"], "CRDDiscovery");
  (any_of ["not found"], "ResourceNotFound");
  (any_of ["template"; "parse"], "TemplateRender");
  (any_of ["validation"; "invalid"; "required"], "Validation")].

Fixpoint first_case (cases : list ((string → bool) * string)) (msg : string) : string :=
  match cases with
  | [] => "Error"
  | (test, category) :: cases => if test msg then category else first_case cases msg
  end.

(** [CauseCategory], internal/service/status/diagnostic.go *)
Definition CauseCategory (err : option error) : string :=
  match err with
  | None => ""
  | Some e =>
      match apiStatusFromError err ≫= status_category with
      | Some category => category
      | None => first_case message_cases (ToLower (e_msg e))
      end
  end.

(** [Message], internal/service/status/diagnostic.go:128-145 *)
Definition status_parts (status : api_status) : list string :=
  ["apiStatusReason=" +:+ as_reason status] ++
  optional (negb (as_code status =? 0)%Z) ("apiStatusCode=" +:+ pretty (as_code status)) ++
  match as_details status with
  | None => []
  | Some details =>
      optional (nonempty (sd_kind details)) ("apiStatusKind=" +:+ sd_kind details) ++
      optional (nonempty (sd_name details)) ("apiStatusName=" +:+ sd_name details) ++
      optional (nonempty (formatStatusCauses (sd_causes details))) ("apiStatusCauses=" +:+ formatStatusCauses (sd_causes details))
  end.

Definition named (r : object_ref) : bool := nonempty (ref_kind r) || nonempty (ref_name r).

(** [Message], internal/service/status/diagnostic.go:89-152 *)
Definition message_parts (d : diagnostic) (cause : option error) : list string :=
  optional (nonempty (d_phase d)) ("phase=" +:+ d_phase d) ++
  optional (nonempty (d_controller d)) ("controller=" +:+ d_controller d) ++
  optional (named (d_resource d)) ("resource=" +:+ ref_string (d_resource d)) ++
  optional (named (d_failedObject d)) ("failedObject=" +:+ ref_string (d_failedObject d)) ++
  optional (named (d_owner d)) ("ownerRef=" +:+ ref_string (d_owner d)) ++
  optional (nonempty (d_fieldPath d)) ("fieldPath=" +:+ d_fieldPath d) ++
  optional (nonempty (d_expected d)) ("expected=" +:+ d_expected d) ++
  optional (nonempty (d_actual d)) ("actual=" +:+ d_actual d) ++
  optional (negb (d_generation d =? 0)%Z) ("generation=" +:+ pretty (d_generation d)) ++
  optional (negb (d_observedGeneration d =? 0)%Z) ("observedGeneration=" +:+ pretty (d_observedGeneration d)) ++
  optional (negb (d_generation d =? 0)%Z && negb (d_observedGeneration d =? 0)%Z &&
            (d_observedGeneration d <? d_generation d)%Z) "staleStatus=true" ++
  optional (nonempty (CauseCategory cause)) ("causeCategory=" +:+ CauseCategory cause) ++
  match apiStatusFromError cause with Some status => status_parts status | None => [] end ++
  match cause with Some e => ["cause=" +:+ e_msg e] | None => [] end ++
  optional (nonempty (d_next d)) ("next=" +:+ d_next d).

(** [Message], internal/service/status/diagnostic.go *)
Definition Message (d : diagnostic) (cause : option error) : string := Join (message_parts d cause) "; ".

(** A diagnostic as an error value. *)
(** [Error], internal/service/status/diagnostic.go *)
Definition diagnostic_error (d : diagnostic) (cause : option error) : error :=
  MkError (match cause with Some e => e_kind e | None => OtherError end) (Message d cause) (apiStatusFromError cause) true.

(** [WrapDiagnostic], internal/service/status/diagnostic.go *)
Definition WrapDiagnostic (err : option error) (base : diagnostic) : option error :=
  match err with
  | None => None
  | Some e => if e_diagnosed e then Some e else Some (diagnostic_error base (Some e))
  end.

(** A value of a log line. *)
Inductive log_value := LogString (s : string) | LogInt (n : Z) | LogBool (b : bool).
Definition log_if (b : bool) (l : list (string * log_value)) : list (string * log_value) := if b then l else [].
Definition log_ref (prefix : string) (r : object_ref) : list (string * log_value) :=
  log_if (named r) [(prefix +:+ "APIVersion", LogString (ref_apiVersion r)); (prefix +:+ "Kind", LogString (ref_kind r));
    (prefix +:+ "Namespace", LogString (ref_namespace r)); (prefix +:+ "Name", LogString (ref_name r))].
(** [DiagnosticLogValues], internal/service/status/diagnostic.go:252-268 *)
Definition log_status (status : api_status) : list (string * log_value) :=
  [("apiStatusReason", LogString (as_reason status)); ("apiStatusCode", LogInt (as_code status))] ++
  match as_details status with
  | None => []
  | Some details =>
      [("apiStatusKind", LogString (sd_kind details)); ("apiStatusName", LogString (sd_name details))] ++
      let causes := formatStatusCauses (sd_causes details) in log_if (nonempty causes) [("apiStatusCauses", LogString causes)]
  end.
(** The diagnostic with its cause, when the error has one. *)
(** [DiagnosticLogValues], internal/service/status/diagnostic.go *)
Definition DiagnosticLogValues (err : option (diagnostic * option error)) : list (string * log_value) :=
  match err with
  | None => []
  | Some (d, cause) =>
      [("failurePhase", LogString (d_phase d)); ("failureCauseCategory", LogString (CauseCategory cause))] ++
      match apiStatusFromError cause with Some status => log_status status | None => [] end ++
      log_if (nonempty (d_controller d)) [("controller", LogString (d_controller d))] ++
      log_ref "resource" (d_resource d) ++ log_ref "failedObject" (d_failedObject d) ++ log_ref "ownerRef" (d_owner d) ++
      log_if (nonempty (d_fieldPath d)) [("failedFieldPath", LogString (d_fieldPath d))] ++
      log_if (nonempty (d_expected d)) [("expected", LogString (d_expected d))] ++
      log_if (nonempty (d_actual d)) [("actual", LogString (d_actual d))] ++
      log_if (negb (d_generation d =? 0)%Z) [("generation", LogInt (d_generation d))] ++
      log_if (negb (d_observedGeneration d =? 0)%Z) [("observedGeneration", LogInt (d_observedGeneration d))] ++
      log_if (negb (d_generation d =? 0)%Z && negb (d_observedGeneration d =? 0)%Z && (d_observedGeneration d <? d_generation d)%Z)
        [("staleStatus", LogBool true)] ++
      log_if (nonempty (d_next d)) [("next", LogString (d_next d))]
  end.

(** ** Lemmas *)


(** Every part of a message is in it, and so is everything in a part. *)
Lemma in_message d cause p : p ∈ message_parts d cause → contains p (Message d cause) = true.
Proof. intros Hin. unfold Message. destruct (Join_split _ "; " p Hin) as (a & b & ->). apply contains_in. Qed.

Lemma first_case_reached cases msg : first_case cases msg = "Error" ∨ ∃ test, (test, first_case cases msg) ∈ cases ∧ test msg = true.
Proof.
  induction cases as [|[test c] cases IH]; [by left|]. simpl. destruct (test msg) eqn:Ht; [right; exists test; split; [by left|done]|].
  destruct IH as [->|(test' & Hin & ?)]; [by left|]. right. exists test'. split; [by right|done].
Qed.

Lemma optional_elem (b : bool) s : b = true → s ∈ optional b s.
Proof. intros ->. by left. Qed.

Lemma category_nonempty e : nonempty (CauseCategory (Some e)) = true.
Proof.
  unfold CauseCategory. destruct (_ ≫= _) as [c|] eqn:Es.
  - destruct (apiStatusFromError (Some e)) as [st|]; [|done]. simpl in Es. unfold status_category in Es.
    repeat case_match; by simplify_eq.
  - destruct (first_case_reached message_cases (ToLower (e_msg e))) as [->|(test & Hin & _)]; [done|].
    revert Hin. generalize (first_case message_cases (ToLower (e_msg e))) as c. intros c Hin.
    assert (Hall : Forall (λ x : (string → bool) * string, nonempty x.2 = true) message_cases) by (by repeat constructor).
    rewrite list.Forall_forall in Hall. exact (Hall _ Hin).
Qed.

Lemma in_left {A} (p : A) l l' : p ∈ l → p ∈ l ++ l'.
Proof. intros ?. apply elem_of_app. by left. Qed.
Lemma in_right {A} (p : A) l l' : p ∈ l' → p ∈ l ++ l'.
Proof. intros ?. apply elem_of_app. by right. Qed.

Ltac in_parts :=
  match goal with
  | |- ?p ∈ optional _ ?q ++ _ => constr_eq p q; apply in_left, optional_elem; first [assumption|reflexivity]
  | |- ?p ∈ optional _ ?q => constr_eq p q; apply optional_elem; first [assumption|reflexivity]
  | |- ?p ∈ [?q] ++ _ => constr_eq p q; apply in_left; left
  | |- _ ∈ _ ++ _ => apply in_right; in_parts
  end.

(** C26: A diagnostic put around a failure hides nothing of it: the kind of the
    error, its API status and its text are still there, the message names the
    failed object, the category of the cause, a stale status and the advice;
    and an error that is a diagnostic already, however it was wrapped since,
    is not wrapped again. *)
Theorem diagnostic_keeps_cause e base :
  ∃ e', WrapDiagnostic (Some e) base = Some e' ∧ e_diagnosed e' = true ∧
    e_kind e' = e_kind e ∧ e_status e' = e_status e ∧
    (∀ msg base', WrapDiagnostic (Some e') base' = Some e' ∧
                  WrapDiagnostic (Some (wrap_error msg e')) base' = Some (wrap_error msg e')) ∧
    (e_diagnosed e = true → e' = e) ∧
    (e_diagnosed e = false →
       contains ("cause=" +:+ e_msg e) (e_msg e') = true ∧
       contains ("causeCategory=" +:+ CauseCategory (Some e)) (e_msg e') = true ∧
       (named (d_failedObject base) = true → contains ("failedObject=" +:+ ref_string (d_failedObject base)) (e_msg e') = true) ∧
       (nonempty (d_fieldPath base) = true → contains ("fieldPath=" +:+ d_fieldPath base) (e_msg e') = true) ∧
       (nonempty (d_next base) = true → contains ("next=" +:+ d_next base) (e_msg e') = true) ∧
       (d_generation base ≠ 0 → d_observedGeneration base ≠ 0 → d_observedGeneration base < d_generation base →
          contains "staleStatus=true" (e_msg e') = true)%Z).
Proof.
  unfold WrapDiagnostic. destruct (e_diagnosed e) eqn:Ed; [exists e; split_and!; try done; intros; simpl; by rewrite Ed|].
  exists (diagnostic_error base (Some e)). split_and!; try done. intros _.
  change (e_msg (diagnostic_error base (Some e))) with (Message base (Some e)).
  pose proof (category_nonempty e) as Hc.
  assert (Hstale : (d_generation base ≠ 0 → d_observedGeneration base ≠ 0 → d_observedGeneration base < d_generation base →
    negb (d_generation base =? 0) && negb (d_observedGeneration base =? 0) && (d_observedGeneration base <? d_generation base) = true)%Z).
  { intros Hg Ho Hlt. by rewrite (proj2 (Z.eqb_neq _ _) Hg), (proj2 (Z.eqb_neq _ _) Ho), (proj2 (Z.ltb_lt _ _) Hlt). }
  split_and!; intros; apply in_message; unfold message_parts; cbv beta iota; try by in_parts. specialize (Hstale ltac:(done) ltac:(done) ltac:(done)).
  in_parts.
Qed.

(** The second case for [rbac] is never reached: no cause has the category
    [RBAC]. *)
Lemma rbac_case_unreachable err : CauseCategory err ≠ "RBAC".
Proof.
  destruct err as [e|]; [|done]. unfold CauseCategory. destruct (_ ≫= _) as [c|] eqn:Es.
  - destruct (apiStatusFromError (Some e)) as [st|]; [|done]. simpl in Es. unfold status_category in Es.
    repeat case_match; by simplify_eq.
  - generalize (ToLower (e_msg e)) as msg. intros msg. unfold message_cases. cbn [first_case].
    repeat match goal with |- (if ?b then _ else _) ≠ _ => destruct b eqn:?; [try done|] end; [|done].
    unfold any_of in *. cbn [existsb] in *.
    repeat match goal with Hb : _ || _ = false |- _ => apply orb_false_iff in Hb as [? ?] end.
    match goal with Hb : contains "rbac" msg || false = true |- _ => rewrite orb_false_r in Hb end. congruence.
Qed.

Example category_of_not_found :
  CauseCategory (Some (wrap_error "get" (new_error "deployment redis not found"))) = "ResourceNotFound".
Proof. reflexivity. Qed.
Example category_precedence :
  CauseCategory (Some (new_error "ErrImagePull: x509: certificate signed by unknown authority")) = "RegistryTLS".
Proof. reflexivity. Qed.

(** ** The values of a log line *)

Definition log_keys : list string :=
  ["failurePhase"; "failureCauseCategory"; "apiStatusReason"; "apiStatusCode"; "apiStatusKind"; "apiStatusName"; "apiStatusCauses"; "controller";
   "resourceAPIVersion"; "resourceKind"; "resourceNamespace"; "resourceName"; "failedObjectAPIVersion"; "failedObjectKind"; "failedObjectNamespace";
   "failedObjectName"; "ownerRefAPIVersion"; "ownerRefKind"; "ownerRefNamespace"; "ownerRefName"; "failedFieldPath"; "expected"; "actual";
   "generation"; "observedGeneration"; "staleStatus"; "next"].

Lemma log_if_keys b l : sublist (log_if b l).*1 l.*1.
Proof. destruct b; [done|apply sublist_nil_l]. Qed.

(** Every key is known and there once. *)
Lemma log_keys_unique err : sublist (DiagnosticLogValues err).*1 log_keys ∧ NoDup (DiagnosticLogValues err).*1.
Proof.
  assert (Hs : sublist (DiagnosticLogValues err).*1 log_keys).
  { destruct err as [[d cause]|]; [|apply sublist_nil_l]. cbn [DiagnosticLogValues]. rewrite !fmap_app.
    change log_keys with (["failurePhase"; "failureCauseCategory"] ++ ["apiStatusReason"; "apiStatusCode"; "apiStatusKind"; "apiStatusName"; "apiStatusCauses"] ++
      ["controller"] ++ ["resourceAPIVersion"; "resourceKind"; "resourceNamespace"; "resourceName"] ++
      ["failedObjectAPIVersion"; "failedObjectKind"; "failedObjectNamespace"; "failedObjectName"] ++
      ["ownerRefAPIVersion"; "ownerRefKind"; "ownerRefNamespace"; "ownerRefName"] ++ ["failedFieldPath"] ++ ["expected"] ++ ["actual"] ++
      ["generation"] ++ ["observedGeneration"] ++ ["staleStatus"] ++ ["next"]).
    repeat (apply sublist_app; [try apply log_if_keys; try done|]); [|apply log_if_keys].
    destruct (apiStatusFromError cause) as [status|]; [|apply sublist_nil_l]. unfold log_status. rewrite fmap_app.
    apply (sublist_app _ ["apiStatusReason"; "apiStatusCode"]); [done|]. destruct (as_details status) as [details|]; [|apply sublist_nil_l].
    rewrite fmap_app. apply (sublist_app _ ["apiStatusKind"; "apiStatusName"]); [done|]. apply log_if_keys. }
  split; [exact Hs|]. eapply sublist_NoDup; [|exact Hs]. apply (bool_decide_unpack _). by vm_compute.
Qed.
