(* ===== verification/Middleware.v ===== *)
(** * The Middleware resource and its API-server client

    The data of [api/v1/middleware_types.go], the client functions of
    [internal/k8s/middleware.go] and the resolution of delete contexts in
    [internal/service/middleware/delete_context.go]. *)
From stdpp Require Import base gmap strings list option.
From Stdlib Require Import ZArith Lia.
From S2P Require Export Errors.
From S2P Require Import Prelude Labels Conditions Prog.

(** ** [controllerutil]'s finalizer functions *)
Class ControllerUtil := {
  ContainsFinalizer : list string → string → bool;
  AddFinalizer : list string → string → list string;
  RemoveFinalizer : list string → string → list string;
  contains_finalizer fs f : ContainsFinalizer fs f = true ↔ f ∈ fs;
  add_finalizer fs f g : g ∈ AddFinalizer fs f ↔ g = f ∨ g ∈ fs;
  remove_finalizer fs f g : g ∈ RemoveFinalizer fs f ↔ g ≠ f ∧ g ∈ fs;
}.

(** ** Data ([api/v1]) *)

(** [GVK], api/v1/common.go *)
Record gvk := GVK { gvk_group : string; gvk_version : string; gvk_kind : string }.
#[export] Instance gvk_eq_dec : EqDecision gvk.
Proof. solve_decision. Defined.
#[export] Instance gvk_countable : Countable gvk.
Proof.
  apply (inj_countable' (λ g, (gvk_group g, gvk_version g, gvk_kind g)) (λ '(a, b, c), GVK a b c)). by intros [].
Defined.

(** A raw extension is its bytes. *)
(** [ReconcileOverrides], api/v1/middleware_types.go *)
Record reconcile_overrides := ReconcileOverrides {
  ro_specPatch : string;
  ro_baseSpec : string;
  ro_gvk : gvk;
  ro_namespace : string;
  ro_name : string;
}.
#[export] Instance reconcile_overrides_eq_dec : EqDecision reconcile_overrides.
Proof. solve_decision. Defined.

(** [ReconcilePauseStatus], api/v1/middleware_types.go *)
Record pause_status := ReconcilePauseStatus {
  ps_snapshotSecret : string;
  ps_gvk : gvk;
  ps_namespace : string;
  ps_name : string;
  ps_resourceUID : string;
  ps_generation : Z;
  ps_hash : string;
  ps_capturedAt : Z;
  ps_adoptedLiveSpecHash : string;
}.
#[export] Instance pause_status_eq_dec : EqDecision pause_status.
Proof. solve_decision. Defined.

(** [OperatorBaseline], api/v1/common.go *)
Record operator_baseline := OperatorBaseline { ob_name : string; ob_gvkName : string }.

(** [RenderedConfigurationResource], api/v1/common.go *)
Record rendered_resource := RenderedConfigurationResource {
  rr_configurationName : string;
  rr_configurationUID : string;
  rr_group : string;
  rr_version : string;
  rr_kind : string;
  rr_namespace : string;
  rr_name : string;
  rr_ownerUID : string;
  rr_resourceUID : string;
  rr_namespaced : bool;
  rr_disablePolicy : string;
}.
#[export] Instance rendered_resource_eq_dec : EqDecision rendered_resource.
Proof. solve_decision. Defined.

(** [IncludeModel], api/v1/middleware_types.go *)
Record include_model := IncludeModel {
  im_name : string; im_type : string; im_source : string; im_sourceName : string;
}.
#[export] Instance include_model_eq_dec : EqDecision include_model.
Proof. solve_decision. Defined.

(** [Include], api/v1/middleware_types.go *)
Record include := Include {
  in_pods : list include_model;
  in_pvcs : list include_model;
  in_services : list include_model;
  in_statefulsets : list include_model;
  in_deployments : list include_model;
  in_daemonsets : list include_model;
}.
#[export] Instance include_eq_dec : EqDecision include.
Proof. solve_decision. Defined.

(** [Gossip], api/v1/middleware_types.go *)
Record gossip := Gossip {
  go_advertiseAddress : string;
  go_advertisePort : Z;
  go_phase : string;
  go_clusterRole : string;
  go_clusterPhase : string;
  go_role : string;
  go_gossipPhase : string;
}.
#[export] Instance gossip_eq_dec : EqDecision gossip.
Proof. solve_decision. Defined.

(** [Data], api/v1/middleware_types.go *)
Record disaster_data := Data {
  da_phase : string;
  da_address : string;
  da_oppositeAddress : string;
  da_oppositeClusterId : string;
  da_oppositeClusterName : string;
  da_oppositeClusterNamespace : string;
}.
#[export] Instance disaster_data_eq_dec : EqDecision disaster_data.
Proof. solve_decision. Defined.

(** [Disaster], api/v1/middleware_types.go *)
Record disaster := Disaster { di_gossip : option gossip; di_data : option disaster_data }.
#[export] Instance disaster_eq_dec : EqDecision disaster.
Proof. solve_decision. Defined.

(** A [ResourceRequirements] is its limits and requests, as printed. *)
(** [CustomResources], api/v1/middleware_types.go *)
Record custom_resources := CustomResources {
  cr_creationTimestamp : Z;
  cr_phase : string;
  cr_limits : gmap string string;
  cr_requests : gmap string string;
  cr_replicas : Z;
  cr_reason : string;
  cr_type : string;
  cr_include : include;
  cr_disaster : option disaster;
}.
#[export] Instance custom_resources_eq_dec : EqDecision custom_resources.
Proof. solve_decision. Defined.

(** [MiddlewareStatus], api/v1/middleware_types.go *)
Record middleware_status := MiddlewareStatus {
  ms_observedGeneration : Z;
  ms_conditions : list condition;
  ms_customResources : custom_resources;
  ms_state : string;
  ms_reason : string;
  ms_rendered : list rendered_resource;
  ms_renderedGeneration : Z;
  ms_reconcilePause : option pause_status;
}.
#[export] Instance middleware_status_eq_dec : EqDecision middleware_status.
Proof. solve_decision. Defined.

(** [PreAction], api/v1/common.go *)
Record pre_action := PreAction { pa_name : string; pa_fixed : bool; pa_exposed : bool; pa_parameters : string }.

(** [Configuration], api/v1/common.go *)
Record configuration_ref := Configuration { cf_name : string; cf_values : string }.

(** [MiddlewareSpec], api/v1/middleware_types.go *)
Record middleware_spec := MiddlewareSpec {
  sp_operatorBaseline : operator_baseline;
  sp_baseline : string;
  sp_necessary : string;
  sp_preActions : list pre_action;
  sp_parameters : string;
  sp_reconcileOverrides : option reconcile_overrides;
  sp_configurations : list configuration_ref;
}.

(** [Middleware], api/v1/middleware_types.go *)
Record middleware := Middleware {
  m_name : string;
  m_namespace : string;
  m_uid : string;
  m_generation : Z;
  m_deletionTimestamp : option Z;
  m_labels : gmap string string;
  m_annotations : gmap string string;
  m_finalizers : list string;
  m_spec : middleware_spec;
  m_status : middleware_status;
}.

Definition set_status (st : middleware_status) (m : middleware) : middleware :=
  Middleware (m_name m) (m_namespace m) (m_uid m) (m_generation m) (m_deletionTimestamp m) (m_labels m)
    (m_annotations m) (m_finalizers m) (m_spec m) st.
Definition set_finalizers (fs : list string) (m : middleware) : middleware :=
  Middleware (m_name m) (m_namespace m) (m_uid m) (m_generation m) (m_deletionTimestamp m) (m_labels m)
    (m_annotations m) fs (m_spec m) (m_status m).
Definition set_annotations (a : gmap string string) (m : middleware) : middleware :=
  Middleware (m_name m) (m_namespace m) (m_uid m) (m_generation m) (m_deletionTimestamp m) (m_labels m)
    a (m_finalizers m) (m_spec m) (m_status m).
Definition set_labels (l : gmap string string) (m : middleware) : middleware :=
  Middleware (m_name m) (m_namespace m) (m_uid m) (m_generation m) (m_deletionTimestamp m) l
    (m_annotations m) (m_finalizers m) (m_spec m) (m_status m).
Definition set_spec (sp : middleware_spec) (m : middleware) : middleware :=
  Middleware (m_name m) (m_namespace m) (m_uid m) (m_generation m) (m_deletionTimestamp m) (m_labels m)
    (m_annotations m) (m_finalizers m) sp (m_status m).
Definition set_overrides (o : option reconcile_overrides) (m : middleware) : middleware :=
  set_spec (MiddlewareSpec (sp_operatorBaseline (m_spec m)) (sp_baseline (m_spec m)) (sp_necessary (m_spec m))
    (sp_preActions (m_spec m)) (sp_parameters (m_spec m)) o (sp_configurations (m_spec m))) m.
Definition set_conditions (cs : list condition) (st : middleware_status) : middleware_status :=
  MiddlewareStatus (ms_observedGeneration st) cs (ms_customResources st) (ms_state st) (ms_reason st)
    (ms_rendered st) (ms_renderedGeneration st) (ms_reconcilePause st).
Definition set_observedGeneration (g : Z) (st : middleware_status) : middleware_status :=
  MiddlewareStatus g (ms_conditions st) (ms_customResources st) (ms_state st) (ms_reason st)
    (ms_rendered st) (ms_renderedGeneration st) (ms_reconcilePause st).
Definition set_pause (p : option pause_status) (st : middleware_status) : middleware_status :=
  MiddlewareStatus (ms_observedGeneration st) (ms_conditions st) (ms_customResources st) (ms_state st)
    (ms_reason st) (ms_rendered st) (ms_renderedGeneration st) p.

(** [types.NamespacedName.String()]. *)
Definition namespaced_name (ns name : string) : string := ns +:+ "/" +:+ name.

(** ** What a Middleware controller calls

    The API server ([Cli*], [ReaderGet], [StatusUpdate]), the package-level
    cache, and the components it drives.  A callee that changes the object it
    is given answers with the changed object. *)
Inductive action := HandleActionPublish | HandleActionUpdate | HandleActionDelete.

(** [PausedPrimaryCustomResourceAdoption], internal/service/middleware/reconcile_adoption.go *)
Record adoption := PausedPrimaryCustomResourceAdoption {
  ad_overrides : option reconcile_overrides;
  ad_liveSpecHash : string;
}.

Inductive mcall : Type → Type :=
  | CliGet (name ns : string) : mcall (result error middleware)
  | ReaderGet (name ns : string) : mcall (result error middleware)
  | CliUpdate (m : middleware) : mcall (option error)
  | StatusUpdate (m : middleware) : mcall (option error)
  | CacheSet (key : string) (m : middleware) : mcall unit
  | CacheGet (key : string) : mcall (option middleware)
  | CheckMiddleware (m : middleware) : mcall (option error * middleware)
  | ReplacePackage (m : middleware) : mcall (option error * middleware)
  | HandleResource (a : action) (m : middleware) : mcall (option error * middleware)
  | ValidatePauseSnapshot (m : middleware) (p : pause_status) : mcall (option error)
  | BuildPauseSnapshot (m : middleware) : mcall (result error pause_status)
  | PublishPauseSnapshot (m : middleware) (p : pause_status)
      (mutate : middleware_status → middleware_status) : mcall (option error)
  | AdoptPausedPrimary (m : middleware) (p : pause_status) : mcall (result error adoption)
  | PausedSpecMatchesAdoption (p : option pause_status) : mcall (result error bool)
  | CleanupPauseSnapshot (m : middleware) (p : option pause_status) : mcall (option error).

Abbreviation mprog := (prog mcall).
Abbreviation mevent := (event mcall).

(** ** Client functions ([internal/k8s/middleware.go])

    [statusAPIReader] tells whether the package's uncached reader is set. *)
Section Client.
Context `{!RetryOnConflict mcall error is_conflict} (statusAPIReader : bool).

(** [GetMiddleware], internal/k8s/middleware.go *)
Definition GetMiddleware (name namespace : string) : mprog (result error middleware) :=
  r ← call (CliGet name namespace);
  match r with
  | Err e => Ret (Err e)
  | Ok m => _ ← call (CacheSet (namespaced_name namespace name) m); Ret (Ok m)
  end.

(** What [UpdateMiddlewareStatus] makes of the caller's status [st] and the
    latest one [now]. *)
(** [UpdateMiddlewareStatus], internal/k8s/middleware.go:134-150 *)
Definition desired_status (st now : middleware_status) : middleware_status :=
  let keep := (ms_renderedGeneration st <? ms_renderedGeneration now)%Z in
  MiddlewareStatus (ms_observedGeneration st) (ms_conditions st) (ms_customResources now) (ms_state st)
    (ms_reason st) (if keep then ms_rendered now else ms_rendered st)
    (if keep then ms_renderedGeneration now else ms_renderedGeneration st) (ms_reconcilePause now).

(** One attempt, once the latest object [now] is read: it raises the caller's
    observed generation, and answers the changed [m] too. *)
(** [UpdateMiddlewareStatus], internal/k8s/middleware.go:132-162 *)
Definition attempt_status_update (m now : middleware) : mprog (option error * middleware) :=
  let st := m_status m in
  let st := if (ms_observedGeneration st <? ms_observedGeneration (m_status now))%Z
            then set_observedGeneration (ms_observedGeneration (m_status now)) st else st in
  let m := set_status st m in
  let desired := desired_status st (m_status now) in
  if decide (m_status now = desired) then Ret (None, m)
  else
    err ← call (StatusUpdate (set_status desired now));
    match err with
    | Some e => Ret (Some (wrap_error "update middleware status error" e), m)
    | None => Ret (None, m)
    end.

(** The loop's state is the attempt number and the caller's [m]. *)
(** [UpdateMiddlewareStatus], internal/k8s/middleware.go *)
Definition UpdateMiddlewareStatus (m : middleware) : mprog (option error * middleware) :=
  r ← retry (0, m) (λ '(attempt, m),
    r ← (if (0 <? attempt) && statusAPIReader
         then call (ReaderGet (m_name m) (m_namespace m))
         else GetMiddleware (m_name m) (m_namespace m));
    match r with
    | Err e => Ret (Some (wrap_error "get middleware error" e), (attempt, m))
    | Ok now => r ← attempt_status_update m now; Ret (r.1, (S attempt, r.2))
    end);
  Ret (r.1, r.2.2).

(** [CompleteMiddlewareReconcileResume], internal/k8s/middleware.go *)
Definition CompleteMiddlewareReconcileResume (name namespace : string) (generation : Z) (snapshotHash : string)
    (expectedPolicy : ReconcileResumePolicy) (overrides : option reconcile_overrides) : mprog (option error) :=
  r ← retry tt (λ _,
    r ← GetMiddleware name namespace;
    match r with
    | Err e => Ret (Some e, tt)
    | Ok now =>
        if decide (m_generation now ≠ generation) then
          Ret (Some (new_error "middleware generation changed during reconcile resume"), tt)
        else if negb (String.eqb snapshotHash "") &&
                match ms_reconcilePause (m_status now) with
                | None => true | Some p => negb (String.eqb (ps_hash p) snapshotHash) end then
          Ret (Some (new_error "middleware reconcile pause snapshot changed during resume"), tt)
        else if decide (ReconcileResumePolicyFor (m_annotations now) ≠ Some expectedPolicy) then
          Ret (Some (new_error "middleware reconcile resume policy changed during resume"), tt)
        else
          let now := set_overrides overrides now in
          let now := set_annotations (delete AnnotationSuspendReconcile (m_annotations now)) now in
          err ← call (CliUpdate now); Ret (err, tt)
    end);
  Ret r.1.

(** [FinalizeMiddlewareReconcileResume], internal/k8s/middleware.go *)
Definition FinalizeMiddlewareReconcileResume (name namespace : string) (snapshotHash : string)
    (expectedPolicy : ReconcileResumePolicy) : mprog (option error) :=
  r ← retry tt (λ _,
    r ← GetMiddleware name namespace;
    match r with
    | Err e => Ret (Some e, tt)
    | Ok now =>
        if negb (String.eqb snapshotHash "") &&
           match ms_reconcilePause (m_status now) with
           | None => true | Some p => negb (String.eqb (ps_hash p) snapshotHash) end then
          Ret (Some (new_error "middleware reconcile pause snapshot changed before resume finalization"), tt)
        else match ReconcileResumePolicyFor (m_annotations now) with
        | None => Ret (Some (new_error "middleware reconcile resume policy missing before finalization"), tt)
        | Some policy =>
            if decide (policy ≠ expectedPolicy) then
              Ret (Some (new_error "middleware reconcile resume policy changed before finalization"), tt)
            else
              let now := set_annotations (delete AnnotationResumePolicy (m_annotations now)) now in
              err ← call (CliUpdate now); Ret (err, tt)
        end
    end);
  Ret r.1.

(** The object to be written: the latest one with the caller's specification,
    labels and annotations. *)
Definition updated (m now : middleware) : middleware :=
  set_spec (m_spec m) (set_labels (m_labels m) (set_annotations (m_annotations m) now)).

(** [UpdateMiddleware], internal/k8s/middleware.go *)
Definition UpdateMiddleware (m : middleware) : mprog (option error) :=
  r ← retry tt (λ _,
    r ← GetMiddleware (m_name m) (m_namespace m);
    match r with
    | Err e => Ret (Some e, tt)
    | Ok now => err ← call (CliUpdate (updated m now)); Ret (err, tt)
    end);
  Ret r.1.

(** [mutate] may keep a captured variable, the [X] it returns beside the new
    status: the answer carries its value after the last run. *)
(** [PatchMiddlewareStatusFields], internal/k8s/middleware.go *)
Definition PatchMiddlewareStatusFields {X} (name namespace : string) (x0 : X)
    (mutate : middleware_status → middleware_status * X) : mprog (option error * X) :=
  r ← retry (0, x0) (λ '(attempt, x),
    r ← (if (0 <? attempt) && statusAPIReader
         then call (ReaderGet name namespace) else call (CliGet name namespace));
    match r with
    | Err e => Ret (Some e, (attempt, x))
    | Ok now =>
        let attempt := S attempt in
        let before := m_status now in
        let '(st, x) := mutate (m_status now) in
        if decide (before = st) then Ret (None, (attempt, x))
        else err ← call (StatusUpdate (set_status st now)); Ret (err, (attempt, x))
    end);
  Ret (r.1, r.2.2).
End Client.

(** ** Delete contexts ([internal/service/middleware/delete_context.go]) *)

(** [hardRequirementsMet], internal/service/middleware/delete_context.go *)
Definition hardRequirementsMet (m : middleware) : bool * list string :=
  let missing := if String.eqb ((m_labels m).[LabelPackageName]) "" then ["packageName"] else [] in
  let missing := if String.eqb (sp_baseline (m_spec m)) "" then missing ++ ["baseline"] else missing in
  let operatorName := ob_name (sp_operatorBaseline (m_spec m)) in
  let operatorGVKName := ob_gvkName (sp_operatorBaseline (m_spec m)) in
  let missing :=
    if String.eqb operatorName "" && String.eqb operatorGVKName "" then missing
    else if negb (String.eqb operatorName "") && negb (String.eqb operatorGVKName "") then missing
    else
      let missing := if String.eqb operatorName "" then missing ++ ["operatorBaseline.Name"] else missing in
      if String.eqb operatorGVKName "" then missing ++ ["operatorBaseline.GvkName"] else missing in
  (bool_decide (length missing = 0), missing).

(** [middlewareConditionIsTrue], internal/service/middleware/delete_context.go *)
Fixpoint condition_is_true (conditions : list condition) (conditionType : string) : bool :=
  match conditions with
  | [] => false
  | c :: cs => if decide (c_type c = conditionType) then bool_decide (c_status c = ConditionTrue)
               else condition_is_true cs conditionType
  end.

(** [CanSkipDeleteCleanup], internal/service/middleware/delete_context.go *)
Definition CanSkipDeleteCleanup (m : option middleware) : bool :=
  match m with
  | None => true
  | Some m => negb (condition_is_true (ms_conditions (m_status m)) CondTypeBuildExtraResource) &&
              negb (condition_is_true (ms_conditions (m_status m)) CondTypeApplyCluster)
  end.

(** [ShouldUseLegacyDeleteFallback], internal/service/middleware/delete_context.go *)
Definition ShouldUseLegacyDeleteFallback (m : middleware) : bool * string :=
  let '(ok, missing) := hardRequirementsMet m in
  if ok then (false, "") else (true, "missing hard requirements: " +:+ String.concat ", " missing).

Definition fill (current cached : string) : string :=
  if String.eqb current "" && negb (String.eqb cached "") then cached else current.

(** The back-filling of the missing fields from the cached object. *)
(** [ResolveDeleteContext], internal/service/middleware/delete_context.go:133-147 *)
Definition backfill (cp cachedM : middleware) : middleware :=
  let cp :=
    if String.eqb ((m_labels cp).[LabelPackageName]) "" && negb (String.eqb ((m_labels cachedM).[LabelPackageName]) "")
    then set_labels (<[LabelPackageName := (m_labels cachedM).[LabelPackageName]]> (m_labels cp)) cp else cp in
  let sp := m_spec cp in let ca := m_spec cachedM in
  set_spec (MiddlewareSpec
    (OperatorBaseline (fill (ob_name (sp_operatorBaseline sp)) (ob_name (sp_operatorBaseline ca)))
                      (fill (ob_gvkName (sp_operatorBaseline sp)) (ob_gvkName (sp_operatorBaseline ca))))
    (fill (sp_baseline sp) (sp_baseline ca))
    (sp_necessary sp) (sp_preActions sp) (sp_parameters sp) (sp_reconcileOverrides sp) (sp_configurations sp)) cp.

(** [ResolveDeleteContext], internal/service/middleware/delete_context.go *)
Definition ResolveDeleteContext (m : middleware) : mprog (option middleware * bool * string * option error) :=
  if (hardRequirementsMet m).1 then
    Ret (Some m, false, "all hard requirements already present", None)
  else
    let '(needFallback, reason) := ShouldUseLegacyDeleteFallback m in
    if negb needFallback then Ret (Some m, false, "", None) else
    let cacheKey := namespaced_name (m_namespace m) (m_name m) in
    cached ← call (CacheGet cacheKey);
    match cached with
    | None => Ret (None, true, reason, Some (new_error ("delete context: cache miss for " +:+ cacheKey)))
    | Some cachedM =>
        let cp := backfill m cachedM in
        let '(met, stillMissing) := hardRequirementsMet cp in
        if met then Ret (Some cp, true, reason, None)
        else Ret (None, true, reason,
               Some (new_error ("delete context: hard requirements still unmet after cache fallback for " +:+ cacheKey)))
    end.

(** ** What a run did *)

(** The Middleware an event read from the API server. *)
Definition read_of (e : mevent) : option middleware :=
  match e with Ev c r =>
    match c in mcall R return R → option middleware with
    | CliGet _ _ | ReaderGet _ _ => λ r, match r with Ok m => Some m | Err _ => None end
    | _ => λ _, None
    end r
  end.

(** The object an event tried to write, with and without the status. *)
Definition status_write_of (e : mevent) : option middleware :=
  match e with Ev c _ => match c with StatusUpdate m => Some m | _ => None end end.
Definition write_of (e : mevent) : option middleware :=
  match e with Ev c _ => match c with CliUpdate m => Some m | _ => None end end.

Definition last_read (tr : list mevent) : option middleware :=
  foldl (λ last e, match read_of e with Some m => Some m | None => last end) None tr.
Definition first_read (tr : list mevent) : option middleware := head (omap read_of tr).

Lemma last_read_snoc tr e :
  last_read (tr ++ [e]) = match read_of e with Some m => Some m | None => last_read tr end.
Proof. unfold last_read. by rewrite foldl_app. Qed.

Lemma first_read_app tr tr' m : first_read tr = Some m → first_read (tr ++ tr') = Some m.
Proof.
  unfold first_read. rewrite omap_app. by destruct (omap read_of tr).
Qed.

(** The events of the client functions. *)
Definition client_event (_ : list mevent) (e : mevent) : Prop :=
  match e with Ev c _ =>
    match c with CliGet _ _ | ReaderGet _ _ | CliUpdate _ | StatusUpdate _ | CacheSet _ _ => True | _ => False end
  end.

Ltac only_step :=
  match goal with
  | |- only _ (Ret _) => apply only_ret
  | |- only _ (call _) => apply only_call; intros; exact I
  | |- only _ (retry _ _) => apply only_retry; intros
  | |- only _ (match ?x with _ => _ end) => destruct x
  | |- only _ (_ ≫= _) => apply only_bind; [|intros]
  end.

Section ClientEvents.
Context `{!RetryOnConflict mcall error is_conflict} (reader : bool).

Lemma GetMiddleware_only name ns : only client_event (GetMiddleware name ns).
Proof. unfold GetMiddleware. repeat only_step. Qed.

(** Reading and going on from what was read. *)
Lemma holds_get {A} name ns (f : result error middleware → mprog A) (P : list mevent → mevent → Prop) Q tr :
  (∀ l e, write_of e = None → status_write_of e = None → P l e) → each P tr →
  (∀ tr' now, tr `prefix_of` tr' → each P tr' → last_read tr' = Some now → holds (f (Ok now)) tr' Q) →
  (∀ tr' e, tr `prefix_of` tr' → each P tr' → holds (f (Err e)) tr' Q) →
  holds (GetMiddleware name ns ≫= f) tr Q.
Proof.
  intros HP Htr Hok Herr. simpl. intros [now|e]; simpl; [intros u|].
  - apply Hok; [eexists; by rewrite <- app_assoc|by repeat (apply each_snoc; split; [|by apply HP])|].
    by rewrite !last_read_snoc.
  - apply Herr; [by eexists|]. apply each_snoc. split; [done|by apply HP].
Qed.

(** A write, if any, that leaves the finalizers of the object read last. *)
Definition keeps_finalizers (l : list mevent) (e : mevent) : Prop :=
  ∀ m', write_of e = Some m' → ∃ now, last_read l = Some now ∧ m_finalizers m' = m_finalizers now.

Lemma no_write_keeps l e : write_of e = None → keeps_finalizers l e.
Proof. intros He m' Hm'. congruence. Qed.

Lemma Complete_keeps name ns g h p o : only keeps_finalizers (CompleteMiddlewareReconcileResume name ns g h p o).
Proof.
  intros P tr HK Htr. unfold CompleteMiddlewareReconcileResume. apply holds_bind.
  apply (retry_holds _ _ _ (λ _ tr, each P tr)); [|done]. intros _ tr1 Htr1.
  apply (holds_get _ _ _ P); [auto using no_write_keeps|done| |by intros; simpl].
  intros tr2 now _ Htr2 Hlast. case_decide; [done|]. destruct (negb _ && _); [done|]. case_decide; [done|].
  simpl. intros err. set (tr3 := tr2 ++ _). assert (each P tr3); [|by destruct err].
  apply each_snoc. split; [done|]. apply HK. intros m' [= <-]. by exists now.
Qed.

Lemma Finalize_keeps name ns h p : only keeps_finalizers (FinalizeMiddlewareReconcileResume name ns h p).
Proof.
  intros P tr HK Htr. unfold FinalizeMiddlewareReconcileResume. apply holds_bind.
  apply (retry_holds _ _ _ (λ _ tr, each P tr)); [|done]. intros _ tr1 Htr1.
  apply (holds_get _ _ _ P); [auto using no_write_keeps|done| |by intros; simpl].
  intros tr2 now _ Htr2 Hlast. destruct (negb _ && _); [done|].
  destruct (ReconcileResumePolicyFor _); [|done]. case_decide; [done|].
  simpl. intros err. set (tr3 := tr2 ++ _). assert (each P tr3); [|by destruct err].
  apply each_snoc. split; [done|]. apply HK. intros m' [= <-]. by exists now.
Qed.

Lemma UpdateMiddlewareStatus_only m : only client_event (UpdateMiddlewareStatus reader m).
Proof. unfold UpdateMiddlewareStatus, attempt_status_update. repeat (apply GetMiddleware_only || only_step). Qed.

(** What a status update makes of the caller's object. *)
Definition raised (m m' : middleware) : Prop := ∃ g, m' = set_status (set_observedGeneration g (m_status m)) m.

Lemma UpdateMiddlewareStatus_caller m tr : holds (UpdateMiddlewareStatus reader m) tr (λ _ r, raised m r.2).
Proof.
  unfold UpdateMiddlewareStatus. apply holds_bind.
  apply (retry_holds _ _ _ (λ (s : nat * middleware) _, raised m s.2)); [|exists (ms_observedGeneration (m_status m)); by destruct m as [???????? ? []]].
  intros [attempt m1] k [g Hm1]. simpl in Hm1. subst m1. apply holds_bind.
  eapply holds_mono; [apply holds_true|]. intros k1 [latest|e] _; [|by simpl; split; [exists g|exists g]].
  apply holds_bind. unfold attempt_status_update. cbv zeta.
  match goal with |- context [desired_status ?x _] => set (st := x) end.
  assert (Hst : raised m (set_status st (set_status (set_observedGeneration g (m_status m)) m))).
  { subst st. destruct (_ <? _)%Z; eexists; by destruct m as [???????? ? []]. }
  case_decide as Hd; [by simpl|]. simpl. intros [e|]; by simpl.
Qed.

Lemma Complete_only name ns g h p o : only client_event (CompleteMiddlewareReconcileResume name ns g h p o).
Proof. unfold CompleteMiddlewareReconcileResume. repeat (apply GetMiddleware_only || only_step). Qed.

Lemma Finalize_only name ns h p : only client_event (FinalizeMiddlewareReconcileResume name ns h p).
Proof. unfold FinalizeMiddlewareReconcileResume. repeat (apply GetMiddleware_only || only_step). Qed.

Lemma Patch_only {X} name ns (x : X) f : only client_event (PatchMiddlewareStatusFields reader name ns x f).
Proof. unfold PatchMiddlewareStatusFields. repeat (apply GetMiddleware_only || only_step). Qed.
End ClientEvents.

(** ** Properties *)

Section Properties.
Context `{!RetryOnConflict mcall error is_conflict} (reader : bool).
Context {W : Type} (h : handler mcall W) (w : W).

(** The highest generation observed by the caller and by what was read so far. *)
Definition highest_observed (st : middleware_status) (l : list mevent) : Z :=
  foldl (λ g now, Z.max g (ms_observedGeneration (m_status now))) (ms_observedGeneration st) (omap read_of l).

(** What the status [st] of the caller becomes over the one read last: the
    fields of other writers are theirs, the inventory is the newer one, and the
    generation the highest. *)
Definition reports (st : middleware_status) (l : list mevent) (now : middleware) (st' : middleware_status) : Prop :=
  ms_customResources st' = ms_customResources (m_status now) ∧
  ms_reconcilePause st' = ms_reconcilePause (m_status now) ∧
  ms_observedGeneration st' = highest_observed st l ∧
  ((ms_renderedGeneration st < ms_renderedGeneration (m_status now))%Z →
     ms_rendered st' = ms_rendered (m_status now) ∧ ms_renderedGeneration st' = ms_renderedGeneration (m_status now)) ∧
  ((ms_renderedGeneration (m_status now) ≤ ms_renderedGeneration st)%Z →
     ms_rendered st' = ms_rendered st ∧ ms_renderedGeneration st' = ms_renderedGeneration st) ∧
  ms_conditions st' = ms_conditions st ∧ ms_state st' = ms_state st ∧ ms_reason st' = ms_reason st.

(** A status write that respects the other writers of the status. *)
Definition respectful (st : middleware_status) (l : list mevent) (e : mevent) : Prop :=
  write_of e = None ∧ ∀ m', status_write_of e = Some m' → ∃ now st', last_read l = Some now ∧
    m' = set_status st' now ∧ reports st l now st'.

(** A success: the status was written, or the object read last has it. *)
Definition reported (st : middleware_status) (tr : list mevent) (r : option error) : Prop :=
  r = None → ∃ now st', last_read tr = Some now ∧ reports st tr now st' ∧
    (m_status now = st' ∨ Ev (StatusUpdate (set_status st' now)) None ∈ tr).

(** The caller's object on an attempt: as it was given, with the highest
    generation observed. *)
Definition raised_to (m : middleware) (l : list mevent) (m' : middleware) : Prop :=
  m' = set_status (set_observedGeneration (highest_observed (m_status m) l) (m_status m)) m.

Lemma highest_snoc st l e :
  highest_observed st (l ++ [e]) =
  match read_of e with Some now => Z.max (highest_observed st l) (ms_observedGeneration (m_status now)) | None => highest_observed st l end.
Proof. unfold highest_observed. rewrite omap_app, foldl_app. simpl. by destruct (read_of e). Qed.

Lemma respectful_quiet st tr e :
  each (respectful st) tr → status_write_of e = None → write_of e = None → each (respectful st) (tr ++ [e]).
Proof. intros ? He ?. apply each_snoc. split; [done|]. split; [done|]. intros ? He'. congruence. Qed.

(** An attempt over what was just read. *)
Lemma attempt_respectful m m0 now tr :
  each (respectful (m_status m)) tr → last_read tr = Some now →
  highest_observed (m_status m) tr = Z.max (ms_observedGeneration (m_status m0)) (ms_observedGeneration (m_status now)) →
  (∃ l, raised_to m l m0) →
  holds (attempt_status_update m0 now) tr
    (λ tr r, each (respectful (m_status m)) tr ∧ raised_to m tr r.2 ∧ reported (m_status m) tr r.1).
Proof.
  intros Htr Hlast Hhigh [l Hm0]. unfold attempt_status_update. cbv zeta.
  match goal with |- context [desired_status ?x _] => set (st := x) end.
  assert (Hst : st = set_observedGeneration (highest_observed (m_status m) tr) (m_status m)).
  { unfold st. rewrite Hhigh. unfold raised_to in Hm0. rewrite Hm0. clear. generalize (highest_observed (m_status m) l) as g. intros g.
    destruct m as [???????? ? []]. simpl. destruct (Z.ltb_spec g (ms_observedGeneration (m_status now))); unfold set_observedGeneration; simpl; f_equal; lia. }
  assert (Hrep : reports (m_status m) tr now (desired_status st (m_status now))).
  { rewrite Hst. destruct (m_status m). unfold reports, desired_status. simpl.
    destruct (Z.ltb_spec ms_renderedGeneration0 (ms_renderedGeneration (m_status now))); split_and!; try done; lia. }
  assert (Hraised : ∀ tr', highest_observed (m_status m) tr' = highest_observed (m_status m) tr → raised_to m tr' (set_status st m0)).
  { intros tr' Heq. unfold raised_to. rewrite Heq, Hst, Hm0. by destruct m as [???????? ? []]. }
  case_decide as Hd; simpl.
  - split_and!; [done|by apply Hraised|]. intros _. exists now, (desired_status st (m_status now)). auto.
  - intros err. set (e := Ev (StatusUpdate _) err).
    assert (Hall : each (respectful (m_status m)) (tr ++ [e])).
    { apply each_snoc. split; [done|]. split; [done|]. intros m' [= <-]. by exists now, (desired_status st (m_status now)). }
    assert (Hhigh' : highest_observed (m_status m) (tr ++ [e]) = highest_observed (m_status m) tr) by by rewrite highest_snoc.
    destruct err as [err|]; simpl; (split_and!; [done|by apply Hraised|]); [done|].
    intros _. exists now, (desired_status st (m_status now)). rewrite last_read_snoc. split_and!; [done| |].
    + unfold reports. by rewrite Hhigh'.
    + right. apply elem_of_app. right. by left.
Qed.

(** C9: Every status write of [UpdateMiddlewareStatus], on whatever attempt and
    whatever other writers did in between, is the object read last with another
    status: the runtime's [CustomResources] and the pause snapshot are those of
    the object read, and so is its inventory if it is of a newer generation than
    the caller's; the observed generation is the highest of the caller's and
    those read; the rest is the caller's.  When it answers no error that status
    was written, or the object read last had it. *)
Theorem status_update_preserves m :
  let '((err, _), tr) := run h (UpdateMiddlewareStatus reader m) w in
  each (respectful (m_status m)) tr ∧ reported (m_status m) tr err.
Proof.
  assert (Hh : holds (UpdateMiddlewareStatus reader m) []
    (λ tr r, let '(err, _) := r in each (respectful (m_status m)) tr ∧ reported (m_status m) tr err)).
  2:{ apply (holds_run_pair h _ w) in Hh. by destruct (run h _ w) as [[err m'] tr]. }
  unfold UpdateMiddlewareStatus. apply holds_bind.
  apply (retry_holds _ _ _ (λ s tr, each (respectful (m_status m)) tr ∧ raised_to m tr s.2));
    [|split; [apply each_nil|by destruct m as [???????? ? []]]].
  intros [attempt m0] tr [Htr Hm0]. simpl in Hm0. apply holds_bind.
  assert (Hbody : ∀ tr' now, each (respectful (m_status m)) tr' → last_read tr' = Some now →
    highest_observed (m_status m) tr' = Z.max (highest_observed (m_status m) tr) (ms_observedGeneration (m_status now)) →
    holds (r ← attempt_status_update m0 now; Ret (r.1, (S attempt, r.2))) tr'
      (λ tr'' (r : option error * (nat * middleware)), (each (respectful (m_status m)) tr'' ∧ reported (m_status m) tr'' r.1) ∧
       match r.1 with
       | Some e => is_conflict e = true → each (respectful (m_status m)) tr'' ∧ raised_to m tr'' r.2.2
       | None => True end)).
  { intros tr' now Htr' Hlast Hhigh. apply holds_bind. eapply holds_mono.
    - apply (attempt_respectful m m0 now tr'); [done|done| |by exists tr].
      rewrite Hhigh, Hm0. by destruct m as [???????? ? []].
    - intros tr'' [[e|] m'] (? & ? & ?); simpl; auto. }
  destruct ((0 <? attempt) && reader); simpl; intros [now|e]; simpl; intros;
    try (apply Hbody; rewrite ?last_read_snoc, ?highest_snoc; by repeat apply respectful_quiet).
  all: split; [split; [by apply respectful_quiet|done]|]; intros _; (split; [by apply respectful_quiet|]).
  all: unfold raised_to; rewrite highest_snoc; exact Hm0.
Qed.

(** A write that completes a resume: based on the last read, which is still of
    the generation and pause session the caller decided on and still carries
    the policy; only the overrides and the pause annotation change. *)
Definition completes (generation : Z) (hash : string) (policy : ReconcileResumePolicy)
    (overrides : option reconcile_overrides) (l : list mevent) (e : mevent) : Prop :=
  status_write_of e = None ∧ ∀ m', write_of e = Some m' → ∃ now, last_read l = Some now ∧
    m_generation now = generation ∧
    (hash ≠ "" → ∃ p, ms_reconcilePause (m_status now) = Some p ∧ ps_hash p = hash) ∧
    ReconcileResumePolicyFor (m_annotations now) = Some policy ∧
    m' = set_annotations (delete AnnotationSuspendReconcile (m_annotations now)) (set_overrides overrides now).

Lemma hash_guard hash (st : middleware_status) :
  negb (String.eqb hash "") &&
    match ms_reconcilePause st with None => true | Some p => negb (String.eqb (ps_hash p) hash) end = false →
  hash ≠ "" → ∃ p, ms_reconcilePause st = Some p ∧ ps_hash p = hash.
Proof.
  intros [Hh|Hp]%andb_false_iff Hne.
  - by apply negb_false_iff, String.eqb_eq in Hh.
  - destruct (ms_reconcilePause st) as [p|]; [|done]. exists p. split; [done|].
    by apply negb_false_iff, String.eqb_eq in Hp.
Qed.

(** Completing a resume never touches another session: each write of
    [CompleteMiddlewareReconcileResume] starts from the object read last, only
    if its generation, its pause snapshot and its policy are still the ones
    the decision was made on, stores the overrides and removes the pause
    annotation and nothing else; and no error is returned only after such a
    write was accepted. *)
Theorem complete_resume_guarded name ns generation hash policy overrides :
  let '(err, tr) := run h (CompleteMiddlewareReconcileResume name ns generation hash policy overrides) w in
  each (completes generation hash policy overrides) tr ∧
  (err = None → ∃ l m', tr = l ++ [Ev (CliUpdate m') None]).
Proof.
  set (P := completes generation hash policy overrides).
  apply (holds_run_pair h _ w (λ tr err, each P tr ∧ (err = None → ∃ l m', tr = l ++ [Ev (CliUpdate m') None]))).
  unfold CompleteMiddlewareReconcileResume. apply holds_bind.
  apply (retry_holds _ _ _ (λ _ tr, each P tr)); [|apply each_nil]. intros _ tr Htr.
  apply (holds_get _ _ _ P); [intros l e ? ?; split; [done|]; intros; congruence|done| |by intros; simpl].
  intros tr' now _ Htr' Hlast.
  case_decide; [done|]. destruct (negb _ && _) eqn:Eh; [done|]. case_decide; [done|]. simpl.
  intros err. assert (each P (tr' ++ [Ev (CliUpdate (set_annotations
    (delete AnnotationSuspendReconcile (m_annotations now)) (set_overrides overrides now))) err])).
  { apply each_snoc. split; [done|]. split; [done|]. intros m' [= <-]. exists now.
    split_and!; [done|done|by apply hash_guard|done|done]. }
  split; [split; [done|]|by destruct err]. simpl. intros ->. by eexists _, _.
Qed.

(** A copy that differs from [m] only in deletion fields that [m] leaves empty. *)
Definition completed (m cp : middleware) : Prop :=
  cp = set_spec (m_spec cp) (set_labels (m_labels cp) m) ∧
  (∀ k, m_labels m !! k ≠ m_labels cp !! k → k = LabelPackageName ∧ (m_labels m).[k] = "") ∧
  sp_reconcileOverrides (m_spec cp) = sp_reconcileOverrides (m_spec m) ∧
  (sp_baseline (m_spec m) ≠ "" → sp_baseline (m_spec cp) = sp_baseline (m_spec m)) ∧
  (ob_name (sp_operatorBaseline (m_spec m)) ≠ "" →
     ob_name (sp_operatorBaseline (m_spec cp)) = ob_name (sp_operatorBaseline (m_spec m))) ∧
  (ob_gvkName (sp_operatorBaseline (m_spec m)) ≠ "" →
     ob_gvkName (sp_operatorBaseline (m_spec cp)) = ob_gvkName (sp_operatorBaseline (m_spec m))).

Lemma fill_kept a b : a ≠ "" → fill a b = a.
Proof. intros ?. unfold fill. by destruct (String.eqb_spec a ""). Qed.

Lemma completed_refl m : completed m m.
Proof. destruct m; split_and!; naive_solver. Qed.

Lemma completed_backfill m c : completed m (backfill m c).
Proof.
  unfold backfill. destruct (String.eqb_spec ((m_labels m).[LabelPackageName]) "") as [He|]; simpl;
    [destruct (String.eqb_spec ((m_labels c).[LabelPackageName]) ""); simpl|];
    destruct m; (split; [done|]; split; [|split; [done|]; split_and!; intros; simpl; by apply fill_kept]); simpl in *.
  1, 3: naive_solver.
  intros k Hk. destruct (decide (k = LabelPackageName)) as [->|]; [done|]. by rewrite lookup_insert_ne in Hk.
Qed.

Opaque hardRequirementsMet backfill.

(** Resolving a delete context succeeds exactly with an object that has
    what deletion needs, obtained from the live one by filling only fields it
    leaves empty, and fails otherwise; a live object that has everything is
    used as it is, without the cache; nothing is ever written. *)
Theorem delete_context_resolved m :
  let '((res, legacy, _, err), tr) := run h (ResolveDeleteContext m) w in
  match res with
  | Some cp => err = None ∧ (hardRequirementsMet cp).1 = true ∧ completed m cp ∧
               (legacy = false → cp = m ∧ tr = [])
  | None => is_Some err ∧ legacy = true ∧ (hardRequirementsMet m).1 = false
  end ∧ Forall (λ e, write_of e = None ∧ status_write_of e = None) tr.
Proof.
  unfold ResolveDeleteContext. destruct ((hardRequirementsMet m).1) eqn:Em.
  { simpl. split_and!; try done. apply completed_refl. }
  unfold ShouldUseLegacyDeleteFallback. destruct (hardRequirementsMet m) as [ok missing]. simpl in Em. subst ok.
  simpl. destruct (h _ _ w) as [[cachedM|] w']; simpl; [|split_and!; [by eexists|done..|repeat constructor]].
  destruct (hardRequirementsMet (backfill m cachedM)) as [[] still] eqn:Eb; simpl.
  - rewrite Eb. split; [|repeat constructor]. split_and!; try done. apply completed_backfill.
  - split; [|repeat constructor]. split_and!; try done.
Qed.
Transparent hardRequirementsMet backfill.
End Properties.
