(* ===== verification/MiddlewareController.v ===== *)
(** * The Middleware controller

    [internal/controller/middleware_controller.go] and the pause state machine
    of [internal/controller/middleware_reconcile_adoption.go], as programs over
    the calls of [Middleware].  Logging and Kubernetes events are left out; the
    clock is read once per reconciliation, as [now]. *)
From stdpp Require Import base gmap strings list option.
From Stdlib Require Import ZArith Lia.
From S2P Require Import Prelude Labels Conditions Prog Middleware.

(** [ctrl.Result]: requeue at once, and after a delay in seconds. *)
Record ctrl_result := CtrlResult { cr_requeue : bool; cr_requeueAfter : Z }.
#[export] Instance ctrl_result_eq_dec : EqDecision ctrl_result.
Proof. solve_decision. Defined.
Definition done_result : ctrl_result := CtrlResult false 0.
Definition requeue_now : ctrl_result := CtrlResult true 0.

(** ** Pure helpers *)

(** [currentFalseCondition], internal/controller/middleware_controller.go *)
Fixpoint currentFalseCondition (conditions : list condition) (generation : Z) : option condition :=
  match conditions with
  | [] => None
  | c :: cs =>
      if decide (c_status c ≠ ConditionFalse) then currentFalseCondition cs generation
      else if (c_observedGeneration c <? generation)%Z then currentFalseCondition cs generation
      else Some c
  end.

(** [reconcileAdoptionSucceeded], internal/controller/middleware_reconcile_adoption.go *)
Definition reconcileAdoptionSucceeded (conditions : list condition) : bool :=
  existsb (λ c, bool_decide (c_type c = CondTypeReconcileAdoption) &&
                bool_decide (c_status c = ConditionTrue) &&
                bool_decide (c_reason c = CondReasonReconcileAdoptionSucceeded)) conditions.

(** [snapshotHash], internal/controller/middleware_reconcile_adoption.go *)
Definition snapshotHash (m : middleware) : string :=
  match ms_reconcilePause (m_status m) with None => "" | Some p => ps_hash p end.

(** The removal of a stale Updating condition. *)
(** [Reconcile], internal/controller/middleware_controller.go:219-236 *)
Definition drop_stale_updating (annotations : gmap string string) (conditions : list condition) : list condition :=
  match annotations !! LabelUpdate with
  | Some _ => conditions
  | None =>
      if existsb (λ c, negb (bool_decide (c_type c = CondTypeUpdating)) &&
                       negb (bool_decide (c_status c = ConditionTrue))) conditions
      then conditions
      else filter (λ c, c_type c ≠ CondTypeUpdating) conditions
  end.

(** The status the deferred function computes from the final object, result
    and error. *)
(** [Reconcile], internal/controller/middleware_controller.go:209-268 *)
Definition converge_status (m : middleware) (result : ctrl_result) (retErr : option error) : middleware_status :=
  let st := m_status m in
  let conditions := drop_stale_updating (m_annotations m) (ms_conditions st) in
  let '(state, reason) :=
    match currentFalseCondition conditions (m_generation m) with
    | Some c => (StateUnavailable, c_message c)
    | None => (StateAvailable, "")
    end in
  let '(state, reason) :=
    match retErr with
    | Some e => if decide (state = StateAvailable) then (StateUnavailable, e_msg e) else (state, reason)
    | None => (state, reason)
    end in
  let '(state, reason) :=
    match m_annotations m !! LabelUpdate with
    | Some _ => if decide (state = StateAvailable) then (StateUpdating, "") else (state, reason)
    | None => (state, reason)
    end in
  let observed :=
    if bool_decide (retErr = None) && negb (cr_requeue result) && (cr_requeueAfter result =? 0)%Z &&
       (ms_observedGeneration st <? m_generation m)%Z
    then m_generation m else ms_observedGeneration st in
  MiddlewareStatus observed conditions (ms_customResources st) state reason (ms_rendered st)
    (ms_renderedGeneration st) (ms_reconcilePause st).

(** ** The pause state machine ([middleware_reconcile_adoption.go]) *)

Section Controller.
Context `{!MetaConditions, !ControllerUtil, !RetryOnConflict mcall error is_conflict}.
Context (statusAPIReader : bool) (now : Z).

(** The condition updates used in mutations; they never use a nil pointer
    ([Conditions.mark_spec]). *)
Definition mark_paused (generation : Z) (cs : list condition) : list condition :=
  default cs (fst <$> markReconcilePaused now cs generation).
Definition set_adoption (status reason message : string) (generation : Z) (cs : list condition) : list condition :=
  default cs (fst <$> setReconcileAdoptionCondition now cs status reason message generation).

(** [patchMiddlewarePauseStatus], internal/controller/middleware_reconcile_adoption.go *)
Definition patchMiddlewarePauseStatus (m : middleware) (mutate : middleware_status → middleware_status) :
    mprog (option error) :=
  r ← PatchMiddlewareStatusFields statusAPIReader (m_name m) (m_namespace m) tt (λ st, (mutate st, tt));
  Ret r.1.

(** [recordMiddlewarePauseFailure], internal/controller/middleware_reconcile_adoption.go *)
Definition recordMiddlewarePauseFailure (m : middleware) (reason message : string) : mprog (option error) :=
  patchMiddlewarePauseStatus m (λ st,
    set_conditions (set_adoption ConditionFalse reason message (m_generation m)
                      (mark_paused (m_generation m) (ms_conditions st))) st).

Definition mark_pause_status (m : middleware) (st : middleware_status) : middleware_status :=
  set_conditions (clearReconcileAdoptionCondition (mark_paused (m_generation m) (ms_conditions st))).1 st.

(** The pair (result, error) of a handled pass; [handled] itself is the [Some]
    of [handleMiddlewareReconcilePause]. *)
(** [captureMiddlewarePause], internal/controller/middleware_reconcile_adoption.go *)
Definition captureMiddlewarePause (m : middleware) : mprog (ctrl_result * option error) :=
  match ms_reconcilePause (m_status m) with
  | Some p =>
      err ← call (ValidatePauseSnapshot m p);
      match err with
      | Some e => err ← recordMiddlewarePauseFailure m CondReasonReconcileSnapshotFailed (e_msg e);
                  Ret (done_result, err)
      | None => err ← patchMiddlewarePauseStatus m (mark_pause_status m); Ret (done_result, err)
      end
  | None =>
      r ← call (BuildPauseSnapshot m);
      match r with
      | Err e => err ← recordMiddlewarePauseFailure m CondReasonReconcileSnapshotFailed
                         ("capture reconcile pause snapshot: " +:+ e_msg e);
                 Ret (done_result, err)
      | Ok snapshot =>
          err ← call (PublishPauseSnapshot m snapshot (mark_pause_status m)); Ret (done_result, err)
      end
  end.

(** [mergePausedMiddleware], internal/controller/middleware_reconcile_adoption.go *)
Definition mergePausedMiddleware (m : middleware) : mprog (ctrl_result * option error) :=
  match ms_reconcilePause (m_status m) with
  | None =>
      err ← recordMiddlewarePauseFailure m CondReasonReconcileSnapshotFailed
        "cannot merge a paused Middleware without an actual-spec snapshot; use resume-policy=apply to replay desired state";
      Ret (done_result, err)
  | Some snapshot =>
      r ← call (AdoptPausedPrimary m snapshot);
      match r with
      | Err e => err ← recordMiddlewarePauseFailure m CondReasonReconcileAdoptionFailed
                         ("adopt actual primary custom resource changes: " +:+ e_msg e);
                 Ret (done_result, err)
      | Ok adoption =>
          err ← CompleteMiddlewareReconcileResume (m_name m) (m_namespace m) (m_generation m) (ps_hash snapshot)
                  ResumeMerge (ad_overrides adoption);
          match err with
          | Some e => Ret (done_result, Some e)
          | None =>
              err ← patchMiddlewarePauseStatus m (λ st,
                let st := match ms_reconcilePause st with
                  | Some p => if decide (ps_hash p = ps_hash snapshot)
                      then set_pause (Some (ReconcilePauseStatus (ps_snapshotSecret p) (ps_gvk p) (ps_namespace p)
                             (ps_name p) (ps_resourceUID p) (ps_generation p) (ps_hash p) (ps_capturedAt p)
                             (ad_liveSpecHash adoption))) st
                      else st
                  | None => st end in
                set_conditions (set_adoption ConditionTrue CondReasonReconcileAdoptionSucceeded
                  "actual primary custom resource spec changes were adopted into reconcileOverrides"
                  (m_generation m) (ms_conditions st)) st);
              match err with
              | Some e => Ret (done_result, Some e)
              | None => Ret (requeue_now, None)
              end
          end
      end
  end.

(** [reconcileResumeRequiredMessage], internal/controller/middleware_reconcile_adoption.go *)
Definition reconcileResumeRequiredMessage : string :=
  "set middleware.cn/resume-policy=merge to adopt actual CR changes or apply to replay desired state".

Definition handled (p : mprog (ctrl_result * option error)) : mprog (option (ctrl_result * option error)) :=
  r ← p; Ret (Some r).

(** [None]: not handled, normal reconciliation proceeds. *)
(** [handleMiddlewareReconcilePause], internal/controller/middleware_reconcile_adoption.go *)
Definition handleMiddlewareReconcilePause (m : middleware) : mprog (option (ctrl_result * option error)) :=
  let policy := ReconcileResumePolicyFor (m_annotations m) in
  let policyRaw := (m_annotations m).[AnnotationResumePolicy] in
  if IsReconcileSuspended (m_annotations m) then
    if negb (String.eqb policyRaw "") && bool_decide (policy = None) then
      err ← recordMiddlewarePauseFailure m CondReasonReconcileAdoptionFailed
              ("unsupported " +:+ AnnotationResumePolicy +:+ " value " +:+ policyRaw);
      Ret (Some (done_result, err))
    else match policy with
    | Some ResumeMerge => handled (mergePausedMiddleware m)
    | Some ResumeApply =>
        err ← CompleteMiddlewareReconcileResume (m_name m) (m_namespace m) (m_generation m) (snapshotHash m)
                ResumeApply (sp_reconcileOverrides (m_spec m));
        match err with
        | Some e => Ret (Some (done_result, Some e))
        | None => Ret (Some (requeue_now, None))
        end
    | None => handled (captureMiddlewarePause m)
    end
  else if negb (hasReconcilePaused (ms_conditions (m_status m))) then Ret None
  else match policy with
  | None =>
      err ← recordMiddlewarePauseFailure m CondReasonReconcileAdoptionFailed reconcileResumeRequiredMessage;
      Ret (Some (done_result, err))
  | Some ResumeMerge =>
      if negb (reconcileAdoptionSucceeded (ms_conditions (m_status m))) then handled (mergePausedMiddleware m)
      else
        r ← call (PausedSpecMatchesAdoption (ms_reconcilePause (m_status m)));
        match r with
        | Ok true => Ret None
        | _ => handled (mergePausedMiddleware m)
        end
  | Some ResumeApply => Ret None
  end.

(** The last two lines of the code change the caller's object too, the second
    component. *)
(** [finalizeMiddlewareReconcileResume], internal/controller/middleware_reconcile_adoption.go *)
Definition finalizeMiddlewareReconcileResume (m : middleware) : mprog (option error * middleware) :=
  match ReconcileResumePolicyFor (m_annotations m) with
  | None => Ret (Some (new_error "middleware reconcile resume policy missing before finalization"), m)
  | Some policy =>
      let expectedSnapshotHash := snapshotHash m in
      err ← FinalizeMiddlewareReconcileResume (m_name m) (m_namespace m) expectedSnapshotHash policy;
      match err with
      | Some e => Ret (Some e, m)
      | None =>
          r ← PatchMiddlewareStatusFields statusAPIReader (m_name m) (m_namespace m) false (λ st,
            let currentHash := match ms_reconcilePause st with Some p => ps_hash p | None => "" end in
            if decide (currentHash ≠ expectedSnapshotHash) then (st, false)
            else
              let st := set_pause None st in
              let cs := (clearReconcilePaused (ms_conditions st)).1 in
              (set_conditions (clearReconcileAdoptionCondition cs).1 st, true));
          match r with
          | (Some e, _) => Ret (Some e, m)
          | (None, false) =>
              Ret (Some (new_error "middleware reconcile pause snapshot changed before status finalization"), m)
          | (None, true) =>
              _ ← call (CleanupPauseSnapshot m (ms_reconcilePause (m_status m)));
              let cs := (clearReconcilePaused (ms_conditions (m_status m))).1 in
              Ret (None, set_status (set_conditions (clearReconcileAdoptionCondition cs).1 (m_status m)) m)
          end
      end
  end.

(** ** [Reconcile] ([middleware_controller.go]) *)

(** The removal of the finalizer from the latest object. *)
(** [Reconcile], internal/controller/middleware_controller.go:149-160 *)
Definition remove_finalizer_step (name namespace : string) : mprog (ctrl_result * option error) :=
  r ← retry tt (λ _,
    r ← GetMiddleware name namespace;
    match r with
    | Err e => Ret (Some e, tt)
    | Ok latest =>
        err ← call (CliUpdate (set_finalizers (RemoveFinalizer (m_finalizers latest) FinalizerMiddleware) latest));
        Ret (err, tt)
    end);
  match r.1 with
  | Some e => if is_not_found e then Ret (done_result, None) else Ret (done_result, Some e)
  | None => Ret (done_result, None)
  end.

(** The deletion branch, for an object that carries the finalizer. *)
(** [Reconcile], internal/controller/middleware_controller.go:95-173 *)
Definition reconcile_delete (name namespace : string) (m : middleware) : mprog (ctrl_result * option error) :=
  rc ← ResolveDeleteContext m;
  match rc with
  | (_, _, _, Some resolveErr) =>
      if negb (CanSkipDeleteCleanup (Some m)) then Ret (done_result, Some resolveErr)
      else remove_finalizer_step name namespace
  | (Some resolved, _, _, None) =>
      r ← call (HandleResource HandleActionDelete resolved);
      match r with
      | (Some cleanErr, resolved) =>
          if negb (CanSkipDeleteCleanup (Some resolved)) then Ret (done_result, Some cleanErr)
          else remove_finalizer_step name namespace
      | (None, _) => remove_finalizer_step name namespace
      end
  | (None, _, _, None) => remove_finalizer_step name namespace   (** not returned by [ResolveDeleteContext] *)
  end.

(** What follows the pause check: the result, the error and the object as the
    deferred function finds them. *)
(** [Reconcile], internal/controller/middleware_controller.go:279-327 *)
Definition reconcile_apply (generation observedGeneration : Z) (wasReconcilePaused : bool) (m : middleware) :
    mprog (ctrl_result * option error * middleware) :=
  r ← call (CheckMiddleware m);
  match r with
  | (Some e, m) => Ret (done_result, Some e, m)
  | (None, m) =>
      r ← call (ReplacePackage m);
      match r with
      | (Some e, m) =>
          match e_kind e with
          | PackageNotReady => Ret (CtrlResult false 5, None, m)
          | PackageInstallFailed => Ret (done_result, None, m)
          | _ => Ret (done_result, Some (wrap_error "upgrade failed" e), m)
          end
      | (None, m) =>
          let handle a :=
            r ← call (HandleResource a m);
            match r with
            | (Some e, m) => Ret (done_result, Some e, m)
            | (None, m) =>
                if wasReconcilePaused then
                  r ← finalizeMiddlewareReconcileResume m;
                  Ret (done_result, r.1, r.2)
                else Ret (done_result, None, m)
            end in
          if decide (observedGeneration = 0%Z) then handle HandleActionPublish
          else if (observedGeneration <? generation)%Z ||
                  bool_decide (ms_state (m_status m) = StateUpdating) || wasReconcilePaused
          then handle HandleActionUpdate
          else Ret (done_result, None, m)
      end
  end.

(** [Reconcile], internal/controller/middleware_controller.go *)
Definition Reconcile (name namespace : string) : mprog (ctrl_result * option error) :=
  r ← GetMiddleware name namespace;
  match r with
  | Err e => Ret (done_result, if is_not_found e then None else Some e)
  | Ok m =>
      match m_deletionTimestamp m with
      | Some _ =>
          if ContainsFinalizer (m_finalizers m) FinalizerMiddleware
          then reconcile_delete name namespace m else Ret (done_result, None)
      | None =>
          if negb (ContainsFinalizer (m_finalizers m) FinalizerMiddleware) then
            err ← call (CliUpdate (set_finalizers (AddFinalizer (m_finalizers m) FinalizerMiddleware) m));
            match err with
            | Some e => Ret (done_result, Some e)
            | None => Ret (requeue_now, None)
            end
          else
            p ← handleMiddlewareReconcilePause m;
            match p with
            | Some r => Ret r
            | None =>
                r ← reconcile_apply (m_generation m) (ms_observedGeneration (m_status m))
                      (hasReconcilePaused (ms_conditions (m_status m))) m;
                let '(result, retErr, m) := r in
                s ← UpdateMiddlewareStatus statusAPIReader (set_status (converge_status m result retErr) m);
                Ret (result, match retErr with Some e => Some e | None => s.1 end)
            end
      end
  end.
End Controller.

(** ** What the subprograms call *)

(** The call of [HandleResource], which creates, updates or deletes the
    Middleware's child resources. *)
Definition handles (e : mevent) : option (action * middleware) :=
  match e with Ev c _ => match c with HandleResource a m => Some (a, m) | _ => None end end.
Definition quiet (_ : list mevent) (e : mevent) : Prop := handles e = None.

Lemma client_quiet l e : client_event l e → quiet l e.
Proof. destruct e as [R c r]. by destruct c. Qed.

Section Quiet.
Context `{!MetaConditions, !ControllerUtil, !RetryOnConflict mcall error is_conflict}.
Context (reader : bool) (now : Z).

Ltac quiet_client L := apply (only_mono client_event); [apply client_quiet|apply L].
Ltac quiet_step :=
  lazymatch goal with
  | |- only _ (GetMiddleware _ _) => quiet_client GetMiddleware_only
  | |- only _ (UpdateMiddlewareStatus _ _) => quiet_client UpdateMiddlewareStatus_only
  | |- only _ (CompleteMiddlewareReconcileResume _ _ _ _ _ _) => quiet_client Complete_only
  | |- only _ (FinalizeMiddlewareReconcileResume _ _ _ _) => quiet_client Finalize_only
  | |- only _ (PatchMiddlewareStatusFields _ _ _ _ _) => quiet_client @Patch_only
  | |- only _ (patchMiddlewarePauseStatus _ _ _) => unfold patchMiddlewarePauseStatus
  | |- only _ (recordMiddlewarePauseFailure _ _ _ _ _) => unfold recordMiddlewarePauseFailure
  | |- only _ (call _) => apply only_call; intros; reflexivity
  | |- only _ (Ret _) => apply only_ret
  | |- only _ (retry _ _) => apply only_retry; intros
  | |- only _ (match ?x with _ => _ end) => destruct x
  | |- only _ (_ ≫= _) => apply only_bind; [|intros]
  end.

Lemma record_quiet m reason msg : only quiet (recordMiddlewarePauseFailure reader now m reason msg).
Proof. repeat quiet_step. Qed.

Lemma capture_quiet m : only quiet (captureMiddlewarePause reader now m).
Proof. unfold captureMiddlewarePause. repeat quiet_step. Qed.

Lemma merge_quiet m : only quiet (mergePausedMiddleware reader now m).
Proof. unfold mergePausedMiddleware. repeat quiet_step. Qed.

Lemma finalize_quiet m : only quiet (finalizeMiddlewareReconcileResume reader m).
Proof. unfold finalizeMiddlewareReconcileResume. repeat quiet_step. Qed.

Lemma status_quiet m : only quiet (UpdateMiddlewareStatus reader m).
Proof. repeat quiet_step. Qed.

Lemma get_quiet name ns : only quiet (GetMiddleware name ns).
Proof. repeat quiet_step. Qed.

Lemma resolve_quiet m : only quiet (ResolveDeleteContext m).
Proof.
  unfold ResolveDeleteContext. destruct (hardRequirementsMet m).1; [quiet_step|].
  destruct (ShouldUseLegacyDeleteFallback m). repeat quiet_step.
Qed.

(** *** The pause gate *)

(** When normal reconciliation of [m] may proceed, given the calls so far. *)
Definition gate_open (m : middleware) (l : list mevent) : Prop :=
  IsMiddlewareReconcileWriteSuspended (m_annotations m) (ms_conditions (m_status m)) = false ∧
  (hasReconcilePaused (ms_conditions (m_status m)) = true →
   ReconcileResumePolicyFor (m_annotations m) = Some ResumeMerge →
   reconcileAdoptionSucceeded (ms_conditions (m_status m)) = true ∧
   Ev (PausedSpecMatchesAdoption (ms_reconcilePause (m_status m))) (Ok true) ∈ l).

Lemma gate_open_app m l l' : gate_open m l → gate_open m (l ++ l').
Proof. intros [? Hm]. split; [done|]. intros. rewrite elem_of_app. naive_solver. Qed.

(** A quiet program whose continuation always handles the pass. *)
Lemma handled_gate {A} (p : mprog A) (f : A → mprog (option (ctrl_result * option error))) G P tr :
  only quiet p → (∀ a, ∃ r, f a = Ret (Some r)) → (∀ l e, quiet l e → P l e) → each P tr →
  holds (p ≫= f) tr (λ tr' r, each P tr' ∧ (r = None → G tr')).
Proof.
  intros Hp Hf HP Htr. apply holds_bind. eapply holds_mono; [by apply Hp|].
  intros tr' a ?. simpl. destruct (Hf a) as [r ->]. by split.
Qed.

Lemma pause_gate m P tr :
  (∀ l e, quiet l e → P l e) → each P tr →
  holds (handleMiddlewareReconcilePause reader now m) tr (λ tr' r, each P tr' ∧ (r = None → gate_open m tr')).
Proof.
  intros HP Htr. unfold handleMiddlewareReconcilePause, handled.
  assert (HP1 : ∀ r, each P (tr ++ [Ev (PausedSpecMatchesAdoption (ms_reconcilePause (m_status m))) r]))
    by (intros; apply each_snoc; split; [done|by apply HP]).
  destruct (IsReconcileSuspended (m_annotations m)) eqn:Es.
  - destruct (negb _ && _); [apply handled_gate; eauto using record_quiet|].
    destruct (ReconcileResumePolicyFor (m_annotations m)) as [[]|]; apply handled_gate;
      eauto using merge_quiet, capture_quiet.
    + apply (only_mono client_event); [apply client_quiet|apply Complete_only].
    + intros [e|]; eauto.
  - destruct (hasReconcilePaused (ms_conditions (m_status m))) eqn:Ep; simpl.
    + destruct (ReconcileResumePolicyFor (m_annotations m)) as [[]|] eqn:Epol.
      * destruct (reconcileAdoptionSucceeded _) eqn:Ea; simpl; [|apply handled_gate; eauto using merge_quiet].
        intros [[]|e]; simpl; [|apply handled_gate; eauto using merge_quiet..].
        split; [done|]. intros _. split; [by unfold IsMiddlewareReconcileWriteSuspended; rewrite Es, Epol|].
        intros _ _. split; [done|]. apply elem_of_app. right. by apply list_elem_of_singleton.
      * split; [done|]. intros _. split; [by unfold IsMiddlewareReconcileWriteSuspended; rewrite Es, Epol|congruence].
      * apply handled_gate; eauto using record_quiet.
    + split; [done|]. intros _. split; [|congruence].
      unfold IsMiddlewareReconcileWriteSuspended. rewrite Es. unfold hasReconcilePaused in Ep. rewrite Ep.
      by destruct (ReconcileResumePolicyFor _).
Qed.

(** *** What precedes a write to the children *)

Definition child_write_allowed (l : list mevent) (e : mevent) : Prop :=
  ∀ a m', handles e = Some (a, m') →
  ∃ m, first_read l = Some m ∧ FinalizerMiddleware ∈ m_finalizers m ∧
    match a with
    | HandleActionDelete => is_Some (m_deletionTimestamp m)
    | _ => m_deletionTimestamp m = None ∧ gate_open m l
    end.

Lemma quiet_allowed l e : quiet l e → child_write_allowed l e.
Proof. intros Hq a m' He. unfold quiet in Hq. congruence. Qed.

Lemma remove_quiet name ns : only quiet (remove_finalizer_step name ns).
Proof. unfold remove_finalizer_step. repeat quiet_step. Qed.

Lemma delete_allowed name ns m m0 tr :
  first_read tr = Some m0 → FinalizerMiddleware ∈ m_finalizers m0 → is_Some (m_deletionTimestamp m0) →
  each child_write_allowed tr → holds (reconcile_delete name ns m) tr (λ tr' _, each child_write_allowed tr').
Proof.
  intros Hread Hfin Hdel Htr. set (K := λ (_ : list mevent) e, ∀ a m', handles e = Some (a, m') → a = HandleActionDelete).
  assert (Hq : ∀ A (p : mprog A), only quiet p → only K p).
  { intros A p. apply only_mono. intros l e Hq a m' He. unfold quiet in Hq. congruence. }
  assert (Hp : only K (reconcile_delete name ns m)).
  { unfold reconcile_delete. apply only_bind; [apply Hq, resolve_quiet|].
    intros [[[[resolved|] legacy] reason] [resolveErr|]]; try destruct (negb _);
      try apply only_ret; try apply Hq, remove_quiet.
    apply only_bind; [apply only_call; intros l r a m' [= <- _]; done|].
    intros [[cleanErr|] resolved']; [destruct (negb _); [apply only_ret|]|]; apply Hq, remove_quiet. }
  eapply holds_mono; [apply (only_spec (D := child_write_allowed) K _ tr Hp); [|exact Htr]|by intros ? ? [? _]].
  intros l e [l' ->] HK a m' Ha. rewrite (HK a m' Ha). exists m0. split_and!; [by apply first_read_app|done|done].
Qed.

Lemma apply_allowed g og paused m0 m tr :
  first_read tr = Some m0 → m_deletionTimestamp m0 = None → FinalizerMiddleware ∈ m_finalizers m0 → gate_open m0 tr →
  each child_write_allowed tr →
  holds (r ← reconcile_apply reader g og paused m;
         let '(result, retErr, m) := r in
         s ← UpdateMiddlewareStatus reader (set_status (converge_status m result retErr) m);
         Ret (result, match retErr with Some e => Some e | None => s.1 end)) tr
    (λ tr' _, each child_write_allowed tr').
Proof.
  intros Hread Hdel Hfin Hgate Htr.
  set (K := λ (_ : list mevent) e, ∀ a m', handles e = Some (a, m') → a ≠ HandleActionDelete).
  assert (Hq : ∀ A (p : mprog A), only quiet p → only K p).
  { intros A p. apply only_mono. intros l e Hq a m' He. unfold quiet in Hq. congruence. }
  assert (Hcall : ∀ R (c : mcall R), (∀ r, K [] (Ev c r)) → only K (call c)) by (intros R c Hc; apply only_call; intros l r; exact (Hc r)).
  assert (Hhandle : ∀ a m, a ≠ HandleActionDelete → only K (r ← call (HandleResource a m);
    match r with
    | (Some e, m) => Ret (done_result, Some e, m)
    | (None, m) => if paused then r ← finalizeMiddlewareReconcileResume reader m; Ret (done_result, r.1, r.2)
                   else Ret (done_result, None, m)
    end)).
  { intros a m' Ha. apply only_bind; [by apply Hcall; intros r a' m'' [= <- _]|]. intros [[e|] m'']; [apply only_ret|].
    destruct paused; [|apply only_ret]. apply only_bind; [apply Hq, finalize_quiet|]. intros. apply only_ret. }
  assert (Hp : only K (reconcile_apply reader g og paused m)).
  { unfold reconcile_apply. apply only_bind; [by apply Hcall|]. intros [[e|] m1]; [apply only_ret|].
    apply only_bind; [by apply Hcall|]. intros [[e|] m2]; [destruct (e_kind e); apply only_ret|]. cbv zeta.
    case_decide; [by apply Hhandle|]. destruct (_ || _); [by apply Hhandle|apply only_ret]. }
  eapply holds_mono; [apply (only_spec (D := child_write_allowed) K _ tr); [|..|exact Htr]|by intros ? ? [? _]].
  - apply only_bind; [exact Hp|]. intros [[result retErr] m']. apply only_bind; [apply Hq, status_quiet|]. intros. apply only_ret.
  - intros l e [l' ->] HK a m' He. exists m0. split_and!; [by apply first_read_app|done|].
    destruct a; [by split; [|apply gate_open_app]..|]. by destruct (HK _ _ He).
Qed.
End Quiet.

(** ** Who removes the finalizer *)

Opaque hardRequirementsMet backfill CanSkipDeleteCleanup.

Section Finalizer.
Context `{!MetaConditions, !ControllerUtil, !RetryOnConflict mcall error is_conflict}.
Context (reader : bool) (now : Z).

(** The cleanup of [m] was done, or there was nothing to clean up. *)
Definition cleanup_settled (m : middleware) (l : list mevent) : Prop :=
  (∃ cp cp', Ev (HandleResource HandleActionDelete cp) (None, cp') ∈ l ∧
     completed m cp ∧ (hardRequirementsMet cp).1 = true) ∨
  (∃ cp cp' e, Ev (HandleResource HandleActionDelete cp) (Some e, cp') ∈ l ∧ completed m cp ∧
     CanSkipDeleteCleanup (Some cp') = true) ∨
  CanSkipDeleteCleanup (Some m) = true.

Lemma cleanup_settled_app m l l' : cleanup_settled m l → cleanup_settled m (l ++ l').
Proof.
  intros [(cp & cp' & ? & ? & ?)|[(cp & cp' & e & ? & ? & ?)|?]].
  - left. exists cp, cp'. by rewrite elem_of_app; auto.
  - right. left. exists cp, cp', e. by rewrite elem_of_app; auto.
  - by right; right.
Qed.

(** An update that drops the finalizer from the object read last. *)
Definition drops_finalizer (l : list mevent) (e : mevent) : Prop :=
  ∃ m' now', write_of e = Some m' ∧ last_read l = Some now' ∧
    FinalizerMiddleware ∈ m_finalizers now' ∧ FinalizerMiddleware ∉ m_finalizers m'.

Definition finalizer_guarded (l : list mevent) (e : mevent) : Prop :=
  drops_finalizer l e → ∃ m, first_read l = Some m ∧ is_Some (m_deletionTimestamp m) ∧ cleanup_settled m l.

Lemma keeps_guarded l e : keeps_finalizers l e → finalizer_guarded l e.
Proof.
  intros Hk (m' & now' & Hw & Hl & Hin & Hout). destruct (Hk m' Hw) as (now1 & Hl' & Heq). congruence.
Qed.

Lemma client_no_write {A} (p : mprog A) :
  only (λ l e, write_of e = None) p → only keeps_finalizers p.
Proof. apply only_mono. apply no_write_keeps. Qed.

Ltac keeps_step :=
  lazymatch goal with
  | |- only _ (GetMiddleware _ _) => unfold GetMiddleware
  | |- only _ (UpdateMiddlewareStatus _ _) => unfold UpdateMiddlewareStatus, attempt_status_update
  | |- only _ (CompleteMiddlewareReconcileResume _ _ _ _ _ _) => apply Complete_keeps
  | |- only _ (FinalizeMiddlewareReconcileResume _ _ _ _) => apply Finalize_keeps
  | |- only _ (PatchMiddlewareStatusFields _ _ _ _ _) => unfold PatchMiddlewareStatusFields
  | |- only _ (patchMiddlewarePauseStatus _ _ _) => unfold patchMiddlewarePauseStatus
  | |- only _ (recordMiddlewarePauseFailure _ _ _ _ _) => unfold recordMiddlewarePauseFailure
  | |- only _ (captureMiddlewarePause _ _ _) => unfold captureMiddlewarePause
  | |- only _ (mergePausedMiddleware _ _ _) => unfold mergePausedMiddleware
  | |- only _ (finalizeMiddlewareReconcileResume _ _) => unfold finalizeMiddlewareReconcileResume
  | |- only _ (handled _) => unfold handled
  | |- only _ (call _) => apply only_call; intros; apply no_write_keeps; reflexivity
  | |- only _ (Ret _) => apply only_ret
  | |- only _ (retry _ _) => apply only_retry; intros
  | |- only _ (match ?x with _ => _ end) => destruct x
  | |- only _ (_ ≫= _) => apply only_bind; [|intros]
  end.

Lemma pause_keeps m : only keeps_finalizers (handleMiddlewareReconcilePause reader now m).
Proof. unfold handleMiddlewareReconcilePause. repeat keeps_step. Qed.

Lemma apply_keeps g og paused m : only keeps_finalizers (reconcile_apply reader g og paused m).
Proof. unfold reconcile_apply. repeat keeps_step. Qed.

Lemma update_keeps m : only keeps_finalizers (UpdateMiddlewareStatus reader m).
Proof. repeat keeps_step. Qed.

(** From a state in which the cleanup is settled, anything may follow. *)
Lemma settled_guarded {A} (p : mprog A) m tr :
  first_read tr = Some m → is_Some (m_deletionTimestamp m) → each finalizer_guarded tr → cleanup_settled m tr →
  holds p tr (λ tr' _, each finalizer_guarded tr').
Proof.
  intros Hread Hdel Htr Hs. apply holds_any; [done|]. intros l e [l' ->] _. exists m.
  split; [by apply first_read_app|]. split; [done|by apply cleanup_settled_app].
Qed.

Lemma resolve_guarded m tr :
  each finalizer_guarded tr →
  holds (ResolveDeleteContext m) tr (λ tr' rc, each finalizer_guarded tr' ∧
    match rc with (res, _, _, None) => ∃ cp, res = Some cp ∧ completed m cp ∧ (hardRequirementsMet cp).1 = true
    | _ => True end).
Proof.
  intros Htr. unfold ResolveDeleteContext. destruct ((hardRequirementsMet m).1) eqn:Em.
  { simpl. split; [done|]. exists m. split_and!; [done|apply completed_refl|done]. }
  unfold ShouldUseLegacyDeleteFallback. destruct (hardRequirementsMet m) as [ok missing]. simpl in Em. subst ok.
  cbn [negb]. apply holds_bind. simpl. intros r.
  assert (Htr' : each finalizer_guarded (tr ++ [Ev (CacheGet (namespaced_name (m_namespace m) (m_name m))) r]))
    by (by apply each_snoc; split; [|apply keeps_guarded, no_write_keeps]).
  destruct r as [cachedM|]; [|done]. destruct (hardRequirementsMet (backfill m cachedM)) as [[] still] eqn:Eb; [|done].
  simpl. split; [done|]. exists (backfill m cachedM). split_and!; [done|apply completed_backfill|by rewrite Eb].
Qed.

Lemma delete_guarded name ns m tr :
  first_read tr = Some m → is_Some (m_deletionTimestamp m) → each finalizer_guarded tr →
  holds (reconcile_delete name ns m) tr (λ tr' _, each finalizer_guarded tr').
Proof.
  intros Hread Hdel Htr. unfold reconcile_delete. apply holds_bind.
  eapply holds_mono; [by apply resolve_guarded|].
  intros tr' [[[res legacy] reason] [resolveErr|]] [Htr' Hres].
  { destruct res; (destruct (CanSkipDeleteCleanup (Some m)) eqn:Es; [|done]);
      (apply (settled_guarded _ m); [by apply first_read_app|done..|]; by right; right). }
  destruct Hres as (cp & -> & Hcp & Hmet). simpl. intros [err cp']. rewrite <- app_assoc.
  set (ev := Ev (HandleResource HandleActionDelete cp) (err, cp')).
  assert (Htr2 : each finalizer_guarded (tr ++ tr' ++ [ev])).
  { rewrite app_assoc. apply each_snoc. split; [done|by apply keeps_guarded, no_write_keeps]. }
  assert (Hin : ev ∈ tr ++ tr' ++ [ev]) by (rewrite !elem_of_app; right; right; by apply list_elem_of_singleton).
  destruct err as [e|].
  - destruct (CanSkipDeleteCleanup (Some cp')) eqn:Es; [|done].
    apply (settled_guarded _ m); [by apply first_read_app|done..|]. right. left. by exists cp, cp', e.
  - apply (settled_guarded _ m); [by apply first_read_app|done..|]. left. by exists cp, cp'.
Qed.
End Finalizer.

(** ** Properties *)

#[local] Opaque reconcile_apply handleMiddlewareReconcilePause reconcile_delete.

Section Properties.
Context `{!MetaConditions, !ControllerUtil, !RetryOnConflict mcall error is_conflict}.
Context (reader : bool) (now : Z) {W : Type} (h : handler mcall W) (w : W).

Lemma Reconcile_allowed name namespace :
  holds (Reconcile reader now name namespace) [] (λ tr _, each child_write_allowed tr).
Proof.
  unfold Reconcile. simpl. intros [m|e]; simpl; [intros u|]; cycle 1.
  { by apply (each_snoc _ []); split; [apply each_nil|apply quiet_allowed]. }
  set (tr := [_; _]). assert (Htr : each child_write_allowed tr).
  { by apply (each_snoc _ [_]); split; [apply (each_snoc _ []); split; [apply each_nil|]|]; apply quiet_allowed. }
  assert (Hread : first_read tr = Some m) by done. clearbody tr. destruct (m_deletionTimestamp m) eqn:Ed.
  - destruct (ContainsFinalizer _ _) eqn:Ef; [|done]. apply contains_finalizer in Ef.
    apply (delete_allowed _ _ _ m); [done|done|by rewrite Ed|done].
  - destruct (ContainsFinalizer (m_finalizers m) FinalizerMiddleware) eqn:Ef; simpl.
    + apply contains_finalizer in Ef. apply holds_bind.
      eapply holds_mono; [by apply pause_gate; [apply quiet_allowed|]|].
      intros tr' [r|] [Htr' Hg]; [done|]. eapply apply_allowed; eauto using first_read_app.
    + intros [e|]; simpl; apply each_snoc; (split; [done|by apply quiet_allowed]).
Qed.

Lemma Reconcile_guarded name namespace :
  holds (Reconcile reader now name namespace) [] (λ tr _, each finalizer_guarded tr).
Proof.
  assert (Hq : ∀ tr e, each finalizer_guarded tr → write_of e = None → each finalizer_guarded (tr ++ [e])).
  { intros. apply each_snoc. split; [done|by apply keeps_guarded, no_write_keeps]. }
  unfold Reconcile. simpl. intros [m|e]; simpl; [intros u|apply (Hq []); [apply each_nil|done]].
  set (tr := [_; _]). assert (Htr : each finalizer_guarded tr).
  { by apply (Hq [_]); [apply (Hq []); [apply each_nil|]|]. }
  assert (Hread : first_read tr = Some m) by done. clearbody tr. destruct (m_deletionTimestamp m) eqn:Ed.
  - destruct (ContainsFinalizer _ _); [|done]. apply delete_guarded; [done|by rewrite Ed|done].
  - destruct (ContainsFinalizer (m_finalizers m) FinalizerMiddleware) eqn:Ef; simpl.
    + apply (only_holds keeps_finalizers); [|apply keeps_guarded|done].
      apply only_bind; [apply pause_keeps|]. intros [r|]; [apply only_ret|].
      apply only_bind; [apply apply_keeps|]. intros [[result retErr] m'].
      apply only_bind; [apply update_keeps|]. intros. apply only_ret.
    + intros err. assert (each finalizer_guarded (tr ++ [Ev (CliUpdate (set_finalizers
        (AddFinalizer (m_finalizers m) FinalizerMiddleware) m)) err])); [|by destruct err].
      apply each_snoc. split; [done|]. intros (m' & now' & [= <-] & _ & _ & Hno). destruct Hno.
      simpl. apply add_finalizer. by left.
Qed.

(** C1: A reconciliation touches the children only through an open gate:
    every [HandleResource] call that publishes or updates comes after the
    object was read without a deletion timestamp and with the finalizer, while
    writes are not suspended; and after a paused session resumed by merge,
    only once the adoption succeeded and the live spec was verified to be the
    adopted one in this very pass.  One that deletes comes after the object
    was read with the finalizer and a deletion timestamp. *)
Theorem no_child_write_while_paused name namespace :
  each child_write_allowed (run h (Reconcile reader now name namespace) w).2.
Proof. apply (holds_run h _ w [] (λ tr _, each child_write_allowed tr)), Reconcile_allowed. Qed.

(** C2: The controller drops its finalizer from an object only during the
    deletion of that object and only when the cleanup is settled: either the
    children were deleted under a complete delete context, or the conditions
    show that none was ever created. *)
Theorem finalizer_dropped_after_cleanup name namespace :
  each finalizer_guarded (run h (Reconcile reader now name namespace) w).2.
Proof. apply (holds_run h _ w [] (λ tr _, each finalizer_guarded tr)), Reconcile_guarded. Qed.
End Properties.

(** *** The reported status *)

Definition current_false (generation : Z) (c : condition) : Prop :=
  c_status c = ConditionFalse ∧ (generation ≤ c_observedGeneration c)%Z.

Lemma currentFalseCondition_spec cs g :
  match currentFalseCondition cs g with
  | Some c => c ∈ cs ∧ current_false g c
  | None => Forall (λ c, ¬ current_false g c) cs
  end.
Proof.
  induction cs as [|c cs IH]; simpl; [done|]. unfold current_false in *.
  case_decide; [|destruct (Z.ltb_spec (c_observedGeneration c) g)].
  - destruct (currentFalseCondition cs g); [set_solver|]. constructor; [naive_solver|done].
  - destruct (currentFalseCondition cs g); [set_solver|]. constructor; [naive_solver lia|done].
  - split; [set_solver|done].
Qed.

Definition converged (result : ctrl_result) (retErr : option error) : Prop :=
  retErr = None ∧ cr_requeue result = false ∧ cr_requeueAfter result = 0%Z.

(** C18: The status written at the end of a reconciliation: Unavailable exactly
    when an error was returned or a condition is False for the current
    generation, with that condition's message as the first reason; otherwise
    Updating exactly during an upgrade, and Available; the observed generation
    becomes the object's exactly when the pass converged (no error, no
    requeue), and never decreases; no condition is lost, other than the
    Updating one once no upgrade runs and every other condition is True. *)
Theorem status_convergence m result retErr :
  let st := converge_status m result retErr in
  let cs := ms_conditions st in
  (ms_state st = StateUnavailable ↔ retErr ≠ None ∨ Exists (current_false (m_generation m)) cs) ∧
  (ms_state st = StateUpdating ↔
     retErr = None ∧ ¬ Exists (current_false (m_generation m)) cs ∧ is_Some (m_annotations m !! LabelUpdate)) ∧
  (ms_state st = StateAvailable ↔
     retErr = None ∧ ¬ Exists (current_false (m_generation m)) cs ∧ m_annotations m !! LabelUpdate = None) ∧
  (ms_state st ≠ StateUnavailable → ms_reason st = "") ∧
  (∀ c, currentFalseCondition cs (m_generation m) = Some c → ms_reason st = c_message c) ∧
  (converged result retErr →
     ms_observedGeneration st = Z.max (ms_observedGeneration (m_status m)) (m_generation m)) ∧
  (¬ converged result retErr → ms_observedGeneration st = ms_observedGeneration (m_status m)) ∧
  (∀ c, c ∈ ms_conditions (m_status m) → c ∈ cs ∨
     c_type c = CondTypeUpdating ∧ m_annotations m !! LabelUpdate = None ∧
     ∀ c', c' ∈ ms_conditions (m_status m) → c_type c' ≠ CondTypeUpdating → c_status c' = ConditionTrue).
Proof.
  unfold converge_status. set (cs := drop_stale_updating _ _).
  assert (Hcs : ∀ c, c ∈ ms_conditions (m_status m) → c ∈ cs ∨
     c_type c = CondTypeUpdating ∧ m_annotations m !! LabelUpdate = None ∧
     ∀ c', c' ∈ ms_conditions (m_status m) → c_type c' ≠ CondTypeUpdating → c_status c' = ConditionTrue).
  { intros c Hc. unfold cs, drop_stale_updating. destruct (m_annotations m !! LabelUpdate); [by left|].
    destruct (existsb _ _) eqn:Eo; [by left|]. destruct (decide (c_type c = CondTypeUpdating)); [|left; by apply list_elem_of_filter].
    right. split_and!; [done..|]. intros c' Hc' Hne. apply dec_stable. intros Hs.
    apply not_true_iff_false in Eo. apply Eo, existsb_exists. exists c'. split; [by apply list_elem_of_In|].
    by rewrite !bool_decide_eq_false_2. }
  clearbody cs. pose proof (currentFalseCondition_spec cs (m_generation m)) as Hfalse.
  assert (Hex : Exists (current_false (m_generation m)) cs ↔ is_Some (currentFalseCondition cs (m_generation m))).
  { destruct (currentFalseCondition cs _) as [c|]; split; try by eauto.
    - intros _. apply list.Exists_exists. by exists c.
    - intros (c & Hc & Hf)%list.Exists_exists. rewrite list.Forall_forall in Hfalse. by destruct (Hfalse c).
    }
  assert (Hobs : let observed := if bool_decide (retErr = None) && negb (cr_requeue result) &&
        (cr_requeueAfter result =? 0)%Z && (ms_observedGeneration (m_status m) <? m_generation m)%Z
        then m_generation m else ms_observedGeneration (m_status m) in
     (converged result retErr → observed = Z.max (ms_observedGeneration (m_status m)) (m_generation m)) ∧
     (¬ converged result retErr → observed = ms_observedGeneration (m_status m))).
  { unfold converged. destruct retErr, (cr_requeue result), (Z.eqb_spec (cr_requeueAfter result) 0),
      (Z.ltb_spec (ms_observedGeneration (m_status m)) (m_generation m)); simpl;
      (split; [intros (? & ? & ?); simplify_eq; lia|intros Hn; try done; by destruct Hn]). }
  clear Hfalse. destruct Hobs as [Ho1 Ho2].
  destruct (currentFalseCondition cs (m_generation m)) as [c|] eqn:Ec, retErr as [e|],
    (m_annotations m !! LabelUpdate) as [u|]; simpl in *; rewrite ?Hex, ?Ec; split_and!; auto; naive_solver.
Qed.

(** ** Runs at concrete inputs *)

Definition list_remove (fs : list string) (f : string) : list string := filter (λ g, g ≠ f) fs.
Definition list_add (fs : list string) (f : string) : list string := if decide (f ∈ fs) then fs else fs ++ [f].

Lemma list_add_spec fs f g : g ∈ list_add fs f ↔ g = f ∨ g ∈ fs.
Proof. unfold list_add. case_decide; set_solver. Qed.

Definition util_by_list : ControllerUtil.
Proof.
  refine (Build_ControllerUtil (λ fs f, bool_decide (f ∈ fs)) list_add list_remove _ list_add_spec _).
  - intros. apply bool_decide_eq_true.
  - intros. unfold list_remove. by rewrite list_elem_of_filter.
Defined.

Definition no_include : include := Include [] [] [] [] [] [].
Definition no_custom_resources : custom_resources := CustomResources 0 "" ∅ ∅ 0 "" "" no_include None.
Definition demo (generation observed : Z) (deleting : option Z) (conditions : list condition) : middleware :=
  Middleware "redis" "prod" "uid-1" generation deleting {[LabelPackageName := "redis-7"]} ∅ [FinalizerMiddleware]
    (MiddlewareSpec (OperatorBaseline "op" "redis") "base" "" [] "" None [])
    (MiddlewareStatus observed conditions no_custom_resources "" "" [] 0 None).

(** An API server that always returns [m], and components that succeed, but
    for the package manager, which answers [package]. *)
Definition demo_handler (m : middleware) (package : option error) : handler mcall unit := λ R c w,
  (match c in mcall R return R with
   | CliGet _ _ | ReaderGet _ _ => Ok m
   | CliUpdate _ | StatusUpdate _ => None
   | CacheSet _ _ => tt
   | CacheGet _ => None
   | CheckMiddleware m | HandleResource _ m => (None, m)
   | ReplacePackage m => (package, m)
   | ValidatePauseSnapshot _ _ | PublishPauseSnapshot _ _ _ | CleanupPauseSnapshot _ _ => None
   | BuildPauseSnapshot _ => Err (new_error "none")
   | AdoptPausedPrimary _ _ => Err (new_error "none")
   | PausedSpecMatchesAdoption _ => Ok false
   end, tt).

Definition demo_run (m : middleware) (package : option error) : ctrl_result * option error * list mevent :=
  run (demo_handler m package)
    (@Reconcile meta_by_list util_by_list (bounded_retry is_conflict 4) false 7 "redis" "prod") tt.

Lemma no_child_write_while_paused_witness :
  let m := demo 1 0 None [] in
  let tr := (demo_run m None).2 in
  tr !! 4 = Some (Ev (HandleResource HandleActionPublish m) (None, m)) ∧
  ∃ m1, first_read (take 4 tr) = Some m1 ∧ gate_open m1 (take 4 tr).
Proof.
  intros m tr. assert (He : tr !! 4 = Some (Ev (HandleResource HandleActionPublish m) (None, m)))
    by (vm_compute; reflexivity).
  split; [exact He|].
  destruct (each_lookup _ _ _ _ (@no_child_write_while_paused meta_by_list util_by_list (bounded_retry is_conflict 4)
    false 7 unit (demo_handler m None) tt "redis" "prod") He HandleActionPublish m eq_refl)
    as (m1 & Hm1 & _ & _ & Hg).
  exists m1. split; [exact Hm1|exact Hg].
Defined.

Lemma finalizer_dropped_after_cleanup_witness :
  let m := demo 2 1 (Some 5%Z) [] in
  let tr := (demo_run m None).2 in
  tr !! 5 = Some (Ev (CliUpdate (set_finalizers [] m)) None) ∧
  ∃ m1, first_read (take 5 tr) = Some m1 ∧ cleanup_settled m1 (take 5 tr).
Proof.
  intros m tr. assert (He : tr !! 5 = Some (Ev (CliUpdate (set_finalizers [] m)) None)) by (vm_compute; reflexivity).
  split; [exact He|].
  destruct (each_lookup _ _ _ _ (@finalizer_dropped_after_cleanup meta_by_list util_by_list (bounded_retry is_conflict 4)
    false 7 unit (demo_handler m None) tt "redis" "prod") He) as (m1 & Hm1 & _ & Hs).
  - exists (set_finalizers [] m), m. split; [reflexivity|]. split; [vm_compute; reflexivity|].
    split; [apply list_elem_of_singleton; reflexivity|]. simpl. intros Hin. inversion Hin.
  - exists m1. split; [exact Hm1|exact Hs].
Defined.

(** A package whose installation failed is reported without an error, so the
    pass counts as converged: the generation is recorded as observed although
    no resource was published for it. *)
Lemma install_failure_marks_observed :
  let m := demo 1 0 None [] in
  let '(result, err, tr) := demo_run m (Some (Error PackageInstallFailed "failed")) in
  err = None ∧ Forall (λ e, handles e = None) tr ∧
  ∃ e m', e ∈ tr ∧ status_write_of e = Some m' ∧ ms_observedGeneration (m_status m') = 1%Z ∧
    ms_state (m_status m') = StateAvailable.
Proof.
  vm_compute. split; [reflexivity|]. split; [repeat constructor|].
  eexists _, _. split; [do 6 right; left|]. split; [reflexivity|]. split; reflexivity.
Qed.
