(* ===== verification/Json.v ===== *)
(** * JSON values as Go decodes them into [any]

    An object is a finite map: its order is not observable, and equality of
    two decoded values ([reflect.DeepEqual]) is equality of the terms.  A
    number is a [float64]; only its value matters to the code, so it is a
    canonical rational (which identifies the two zeros, as [==] does). *)
From stdpp Require Import base gmap strings list option numbers.
From Stdlib Require Import Qcanon.
From S2P Require Import Prelude.
Close Scope Qc_scope.

Inductive json : Type :=
  | JNull
  | JBool (b : bool)
  | JNum (q : Qc)
  | JStr (s : string)
  | JArr (l : list json)
  | JObj (m : gmap string json).

(** ** Induction *)

Fixpoint json_size (j : json) : nat :=
  match j with
  | JArr l => S (foldr (λ v n, json_size v + n) 0 l)
  | JObj m => S (map_fold (λ _ v n, json_size v + n) 0 m)
  | _ => 1
  end.

Lemma json_size_arr l v : v ∈ l → json_size v < json_size (JArr l).
Proof. simpl. induction 1; simpl; lia. Qed.

Lemma map_fold_sum_lookup (f : json → nat) (m : gmap string json) k v :
  m !! k = Some v → f v ≤ map_fold (λ _ v n, f v + n) 0 m.
Proof.
  intros Hk. rewrite (map_fold_delete_L _ _ k v) by (done || intros; lia). lia.
Qed.

Lemma json_size_obj m k v : m !! k = Some v → json_size v < json_size (JObj m).
Proof. intros Hk. simpl. pose proof (map_fold_sum_lookup json_size m k v Hk). lia. Qed.

Lemma json_strong_ind (P : json → Prop) :
  P JNull → (∀ b, P (JBool b)) → (∀ q, P (JNum q)) → (∀ s, P (JStr s)) →
  (∀ l, Forall P l → P (JArr l)) → (∀ m, map_Forall (λ _, P) m → P (JObj m)) → ∀ j, P j.
Proof.
  intros H1 H2 H3 H4 Harr Hobj j.
  induction j as [j IH] using (well_founded_induction (well_founded_ltof _ json_size)).
  unfold ltof in IH. destruct j; auto.
  - apply Harr, list.Forall_forall. intros v Hv. by apply IH, json_size_arr.
  - apply Hobj. intros k v Hv. eapply IH, json_size_obj; eauto.
Qed.

(** ** Decidable equality *)

Fixpoint json_eqb (a b : json) : bool :=
  match a, b with
  | JNull, JNull => true
  | JBool x, JBool y => Bool.eqb x y
  | JNum x, JNum y => bool_decide (x = y)
  | JStr x, JStr y => String.eqb x y
  | JArr x, JArr y => (fix go x y := match x, y with
      | [], [] => true
      | u :: x, v :: y => json_eqb u v && go x y
      | _, _ => false end) x y
  | JObj x, JObj y => (size x =? size y) &&
      map_fold (λ k u acc, match y !! k with Some v => json_eqb u v | None => false end && acc) true x
  | _, _ => false
  end.

Lemma map_fold_andb (f : string → json → bool) (m : gmap string json) :
  map_fold (λ k u acc, f k u && acc) true m = true ↔ map_Forall (λ k u, f k u = true) m.
Proof.
  induction m as [|k v m Hk IH] using map_ind.
  - rewrite map_fold_empty. split; [intros _; apply map_Forall_empty|done].
  - rewrite map_fold_insert_L by (done || (intros; by rewrite !andb_assoc, (andb_comm (f _ _)))).
    rewrite andb_true_iff, IH, map_Forall_insert by done. done.
Qed.

Lemma submap_size_eq (m1 m2 : gmap string json) : m1 ⊆ m2 → size m1 = size m2 → m1 = m2.
Proof.
  intros Hsub Hsize. apply map_eq. intros k. destruct (m1 !! k) as [v|] eqn:E1.
  - symmetry. by eapply lookup_weaken.
  - destruct (m2 !! k) as [v|] eqn:E2; [|done]. exfalso.
    assert (Hs : size m1 ≤ size (delete k m2)).
    { apply map_subseteq_size. apply map_subseteq_spec. intros i x Hi.
      rewrite lookup_delete_ne by congruence. by eapply lookup_weaken. }
    rewrite map_size_delete_Some in Hs by (by rewrite E2).
    assert (size m2 ≠ 0) by (rewrite map_size_ne_0_lookup; by exists k). lia.
Qed.

Lemma json_eqb_spec a b : json_eqb a b = true ↔ a = b.
Proof.
  revert b. induction a as [|x|x|x|l IH|m IH] using json_strong_ind; intros [|y|y|y|l'|m']; simpl;
    try (split; discriminate); try done.
  - rewrite Bool.eqb_true_iff. naive_solver.
  - rewrite bool_decide_eq_true. naive_solver.
  - rewrite String.eqb_eq. naive_solver.
  - revert l'. induction IH as [|v l Hv _ IHl]; intros [|v' l']; try (split; discriminate); try done.
    rewrite andb_true_iff, Hv, IHl. naive_solver.
  - rewrite andb_true_iff, Nat.eqb_eq, map_fold_andb. split.
    + intros [Hsize Hall]. f_equal. apply submap_size_eq; [|done]. apply map_subseteq_spec. intros k v Hv.
      specialize (Hall k v Hv). simpl in Hall. destruct (m' !! k) as [v'|]; [|done].
      by apply (IH k v Hv) in Hall as ->.
    + intros [= <-]. split; [done|]. intros k v Hv. rewrite Hv. by apply (IH k v Hv).
Qed.

#[export] Instance json_eq_dec : EqDecision json.
Proof.
  intros a b. destruct (json_eqb a b) eqn:E; [left; by apply json_eqb_spec|right].
  intros ->. by rewrite (proj2 (json_eqb_spec b b)) in E.
Defined.

(** ** Maps built entry by entry

    [map_fold] is what a recursion through an object uses; this is what it
    computes when each entry is kept, changed or dropped on its own. *)
Definition map_filter_entries (f : string → json → option json) (m : gmap string json) : gmap string json :=
  map_fold (λ k v (acc : gmap string json), match f k v with Some v' => <[k := v']> acc | None => acc end) ∅ m.

Lemma map_filter_entries_lookup f m k : map_filter_entries f m !! k = m !! k ≫= f k.
Proof.
  revert k. unfold map_filter_entries.
  apply (map_fold_weak_ind (λ (acc m : gmap string json), ∀ k, acc !! k = m !! k ≫= f k)).
  - intros k. by rewrite !lookup_empty.
  - intros i v m' acc Hi IH k. destruct (decide (i = k)) as [->|Hne].
    + rewrite lookup_insert_eq. simpl. destruct (f k v) as [v'|].
      * apply lookup_insert_eq.
      * by rewrite IH, Hi.
    + rewrite lookup_insert_ne by done. destruct (f i v); [rewrite lookup_insert_ne by done|]; apply IH.
Qed.

(** ** Countability: every value has a code *)

Fixpoint json_to_tree (j : json) : gen_tree (string + (bool + Qc)) :=
  match j with
  | JNull => GenNode 0 []
  | JBool b => GenLeaf (inr (inl b))
  | JNum q => GenLeaf (inr (inr q))
  | JStr s => GenLeaf (inl s)
  | JArr l => GenNode 1 ((fix go l := match l with [] => [] | v :: l => json_to_tree v :: go l end) l)
  | JObj m => GenNode 2 (map_fold (λ k v acc, GenLeaf (inl k) :: json_to_tree v :: acc) [] m)
  end.

Fixpoint tree_to_json (t : gen_tree (string + (bool + Qc))) : json :=
  match t with
  | GenLeaf (inl s) => JStr s
  | GenLeaf (inr (inl b)) => JBool b
  | GenLeaf (inr (inr q)) => JNum q
  | GenNode 0 _ => JNull
  | GenNode 1 l => JArr ((fix go l := match l with [] => [] | t :: l => tree_to_json t :: go l end) l)
  | GenNode _ l => JObj ((fix go l : gmap string json := match l with
      | GenLeaf (inl k) :: t :: l => <[k := tree_to_json t]> (go l)
      | _ => ∅ end) l)
  end.

Lemma tree_json_roundtrip j : tree_to_json (json_to_tree j) = j.
Proof.
  induction j as [|b|q|s|l IH|m IH] using json_strong_ind; try done.
  - simpl. f_equal. induction IH as [|v l Hv _ IHl]; [done|]. by rewrite Hv, IHl.
  - simpl. f_equal. revert IH.
    apply (map_fold_weak_ind (λ acc m, map_Forall (λ _ j, tree_to_json (json_to_tree j) = j) m →
      (fix go l : gmap string json := match l with
      | GenLeaf (inl k) :: t :: l => <[k := tree_to_json t]> (go l)
      | _ => ∅ end) acc = m)); [done|].
    intros k v m' acc Hk IH Hall. rewrite map_Forall_insert in Hall by done. destruct Hall as [-> Hall].
    by rewrite IH.
Qed.

#[export] Instance json_countable : Countable json.
Proof. apply (inj_countable' json_to_tree tree_to_json tree_json_roundtrip). Defined.

(** ** The order in which Go visits a map *)

Class MapOrder := {
  visit : ∀ {A}, gmap string A → list (string * A);
  visit_perm {A} (m : gmap string A) : visit m ≡ₚ map_to_list m;
}.

Definition list_order : MapOrder := {| visit A m := map_to_list m; visit_perm A m := reflexivity _ |}.
