(* ===== verification/Adoption.v ===== *)
(** * Reconcile overrides

    [internal/service/middleware/reconcile_adoption.go]: the merge patch that
    keeps changes adopted from a live custom resource during a pause, and how
    later edits of the Middleware or its baseline win over it. *)
From stdpp Require Import base gmap strings list option.
From Stdlib Require Import Ascii.
From S2P Require Import Prelude Labels Prog Middleware Json.

(** ** The libraries

    [encoding/json] on decoded values: encoding is a function of the value
    (keys are sorted), and decoding inverts it.  [sha256] is any function to
    strings.  [jsonpatch.MergePatch] follows RFC 7396, whose algorithm is
    [merge_patch]. *)

Fixpoint merge_patch (target : option json) (patch : json) : json :=
  match patch with
  | JObj pm =>
      let tm := match target with Some (JObj tm) => tm | _ => ∅ end in
      JObj (map_fold (λ k pv (acc : gmap string json),
              match pv with JNull => delete k acc | _ => <[k := merge_patch (tm !! k) pv]> acc end) tm pm)
  | _ => patch
  end.

Class JsonLib := {
  Marshal : json → string;
  Unmarshal : string → option json;
  sha256_hex : string → string;
  MergePatch : string → string → option string;
  unmarshal_marshal j : Unmarshal (Marshal j) = Some j;
  unmarshal_empty : Unmarshal "" = None;
  marshal_empty_object : Marshal (JObj ∅) = "{}";
  MergePatch_spec t p : ∃ raw, MergePatch (Marshal (JObj t)) (Marshal (JObj p)) = Some raw ∧
    Unmarshal raw = Some (merge_patch (Some (JObj t)) (JObj p));
}.

(** ** Objects of the API server *)

Record unstructured := Unstructured {
  u_gvk : gvk;
  u_namespace : string;
  u_name : string;
  u_uid : string;
  u_deleting : bool;
  u_object : gmap string json;
}.

Definition set_spec_field (spec : gmap string json) (cr : unstructured) : unstructured :=
  Unstructured (u_gvk cr) (u_namespace cr) (u_name cr) (u_uid cr) (u_deleting cr)
    (<["spec" := JObj spec]> (u_object cr)).

(** The errors of the file, by name. *)
Inductive adoption_error :=
  | ErrReconcileOverrideTargetChanged
  | ErrReconcilePauseResourceMissing
  | ErrReconcilePauseResourceChanged
  | ErrReconcilePauseLiveSpecChanged
  | ErrOther (msg : string).

Abbreviation ares := (result adoption_error).

Section Overrides.
Context `{JsonLib}.

(** ** Merge values *)

(** A value that may be absent. *)
(** [mergeValue], internal/service/middleware/reconcile_adoption.go *)
Definition mergeValue : Type := option json.

(** [mergeValueEqual], internal/service/middleware/reconcile_adoption.go *)
Definition mergeValueEqual (left right : mergeValue) : bool := bool_decide (left = right).

(** [valueAsMap], internal/service/middleware/reconcile_adoption.go *)
Definition valueAsMap (value : mergeValue) : option (gmap string json) :=
  match value with Some (JObj m) => Some m | _ => None end.

(** [cloneJSONValue], internal/service/middleware/reconcile_adoption.go *)
Fixpoint cloneJSONValue (value : json) : json :=
  match value with
  | JObj typed => JObj (map_fold (λ k child (result : gmap string json), <[k := cloneJSONValue child]> result) ∅ typed)
  | JArr typed => JArr ((fix go l := match l with [] => [] | child :: l => cloneJSONValue child :: go l end) typed)
  | _ => value
  end.

(** ** Filtering a patch *)

(** [filterReconcileOverridePatchValue], internal/service/middleware/reconcile_adoption.go *)
Fixpoint filterReconcileOverridePatchValue (base current : mergeValue) (patchValue : json) : option json :=
  match patchValue, valueAsMap base, valueAsMap current with
  | JObj patchMap, Some baseMap, Some currentMap =>
      let result := map_fold (λ key patchValue (result : gmap string json),
        match filterReconcileOverridePatchValue (baseMap !! key) (currentMap !! key) patchValue with
        | Some value => <[key := value]> result
        | None => result
        end) ∅ patchMap in
      if decide (result = ∅) then None else Some (JObj result)
  | _, _, _ => if mergeValueEqual base current then Some (cloneJSONValue patchValue) else None
  end.

(** [filterReconcileOverridePatch], internal/service/middleware/reconcile_adoption.go *)
Definition filterReconcileOverridePatch (base current patch : gmap string json) : gmap string json :=
  map_fold (λ key patchValue (result : gmap string json),
    match filterReconcileOverridePatchValue (base !! key) (current !! key) patchValue with
    | Some value => <[key := value]> result
    | None => result
    end) ∅ patch.

(** ** Specs *)

(** [decodeSpec], internal/service/middleware/reconcile_adoption.go *)
Definition decodeSpec (raw : string) : ares (gmap string json) :=
  if String.eqb raw "" then Ok ∅
  else match Unmarshal raw with
  | Some (JObj spec) => Ok spec
  | Some JNull => Err (ErrOther "spec must be a JSON object")
  | Some _ => Err (ErrOther "cannot unmarshal into map")
  | None => Err (ErrOther "invalid JSON")
  end.

(** [primarySpec], internal/service/middleware/reconcile_adoption.go *)
Definition primarySpec (cr : option unstructured) : ares (gmap string json * string) :=
  match cr with
  | None => Err (ErrOther "primary custom resource is nil")
  | Some cr =>
      let spec := default (JObj ∅) (u_object cr !! "spec") in
      let raw := Marshal spec in
      decoded ← decodeSpec raw;
      Ok (decoded, Marshal (JObj decoded))
  end.

(** [specHash], internal/service/middleware/reconcile_adoption.go *)
Definition specHash (raw : string) : string := sha256_hex raw.

(** ** Applying overrides *)

(** [validateReconcileOverrideTarget], internal/service/middleware/reconcile_adoption.go *)
Definition validateReconcileOverrideTarget (overrides : option reconcile_overrides) (cr : option unstructured) : ares unit :=
  match overrides, cr with
  | Some o, Some cr =>
      if String.eqb (gvk_group (ro_gvk o)) "" || String.eqb (gvk_version (ro_gvk o)) "" ||
         String.eqb (gvk_kind (ro_gvk o)) "" ||
         negb (String.eqb (gvk_group (ro_gvk o)) (gvk_group (u_gvk cr))) ||
         negb (String.eqb (gvk_version (ro_gvk o)) (gvk_version (u_gvk cr))) ||
         negb (String.eqb (gvk_kind (ro_gvk o)) (gvk_kind (u_gvk cr))) ||
         negb (String.eqb (ro_namespace o) (u_namespace cr)) || negb (String.eqb (ro_name o) (u_name cr))
      then Err ErrReconcileOverrideTargetChanged else Ok tt
  | _, _ => Err ErrReconcileOverrideTargetChanged
  end.

(** [effectiveReconcileOverridePatch], internal/service/middleware/reconcile_adoption.go *)
Definition effectiveReconcileOverridePatch (overrides : option reconcile_overrides) (current : gmap string json) :
    ares string :=
  match overrides with
  | None => Ok ""
  | Some o =>
      base ← decodeSpec (ro_baseSpec o);
      patch ← decodeSpec (ro_specPatch o);
      Ok (Marshal (JObj (filterReconcileOverridePatch base current patch)))
  end.

(** The rendered resource afterwards. *)
(** [ApplyReconcileOverrides], internal/service/middleware/reconcile_adoption.go *)
Definition ApplyReconcileOverrides (overrides : option reconcile_overrides) (cr : unstructured) : ares unstructured :=
  match overrides with
  | None => Ok cr
  | Some o =>
      if String.eqb (ro_specPatch o) "" then Ok cr else
      _ ← validateReconcileOverrideTarget (Some o) (Some cr);
      '(currentSpec, current) ← primarySpec (Some cr);
      patch ← effectiveReconcileOverridePatch (Some o) currentSpec;
      if String.eqb patch "" || String.eqb patch "{}" then Ok cr else
      match MergePatch current patch with
      | None => Err (ErrOther "apply reconcile override patch")
      | Some merged => mergedSpec ← decodeSpec merged; Ok (set_spec_field mergedSpec cr)
      end
  end.

(** ** Verification before a resumed write *)

(** [matchesSnapshotTarget], internal/service/middleware/reconcile_adoption.go *)
Definition matchesSnapshotTarget (snapshot : pause_status) (cr : unstructured) : ares unit :=
  if decide (ps_gvk snapshot = u_gvk cr ∧ ps_namespace snapshot = u_namespace cr ∧ ps_name snapshot = u_name cr)
  then Ok tt else Err ErrReconcilePauseResourceChanged.

(** [live] is what [readPausePrimary] answers: the resource, absent, or another error. *)
(** [PausedPrimaryCustomResourceSpecMatchesAdoption], internal/service/middleware/reconcile_adoption.go *)
Definition PausedPrimaryCustomResourceSpecMatchesAdoption (live : gvk → string → string → result error unstructured)
    (snapshot : option pause_status) : ares bool :=
  match snapshot with
  | None => Ok false
  | Some snapshot =>
      if String.eqb (ps_adoptedLiveSpecHash snapshot) "" then Ok false else
      match live (ps_gvk snapshot) (ps_namespace snapshot) (ps_name snapshot) with
      | Err e => if is_not_found e then Err ErrReconcilePauseResourceMissing
                 else Err (ErrOther "get primary custom resource before resume apply")
      | Ok live =>
          if String.eqb (ps_resourceUID snapshot) "" || negb (String.eqb (ps_resourceUID snapshot) (u_uid live))
          then Err ErrReconcilePauseResourceChanged
          else
            '(_, raw) ← primarySpec (Some live);
            Ok (String.eqb (specHash raw) (ps_adoptedLiveSpecHash snapshot))
      end
  end.

(** [VerifyPausedPrimaryCustomResourceForApply], internal/service/middleware/reconcile_adoption.go *)
Definition VerifyPausedPrimaryCustomResourceForApply (live : gvk → string → string → result error unstructured)
    (snapshot : option pause_status) (rendered : unstructured) : ares unit :=
  match snapshot with
  | None => Err ErrReconcilePauseLiveSpecChanged
  | Some s =>
      if String.eqb (ps_adoptedLiveSpecHash s) "" then Err ErrReconcilePauseLiveSpecChanged else
      _ ← matchesSnapshotTarget s rendered;
      matches ← PausedPrimaryCustomResourceSpecMatchesAdoption live (Some s);
      if (matches : bool) then Ok tt else Err ErrReconcilePauseLiveSpecChanged
  end.
End Overrides.

(** ** Lemmas *)

Lemma cloneJSONValue_id v : cloneJSONValue v = v.
Proof.
  induction v as [|b|q|s|l IH|m IH] using json_strong_ind; try done.
  - simpl. f_equal. induction IH as [|v l Hv _ IHl]; [done|]. by rewrite Hv, IHl.
  - simpl. f_equal. apply map_eq. intros k.
    etrans; [apply (map_filter_entries_lookup (λ _ v, Some (cloneJSONValue v)) m k)|].
    destruct (m !! k) as [v|] eqn:Ek; [|done]. simpl. f_equal. by apply (IH k).
Qed.

Lemma filter_patch_lookup base current patch k :
  filterReconcileOverridePatch base current patch !! k =
  patch !! k ≫= filterReconcileOverridePatchValue (base !! k) (current !! k).
Proof. apply (map_filter_entries_lookup (λ k, filterReconcileOverridePatchValue (base !! k) (current !! k))). Qed.

(** The two functions of the code call each other. *)
Lemma filter_value_eq (base current : option json) patch :
  filterReconcileOverridePatchValue base current patch =
  match patch, valueAsMap base, valueAsMap current with
  | JObj p, Some b, Some c =>
      let result := filterReconcileOverridePatch b c p in
      if decide (result = ∅) then None else Some (JObj result)
  | _, _, _ => if decide (base = current) then Some patch else None
  end.
Proof.
  assert (Heq : (if mergeValueEqual base current then Some (cloneJSONValue patch) else None) =
                if decide (base = current) then Some patch else None).
  { rewrite cloneJSONValue_id. unfold mergeValueEqual. case_decide;
      [by rewrite bool_decide_eq_true_2|by rewrite bool_decide_eq_false_2]. }
  destruct patch; try exact Heq. destruct (valueAsMap base) eqn:Eb, (valueAsMap current) eqn:Ec; 
    cbn [filterReconcileOverridePatchValue]; rewrite Eb, ?Ec; done || exact Heq.
Qed.

(** *** Paths into values *)

Fixpoint get (path : list string) (j : option json) : option json :=
  match path, j with
  | [], _ => j
  | k :: path, Some (JObj m) => get path (m !! k)
  | _, _ => None
  end.

Definition leaf (v : json) : Prop := match v with JObj _ => False | _ => True end.

(** Two values agree along a path as far as both are objects. *)
Fixpoint agree (path : list string) (a b : option json) : Prop :=
  match path, a, b with
  | k :: path, Some (JObj a), Some (JObj b) => agree path (a !! k) (b !! k)
  | _, _, _ => a = b
  end.

#[export] Instance agree_dec path a b : Decision (agree path a b).
Proof.
  revert a b. induction path as [|k path IH]; intros a b; simpl; [apply _|].
  destruct a as [[]|], b as [[]|]; apply _.
Defined.

Lemma get_none path : get path None = None.
Proof. by destruct path. Qed.

Lemma agree_get path a b : agree path a b → get path a = get path b.
Proof.
  revert a b. induction path as [|k path IH]; intros a b; simpl; [done|].
  destruct a as [[]|], b as [[]|]; intros Hab; simplify_eq; try done. by apply IH.
Qed.

(** A leaf of the patch survives exactly where base and current agree. *)
Lemma filter_leaf path base current patch v :
  get path (Some patch) = Some v → leaf v →
  get path (filterReconcileOverridePatchValue base current patch) =
    if decide (agree path base current) then Some v else None.
Proof.
  revert base current patch. induction path as [|k path IH]; intros base current patch Hget Hleaf.
  - injection Hget as ->. rewrite filter_value_eq. simpl.
    destruct v; try done; destruct (decide (agree [] base current)) as [Ha|Ha]; simpl in Ha;
      (rewrite decide_True by done || rewrite decide_False by done); done.
  - simpl in Hget. destruct patch as [| | | | |pm]; try done. rewrite filter_value_eq.
    destruct (pm !! k) as [pv|] eqn:Epv; [|by rewrite get_none in Hget].
    assert (Hplain : ∀ (P : Prop) `{!Decision P}, (agree (k :: path) base current ↔ P) →
      get (k :: path) (if decide P then Some (JObj pm) else None) =
      if decide (agree (k :: path) base current) then Some v else None).
    { intros P ? HP. rewrite (decide_ext _ _ _ _ HP). case_decide; simpl; [by rewrite Epv|done]. }
    destruct base as [[| | | | |bm]|], current as [[| | | | |cm]|]; cbn [valueAsMap];
      try (apply Hplain; reflexivity). clear Hplain.
    specialize (IH (bm !! k) (cm !! k) pv Hget Hleaf).
    pose proof (filter_patch_lookup bm cm pm k) as Hl. rewrite Epv in Hl. simpl in Hl.
    assert (Hd : (if decide (agree (k :: path) (Some (JObj bm)) (Some (JObj cm))) then Some v else None) =
                 if decide (agree path (bm !! k) (cm !! k)) then Some v else None) by (by apply decide_ext).
    rewrite Hd, <- IH, <- Hl. clear Hd IH.
    cbv zeta. destruct (decide (filterReconcileOverridePatch bm cm pm = ∅)) as [Hemp|Hemp].
    + by rewrite Hemp, lookup_empty, !get_none.
    + done.
Qed.

(** A patch that does not reach the end of a path, and is made of objects
    along it. *)
Fixpoint clear_along (path : list string) (q : option json) : Prop :=
  match path, q with
  | _, None => True
  | k :: path, Some (JObj m) => clear_along path (m !! k)
  | _, _ => False
  end.

Lemma filter_clear path base current patch v :
  get path (Some patch) = Some v → leaf v → ¬ agree path base current →
  clear_along path (filterReconcileOverridePatchValue base current patch).
Proof.
  revert base current patch. induction path as [|k path IH]; intros base current patch Hget Hleaf Hno.
  - injection Hget as ->. rewrite filter_value_eq. simpl in *. destruct v; try done; by rewrite decide_False.
  - simpl in Hget. destruct patch as [| | | | |pm]; try done. rewrite filter_value_eq.
    destruct (pm !! k) as [pv|] eqn:Epv; [|by rewrite get_none in Hget].
    destruct base as [[| | | | |bm]|], current as [[| | | | |cm]|]; cbn [valueAsMap agree] in *;
      try (rewrite decide_False by done; exact I).
    cbv zeta. destruct (decide (filterReconcileOverridePatch bm cm pm = ∅)); [done|]. simpl. rewrite filter_patch_lookup, Epv. simpl. by apply IH.
Qed.

Lemma merge_lookup target pm k :
  let tm := match target with Some (JObj tm) => tm | _ => ∅ end in
  get [k] (Some (merge_patch target (JObj pm))) =
    match pm !! k with None => tm !! k | Some JNull => None | Some pv => Some (merge_patch (tm !! k) pv) end.
Proof.
  intros tm. cbn [get merge_patch]. fold tm. clearbody tm.
  apply (map_fold_weak_ind (λ (acc pm : gmap string json), acc !! k =
    match pm !! k with None => tm !! k | Some JNull => None | Some pv => Some (merge_patch (tm !! k) pv) end)); [done|].
  intros i v pm' acc Hi IH. destruct (decide (i = k)) as [->|Hne].
  - rewrite lookup_insert_eq. destruct v; rewrite ?lookup_delete_eq, ?lookup_insert_eq; done.
  - rewrite (lookup_insert_ne pm') by done.
    destruct v; rewrite ?lookup_delete_ne, ?lookup_insert_ne by done; done.
Qed.

Lemma get_step k path j : get (k :: path) j = get path (get [k] j).
Proof. simpl. destruct j as [[]|]; simpl; by rewrite ?get_none. Qed.

(** Merging leaves what the patch does not reach. *)
Lemma merge_clear k path target pm :
  clear_along (k :: path) (Some (JObj pm)) →
  get (k :: path) (Some (merge_patch target (JObj pm))) = get (k :: path) target.
Proof.
  revert k target pm. induction path as [|k' path IH]; intros k target pm Hclear;
    rewrite get_step, merge_lookup; simpl in Hclear; destruct (pm !! k) as [pv|]; try done.
  1, 3: destruct target as [[]|]; simpl; by rewrite ?lookup_empty, ?get_none.
  destruct pv as [| | | | |pm']; try done. rewrite IH by done.
  destruct target as [[]|]; simpl; by rewrite ?lookup_empty, ?get_none.
Qed.

(** Merging puts the leaves of the patch into place; a null deletes. *)
Lemma merge_leaf k path target pm v :
  get (k :: path) (Some (JObj pm)) = Some v → leaf v →
  get (k :: path) (Some (merge_patch target (JObj pm))) = if decide (v = JNull) then None else Some v.
Proof.
  revert k target pm. induction path as [|k' path IH]; intros k target pm Hget Hleaf;
    rewrite get_step, merge_lookup; simpl in Hget; destruct (pm !! k) as [pv|]; simplify_eq.
  - simpl. destruct v; done.
  - destruct pv as [| | | | |pm']; try done. by apply IH.
Qed.

(** ** Properties *)

Section Properties.
Context `{JsonLib}.

Lemma marshal_not_empty j : Marshal j ≠ "".
Proof. intros Hm. pose proof (unmarshal_marshal j) as Hu. rewrite Hm, unmarshal_empty in Hu. done. Qed.

Lemma marshal_inj a b : Marshal a = Marshal b → a = b.
Proof. intros Hab. apply (f_equal Unmarshal) in Hab. rewrite !unmarshal_marshal in Hab. by simplify_eq. Qed.

Lemma decodeSpec_marshal m : decodeSpec (Marshal (JObj m)) = Ok m.
Proof.
  unfold decodeSpec. rewrite unmarshal_marshal. destruct (String.eqb_spec (Marshal (JObj m)) ""); [|done].
  by destruct (marshal_not_empty (JObj m)).
Qed.

(** The patch that is left and the spec it produces. *)
Definition merged_spec (base current patch : gmap string json) : json :=
  merge_patch (Some (JObj current)) (JObj (filterReconcileOverridePatch base current patch)).

Lemma merged_spec_leaf base current patch k path v :
  get (k :: path) (Some (JObj patch)) = Some v → leaf v →
  get (k :: path) (Some (merged_spec base current patch)) =
    if decide (agree (k :: path) (Some (JObj base)) (Some (JObj current)))
    then if decide (v = JNull) then None else Some v
    else get (k :: path) (Some (JObj current)).
Proof.
  intros Hget Hleaf. unfold merged_spec. set (r := filterReconcileOverridePatch base current patch).
  assert (Hr : get (k :: path) (filterReconcileOverridePatchValue (Some (JObj base)) (Some (JObj current)) (JObj patch)) =
               get (k :: path) (Some (JObj r))).
  { rewrite filter_value_eq. cbn [valueAsMap]. fold r. cbv zeta. destruct (decide (r = ∅)) as [->|]; [|done].
    simpl. by rewrite lookup_empty, get_none. }
  pose proof (filter_leaf _ (Some (JObj base)) (Some (JObj current)) _ _ Hget Hleaf) as Hfl. rewrite Hr in Hfl.
  destruct (decide (agree (k :: path) (Some (JObj base)) (Some (JObj current)))) as [Ha|Ha].
  - by apply merge_leaf.
  - apply merge_clear. pose proof (filter_clear _ _ _ _ _ Hget Hleaf Ha) as Hc.
    rewrite filter_value_eq in Hc. cbn [valueAsMap] in Hc. fold r in Hc. cbv zeta in Hc.
    destruct (decide (r = ∅)) as [->|]; [|done]. simpl. rewrite lookup_empty. by destruct path.
Qed.

Lemma merged_spec_untouched base current patch k path :
  patch !! k = None →
  get (k :: path) (Some (merged_spec base current patch)) = get (k :: path) (Some (JObj current)).
Proof.
  intros Hk. apply merge_clear. simpl. rewrite filter_patch_lookup, Hk. by destruct path.
Qed.

Lemma merge_is_object t p : ∃ m, merge_patch t (JObj p) = JObj m.
Proof. simpl. by eexists. Qed.

(** The target an override is bound to. *)
Definition bound_to (o : reconcile_overrides) (cr : unstructured) : Prop :=
  ro_gvk o = u_gvk cr ∧ ro_namespace o = u_namespace cr ∧ ro_name o = u_name cr ∧
  gvk_group (ro_gvk o) ≠ "" ∧ gvk_version (ro_gvk o) ≠ "" ∧ gvk_kind (ro_gvk o) ≠ "".

Lemma validate_target_spec o cr :
  validateReconcileOverrideTarget (Some o) (Some cr) = Ok tt ↔ bound_to o cr.
Proof.
  unfold validateReconcileOverrideTarget, bound_to. destruct o as [p b [g v k] ns n], cr as [[g' v' k'] ns' n' u d obj].
  simpl. destruct (String.eqb_spec g ""), (String.eqb_spec v ""), (String.eqb_spec k ""), (String.eqb_spec g g'),
    (String.eqb_spec v v'), (String.eqb_spec k k'), (String.eqb_spec ns ns'), (String.eqb_spec n n'); simpl;
    (split; [intros [=]; try by simplify_eq; split_and!|intros ([=] & ? & ? & ? & ? & ?)]); by simplify_eq.
Qed.

(** C4: A later explicit edit wins over an adopted override, and nothing else is
    lost: applying overrides to a rendered resource succeeds when it is the
    target they are bound to and changes only its spec; at each leaf of the
    patch the result is the adopted value (absent, for a null) if the rendered
    input along that path is still the one the patch was computed against,
    and the newly rendered value otherwise; top-level fields that the patch
    does not mention are the rendered ones. *)
Theorem explicit_edit_wins o cr base current patch :
  ro_baseSpec o = Marshal (JObj base) → ro_specPatch o = Marshal (JObj patch) →
  u_object cr !! "spec" = Some (JObj current) → bound_to o cr →
  ∃ spec', ApplyReconcileOverrides (Some o) cr = Ok (set_spec_field spec' cr) ∧
    (∀ k path v, get (k :: path) (Some (JObj patch)) = Some v → leaf v →
       get (k :: path) (Some (JObj spec')) =
         if decide (agree (k :: path) (Some (JObj base)) (Some (JObj current)))
         then if decide (v = JNull) then None else Some v
         else get (k :: path) (Some (JObj current))) ∧
    (∀ k, patch !! k = None → spec' !! k = current !! k).
Proof.
  intros Hbase Hpatch Hspec Hbound. unfold ApplyReconcileOverrides.
  rewrite Hpatch. destruct (String.eqb_spec (Marshal (JObj patch)) ""); [by destruct (marshal_not_empty (JObj patch))|].
  rewrite (proj2 (validate_target_spec o cr) Hbound). simpl. unfold primarySpec. rewrite Hspec. simpl.
  rewrite decodeSpec_marshal. simpl. unfold effectiveReconcileOverridePatch.
  rewrite Hbase, Hpatch, !decodeSpec_marshal. simpl.
  set (r := filterReconcileOverridePatch base current patch).
  destruct (merge_is_object (Some (JObj current)) r) as [spec' Hspec'].
  pose proof (merged_spec_leaf base current patch) as Hleaf. pose proof (merged_spec_untouched base current patch) as Hunt.
  unfold merged_spec in Hleaf, Hunt. fold r in Hleaf, Hunt. rewrite Hspec' in Hleaf, Hunt.
  exists spec'. split; [|split; [by eauto|intros k Hk; apply (Hunt k [] Hk)]].
  destruct (String.eqb_spec (Marshal (JObj r)) ""); [by destruct (marshal_not_empty (JObj r))|].
  destruct (String.eqb_spec (Marshal (JObj r)) "{}") as [Hr|_]; simpl.
  - rewrite <- marshal_empty_object in Hr. apply marshal_inj in Hr. simplify_eq. rewrite Hr in Hspec'.
    simpl in Hspec'. rewrite map_fold_empty in Hspec'. simplify_eq. f_equal. destruct cr; unfold set_spec_field; simpl in *.
    by rewrite insert_id.
  - destruct (MergePatch_spec current r) as (raw & -> & Hraw). rewrite Hspec' in Hraw.
    unfold decodeSpec. rewrite Hraw. destruct (String.eqb_spec raw "") as [->|]; [|done].
    by rewrite unmarshal_empty in Hraw.
Qed.

Ltac refuse :=
  split; [done|intros (s' & cr' & spec' & Hs & Hn & Hg & Hns & Hnm & Hl & Hu & Hu' & Hrest);
               simplify_eq; first [congruence|tauto]].

(** The last check before a resumed write lets it through only if the
    rendered resource is the one of the pause session and the live resource
    has the session's UID and the spec the adoption was computed from (equal
    specs always pass, and a spec with another hash never does). *)
Theorem resumed_write_verified live snapshot rendered :
  VerifyPausedPrimaryCustomResourceForApply live snapshot rendered = Ok tt ↔
  ∃ s cr spec, snapshot = Some s ∧ ps_adoptedLiveSpecHash s ≠ "" ∧
    ps_gvk s = u_gvk rendered ∧ ps_namespace s = u_namespace rendered ∧ ps_name s = u_name rendered ∧
    live (ps_gvk s) (ps_namespace s) (ps_name s) = Ok cr ∧ ps_resourceUID s ≠ "" ∧ ps_resourceUID s = u_uid cr ∧
    default (JObj ∅) (u_object cr !! "spec") = JObj spec ∧ specHash (Marshal (JObj spec)) = ps_adoptedLiveSpecHash s.
Proof.
  unfold VerifyPausedPrimaryCustomResourceForApply, PausedPrimaryCustomResourceSpecMatchesAdoption, matchesSnapshotTarget.
  destruct snapshot as [s|]; [|refuse].
  destruct (String.eqb_spec (ps_adoptedLiveSpecHash s) ""); [refuse|].
  case_decide as Ht; simpl; [|refuse].
  destruct (live _ _ _) as [cr|e] eqn:El; [|destruct (is_not_found e); refuse].
  destruct (String.eqb_spec (ps_resourceUID s) ""); simpl; [refuse|].
  destruct (String.eqb_spec (ps_resourceUID s) (u_uid cr)); simpl; [|refuse].
  unfold primarySpec, decodeSpec. rewrite unmarshal_marshal.
  destruct (String.eqb_spec (Marshal (default (JObj ∅) (u_object cr !! "spec"))) "") as [Hm|_];
    [by destruct (marshal_not_empty (default (JObj ∅) (u_object cr !! "spec")))|].
  destruct (default (JObj ∅) (u_object cr !! "spec")) as [| | | | |spec] eqn:Es; simpl;
    try (split; [done|intros (s' & cr' & spec' & [= <-] & _ & _ & _ & _ & Hl & _ & _ & Hd & _); congruence]).
  destruct (String.eqb_spec (specHash (Marshal (JObj spec))) (ps_adoptedLiveSpecHash s)) as [Hh|Hh]; simpl.
  - split; [|done]. intros _. exists s, cr, spec. by destruct Ht as (? & ? & ?).
  - split; [done|]. intros (s' & cr' & spec' & [= <-] & _ & _ & _ & _ & Hl & _ & _ & Hd & Hh'). congruence.
Qed.
End Properties.

(** ** An implementation of the libraries, and the properties at concrete inputs

    Texts are binary codes, other than that of the empty object. *)

Fixpoint pos_to_bits (p : positive) : string :=
  match p with xH => "" | xO p => String "0"%char (pos_to_bits p) | xI p => String "1"%char (pos_to_bits p) end.
Fixpoint bits_to_pos (s : string) : positive :=
  match s with
  | EmptyString => xH
  | String a s => if Ascii.eqb a "0"%char then xO (bits_to_pos s) else xI (bits_to_pos s)
  end.

Lemma bits_roundtrip p : bits_to_pos (pos_to_bits p) = p.
Proof. induction p as [p IH|p IH|]; simpl; by rewrite ?IH. Qed.

Definition code (j : json) : string :=
  if decide (j = JObj ∅) then "{}" else String "#"%char (pos_to_bits (encode j)).
Definition uncode (s : string) : option json :=
  if String.eqb s "{}" then Some (JObj ∅)
  else match s with String "#"%char s => decode (bits_to_pos s) | _ => None end.

Lemma uncode_code j : uncode (code j) = Some j.
Proof.
  unfold uncode, code. case_decide as Hj; [by subst|]. simpl. by rewrite bits_roundtrip, decode_encode.
Qed.

Definition merge_codes (t p : string) : option string :=
  match uncode t, uncode p with
  | Some t, Some p => Some (code (merge_patch (Some t) p))
  | _, _ => None
  end.

Lemma merge_codes_spec t p : ∃ raw, merge_codes (code (JObj t)) (code (JObj p)) = Some raw ∧
  uncode raw = Some (merge_patch (Some (JObj t)) (JObj p)).
Proof. unfold merge_codes. rewrite !uncode_code. eexists. split; [done|apply uncode_code]. Qed.

Lemma code_empty_object : code (JObj ∅) = "{}".
Proof. unfold code. by rewrite decide_True. Qed.

Definition coded_json : JsonLib :=
  Build_JsonLib code uncode (λ s, "h" +:+ s) merge_codes uncode_code eq_refl code_empty_object merge_codes_spec.

Definition redis_gvk : gvk := GVK "redis.io" "v1" "Redis".
Definition rendered (spec : gmap string json) : unstructured :=
  Unstructured redis_gvk "prod" "cache" "uid-7" false {["spec" := JObj spec]}.

(** During the pause an administrator changed [size] and [mode]; later the
    Middleware itself was edited at [mode]. *)
Definition base_spec : gmap string json := {["size" := JStr "1"; "mode" := JStr "single"]}.
Definition patch_spec : gmap string json := {["size" := JStr "3"; "mode" := JStr "cluster"]}.
Definition current_spec : gmap string json := {["size" := JStr "1"; "mode" := JStr "sentinel"]}.
Definition overrides1 : reconcile_overrides :=
  ReconcileOverrides (code (JObj patch_spec)) (code (JObj base_spec)) redis_gvk "prod" "cache".

Lemma explicit_edit_wins_witness :
  ∃ spec', @ApplyReconcileOverrides coded_json (Some overrides1) (rendered current_spec) =
             Ok (set_spec_field spec' (rendered current_spec)) ∧
    spec' !! "size" = Some (JStr "3") ∧ spec' !! "mode" = Some (JStr "sentinel").
Proof.
  destruct (@explicit_edit_wins coded_json overrides1 (rendered current_spec) base_spec current_spec patch_spec
    eq_refl eq_refl eq_refl) as (spec' & Happ & Hleaf & _).
  { repeat split; discriminate. }
  exists spec'. split; [exact Happ|]. split.
  - transitivity (get ["size"] (Some (JObj spec'))); [reflexivity|].
    rewrite (Hleaf "size" [] (JStr "3") eq_refl I). vm_compute. reflexivity.
  - transitivity (get ["mode"] (Some (JObj spec'))); [reflexivity|].
    rewrite (Hleaf "mode" [] (JStr "cluster") eq_refl I). vm_compute. reflexivity.
Defined.

Definition snapshot1 : pause_status :=
  ReconcilePauseStatus "sec" redis_gvk "prod" "cache" "uid-7" 3 "hash" 10
    (@specHash coded_json (code (JObj current_spec))).

Lemma resumed_write_verified_witness :
  @VerifyPausedPrimaryCustomResourceForApply coded_json (λ _ _ _, Ok (rendered current_spec)) (Some snapshot1)
    (rendered patch_spec) = Ok tt.
Proof.
  apply (@resumed_write_verified coded_json). exists snapshot1, (rendered current_spec), current_spec.
  repeat split; discriminate.
Defined.
