(* ===== verification/JsonTools.v ===== *)
(** * The structural merge and comparison of JSON values

    [pkg/tools/json.go], [array.go] and [map.go] on decoded values ([Json]).

    A decoded value is a tree, and the merge is given two of them.  The code
    merges in place and lets the result share objects with its second argument;
    the sharing can be seen only if two elements of one array carry the same
    name, or if an array mixes objects with other values.  The theorems below
    exclude the first ([well_named]) and speak of arrays of objects. *)
From Stdlib Require Import Ascii String ZArith Lia.
From stdpp Require Import base gmap strings list option sorting pretty.
From S2P Require Import Prelude GoStrings Prog Middleware Json Adoption.

(** ** Merging *)

(** [ArrayStructKey], pkg/tools/json.go *)
Definition ArrayStructKey : list string := ["name"; "serviceAccountName"].

(** [==] on two values of type [any]: it panics if both are maps or both are slices. *)
Definition go_eq (a b : json) : option bool :=
  match a, b with
  | JObj _, JObj _ | JArr _, JArr _ => None
  | _, _ => Some (bool_decide (a = b))
  end.

(** The keys two elements have in common: has one been seen, and is one equal?
    [None]: the comparison panics. *)
(** [MergeArray], pkg/tools/json.go:168-179 *)
Fixpoint match_keys (asks : list string) (o v : gmap string json) (keyFound : bool) : option (bool * bool) :=
  match asks with
  | [] => Some (keyFound, false)
  | ask :: asks =>
      match o !! ask, v !! ask with
      | Some x, Some y => eq ← go_eq x y; if (eq : bool) then Some (true, true) else match_keys asks o v true
      | _, _ => match_keys asks o v keyFound
      end
  end.

(** An element of an array under construction: [None] is the nil map that a
    recovered panic leaves. *)
Abbreviation slot := (option json).
Definition slot_json (s : slot) : json := default JNull s.

(** [MergeArray], pkg/tools/json.go:166-181 *)
Fixpoint merge_matching (merge : json → slot) (v : gmap string json) (old : list slot) (keyFound found : bool) :
    option (list slot * bool * bool) :=
  match old with
  | [] => Some ([], keyFound, found)
  | o :: old =>
      match o with
      | Some (JObj om) =>
          '(keyFound, matches) ← match_keys ArrayStructKey om v keyFound;
          '(rest, keyFound, found) ← merge_matching merge v old keyFound (found || matches);
          Some ((if (matches : bool) then merge (JObj om) else o) :: rest, keyFound, found)
      | _ =>
          '(rest, keyFound, found) ← merge_matching merge v old keyFound found;
          Some (o :: rest, keyFound, found)
      end
  end.

Section Loops.
(** What a value [v] makes of the one it is merged into. *)
Context (merge_value : json → option json → option json).

(** [MergeMap] of an object of the array and the object [v]. *)
Definition merge_slot (v : json) (o : json) : slot :=
  match merge_value v (Some o) with Some (JObj m) => Some (JObj m) | _ => None end.

(** [MergeArray], pkg/tools/json.go:182-192 *)
Definition merge_at (newIdx : nat) (v : json) (old : list slot) : list slot :=
  if (newIdx + 1 <=? length old)%nat then
    alter (λ o, match o with
           | None => None
           | Some (JObj om) => merge_slot v (JObj om)
           | Some _ => Some v
           end) newIdx old
  else old ++ [Some v].

(** [None]: the loop panics. *)
(** [MergeArray], pkg/tools/json.go:154-203 *)
Fixpoint merge_loop (new : list json) (newIdx : nat) (rest : list json) (old : list slot) : option (list slot) :=
  match rest with
  | [] => Some old
  | v :: rest =>
      old ← match v with
        | JObj vm =>
            '(old, keyFound, found) ← merge_matching (merge_slot v) vm old false false;
            Some (if negb keyFound then merge_at newIdx v old
                  else if negb found then old ++ [Some v] else old)
        | _ => Some (map Some new)
        end;
      merge_loop new (S newIdx) rest old
  end.

(** [None]: a panic, which the code recovers; it returns a nil map. *)
(** [MergeMap], pkg/tools/json.go:104-137 *)
Definition merge_entries (old new : gmap string json) : option (gmap string json) :=
  map_fold (λ k v (acc : option (gmap string json)),
    acc ← acc; x ← merge_value v (old !! k); Some (<[k := x]> acc)) (Some old) new.
End Loops.

(** What becomes of [old[k]] when the new map has [v] there: [None] is a panic. *)
(** [MergeMap], pkg/tools/json.go:104-137 *)
Fixpoint merge_value (v : json) (old : option json) : option json :=
  match v, old with
  | JObj new, Some (JObj old) =>
      Some (match merge_entries merge_value old new with Some m => JObj m | None => JNull end)
  | JArr new, Some (JArr old) =>
      match merge_loop merge_value new 0 new (map Some old) with Some l => Some (JArr (map slot_json l)) | None => None end
  | _, _ => Some v
  end.

(** [None] is a nil map. *)
(** [MergeMap], pkg/tools/json.go *)
Definition MergeMap (old new : gmap string json) : option (gmap string json) := merge_entries merge_value old new.

(** [None] is a panic. *)
(** [MergeArray], pkg/tools/json.go *)
Definition MergeArray (old new : list json) : option (list json) :=
  match merge_loop merge_value new 0 new (map Some old) with Some l => Some (map slot_json l) | None => None end.

(** [MergeMapString], pkg/tools/json.go *)
Definition MergeMapString (old new : gmap string string) : gmap string string :=
  map_fold (λ k v (old : gmap string string), if String.eqb (old.[k]) "" then <[k := v]> old else <[k := v]> old) old new.

(** *** [StructMerge] of two values that encode as [old] and [new] *)

(** [StructMergeType], pkg/tools/json.go *)
Inductive StructMergeType := StructMergeMapType | StructMergeArrayType.

(** What is decoded into the second argument, if anything is. *)
Inductive merge_outcome :=
  | Untouched
  | Decode (j : json)
  | MergeFails (msg : string)
  | MergePanics.

(** [StructMerge], pkg/tools/json.go *)
Definition StructMerge (old new : json) (typo : StructMergeType) : merge_outcome :=
  match old, new with
  | JNull, _ => Untouched
  | _, JNull => Decode old
  | _, _ =>
      match typo with
      | StructMergeMapType =>
          match old, new with
          | JObj old, JObj new => Decode (match MergeMap old new with Some m => JObj m | None => JNull end)
          | JObj _, _ => MergeFails "failed to unmarshal new object"
          | _, _ => MergeFails "failed to unmarshal old object"
          end
      | StructMergeArrayType =>
          match old, new with
          | JArr old, JArr new => match MergeArray old new with Some l => Decode (JArr l) | None => MergePanics end
          | JArr _, _ => MergeFails "failed to unmarshal new object"
          | _, _ => MergeFails "failed to unmarshal old object"
          end
      end
  end.

(** ** Comparing *)

(** [compareValue], pkg/tools/json.go *)
Fixpoint compareValue (oldVal newVal : json) : bool :=
  match oldVal with
  | JObj old =>
      match newVal with
      | JObj new => (size old =? size new)%nat &&
          map_fold (λ k v acc, match new !! k with Some newV => compareValue v newV | None => false end && acc) true old
      | _ => false
      end
  | JArr old =>
      match newVal with
      | JArr new => (length old =? length new)%nat &&
          (fix go old new := match old, new with
           | v :: old, newV :: new => compareValue v newV && go old new
           | _, _ => true
           end) old new
      | _ => false
      end
  | _ => bool_decide (oldVal = newVal)
  end.

(** [compareMap], pkg/tools/json.go *)
Definition compareMap (oldMap newMap : gmap string json) : bool := compareValue (JObj oldMap) (JObj newMap).
(** [compareSlice], pkg/tools/json.go *)
Definition compareSlice (oldSlice newSlice : list json) : bool := compareValue (JArr oldSlice) (JArr newSlice).

(** A JSON null decodes into a nil map or slice, which has no entries. *)
(** [StructCompare], pkg/tools/json.go *)
Definition StructCompare (old new : json) (typo : StructMergeType) : result error bool :=
  let decoded (which : string) (r : option json) : result error json :=
    match r with Some j => Ok j | None => Err (new_error ("failed to unmarshal " +:+ which +:+ " object")) end in
  match old, new with
  | JNull, JNull => Ok true
  | _, _ =>
      let as_map j := match j with JObj m => Some (JObj m) | JNull => Some (JObj ∅) | _ => None end in
      let as_slice j := match j with JArr l => Some (JArr l) | JNull => Some (JArr []) | _ => None end in
      let read := match typo with StructMergeMapType => as_map | StructMergeArrayType => as_slice end in
      o ← decoded "old" (read old); n ← decoded "new" (read new); Ok (compareValue o n)
  end.

(** [IsExistInStringSlice], pkg/tools/array.go *)
Fixpoint IsExistInStringSlice (slice : list string) (target : string) : bool :=
  match slice with
  | [] => false
  | s :: slice => if String.eqb s target then true else IsExistInStringSlice slice target
  end.

(** The [null] document leaves the map it is decoded into nil. *)
(** [JsonToMap], pkg/tools/map.go *)
Definition JsonToMap `{!JsonLib} (jsonBytes : string) : result error (gmap string json) :=
  match Unmarshal jsonBytes with
  | Some (JObj m) => Ok m
  | Some JNull => Ok ∅
  | Some _ => Err (new_error "cannot unmarshal into a map")
  | None => Err (new_error "invalid JSON")
  end.

(** ** Comparing by leaves

    [CompareJson] reads both values with gjson, which here is given the values
    themselves.  [result_string] is gjson's text of a value and [sprint] that
    of [fmt.Sprintf("%v")]; [sort.Slice] keeps the order of equal keys. *)
Section CompareJson.
Context `{!JsonLib, !MapOrder} (result_string sprint : json → string).

(** [generateComparableKey], pkg/tools/json.go *)
Definition generateComparableKey (value : json) : string :=
  match value with
  | JStr v => v
  | JNum _ | JBool _ => sprint value
  | _ => Marshal value
  end.

(** [isStructArray], pkg/tools/json.go *)
Fixpoint isStructArray (array : list json) : bool :=
  match array with
  | [] => true
  | JObj m :: array => match m !! "name" with Some _ => isStructArray array | None => false end
  | _ :: _ => false
  end.

(** What an element of a struct array is sorted by. *)
(** [sortStructArrayByName], pkg/tools/json.go *)
Definition sort_name (item : json) : string :=
  match item with JObj m => match m !! "name" with Some v => result_string v | None => "" end | _ => "" end.

(** The elements, here with what is computed of them, in the order in which
    the code visits them. *)
(** [sortArray], pkg/tools/json.go *)
Definition sort_elements {A} (array : list (json * A)) : list A :=
  let key := if isStructArray (fst <$> array) then sort_name else generateComparableKey in
  snd <$> sort_by (λ e : json * A, key e.1) array.

Fixpoint escape_dots (s : string) : string :=
  match s with
  | EmptyString => EmptyString
  | String a s => if Ascii.eqb a "."%char then String "\"%char (String a (escape_dots s)) else String a (escape_dots s)
  end.

(** The leaves in the order in which they are stored. *)
(** [recursionHandleNode], pkg/tools/json.go *)
Fixpoint recursionHandleNode (node : json) (key : string) : list (string * json) :=
  match node with
  | JObj m =>
      concat (map (λ '(s, handle), handle (key +:+ "." +:+ escape_dots s)) (visit (recursionHandleNode <$> m)))
  | JArr array =>
      concat (imap (λ i handle, handle (key +:+ "." +:+ pretty i))
        (sort_elements ((fix go array := match array with
           | [] => [] | r :: array => (r, recursionHandleNode r) :: go array end) array)))
  | _ => [(drop_string 1 key, node)]
  end.

(** [ExtractJsonKey], pkg/tools/json.go *)
Definition ExtractJsonKey (j : json) : result error (gmap string json) :=
  match j with
  | JObj _ | JArr _ =>
      Ok (fold_left (λ (jsonMap : gmap string json) '(key, v), <[key := v]> jsonMap) (recursionHandleNode j "") ∅)
  | _ => Err (new_error "invalid json format")
  end.

(** [CompareJson], pkg/tools/json.go *)
Definition CompareJson (new old : json) : result error bool :=
  match ExtractJsonKey new, ExtractJsonKey old with
  | Err _, _ => Err (new_error "invalid new json format")
  | _, Err _ => Err (new_error "invalid old json format")
  | Ok newKeyMap, Ok oldKeyMap =>
      Ok (bool_decide (map_Forall (λ k v, v = JNull ∨ default JNull (newKeyMap !! k) = v) oldKeyMap))
  end.
End CompareJson.

(** ** Lemmas: the merge of maps, entry by entry *)

Section Entries.
Context (f : json → option json → option json) (old : gmap string json).

Definition merged_at (new : gmap string json) (k : string) : option json :=
  match new !! k with Some v => f v (old !! k) | None => old !! k end.

Lemma merge_entries_spec new :
  match merge_entries f old new with
  | Some m => (∀ k, m !! k = merged_at new k) ∧ ∀ k v, new !! k = Some v → is_Some (f v (old !! k))
  | None => ∃ k v, new !! k = Some v ∧ f v (old !! k) = None
  end.
Proof.
  unfold merge_entries, merged_at. apply (map_fold_weak_ind (λ (acc : option (gmap string json)) new,
    match acc with
    | Some m => (∀ k, m !! k = match new !! k with Some v => f v (old !! k) | None => old !! k end) ∧
                ∀ k v, new !! k = Some v → is_Some (f v (old !! k))
    | None => ∃ k v, new !! k = Some v ∧ f v (old !! k) = None
    end)).
  { split; [intros k; by rewrite lookup_empty|]. intros k v. by rewrite lookup_empty. }
  intros i x new' acc Hi IH. destruct acc as [m|]; simpl.
  - destruct IH as [Hm Hok]. destruct (f x (old !! i)) as [y|] eqn:Ef; simpl.
    + split.
      * intros k. destruct (decide (i = k)) as [<-|Hne]; [by rewrite !lookup_insert_eq|].
        rewrite !lookup_insert_ne by done. apply Hm.
      * intros k v. destruct (decide (i = k)) as [<-|Hne]; [rewrite lookup_insert_eq; intros [= <-]; by rewrite Ef|].
        rewrite lookup_insert_ne by done. apply Hok.
    + exists i, x. by rewrite lookup_insert_eq.
  - destruct IH as (k & v & Hk & Hf). exists k, v. split; [|done]. rewrite lookup_insert_ne; congruence.
Qed.

Lemma merge_entries_some new :
  (∀ k v, new !! k = Some v → is_Some (f v (old !! k))) →
  ∃ m, merge_entries f old new = Some m ∧ ∀ k, m !! k = merged_at new k.
Proof.
  intros Hok. pose proof (merge_entries_spec new) as Hs. destruct (merge_entries f old new) as [m|]; [naive_solver|].
  destruct Hs as (k & v & Hk & Hf). destruct (Hok k v Hk). congruence.
Qed.
End Entries.

(** ** Types of values

    A shape says which values are lists keyed by a name; [null] has every
    shape, as the zero value of a Go struct field encodes. *)
Inductive shape :=
  | SScalar
  | SPlain
  | SObj (field : string → shape)
  | SKeyed (ask : string) (elem : shape).

Definition is_object (v : json) : bool := match v with JObj _ => true | _ => false end.

(** An object with a text under [ask] and nothing under the other key. *)
Definition named (ask n : string) (v : json) : Prop :=
  match v with
  | JObj m => m !! ask = Some (JStr n) ∧ ∀ k, k ∈ ArrayStructKey → k ≠ ask → m !! k = None
  | _ => False
  end.

Definition elem_name (ask : string) (v : json) : string :=
  match v with JObj m => match m !! ask with Some (JStr n) => n | _ => "" end | _ => "" end.

Fixpoint has_shape (s : shape) (j : json) : Prop :=
  match s with
  | SScalar => match j with JObj _ | JArr _ => False | _ => True end
  | SPlain => match j with JNull => True | JArr l => Forall (λ v, is_object v = false) l | _ => False end
  | SObj field => match j with JNull => True | JObj m => ∀ k v, m !! k = Some v → has_shape (field k) v | _ => False end
  | SKeyed ask elem =>
      ask ∈ ArrayStructKey ∧
      match j with
      | JNull => True
      | JArr l => NoDup (elem_name ask <$> l) ∧ ∀ v, v ∈ l → named ask (elem_name ask v) v ∧ has_shape elem v
      | _ => False
      end
  end.

Lemma named_object ask n v : named ask n v → is_object v = true.
Proof. by destruct v. Qed.

Lemma named_elem_name ask n v : named ask n v → elem_name ask v = n.
Proof. destruct v as [| | | | |m]; simpl; try done. by intros [-> _]. Qed.

Lemma match_keys_named ask n n' om vm kf :
  ask ∈ ArrayStructKey → named ask n (JObj om) → named ask n' (JObj vm) →
  match_keys ArrayStructKey om vm kf = Some (true, bool_decide (n = n')).
Proof.
  intros Hask [Ho Ho'] [Hv Hv']. assert (Heq : bool_decide (JStr n = JStr n') = bool_decide (n = n')).
  { apply bool_decide_ext. naive_solver. }
  unfold ArrayStructKey in *. apply elem_of_cons in Hask as [-> | Hask]; [|apply list_elem_of_singleton in Hask as ->].
  - specialize (Ho' "serviceAccountName"). simpl. rewrite Ho, Hv. simpl. rewrite Heq.
    destruct (bool_decide (n = n')); [done|]. rewrite Ho' by (done || (apply elem_of_cons; right; by apply list_elem_of_singleton)). done.
  - specialize (Ho' "name"). simpl. rewrite Ho' by (done || (apply elem_of_cons; by left)).
    simpl. rewrite Ho, Hv. simpl. rewrite Heq. by destruct (bool_decide (n = n')).
Qed.

(** ** Lemmas: the merge of keyed lists, element by element *)

Section Keyed.
Context (ask : string) (Hask : ask ∈ ArrayStructKey).
Notation name := (elem_name ask).

Definition all_named (l : list json) : Prop := ∀ v, v ∈ l → named ask (name v) v.

(** The elements of [old] merged with the [v] of the same name. *)
Definition merge_same (v o : json) : json :=
  if String.eqb (name o) (name v) then default JNull (merge_value v (Some o)) else o.
Definition has_name (old : list json) (v : json) : bool := existsb (λ o, String.eqb (name o) (name v)) old.
Definition merge_named (old : list json) (v : json) : list json :=
  if has_name old v then map (merge_same v) old else old ++ [v].

(** No merge of elements of [old] with [v] leaves a nil map. *)
Definition mergeable (v : json) (old : list json) : Prop :=
  ∀ o, o ∈ old → name o = name v → ∃ m, merge_value v (Some o) = Some (JObj m).

Lemma merge_matching_named v vm old kf fd :
  all_named old → v = JObj vm → named ask (name v) v → mergeable v old →
  merge_matching (merge_slot merge_value v) vm (map Some old) kf fd =
  Some (map Some (map (merge_same v) old), match old with [] => kf | _ => true end, fd || has_name old v).
Proof.
  intros Hall -> Hv Hm. revert kf fd Hall Hm. induction old as [|o old IH]; intros kf fd Hall Hm.
  { simpl. by rewrite orb_false_r. }
  assert (Ho : named ask (name o) o) by (apply Hall, elem_of_cons; by left).
  pose proof (named_object _ _ _ Ho) as Hobj. destruct o as [| | | | |om]; try done.
  assert (Hrest : ∀ kf fd, merge_matching (merge_slot merge_value (JObj vm)) vm (map Some old) kf fd = _)
    by (intros; apply IH; intros o' ?; [apply Hall|apply Hm]; apply elem_of_cons; by right).
  cbn [map merge_matching]. rewrite (match_keys_named _ _ _ _ _ _ Hask Ho Hv). cbn [mbind option_bind].
  rewrite Hrest. cbn [mbind option_bind]. unfold merge_same at 2, has_name. cbn [existsb].
  f_equal. f_equal; [f_equal|].
  - f_equal. destruct (String.eqb_spec (name (JObj om)) (name (JObj vm))) as [Heq|Hne].
    + rewrite bool_decide_eq_true_2 by done. unfold merge_slot.
      destruct (Hm (JObj om)) as [m ->]; [apply elem_of_cons; by left|done|done].
    + by rewrite bool_decide_eq_false_2.
  - by destruct old.
  - rewrite <- orb_assoc. f_equal. f_equal. apply Bool.eq_true_iff_eq.
    by rewrite bool_decide_eq_true, String.eqb_eq.
Qed.

Lemma has_name_false old v o : has_name old v = false → o ∈ old → name o ≠ name v.
Proof.
  intros Hh Ho Heq. enough (has_name old v = true) by congruence. apply existsb_exists. exists o.
  by rewrite String.eqb_eq, <- list_elem_of_In.
Qed.

Lemma merge_same_id old v : has_name old v = false → map (merge_same v) old = old.
Proof.
  intros Hh. rewrite <- (map_id old) at 2. apply map_ext_in. intros o Ho%list_elem_of_In. unfold merge_same.
  destruct (String.eqb_spec (name o) (name v)); [|done]. by destruct (has_name_false old v o).
Qed.

Lemma merge_loop_named new i v rest old :
  all_named old → named ask (name v) v → mergeable v old →
  merge_loop merge_value new i (v :: rest) (map Some old) =
  merge_loop merge_value new (S i) rest (map Some (merge_named old v)).
Proof.
  intros Hall Hv Hm. pose proof (named_object _ _ _ Hv) as Hobj. destruct v as [| | | | |vm]; try done.
  cbn [merge_loop]. rewrite (merge_matching_named (JObj vm)) by done. cbn [mbind option_bind]. unfold merge_named.
  destruct old as [|o old].
  { cbn [negb]. unfold merge_at. cbn [map length]. destruct (Nat.leb_spec (i + 1) 0); [lia|done]. }
  cbn [negb orb]. destruct (has_name (o :: old) (JObj vm)) eqn:Eh; cbn [negb]; f_equal.
  by rewrite merge_same_id, map_app.
Qed.

Lemma named_merge v o m : named ask (name v) v → named ask (name o) o → name o = name v →
  merge_value v (Some o) = Some (JObj m) → named ask (name v) (JObj m).
Proof.
  intros Hv Ho Hn Hm. destruct v as [| | | | |vm]; try done. destruct o as [| | | | |om]; try done.
  simpl in Hm. pose proof (merge_entries_spec merge_value om vm) as Hs.
  destruct (merge_entries merge_value om vm) as [m'|]; [|done]. injection Hm as ->. destruct Hs as [Hl _].
  destruct Hv as [Hv Hv'], Ho as [Ho Ho']. split.
  - rewrite Hl. unfold merged_at. by rewrite Hv.
  - intros k Hk Hne. rewrite Hl. unfold merged_at. by rewrite Hv', Ho'.
Qed.

Lemma merge_same_named v o : named ask (name v) v → named ask (name o) o →
  (name o = name v → ∃ m, merge_value v (Some o) = Some (JObj m)) →
  named ask (name o) (merge_same v o).
Proof.
  intros Hv Ho Hm. unfold merge_same. destruct (String.eqb_spec (name o) (name v)) as [Heq|Hne]; [|done].
  destruct (Hm Heq) as [m Em]. rewrite Em. simpl. rewrite Heq. by eapply named_merge.
Qed.

Lemma name_merge_same v o : named ask (name v) v → named ask (name o) o →
  (name o = name v → ∃ m, merge_value v (Some o) = Some (JObj m)) → name (merge_same v o) = name o.
Proof. intros. by apply named_elem_name, merge_same_named. Qed.

(** The names of the result: those of [old], then a new one. *)
Lemma names_merge_named old v : all_named old → named ask (name v) v → mergeable v old →
  name <$> merge_named old v = if has_name old v then name <$> old else (name <$> old) ++ [name v].
Proof.
  intros Hall Hv Hm. unfold merge_named. destruct (has_name old v); [|by rewrite fmap_app].
  rewrite <- list_fmap_compose. apply list_fmap_ext. intros i o Ho%list_elem_of_lookup_2. simpl.
  apply name_merge_same; auto.
Qed.

Lemma all_named_merge old v : all_named old → named ask (name v) v → mergeable v old → all_named (merge_named old v).
Proof.
  intros Hall Hv Hm w Hw. unfold merge_named in Hw. destruct (has_name old v).
  - apply list_elem_of_In, in_map_iff in Hw as (o & <- & Ho%list_elem_of_In).
    rewrite name_merge_same; auto. apply merge_same_named; auto.
  - apply elem_of_app in Hw as [?| ->%list_elem_of_singleton]; auto.
Qed.

Lemma NoDup_merge_named old v : all_named old → named ask (name v) v → mergeable v old →
  NoDup (name <$> old) → NoDup (name <$> merge_named old v).
Proof.
  intros Hall Hv Hm Hnd. rewrite names_merge_named by done. destruct (has_name old v) eqn:Eh; [done|].
  apply NoDup_app. split_and!; [done| |apply NoDup_singleton].
  intros n (o & -> & Ho)%list_elem_of_fmap Hin%list_elem_of_singleton.
  by apply (has_name_false old v o).
Qed.
End Keyed.

(** ** The merge of two values of one shape *)

Lemma merge_loop_plain new i rest old :
  Forall (λ v, is_object v = false) rest →
  merge_loop merge_value new i rest old = Some (match rest with [] => old | _ => map Some new end).
Proof.
  intros Hrest. revert i old. induction Hrest as [|v rest Hv _ IH]; intros i old; [done|].
  destruct v; try done; cbn [merge_loop mbind option_bind]; rewrite IH; by destruct rest.
Qed.

Lemma slot_json_some (l : list json) : map slot_json (map Some l) = l.
Proof. induction l as [|v l IH]; simpl; [done|]. by rewrite IH. Qed.

(** [good v]: a value that merges, without a panic, to one of the shape. *)
Definition merges (s : shape) (v : json) (old : option json) : Prop :=
  ∃ r, merge_value v old = Some r ∧ has_shape s r ∧ (is_object v = true → is_object r = true).

Section KeyedShape.
Context (ask : string) (Hask : ask ∈ ArrayStructKey) (elem : shape).
Context (IH : ∀ v o, has_shape elem v → has_shape elem o → merges elem v (Some o)).

Definition typed_elems (l : list json) : Prop := ∀ v, v ∈ l → named ask (elem_name ask v) v ∧ has_shape elem v.

Lemma typed_mergeable v l : typed_elems l → named ask (elem_name ask v) v → has_shape elem v → mergeable ask v l.
Proof.
  intros Hl Hv Hs o Ho _. destruct (Hl o Ho) as [Hn Hso]. destruct (IH v o Hs Hso) as (r & Hr & _ & Hobj).
  rewrite Hr. destruct r; try (specialize (Hobj (named_object _ _ _ Hv)); done). eauto.
Qed.

Lemma typed_merge_named l v : typed_elems l → named ask (elem_name ask v) v → has_shape elem v →
  typed_elems (merge_named ask l v).
Proof.
  intros Hl Hv Hs w Hw. assert (Hall : all_named ask l) by (intros o Ho; apply (Hl o Ho)).
  split; [by apply (all_named_merge ask l v Hall Hv (typed_mergeable v l Hl Hv Hs))|].
  unfold merge_named in Hw. destruct (has_name ask l v).
  - apply list_elem_of_In, in_map_iff in Hw as (o & <- & Ho%list_elem_of_In).
    unfold merge_same. destruct (String.eqb _ _); [|by apply Hl].
    destruct (IH v o Hs (proj2 (Hl o Ho))) as (r & -> & Hr & _). done.
  - apply elem_of_app in Hw as [?| ->%list_elem_of_singleton]; [by apply Hl|done].
Qed.

Lemma merge_loop_keyed new i rest old :
  typed_elems rest → typed_elems old → NoDup (elem_name ask <$> old) →
  merge_loop merge_value new i rest (map Some old) = Some (map Some (foldl (merge_named ask) old rest)) ∧
  typed_elems (foldl (merge_named ask) old rest) ∧ NoDup (elem_name ask <$> foldl (merge_named ask) old rest).
Proof.
  revert i old. induction rest as [|v rest IHr]; intros i old Hrest Hold Hnd; [done|].
  assert (Hall : all_named ask old) by (intros o Ho; apply (Hold o Ho)).
  destruct (Hrest v) as [Hv Hs]; [apply elem_of_cons; by left|].
  pose proof (typed_mergeable v old Hold Hv Hs) as Hm.
  rewrite (merge_loop_named ask Hask) by done. simpl. apply IHr.
  - intros w Hw. apply Hrest, elem_of_cons. by right.
  - by apply typed_merge_named.
  - by apply NoDup_merge_named.
Qed.
End KeyedShape.

Lemma merge_value_shape s v old :
  has_shape s v → (∀ o, old = Some o → has_shape s o) → merges s v old.
Proof.
  revert v old. induction s as [| |field IH|ask elem IH]; intros v old Hv Hold.
  - exists v. by destruct v.
  - destruct v as [| | | |l|m]; try done; [by exists JNull|].
    destruct old as [[| | | |lo|]|]; try by eexists.
    unfold merges; cbn [merge_value]. rewrite merge_loop_plain by done. eexists. split; [done|]. split; [|done].
    destruct l; simpl; rewrite ?slot_json_some; [by apply (Hold (JArr lo))|done].
  - destruct v as [| | | | |new]; try done; [by exists JNull|].
    destruct old as [[| | | | |o]|]; try by eexists.
    specialize (Hold _ eq_refl). simpl in Hv, Hold. unfold merges; cbn [merge_value].
    assert (Hok : ∀ k v, new !! k = Some v → merges (field k) v (o !! k)) by (intros k v Hk; apply IH; eauto).
    destruct (merge_entries_some merge_value o new) as (m & Hm & Hl).
    { intros k v Hk. destruct (Hok k v Hk) as (r & Hr & _). by exists r. }
    rewrite Hm. eexists. split; [done|]. split; [|done]. simpl. intros k v Hk. rewrite Hl in Hk. unfold merged_at in Hk.
    destruct (new !! k) as [w|] eqn:Ek; [|by eapply Hold]. destruct (Hok k w Ek) as (r & Hr & Hs & _). congruence.
  - destruct Hv as [Hask Hv]. destruct v as [| | | |l|]; try done; [by exists JNull|].
    destruct old as [[| | | |lo|]|]; try by eexists.
    destruct (Hold _ eq_refl) as [_ [Hnd Hlo]], Hv as [_ Hl]. unfold merges; cbn [merge_value].
    assert (IH' : ∀ v o, has_shape elem v → has_shape elem o → merges elem v (Some o)).
    { intros v o Hv Ho. apply IH; [done|]. by intros ? [= <-]. }
    destruct (merge_loop_keyed ask Hask elem IH' l 0 l lo) as (Heq & Htyped & Hnd'); try done.
    rewrite Heq. eexists. split; [done|]. split; [|done]. rewrite slot_json_some. by split.
Qed.

(** ** Paths through objects and keyed lists *)

Inductive path_step := Field (k : string) | Named (ask n : string).

Definition is_named (ask n : string) (v : json) : bool :=
  match v with JObj m => bool_decide (ask ∈ ArrayStructKey ∧ m !! ask = Some (JStr n)) | _ => false end.
Fixpoint find_named (ask n : string) (l : list json) : option json :=
  match l with [] => None | v :: l => if is_named ask n v then Some v else find_named ask n l end.

Fixpoint at_path (p : list path_step) (j : json) : option json :=
  match p with
  | [] => Some j
  | Field k :: p => match j with JObj m => m !! k ≫= at_path p | _ => None end
  | Named ask n :: p => match j with JArr l => find_named ask n l ≫= at_path p | _ => None end
  end.

(** [v] says nothing at [p]: it is objects and lists as far as it goes. *)
Fixpoint untouched (p : list path_step) (v : json) : Prop :=
  match p with
  | [] => False
  | Field k :: p => match v with JObj m => match m !! k with Some w => untouched p w | None => True end | _ => False end
  | Named ask n :: p =>
      match v with JArr l => match find_named ask n l with Some w => untouched p w | None => True end | _ => False end
  end.

Definition is_leaf (v : json) : Prop := match v with JObj _ | JArr _ => False | _ => True end.

Lemma is_named_named ask n v :
  ask ∈ ArrayStructKey → named ask (elem_name ask v) v → is_named ask n v = String.eqb (elem_name ask v) n.
Proof.
  intros Hask. destruct v as [| | | | |m]; try done. intros [Hm _]. unfold is_named, elem_name in *.
  apply Bool.eq_true_iff_eq. rewrite bool_decide_eq_true, String.eqb_eq, Hm. naive_solver.
Qed.

Lemma find_named_plain ask n l : Forall (λ v, is_object v = false) l → find_named ask n l = None.
Proof. induction 1 as [|v l Hv _ IH]; [done|]. by destruct v. Qed.

Lemma find_named_other ask elem ask' n l : typed_elems ask elem l → ask' ≠ ask → find_named ask' n l = None.
Proof.
  intros Hl Hne. induction l as [|v l IH]; [done|]. simpl.
  destruct (Hl v) as [Hv _]; [apply elem_of_cons; by left|].
  rewrite IH by (intros o ?; apply Hl, elem_of_cons; by right).
  destruct v as [| | | | |m]; try done. simpl. rewrite bool_decide_eq_false_2; [done|].
  intros [Hin Hm]. destruct Hv as [_ Hv]. by rewrite (Hv ask' Hin Hne) in Hm.
Qed.

Lemma find_named_elem ask n l w : find_named ask n l = Some w → w ∈ l.
Proof.
  induction l as [|v l IH]; [done|]. simpl. rewrite elem_of_cons. destruct (is_named ask n v); naive_solver.
Qed.

Lemma find_named_app ask n l l' :
  find_named ask n (l ++ l') = match find_named ask n l with Some w => Some w | None => find_named ask n l' end.
Proof. induction l as [|v l IH]; simpl; [done|]. by destruct (is_named ask n v). Qed.

Section FindMerged.
Context (ask : string) (Hask : ask ∈ ArrayStructKey) (elem : shape).
Context (IH : ∀ v o, has_shape elem v → has_shape elem o → merges elem v (Some o)).
Notation name := (elem_name ask).
Notation typed_elems := (typed_elems ask elem).

Lemma find_named_none l v : typed_elems l → (find_named ask (name v) l = None ↔ has_name ask l v = false).
Proof.
  intros Hl. unfold has_name. induction l as [|o l IHl]; [done|]. simpl.
  destruct (Hl o) as [Ho _]; [apply elem_of_cons; by left|]. rewrite is_named_named by done.
  destruct (String.eqb (name o) (name v)); [done|]. apply IHl. intros w ?. apply Hl, elem_of_cons. by right.
Qed.

Lemma find_map_merge n v l : typed_elems l → named ask (name v) v → has_shape elem v →
  find_named ask n (map (merge_same ask v) l) =
  o ← find_named ask n l; if String.eqb n (name v) then merge_value v (Some o) else Some o.
Proof.
  intros Hl Hv Hs. pose proof (typed_mergeable ask elem IH v l Hl Hv Hs) as Hm.
  induction l as [|o l IHl]; [done|]. simpl.
  assert (Hin : o ∈ o :: l) by (apply elem_of_cons; by left). destruct (Hl o Hin) as [Ho _].
  assert (Hmo : name o = name v → ∃ m, merge_value v (Some o) = Some (JObj m)) by auto.
  pose proof (merge_same_named ask v o Hv Ho Hmo) as Ho'.
  pose proof (name_merge_same ask v o Hv Ho Hmo) as Hn.
  rewrite (is_named_named ask n o), (is_named_named ask n (merge_same ask v o)), Hn by (done || by rewrite Hn).
  destruct (String.eqb_spec (name o) n) as [<-|Hne].
  - simpl. unfold merge_same. destruct (String.eqb_spec (name o) (name v)) as [Heq|]; [|done].
    by destruct (Hmo Heq) as [m ->].
  - apply IHl; intros w ?; [apply Hl|apply Hm]; apply elem_of_cons; auto.
Qed.

Lemma find_merge_named n v l : typed_elems l → named ask (name v) v → has_shape elem v →
  find_named ask n (merge_named ask l v) =
    if String.eqb n (name v)
    then match find_named ask n l with Some o => merge_value v (Some o) | None => Some v end
    else find_named ask n l.
Proof.
  intros Hl Hv Hs. unfold merge_named. destruct (has_name ask l v) eqn:Eh.
  - rewrite find_map_merge by done. destruct (find_named ask n l) eqn:Ef; simpl; [done|].
    destruct (String.eqb_spec n (name v)) as [->|]; [|done]. apply find_named_none in Ef; [congruence|done].
  - rewrite find_named_app. simpl. rewrite is_named_named by done. rewrite String.eqb_sym.
    destruct (String.eqb_spec n (name v)) as [->|]; [|by destruct (find_named ask n l)].
    by rewrite (proj2 (find_named_none l v Hl)).
Qed.

(** Each name of the merged list. *)
Lemma find_merged n l lo : typed_elems l → typed_elems lo → NoDup (name <$> l) →
  find_named ask n (foldl (merge_named ask) lo l) =
    match find_named ask n l with
    | Some v => match find_named ask n lo with Some o => merge_value v (Some o) | None => Some v end
    | None => find_named ask n lo
    end.
Proof.
  revert lo. induction l as [|v l IHl]; intros lo Hl Hlo Hnd; [done|]. simpl.
  destruct (Hl v) as [Hv Hs]; [apply elem_of_cons; by left|]. rewrite fmap_cons, NoDup_cons in Hnd. destruct Hnd as [Hni Hnd].
  assert (Hl' : typed_elems l) by (intros w ?; apply Hl, elem_of_cons; by right).
  rewrite IHl by (done || by apply typed_merge_named). rewrite find_merge_named, is_named_named by done.
  rewrite String.eqb_sym. destruct (String.eqb_spec (name v) n) as [<-|Hne]; [|done].
  rewrite (proj2 (find_named_none l v Hl')); [done|]. apply Bool.not_true_iff_false.
  intros (w & Hw%list_elem_of_In & Heq%String.eqb_eq)%existsb_exists. apply Hni. rewrite <- Heq. by apply list_elem_of_fmap_2.
Qed.
End FindMerged.

(** *** What the merge has at a path *)

Lemma merge_value_kind v old r : merge_value v old = Some r →
  match v with
  | JObj _ => is_leaf r → r = JNull
  | JArr _ => ∃ l, r = JArr l
  | _ => r = v
  end.
Proof.
  destruct v as [| | | |l|new], old as [[| | | |lo|o]|]; intros Hm; try (injection Hm as <-; by eauto).
  - cbn [merge_value] in Hm. destruct (merge_loop merge_value l 0 l (map Some lo)); simplify_eq. eauto.
  - injection Hm as <-. simpl. by destruct (merge_entries merge_value o new).
Qed.

(** Where the new value is taken as it is. *)
Lemma fresh_path p v (old : option json) x :
  (untouched p v → old ≫= at_path p = Some x → False) →
  (at_path p v = Some x ↔ at_path p v = Some x ∨ untouched p v ∧ old ≫= at_path p = Some x).
Proof. intros Hno. split; [by left|]. intros [?|[? ?]]; [done|by destruct Hno]. Qed.

Definition path_merge (p : list path_step) : Prop := ∀ s v old r x,
  has_shape s v → (∀ o, old = Some o → has_shape s o) → merge_value v old = Some r → is_leaf x →
  (at_path p r = Some x ↔ at_path p v = Some x ∨ untouched p v ∧ old ≫= at_path p = Some x).

Lemma path_merge_nil : path_merge [].
Proof.
  intros s v old r x Hv Hold Hm Hx. destruct (merge_value_shape s v old Hv Hold) as (r' & Hr & _ & Hobj).
  rewrite Hm in Hr. injection Hr as <-. pose proof (merge_value_kind v old r Hm) as Hk. simpl.
  destruct v as [| | | |l|new]; try (subst r; split; [by left|intros [?|[[] _]]; done]).
  - destruct Hk as [l' ->]. split; [intros [= <-]; done|intros [[= <-]|[[] _]]; done].
  - specialize (Hobj eq_refl). destruct r; try done. split; [intros [= <-]; done|intros [[= <-]|[[] _]]; done].
Qed.

Lemma path_merge_field k p : path_merge p → path_merge (Field k :: p).
Proof.
  intros IH s v old r x Hv Hold Hm Hx. pose proof (merge_value_kind v old r Hm) as Hk.
  destruct v as [| | | |l|new]; try (subst r; apply fresh_path; intros []);
    [destruct Hk as [l' ->]; split; [done|]; intros [?|[[] _]]; done|]. clear Hk.
  destruct old as [[| | | | |o]|]; try (injection Hm as <-; by apply fresh_path).
  destruct s as [| |field|]; [done..| |by destruct Hv]. specialize (Hold _ eq_refl). simpl in Hv, Hold.
  assert (Hok : ∀ k v, new !! k = Some v → merges (field k) v (o !! k)) by (intros; apply merge_value_shape; eauto).
  destruct (merge_entries_some merge_value o new) as (m & Hme & Hl).
  { intros k' w Hk. destruct (Hok k' w Hk) as (r' & Hr & _). by exists r'. }
  cbn [merge_value] in Hm. rewrite Hme in Hm. injection Hm as <-. simpl. rewrite Hl. unfold merged_at.
  destruct (new !! k) as [w|] eqn:Ek; simpl.
  - destruct (Hok k w Ek) as (r' & Hr & _). rewrite Hr. simpl. apply (IH (field k) w (o !! k) r'); eauto.
  - split; [by right|]. by intros [?|[_ ?]].
Qed.

Lemma path_merge_named ask n p : path_merge p → path_merge (Named ask n :: p).
Proof.
  intros IH s v old r x Hv Hold Hm Hx. pose proof (merge_value_kind v old r Hm) as Hk.
  destruct v as [| | | |l|new]; try (subst r; apply fresh_path; intros []); last first.
  { split; [|intros [?|[[] _]]; done]. destruct (merge_value_shape s _ old Hv Hold) as (r' & Hr & _ & Hobj).
    rewrite Hm in Hr. injection Hr as <-. specialize (Hobj eq_refl). by destruct r. }
  clear Hk. destruct old as [[| | | |lo|]|]; try (injection Hm as <-; by apply fresh_path).
  pose proof (Hold _ eq_refl) as Ho. cbn [merge_value] in Hm. destruct s as [| | |ask' elem]; try done; simpl in Hv, Ho.
  - rewrite merge_loop_plain in Hm by done. assert (Hf : ∀ l', Forall (λ v, is_object v = false) l' →
      at_path (Named ask n :: p) (JArr l') = None) by (intros; simpl; by rewrite find_named_plain).
    assert (Hr : at_path (Named ask n :: p) r = None).
    { injection Hm as <-. destruct l; rewrite slot_json_some; by apply Hf. }
    rewrite Hr, (Hf l) by done. change (Some (JArr lo) ≫= _) with (at_path (Named ask n :: p) (JArr lo)).
    rewrite (Hf lo) by done. split; [done|]. by intros [?|[_ ?]].
  - destruct Hv as (Hask & Hnd & Hl), Ho as (_ & Hndo & Hlo).
    assert (IHm : ∀ v o, has_shape elem v → has_shape elem o → merges elem v (Some o)).
    { intros v o Hv Ho. apply merge_value_shape; [done|]. by intros ? [= <-]. }
    destruct (merge_loop_keyed ask' Hask elem IHm l 0 l lo Hl Hlo Hndo) as (Hloop & Htyped & _).
    rewrite Hloop in Hm. injection Hm as <-. rewrite slot_json_some. simpl.
    destruct (decide (ask = ask')) as [->|Hne]; last first.
    { rewrite !(find_named_other ask' elem ask) by done. split; [by right|]. by intros [?|[_ ?]]. }
    rewrite (find_merged ask' Hask elem IHm) by done.
    destruct (find_named ask' n l) as [w|] eqn:Ew; simpl; [|split; [by right|]; by intros [?|[_ ?]]].
    apply find_named_elem in Ew. destruct (find_named ask' n lo) as [o|] eqn:Eo; simpl.
    + apply find_named_elem in Eo. destruct (IHm w o (proj2 (Hl w Ew)) (proj2 (Hlo o Eo))) as (r' & Hr & _).
      rewrite Hr. simpl. apply (IH elem w (Some o) r'); [by apply Hl| |done|done]. intros ? [= <-]. by apply Hlo.
    + split; [by left|]. by intros [?|[_ ?]].
Qed.

Lemma merge_value_path p : path_merge p.
Proof.
  induction p as [|[k|ask n] p IH]; [apply path_merge_nil|by apply path_merge_field|by apply path_merge_named].
Qed.

(** ** Theorems *)

(** The shapes that go with each way to merge. *)
Definition shape_of_type (typo : StructMergeType) (s : shape) : Prop :=
  match typo, s with
  | StructMergeMapType, SObj _ => True
  | StructMergeArrayType, (SPlain | SKeyed _ _) => True
  | _, _ => False
  end.

Lemma StructMerge_value old new typo s :
  has_shape s old → has_shape s new → shape_of_type typo s → old ≠ JNull → new ≠ JNull →
  ∃ j, StructMerge old new typo = Decode j ∧ merge_value new (Some old) = Some j ∧ has_shape s j.
Proof.
  intros Hold Hnew Hs Ho Hn. destruct (merge_value_shape s new (Some old) Hnew) as (j & Hj & Hsj & _).
  { by intros ? [= <-]. }
  exists j. split; [|done]. destruct typo, s; try done; simpl in Hold, Hnew;
    destruct old as [| | | |lo|o], new as [| | | |l|m]; try done; try tauto.
  - cbn [merge_value] in Hj. simpl. unfold MergeMap. by injection Hj as <-.
  - cbn [merge_value] in Hj. simpl. unfold MergeArray.
    by destruct (merge_loop merge_value l 0 l (map Some lo)); simplify_eq.
  - cbn [merge_value] in Hj. simpl. unfold MergeArray.
    by destruct (merge_loop merge_value l 0 l (map Some lo)); simplify_eq.
Qed.

(** C25: Merging two values of one type neither fails nor panics and gives a
    value of that type: where the baseline and the resource hold lists of
    named elements with distinct names, so does the result. *)
Theorem struct_merge_typed old new typo s :
  has_shape s old → has_shape s new → shape_of_type typo s →
  match StructMerge old new typo with
  | Untouched => old = JNull
  | Decode j => has_shape s j
  | MergeFails _ | MergePanics => False
  end.
Proof.
  intros Hold Hnew Hs. destruct (decide (old = JNull)) as [->|Ho]; [done|].
  destruct (decide (new = JNull)) as [->|Hn]; [by destruct old|].
  by destruct (StructMerge_value old new typo s Hold Hnew Hs Ho Hn) as (j & -> & _ & ?).
Qed.

(** What the resource says wins and the baseline fills in the rest: at any
    path through objects and lists of named elements the merged value has a
    leaf exactly if the resource has it there, or the baseline has it and the
    resource says nothing at that path.  Nothing is invented or lost. *)
Theorem explicit_value_wins old new typo s j p x :
  has_shape s old → has_shape s new → shape_of_type typo s → new ≠ JNull →
  StructMerge old new typo = Decode j → is_leaf x →
  (at_path p j = Some x ↔ at_path p new = Some x ∨ untouched p new ∧ at_path p old = Some x).
Proof.
  intros Hold Hnew Hs Hn Hm Hx. assert (Ho : old ≠ JNull) by (intros ->; by destruct new).
  destruct (StructMerge_value old new typo s Hold Hnew Hs Ho Hn) as (j' & Hj & Hv & _). rewrite Hm in Hj. injection Hj as <-.
  apply (merge_value_path p s new (Some old) j x Hnew); [by intros ? [= <-]|done|done].
Qed.

(** *** Maps of strings *)

Definition strings_json (m : gmap string string) : json := JObj (JStr <$> m).

Lemma merge_strings old new : MergeMap (JStr <$> old) (JStr <$> new) = Some (JStr <$> (new ∪ old)).
Proof.
  destruct (merge_entries_some merge_value (JStr <$> old) (JStr <$> new)) as (m & Hm & Hl).
  { intros k v Hk. rewrite lookup_fmap in Hk. destruct (new !! k); simplify_eq/=. by eexists. }
  unfold MergeMap. rewrite Hm. f_equal. apply map_eq. intros k. rewrite Hl. unfold merged_at. rewrite !lookup_fmap.
  rewrite lookup_union. by destruct (new !! k), (old !! k).
Qed.

(** Labels and annotations: the resource's, and the baseline's where it has none. *)
Lemma StructMerge_strings old new :
  StructMerge (strings_json old) (strings_json new) StructMergeMapType = Decode (strings_json (new ∪ old)).
Proof. unfold strings_json. simpl. by rewrite merge_strings. Qed.

Lemma MergeMapString_union old new : MergeMapString old new = new ∪ old.
Proof.
  unfold MergeMapString. apply map_eq. intros k. rewrite lookup_union.
  apply (map_fold_weak_ind (λ (acc new : gmap string string), acc !! k = union_with (λ x _, Some x) (new !! k) (old !! k))).
  - by rewrite lookup_empty, (left_id _ _).
  - intros i v m acc Hi IH. destruct (String.eqb (acc.[i]) ""), (decide (i = k)) as [->|Hne];
      rewrite ?lookup_insert_eq, ?lookup_insert_ne by done; try done; by destruct (old !! k).
Qed.

(** *** Comparing *)

Lemma compareValue_spec a b : compareValue a b = true ↔ a = b.
Proof.
  revert b. induction a as [|x|x|x|l IH|m IH] using json_strong_ind; intros b;
    try (cbn [compareValue]; apply bool_decide_eq_true).
  - destruct b as [| | | |l'|]; try done. cbn [compareValue]. rewrite andb_true_iff, Nat.eqb_eq.
    revert l'. induction IH as [|v l Hv _ IHl]; intros [|v' l']; simpl; try naive_solver lia.
    rewrite andb_true_iff, Hv. split.
    + intros [[=] [-> Hl]]. f_equal. f_equal. enough (JArr l = JArr l') by congruence. by apply IHl.
    + intros [= <- <-]. split; [done|]. split; [done|]. by apply IHl.
  - destruct b as [| | | | |m']; try done. cbn [compareValue]. rewrite andb_true_iff, Nat.eqb_eq, map_fold_andb. split.
    + intros [Hsize Hall]. f_equal. apply submap_size_eq; [|done]. apply map_subseteq_spec. intros k v Hv.
      specialize (Hall k v Hv). simpl in Hall. destruct (m' !! k) as [v'|]; [|done]. by apply (IH k v Hv) in Hall as ->.
    + intros [= <-]. split; [done|]. intros k v Hv. rewrite Hv. by apply (IH k v Hv).
Qed.

Lemma IsExistInStringSlice_spec slice target : IsExistInStringSlice slice target = true ↔ target ∈ slice.
Proof.
  induction slice as [|s slice IH]; simpl; [rewrite elem_of_nil; done|]. rewrite elem_of_cons.
  destruct (String.eqb_spec s target); naive_solver.
Qed.

(** A value is never reported as different from itself. *)
Lemma CompareJson_refl `{!JsonLib, !MapOrder} result_string sprint j :
  (∃ m, j = JObj m) ∨ (∃ l, j = JArr l) → CompareJson result_string sprint j j = Ok true.
Proof.
  intros Hj. unfold CompareJson. assert (∃ m, ExtractJsonKey result_string sprint j = Ok m) as [m ->]
    by (destruct Hj as [[? ->]|[? ->]]; by eexists).
  f_equal. apply bool_decide_eq_true. intros k v Hv. right. by rewrite Hv.
Qed.

(** ** At concrete inputs *)

Section Demo.
Definition named_values (name : string) (values : gmap string json) : json :=
  JObj {["name" := JStr name; "values" := JObj values]}.

(** A list of configurations, each with a map of values. *)
Definition configuration_shape : shape :=
  SKeyed "name" (SObj (λ k, if String.eqb k "values" then SObj (λ _, SScalar) else SScalar)).

Definition demo_old : json :=
  JArr [named_values "cnf" {["port" := JStr "6379"; "mode" := JStr "single"]}; named_values "acl" ∅].
Definition demo_new : json :=
  JArr [named_values "tls" ∅; named_values "cnf" {["mode" := JStr "cluster"]}].

Lemma named_values_shape name (values : gmap string json) :
  map_Forall (λ _ v, is_leaf v) values →
  named "name" (elem_name "name" (named_values name values)) (named_values name values) ∧
  has_shape (SObj (λ k, if String.eqb k "values" then SObj (λ _, SScalar) else SScalar)) (named_values name values).
Proof.
  intros Hleaf. split; [split; [done|]|].
  - unfold ArrayStructKey. intros k [-> | ->%list_elem_of_singleton]%elem_of_cons Hne; done.
  - intros k v. rewrite !lookup_insert_Some, lookup_singleton_Some. intros [[<- <-]|[_ [<- <-]]]; simpl; [done|].
    intros k v Hv. by apply (Hleaf k v).
Qed.

Lemma demo_old_shape : has_shape configuration_shape demo_old.
Proof.
  split; [apply elem_of_cons; by left|]. split.
  - apply (bool_decide_unpack (NoDup ["cnf"; "acl"])). exact I.
  - intros v [-> | ->%list_elem_of_singleton]%elem_of_cons; apply named_values_shape; [|apply map_Forall_empty].
    apply map_Forall_insert_2; [done|]. by apply map_Forall_singleton.
Qed.

Lemma demo_new_shape : has_shape configuration_shape demo_new.
Proof.
  split; [apply elem_of_cons; by left|]. split.
  - apply (bool_decide_unpack (NoDup ["tls"; "cnf"])). exact I.
  - intros v [-> | ->%list_elem_of_singleton]%elem_of_cons; apply named_values_shape; [apply map_Forall_empty|].
    by apply map_Forall_singleton.
Qed.

Definition demo_merged : json :=
  match StructMerge demo_old demo_new StructMergeArrayType with Decode j => j | _ => JNull end.

Lemma struct_merge_typed_witness : has_shape configuration_shape demo_merged.
Proof.
  pose proof (struct_merge_typed demo_old demo_new StructMergeArrayType configuration_shape
    demo_old_shape demo_new_shape I) as Hthm.
  change (StructMerge _ _ _) with (Decode demo_merged) in Hthm. exact Hthm.
Defined.

(** The port is the baseline's, the mode the resource's. *)
Lemma explicit_value_wins_witness :
  at_path [Named "name" "cnf"; Field "values"; Field "port"] demo_merged = Some (JStr "6379") ∧
  at_path [Named "name" "cnf"; Field "values"; Field "mode"] demo_merged = Some (JStr "cluster").
Proof.
  pose proof (λ p x, explicit_value_wins demo_old demo_new StructMergeArrayType configuration_shape demo_merged p x
    demo_old_shape demo_new_shape I) as Hthm.
  split; apply Hthm; try done; [right|left]; reflexivity || (split; reflexivity || exact I).
Defined.

(** Two names that are objects cannot be compared: the panic is recovered and
    the whole map around them becomes nil, without an error. *)
Lemma recovered_panic_drops_map size :
  let users := JArr [JObj {["name" := JObj ∅]}] in
  MergeMap {["users" := users; "size" := JStr size]} {["users" := users]} = None ∧
  StructMerge (JObj {["users" := users; "size" := JStr size]}) (JObj {["users" := users]}) StructMergeMapType = Decode JNull.
Proof. split; reflexivity. Qed.

(** A null wins over what the baseline has. *)
Lemma null_wins (old : gmap string json) k : MergeMap old {[k := JNull]} = Some (<[k := JNull]> old).
Proof.
  unfold MergeMap, merge_entries. rewrite map_fold_singleton. simpl. by destruct (old !! k) as [[]|].
Qed.

(** Elements without a name are merged by position, and one whose name is new
    is appended. *)
Example merge_by_position :
  MergeArray [JObj {["port" := JStr "1"]}; JStr "x"] [JObj {["host" := JStr "h"]}; JObj ∅] =
  Some [JObj {["port" := JStr "1"; "host" := JStr "h"]}; JObj ∅].
Proof. reflexivity. Qed.
Example merge_scalars : MergeArray [JStr "a"; JStr "b"] [JStr "c"] = Some [JStr "c"].
Proof. reflexivity. Qed.
End Demo.
