(* ===== verification/StatusRule.v ===== *)
(** * Declarative status rules

    [internal/service/statusrule/statusrule.go]: CEL rules of an operator
    baseline that project a custom resource's status, and
    [internal/service/synchronizer/status_rules.go], which picks the rules of a
    Middleware and overlays their result. *)
From Stdlib Require Import ZArith Lia.
From stdpp Require Import base gmap strings list option.
From S2P Require Import Prelude Labels Prog Middleware Json.

(** ** CEL

    Values as the code tells them apart; a map is what its iterator yields.
    [CelEngine] is the compiled environment: compiling a source (parsing,
    checking and planning, with the error text otherwise) and evaluating a
    program; [parse_time] is [time.Parse(time.RFC3339Nano, _)] and [TrimSpace]
    the function of [strings]. *)
Inductive cel : Type :=
  | CNull
  | CError (msg : string)
  | CInt (z : Z)        (** [int64] *)
  | CUint (z : Z)       (** [uint64] *)
  | CString (s : string)
  | CList (l : list cel)
  | CMap (entries : list (cel * cel))
  | COther (type : string).

Class CelEngine := {
  program : Type;
  cel_compile : string → result string program;
  cel_eval : program → json → json → result string (option cel);
  parse_time : string → option Z;
  TrimSpace : string → string;
}.

(** [maxRulesPerGVK], internal/service/statusrule/statusrule.go *)
Definition maxRulesPerGVK : nat := 32.
(** [maxRuleSourceLength], internal/service/statusrule/statusrule.go *)
Definition maxRuleSourceLength : Z := 8 * 1024.
(** [maxCachedRulePrograms], internal/service/statusrule/statusrule.go *)
Definition maxCachedRulePrograms : nat := 256.

(** ** Results *)

(** [Result], internal/service/statusrule/statusrule.go *)
Record rule_result := Result { r_phase : option string; r_reason : option string; r_replicas : option Z }.
#[export] Instance rule_result_eq_dec : EqDecision rule_result.
Proof. solve_decision. Defined.

(** [Apply], internal/service/statusrule/statusrule.go *)
Definition Apply (r : rule_result) (target : custom_resources) : custom_resources :=
  CustomResources (cr_creationTimestamp target) (default (cr_phase target) (r_phase r)) (cr_limits target)
    (cr_requests target) (default (cr_replicas target) (r_replicas r)) (default (cr_reason target) (r_reason r))
    (cr_type target) (cr_include target) (cr_disaster target).

(** [value.Value().(string)]. *)
Definition as_string (v : cel) : option string := match v with CString s => Some s | _ => None end.

(** [mapper.Find] for a string key. *)
Fixpoint find_entry (key : string) (entries : list (cel * cel)) : option cel :=
  match entries with
  | [] => None
  | (k, v) :: entries => if decide (as_string k = Some key) then Some v else find_entry key entries
  end.

(** [stringValue], internal/service/statusrule/statusrule.go *)
Definition stringValue (value : cel) (name : string) : result string string :=
  match value with
  | CError msg => Err (name +:+ ": " +:+ msg)
  | CString s => Ok s
  | _ => Err (name +:+ " must be a string")
  end.

(** [replicasValue], internal/service/statusrule/statusrule.go *)
Definition replicasValue (value : cel) : result string Z :=
  let maxInt := (2 ^ 63 - 1)%Z in
  match value with
  | CError msg => Err ("replicas: " +:+ msg)
  | CInt number =>
      if (number <? 0)%Z || (maxInt <? number)%Z then Err "replicas must be a non-negative int" else Ok number
  | CUint number => if (maxInt <? number)%Z then Err "replicas exceeds int range" else Ok number
  | _ => Err "replicas must be an int"
  end.

(** One turn of the loop over the result's keys. *)
(** [decodeResult], internal/service/statusrule/statusrule.go:232-264 *)
Definition decode_entry (entries : list (cel * cel)) (result : rule_result) (keyValue : cel) :
    Prelude.result string rule_result :=
  match as_string keyValue with
  | None => Err "result object key must be a string"
  | Some key =>
      match find_entry key entries with
      | None => Err ("result object lost key " +:+ key)
      | Some fieldValue =>
          if decide (key = "phase") then
            field ← stringValue fieldValue key; Ok (Result (Some field) (r_reason result) (r_replicas result))
          else if decide (key = "reason") then
            field ← stringValue fieldValue key; Ok (Result (r_phase result) (Some field) (r_replicas result))
          else if decide (key = "replicas") then
            field ← replicasValue fieldValue; Ok (Result (r_phase result) (r_reason result) (Some field))
          else Err ("unsupported result key " +:+ key)
      end
  end.

Fixpoint decode_entries (entries : list (cel * cel)) (todo : list (cel * cel)) (result : rule_result) :
    Prelude.result string rule_result :=
  match todo with
  | [] => Ok result
  | (k, _) :: todo => result ← decode_entry entries result k; decode_entries entries todo result
  end.

(** [Ok None]: the rule did not match. *)
(** [decodeResult], internal/service/statusrule/statusrule.go *)
Definition decodeResult (value : option cel) : Prelude.result string (option rule_result) :=
  match value with
  | None | Some CNull => Ok None
  | Some (CError msg) => Err msg
  | Some (CMap entries) => Some <$> decode_entries entries entries (Result None None None)
  | Some _ => Err "must return null or an object"
  end.

Abbreviation program_cache := (gmap string (result string program)).

Section Rules.
Context `{CelEngine}.

(** ** Compiling, with the program cache *)


(** [compile], internal/service/statusrule/statusrule.go *)
Definition compile (source : string) (programs : program_cache) : result string program * program_cache :=
  let source := TrimSpace source in
  if String.eqb source "" then (Err "must not be empty", programs)
  else if (maxRuleSourceLength <? Z.of_nat (String.length source))%Z then (Err "is too long", programs)
  else match programs !! source with
  | Some cached => (cached, programs)
  | None =>
      let cached := cel_compile source in
      let programs := if maxCachedRulePrograms <=? size programs then ∅ else programs in
      (cached, <[source := cached]> programs)
  end.

(** The error of a rule names its index. *)
Inductive rules_error := TooManyRules | RuleError (index : nat) (msg : string) | BaselineError (msg : string).

Fixpoint validate_all (index : nat) (rules : list string) (programs : program_cache) : option rules_error * program_cache :=
  match rules with
  | [] => (None, programs)
  | rule :: rules =>
      match compile rule programs with
      | (Err e, programs) => (Some (RuleError index e), programs)
      | (Ok _, programs) => validate_all (S index) rules programs
      end
  end.

(** [Validate], internal/service/statusrule/statusrule.go *)
Definition Validate (rules : list string) (programs : program_cache) : option rules_error * program_cache :=
  if (maxRulesPerGVK <? length rules) then (Some TooManyRules, programs) else validate_all 0 rules programs.

(** The loop over the rules. *)
(** [Evaluate], internal/service/statusrule/statusrule.go:120-137 *)
Fixpoint eval_rules (index : nat) (rules : list string) (object previous : json) (programs : program_cache) :
    result rules_error (option rule_result) * program_cache :=
  match rules with
  | [] => (Ok None, programs)
  | rule :: rules =>
      match compile rule programs with
      | (Err e, programs) => (Err (RuleError index e), programs)
      | (Ok p, programs) =>
          match cel_eval p object previous with
          | Err e => (Err (RuleError index e), programs)
          | Ok value =>
              match decodeResult value with
              | Err e => (Err (RuleError index e), programs)
              | Ok (Some r) => (Ok (Some r), programs)
              | Ok None => eval_rules (S index) rules object previous programs
              end
          end
      end
  end.

(** [previous] is the JSON of the previous status ([asMap]). *)
(** [Evaluate], internal/service/statusrule/statusrule.go *)
Definition Evaluate (rules : list string) (object previous : json) (programs : program_cache) :
    result rules_error (option rule_result) * program_cache :=
  match rules with
  | [] => (Ok None, programs)
  | _ => match Validate rules programs with
         | (Some e, programs) => (Err e, programs)
         | (None, programs) => eval_rules 0 rules object previous programs
         end
  end.

(** ** The CEL function [latestTrueCondition] *)

(** [conditionField], internal/service/statusrule/statusrule.go *)
Definition conditionField (condition : cel) (field : string) : string :=
  match condition with
  | CMap entries => match find_entry field entries with Some (CString text) => text | _ => "" end
  | _ => ""
  end.

(** What the loop keeps: the candidate and its time, if it has a valid one. *)
(** [latestTrueCondition], internal/service/statusrule/statusrule.go:317-333 *)
Definition latest_step (latest : option (cel * option Z)) (condition : cel) : option (cel * option Z) :=
  if decide (conditionField condition "status" ≠ "True") then latest
  else
    let transitionTime := parse_time (conditionField condition "lastTransitionTime") in
    match latest with
    | None => Some (condition, transitionTime)
    | Some (_, latestTime) =>
        match latestTime, transitionTime with
        | None, Some _ => Some (condition, transitionTime)
        | Some t, Some t' => if (t <? t')%Z then Some (condition, transitionTime) else latest
        | _, None => latest
        end
    end.

(** [latestTrueCondition], internal/service/statusrule/statusrule.go *)
Definition latestTrueCondition (argument : cel) : cel :=
  match argument with
  | CList conditions => match foldl latest_step None conditions with Some (c, _) => c | None => CNull end
  | _ => CNull
  end.

(** ** The rules of a Middleware ([internal/service/synchronizer/status_rules.go]) *)

(** A GVK declaration of an operator baseline: its name, GVK and rules. *)
Record declared_gvk := DeclaredGVK { dg_name : string; dg_gvk : gvk; dg_rules : list string }.

(** The loop over the declared GVKs. *)
(** [statusRulesForCustomResource], internal/service/synchronizer/status_rules.go:76-101 *)
Fixpoint declared_rules (gvkName : string) (actual : gvk) (gvks : list declared_gvk) :
    list string * bool * option rules_error :=
  match gvks with
  | [] => ([], false, Some (BaselineError "operator baseline does not define gvk"))
  | d :: gvks =>
      if decide (dg_name d ≠ gvkName) then declared_rules gvkName actual gvks
      else if decide (dg_rules d = []) then ([], false, None)
      else if decide (dg_gvk d ≠ actual) then ([], true, Some (BaselineError "operator baseline gvk mismatch"))
      else (dg_rules d, true, None)
  end.

(** [baseline] is the lookup of an operator baseline: the GVKs of its spec. *)
(** [statusRulesForCustomResource], internal/service/synchronizer/status_rules.go *)
Definition statusRulesForCustomResource (baseline : string → result error (list declared_gvk))
    (mid : option middleware) (cr : option gvk) : list string * bool * option rules_error :=
  match mid, cr with
  | Some mid, Some actual =>
      let operatorBaselineName := TrimSpace (ob_name (sp_operatorBaseline (m_spec mid))) in
      let gvkName := TrimSpace (ob_gvkName (sp_operatorBaseline (m_spec mid))) in
      if String.eqb operatorBaselineName "" || String.eqb gvkName "" then ([], false, None)
      else match baseline operatorBaselineName with
      | Err e => ([], false, Some (BaselineError (e_msg e)))
      | Ok gvks => declared_rules gvkName actual gvks
      end
  | _, _ => ([], false, None)
  end.

(** The new target, whether rules are declared, and the error. *)
(** [applyDeclaredStatusRules], internal/service/synchronizer/status_rules.go *)
Definition applyDeclaredStatusRules (baseline : string → result error (list declared_gvk))
    (mid : option middleware) (cr : option (gvk * json)) (previous : json) (target : custom_resources)
    (programs : program_cache) : custom_resources * bool * option rules_error * program_cache :=
  match statusRulesForCustomResource baseline mid (fst <$> cr) with
  | (_, declared, Some e) => (target, declared, Some e, programs)
  | (_, false, None) => (target, false, None, programs)
  | (rules, true, None) =>
      match Evaluate rules (default JNull (snd <$> cr)) previous programs with
      | (Err e, programs) => (target, true, Some e, programs)
      | (Ok None, programs) => (target, true, None, programs)
      | (Ok (Some r), programs) => (Apply r target, true, None, programs)
      end
  end.
End Rules.

(** ** Lemmas *)

Section Lemmas.
Context `{CelEngine}.

(** What [compile] answers without a cache. *)
Definition compile_fresh (source : string) : result string program :=
  let source := TrimSpace source in
  if String.eqb source "" then Err "must not be empty"
  else if (maxRuleSourceLength <? Z.of_nat (String.length source))%Z then Err "is too long"
  else cel_compile source.

Definition cache_ok (programs : program_cache) : Prop :=
  map_Forall (λ s r, r = cel_compile s) programs ∧ size programs ≤ maxCachedRulePrograms.

Lemma compile_spec source c : cache_ok c → ∃ c', compile source c = (compile_fresh source, c') ∧ cache_ok c'.
Proof.
  intros [Hall Hsize]. unfold compile, compile_fresh. destruct (String.eqb _ _); [by exists c|].
  destruct (_ <? _)%Z; [by exists c|]. destruct (c !! TrimSpace source) as [r|] eqn:Er.
  - exists c. split; [|done]. by rewrite (Hall _ _ Er).
  - eexists. split; [done|]. unfold maxCachedRulePrograms in *. destruct (Nat.leb_spec 256 (size c)).
    + split; [|rewrite map_size_insert, lookup_empty, map_size_empty; change (1 ≤ 256); lia].
      apply map_Forall_insert; [by apply lookup_empty|]. split; [done|apply map_Forall_empty].
    + split; [|rewrite map_size_insert, Er; unfold maxCachedRulePrograms; lia]. by apply map_Forall_insert.
Qed.

Lemma cache_ok_empty : cache_ok ∅.
Proof. split; [apply map_Forall_empty|]. rewrite map_size_empty. unfold maxCachedRulePrograms. lia. Qed.

(** The cache after compiling a list of sources, in order. *)
Definition warm (sources : list string) : program_cache := foldl (λ c source, (compile source c).2) ∅ sources.

Lemma warm_ok sources : cache_ok (warm sources).
Proof.
  unfold warm. generalize cache_ok_empty. generalize (∅ : program_cache).
  induction sources as [|s sources IH]; intros c Hc; [done|]. simpl. apply IH.
  destruct (compile_spec s c Hc) as (c' & -> & Hc'). done.
Qed.

Lemma validate_all_spec i rules c : cache_ok c →
  (is_Some (validate_all i rules c).1 ↔ ¬ Forall (λ rule, is_ok (compile_fresh rule)) rules) ∧
  cache_ok (validate_all i rules c).2.
Proof.
  revert i c. induction rules as [|rule rules IH]; intros i c Hc; simpl.
  { split; [|done]. split; [by intros [? [=]]|]. intros Hn. by destruct Hn. }
  destruct (compile_spec rule c Hc) as (c' & -> & Hc'). rewrite list.Forall_cons.
  destruct (compile_fresh rule); simpl.
  - destruct (IH (S i) c' Hc') as [Hs ?]. split; [|done]. rewrite Hs. naive_solver.
  - split; [|done]. split; [naive_solver|by eexists].
Qed.

(** What one rule says of a resource. *)
Definition rule_value (object previous : json) (rule : string) : result string (option rule_result) :=
  match compile_fresh rule with
  | Err e => Err e
  | Ok p => match cel_eval p object previous with Err e => Err e | Ok value => decodeResult value end
  end.

Fixpoint first_value (i : nat) (values : list (result string (option rule_result))) :
    result rules_error (option rule_result) :=
  match values with
  | [] => Ok None
  | Err e :: _ => Err (RuleError i e)
  | Ok (Some r) :: _ => Ok (Some r)
  | Ok None :: values => first_value (S i) values
  end.

Lemma eval_rules_spec i rules object previous c : cache_ok c →
  (eval_rules i rules object previous c).1 = first_value i (rule_value object previous <$> rules).
Proof.
  revert i c. induction rules as [|rule rules IH]; intros i c Hc; simpl; [done|].
  destruct (compile_spec rule c Hc) as (c' & -> & Hc'). unfold rule_value at 1.
  destruct (compile_fresh rule) as [p|e]; [|done]. destruct (cel_eval p object previous) as [v|e]; [|done].
  destruct (decodeResult v) as [[r|]|e]; [done| |done]. by apply IH.
Qed.

Lemma first_value_match i values r :
  first_value i values = Ok (Some r) ↔
  ∃ n, values !! n = Some (Ok (Some r)) ∧ ∀ j v, j < n → values !! j = Some v → v = Ok None.
Proof.
  revert i. induction values as [|[[r'|]|e] values IH]; intros i; simpl.
  - split; [done|]. by intros (n & Hn & _).
  - split.
    + intros [= ->]. exists 0. split; [done|]. lia.
    + intros ([|n] & Hn & Hj); [by simplify_eq/=|]. specialize (Hj 0 _ ltac:(lia) eq_refl). done.
  - rewrite IH. split.
    + intros (n & Hn & Hj). exists (S n). split; [done|]. intros [|j] v ? Hv; simplify_eq/=; [done|]. eapply Hj; [|done]. lia.
    + intros ([|n] & Hn & Hj); [done|]. exists n. split; [done|]. intros j v ? Hv. apply (Hj (S j)); [lia|done].
  - split; [done|]. intros ([|n] & Hn & Hj); [done|]. specialize (Hj 0 _ ltac:(lia) eq_refl). done.
Qed.

Lemma first_value_none i values : first_value i values = Ok None ↔ Forall (λ v, v = Ok None) values.
Proof.
  revert i. induction values as [|[[r'|]|e] values IH]; intros i; simpl; rewrite ?list.Forall_cons; [done|naive_solver| |naive_solver].
  rewrite IH. naive_solver.
Qed.

(** What [latest_step] has found in a list. *)
Definition is_true (c : cel) : Prop := conditionField c "status" = "True".
Definition time_of (c : cel) : option Z := parse_time (conditionField c "lastTransitionTime").

Definition latest_ok (cs : list cel) (acc : option (cel * option Z)) : Prop :=
  match acc with
  | None => Forall (λ c, ¬ is_true c) cs
  | Some (c, t) => t = time_of c ∧ ∃ i, cs !! i = Some c ∧ is_true c ∧
      ∀ j c', cs !! j = Some c' → is_true c' →
        match t, time_of c' with
        | Some t, Some t' => (t' ≤ t)%Z ∧ (t' = t → i ≤ j)
        | Some _, None => True
        | None, Some _ => False
        | None, None => i ≤ j
        end
  end.

Lemma latest_snoc cs c acc : latest_ok cs acc → latest_ok (cs ++ [c]) (latest_step acc c).
Proof.
  intros Hok. unfold latest_step. fold (time_of c).
  assert (Hl : ∀ j c', (cs ++ [c]) !! j = Some c' → cs !! j = Some c' ∨ j = length cs ∧ c' = c).
  { intros j c' Hj. apply lookup_app_Some in Hj as [Hj|[Hge Hj]]; [by left|].
    apply list_lookup_singleton_Some in Hj as [? ->]. right. split; [lia|done]. }
  case_decide as Hc.
  - destruct acc as [[c0 t]|]; simpl in *; [|by apply list.Forall_app; split; [|constructor]].
    destruct Hok as (Ht & i & Hi & Htrue & Hall). split; [done|]. exists i. split; [by apply lookup_app_l_Some|].
    split; [done|]. intros j c' [Hj|[-> ->]]%Hl Hj'; [by apply Hall|done].
  - assert (Hnew : (cs ++ [c]) !! length cs = Some c) by (by apply list_lookup_middle).
    destruct acc as [[c0 t]|]; simpl in *.
    + destruct Hok as (Ht & i & Hi & Htrue & Hall). pose proof (lookup_lt_Some _ _ _ Hi) as Hlt.
      assert (Hkeep : match t, time_of c with Some t, Some t' => (t' ≤ t)%Z | None, Some _ => False | _, _ => True end →
        latest_ok (cs ++ [c]) (Some (c0, t))).
      { intros Hcmp. split; [done|]. exists i. split; [by apply lookup_app_l_Some|]. split; [done|].
        intros j c' [Hj|[-> ->]]%Hl Hj'; [by apply Hall|]. destruct t, (time_of c); try done; lia. }
      assert (Hrepl : match t, time_of c with Some t, Some t' => (t < t')%Z | None, Some _ => True | _, None => False end →
        latest_ok (cs ++ [c]) (Some (c, time_of c))).
      { intros Hcmp. split; [done|]. exists (length cs). split; [done|]. split; [done|].
        intros j c' [Hj|[-> ->]]%Hl Hj'.
        - specialize (Hall _ _ Hj Hj'). destruct t, (time_of c), (time_of c'); try done; lia.
        - destruct (time_of c); [split; lia|done]. }
      destruct t as [t|], (time_of c) as [t'|]; try (by apply Hkeep); try (by apply Hrepl).
      destruct (Z.ltb_spec t t'); [by apply Hrepl|by apply Hkeep].
    + split; [done|]. exists (length cs). split; [done|]. split; [done|].
      intros j c' [Hj|[-> ->]]%Hl Hj'; [by apply (Forall_lookup_1 _ _ _ _ Hok) in Hj|].
      destruct (time_of c); [split; lia|done].
Qed.

Lemma latest_foldl cs : latest_ok cs (foldl latest_step None cs).
Proof.
  induction cs as [|c cs IH] using rev_ind; [by constructor|]. rewrite foldl_app. by apply latest_snoc.
Qed.
End Lemmas.

(** ** Properties *)

Section Properties.
Context `{CelEngine}.

(** The program cache is invisible and bounded: after any sequence of
    compilations it holds at most 256 programs, and compiling a source gives
    exactly what compiling it without a cache gives, errors included. *)
Theorem program_cache_transparent sources source :
  (compile source (warm sources)).1 = (compile source ∅).1 ∧
  size (compile source (warm sources)).2 ≤ maxCachedRulePrograms.
Proof.
  destruct (compile_spec source _ (warm_ok sources)) as (c1 & -> & _ & Hs).
  destruct (compile_spec source _ cache_ok_empty) as (c2 & -> & _). done.
Qed.

(** Rules are evaluated in declaration order and the first one that
    matches wins: with a warm cache of whatever history, [Evaluate] returns a
    result exactly when there are at most 32 rules, all of them compile, and
    some rule returns that result while every earlier one returned null; and
    it reports no match exactly when every rule returned null.  A rule that
    does not compile, even after the matching one, is an error. *)
Theorem first_rule_wins sources rules object previous :
  let res := (Evaluate rules object previous (warm sources)).1 in
  let valid := length rules ≤ maxRulesPerGVK ∧ Forall (λ rule, is_ok (compile_fresh rule)) rules in
  (∀ r, res = Ok (Some r) ↔ valid ∧ ∃ n rule, rules !! n = Some rule ∧
     rule_value object previous rule = Ok (Some r) ∧
     ∀ j rule', j < n → rules !! j = Some rule' → rule_value object previous rule' = Ok None) ∧
  (res = Ok None ↔ valid ∧ Forall (λ rule, rule_value object previous rule = Ok None) rules).
Proof.
  assert (Hres : (Evaluate rules object previous (warm sources)).1 =
    if decide (length rules ≤ maxRulesPerGVK ∧ Forall (λ rule, is_ok (compile_fresh rule)) rules)
    then first_value 0 (rule_value object previous <$> rules)
    else Err (match (Validate rules (warm sources)).1 with Some e => e | None => TooManyRules end)).
  { unfold Evaluate. destruct rules as [|rule rules'] eqn:Er; [by rewrite decide_True by (split; [apply Nat.le_0_l|constructor])|]. rewrite <- Er. clear Er.
    unfold Validate. destruct (Nat.ltb_spec maxRulesPerGVK (length rules)); [rewrite decide_False; [done|lia]|].
    destruct (validate_all_spec 0 rules _ (warm_ok sources)) as [Hv Hc].
    destruct (validate_all 0 rules (warm sources)) as [[e|] c]; simpl in *.
    - rewrite decide_False; [done|]. intros [_ Hf]. by apply Hv in Hf.
    - rewrite decide_True; [by apply eval_rules_spec|]. split; [done|]. apply dec_stable. intros [? [=]]%Hv. }
  cbv zeta. rewrite Hres. case_decide as Hvalid; (split; [intros r|]).
  - rewrite first_value_match. setoid_rewrite list_lookup_fmap_Some. naive_solver.
  - rewrite first_value_none, Forall_fmap. naive_solver.
  - naive_solver.
  - naive_solver.
Qed.

(** [latestTrueCondition] returns a True condition with the newest valid
    transition time (the first of them in the list); a valid time beats any
    malformed one, and when every time is malformed the first True condition
    is kept; without a True condition it returns null. *)
Theorem latest_true_condition cs :
  (Forall (λ c, ¬ is_true c) cs ∧ latestTrueCondition (CList cs) = CNull) ∨
  ∃ i c, cs !! i = Some c ∧ is_true c ∧ latestTrueCondition (CList cs) = c ∧
    ∀ j c', cs !! j = Some c' → is_true c' →
      match time_of c, time_of c' with
      | Some t, Some t' => (t' ≤ t)%Z ∧ (t' = t → i ≤ j)
      | Some _, None => True
      | None, Some _ => False
      | None, None => i ≤ j
      end.
Proof.
  pose proof (latest_foldl cs) as Hok. unfold latestTrueCondition.
  destruct (foldl latest_step None cs) as [[c t]|]; simpl in Hok; [right|by left].
  destruct Hok as (-> & i & Hi & Ht & Hall). by exists i, c.
Qed.
End Properties.
