(* ===== verification/CacheStore.v ===== *)
(** * The TTL cache ([internal/cache/store.go])

    A [Store] wraps a [sync.Map], whose operations are atomic.  Those of the
    store are not: [Get] and [Range] load an entry and delete it if it has
    expired, [Set] reads the clock before it stores, and [Clear] deletes one key
    after another.  The functions are what each does when no other runs; the
    step relation interleaves the atomic steps of any number of goroutines.
    Times are in nanoseconds; [None] is the zero time, "never expires". *)
From Stdlib Require Import ZArith Lia.
From stdpp Require Import base gmap strings list option.
From S2P Require Import Prelude.
#[local] Open Scope Z_scope.

Section Store.
Context {K V : Type} `{Countable K}.

(** [entry], internal/cache/store.go *)
Record entry := Entry { e_value : V; e_expiresAt : option Z }.

(** [Store], internal/cache/store.go *)
Record store := Store { s_data : gmap K entry; s_ttl : Z }.

(** [New], internal/cache/store.go *)
Definition New (ttl : Z) : store := Store ∅ ttl.

(** [Get], internal/cache/store.go:55-55 *)
Definition expired (now : Z) (e : entry) : bool :=
  match e_expiresAt e with None => false | Some exp => exp <? now end.

Definition evict (key : K) (s : store) : store := Store (delete key (s_data s)) (s_ttl s).

(** [Get], internal/cache/store.go *)
Definition Get (now : Z) (key : K) (s : store) : option V * store :=
  match s_data s !! key with
  | None => (None, s)
  | Some e => if expired now e then (None, evict key s) else (Some (e_value e), s)
  end.

(** [Set], internal/cache/store.go:66-70 *)
Definition new_entry (ttl now : Z) (val : V) : entry := Entry val (if 0 <? ttl then Some (now + ttl) else None).

(** [Set], internal/cache/store.go *)
Definition Set_ (now : Z) (key : K) (val : V) (s : store) : store :=
  Store (<[key := new_entry (s_ttl s) now val]> (s_data s)) (s_ttl s).

(** [Delete], internal/cache/store.go *)
Definition Delete (key : K) (s : store) : store := evict key s.

(** [sync.Map.Range] visits the keys in an unspecified order, [order]. *)
(** [Clear], internal/cache/store.go *)
Definition Clear (order : list K) (s : store) : store := foldl (λ s key, evict key s) s order.

(** The callback [fn] keeps a state [A] and tells whether to go on. *)
(** [Range], internal/cache/store.go *)
Fixpoint Range {A} (now : Z) (fn : A → K → V → A * bool) (order : list K) (a : A) (s : store) : A * store :=
  match order with
  | [] => (a, s)
  | key :: order =>
      match s_data s !! key with
      | None => Range now fn order a s
      | Some e =>
          if expired now e then Range now fn order a (evict key s)
          else let '(a, go) := fn a key (e_value e) in
               if go then Range now fn order a s else (a, s)
      end
  end.

(** ** The abstract cache: the last value set for each key and when *)

Abbreviation spec_state := (gmap K (V * Z)).

(** A value set at a time, until the TTL has passed. *)
Definition unexpired (ttl now : Z) (x : option (V * Z)) : option V :=
  '(v, t) ← x; if (0 <? ttl) && (t + ttl <? now) then None else Some v.
Definition spec_get (ttl now : Z) (key : K) (σ : spec_state) : option V := unexpired ttl now (σ !! key).

Inductive op :=
  | OpGet (key : K)
  | OpSet (key : K) (val : V)
  | OpDelete (key : K)
  | OpClear (order : list K)
  | OpRange (order : list K).

(** A callback that goes on collecting. *)
Definition collect (a : list (K * V)) (key : K) (v : V) : list (K * V) * bool := (a ++ [(key, v)], true).

Definition exec_op (now : Z) (o : op) (s : store) : store :=
  match o with
  | OpGet key => (Get now key s).2
  | OpSet key val => Set_ now key val s
  | OpDelete key => Delete key s
  | OpClear order => Clear order s
  | OpRange order => (Range now collect order [] s).2
  end.

Definition spec_op (now : Z) (o : op) (σ : spec_state) : spec_state :=
  match o with
  | OpGet _ | OpRange _ => σ
  | OpSet key val => <[key := (val, now)]> σ
  | OpDelete key => delete key σ
  | OpClear _ => ∅
  end.

(** Operations in order of time; a [Clear] visits every key there is. *)
Inductive history : Z → store → spec_state → Prop :=
  | history_new now ttl : history now (New ttl) ∅
  | history_op t now o s σ : history t s σ → t ≤ now →
      (∀ order, o = OpClear order → dom (s_data s) ⊆ list_to_set order) →
      history now (exec_op now o s) (spec_op now o σ).

(** An entry is the last value set, or that value has expired and was evicted. *)
Definition refines (now : Z) (s : store) (σ : spec_state) : Prop :=
  ∀ key, match s_data s !! key, σ !! key with
         | Some e, Some (v, t) => e_value e = v ∧ e_expiresAt e = if 0 <? s_ttl s then Some (t + s_ttl s) else None
         | Some _, None => False
         | None, Some (v, t) => 0 < s_ttl s ∧ t + s_ttl s < now
         | None, None => True
         end.

Lemma refines_evict now key s σ e :
  refines now s σ → s_data s !! key = Some e → expired now e = true → refines now (evict key s) σ.
Proof.
  intros Hr He Hexp k. simpl. destruct (decide (key = k)) as [->|].
  - rewrite lookup_delete_eq. specialize (Hr k). rewrite He in Hr. destruct (σ !! k) as [[v t]|]; [|done].
    destruct Hr as [_ Hx]. unfold expired in Hexp. rewrite Hx in Hexp. destruct (Z.ltb_spec 0 (s_ttl s)); [|done].
    apply Z.ltb_lt in Hexp. lia.
  - rewrite lookup_delete_ne by done. apply Hr.
Qed.

Lemma refines_range {A} now (fn : A → K → V → A * bool) order a s σ :
  refines now s σ → refines now (Range now fn order a s).2 σ.
Proof.
  revert a s. induction order as [|key order IH]; intros a s Hr; simpl; [done|].
  destruct (s_data s !! key) as [e|] eqn:He; [|by apply IH].
  destruct (expired now e) eqn:Hexp; [by eapply IH, refines_evict|].
  destruct (fn a key (e_value e)) as [a' []]; [by apply IH|done].
Qed.

Lemma clear_data order s : s_data (Clear order s) = foldl (λ m key, delete key m) (s_data s) order.
Proof. revert s. induction order as [|key order IH]; intros s; simpl; [done|]. apply IH. Qed.

Lemma clear_empty order s : dom (s_data s) ⊆ list_to_set order → s_data (Clear order s) = ∅.
Proof.
  rewrite clear_data. generalize (s_data s). induction order as [|key order IH]; intros m Hdom; simpl in *.
  - apply dom_empty_inv_L. set_solver.
  - apply IH. rewrite dom_delete_L. set_solver.
Qed.

Lemma refines_mono now now' s σ : now ≤ now' → refines now s σ → refines now' s σ.
Proof.
  intros Hle Hr k. specialize (Hr k). destruct (s_data s !! k), (σ !! k) as [[v t]|]; try done. lia.
Qed.

Lemma history_refines now s σ : history now s σ → refines now s σ.
Proof.
  induction 1 as [now ttl|t now o s σ _ IH Hle Hclear]; [intros k; simpl; by rewrite !lookup_empty|].
  apply (refines_mono _ now) in IH; [|done]. destruct o as [key|key val|key|order|order]; simpl.
  - unfold Get. destruct (s_data s !! key) as [e|] eqn:He; [|done].
    destruct (expired now e) eqn:Hexp; [by eapply refines_evict|done].
  - intros k. simpl. destruct (decide (key = k)) as [->|].
    + by rewrite !lookup_insert_eq.
    + rewrite !lookup_insert_ne by done. apply IH.
  - intros k. simpl. destruct (decide (key = k)) as [->|].
    + by rewrite !lookup_delete_eq.
    + rewrite !lookup_delete_ne by done. apply IH.
  - intros k. rewrite clear_empty by (by apply Hclear). by rewrite !lookup_empty.
  - by apply refines_range.
Qed.

(** Operations that do not overlap. *)
Lemma sequential_get t now s σ key :
  history t s σ → t ≤ now → (Get now key s).1 = spec_get (s_ttl s) now key σ.
Proof.
  intros Hr%history_refines Hle. apply (refines_mono _ now) in Hr; [|done]. specialize (Hr key). unfold Get, spec_get, unexpired.
  destruct (s_data s !! key) as [e|] eqn:He, (σ !! key) as [[v t0]|] eqn:Hσ; simpl; try done.
  - destruct Hr as [Hv Hexp]. unfold expired. rewrite Hexp. destruct (Z.ltb_spec 0 (s_ttl s)); simpl; [|by subst].
    destruct (t0 + s_ttl s <? now); [done|by subst].
  - destruct Hr as [Ht Hn]. destruct (Z.ltb_spec 0 (s_ttl s)); [|lia].
    by destruct (Z.ltb_spec (t0 + s_ttl s) now); [|lia].
Qed.

(** ** Operations that overlap *)

(** Where a goroutine is.  [back] is where a read returns to: [Get] answers,
    [Range] goes on with the keys that are left.  [seen] is a history variable:
    the last value set for the key at the moment of the load. *)
Inductive back := ToCaller | ToRange (order : list K).
Inductive pc :=
  | Idle
  | Storing (key : K) (val : V) (at_ : Z)                          (** [Set] has read the clock *)
  | Loading (key : K)                                              (** [Get] was called *)
  | Loaded (key : K) (e : entry) (seen : option (V * Z)) (b : back)
  | Evicting (key : K) (seen : option (V * Z)) (b : back)          (** the entry loaded had expired *)
  | Ranging (order : list K)
  | Clearing (order : list K)
  | ClearingAt (key : K) (order : list K).                         (** [Clear] was given the key *)

(** The clock, the store and the goroutines; and two history variables: the
    last value set for each key, with the time of its [Set], and the keys for
    which that value was stored between the load and the end of another read. *)
Record cstate := CState {
  cc_now : Z; cc_store : store; cc_threads : nat → pc; cc_spec : gmap K (V * Z); cc_raced : gset K;
}.

Definition at_pc (i : nat) (p : pc) (s : cstate) : cstate :=
  CState (cc_now s) (cc_store s) (λ j, if decide (j = i) then p else cc_threads s j) (cc_spec s) (cc_raced s).
Definition with_store (st : store) (s : cstate) : cstate :=
  CState (cc_now s) st (cc_threads s) (cc_spec s) (cc_raced s).
Definition with_spec (σ : gmap K (V * Z)) (raced : gset K) (s : cstate) : cstate :=
  CState (cc_now s) (cc_store s) (cc_threads s) σ raced.
Definition tick (now : Z) (s : cstate) : cstate :=
  CState now (cc_store s) (cc_threads s) (cc_spec s) (cc_raced s).

Definition returned (b : back) : pc := match b with ToCaller => Idle | ToRange order => Ranging order end.

(** A read of the key has loaded and may still evict. *)
Definition pending (key : K) (p : pc) : Prop :=
  match p with Loaded k _ _ _ | Evicting k _ _ => k = key | _ => False end.

(** What a step shows: the answer of [Get], or what [Range] gives its callback
    for a key ([None] where it passes over it). *)
Inductive shown := Quiet | Reads (key : K) (seen : option (V * Z)) (answer : option V).

(** The key whose entry is loaded next. *)
Definition next_load (p : pc) : option (K * back) :=
  match p with Loading key => Some (key, ToCaller) | Ranging (key :: order) => Some (key, ToRange order) | _ => None end.

(** [Store], internal/cache/store.go:44-101 *)
Inductive step : cstate → shown → cstate → Prop :=
  | step_tick s now : cc_now s ≤ now → step s Quiet (tick now s)
  (** calls *)
  | step_get s i key : cc_threads s i = Idle → step s Quiet (at_pc i (Loading key) s)
  | step_range s i order : cc_threads s i = Idle → step s Quiet (at_pc i (Ranging order) s)
  | step_clear s i order : cc_threads s i = Idle → step s Quiet (at_pc i (Clearing order) s)
  | step_set s i key val : cc_threads s i = Idle → step s Quiet (at_pc i (Storing key val (cc_now s)) s)
  | step_delete s i key : cc_threads s i = Idle →
      step s Quiet (with_store (Delete key (cc_store s)) (with_spec (delete key (cc_spec s)) (cc_raced s) s))
  (** the store of [Set], which a read may overlap *)
  | step_store s i key val t : cc_threads s i = Storing key val t → (∀ j, ¬ pending key (cc_threads s j)) →
      step s Quiet (at_pc i Idle (with_store (Set_ t key val (cc_store s))
        (with_spec (<[key := (val, t)]> (cc_spec s)) (cc_raced s ∖ {[key]}) s)))
  | step_store_raced s i j key val t : cc_threads s i = Storing key val t → pending key (cc_threads s j) →
      step s Quiet (at_pc i Idle (with_store (Set_ t key val (cc_store s))
        (with_spec (<[key := (val, t)]> (cc_spec s)) (cc_raced s ∪ {[key]}) s)))
  (** the load of a read *)
  | step_missing s i key b : next_load (cc_threads s i) = Some (key, b) → s_data (cc_store s) !! key = None →
      step s (Reads key (cc_spec s !! key) None) (at_pc i (returned b) s)
  | step_load s i key b e : next_load (cc_threads s i) = Some (key, b) → s_data (cc_store s) !! key = Some e →
      step s Quiet (at_pc i (Loaded key e (cc_spec s !! key) b) s)
  (** the look at the clock; the callback of [Range] may stop it *)
  | step_live s i key e seen b p : cc_threads s i = Loaded key e seen b → expired (cc_now s) e = false →
      p = returned b ∨ p = Idle → step s (Reads key seen (Some (e_value e))) (at_pc i p s)
  | step_expired s i key e seen b : cc_threads s i = Loaded key e seen b → expired (cc_now s) e = true →
      step s Quiet (at_pc i (Evicting key seen b) s)
  (** the eviction, of whatever entry is there by now *)
  | step_evict s i key seen b : cc_threads s i = Evicting key seen b →
      step s (Reads key seen None) (at_pc i (returned b) (with_store (evict key (cc_store s)) s))
  (** [Range] and [Clear], which is given the keys that are there *)
  | step_range_done s i : cc_threads s i = Ranging [] → step s Quiet (at_pc i Idle s)
  | step_clear_done s i : cc_threads s i = Clearing [] → step s Quiet (at_pc i Idle s)
  | step_clear_missing s i key order : cc_threads s i = Clearing (key :: order) → s_data (cc_store s) !! key = None →
      step s Quiet (at_pc i (Clearing order) (with_spec (delete key (cc_spec s)) (cc_raced s) s))
  | step_clear_next s i key order e : cc_threads s i = Clearing (key :: order) → s_data (cc_store s) !! key = Some e →
      step s Quiet (at_pc i (ClearingAt key order) s)
  | step_clear_key s i key order : cc_threads s i = ClearingAt key order →
      step s Quiet (at_pc i (Clearing order) (with_store (Delete key (cc_store s)) (with_spec (delete key (cc_spec s)) (cc_raced s) s))).

Inductive reachable (ttl : Z) : cstate → Prop :=
  | reachable_new now : reachable ttl (CState now (New ttl) (λ _, Idle) ∅ ∅)
  | reachable_step s l s' : reachable ttl s → step s l s' → reachable ttl s'.

(** *** The invariant *)

Definition outdated (ttl now : Z) (t : Z) : Prop := 0 < ttl ∧ t + ttl < now.

(** A read that has loaded: the entry it holds, or that it had expired. *)
Definition holds_entry (ttl now : Z) (p : pc) : Prop :=
  match p with
  | Loaded key e seen _ => ∃ v t, seen = Some (v, t) ∧ e = new_entry ttl t v
  | Evicting key seen _ => ∃ v t, seen = Some (v, t) ∧ outdated ttl now t
  | _ => True
  end.

(** Where no [Set] raced, what it loaded is the last value set, if there is one. *)
Definition up_to_date (σ : gmap K (V * Z)) (raced : gset K) (p : pc) : Prop :=
  match p with
  | Loaded key _ seen _ | Evicting key seen _ => key ∉ raced → ∀ v t, σ !! key = Some (v, t) → seen = Some (v, t)
  | _ => True
  end.

Record coherent (ttl : Z) (s : cstate) : Prop := {
  coherent_ttl : s_ttl (cc_store s) = ttl;
  coherent_entry key e : s_data (cc_store s) !! key = Some e → ∃ v t, cc_spec s !! key = Some (v, t) ∧ e = new_entry ttl t v;
  coherent_gone key v t : s_data (cc_store s) !! key = None → cc_spec s !! key = Some (v, t) →
    outdated ttl (cc_now s) t ∨ (0 < ttl ∧ key ∈ cc_raced s);
  coherent_held i : holds_entry ttl (cc_now s) (cc_threads s i);
  coherent_date i : up_to_date (cc_spec s) (cc_raced s) (cc_threads s i);
}.

Lemma new_entry_expired ttl now t v : expired now (new_entry ttl t v) = true ↔ outdated ttl now t.
Proof.
  unfold expired, new_entry, outdated. simpl. destruct (Z.ltb_spec 0 ttl); [rewrite Z.ltb_lt; lia|split; [done|lia]].
Qed.

Lemma unexpired_new ttl now t v :
  unexpired ttl now (Some (v, t)) = if expired now (new_entry ttl t v) then None else Some v.
Proof. unfold unexpired, expired, new_entry. simpl. by destruct (0 <? ttl). Qed.

Lemma outdated_unexpired ttl now v t : outdated ttl now t → unexpired ttl now (Some (v, t)) = None.
Proof. rewrite unexpired_new. by intros ->%(new_entry_expired ttl now t v). Qed.

Lemma coherent_at ttl i p s : coherent ttl s → holds_entry ttl (cc_now s) p →
  up_to_date (cc_spec s) (cc_raced s) p → coherent ttl (at_pc i p s).
Proof. intros [] ??. split; simpl; try done; intros j; by case_decide. Qed.

Lemma coherent_tick ttl now s : cc_now s ≤ now → coherent ttl s → coherent ttl (tick now s).
Proof.
  intros Hle [? He Hg Hh Hd]. split; simpl; try done.
  - intros key v t Hn Hs. destruct (Hg key v t Hn Hs) as [[??]|]; [left; split; lia|by right].
  - intros i. specialize (Hh i). destruct (cc_threads s i); simpl in *; try done.
    destruct Hh as (v & t & ? & ? & ?). exists v, t. split; [done|split; lia].
Qed.

Lemma coherent_stored ttl key v t raced s : coherent ttl s →
  (∀ k, k ≠ key → k ∈ raced ↔ k ∈ cc_raced s) → (∀ i, pending key (cc_threads s i) → key ∈ raced) →
  coherent ttl (with_store (Set_ t key v (cc_store s)) (with_spec (<[key := (v, t)]> (cc_spec s)) raced s)).
Proof.
  intros [Ht He Hg Hh Hd] Hraced Hpend. split; simpl; try done.
  - intros k e. destruct (decide (key = k)) as [->|].
    + rewrite !lookup_insert_eq, Ht. intros [= <-]. by exists v, t.
    + rewrite !lookup_insert_ne by done. apply He.
  - intros k v' t'. destruct (decide (key = k)) as [->|]; [by rewrite lookup_insert_eq|].
    rewrite !lookup_insert_ne by done. rewrite Hraced by done. apply Hg.
  - intros i. specialize (Hd i). specialize (Hpend i). destruct (cc_threads s i) as [| | |k e seen b|k seen b| | |]; simpl in *; try done.
    all: intros Hk v' t'; destruct (decide (key = k)) as [->|]; [by destruct Hk; auto|];
      rewrite lookup_insert_ne by done; apply Hd; by rewrite <- Hraced.
Qed.

(** A key whose value is forgotten, and whose entry, if any, is deleted. *)
Lemma coherent_forgotten ttl key st s : coherent ttl s → s_ttl st = ttl → s_data st = delete key (s_data (cc_store s)) →
  coherent ttl (with_store st (with_spec (delete key (cc_spec s)) (cc_raced s) s)).
Proof.
  intros [Ht He Hg Hh Hd] Htt Hst. split; simpl; try done.
  - intros k e. rewrite Hst. intros [Hne Hk]%lookup_delete_Some. rewrite lookup_delete_ne by done. by apply He.
  - intros k v t Hk [Hne Hs]%lookup_delete_Some. rewrite Hst, lookup_delete_ne in Hk by done. by apply (Hg k v).
  - intros i. specialize (Hd i). destruct (cc_threads s i); simpl in *; try done; intros Hk v t [? ?]%lookup_delete_Some; by apply Hd.
Qed.

Lemma coherent_evicted ttl i key seen b s : coherent ttl s → cc_threads s i = Evicting key seen b →
  coherent ttl (with_store (evict key (cc_store s)) s).
Proof.
  intros [Ht He Hg Hh Hd] Hi. split; simpl; try done.
  - intros k e [Hne Hk]%lookup_delete_Some. by apply He.
  - intros k v t Hk Hs. destruct (decide (key = k)) as [->|]; [|rewrite lookup_delete_ne in Hk by done; by apply (Hg k v)].
    specialize (Hh i). specialize (Hd i). rewrite Hi in Hh, Hd. simpl in Hh, Hd. destruct Hh as (v' & t' & -> & Hout).
    destruct (decide (k ∈ cc_raced s)) as [|Hk']; [right; split; [apply Hout|done]|left].
    specialize (Hd Hk' v t Hs). by simplify_eq.
Qed.

Lemma step_coherent ttl s l s' : coherent ttl s → step s l s' → coherent ttl s'.
Proof.
  intros Hc. destruct 1 as [s now|s i key Hi|s i order Hi|s i order Hi|s i key val Hi|s i key Hi|s i key val t Hi Hno
    |s i j key val t Hi Hj|s i key b Hi Hn|s i key b e Hi Hn|s i key e seen b p Hi Hx Hp|s i key e seen b Hi Hx
    |s i key seen b Hi|s i Hi|s i Hi|s i key order Hi Hn|s i key order e Hi Hn|s i key order Hi].
  all: pose proof (coherent_ttl _ _ Hc) as Httl.
  all: try (pose proof (coherent_held _ _ Hc i) as Hh; pose proof (coherent_date _ _ Hc i) as Hd).
  all: try by apply coherent_at.
  all: try by apply coherent_forgotten.
  - by apply coherent_tick.
  - apply coherent_at; [|done..]. apply coherent_stored; [done|set_solver|]. intros j Hj. by destruct (Hno j).
  - apply coherent_at; [|done..]. apply coherent_stored; [done|set_solver|]. intros _ _. set_solver.
  - destruct b; by apply coherent_at.
  - apply coherent_at; [done| |simpl; congruence]. simpl. destruct (coherent_entry _ _ Hc key e Hn) as (v & t & -> & ->). eauto.
  - destruct Hp as [-> | ->]; [destruct b|]; by apply coherent_at.
  - rewrite Hi in Hh, Hd. apply coherent_at; [done| |done]. simpl in *. destruct Hh as (v & t & -> & ->). exists v, t.
    split; [done|]. by apply new_entry_expired in Hx.
  - apply coherent_at; [|by destruct b..]. by eapply coherent_evicted.
  - apply coherent_at; [|done..]. apply (coherent_forgotten ttl key (cc_store s)) in Hc; [|done|by rewrite delete_id].
    by destruct s.
  - apply coherent_at; [|done..]. by apply coherent_forgotten.
Qed.

Lemma reachable_coherent ttl s : reachable ttl s → coherent ttl s.
Proof.
  induction 1 as [now|s l s' _ IH Hstep]; [|by eapply step_coherent]. split; simpl; try done.
Qed.

(** Exact, but for a value whose [Set] overlapped the eviction of an older one. *)
Definition consistent (s : cstate) (l : shown) : Prop :=
  match l with
  | Quiet => True
  | Reads key seen answer =>
      answer = unexpired (s_ttl (cc_store s)) (cc_now s) seen ∨
      (answer = None ∧ 0 < s_ttl (cc_store s) ∧ seen = cc_spec s !! key ∧ key ∈ cc_raced s)
  end.

(** A goroutine whose [Get] nobody interferes with does what the function says. *)
Lemma get_alone s i key : cc_threads s i = Idle →
  ∃ s1 s2 seen, rtc (λ a b, step a Quiet b) s s1 ∧ step s1 (Reads key seen (Get (cc_now s) key (cc_store s)).1) s2 ∧
    seen = cc_spec s !! key ∧ cc_store s2 = (Get (cc_now s) key (cc_store s)).2 ∧ cc_threads s2 i = Idle.
Proof.
  intros Hi. set (s1 := at_pc i (Loading key) s).
  assert (Hs1 : step s Quiet s1) by (by apply step_get).
  assert (Hl : next_load (cc_threads s1 i) = Some (key, ToCaller)) by (simpl; by case_decide).
  unfold Get. destruct (s_data (cc_store s) !! key) as [e|] eqn:He.
  2:{ exists s1, (at_pc i Idle s1), (cc_spec s !! key). split; [by apply rtc_once|]. split_and!; [|done..|simpl; by case_decide].
      by apply (step_missing s1 i key ToCaller). }
  set (s2 := at_pc i (Loaded key e (cc_spec s !! key) ToCaller) s1).
  assert (Hs2 : step s1 Quiet s2) by (by apply (step_load s1 i key ToCaller e)).
  assert (Hi2 : cc_threads s2 i = Loaded key e (cc_spec s !! key) ToCaller) by (simpl; by case_decide).
  destruct (expired (cc_now s) e) eqn:Hx; simpl.
  - set (s3 := at_pc i (Evicting key (cc_spec s !! key) ToCaller) s2).
    exists s3, (at_pc i Idle (with_store (evict key (cc_store s3)) s3)), (cc_spec s !! key).
    split; [eapply rtc_l; [exact Hs1|]; eapply rtc_l; [exact Hs2|]; apply rtc_once; by eapply step_expired|].
    split_and!; [|done..|simpl; by case_decide]. apply (step_evict s3 i key _ ToCaller). simpl. by case_decide.
  - exists s2, (at_pc i Idle s2), (cc_spec s !! key).
    split; [eapply rtc_l; [exact Hs1|]; by apply rtc_once|].
    split_and!; [|done..|simpl; by case_decide]. eapply step_live; [exact Hi2|done|by left].
Qed.

(** C40: The cache refines "the last value set, until it expires".  When its
    operations do not overlap, whatever has been read, and so evicted, before,
    [Get] returns the value of the last [Set] of the key (no [Delete] or
    [Clear] since), unless a TTL is configured and more than it has passed
    since that [Set].  When they overlap, in any order of their atomic steps,
    what [Get] answers and what [Range] gives its callback is the value that
    was the last one set when it loaded, unless that one has expired; the only
    exception is that nothing is found where a TTL is configured and the
    [Set] of that value stored it while a read of the key was between its load
    and its eviction. *)
Theorem cache_refines ttl t now st σ key s l s' :
  history t st σ → t ≤ now → reachable ttl s → step s l s' →
  (Get now key st).1 = spec_get (s_ttl st) now key σ ∧ consistent s l.
Proof.
  intros Hhist Hle Hc%reachable_coherent Hstep. split; [by eapply sequential_get|].
  destruct Hstep as [| | | | | | | |s i key' b Hi Hn| |s i key' e seen b p Hi Hx Hp| |s i key' seen b Hi| | | | |]; simpl; try done.
  all: rewrite (coherent_ttl _ _ Hc); pose proof (coherent_held _ _ Hc i) as Hh.
  - destruct (cc_spec s !! key') as [[v t']|] eqn:Hs; [|by left].
    destruct (coherent_gone _ _ Hc key' v t' Hn Hs) as [Hout|[??]]; [left; by rewrite outdated_unexpired|by right].
  - left. rewrite Hi in Hh. destruct Hh as (v & t' & -> & ->). by rewrite unexpired_new, Hx.
  - left. rewrite Hi in Hh. destruct Hh as (v & t' & -> & Hout). by rewrite outdated_unexpired.
Qed.
End Store.

(** ** A value lost to the eviction of an older one

    With a TTL of 10: one goroutine sets 1 at 0; at 11 another reads it and finds
    it expired; before it evicts the entry, the first sets 2. *)
Section Race.
Abbreviation cs := (cstate (K := string) (V := nat)).

Definition race0 : cs := CState 0 (New 10) (λ _, Idle) ∅ ∅.
Definition store_step (key : string) (val : nat) (t : Z) (raced : gset string) (s : cs) : cs :=
  at_pc 0 Idle (with_store (Set_ t key val (cc_store s)) (with_spec (<[key := (val, t)]> (cc_spec s)) raced s)).
Definition race1 : cs := tick 11 (store_step "a" 1 0 (∅ ∖ {["a"]}) (at_pc 0 (Storing "a" 1%nat 0) race0)).
Definition race2 : cs := at_pc 1 (Loaded "a" (Entry 1%nat (Some 10)) (Some (1%nat, 0)) ToCaller) (at_pc 1 (Loading "a") race1).
Definition race3 : cs := at_pc 1 (Evicting "a" (Some (1%nat, 0)) ToCaller) race2.
Definition race4 : cs := store_step "a" 2 11 (cc_raced race3 ∪ {["a"]}) (at_pc 0 (Storing "a" 2%nat 11) race3).
Definition race5 : cs := at_pc 1 Idle (with_store (evict "a" (cc_store race4)) race4).
Definition race6 : cs := at_pc 2 (Loading "a") race5.

Lemma race1_reachable : reachable 10 race1.
Proof.
  set (s := at_pc 0 (Storing "a" 1%nat 0) race0).
  assert (H1 : reachable 10 s) by (eapply reachable_step; [apply (reachable_new 10 0)|exact (step_set race0 0 "a" 1%nat eq_refl)]).
  eapply reachable_step; [|exact (step_tick (store_step "a" 1 0 (∅ ∖ {["a"]}) s) 11 ltac:(vm_compute; discriminate))].
  eapply reachable_step; [exact H1|]. apply (step_store s 0 "a" 1%nat 0 eq_refl). intros j Hj. simpl in Hj. by destruct (decide _).
Qed.

Lemma race3_reachable : reachable 10 race3.
Proof.
  eapply reachable_step; [|exact (step_expired race2 1 _ _ _ _ eq_refl eq_refl)].
  eapply reachable_step; [|exact (step_load (at_pc 1 (Loading "a") race1) 1 "a" ToCaller _ eq_refl eq_refl)].
  eapply reachable_step; [exact race1_reachable|exact (step_get race1 1 "a" eq_refl)].
Qed.

Lemma race6_reachable : reachable 10 race6.
Proof.
  eapply reachable_step; [|exact (step_get race5 2 "a" eq_refl)].
  eapply reachable_step; [|exact (step_evict race4 1 _ _ _ eq_refl)].
  eapply reachable_step; [|exact (step_store_raced (at_pc 0 (Storing "a" 2%nat 11) race3) 0 1 "a" 2%nat 11 eq_refl eq_refl)].
  eapply reachable_step; [exact race3_reachable|exact (step_set race3 0 "a" 2%nat eq_refl)].
Qed.

Lemma eviction_can_drop_fresh_value : reachable 10 race6 ∧ cc_now race6 = 11 ∧
  step race6 (Reads "a" (Some (2%nat, 11)) None) (at_pc 2 Idle race6).
Proof. split; [exact race6_reachable|]. split; [done|]. exact (step_missing race6 2 "a" ToCaller eq_refl eq_refl). Qed.

Lemma cache_refines_witness :
  (Get 12 "a" (Set_ 5 "a" 1%nat (New 10))).1 = Some 1%nat ∧
  (Get 16 "a" (Set_ 5 "a" 1%nat (New 10))).1 = None ∧
  consistent race6 (Reads "a" (Some (2%nat, 11)) None).
Proof.
  assert (Hh : history 5 (Set_ 5 "a" 1%nat (New 10)) {["a" := (1%nat, 5)]}).
  { apply (history_op 0 5 (OpSet "a" 1%nat) (New 10) ∅); [constructor|lia|]. intros order Ho. discriminate Ho. }
  destruct eviction_can_drop_fresh_value as (Hr & _ & Hs).
  assert (H12 : 5 <= 12) by lia. assert (H16 : 5 <= 16) by lia.
  split_and!.
  - rewrite (proj1 (cache_refines 10 5 12 _ _ "a" _ _ _ Hh H12 Hr Hs)). vm_compute. reflexivity.
  - rewrite (proj1 (cache_refines 10 5 16 _ _ "a" _ _ _ Hh H16 Hr Hs)). vm_compute. reflexivity.
  - exact (proj2 (cache_refines 10 5 12 _ _ "a" _ _ _ Hh H12 Hr Hs)).
Defined.
End Race.
