(* ===== verification/WorkloadPhase.v ===== *)
(** * Phases of native workloads

    [internal/k8s/workload_phase.go] and the phase derivation of
    [deployment.go], [sts.go] and [daemonsets.go].  Counters are [int32] and
    only compared, or subtracted where the result is between them. *)
From Stdlib Require Import ZArith Lia.
From stdpp Require Import base strings list option.
From S2P Require Import Prelude Labels.
#[local] Open Scope Z_scope.

(** [PhaseUnknown], api/v1/common.go *)
Definition PhaseUnknown : string := "".
(** [PhaseChecking], api/v1/common.go *)
Definition PhaseChecking : string := "Checking".
(** [PhaseChecked], api/v1/common.go *)
Definition PhaseChecked : string := "Checked".
(** [PhaseCreating], api/v1/common.go *)
Definition PhaseCreating : string := "Creating".
(** [PhaseUpdating], api/v1/common.go *)
Definition PhaseUpdating : string := "Updating".
(** [PhaseRunning], api/v1/common.go *)
Definition PhaseRunning : string := "Running".
(** [PhaseFailed], api/v1/common.go *)
Definition PhaseFailed : string := "Failed".

(** [desiredReplicas], internal/k8s/workload_phase.go *)
Definition desiredReplicas (replicas : option Z) : Z := default 1 replicas.

(** [workloadProgressPhase], internal/k8s/workload_phase.go *)
Definition workloadProgressPhase (generation : Z) (previousPhase : string) : string :=
  if (1 <? generation) || bool_decide (previousPhase = PhaseRunning) || bool_decide (previousPhase = PhaseUpdating)
  then PhaseUpdating else PhaseCreating.

(** ** Deployments *)

Record deployment_condition := DeploymentCondition { dc_type : string; dc_status : string; dc_reason : string; dc_message : string }.
Record deployment_status := DeploymentStatus {
  ds_observedGeneration : Z;
  ds_replicas : Z;
  ds_updatedReplicas : Z;
  ds_readyReplicas : Z;
  ds_availableReplicas : Z;
  ds_unavailableReplicas : Z;
  ds_terminatingReplicas : option Z;
  ds_conditions : list deployment_condition;
}.
#[export] Instance deployment_condition_eq_dec : EqDecision deployment_condition.
Proof. solve_decision. Defined.
#[export] Instance deployment_status_eq_dec : EqDecision deployment_status.
Proof. solve_decision. Defined.
Record deployment := Deployment { dep_generation : Z; dep_replicas : option Z; dep_status : deployment_status }.

(** [deploymentHasFailed], internal/k8s/deployment.go *)
Definition deploymentHasFailed (conditions : list deployment_condition) : bool :=
  existsb (λ c,
    bool_decide (dc_type c = "ReplicaFailure" ∧ dc_status c = ConditionTrue) ||
    bool_decide (dc_type c = "Progressing" ∧ dc_status c = ConditionFalse ∧
                 dc_reason c = "ProgressDeadlineExceeded")) conditions.

(** [DeriveDeploymentPhase], internal/k8s/deployment.go *)
Definition DeriveDeploymentPhase (dep : option deployment) (previousPhase : string) : string :=
  match dep with
  | None => PhaseUnknown
  | Some dep =>
      let desired := desiredReplicas (dep_replicas dep) in
      let status := dep_status dep in
      let observed := dep_generation dep <=? ds_observedGeneration status in
      let terminating := match ds_terminatingReplicas status with Some n => 0 <? n | None => false end in
      if observed && deploymentHasFailed (ds_conditions status) then PhaseFailed
      else if observed &&
        (ds_replicas status =? desired) && (ds_updatedReplicas status =? desired) &&
        (ds_readyReplicas status =? desired) && (ds_availableReplicas status =? desired) &&
        (ds_unavailableReplicas status =? 0) && negb terminating
      then PhaseRunning
      else workloadProgressPhase (dep_generation dep) previousPhase
  end.

(** ** StatefulSets *)

Record statefulset_status := StatefulSetStatus {
  ss_observedGeneration : Z;
  ss_replicas : Z;
  ss_readyReplicas : Z;
  ss_availableReplicas : Z;
  ss_currentReplicas : Z;
  ss_updatedReplicas : Z;
  ss_currentRevision : string;
  ss_updateRevision : string;
}.
Record statefulset := StatefulSet {
  sts_generation : Z;
  sts_replicas : option Z;
  sts_strategy : string;
  sts_partition : option Z;
  sts_status : statefulset_status;
}.

(** The partition is clamped to [desired], so the subtraction stays in range. *)
(** [statefulSetRevisionConverged], internal/k8s/sts.go *)
Definition statefulSetRevisionConverged (sts : statefulset) (desired : Z) : bool :=
  let status := sts_status sts in
  let equal_revisions :=
    (ss_currentReplicas status =? desired) && (ss_updatedReplicas status =? desired) &&
    negb (String.eqb (ss_currentRevision status) "") &&
    String.eqb (ss_currentRevision status) (ss_updateRevision status) in
  if desired =? 0 then (ss_currentReplicas status =? 0) && (ss_updatedReplicas status =? 0)
  else if String.eqb (sts_strategy sts) "RollingUpdate" || String.eqb (sts_strategy sts) "" then
    let partition := Z.min (default 0 (sts_partition sts)) desired in
    if 0 <? partition then desired - partition <=? ss_updatedReplicas status else equal_revisions
  else equal_revisions.

(** [DeriveStatefulSetPhase], internal/k8s/sts.go *)
Definition DeriveStatefulSetPhase (sts : option statefulset) (previousPhase : string) : string :=
  match sts with
  | None => PhaseUnknown
  | Some sts =>
      let desired := desiredReplicas (sts_replicas sts) in
      let status := sts_status sts in
      if (sts_generation sts <=? ss_observedGeneration status) && (ss_replicas status =? desired) &&
         (ss_readyReplicas status =? desired) && (ss_availableReplicas status =? desired) &&
         statefulSetRevisionConverged sts desired
      then PhaseRunning
      else workloadProgressPhase (sts_generation sts) previousPhase
  end.

(** ** DaemonSets *)

Record daemonset_status := DaemonSetStatus {
  dm_observedGeneration : Z;
  dm_desiredNumberScheduled : Z;
  dm_currentNumberScheduled : Z;
  dm_updatedNumberScheduled : Z;
  dm_numberReady : Z;
  dm_numberAvailable : Z;
  dm_numberUnavailable : Z;
  dm_numberMisscheduled : Z;
}.
Record daemonset := DaemonSet { dm_generation : Z; dm_status : daemonset_status }.

(** [DeriveDaemonSetPhase], internal/k8s/daemonsets.go *)
Definition DeriveDaemonSetPhase (dm : option daemonset) (previousPhase : string) : string :=
  match dm with
  | None => PhaseUnknown
  | Some dm =>
      let status := dm_status dm in
      let desired := dm_desiredNumberScheduled status in
      if (dm_generation dm <=? dm_observedGeneration status) && (dm_currentNumberScheduled status =? desired) &&
         (dm_updatedNumberScheduled status =? desired) && (dm_numberReady status =? desired) &&
         (dm_numberAvailable status =? desired) && (dm_numberUnavailable status =? 0) &&
         (dm_numberMisscheduled status =? 0)
      then PhaseRunning
      else workloadProgressPhase (dm_generation dm) previousPhase
  end.

(** ** Properties *)

Ltac split_tests :=
  repeat match goal with
  | H : _ && _ = true |- _ => apply andb_true_iff in H as [? H]
  | H : (_ <=? _) = true |- _ => apply Z.leb_le in H
  | H : (_ =? _) = true |- _ => apply Z.eqb_eq in H
  end.

Lemma progress_phase generation previous :
  workloadProgressPhase generation previous =
    if decide (1 < generation ∨ previous = PhaseRunning ∨ previous = PhaseUpdating) then PhaseUpdating else PhaseCreating.
Proof.
  unfold workloadProgressPhase. destruct (Z.ltb_spec 1 generation); [by rewrite decide_True by auto|].
  case_bool_decide; [by rewrite decide_True by auto|]. case_bool_decide; [by rewrite decide_True by auto|].
  rewrite decide_False; [done|]. intros [?|[?|?]]; [lia|done..].
Qed.

Lemma progress_not_running generation previous : workloadProgressPhase generation previous ≠ PhaseRunning.
Proof. rewrite progress_phase. by case_decide. Qed.

(** A workload is reported Running only when its controller has observed
    the current generation and every counter has converged to the desired
    replicas (for a partitioned StatefulSet, at least the replicas above the
    partition are updated), and a Deployment only if it reports no failure. *)
Theorem running_only_when_converged previous :
  (∀ dep, DeriveDeploymentPhase (Some dep) previous = PhaseRunning ↔
     let st := dep_status dep in let n := desiredReplicas (dep_replicas dep) in
     dep_generation dep ≤ ds_observedGeneration st ∧ deploymentHasFailed (ds_conditions st) = false ∧
     ds_replicas st = n ∧ ds_updatedReplicas st = n ∧ ds_readyReplicas st = n ∧ ds_availableReplicas st = n ∧
     ds_unavailableReplicas st = 0 ∧ ∀ t, ds_terminatingReplicas st = Some t → t ≤ 0) ∧
  (∀ sts, DeriveStatefulSetPhase (Some sts) previous = PhaseRunning →
     let st := sts_status sts in let n := desiredReplicas (sts_replicas sts) in
     sts_generation sts ≤ ss_observedGeneration st ∧ ss_replicas st = n ∧ ss_readyReplicas st = n ∧
     ss_availableReplicas st = n ∧
     (ss_updatedReplicas st = n ∨
      0 < default 0 (sts_partition sts) ∧ n - default 0 (sts_partition sts) ≤ ss_updatedReplicas st)) ∧
  (∀ dm, DeriveDaemonSetPhase (Some dm) previous = PhaseRunning ↔
     let st := dm_status dm in let n := dm_desiredNumberScheduled st in
     dm_generation dm ≤ dm_observedGeneration st ∧ dm_currentNumberScheduled st = n ∧
     dm_updatedNumberScheduled st = n ∧ dm_numberReady st = n ∧ dm_numberAvailable st = n ∧
     dm_numberUnavailable st = 0 ∧ dm_numberMisscheduled st = 0).
Proof.
  pose proof progress_not_running as Hprog. split; [|split].
  - intros dep. unfold DeriveDeploymentPhase. set (n := desiredReplicas _). cbv zeta.
    destruct (Z.leb_spec (dep_generation dep) (ds_observedGeneration (dep_status dep))); cbn [andb]; cycle 1.
    { split; [by intros ?%Hprog|lia]. }
    destruct (deploymentHasFailed _); [split; [done|naive_solver]|]. split.
    + destruct (_ && _) eqn:E; [intros _|by intros ?%Hprog]. rewrite !andb_true_iff, !Z.eqb_eq, negb_true_iff in E.
      destruct E as [[[[[? ?] ?] ?] ?] Ht]. split_and!; try done. intros t Hs. rewrite Hs in Ht. by apply Z.ltb_ge.
    + intros (_ & _ & -> & -> & -> & -> & -> & Ht). rewrite !Z.eqb_refl. cbn [andb].
      destruct (ds_terminatingReplicas _) as [t|]; [|done]. specialize (Ht t eq_refl).
      by rewrite (proj2 (Z.ltb_ge 0 t)).
  - intros sts. unfold DeriveStatefulSetPhase. set (n := desiredReplicas _). cbv zeta.
    destruct (_ && _) eqn:E; [intros _|by intros ?%Hprog]. rewrite !andb_true_iff, !Z.eqb_eq, Z.leb_le in E.
    destruct E as [[[[? ?] ?] ?] Hrev]. split_and!; try done. unfold statefulSetRevisionConverged in Hrev.
    destruct (Z.eqb_spec n 0) as [->|]; [left; split_tests; done|].
    destruct (_ || _); [|left; by split_tests].
    destruct (Z.ltb_spec 0 (Z.min (default 0 (sts_partition sts)) n)); [|left; by split_tests].
    right. apply Z.leb_le in Hrev. lia.
  - intros dm. unfold DeriveDaemonSetPhase. set (n := dm_desiredNumberScheduled _). cbv zeta. split.
    + destruct (_ && _) eqn:E; [intros _|by intros ?%Hprog]. rewrite !andb_true_iff, !Z.eqb_eq, Z.leb_le in E.
      naive_solver.
    + intros (Hg & -> & -> & -> & -> & -> & ->). rewrite !Z.eqb_refl, (proj2 (Z.leb_le _ _) Hg). done.
Qed.
