(* ===== verification/Ownership.v ===== *)
(** * Which resources belong to a Middleware

    The ownership resolution of [internal/service/synchronizer/sync_v2.go] and
    the include lists that [recomputeAndUpdateStatus] builds from it. *)
From Stdlib Require Import ZArith Lia Ascii String.
From stdpp Require Import base gmap strings list option sorting.
From S2P Require Import Prelude Labels Middleware.

(** ** Owner references *)

(** [metav1.OwnerReference], as far as it is used; also [ownerCandidate]. *)
(** [ownerCandidate], internal/service/synchronizer/sync_v2.go *)
Record owner := Owner { o_apiVersion : string; o_kind : string; o_name : string; o_uid : string }.
#[export] Instance owner_eq_dec : EqDecision owner.
Proof. solve_decision. Defined.

(** [hasOwnerUID], internal/service/synchronizer/sync_v2.go *)
Definition hasOwnerUID (ownerReferences : list owner) (ownerUID : string) : bool :=
  if String.eqb ownerUID "" then false
  else existsb (λ r, String.eqb (o_uid r) ownerUID) ownerReferences.

(** The pair (matched, conflicted). *)
(** [ownerReferencesMatch], internal/service/synchronizer/sync_v2.go *)
Definition ownerReferencesMatch (ownerReferences : list owner) (candidates : list owner) : bool * bool :=
  if existsb (λ c, hasOwnerUID ownerReferences (o_uid c)) candidates then (true, false)
  else if existsb (λ r, existsb (λ c,
      if String.eqb (o_uid c) "" || String.eqb (o_uid r) "" || String.eqb (o_uid r) (o_uid c) then false
      else String.eqb (o_apiVersion r) (o_apiVersion c) && String.eqb (o_kind r) (o_kind c) &&
           String.eqb (o_name r) (o_name c)) candidates) ownerReferences
  then (false, true)
  else (false, false).

(** ** Objects of the namespace cache *)

Record object_meta := ObjectMeta {
  om_name : string;
  om_uid : string;
  om_labels : gmap string string;
  om_owners : list owner;
}.
#[export] Instance object_meta_eq_dec : EqDecision object_meta.
Proof. solve_decision. Defined.

(** The classes of objects whose metadata is all that is used are plain
    [object_meta]; pods also have the claims of their volumes (the nonempty
    names), and StatefulSets their claim templates and label sets. *)
Record pod := Pod { pod_meta : object_meta; pod_claims : list string }.
Record statefulset := StatefulSet {
  sts_meta : object_meta;
  sts_claimTemplates : list string;
  sts_selector : option (gmap string string);
  sts_templateLabels : gmap string string;
}.

(** [GeneralLabelKeys], internal/service/synchronizer/synchronizer.go *)
Definition GeneralLabelKeys : list string :=
  ["cluster-name"; "app"; "middleware.cn/app"; "esname"; "middleware_expose_middlewarename";
   "app.kubernetes.io/instance"].

Definition labelled (name : string) (o : object_meta) : bool :=
  existsb (λ key, String.eqb ((om_labels o).[key]) name) GeneralLabelKeys.

(** The test that each listing of the code makes on an object: matched by
    owner UID, else rejected on a conflict, else by label. *)
(** [collectOwnedPods], internal/service/synchronizer/sync_v2.go:97-110 *)
Definition owned (candidates : list owner) (name : string) (o : object_meta) : bool :=
  match ownerReferencesMatch (om_owners o) candidates with
  | (true, _) => true
  | (false, true) => false
  | (false, false) => labelled name o
  end.

(** A Go loop that adds the selected objects to a map by name. *)
Definition collect {T} (meta : T → object_meta) (sel : T → bool) (init : gmap string T) (l : list T) : gmap string T :=
  foldl (λ m x, if sel x then <[om_name (meta x) := x]> m else m) init l.

(** [collectOwnedReplicaSets], internal/service/synchronizer/sync_v2.go *)
Definition collectOwnedReplicaSets (l : list object_meta) (candidates : list owner) : gmap string object_meta :=
  collect id (λ rs, (ownerReferencesMatch (om_owners rs) candidates).1) ∅ l.

(** [collectOwnedPods], internal/service/synchronizer/sync_v2.go *)
Definition collectOwnedPods (l : list pod) (candidates : list owner) (middlewareName : string) : gmap string pod :=
  collect pod_meta (λ p, owned candidates middlewareName (pod_meta p)) ∅ l.

(** ** Claims of a StatefulSet *)

Definition is_digit (a : Ascii.ascii) : bool :=
  let n := Ascii.nat_of_ascii a in (48 <=? n) && (n <=? 57).
Definition digit (a : Ascii.ascii) : Z := Z.of_nat (Ascii.nat_of_ascii a) - 48.
Fixpoint digits (s : string) (acc : Z) : option Z :=
  match s with
  | EmptyString => Some acc
  | String a s => if is_digit a then digits s (acc * 10 + digit a)%Z else None
  end.

(** [strconv.Atoi]: an optional sign and decimal digits, within [int64]. *)
Definition Atoi (s : string) : option Z :=
  let '(neg, ds) := match s with
    | String "+"%char s => (false, s) | String "-"%char s => (true, s) | _ => (false, s) end in
  if String.eqb ds "" then None
  else n ← digits ds 0;
       let n := if (neg : bool) then (- n)%Z else n in
       if (- 2 ^ 63 <=? n)%Z && (n <? 2 ^ 63)%Z then Some n else None.

(** [isStatefulSetPodOrdinal], internal/service/synchronizer/sync_v2.go *)
Definition isStatefulSetPodOrdinal (value : string) : bool :=
  if String.eqb value "" then false
  else match Atoi value with Some ordinal => (0 <=? ordinal)%Z | None => false end.

(** [strings.TrimPrefix]. *)
Definition TrimPrefix (s prefix : string) : string :=
  if String.prefix prefix s then String.substring (String.length prefix) (String.length s - String.length prefix) s else s.

(** [pvcNameMatchesStatefulSetClaimTemplate], internal/service/synchronizer/sync_v2.go *)
Definition pvcNameMatchesStatefulSetClaimTemplate (pvcName : string) (sts : statefulset) : bool :=
  if String.eqb pvcName "" || String.eqb (om_name (sts_meta sts)) "" then false
  else existsb (λ template,
    if String.eqb template "" then false
    else let prefix := template +:+ "-" +:+ om_name (sts_meta sts) +:+ "-" in
         let ordinal := TrimPrefix pvcName prefix in
         negb (String.eqb ordinal pvcName) && isStatefulSetPodOrdinal ordinal) (sts_claimTemplates sts).

(** [statefulSetPVCLabelSets], internal/service/synchronizer/sync_v2.go *)
Definition statefulSetPVCLabelSets (sts : statefulset) : list (gmap string string) :=
  (match sts_selector sts with Some l => if decide (l = ∅) then [] else [l] | None => [] end) ++
  (if decide (sts_templateLabels sts = ∅) then [] else [sts_templateLabels sts]).

(** [labelsContainAll], internal/service/synchronizer/sync_v2.go *)
Definition labelsContainAll (labels expected : gmap string string) : bool :=
  if decide (labels = ∅ ∨ expected = ∅) then false
  else bool_decide (map_Forall (λ key value, value ≠ "" ∧ labels.[key] = value) expected).

(** [pvcBelongsToStatefulSet], internal/service/synchronizer/sync_v2.go *)
Definition pvcBelongsToStatefulSet (pvc : object_meta) (sts : statefulset) : bool :=
  if negb (pvcNameMatchesStatefulSetClaimTemplate (om_name pvc) sts) then false
  else if decide (om_labels pvc = ∅) then false
  else existsb (labelsContainAll (om_labels pvc)) (statefulSetPVCLabelSets sts).

(** ** The include lists *)

Record namespace_cache := NamespaceCache {
  nc_statefulsets : list statefulset;
  nc_deployments : list object_meta;
  nc_daemonsets : list object_meta;
  nc_replicasets : list object_meta;
  nc_pods : list pod;
  nc_services : list object_meta;
  nc_pvcs : list object_meta;
}.

Definition candidate (kind : string) (o : object_meta) : owner := Owner "apps/v1" kind (om_name o) (om_uid o).

(** The primary resource and the Middleware itself. *)
(** [recomputeAndUpdateStatus], internal/service/synchronizer/sync_v2.go:410-423 *)
Definition baseOwnerCandidates (cr : owner) (m : middleware) : list owner :=
  [cr; Owner "middleware.cn/v1" "Middleware" (m_name m) (m_uid m)].

(** The maps of the resources found; a native primary resource was put into
    its map before. *)
Record found := Found {
  f_statefulsets : gmap string statefulset;
  f_deployments : gmap string object_meta;
  f_daemonsets : gmap string object_meta;
  f_replicaSets : gmap string object_meta;
  f_pods : gmap string pod;
  f_services : gmap string object_meta;
  f_pvcs : gmap string object_meta;
}.

(** The owners of pods: the base candidates, the ReplicaSets, the StatefulSets
    and the DaemonSets found. *)
(** [recomputeAndUpdateStatus], internal/service/synchronizer/sync_v2.go:593-618 *)
Definition podOwnerCandidates (base : list owner) (replicaSets : gmap string object_meta)
    (statefulsets : gmap string statefulset) (daemonsets : gmap string object_meta) : list owner :=
  base ++ (candidate "ReplicaSet" <$> (map_to_list replicaSets).*2)
       ++ ((λ s, candidate "StatefulSet" (sts_meta s)) <$> (map_to_list statefulsets).*2)
       ++ (candidate "DaemonSet" <$> (map_to_list daemonsets).*2).

(** The claims mounted by the pods found. *)
(** [recomputeAndUpdateStatus], internal/service/synchronizer/sync_v2.go:623-635 *)
Definition pod_claim_names (pods : gmap string pod) : list string :=
  concat (pod_claims <$> (map_to_list pods).*2).

(** The test on a claim. *)
(** [recomputeAndUpdateStatus], internal/service/synchronizer/sync_v2.go:668-694 *)
Definition pvc_owned (base : list owner) (name : string) (statefulsets : gmap string statefulset)
    (claims : list string) (pvc : object_meta) : bool :=
  match ownerReferencesMatch (om_owners pvc) base with
  | (true, _) => true
  | (false, true) => false
  | (false, false) =>
      labelled name pvc ||
      existsb (pvcBelongsToStatefulSet pvc) ((map_to_list statefulsets).*2) ||
      bool_decide (om_name pvc ∈ claims)
  end.

(** [recomputeAndUpdateStatus], internal/service/synchronizer/sync_v2.go:504-695 *)
Definition find_resources (base : list owner) (name : string) (primary : found) (cache : namespace_cache) : found :=
  let statefulsets := collect sts_meta (λ s, owned base name (sts_meta s)) (f_statefulsets primary) (nc_statefulsets cache) in
  let deployments := collect id (owned base name) (f_deployments primary) (nc_deployments cache) in
  let daemonsets := collect id (owned base name) (f_daemonsets primary) (nc_daemonsets cache) in
  let replicaSets := collectOwnedReplicaSets (nc_replicasets cache)
                       (candidate "Deployment" <$> (map_to_list deployments).*2) in
  let pods := collectOwnedPods (nc_pods cache) (podOwnerCandidates base replicaSets statefulsets daemonsets) name in
  let services := collect id (owned base name) ∅ (nc_services cache) in
  let pvcs := collect id (pvc_owned base name statefulsets (pod_claim_names pods)) ∅ (nc_pvcs cache) in
  Found statefulsets deployments daemonsets replicaSets pods services pvcs.

(** [sort.Slice] by name. *)
(** [recomputeAndUpdateStatus], internal/service/synchronizer/sync_v2.go:842-860 *)
Definition sort_by_name (l : list include_model) : list include_model := sort_by im_name l.

Definition named (name : string) : include_model := IncludeModel name "" "" "".

Definition LabelSource : string := "middleware.cn/source".
Definition LabelSourceName : string := "middleware.cn/sourcename".

(** [recomputeAndUpdateStatus], internal/service/synchronizer/sync_v2.go:655-664 *)
Definition service_model (name : string) (svc : object_meta) : include_model :=
  IncludeModel name "" ((om_labels svc).[LabelSource]) ((om_labels svc).[LabelSourceName]).

Definition include_of (f : found) : include :=
  Include (sort_by_name (named <$> (map_to_list (f_pods f)).*1))
          (sort_by_name (named <$> (map_to_list (f_pvcs f)).*1))
          (sort_by_name ((λ '(k, s), service_model k s) <$> map_to_list (f_services f)))
          (sort_by_name (named <$> (map_to_list (f_statefulsets f)).*1))
          (sort_by_name (named <$> (map_to_list (f_deployments f)).*1))
          (sort_by_name (named <$> (map_to_list (f_daemonsets f)).*1)).

(** ** Lemmas *)

(** An owner reference carries the UID of a candidate. *)
Definition claimed (owners candidates : list owner) : Prop :=
  ∃ r c, r ∈ owners ∧ c ∈ candidates ∧ o_uid r = o_uid c ∧ o_uid c ≠ "".

(** An owner reference names a candidate but has another UID: it belongs to an
    earlier object of that name. *)
Definition stale (owners candidates : list owner) : Prop :=
  ∃ r c, r ∈ owners ∧ c ∈ candidates ∧ o_uid r ≠ o_uid c ∧ o_uid r ≠ "" ∧ o_uid c ≠ "" ∧
    o_apiVersion r = o_apiVersion c ∧ o_kind r = o_kind c ∧ o_name r = o_name c.

Lemma existsb_spec {A} (f : A → bool) l : existsb f l = true ↔ ∃ x, x ∈ l ∧ f x = true.
Proof. rewrite existsb_exists. by setoid_rewrite list_elem_of_In. Qed.

Lemma has_owner_spec owners uid : hasOwnerUID owners uid = true ↔ uid ≠ "" ∧ ∃ r, r ∈ owners ∧ o_uid r = uid.
Proof.
  unfold hasOwnerUID. destruct (String.eqb_spec uid ""); [naive_solver|].
  rewrite existsb_spec. setoid_rewrite String.eqb_eq. naive_solver.
Qed.

Lemma match_claimed owners candidates :
  existsb (λ c, hasOwnerUID owners (o_uid c)) candidates = true ↔ claimed owners candidates.
Proof. rewrite existsb_spec. setoid_rewrite has_owner_spec. unfold claimed. naive_solver. Qed.

Lemma match_stale owners candidates :
  existsb (λ r, existsb (λ c,
      if String.eqb (o_uid c) "" || String.eqb (o_uid r) "" || String.eqb (o_uid r) (o_uid c) then false
      else String.eqb (o_apiVersion r) (o_apiVersion c) && String.eqb (o_kind r) (o_kind c) &&
           String.eqb (o_name r) (o_name c)) candidates) owners = true ↔ stale owners candidates.
Proof.
  rewrite existsb_spec. setoid_rewrite existsb_spec. unfold stale. split.
  - intros (r & Hr & c & Hc & Hif). exists r, c. destruct (String.eqb_spec (o_uid c) ""); [done|].
    destruct (String.eqb_spec (o_uid r) ""); [done|]. destruct (String.eqb_spec (o_uid r) (o_uid c)); [done|].
    simpl in Hif. rewrite !andb_true_iff, !String.eqb_eq in Hif. naive_solver.
  - intros (r & c & Hr & Hc & H1 & H2 & H3 & H4 & H5 & H6). exists r. split; [done|]. exists c. split; [done|].
    rewrite (proj2 (String.eqb_neq _ _) H3), (proj2 (String.eqb_neq _ _) H2), (proj2 (String.eqb_neq _ _) H1).
    simpl. by rewrite H4, H5, H6, !String.eqb_refl.
Qed.

Lemma owned_spec candidates name o :
  owned candidates name o = true ↔
  claimed (om_owners o) candidates ∨
  ¬ claimed (om_owners o) candidates ∧ ¬ stale (om_owners o) candidates ∧ labelled name o = true.
Proof.
  unfold owned, ownerReferencesMatch.
  pose proof (match_claimed (om_owners o) candidates) as Hc. destruct (existsb _ candidates); [naive_solver|].
  pose proof (match_stale (om_owners o) candidates) as Hs. destruct (existsb _ (om_owners o)); naive_solver.
Qed.

Lemma collect_spec {T} (meta : T → object_meta) sel init l k x :
  NoDup ((λ y, om_name (meta y)) <$> l) →
  (collect meta sel init l !! k = Some x ↔
     x ∈ l ∧ om_name (meta x) = k ∧ sel x = true ∨
     init !! k = Some x ∧ ∀ y, y ∈ l → om_name (meta y) = k → sel y = false).
Proof.
  unfold collect. revert init. induction l as [|y l IH]; intros init Hnd; simpl.
  { split; [intros ?; right; split; [done|]; intros y Hy; set_solver|].
    intros [(Hx & _)|[? _]]; [set_solver|done]. }
  apply NoDup_cons in Hnd as [Hy Hnd]. rewrite IH by done. clear IH.
  assert (Hyl : ∀ z, z ∈ l → om_name (meta z) ≠ om_name (meta y)).
  { intros z Hz Heq. apply Hy. rewrite <- Heq. apply list_elem_of_fmap. by exists z. }
  assert (Hlift : (x ∈ l ∧ om_name (meta x) = k ∧ sel x = true ∨
                   init !! k = Some x ∧ ∀ y, y ∈ l → om_name (meta y) = k → sel y = false) →
                  (om_name (meta y) = k → sel y = false) →
                  x ∈ y :: l ∧ om_name (meta x) = k ∧ sel x = true ∨
                  init !! k = Some x ∧ ∀ z, z ∈ y :: l → om_name (meta z) = k → sel z = false).
  { intros [(Hx & ? & ?)|[? Hall]] Hk; [left; by split; [apply elem_of_cons; right|]|right]. split; [done|].
    intros z [->|Hz]%elem_of_cons ?; [by apply Hk|by apply Hall]. }
  assert (Hdrop : x ∈ y :: l ∧ om_name (meta x) = k ∧ sel x = true ∨
                  init !! k = Some x ∧ (∀ z, z ∈ y :: l → om_name (meta z) = k → sel z = false) →
                  (om_name (meta y) = k → sel y = false) →
                  x ∈ l ∧ om_name (meta x) = k ∧ sel x = true ∨
                  init !! k = Some x ∧ ∀ y, y ∈ l → om_name (meta y) = k → sel y = false).
  { intros [(Hx & Hn & Hs)|[? Hall]] Hk; [|right; split; [done|intros; apply Hall; [apply elem_of_cons; by right|done]]].
    apply elem_of_cons in Hx as [->|Hx]; [rewrite Hk in Hs by done; done|by left]. }
  destruct (sel y) eqn:Esel; [|split; auto].
  destruct (decide (om_name (meta y) = k)) as [<-|Hne]; cycle 1.
  { rewrite lookup_insert_ne by done. split; intros; [apply Hlift|apply Hdrop]; done. }
  clear Hlift Hdrop. rewrite lookup_insert_eq. split.
  - intros [(Hx & Hn & _)|[[= <-] _]]; [by destruct (Hyl x)|left]. split; [apply elem_of_cons; by left|done].
  - intros [(Hx & Hn & Hs)|[_ Hall]].
    + apply elem_of_cons in Hx as [->|Hx]; [right|by destruct (Hyl x)].
      split; [done|]. intros z Hz Hzn. by destruct (Hyl z).
    + rewrite (Hall y) in Esel; [done|apply elem_of_cons; by left|done].
Qed.

(** ** Properties *)

(** The pods of a Middleware are exactly those of the cache that carry the
    UID of the primary resource, of the Middleware, or of a ReplicaSet,
    StatefulSet or DaemonSet found to be its own, and those with a matching
    label whose owner references claim no such object; a pod left over from an
    earlier owner of the same kind and name is never taken, whatever its
    labels. *)
Theorem pods_found_exactly base name primary cache k p :
  NoDup ((λ p, om_name (pod_meta p)) <$> nc_pods cache) →
  let f := find_resources base name primary cache in
  let candidates := podOwnerCandidates base (f_replicaSets f) (f_statefulsets f) (f_daemonsets f) in
  f_pods f !! k = Some p ↔
  p ∈ nc_pods cache ∧ om_name (pod_meta p) = k ∧
  (claimed (om_owners (pod_meta p)) candidates ∨
   ¬ claimed (om_owners (pod_meta p)) candidates ∧ ¬ stale (om_owners (pod_meta p)) candidates ∧
   labelled name (pod_meta p) = true).
Proof.
  intros Hnd f candidates. unfold f, find_resources. simpl. unfold collectOwnedPods.
  rewrite collect_spec by done. rewrite lookup_empty, owned_spec. fold candidates. naive_solver.
Qed.

(** The include lists do not depend on the order in which Go iterates over
    its maps: from the same resources, visited in any order, the sorted list
    is the same, so an unchanged status is recognised as unchanged. *)
Theorem include_deterministic {T} (model : string → T → include_model) (m : gmap string T) (visited : list (string * T)) :
  (∀ k x, im_name (model k x) = k) → visited ≡ₚ map_to_list m →
  sort_by_name ((λ '(k, x), model k x) <$> visited) = sort_by_name ((λ '(k, x), model k x) <$> map_to_list m).
Proof.
  intros Hname Hperm. apply sort_by_unique; [|by rewrite Hperm]. rewrite Hperm, <- list_fmap_compose.
  rewrite (list_fmap_ext _ fst); [apply NoDup_fst_map_to_list|]. intros _ [k x] _. apply Hname.
Qed.

(** *** At a concrete namespace: [p2] is left over from an earlier resource *)

Definition redis_owner (uid : string) : owner := Owner "redis.io/v1" "Redis" "cache" uid.
Definition demo_pod (name : string) (labels : gmap string string) (owners : list owner) : pod :=
  Pod (ObjectMeta name "" labels owners) [].
Definition p1 : pod := demo_pod "p1" ∅ [redis_owner "u1"].
Definition p2 : pod := demo_pod "p2" {["app" := "cache"]} [redis_owner "u0"].
Definition demo_cache : namespace_cache := NamespaceCache [] [] [] [] [p1; p2] [] [].
Definition nothing : found := Found ∅ ∅ ∅ ∅ ∅ ∅ ∅.

Lemma pods_found_exactly_witness :
  let f := find_resources [redis_owner "u1"] "cache" nothing demo_cache in
  f_pods f !! "p1" = Some p1 ∧ f_pods f !! "p2" ≠ Some p2.
Proof.
  assert (Hnd : NoDup ((λ p, om_name (pod_meta p)) <$> nc_pods demo_cache)).
  { apply NoDup_cons. split; [|apply NoDup_singleton]. intros Hin%list_elem_of_singleton. discriminate Hin. }
  split.
  - apply (pods_found_exactly [redis_owner "u1"] "cache" nothing demo_cache "p1" p1 Hnd).
    split; [left|]. split; [reflexivity|]. left. exists (redis_owner "u1"), (redis_owner "u1").
    split; [left|]. split; [left|]. split; [reflexivity|discriminate].
  - intros Hp. apply (pods_found_exactly [redis_owner "u1"] "cache" nothing demo_cache "p2" p2 Hnd) in Hp.
    destruct Hp as (_ & _ & [(r & c & Hr & Hc & Heq & _)|(_ & Hs & _)]).
    + apply list_elem_of_singleton in Hr as ->. vm_compute in Hc.
      apply list_elem_of_singleton in Hc as ->. vm_compute in Heq. discriminate Heq.
    + apply Hs. exists (redis_owner "u0"), (redis_owner "u1"). split; [left|]. split; [left|].
      repeat split; discriminate.
Defined.

Lemma include_deterministic_witness :
  sort_by_name ((λ '(k, _), named k) <$> [("b", tt); ("a", tt)]) = [named "a"; named "b"].
Proof.
  rewrite (include_deterministic (λ k _, named k) {["a" := tt; "b" := tt]} [("b", tt); ("a", tt)]);
    [vm_compute; reflexivity|intros; reflexivity|].
  apply NoDup_Permutation; [|apply NoDup_map_to_list|].
  - apply NoDup_cons. split; [|apply NoDup_singleton]. intros Hin%list_elem_of_singleton. discriminate Hin.
  - intros [k u]. rewrite elem_of_map_to_list. destruct u.
    rewrite lookup_insert_Some, lookup_singleton_Some, elem_of_cons, list_elem_of_singleton.
    split; [intros [[= ->]|[= ->]]; [right; split; [discriminate|done]|left; done]|].
    intros [[<- _]|[_ [<- _]]]; [right; reflexivity|left; reflexivity].
Defined.
