(* ===== verification/Recompute.v ===== *)
(** * Recomputing the status of a Middleware

    [recomputeAndUpdateStatus] of [internal/service/synchronizer/sync_v2.go]
    and the projections it uses: from the primary resource's status, the
    declared rules, the native workload or the EMQX conditions to the
    [CustomResources] written to the Middleware. *)
From Stdlib Require Import ZArith Lia Ascii String.
From stdpp Require Import base gmap strings list option sorting.
From S2P Require Import Prelude Labels Prog Middleware Json StatusRule WorkloadPhase Ownership.

(** ** The libraries: [gjson] on a JSON value *)
Class GJson := {
  gj_get : json → string → option json;      (** [None]: does not exist *)
  gj_string : option json → string;
  gj_int : option json → Z;                  (** an [int64] *)
  gj_array : option json → list json;
}.

Definition set_phase (p : string) (cr : custom_resources) : custom_resources :=
  CustomResources (cr_creationTimestamp cr) p (cr_limits cr) (cr_requests cr) (cr_replicas cr) (cr_reason cr)
    (cr_type cr) (cr_include cr) (cr_disaster cr).
Definition set_reason (r : string) (cr : custom_resources) : custom_resources :=
  CustomResources (cr_creationTimestamp cr) (cr_phase cr) (cr_limits cr) (cr_requests cr) (cr_replicas cr) r
    (cr_type cr) (cr_include cr) (cr_disaster cr).
Definition set_replicas (n : Z) (cr : custom_resources) : custom_resources :=
  CustomResources (cr_creationTimestamp cr) (cr_phase cr) (cr_limits cr) (cr_requests cr) n (cr_reason cr)
    (cr_type cr) (cr_include cr) (cr_disaster cr).
Definition finish (created : Z) (inc : include) (d : disaster) (cr : custom_resources) : custom_resources :=
  CustomResources created (cr_phase cr) (cr_limits cr) (cr_requests cr) (cr_replicas cr) (cr_reason cr)
    (cr_type cr) inc (Some d).

(** How a Go function that returns nothing may end before its last line. *)
Inductive outcome (A : Type) := Panic | Return | Go (a : A).
Arguments Panic {A}.
Arguments Return {A}.
Arguments Go {A} a.

Section Projections.
Context `{CelEngine, GJson}.

(** ** Generic status *)

(** [phaseFromGenericStatus], internal/service/synchronizer/sync_v2.go *)
Definition phaseFromGenericStatus (status : json) (fallback : string) : string :=
  foldl (λ phase key, let value := TrimSpace (gj_string (gj_get status key)) in
                      if String.eqb value "" then phase else value) fallback ["phase"; "state"].

(** The replicas and the reason read from the status. *)
(** [recomputeAndUpdateStatus], internal/service/synchronizer/sync_v2.go:385-399 *)
Definition generic_fields (status : json) (target : custom_resources) : custom_resources :=
  let target := foldl (λ t key, match gj_get status key with
    | Some v => set_replicas (gj_int (Some v)) t | None => t end) target ["replicas"; "size"] in
  match gj_get status "reason" with Some v => set_reason (gj_string (Some v)) target | None => target end.

(** ** EMQX *)

(** [emqxV2beta1GVK], internal/service/synchronizer/sync_v2.go:198-202 *)
Definition emqxV2beta1GVK : gvk := GVK "apps.emqx.io" "v2beta1" "EMQX".

(** One turn of the loop over the conditions. *)
(** [latestTrueEMQXCondition], internal/service/synchronizer/sync_v2.go:221-236 *)
Definition emqx_step (latest : option (json * option Z)) (condition : json) : option (json * option Z) :=
  if decide (gj_string (gj_get condition "status") ≠ ConditionTrue) then latest
  else
    let conditionTime := parse_time (gj_string (gj_get condition "lastTransitionTime")) in
    match latest with
    | None => Some (condition, conditionTime)
    | Some (_, latestTime) =>
        match latestTime, conditionTime with
        | None, Some _ => Some (condition, conditionTime)
        | Some t, Some t' => if (t <? t')%Z then Some (condition, conditionTime) else latest
        | _, None => latest
        end
    end.

(** [latestTrueEMQXCondition], internal/service/synchronizer/sync_v2.go *)
Definition latestTrueEMQXCondition (status : json) : option json :=
  fst <$> foldl emqx_step None (gj_array (gj_get status "conditions")).

(** [emqxProgressingPhase], internal/service/synchronizer/sync_v2.go *)
Definition emqxProgressingPhase (previous : string) : string :=
  if bool_decide (previous ∈ [PhaseUnknown; PhaseCreating; PhaseChecking; PhaseChecked])
  then PhaseCreating else PhaseUpdating.

(** [projectEMQXV2beta1Status], internal/service/synchronizer/sync_v2.go *)
Definition projectEMQXV2beta1Status (status : json) (previous : string) (target : custom_resources) : custom_resources :=
  let keys := ["coreNodesStatus.replicas"; "replicantNodesStatus.replicas"] in
  let '(totalReplicas, hasReplicaStatus) := foldl (λ '(total, has) key,
    match gj_get status key with
    | Some v => (wrap64 (total + gj_int (Some v)), true)
    | None => (total, has)
    end) (0%Z, false) keys in
  let target := if (hasReplicaStatus : bool) then set_replicas totalReplicas target else target in
  match latestTrueEMQXCondition status with
  | None => set_phase previous target
  | Some condition =>
      let message := TrimSpace (gj_string (gj_get condition "message")) in
      let target := if String.eqb message ""
                    then set_reason (TrimSpace (gj_string (gj_get condition "reason"))) target
                    else set_reason message target in
      let type := gj_string (gj_get condition "type") in
      if String.eqb type "Ready" then set_phase PhaseRunning target
      else if bool_decide (type ∈ ["Initialized"; "CoreNodesProgressing"; "CoreNodesReady";
             "ReplicantNodesProgressing"; "ReplicantNodesReady"; "Available"])
      then set_phase (emqxProgressingPhase previous) target
      else set_phase previous target
  end.

(** ** Who owns the status *)

(** [operatorOwnsCustomResourceStatus], internal/service/synchronizer/sync_v2.go *)
Definition operatorOwnsCustomResourceStatus (mid : middleware) : bool :=
  negb (String.eqb (TrimSpace (ob_name (sp_operatorBaseline (m_spec mid)))) "") ||
  negb (String.eqb (TrimSpace (ob_gvkName (sp_operatorBaseline (m_spec mid)))) "").

(** [diagnose] is [deriveMiddlewareReadinessDiagnostic] on the pods and claims
    found; it is given the status computed so far, whose phase it reads. *)
(** [applyLocalReadinessDiagnostic], internal/service/synchronizer/sync_v2.go *)
Definition applyLocalReadinessDiagnostic (mid : middleware) (diagnose : custom_resources → found → string)
    (f : found) (target : custom_resources) : custom_resources :=
  if operatorOwnsCustomResourceStatus mid then target
  else let diagnostic := diagnose target f in
       if String.eqb diagnostic "" then target else set_reason diagnostic (set_phase PhaseFailed target).

(** ** The native workload behind a primary resource

    What the client answers for it: the phase inputs and the metadata. *)
Inductive native :=
  | NativeDeployment (r : result error (deployment * object_meta))
  | NativeStatefulSet (r : result error (WorkloadPhase.statefulset * Ownership.statefulset))
  | NativeDaemonSet (r : result error (daemonset * object_meta))
  | NotNative.

Definition no_resources : found := Found ∅ ∅ ∅ ∅ ∅ ∅ ∅.

(** [None]: the client failed and the function returns. *)
(** [recomputeAndUpdateStatus], internal/service/synchronizer/sync_v2.go:456-484 *)
Definition project_native (n : native) (status : json) (previous : string) (target : custom_resources) :
    option (custom_resources * found) :=
  match n with
  | NativeDeployment (Ok (dep, meta)) =>
      Some (set_phase (DeriveDeploymentPhase (Some dep) previous) target,
            Found ∅ {[om_name meta := meta]} ∅ ∅ ∅ ∅ ∅)
  | NativeStatefulSet (Ok (sts, s)) =>
      Some (set_phase (DeriveStatefulSetPhase (Some sts) previous) target,
            Found {[om_name (sts_meta s) := s]} ∅ ∅ ∅ ∅ ∅ ∅)
  | NativeDaemonSet (Ok (ds, meta)) =>
      Some (set_replicas (dm_desiredNumberScheduled (dm_status ds)) (set_phase (DeriveDaemonSetPhase (Some ds) previous) target),
            Found ∅ ∅ {[om_name meta := meta]} ∅ ∅ ∅ ∅)
  | NotNative => Some (set_phase (phaseFromGenericStatus status previous) target, no_resources)
  | _ => None
  end.

(** The lifecycle part of the status. *)
(** [recomputeAndUpdateStatus], internal/service/synchronizer/sync_v2.go:425-485 *)
Definition project_status (baseline : string → result error (list declared_gvk)) (mid : middleware) (crGVK : gvk)
    (object status previousJson : json) (n : native) (previous : string) (target : custom_resources)
    (programs : program_cache) : option (custom_resources * found) :=
  let operatorOwnsStatus := operatorOwnsCustomResourceStatus mid in
  let '(target, rulesDeclared) :=
    if operatorOwnsStatus then
      let target := set_phase (phaseFromGenericStatus status previous) target in
      let '(target, declared, _, _) :=
        applyDeclaredStatusRules baseline (Some mid) (Some (crGVK, object)) previousJson target programs in
      (target, declared)
    else (target, false) in
  if (rulesDeclared : bool) then Some (target, no_resources)
  else if decide (crGVK = emqxV2beta1GVK) then Some (projectEMQXV2beta1Status status previous target, no_resources)
  else if operatorOwnsStatus then Some (target, no_resources)
  else project_native n status previous target.

(** ** Disaster recovery *)

Fixpoint split_at (sep : ascii) (s : string) : list string :=
  match s with
  | EmptyString => [""]
  | String a s =>
      let rest := split_at sep s in
      if Ascii.eqb a sep then "" :: rest
      else match rest with x :: rest => String a x :: rest | [] => [String a ""] end
  end.

Definition str_field (j : json) (keys : list string) (old : string) : string :=
  foldl (λ v key, match gj_get j key with Some x => gj_string (Some x) | None => v end) old keys.

(** [recomputeAndUpdateStatus], internal/service/synchronizer/sync_v2.go:728-749 *)
Definition gossip_of (j : json) : gossip :=
  Gossip (str_field j ["spec.config.advertiseAddr"] "")
         (match gj_get j "spec.config.advertisePort" with Some v => gj_int (Some v) | None => 0%Z end)
         (str_field j ["status.Phase"] "")
         (str_field j ["status.localClusterStatus.clusterRole"] "")
         (str_field j ["status.localClusterStatus.clusterPhase"] "")
         (str_field j ["spec.DRCluster.role"] "")
         (str_field j ["status.GossipPhase"] "").

(** [recomputeAndUpdateStatus], internal/service/synchronizer/sync_v2.go:776-806 *)
Definition data_of (j : json) : disaster_data :=
  Data (str_field j ["status.phase"] "")
       (str_field j ["spec.config.target.address"; "spec.helmvalues.config.target.address"] "")
       (str_field j ["spec.config.source.address"; "spec.helmvalues.config.source.address"] "")
       ""
       (str_field j ["spec.config.source.clusterName"; "spec.helmvalues.config.source.clusterName"] "")
       (str_field j ["spec.config.source.clusterNamespace"; "spec.helmvalues.config.source.clusterNamespace"] "").

(** The object an annotation [group/version/kind/name] refers to: nothing when
    the annotation has another shape or the object is not found. *)
(** [recomputeAndUpdateStatus], internal/service/synchronizer/sync_v2.go:707-723 *)
Definition referred (lookup : gvk → string → result error json) (annotation : string) : outcome (option json) :=
  match split_at "/" annotation with
  | [group; version; kind; name] =>
      match lookup (GVK group version kind) name with
      | Ok j => Go (Some j)
      | Err e => if is_not_found e then Go None else Return
      end
  | _ => Go None
  end.

Definition AnnotationDisasterSyncer : string := "middleware.cn/disasterSyncer".
Definition AnnotationDataSyncer : string := "middleware.cn/dataSyncer".
Definition AnnotationOppositeClusterId : string := "middleware.cn/oppositeClusterId".

(** [Panic]: a field of the nil [Data] is assigned. *)
(** [recomputeAndUpdateStatus], internal/service/synchronizer/sync_v2.go:704-814 *)
Definition disaster_status (lookup : gvk → string → result error json) (annotations : gmap string string) :
    outcome disaster :=
  match annotations !! AnnotationDisasterSyncer with
  | None => Go (Disaster None None)
  | Some a =>
      match referred lookup a with
      | Panic => Panic | Return => Return
      | Go syncer =>
          let gossip := gossip_of <$> syncer in
          let data := match annotations !! AnnotationDataSyncer with
            | None => Go None
            | Some a => match referred lookup a with
                        | Panic => Panic | Return => Return | Go j => Go (data_of <$> j) end
            end in
          match data with
          | Panic => Panic | Return => Return
          | Go data =>
              match annotations !! AnnotationOppositeClusterId, data with
              | None, _ => Go (Disaster gossip data)
              | Some id, Some d => Go (Disaster gossip (Some (Data (da_phase d) (da_address d) (da_oppositeAddress d) id
                                         (da_oppositeClusterName d) (da_oppositeClusterNamespace d))))
              | Some _, None => Panic
              end
          end
      end
  end.

(** ** Roles of pods *)

(** [ConditionKeys], internal/service/synchronizer/synchronizer.go *)
Definition ConditionKeys : list string :=
  ["conditions"; "sentinelConditions"; "proxyConditions"; "Conditions"; "conditionsProxy"; "replsets.rs0.conditions"].

Definition set_type (t : string) (p : include_model) : include_model :=
  IncludeModel (im_name p) t (im_source p) (im_sourceName p).

(** One condition: the pod it names gets its type; a name that is not listed
    is added. *)
(** [recomputeAndUpdateStatus], internal/service/synchronizer/sync_v2.go:821-835 *)
Fixpoint enrich_condition (condition : json) (nameKeys : list string) (pods : list include_model) : list include_model :=
  match nameKeys with
  | [] => pods
  | nameKey :: nameKeys =>
      let name := gj_string (gj_get condition nameKey) in
      let type := gj_string (gj_get condition "type") in
      match list_find (λ p, name = im_name p) pods with
      | Some (idx, p) => <[idx := set_type type p]> pods
      | None =>
          let pods := if String.eqb name "" then pods else pods ++ [IncludeModel name type "" ""] in
          enrich_condition condition nameKeys pods
      end
  end.

(** [recomputeAndUpdateStatus], internal/service/synchronizer/sync_v2.go:816-838 *)
Definition enrich (status : json) (pods : list include_model) : list include_model :=
  foldl (λ pods key, match gj_get status key with
    | None => pods
    | Some v => foldl (λ pods c, enrich_condition c ["name"; "podName"] pods) pods (gj_array (Some v))
    end) pods ConditionKeys.

(** ** The whole function *)

Record primary := Primary {
  pr_gvk : gvk;
  pr_owner : owner;
  pr_created : Z;
  pr_object : json;
  pr_status : json;
}.

(** What the function is given and reads: the latest Middleware and primary
    resource, the decoded status, the client's native workload, the
    namespace cache (absent: not ready), and lookups. *)
Record environment := Environment {
  env_mid : result error middleware;
  env_cr : result error primary;
  env_decoded : json → option custom_resources;
  env_previousJson : custom_resources → json;
  env_baseline : string → result error (list declared_gvk);
  env_programs : gmap string (result string program);
  env_native : native;
  env_cache : option namespace_cache;
  env_diagnose : custom_resources → found → string;
  env_lookup : gvk → string → result error json;
}.

Definition sorted_include (status : json) (f : found) : include :=
  let inc := include_of f in
  Include (sort_by_name (enrich status (named <$> (map_to_list (f_pods f)).*1))) (in_pvcs inc) (in_services inc) (in_statefulsets inc)
    (in_deployments inc) (in_daemonsets inc).

(** [Go (Some cr)]: [CustomResources] is patched to [cr]; [Go None]: it is
    unchanged; [Return]: an early return without a write. *)
(** [recomputeAndUpdateStatus], internal/service/synchronizer/sync_v2.go *)
Definition recomputeAndUpdateStatus (env : environment) : outcome (option custom_resources) :=
  match env_mid env, env_cr env with
  | Err _, _ | _, Err _ => Return
  | Ok mid, Ok cr =>
      let old := ms_customResources (m_status mid) in
      let previousPhase := cr_phase old in
      match env_decoded env (pr_status cr) with
      | None => Return
      | Some target =>
          let target := generic_fields (pr_status cr) target in
          match project_status (env_baseline env) mid (pr_gvk cr) (pr_object cr) (pr_status cr)
                  (env_previousJson env old) (env_native env) previousPhase target (env_programs env) with
          | None => Return
          | Some (target, primaries) =>
              match env_cache env with
              | None => Return
              | Some cache =>
                  let f := find_resources (baseOwnerCandidates (pr_owner cr) mid) (m_name mid) primaries cache in
                  let target := applyLocalReadinessDiagnostic mid (env_diagnose env) f target in
                  match disaster_status (env_lookup env) (m_annotations mid) with
                  | Panic => Panic
                  | Return => Return
                  | Go d =>
                      let target := finish (pr_created cr) (sorted_include (pr_status cr) f) d target in
                      if decide (old = target) then Go None else Go (Some target)
                  end
              end
          end
      end
  end.
End Projections.

(** ** Properties *)

Section Properties.
Context `{CelEngine, GJson}.

(** The same reads, but for the namespace cache, the native workload and the
    readiness diagnosis. *)
Definition with_runtime (env : environment) (cache : namespace_cache) (n : native)
    (diagnose : custom_resources → found → string) : environment :=
  Environment (env_mid env) (env_cr env) (env_decoded env) (env_previousJson env) (env_baseline env)
    (env_programs env) n (Some cache) diagnose (env_lookup env).

Lemma project_status_operator baseline mid g object status pj n n' previous target programs :
  operatorOwnsCustomResourceStatus mid = true →
  project_status baseline mid g object status pj n previous target programs =
  project_status baseline mid g object status pj n' previous target programs ∧
  is_Some (project_status baseline mid g object status pj n previous target programs).
Proof.
  intros Hop. unfold project_status. rewrite Hop.
  destruct (applyDeclaredStatusRules _ _ _ _ _ _) as [[[t declared] e] p].
  destruct declared; [by eauto|]. case_decide; by eauto.
Qed.

(** C23: The status of an operator-managed Middleware is the operator's: phase,
    reason and replicas are determined by the primary resource, the declared
    rules and the previous status alone; pods, claims, native workloads and
    the local readiness diagnosis, whatever they are, never change them. *)
Theorem operator_status_authoritative env mid cache cache' n n' diagnose diagnose' c c' :
  env_mid env = Ok mid → operatorOwnsCustomResourceStatus mid = true →
  recomputeAndUpdateStatus (with_runtime env cache n diagnose) = Go (Some c) →
  recomputeAndUpdateStatus (with_runtime env cache' n' diagnose') = Go (Some c') →
  cr_phase c = cr_phase c' ∧ cr_reason c = cr_reason c' ∧ cr_replicas c = cr_replicas c'.
Proof.
  intros Hmid Hop. unfold recomputeAndUpdateStatus, applyLocalReadinessDiagnostic. simpl. rewrite Hmid, Hop.
  destruct (env_cr env) as [cr|]; [|done]. destruct (env_decoded env (pr_status cr)) as [t|]; [|done].
  match goal with |- context [project_status ?b ?m ?g ?o ?s ?j n ?p ?t ?pr] =>
    destruct (project_status_operator b m g o s j n n' p t pr Hop) as [<- [[t' f] ->]] end.
  destruct (disaster_status _ _) as [| |d]; try done.
  intros Hc Hc'. repeat case_decide; simplify_eq; done.
Qed.

(** When the recomputation panics: the opposite cluster id is written through
    the data of a data syncer that is not there. *)
Lemma disaster_status_panics lookup annotations :
  disaster_status lookup annotations = Panic ↔
  ∃ a syncer, annotations !! AnnotationDisasterSyncer = Some a ∧ referred lookup a = Go syncer ∧
    is_Some (annotations !! AnnotationOppositeClusterId) ∧
    (annotations !! AnnotationDataSyncer = None ∨
     ∃ b, annotations !! AnnotationDataSyncer = Some b ∧ referred lookup b = Go None).
Proof.
  assert (Hr : ∀ a, referred lookup a ≠ Panic).
  { intros a. unfold referred. repeat case_match; done. }
  assert (Hno : ∀ P : Prop, (P → False) → (Go (A := disaster) (Disaster None None) = Panic ↔ P)) by (intros; split; done).
  unfold disaster_status. destruct (annotations !! AnnotationDisasterSyncer) as [a|].
  2: { apply Hno. by intros (a & s & [=] & _). }
  specialize (Hr a) as Ha. destruct (referred lookup a) as [| |syncer] eqn:Ea; [done|..].
  { split; [done|]. intros (a' & s & [= <-] & Hs & _). congruence. }
  destruct (annotations !! AnnotationDataSyncer) as [b|].
  - specialize (Hr b) as Hb. destruct (referred lookup b) as [| |[j|]] eqn:Eb; [done|..]; simpl;
      destruct (annotations !! AnnotationOppositeClusterId) as [id|];
      try (split; [done|]; intros (a' & s & [= <-] & _ & Hid & [[=]|(b' & [= <-] & Hb')]); (congruence || by destruct Hid)).
    split; [|done]. intros _. exists a, syncer. split_and!; [done..|by eexists|]. right. by exists b.
  - simpl. destruct (annotations !! AnnotationOppositeClusterId) as [id|].
    + split; [|done]. intros _. exists a, syncer. split_and!; [done..|by eexists|]. by left.
    + split; [done|]. intros (a' & s & _ & _ & Hid & _). by destruct Hid.
Qed.
End Properties.

(** ** At a concrete environment *)

Definition plain_cel : CelEngine := Build_CelEngine unit (λ _, Err "no engine") (λ _ _ _, Err "no engine") (λ _, None) (λ s, s).
Definition plain_gjson : GJson :=
  Build_GJson (λ j key, match j with JObj m => m !! key | _ => None end)
    (λ j, match j with Some (JStr s) => s | _ => "" end) (λ _, 0%Z)
    (λ j, match j with Some (JArr l) => l | _ => [] end).

Definition blank : custom_resources := CustomResources 0 "" ∅ ∅ 0 "" "" (Include [] [] [] [] [] []) None.
Definition cache_mid (annotations : gmap string string) : middleware :=
  Middleware "cache" "prod" "m1" 1 None ∅ annotations [] (MiddlewareSpec (OperatorBaseline "op" "redis") "base" "" [] "" None [])
    (MiddlewareStatus 1 [] blank "" "" [] 0 None).
Definition cache_cr : primary :=
  Primary (GVK "redis.io" "v1" "Redis") (redis_owner "u1") 100 (JObj ∅) (JObj {["phase" := JStr "Running"]}).
Definition demo_env (annotations : gmap string string) (cache : namespace_cache) : @environment plain_cel :=
  @Environment plain_cel (Ok (cache_mid annotations)) (Ok cache_cr) (λ _, Some blank) (λ _, JNull) (λ _, Ok []) ∅ NotNative
    (Some cache) (λ _ _, "") (λ _ _, Err (Error NotFound "no such object")).

Definition empty_cache : namespace_cache := NamespaceCache [] [] [] [] [] [] [].

Lemma operator_status_authoritative_witness :
  let env := demo_env ∅ empty_cache in
  let out := @recomputeAndUpdateStatus plain_cel plain_gjson in
  match out (@with_runtime plain_cel env demo_cache NotNative (λ _ _, "pod p2 is not ready")),
        out (@with_runtime plain_cel env empty_cache NotNative (λ _ _, "")) with
  | Go (Some c), Go (Some c') => cr_phase c = cr_phase c' ∧ cr_phase c = "Running"
  | _, _ => False
  end.
Proof.
  intros env out.
  destruct (out (@with_runtime plain_cel env demo_cache NotNative (λ _ _, "pod p2 is not ready"))) as [| |[c|]] eqn:E1;
    try (vm_compute in E1; discriminate E1).
  destruct (out (@with_runtime plain_cel env empty_cache NotNative (λ _ _, ""))) as [| |[c'|]] eqn:E2;
    try (vm_compute in E2; discriminate E2).
  split.
  - exact (proj1 (@operator_status_authoritative plain_cel plain_gjson env (cache_mid ∅) demo_cache empty_cache
      NotNative NotNative _ _ c c' eq_refl eq_refl E1 E2)).
  - vm_compute in E1. injection E1 as <-. reflexivity.
Defined.

(** The annotations of a disaster-recovery Middleware without a data syncer
    make the recomputation panic. *)
Lemma recompute_panics :
  @recomputeAndUpdateStatus plain_cel plain_gjson
    (demo_env {[AnnotationDisasterSyncer := "dr.io/v1/Syncer/s1"; AnnotationOppositeClusterId := "cluster-b"]}
       empty_cache) = Panic.
Proof. vm_compute. reflexivity. Qed.
