(* ===== verification/FieldPath.v ===== *)
(** * Field paths and sets of them

    The data of [structured-merge-diff] that [internal/k8s/intent_merge.go]
    looks into: path elements and the prefix tree of a [fieldpath.Set].  The
    package's own operations on sets are the parameter [FieldPathLib]; the
    traversals that the repository writes itself are proved against it. *)
From stdpp Require Import base gmap strings list option.
From Stdlib Require Import ZArith Lia.
From S2P Require Import Prelude Json.

(** A [PathElement] has exactly one of its four pointers set. *)
Inductive path_element : Type :=
  | FieldName (name : string)
  | Key (fields : list (string * json))
  | Value (v : json)
  | Index (i : Z).

#[export] Instance path_element_eq_dec : EqDecision path_element.
Proof. solve_decision. Defined.
#[export] Instance path_element_countable : Countable path_element.
Proof.
  apply (inj_countable'
    (λ e, match e with FieldName n => inl n | Key l => inr (inl l)
          | Value v => inr (inr (inl v)) | Index i => inr (inr (inr i)) end)
    (λ s, match s with inl n => FieldName n | inr (inl l) => Key l
          | inr (inr (inl v)) => Value v | inr (inr (inr i)) => Index i end)).
  by intros [].
Defined.

Abbreviation path := (list path_element).

(** [fieldpath.Set]: the members at this level, and the sets below. *)
Inductive fset : Type := FSet (Members : gset path_element) (Children : gmap path_element fset).
Definition Members (s : fset) : gset path_element := let 'FSet m _ := s in m.
Definition Children (s : fset) : gmap path_element fset := let 'FSet _ c := s in c.

Definition NewSet : fset := FSet ∅ ∅.

(** The paths of a set. *)
Fixpoint member (p : path) (s : fset) : bool :=
  match p with
  | [] => false
  | [e] => bool_decide (e ∈ Members s)
  | e :: p => match Children s !! e with Some c => member p c | None => false end
  end.

(** ** The library's operations, by the members of their results *)

Class FieldPathLib := {
  Empty : fset → bool;
  Has : path → fset → bool;
  Insert : path → fset → fset;
  Union : fset → fset → fset;
  Leaves : fset → fset;
  RecursiveDifference : fset → fset → fset;
  Iterate : fset → list path;
  empty_spec s : Empty s = true ↔ ∀ p, member p s = false;
  has_spec p s : Has p s = member p s;
  insert_spec p q s : p ≠ [] → member q (Insert p s) = bool_decide (q = p) || member q s;
  union_spec p s t : member p (Union s t) = member p s || member p t;
  leaves_spec p s : member p (Leaves s) = true ↔
    member p s = true ∧ ∀ q, member q s = true → p `prefix_of` q → q = p;
  difference_spec p s t : member p (RecursiveDifference s t) = true ↔
    member p s = true ∧ ∀ q, member q t = true → ¬ q `prefix_of` p;
  iterate_spec p s : p ∈ Iterate s ↔ member p s = true;
}.

Section Traversals.
Context `{FieldPathLib}.

(** ** The repository's traversals.  A nil set is [None]. *)

Fixpoint overlap_go (set : fset) (p : path) : bool :=
  match p with
  | [] => negb (Empty set)
  | element :: p =>
      if bool_decide (element ∈ Members set) then true
      else match Children set !! element with None => false | Some child => overlap_go child p end
  end.

(** [intentPathsOverlap], internal/k8s/intent_merge.go *)
Definition intentPathsOverlap (set : option fset) (p : path) : bool :=
  match set with None => false | Some set => overlap_go set p end.

Fixpoint contains_go (set : fset) (p : path) : bool :=
  match p with
  | [] => negb (Empty set)
  | element :: p =>
      if bool_decide (p = []) && bool_decide (element ∈ Members set) then true
      else match Children set !! element with None => false | Some child => contains_go child p end
  end.

(** [intentContainsPath], internal/k8s/intent_merge.go *)
Definition intentContainsPath (set : option fset) (p : path) : bool :=
  match set with None => false | Some set => contains_go set p end.

(** [decimal] is [fmt]'s [%d]. *)
(** [intentSafePath], internal/k8s/intent_merge.go *)
Definition intentSafePath (decimal : Z → string) (p : path) : string :=
  String.concat "" ((λ element,
    match element with
    | FieldName name => "." +:+ name
    | Key fields => "[" +:+ String.concat "," ((λ field, field.1 +:+ "=<redacted>") <$> fields) +:+ "]"
    | Value _ => "[set-item]"
    | Index i => "[" +:+ decimal i +:+ "]"
    end) <$> p).

(** ** What they compute *)

Lemma not_empty_spec s : negb (Empty s) = true ↔ ∃ p, member p s = true.
Proof.
  destruct (Empty s) eqn:E; simpl.
  - rewrite empty_spec in E. split; [done|]. intros [p Hp]. by rewrite E in Hp.
  - split; [|done]. intros _. destruct (Iterate s) as [|p l] eqn:Hl.
    + assert (Empty s = true) as E'; [|congruence]. apply empty_spec. intros p.
      destruct (member p s) eqn:Hp; [|done]. apply iterate_spec in Hp. rewrite Hl in Hp. by apply not_elem_of_nil in Hp.
    + exists p. apply iterate_spec. rewrite Hl. left.
Qed.

Lemma member_cons e p s :
  p ≠ [] → member (e :: p) s = match Children s !! e with Some c => member p c | None => false end.
Proof. by destruct p. Qed.

Lemma member_child e p s c : Children s !! e = Some c → member p c = true → member (e :: p) s = true.
Proof. intros Hc Hp. destruct p as [|e' p]; [done|]. by rewrite member_cons, Hc. Qed.

Lemma member_inv e p s :
  member (e :: p) s = true → (p = [] ∧ e ∈ Members s) ∨ ∃ c, Children s !! e = Some c ∧ member p c = true.
Proof.
  destruct p as [|e' p]; [left; split; [done|]; by eapply bool_decide_eq_true_1|].
  rewrite member_cons by done. destruct (Children s !! e) as [c|]; [|done]. eauto.
Qed.

(** Overlap: the set has a path at, above or below the given one. *)
Lemma overlap_spec s p :
  intentPathsOverlap (Some s) p = true ↔ ∃ q, member q s = true ∧ (q `prefix_of` p ∨ p `prefix_of` q).
Proof.
  simpl. revert s. induction p as [|e p IH]; intros s; simpl.
  { rewrite not_empty_spec. split; intros [q Hq]; exists q; [|tauto]. split; [done|]. right. apply prefix_nil. }
  case_bool_decide as Hm.
  { split; [|done]. intros _. exists [e]. simpl. rewrite bool_decide_eq_true_2 by done.
    split; [done|]. left. apply prefix_cons, prefix_nil. }
  destruct (Children s !! e) as [c|] eqn:Hc.
  - rewrite IH. split.
    + intros (q & Hq & Hpre). exists (e :: q). split; [by eapply member_child|].
      destruct Hpre; [left|right]; by apply prefix_cons.
    + intros (q & Hq & Hpre). destruct q as [|e' q]; [done|].
      assert (e' = e) as -> by (destruct Hpre as [Hp|Hp]; by apply prefix_cons_inv_1 in Hp).
      apply member_inv in Hq as [[_ ?]|(c' & ? & Hq)]; [done|]. simplify_eq. exists q. split; [done|].
      destruct Hpre as [Hp|Hp]; apply prefix_cons_inv_2 in Hp; tauto.
  - split; [done|]. intros (q & Hq & Hpre). destruct q as [|e' q]; [done|].
    assert (e' = e) as -> by (destruct Hpre as [Hp|Hp]; by apply prefix_cons_inv_1 in Hp).
    apply member_inv in Hq as [[_ ?]|(c' & ? & _)]; [done|congruence].
Qed.

(** Containment: the set has the path itself or one below it. *)
Lemma contains_spec s p :
  intentContainsPath (Some s) p = true ↔ ∃ q, member q s = true ∧ p `prefix_of` q.
Proof.
  simpl. revert s. induction p as [|e p IH]; intros s; simpl.
  { rewrite not_empty_spec. split; intros [q Hq]; exists q; [|tauto]. split; [done|]. apply prefix_nil. }
  destruct (bool_decide (p = []) && bool_decide (e ∈ Members s)) eqn:Hl.
  { apply andb_true_iff in Hl as [->%bool_decide_eq_true Hm]. split; [|done]. intros _.
    exists [e]. split; [exact Hm|done]. }
  destruct (Children s !! e) as [c|] eqn:Hc.
  - rewrite IH. split.
    + intros (q & Hq & Hpre). exists (e :: q). split; [by eapply member_child|by apply prefix_cons].
    + intros (q & Hq & Hpre). destruct q as [|e' q]; [done|].
      pose proof (prefix_cons_inv_1 _ _ _ _ Hpre) as <-. apply prefix_cons_inv_2 in Hpre.
      apply member_inv in Hq as [[-> Hm]|(c' & ? & Hq)]; [|simplify_eq; eauto].
      apply prefix_nil_inv in Hpre as ->. by rewrite !bool_decide_eq_true_2 in Hl.
  - split; [done|]. intros (q & Hq & Hpre). destruct q as [|e' q]; [done|].
    pose proof (prefix_cons_inv_1 _ _ _ _ Hpre) as <-. apply prefix_cons_inv_2 in Hpre.
    apply member_inv in Hq as [[-> Hm]|(c' & ? & _)]; [|congruence].
    apply prefix_nil_inv in Hpre as ->. by rewrite !bool_decide_eq_true_2 in Hl.
Qed.
End Traversals.
Arguments intentPathsOverlap : simpl never.
Arguments intentContainsPath : simpl never.

(** ** An implementation, by enumerating the paths *)

Module Enumerated.

Fixpoint insert (p : path) (s : fset) : fset :=
  match p with
  | [] => s
  | [e] => FSet ({[e]} ∪ Members s) (Children s)
  | e :: p => FSet (Members s) (<[e := insert p (default NewSet (Children s !! e))]> (Children s))
  end.

Fixpoint paths (s : fset) : list path :=
  let 'FSet m c := s in
  ((λ e, [e]) <$> elements m) ++ map_fold (λ e child acc, (cons e <$> paths child) ++ acc) [] c.

Definition of_list (l : list path) : fset := foldr insert NewSet l.

Definition is_leaf (s : fset) (p : path) : Prop := Forall (λ q, p `prefix_of` q → q = p) (paths s).
Definition is_clear (t : fset) (p : path) : Prop := Forall (λ q, ¬ q `prefix_of` p) (paths t).
#[local] Instance is_leaf_dec s p : Decision (is_leaf s p).
Proof. unfold is_leaf. apply _. Defined.
#[local] Instance is_clear_dec t p : Decision (is_clear t p).
Proof. unfold is_clear. apply _. Defined.

Lemma elem_of_folded {T} (f : path_element → T → list path) (m : gmap path_element T) p :
  p ∈ map_fold (λ e v acc, f e v ++ acc) [] m ↔ ∃ e v, m !! e = Some v ∧ p ∈ f e v.
Proof.
  apply (map_fold_weak_ind (λ acc m, p ∈ acc ↔ ∃ e v, m !! e = Some v ∧ p ∈ f e v)).
  - split; [by intros ?%not_elem_of_nil|]. intros (e & v & He & _). by rewrite lookup_empty in He.
  - intros e v m' acc He IH. rewrite elem_of_app, IH. split.
    + intros [Hp|(e' & v' & He' & Hp)]; [exists e, v; by rewrite lookup_insert_eq|].
      exists e', v'. rewrite lookup_insert_ne by congruence. done.
    + intros (e' & v' & He' & Hp). destruct (decide (e = e')) as [<-|Hne].
      * rewrite lookup_insert_eq in He'. simplify_eq. by left.
      * rewrite lookup_insert_ne in He' by done. right. eauto.
Qed.

Lemma elem_of_paths p s :
  p ∈ paths s ↔ (∃ e, p = [e] ∧ e ∈ Members s) ∨ ∃ e c p', p = e :: p' ∧ Children s !! e = Some c ∧ p' ∈ paths c.
Proof.
  destruct s as [m c]. simpl. rewrite elem_of_app, list_elem_of_fmap, elem_of_folded.
  setoid_rewrite elem_of_elements. setoid_rewrite list_elem_of_fmap. naive_solver.
Qed.

Lemma elem_of_paths_member p s : p ∈ paths s ↔ member p s = true.
Proof.
  revert s. induction p as [|e p IH]; intros s; rewrite elem_of_paths.
  { simpl. naive_solver. }
  split.
  - intros [(e' & [= <- ->] & Hm)|(e' & c & p' & [= <- <-] & Hc & Hp)]; [by apply bool_decide_eq_true|].
    apply IH in Hp. by eapply member_child.
  - intros [[-> Hm]|(c & Hc & Hp)]%member_inv; [left; eauto|]. right. apply IH in Hp. eauto 10.
Qed.

Lemma member_new p : member p NewSet = false.
Proof. destruct p as [|e [|]]; [done|by apply bool_decide_eq_false|]. simpl. by rewrite lookup_empty. Qed.

Lemma insert_cons e p s : p ≠ [] →
  insert (e :: p) s = FSet (Members s) (<[e := insert p (default NewSet (Children s !! e))]> (Children s)).
Proof. by destruct p. Qed.

Lemma member_insert p q s : p ≠ [] → member q (insert p s) = bool_decide (q = p) || member q s.
Proof.
  revert q s. induction p as [|e p IH]; intros q s Hp; [done|].
  destruct q as [|e' q]; [by rewrite bool_decide_eq_false_2|]. clear Hp.
  destruct p as [|e1 p]; [destruct q as [|e2 q]|].
  - simpl. apply eq_bool_prop_intro. rewrite orb_True, !bool_decide_spec. set_solver.
  - simpl. rewrite (bool_decide_eq_false_2 (_ = _)) by congruence. done.
  - destruct q as [|e2 q]; [rewrite insert_cons by done; simpl; by rewrite (bool_decide_eq_false_2 (_ = _)) by congruence|].
    rewrite !(member_cons e'), insert_cons by done. cbn [Children].
    destruct (decide (e = e')) as [<-|Hne].
    + rewrite lookup_insert_eq, IH by done.
      rewrite (bool_decide_ext (e :: e2 :: q = e :: e1 :: p) (e2 :: q = e1 :: p)) by (split; congruence).
      f_equal. destruct (Children s !! e); [done|apply member_new].
    + rewrite lookup_insert_ne by done. by rewrite (bool_decide_eq_false_2 (_ = _)) by congruence.
Qed.

Lemma member_foldr q l s : Forall (.≠ []) l → member q (foldr insert s l) = bool_decide (q ∈ l) || member q s.
Proof.
  induction 1 as [|p l Hp Hl IH]; cbn [foldr].
  - by rewrite (bool_decide_eq_false_2 (q ∈ [])) by apply not_elem_of_nil.
  - rewrite member_insert, IH, orb_assoc by done. f_equal. apply eq_bool_prop_intro.
    rewrite orb_True, !bool_decide_spec. symmetry. apply elem_of_cons.
Qed.

Lemma paths_not_nil s : Forall (.≠ []) (paths s).
Proof. apply list.Forall_forall. by intros p Hp%elem_of_paths_member ->. Qed.

Lemma member_filtered P `{!∀ p, Decision (P p)} p s :
  member p (of_list (filter P (paths s))) = true ↔ member p s = true ∧ P p.
Proof.
  unfold of_list. rewrite member_foldr, member_new, orb_false_r, bool_decide_eq_true, list_elem_of_filter, elem_of_paths_member.
  - tauto.
  - apply list.Forall_forall. intros q [_ Hq]%list_elem_of_filter. revert q Hq. apply list.Forall_forall, paths_not_nil.
Qed.

#[export, refine] Instance lib : FieldPathLib := {|
  Empty s := bool_decide (paths s = []);
  Has := member;
  Insert := insert;
  Union s t := foldr insert t (paths s);
  Leaves s := of_list (filter (is_leaf s) (paths s));
  RecursiveDifference s t := of_list (filter (is_clear t) (paths s));
  Iterate := paths;
|}.
Proof.
  - intros s. rewrite bool_decide_eq_true. split.
    + intros Hs p. destruct (member p s) eqn:Hp; [|done]. apply elem_of_paths_member in Hp. rewrite Hs in Hp.
      by apply not_elem_of_nil in Hp.
    + intros Hs. destruct (paths s) as [|p l] eqn:Hl; [done|]. specialize (Hs p).
      rewrite (proj1 (elem_of_paths_member p s)) in Hs; [done|]. rewrite Hl. left.
  - done.
  - intros p q s. apply member_insert.
  - intros p s t. rewrite member_foldr by apply paths_not_nil. f_equal. apply eq_bool_prop_intro.
    rewrite bool_decide_spec, elem_of_paths_member. by rewrite Is_true_true.
  - intros p s. rewrite member_filtered. unfold is_leaf. rewrite list.Forall_forall. setoid_rewrite elem_of_paths_member. done.
  - intros p s t. rewrite member_filtered. unfold is_clear. rewrite list.Forall_forall. setoid_rewrite elem_of_paths_member. done.
  - apply elem_of_paths_member.
Defined.
End Enumerated.
