(* ===== verification/IntentMerge.v ===== *)
(** * Three-way merge of resource intents

    [internal/k8s/intent_merge.go] and [observed_spec_changes.go]: the last
    desired object, the live one and the next desired one are compared field
    by field along the API schema.  Only what the intent changed is written,
    only what it dropped and nobody else touched is removed, and what is kept
    instead is reported.

    The schema library ([structured-merge-diff] and [managedfields]) is a
    parameter: its data is transcribed, its operations are [TypedLib] and what
    its documentation says of them is [TypedLaws]. *)
From stdpp Require Import base gmap strings list option sorting.
From Stdlib Require Import ZArith Lia.
From S2P Require Import Prelude Labels Conditions Prog Middleware Json FieldPath.

(** ** Objects: what [unstructured.Unstructured] holds, and its accessors *)

Abbreviation object := (gmap string json).

Record owner_reference := OwnerReference {
  or_apiVersion : string; or_kind : string; or_name : string; or_uid : string; or_controller : option bool;
}.
#[export] Instance owner_reference_eq_dec : EqDecision owner_reference.
Proof. solve_decision. Defined.

Class UnstructuredApi := {
  GroupVersionKind : object → gvk;
  GetAPIVersion : object → string;
  GetKind : object → string;
  GetName : object → string;
  GetNamespace : object → string;
  GetUID : object → string;
}.

(** ** The schema's data *)

Inductive atom : Type := | Atom (a_scalar : option string) (a_list : option list_type) (a_map : option map_type)
with list_type : Type := | ListType (l_elementType : type_ref) (l_relationship : string)
with map_type : Type := | MapType (m_fields : list struct_field) (m_elementType : type_ref) (m_relationship : string)
with struct_field : Type := | StructField (f_name : string) (f_type : type_ref) (f_default : option json)
with type_ref : Type := | TypeRef (r_namedType : option string) (r_inlined : atom).

Definition a_list (a : atom) : option list_type := let 'Atom _ l _ := a in l.
Definition a_map (a : atom) : option map_type := let 'Atom _ _ m := a in m.
Definition l_elementType (l : list_type) : type_ref := let 'ListType t _ := l in t.
Definition l_relationship (l : list_type) : string := let 'ListType _ r := l in r.
Definition m_elementType (m : map_type) : type_ref := let 'MapType _ t _ := m in t.
Definition m_relationship (m : map_type) : string := let 'MapType _ _ r := m in r.
Definition f_name (f : struct_field) : string := let 'StructField n _ _ := f in n.
Definition f_type (f : struct_field) : type_ref := let 'StructField _ t _ := f in t.
Definition f_default (f : struct_field) : option json := let 'StructField _ _ d := f in d.

Definition Atomic : string := "atomic".

Record comparison := Comparison { c_removed : fset; c_modified : fset; c_added : fset }.

(** ** The schema library's operations *)

Class TypedLib (typed : Type) := {
  AsValue : typed → option json;
  TypeRefOf : typed → type_ref;
  Resolve : typed → type_ref → option atom;
  FindField : map_type → string → option struct_field;
  Compare : typed → typed → result error comparison;
  ToFieldSet : typed → result error fset;
  Merge : typed → typed → result error typed;
  RemoveItems : typed → fset → typed;
  ExtractItems : typed → fset → typed;
}.

(** [managedfields.TypeConverter]; [None] is an object of another Go type. *)
Record type_converter (typed : Type) := TypeConverter {
  ObjectToTyped : object → result error typed;
  TypedToObject : typed → result error (option object);
}.
Arguments ObjectToTyped {typed} _ _.
Arguments TypedToObject {typed} _ _.

Section IntentMerge.
Context `{FieldPathLib} {typed : Type} `{!TypedLib typed} `{UnstructuredApi} (decimal : Z → string).
Implicit Types (b l d : typed) (p : path).

(** ** Schema traversals *)

(** The element type a path element leads to, when the schema can be followed. *)
Definition field_ref (m : map_type) (name : string) : type_ref :=
  match FindField m name with Some field => f_type field | None => m_elementType m end.

Definition cannot_resolve p : error := new_error ("cannot resolve schema at " +:+ intentSafePath decimal p).
Definition cannot_traverse p : error := new_error ("cannot traverse schema at " +:+ intentSafePath decimal p).

(** [intentAtomicContainerAt], internal/k8s/intent_merge.go:377-394 *)
Fixpoint atomic_ref (obj : typed) (path0 : path) (ref : type_ref) (p : path) : result error type_ref :=
  match p with
  | [] => Ok ref
  | element :: p =>
      match Resolve obj ref with
      | None => Err (cannot_resolve path0)
      | Some a =>
          match element, a_map a, a_list a with
          | FieldName name, Some m, _ => atomic_ref obj path0 (field_ref m name) p
          | FieldName _, None, _ => Err (cannot_traverse path0)
          | _, _, Some l => atomic_ref obj path0 (l_elementType l) p
          | _, _, None => Err (cannot_traverse path0)
          end
      end
  end.

(** [intentAtomicContainerAt], internal/k8s/intent_merge.go *)
Definition intentAtomicContainerAt (obj : typed) (p : path) : result error bool :=
  ref ← atomic_ref obj p (TypeRefOf obj) p;
  match Resolve obj ref with
  | None => Err (cannot_resolve p)
  | Some a =>
      Ok (match a_map a with Some m => String.eqb (m_relationship m) Atomic | None => false end ||
          match a_list a with Some l => String.eqb (l_relationship l) Atomic | None => false end)
  end.

(** Does a list item have the values of an associative key, defaults included? *)
(** [intentConcreteParent], internal/k8s/intent_merge.go:220-232 *)
Definition key_matches (m : map_type) (item : gmap string json) (keys : list (string * json)) : bool :=
  forallb (λ '(name, expected),
    let v := match item !! name with
             | Some v => Some v
             | None => FindField m name ≫= f_default
             end in
    match v with Some v => bool_decide (v = expected) | None => false end) keys.

(** [intentConcreteParent], internal/k8s/intent_merge.go:215-247 *)
Fixpoint select_item (itemType : atom) (element : path_element) (i : Z) (items : list json) : option json :=
  match items with
  | [] => None
  | item :: items =>
      let selected :=
        match element, item, a_map itemType with
        | Key keys, JObj fields, Some m => key_matches m fields keys
        | Key _, _, _ => false
        | Value v, _, _ => bool_decide (item = v)
        | Index n, _, _ => bool_decide (i = n)
        | FieldName _, _, _ => false
        end in
      if selected then Some item else select_item itemType element (i + 1)%Z items
  end.

(** [intentConcreteParent], internal/k8s/intent_merge.go:192-253 *)
Fixpoint concrete_at (obj : typed) (current : json) (ref : type_ref) (p : path) : bool :=
  match p with
  | [] => match current with JObj _ | JArr _ => true | _ => false end
  | element :: p =>
      match Resolve obj ref with
      | None => false
      | Some a =>
          match element, a_map a, current, a_list a with
          | FieldName name, Some m, JObj fields, _ =>
              match fields !! name with
              | None => false
              | Some current => concrete_at obj current (field_ref m name) p
              end
          | _, _, JArr items, Some l =>
              match Resolve obj (l_elementType l) with
              | None => false
              | Some itemType =>
                  match select_item itemType element 0 items with
                  | None => false
                  | Some current => concrete_at obj current (l_elementType l) p
                  end
              end
          | _, _, _, _ => false
          end
      end
  end.

(** [intentConcreteParent], internal/k8s/intent_merge.go *)
Definition intentConcreteParent (obj : typed) (p : path) : bool :=
  match AsValue obj with None => false | Some current => concrete_at obj current (TypeRefOf obj) p end.

(** ** The three-way merge of typed values *)

Definition ends_in_key (p : path) : bool := match last p with Some (Key _) => true | _ => false end.

(** [mergeTypedIntent], internal/k8s/intent_merge.go:294-304 *)
Definition blocked_items (liveFields externalChanges : fset) (protected : option fset) (removed : fset) : fset :=
  foldl (λ blocked p,
    if ends_in_key p &&
       (intentPathsOverlap (Some externalChanges) p || intentPathsOverlap protected p) &&
       intentContainsPath (Some liveFields) p
    then Insert p blocked else blocked) NewSet (Iterate removed).

(** The paths to remove and the paths retained. *)
(** [mergeTypedIntent], internal/k8s/intent_merge.go:305-316 *)
Definition split_removals (liveFields externalChanges : fset) (protected : option fset) (blockedItems removed : fset) :
    fset * fset :=
  foldl (λ '(remove, retained) p,
    if negb (intentContainsPath (Some liveFields) p) then (remove, retained)
    else if intentPathsOverlap (Some blockedItems) p || intentPathsOverlap (Some externalChanges) p ||
            intentPathsOverlap protected p
    then (remove, Insert p retained)
    else (Insert p remove, retained)) (NewSet, NewSet) (Iterate removed).

(** The writes blocked, and the retained paths with them. *)
(** [mergeTypedIntent], internal/k8s/intent_merge.go:323-335 *)
Definition block_writes (d : typed) (liveFields externalChanges stillDifferent write retained : fset) :
    option error * fset * fset :=
  foldl (λ '(schemaErr, blockedWrites, retained) p,
    if match schemaErr with Some _ => true | None => false end ||
       negb (intentContainsPath (Some liveFields) p) ||
       negb (intentPathsOverlap (Some externalChanges) p) ||
       negb (intentPathsOverlap (Some stillDifferent) p)
    then (schemaErr, blockedWrites, retained)
    else match intentAtomicContainerAt d p with
         | Err e => (Some e, blockedWrites, retained)
         | Ok true => (None, Insert p blockedWrites, Insert p retained)
         | Ok false => (None, blockedWrites, retained)
         end) (None, NewSet, retained) (Iterate write).

(** [sort.Strings] followed by dropping equal neighbours. *)
Definition string_le (x y : string) : Prop := String.le x y.
#[local] Instance string_le_dec x y : Decision (string_le x y).
Proof. unfold string_le. apply _. Defined.

(** [mergeTypedIntent], internal/k8s/intent_merge.go:363-371 *)
Fixpoint unique_sorted (l : list string) : list string :=
  match l with
  | x :: (y :: _) as tail => if String.eqb x y then unique_sorted tail else x :: unique_sorted tail
  | _ => l
  end.

(** [mergeTypedIntent], internal/k8s/intent_merge.go:351-371 *)
Definition preserved_paths (retained : fset) : list string :=
  unique_sorted (merge_sort string_le (intentSafePath decimal <$>
    filter (λ p, Forall (λ i, Has (take i p) retained = false) (seq 1 (length p - 1))) (Iterate retained))).

(** [mergeTypedIntent], internal/k8s/intent_merge.go *)
Definition mergeTypedIntent b l d (protected : option fset) : result error (typed * list string) :=
  change ← Compare b d;
  drift ← Compare b l;
  liveFields ← ToFieldSet l;
  let externalChanges := Union (Union (c_added drift) (c_modified drift)) (c_removed drift) in
  let blockedItems := blocked_items liveFields externalChanges protected (c_removed change) in
  let '(remove, retained) := split_removals liveFields externalChanges protected blockedItems (c_removed change) in
  let write := Union (c_added change) (c_modified change) in
  liveDesired ← Compare l d;
  let stillDifferent := Union (Union (c_added liveDesired) (c_modified liveDesired)) (c_removed liveDesired) in
  let '(schemaErr, blockedWrites, retained) :=
    block_writes d liveFields externalChanges stillDifferent write retained in
  match schemaErr with
  | Some e => Err e
  | None =>
      let patch := ExtractItems d (RecursiveDifference (Leaves write) blockedWrites) in
      merged ← Merge (RemoveItems l remove) patch;
      Ok (merged, preserved_paths retained)
  end.

(** ** Whole objects *)

(** [intentMergeScope], internal/k8s/intent_merge.go *)
Definition intentMergeScope (obj : object) : object :=
  let copy := delete "status" obj in
  match copy !! "metadata" with
  | Some (JObj meta) =>
      <["metadata" := JObj (filter (λ kv, kv.1 ∈ ["name"; "namespace"; "labels"; "annotations"]) meta)]> copy
  | _ => copy
  end.

(** [restoreIntentSystemFields], internal/k8s/intent_merge.go *)
Definition restoreIntentSystemFields (result live : object) : object :=
  let result := match live !! "status" with Some status => <["status" := status]> result | None => result end in
  match live !! "metadata" with
  | Some (JObj liveMeta) =>
      let meta := match result !! "metadata" with Some (JObj meta) => meta | _ => ∅ end in
      <["metadata" := JObj (map_fold (λ key val (meta : gmap string json),
          if negb (String.eqb key "labels") && negb (String.eqb key "annotations")
          then <[key := val]> meta else meta) meta liveMeta)]> result
  | _ => result
  end.

Definition same_target (a b : object) : bool :=
  bool_decide (GroupVersionKind a = GroupVersionKind b) && String.eqb (GetName a) (GetName b) &&
  String.eqb (GetNamespace a) (GetNamespace b).

Definition object_name (msg : string) (obj : object) : error :=
  new_error (msg +:+ " for " +:+ GetKind obj +:+ " " +:+ GetNamespace obj +:+ "/" +:+ GetName obj).

(** [MergeResourceIntent], internal/k8s/intent_merge.go:84-93 *)
Definition decode_merged (converter : type_converter typed) (merged : typed) (failed unsupported : string)
    (system : object) : result error object :=
  match TypedToObject converter merged with
  | Err e => Err (wrap_error failed e)
  | Ok None => Err (new_error unsupported)
  | Ok (Some result) => Ok (restoreIntentSystemFields result system)
  end.

(** [MergeResourceIntent], internal/k8s/intent_merge.go *)
Definition MergeResourceIntent (converter : option (type_converter typed)) (before live desired : option object)
    (protected : option fset) : result error (object * list string) :=
  match converter, live, desired with
  | Some converter, Some live, Some desired =>
      if negb (match before with Some obj => same_target obj live | None => true end && same_target desired live)
      then Err (new_error "intent merge requires matching apiVersion, kind, name and namespace")
      else if String.eqb (GetAPIVersion live) "" || String.eqb (GetKind live) ""
      then Err (new_error "intent merge requires an explicit apiVersion and kind")
      else
        match ObjectToTyped converter (intentMergeScope live) with
        | Err _ => Err (object_name "live resource schema validation failed" live)
        | Ok l =>
            match ObjectToTyped converter (intentMergeScope desired) with
            | Err _ => Err (object_name "desired resource schema validation failed" desired)
            | Ok d =>
                let merged :=
                  match before with
                  | None => match Merge l d with
                            | Ok merged => Ok (merged, [])
                            | Err e => Err (wrap_error "merge resource intent" e)
                            end
                  | Some before =>
                      match ObjectToTyped converter (intentMergeScope before) with
                      | Err _ => Err (object_name "previous resource schema validation failed" before)
                      | Ok b => match mergeTypedIntent b l d protected with
                                | Ok r => Ok r
                                | Err e => Err (wrap_error "merge resource intent" e)
                                end
                      end
                  end in
                '(merged, preserved) ← merged;
                result ← decode_merged converter merged "decode merged resource"
                  "schema converter returned unsupported merged resource" live;
                Ok (result, preserved)
            end
        end
  | _, _, _ => Err (new_error "intent merge requires a schema converter, live object and desired object")
  end.

(** ** Defaults *)

Fixpoint parse_all (converter : type_converter typed) (i : Z) (first : option object) (objects : list (option object)) :
    result error (list typed) :=
  match objects with
  | [] => Ok []
  | None :: _ => Err (new_error "resource intent defaults requires objects with explicit apiVersion and kind")
  | Some obj :: objects =>
      if String.eqb (GetAPIVersion obj) "" || String.eqb (GetKind obj) ""
      then Err (new_error "resource intent defaults requires objects with explicit apiVersion and kind")
      else if negb (match first with Some first => same_target obj first | None => true end)
      then Err (new_error "resource intent defaults requires matching apiVersion, kind, name and namespace")
      else match ObjectToTyped converter (intentMergeScope obj) with
           | Err _ => Err (new_error ("resource intent defaults schema validation failed for object " +:+ decimal i))
           | Ok t => ts ← parse_all converter (i + 1)%Z (match first with Some _ => first | None => Some obj end) objects;
                     Ok (t :: ts)
           end
  end.

(** [intentDefaultsObjects], internal/k8s/intent_merge.go *)
Definition intentDefaultsObjects (converter : option (type_converter typed)) (objects : list (option object)) :
    result error (list typed) :=
  match converter with
  | None => Err (new_error "resource intent defaults requires a schema converter")
  | Some converter => parse_all converter 0 None objects
  end.

(** The list items along a path are all declared, and there is at least one. *)
(** [supplementIntentDefaults], internal/k8s/intent_merge.go:151-163 *)
Definition items_declared (rawFields : fset) (p : path) : bool :=
  let items := filter (λ i, ends_in_key (take (S i) p) = true) (seq 0 (length p)) in
  negb (bool_decide (items = [])) && forallb (λ i, intentContainsPath (Some rawFields) (take (S i) p)) items.

(** [supplementIntentDefaults], internal/k8s/intent_merge.go:148-163 *)
Definition default_candidate (effectiveDesired : typed) (rawFields effectiveFields : fset) (p : path) : bool :=
  let parent := take (length p - 1) p in
  (2 <=? length p) && negb (intentContainsPath (Some effectiveFields) p) &&
  intentContainsPath (Some effectiveFields) parent && intentConcreteParent effectiveDesired parent &&
  items_declared rawFields p.

(** [supplementIntentDefaults], internal/k8s/intent_merge.go *)
Definition supplementIntentDefaults (converter : type_converter typed) (source rawDesired effectiveDesired : typed)
    (original : object) (candidates : fset) : result error object :=
  match ToFieldSet rawDesired, ToFieldSet effectiveDesired with
  | Err _, _ => Err (new_error "cannot inspect declared resource fields for defaults")
  | _, Err _ => Err (new_error "cannot inspect effective resource fields for defaults")
  | Ok rawFields, Ok effectiveFields =>
      let include := foldl (λ include p,
        if default_candidate effectiveDesired rawFields effectiveFields p then Insert p include else include)
        NewSet (Iterate candidates) in
      if Empty include then Ok original
      else match Merge effectiveDesired (ExtractItems source include) with
           | Err _ => Err (new_error "cannot supplement resource intent defaults")
           | Ok completed =>
               decode_merged converter completed "cannot decode resource intent defaults"
                 "schema converter returned unsupported defaulted intent" original
           end
  end.

(** [intentDefaultsObjects] answers as many values as it is given objects, and
    only when none is nil: the last case of the functions below never occurs. *)
(** [CarryResourceIntentDefaults], internal/k8s/intent_merge.go *)
Definition CarryResourceIntentDefaults (converter : option (type_converter typed))
    (rawBefore effectiveBefore newDesired : option object) : result error object :=
  objects ← intentDefaultsObjects converter [rawBefore; effectiveBefore; newDesired];
  match objects, converter, newDesired with
  | [raw; effective; new], Some converter, Some newDesired =>
      match Compare raw effective with
      | Err _ => Err (new_error "cannot compare previously captured resource defaults")
      | Ok change => supplementIntentDefaults converter effective new new newDesired (Leaves (c_added change))
      end
  | _, _, _ => Err (new_error "")
  end.

(** [CaptureResourceIntentDefaults], internal/k8s/intent_merge.go *)
Definition CaptureResourceIntentDefaults (converter : option (type_converter typed))
    (rawDesired effectiveDesired submitted accepted : option object) : result error object :=
  objects ← intentDefaultsObjects converter [rawDesired; effectiveDesired; submitted; accepted];
  match objects, converter, effectiveDesired, submitted, accepted with
  | [raw; effective; sub; acc], Some converter, Some effectiveDesired, Some submitted, Some accepted =>
      if negb (String.eqb (GetUID submitted) "") && negb (String.eqb (GetUID accepted) (GetUID submitted))
      then Err (new_error "resource defaults require the accepted object to retain its submitted UID")
      else match Compare sub acc with
      | Err _ => Err (new_error "cannot compare submitted and accepted resource defaults")
      | Ok change => supplementIntentDefaults converter acc raw effective effectiveDesired (Leaves (c_added change))
      end
  | _, _, _, _, _ => Err (new_error "")
  end.

(** ** Changes observed during a pause ([observed_spec_changes.go]) *)

(** [applyObservedSpecChanges], internal/k8s/observed_spec_changes.go:87-93 *)
Definition spec_scope (obj : object) : object :=
  let scoped : object := {[ "apiVersion" := JStr (GetAPIVersion obj); "kind" := JStr (GetKind obj);
    "metadata" := JObj {[ "name" := JStr (GetName obj); "namespace" := JStr (GetNamespace obj) ]} ]} in
  match obj !! "spec" with Some spec => <["spec" := spec]> scoped | None => scoped end.

(** [applyObservedSpecChanges], internal/k8s/observed_spec_changes.go *)
Definition applyObservedSpecChanges (converter : option (type_converter typed)) (before after desired : option object) :
    result error object :=
  match before, after, desired with
  | Some before, Some after, Some desired =>
      match intentDefaultsObjects converter [Some (spec_scope before); Some (spec_scope after); Some (spec_scope desired)] with
      | Err e => Err (wrap_error "validate pause adoption specs" e)
      | Ok objects =>
          match objects, converter with
          | [b; a; d], Some converter =>
              match Compare b a with
              | Err e => Err (wrap_error "compare pause-time and current actual specs" e)
              | Ok change =>
                  let patch := ExtractItems a (Leaves (Union (c_added change) (c_modified change))) in
                  match Merge (RemoveItems d (c_removed change)) patch with
                  | Err e => Err (wrap_error "apply observed spec changes" e)
                  | Ok merged =>
                      match TypedToObject converter merged with
                      | Err e => Err (wrap_error "decode adopted spec" e)
                      | Ok None => Err (new_error "schema converter returned unsupported adopted resource")
                      | Ok (Some result) =>
                          let output := delete "spec" desired in
                          Ok (match result !! "spec" with Some spec => <["spec" := spec]> output | None => output end)
                      end
                  end
              end
          | _, _ => Err (new_error "")
          end
      end
  | _, _, _ => Err (new_error "pause adoption requires before, after and desired objects")
  end.
End IntentMerge.

(** ** What the schema library documents

    [at_path t p] is the value at a path of a typed value.  A path is terminal
    when nothing lies below it: a scalar, an atomic container or nothing.  The
    key fields of list items are extracted along with anything below them. *)
Class TypedView (typed : Type) := at_path : typed → path → option json.

Definition terminal `{TypedView typed} (t : typed) (p : path) : Prop :=
  ∀ q, p `prefix_of` q → q ≠ p → at_path t q = None.
Definition key_field (p : path) : Prop := ∃ q keys name, p = q ++ [Key keys; FieldName name] ∧ name ∈ keys.*1.
Definition overlapping (p q : path) : Prop := p `prefix_of` q ∨ q `prefix_of` p.

Class TypedLaws (typed : Type) `{FieldPathLib, !TypedLib typed, !TypedView typed} := {
  compare_removed (a b : typed) c p : Compare a b = Ok c → member p (c_removed c) = true →
    is_Some (at_path a p) ∧ at_path b p = None;
  compare_modified (a b : typed) c p : Compare a b = Ok c → member p (c_modified c) = true →
    is_Some (at_path a p) ∧ is_Some (at_path b p) ∧ at_path a p ≠ at_path b p;
  compare_added (a b : typed) c p : Compare a b = Ok c → member p (c_added c) = true →
    at_path a p = None ∧ is_Some (at_path b p);

  extract_member (t : typed) s p : member p s = true → terminal t p → at_path (ExtractItems t s) p = at_path t p;
  extract_present (t : typed) s p : is_Some (at_path (ExtractItems t s) p) →
    is_Some (at_path t p) ∧ (key_field p ∨ ∃ q, member q s = true ∧ overlapping p q);
  extract_ends (t : typed) s p : (∀ q, member q s = true → is_Some (at_path t q)) →
    is_Some (at_path (ExtractItems t s) p) → terminal (ExtractItems t s) p →
    key_field p ∨ ∃ q, member q s = true ∧ q `prefix_of` p;

  merge_replaced (a b m : typed) p q : Merge a b = Ok m → q `prefix_of` p → is_Some (at_path b q) → terminal b q →
    at_path m p = at_path b p;
  merge_kept (a b m : typed) p : Merge a b = Ok m →
    (∀ q, q `prefix_of` p → is_Some (at_path b q) → ¬ terminal b q) → at_path b p = None →
    at_path m p = at_path a p;
  merge_absent (a b m : typed) p : Merge a b = Ok m → at_path a p = None → at_path b p = None → at_path m p = None;

  remove_member (t : typed) s p q : member q s = true → q `prefix_of` p → at_path (RemoveItems t s) p = None;
  remove_other (t : typed) s p : (∀ q, member q s = true → ¬ q `prefix_of` p) → terminal t p →
    at_path (RemoveItems t s) p = at_path t p;
}.

(** ** Sets built by iteration *)

Section Sets.
Context `{FieldPathLib} {typed : Type} `{!TypedLib typed} (decimal : Z → string).

Lemma iterate_not_nil s p : p ∈ Iterate s → p ≠ [].
Proof. by intros Hp%iterate_spec ->. Qed.

Lemma member_new_set p : member p NewSet = false.
Proof. apply Enumerated.member_new. Qed.

(** Inserting the paths of a list that pass a test. *)
Lemma member_insert_if (f : path → bool) l s q :
  Forall (.≠ []) l →
  member q (foldl (λ acc p, if f p then Insert p acc else acc) s l) = true ↔
  member q s = true ∨ q ∈ l ∧ f q = true.
Proof.
  intros Hl. revert s. induction Hl as [|p l Hp _ IH]; intros s; simpl.
  - pose proof (not_elem_of_nil q). naive_solver.
  - rewrite IH, elem_of_cons. destruct (f p) eqn:Hf.
    + rewrite insert_spec, orb_true_iff, bool_decide_eq_true by done. naive_solver.
    + naive_solver congruence.
Qed.

Lemma member_insert_iterate (f : path → bool) s q :
  member q (foldl (λ acc p, if f p then Insert p acc else acc) NewSet (Iterate s)) = true ↔
  member q s = true ∧ f q = true.
Proof.
  rewrite member_insert_if, member_new_set, iterate_spec; [naive_solver|].
  apply list.Forall_forall, iterate_not_nil.
Qed.

(** Which removals are kept back. *)
Definition kept_back (liveFields externalChanges : fset) (protected : option fset) (blockedItems : fset) (p : path) : bool :=
  intentPathsOverlap (Some blockedItems) p || intentPathsOverlap (Some externalChanges) p || intentPathsOverlap protected p.

Lemma split_removals_eq live ext prot blocked removed :
  split_removals live ext prot blocked removed =
  (foldl (λ acc p, if intentContainsPath (Some live) p && negb (kept_back live ext prot blocked p) then Insert p acc else acc)
     NewSet (Iterate removed),
   foldl (λ acc p, if intentContainsPath (Some live) p && kept_back live ext prot blocked p then Insert p acc else acc)
     NewSet (Iterate removed)).
Proof.
  unfold split_removals. generalize NewSet at 1 3 as s. generalize NewSet as t.
  induction (Iterate removed) as [|p l IH]; intros t s; [done|]. cbn [foldl].
  rewrite <- IH. unfold kept_back. destruct (intentContainsPath (Some live) p); [|done].
  by destruct (intentPathsOverlap (Some blocked) p || intentPathsOverlap (Some ext) p || intentPathsOverlap prot p).
Qed.

(** Which writes are blocked: both sides changed an atomic container and disagree. *)
Definition atomic_conflict (d : typed) (live ext still : fset) (p : path) : bool :=
  intentContainsPath (Some live) p && intentPathsOverlap (Some ext) p && intentPathsOverlap (Some still) p &&
  match intentAtomicContainerAt decimal d p with Ok true => true | _ => false end.

Lemma block_writes_spec d live ext still write retained blocked retained' q :
  block_writes decimal d live ext still write retained = (None, blocked, retained') →
  (member q blocked = true ↔ member q write = true ∧ atomic_conflict d live ext still q = true) ∧
  (member q retained' = true ↔ member q retained = true ∨ member q blocked = true).
Proof.
  intros Hb.
  assert (Hfold : ∀ l s r s' r' e,
    foldl (λ '(schemaErr, blockedWrites, retained) p,
      if match schemaErr with Some _ => true | None => false end ||
         negb (intentContainsPath (Some live) p) || negb (intentPathsOverlap (Some ext) p) ||
         negb (intentPathsOverlap (Some still) p)
      then (schemaErr, blockedWrites, retained)
      else match intentAtomicContainerAt decimal d p with
           | Err e => (Some e, blockedWrites, retained)
           | Ok true => (None, Insert p blockedWrites, Insert p retained)
           | Ok false => (None, blockedWrites, retained)
           end) (e, s, r) l = (None, s', r') →
    s' = foldl (λ acc p, if atomic_conflict d live ext still p then Insert p acc else acc) s l ∧
    r' = foldl (λ acc p, if atomic_conflict d live ext still p then Insert p acc else acc) r l).
  { induction l as [|p l IH]; intros s r s' r' e Hl; simpl in Hl |- *; [by simplify_eq|].
    destruct e as [e|].
    { exfalso. simpl in Hl. clear IH. revert Hl. induction l as [|p' l IHl]; simpl; [done|]. apply IHl. }
    unfold atomic_conflict at 2 4. destruct (intentContainsPath (Some live) p); [|by apply IH in Hl].
    destruct (intentPathsOverlap (Some ext) p); [|by apply IH in Hl].
    destruct (intentPathsOverlap (Some still) p); [|by apply IH in Hl].
    simpl in Hl |- *. destruct (intentAtomicContainerAt decimal d p) as [[]|]; by apply IH in Hl. }
  apply Hfold in Hb as [-> ->]. rewrite !member_insert_if, member_new_set, iterate_spec
    by (apply list.Forall_forall, iterate_not_nil). naive_solver.
Qed.
End Sets.

(** ** Reporting *)

Section Reports.
Context `{FieldPathLib} (decimal : Z → string).

Lemma unique_sorted_elem x l : x ∈ unique_sorted l ↔ x ∈ l.
Proof.
  induction l as [|y [|z l] IH]; [done..|]. cbn [unique_sorted].
  destruct (String.eqb_spec y z) as [<-|Hne]; rewrite ?elem_of_cons, IH, ?elem_of_cons; tauto.
Qed.

(** A retained path is reported, or a retained path above it is. *)
Lemma retained_reported retained p : member p retained = true →
  ∃ q, q `prefix_of` p ∧ q ≠ [] ∧ intentSafePath decimal q ∈ preserved_paths decimal retained.
Proof.
  induction p as [p IH] using (well_founded_induction (well_founded_ltof _ length)). intros Hp.
  destruct (decide (Forall (λ i, Has (take i p) retained = false) (seq 1 (length p - 1)))) as [Hf|Hf].
  - exists p. split_and!; [done|by intros ->|]. unfold preserved_paths.
    rewrite unique_sorted_elem, merge_sort_Permutation. apply list_elem_of_fmap_2.
    apply list_elem_of_filter. split; [done|]. by apply iterate_spec.
  - apply not_Forall_Exists, list.Exists_exists in Hf as (i & Hi & Hhas); [|apply _].
    apply elem_of_seq in Hi. simpl in Hhas. rewrite has_spec in Hhas. apply not_false_is_true in Hhas.
    destruct (IH (take i p)) as (q & Hq & Hne & Hrep); [|done|].
    { unfold ltof. rewrite length_take. lia. }
    exists q. split_and!; [|done..]. etrans; [done|]. apply prefix_take.
Qed.
End Reports.

(** ** The merge, path by path *)

Lemma overlapping_above p q r : q `prefix_of` p → overlapping p r → overlapping q r.
Proof.
  intros Hqp [Hpr|Hrp]; [left; by etrans|]. destruct (prefix_weak_total q r p); [done..|by left|by right].
Qed.

(** A value patched with items extracted from another. *)
Section Patches.
Context `{FieldPathLib} {typed : Type} `{!TypedLib typed, !TypedView typed, !TypedLaws typed}.
Context (a d m : typed) (items : fset) (p : path).
Hypothesis Hitems : ∀ q, member q items = true → is_Some (at_path d q).
Hypothesis Hm : Merge a (ExtractItems d items) = Ok m.

Lemma patch_wins : member p items = true → terminal d p → at_path m p = at_path d p.
Proof.
  intros Hp Hd. rewrite (merge_replaced _ _ _ p p Hm), extract_member; [done..| |].
  - rewrite extract_member by done. by apply Hitems.
  - intros q Hq Hne. destruct (at_path (ExtractItems d items) q) eqn:E; [|done].
    destruct (extract_present d _ q (mk_is_Some _ _ E)) as [[v Hv] _]. by rewrite Hd in Hv.
Qed.

Hypothesis Hkeys : ∀ q, q `prefix_of` p → ¬ key_field q.

(** Nothing is patched at or above the path, and the patch has nothing there. *)
Lemma patch_kept : (∀ q, member q items = true → ¬ q `prefix_of` p) → at_path (ExtractItems d items) p = None →
  at_path m p = at_path a p.
Proof.
  intros Hno Hp. apply (merge_kept _ _ _ p Hm); [|done].
  intros q Hqp Hsome Hterm. apply extract_ends in Hterm as [Hkf|(r & Hr & Hrq)]; [by eapply Hkeys| |..]; [|done..].
  eapply Hno; [exact Hr|by etrans].
Qed.

Lemma patch_untouched : (∀ q, member q items = true → ¬ overlapping p q) → at_path m p = at_path a p.
Proof.
  intros Hno. apply patch_kept; [intros q Hq Hqp; by apply (Hno q Hq); right|].
  destruct (at_path (ExtractItems d items) p) eqn:E; [|done].
  destruct (extract_present d _ p (mk_is_Some _ _ E)) as [_ [Hkf|(q & Hq & Hpq)]]; [by destruct (Hkeys p)|].
  by destruct (Hno q).
Qed.
End Patches.

Section ThreeWay.
Context `{FieldPathLib} {typed : Type} `{!TypedLib typed, !TypedView typed, !TypedLaws typed} (decimal : Z → string).
Implicit Types (b l d m : typed) (p q r : path).

Definition changed (c : comparison) (p : path) : Prop :=
  member p (c_added c) = true ∨ member p (c_modified c) = true ∨ member p (c_removed c) = true.
Definition written (c : comparison) (p : path) : Prop :=
  member p (c_added c) = true ∨ member p (c_modified c) = true.

(** Someone else changed something at, above or below the path, or owns it. *)
Definition guarded (drift : comparison) (protected : option fset) (p : path) : Prop :=
  (∃ r, changed drift r ∧ overlapping p r) ∨ (∃ s r, protected = Some s ∧ member r s = true ∧ overlapping p r).

(** The report names the path or one above it. *)
Definition told (reported : list string) (p : path) : Prop :=
  ∃ q, q `prefix_of` p ∧ q ≠ [] ∧ intentSafePath decimal q ∈ reported.

Lemma told_above reported p q : q `prefix_of` p → told reported q → told reported p.
Proof. intros Hq (r & Hr & ? & ?). exists r. split_and!; [by etrans|done..]. Qed.

Lemma overlap_changed c p :
  intentPathsOverlap (Some (Union (Union (c_added c) (c_modified c)) (c_removed c))) p = true ↔
  ∃ r, changed c r ∧ overlapping p r.
Proof.
  rewrite overlap_spec. unfold changed, overlapping. apply exist_proper. intros r.
  rewrite !union_spec, !orb_true_iff. tauto.
Qed.

Lemma overlap_protected (s : option fset) p :
  intentPathsOverlap s p = true ↔ ∃ s' r, s = Some s' ∧ member r s' = true ∧ overlapping p r.
Proof.
  destruct s as [s|]; [|split; [done|naive_solver]]. rewrite overlap_spec. unfold overlapping. naive_solver.
Qed.

Context b l d (protected : option fset) m (reported : list string) (change drift : comparison) (fields : fset).
Hypothesis Hmerge : mergeTypedIntent decimal b l d protected = Ok (m, reported).
Hypothesis Hchange : Compare b d = Ok change.
Hypothesis Hdrift : Compare b l = Ok drift.
Hypothesis Hfields : ToFieldSet l = Ok fields.

(** What the merge decided: the removals, the writes held back and the patch. *)
Lemma merge_plan : ∃ remove retained blocked,
  Merge (RemoveItems l remove) (ExtractItems d (RecursiveDifference (Leaves (Union (c_added change) (c_modified change))) blocked)) = Ok m ∧
  reported = preserved_paths decimal retained ∧
  (∀ q, member q remove = true → member q (c_removed change) = true ∧ ¬ guarded drift protected q) ∧
  (∀ q, member q (c_removed change) = true → intentContainsPath (Some fields) q = true →
     member q remove = true ∨ member q retained = true) ∧
  (∀ q, member q (c_removed change) = true → intentContainsPath (Some fields) q = true → guarded drift protected q →
     member q retained = true) ∧
  (∀ q, member q blocked = true → member q retained = true).
Proof.
  unfold mergeTypedIntent in Hmerge. rewrite Hchange, Hdrift, Hfields in Hmerge. simpl in Hmerge.
  rewrite split_removals_eq in Hmerge. cbv zeta in Hmerge.
  set (ext := Union (Union (c_added drift) (c_modified drift)) (c_removed drift)) in *.
  set (items := blocked_items fields ext protected (c_removed change)) in *.
  set (retained := foldl _ _ _) in Hmerge at 2.
  destruct (Compare l d) as [still|]; [|done]. simpl in Hmerge.
  destruct (block_writes _ _ _ _ _ _ _) as [[[e|] blocked] retained'] eqn:Hblock; [done|].
  destruct (Merge _ _) as [m'|] eqn:Hm; [|done]. simpl in Hmerge. injection Hmerge as <- <-.
  eexists _, retained', blocked. split_and!; [exact Hm|done|..].
  - intros q [Hq Hk]%member_insert_iterate. split; [done|]. intros Hg.
    apply andb_true_iff in Hk as [_ Hk%negb_true_iff]. unfold kept_back in Hk.
    apply orb_false_iff in Hk as [[_ Hk]%orb_false_iff Hp].
    destruct Hg as [Hg%overlap_changed|Hg%overlap_protected]; [fold ext in Hg|]; congruence.
  - intros q Hq Hin. destruct (kept_back fields ext protected items q) eqn:Hk.
    + right. apply (block_writes_spec decimal _ _ _ _ _ _ _ _ q Hblock). left. apply member_insert_iterate.
      by rewrite Hin, Hk.
    + left. apply member_insert_iterate. by rewrite Hin, Hk.
  - intros q Hq Hin Hg. apply (block_writes_spec decimal _ _ _ _ _ _ _ _ q Hblock). left. apply member_insert_iterate.
    rewrite Hin. split; [done|]. simpl. unfold kept_back. apply orb_true_iff. rewrite orb_true_iff.
    destruct Hg as [Hg%overlap_changed|Hg%overlap_protected]; auto.
  - intros q Hq. apply (block_writes_spec decimal _ _ _ _ _ _ _ _ q Hblock). by right.
Qed.

Context (p : path).
Hypothesis Hkeys : ∀ q, q `prefix_of` p → ¬ key_field q.

Lemma patch_source blocked q :
  member q (RecursiveDifference (Leaves (Union (c_added change) (c_modified change))) blocked) = true →
  written change q ∧ is_Some (at_path d q).
Proof.
  rewrite difference_spec, leaves_spec, union_spec, orb_true_iff. intros [[Hw _] _]. split; [done|].
  destruct Hw as [Hw|Hw]; [by eapply compare_added in Hw as [_ ?]|by eapply compare_modified in Hw as (_ & ? & _)].
Qed.

(** Where nothing is written at or above, and the patch has nothing, the live
    value or its removal shows. *)
Lemma merged_live remove blocked :
  Merge (RemoveItems l remove) (ExtractItems d (RecursiveDifference (Leaves (Union (c_added change) (c_modified change))) blocked)) = Ok m →
  (∀ q, q `prefix_of` p → ¬ written change q) →
  at_path (ExtractItems d (RecursiveDifference (Leaves (Union (c_added change) (c_modified change))) blocked)) p = None →
  (∀ q, member q remove = true → ¬ q `prefix_of` p) → terminal l p → at_path m p = at_path l p.
Proof.
  intros Hm Hw Hp Hrem Hl. rewrite (patch_kept _ _ _ _ p (λ q Hq, proj2 (patch_source _ q Hq)) Hm Hkeys);
    [by rewrite remove_other| |done]. intros q [Hq _]%patch_source Hqp. by eapply Hw.
Qed.

Lemma merge_untouched :
  terminal l p → (∀ q, changed change q → ¬ overlapping p q) → at_path m p = at_path l p.
Proof.
  intros Hl Hno. destruct merge_plan as (remove & retained & blocked & Hm & _ & Hrem & _).
  eapply merged_live; [exact Hm|..|done].
  - intros q Hq Hw. apply (Hno q); [destruct Hw; unfold changed; tauto|by right].
  - destruct (at_path (ExtractItems _ _) p) eqn:E; [|done].
    destruct (extract_present d _ p (mk_is_Some _ _ E)) as [_ [Hk|(q & Hq & Hpq)]]; [by destruct (Hkeys p)|].
    apply patch_source in Hq as [Hq _]. exfalso. apply (Hno q); [destruct Hq; unfold changed; tauto|done].
  - intros q Hq Hqp. apply Hrem in Hq as [Hq _]. apply (Hno q); [unfold changed; tauto|by right].
Qed.

Lemma merge_wrote :
  terminal d p → member p (Leaves (Union (c_added change) (c_modified change))) = true →
  at_path m p = at_path d p ∨ told reported p.
Proof.
  intros Hd Hp. destruct merge_plan as (remove & retained & blocked & Hm & -> & _ & _ & _ & Hb).
  destruct (decide (Exists (λ q, q `prefix_of` p) (Iterate blocked))) as [He|He].
  - right. apply list.Exists_exists in He as (q & Hq%iterate_spec & Hqp).
    eapply told_above; [exact Hqp|]. by apply retained_reported, Hb.
  - left. assert (Hs : member p (RecursiveDifference (Leaves (Union (c_added change) (c_modified change))) blocked) = true).
    { apply difference_spec. split; [done|]. intros q Hq Hqp. apply He, list.Exists_exists. exists q.
      split; [by apply iterate_spec|done]. }
    by apply (patch_wins _ _ _ _ p (λ q Hq, proj2 (patch_source _ q Hq)) Hm).
Qed.

Lemma merge_removed :
  member p (c_removed change) = true → intentContainsPath (Some fields) p = true →
  at_path m p = None ∨ told reported p.
Proof.
  intros Hp Hin. destruct merge_plan as (remove & retained & blocked & Hm & -> & _ & Hsplit & _ & _).
  destruct (Hsplit p Hp Hin) as [Hr|Hr]; [left|right; by apply retained_reported].
  apply (merge_absent _ _ _ p Hm); [by eapply remove_member|].
  destruct (at_path (ExtractItems _ _) p) eqn:E; [|done].
  destruct (extract_present d _ p (mk_is_Some _ _ E)) as [[v Hv] _].
  by destruct (compare_removed _ _ _ p Hchange Hp) as [_ ?]; simplify_eq.
Qed.

Lemma merge_guarded :
  member p (c_removed change) = true → intentContainsPath (Some fields) p = true → guarded drift protected p →
  told reported p ∧
  (terminal l p → (∀ q, q `prefix_of` p → ¬ written change q) → at_path m p = at_path l p).
Proof.
  intros Hp Hin Hg. destruct merge_plan as (remove & retained & blocked & Hm & -> & Hrem & _ & Hret & _).
  split; [by apply retained_reported, Hret|]. intros Hl Hw. eapply merged_live; [exact Hm|done|..|done].
  - destruct (at_path (ExtractItems _ _) p) eqn:E; [|done].
    destruct (extract_present d _ p (mk_is_Some _ _ E)) as [[v Hv] _].
    by destruct (compare_removed _ _ _ p Hchange Hp) as [_ ?]; simplify_eq.
  - intros q Hq Hqp. apply Hrem in Hq as [_ Hng]. apply Hng. destruct Hg as [(r & Hr & Hpr)|(s & r & Hs & Hr & Hpr)].
    + left. exists r. split; [done|by eapply overlapping_above].
    + right. exists s, r. split_and!; [done..|by eapply overlapping_above].
Qed.
End ThreeWay.

(** ** Captured defaults *)

Section Defaults.
Context `{FieldPathLib} {typed : Type} `{!TypedLib typed, !TypedView typed, !TypedLaws typed} (decimal : Z → string).

Lemma items_declared_spec (raw : fset) p : items_declared raw p = true →
  (∃ i, i < length p ∧ ends_in_key (take (S i) p) = true) ∧
  (∀ i, i < length p → ends_in_key (take (S i) p) = true → ∃ q, member q raw = true ∧ take (S i) p `prefix_of` q).
Proof.
  unfold items_declared. set (items := filter _ _). intros [Hne Hall]%andb_true_iff.
  assert (Hin : ∀ i, i ∈ items ↔ i < length p ∧ ends_in_key (take (S i) p) = true).
  { intros i. unfold items. rewrite list_elem_of_filter, elem_of_seq. naive_solver lia. }
  split.
  - apply negb_true_iff, bool_decide_eq_false in Hne. destruct items as [|i items]; [done|].
    exists i. apply Hin. left.
  - intros i Hi Hk. rewrite forallb_forall in Hall. apply contains_spec, Hall, list_elem_of_In, Hin. done.
Qed.

(** What may be taken over as a default. *)
Definition declared_default (effectiveDesired : typed) (rawFields effectiveFields : fset) (p : path) : Prop :=
  intentContainsPath (Some effectiveFields) p = false ∧
  intentConcreteParent effectiveDesired (take (length p - 1) p) = true ∧
  ∀ i, i < length p → ends_in_key (take (S i) p) = true → ∃ q, member q rawFields = true ∧ take (S i) p `prefix_of` q.

Lemma candidate_spec effective (rawFields effectiveFields : fset) p :
  default_candidate effective rawFields effectiveFields p = true →
  declared_default effective rawFields effectiveFields p.
Proof.
  unfold default_candidate. rewrite !andb_true_iff, negb_true_iff. intros [[[[_ ?] _] ?] Hitems].
  split_and!; [done..|]. by apply items_declared_spec.
Qed.

Lemma supplement_plan (converter : type_converter typed) source raw effective original candidates result rawFields fields :
  supplementIntentDefaults converter source raw effective original candidates = Ok result →
  ToFieldSet raw = Ok rawFields → ToFieldSet effective = Ok fields →
  result = original ∨ ∃ include completed,
    Merge effective (ExtractItems source include) = Ok completed ∧
    decode_merged converter completed "cannot decode resource intent defaults"
      "schema converter returned unsupported defaulted intent" original = Ok result ∧
    ∀ q, member q include = true → member q candidates = true ∧ declared_default effective rawFields fields q.
Proof.
  intros Hs Hr He. unfold supplementIntentDefaults in Hs. rewrite Hr, He in Hs.
  destruct (Empty _); [left; congruence|]. right.
  destruct (Merge _ _) as [completed|] eqn:Hm; [|done]. eexists _, completed. split_and!; [exact Hm|done|].
  intros q [Hq Hc]%member_insert_iterate. split; [done|by apply candidate_spec].
Qed.
End Defaults.

(** ** Theorems *)

(** C7: The three-way merge, path by path.  Where the intent did not change, the
    live value stays.  What the intent adds or changes is written, and what it
    drops is removed, or the report names the path or one above it.  A dropped
    path that somebody else changed or owns keeps its live value and is
    reported, unless the intent writes above it. *)
Theorem intent_three_way `{FieldPathLib} {typed : Type} `{!TypedLib typed, !TypedView typed, !TypedLaws typed}
    (decimal : Z → string) (b l d m : typed) protected reported change drift fields p :
  mergeTypedIntent decimal b l d protected = Ok (m, reported) →
  Compare b d = Ok change → Compare b l = Ok drift → ToFieldSet l = Ok fields →
  (∀ q, q `prefix_of` p → ¬ key_field q) →
  (terminal l p → (∀ q, changed change q → ¬ overlapping p q) → at_path m p = at_path l p) ∧
  (terminal d p → member p (Leaves (Union (c_added change) (c_modified change))) = true →
     at_path m p = at_path d p ∨ told decimal reported p) ∧
  (member p (c_removed change) = true → intentContainsPath (Some fields) p = true →
     at_path m p = None ∨ told decimal reported p) ∧
  (member p (c_removed change) = true → intentContainsPath (Some fields) p = true → guarded drift protected p →
     told decimal reported p ∧
     (terminal l p → (∀ q, q `prefix_of` p → ¬ written change q) → at_path m p = at_path l p)).
Proof.
  intros Hm Hc Hd Hf Hk. split_and!.
  - intros Hl Hno. by eapply (merge_untouched decimal b l d).
  - by eapply (merge_wrote decimal b l d).
  - by eapply (merge_removed decimal b l d).
  - by eapply (merge_guarded decimal b l d).
Qed.

(** Defaults taken over from the API server: every one lies where the desired
    object has a value to put it in, under list items that the rendered intent
    declares, and was not already set; a field that the desired object sets
    keeps its value. *)
Theorem defaults_declared_only `{FieldPathLib} {typed : Type} `{!TypedLib typed, !TypedView typed, !TypedLaws typed}
    (converter : type_converter typed) (source submitted raw effective : typed) original change result rawFields fields :
  Compare submitted source = Ok change → ToFieldSet raw = Ok rawFields → ToFieldSet effective = Ok fields →
  supplementIntentDefaults converter source raw effective original (Leaves (c_added change)) = Ok result →
  result = original ∨ ∃ include completed,
    decode_merged converter completed "cannot decode resource intent defaults"
      "schema converter returned unsupported defaulted intent" original = Ok result ∧
    (∀ q, member q include = true →
       at_path submitted q = None ∧ is_Some (at_path source q) ∧ declared_default effective rawFields fields q) ∧
    (∀ p, (∀ q, q `prefix_of` p → ¬ key_field q) → intentContainsPath (Some fields) p = true →
       (∀ q, member q include = true → ¬ p `prefix_of` q) → at_path completed p = at_path effective p).
Proof.
  intros Hc Hr He Hs. destruct (supplement_plan _ _ _ _ _ _ _ _ _ Hs Hr He) as [?|(include & completed & Hm & Hd & Hq)];
    [by left|right]. exists include, completed.
  assert (Hadd : ∀ q, member q include = true →
    at_path submitted q = None ∧ is_Some (at_path source q) ∧ declared_default effective rawFields fields q).
  { intros q [Hl Hdecl]%Hq. apply leaves_spec in Hl as [Hl _].
    destruct (compare_added _ _ _ q Hc Hl) as [? ?]. done. }
  split_and!; [done..|]. intros p Hk Hin Hup.
  assert (Hno : ∀ q, member q include = true → ¬ q `prefix_of` p).
  { intros q Hinc Hqp. apply Hadd in Hinc as (_ & _ & Hnot & _). apply contains_spec in Hin as (r & Hr' & Hpr).
    assert (intentContainsPath (Some fields) q = true); [|congruence]. apply contains_spec. exists r. split; [done|by etrans]. }
  apply (patch_untouched _ _ _ _ p (λ q Hq, proj1 (proj2 (Hadd q Hq))) Hm Hk).
  intros q Hinc [Hpq|Hqp]; [by apply (Hup q)|by apply (Hno q)].
Qed.

(** Adopting what changed during a pause: only the spec of the desired object
    changes; what was added or changed between the two observed specs is taken
    over, what disappeared is removed, and everything else stays as desired,
    the values that were already there before the pause included. *)
Theorem observed_changes_adopted `{FieldPathLib} {typed : Type} `{!TypedLib typed, !TypedView typed, !TypedLaws typed}
    `{UnstructuredApi} (decimal : Z → string) (converter : type_converter typed) before after desired output :
  applyObservedSpecChanges decimal (Some converter) (Some before) (Some after) (Some desired) = Ok output →
  (∀ key, key ≠ "spec" → output !! key = desired !! key) ∧
  ∃ b a d change merged result,
    intentDefaultsObjects decimal (Some converter)
      [Some (spec_scope before); Some (spec_scope after); Some (spec_scope desired)] = Ok [b; a; d] ∧
    Compare b a = Ok change ∧
    TypedToObject converter merged = Ok (Some result) ∧ output !! "spec" = result !! "spec" ∧
    ∀ p, (∀ q, q `prefix_of` p → ¬ key_field q) →
      (terminal a p → member p (Leaves (Union (c_added change) (c_modified change))) = true →
         at_path merged p = at_path a p) ∧
      (member p (c_removed change) = true → at_path merged p = None) ∧
      (terminal d p → (∀ q, changed change q → ¬ overlapping p q) → at_path merged p = at_path d p).
Proof.
  unfold applyObservedSpecChanges. destruct (intentDefaultsObjects _ _ _) as [[|b [|a [|d [|]]]]|] eqn:Hobj; try done.
  destruct (Compare b a) as [change|] eqn:Hc; [|done]. destruct (Merge _ _) as [merged|] eqn:Hm; [|done].
  destruct (TypedToObject converter merged) as [[result|]|] eqn:Ht; intros [= <-]. split.
  { intros key Hkey. destruct (result !! "spec"); by rewrite ?lookup_insert_ne, lookup_delete_ne. }
  exists b, a, d, change, merged, result. split_and!; [done..| |].
  { destruct (result !! "spec"); [by rewrite lookup_insert_eq|by rewrite lookup_delete_eq]. }
  set (items := Leaves (Union (c_added change) (c_modified change))) in *.
  assert (Hw : ∀ q, member q items = true → written change q).
  { intros q [Hq _]%leaves_spec. by rewrite union_spec, orb_true_iff in Hq. }
  assert (Hitems : ∀ q, member q items = true → is_Some (at_path a q)).
  { intros q [Hq|Hq]%Hw; [by eapply compare_added in Hq as [_ ?]|by eapply compare_modified in Hq as (_ & ? & _)]. }
  intros p Hk. split_and!.
  - intros Ha Hp. by apply (patch_wins _ _ _ _ p Hitems Hm).
  - intros Hp. apply (merge_absent _ _ _ p Hm); [by eapply remove_member|].
    destruct (at_path (ExtractItems _ _) p) eqn:E; [|done].
    destruct (extract_present _ _ p (mk_is_Some _ _ E)) as [[v Hv] _].
    by destruct (compare_removed _ _ _ p Hc Hp) as [_ ?]; simplify_eq.
  - intros Hd Hno. rewrite (patch_untouched _ _ _ _ p Hitems Hm Hk), remove_other; [done| |done|].
    + intros q Hq Hqp. apply (Hno q); [unfold changed; tauto|by right].
    + intros q Hq. apply Hno. destruct (Hw q Hq); unfold changed; tauto.
Qed.

(** ** An implementation of the library: values as maps from paths

    It has no schema of its own (every container is granular); it shows that
    the laws can be met and runs the examples. *)
Module PathTyped.
#[export] Existing Instance Enumerated.lib.

Abbreviation typed := (gmap path json).

Definition above (s : list path) (p : path) : Prop := Exists (λ q, q `prefix_of` p) s.
#[local] Instance above_dec s p : Decision (above s p).
Proof. unfold above. apply _. Defined.

Definition ends (t : gmap path json) (q : path) : Prop := map_Forall (λ r _, q `prefix_of` r → r = q) t.
#[local] Instance ends_dec t q : Decision (ends t q).
Proof. unfold ends. apply _. Defined.

(** The keys with a property, as a set; and the keys at which a value ends. *)
Definition keys_with (P : path → Prop) `{!∀ p, Decision (P p)} (t : gmap path json) : fset :=
  Enumerated.of_list (filter (λ p, p ≠ [] ∧ P p) (map_to_list t).*1).
Definition final_keys (t : gmap path json) : list path := filter (ends t) (map_to_list t).*1.

Definition restrict (P : path → Prop) `{!∀ p, Decision (P p)} (t : gmap path json) : gmap path json :=
  filter (λ kv, P kv.1) t.

Definition any_ref : type_ref := TypeRef None (Atom None None None).
Definition any_atom : atom :=
  Atom None (Some (ListType any_ref "associative")) (Some (MapType [] any_ref "separable")).

#[export] Instance lib : TypedLib typed := {|
  AsValue _ := Some (JObj {[ "items" := JArr [JObj {[ "name" := JStr "x" ]}] ]});
  TypeRefOf _ := any_ref;
  Resolve _ _ := Some any_atom;
  FindField _ _ := None;
  Compare a b := Ok (Comparison
    (keys_with (λ p, b !! p = None) a)
    (keys_with (λ p, is_Some (b !! p) ∧ a !! p ≠ b !! p) a)
    (keys_with (λ p, a !! p = None) b));
  ToFieldSet t := Ok (keys_with (λ _, True) t);
  Merge a b := Ok (b ∪ restrict (λ p, ¬ above (final_keys b) p) a);
  RemoveItems t s := restrict (λ p, ¬ above (Enumerated.paths s) p) t;
  ExtractItems t s := restrict (above (Enumerated.paths s)) t;
|}.
#[export] Instance view : TypedView typed := λ t p, t !! p.

Lemma keys_with_spec (P : path → Prop) `{!∀ p, Decision (P p)} (t : gmap path json) p :
  member p (keys_with P t) = true → is_Some (t !! p) ∧ P p.
Proof.
  unfold keys_with, Enumerated.of_list. rewrite Enumerated.member_foldr, Enumerated.member_new, orb_false_r, bool_decide_eq_true.
  - intros [[_ HP] Hp]%list_elem_of_filter. split; [|done].
    apply list_elem_of_fmap in Hp as ([p' v] & -> & Hp%elem_of_map_to_list). by exists v.
  - apply list.Forall_forall. by intros q [[Hq _] _]%list_elem_of_filter.
Qed.

Lemma above_paths s p : above (Enumerated.paths s) p ↔ ∃ q, member q s = true ∧ q `prefix_of` p.
Proof. unfold above. rewrite list.Exists_exists. by setoid_rewrite Enumerated.elem_of_paths_member. Qed.

Lemma ends_terminal (t : typed) q : ends t q ↔ terminal t q.
Proof.
  unfold ends, terminal, map_Forall, at_path, view. split.
  - intros Ht r Hq Hne. destruct (t !! r) eqn:E; [|done]. by destruct (Hne (Ht r _ E Hq)).
  - intros Ht r v Hr Hq. destruct (decide (r = q)) as [|Hne]; [done|]. by rewrite Ht in Hr.
Qed.

Lemma above_final t p : above (final_keys t) p ↔ ∃ q, q `prefix_of` p ∧ is_Some (t !! q) ∧ terminal (t : typed) q.
Proof.
  unfold above, final_keys. rewrite list.Exists_exists. apply exist_proper. intros q.
  rewrite list_elem_of_filter, ends_terminal, list_elem_of_fmap. split.
  - intros [[Ht ([q' v] & -> & Hq%elem_of_map_to_list)] Hp]. split_and!; [done|by exists v|done].
  - intros (Hp & [v Hv] & Ht). split; [split; [done|]|done]. exists (q, v). by rewrite elem_of_map_to_list.
Qed.

Lemma filtered (P : path → Prop) `{!∀ p, Decision (P p)} (t : gmap path json) p :
  restrict P t !! p = if decide (P p) then t !! p else None.
Proof.
  unfold restrict. destruct (decide (P p)) as [HP|HP].
  - destruct (t !! p) as [v|] eqn:E; [by apply map_lookup_filter_Some|]. apply map_lookup_filter_None. by left.
  - apply map_lookup_filter_None. right. naive_solver.
Qed.

#[export] Instance laws : TypedLaws typed.
Proof.
  split; unfold at_path, view; cbn -[keys_with final_keys restrict].
  - intros a b c p [= <-] [? ?]%keys_with_spec. done.
  - intros a b c p [= <-] [? [? ?]]%keys_with_spec. done.
  - intros a b c p [= <-] [? ?]%keys_with_spec. done.
  - intros t s p Hp _. rewrite filtered, decide_True; [done|]. apply above_paths. eauto.
  - intros t s p. rewrite filtered. case_decide as Ha; [|by intros [? ?]]. intros Hs. split; [done|]. right.
    apply above_paths in Ha as (q & ? & ?). exists q. split; [done|by right].
  - intros t s p _. rewrite filtered. case_decide as Ha; [|by intros [? ?]]. intros _ _. right. by apply above_paths.
  - intros a b m p q [= <-] Hq Hsome Ht. destruct (b !! p) eqn:E; [by apply lookup_union_Some_l|].
    rewrite lookup_union_r, filtered, decide_False by (done || (intros []; apply above_final; eauto)). done.
  - intros a b m p [= <-] Hno E. rewrite lookup_union_r, filtered, decide_True; [done| |done].
    intros (q & ? & ? & ?)%above_final. by eapply Hno.
  - intros a b m p [= <-] Ea Eb. rewrite lookup_union_r, filtered by done. by case_decide.
  - intros t s p q Hq Hqp. rewrite filtered, decide_False; [done|]. intros []. apply above_paths. eauto.
  - intros t s p Hno _. rewrite filtered, decide_True; [done|]. intros (q & Hq & ?)%above_paths. by eapply Hno.
Qed.

Definition nested (obj : object) (key : string) : string :=
  match obj !! "metadata" with
  | Some (JObj meta) => match meta !! key with Some (JStr s) => s | _ => "" end
  | _ => ""
  end.
Definition toplevel (obj : object) (key : string) : string :=
  match obj !! key with Some (JStr s) => s | _ => "" end.
#[export] Instance api : UnstructuredApi := {|
  GroupVersionKind obj := GVK "" (toplevel obj "apiVersion") (toplevel obj "kind");
  GetAPIVersion obj := toplevel obj "apiVersion";
  GetKind obj := toplevel obj "kind";
  GetName obj := nested obj "name";
  GetNamespace obj := nested obj "namespace";
  GetUID obj := nested obj "uid";
|}.

(** Objects are split at their top-level keys only. *)
Definition converter : type_converter typed := {|
  ObjectToTyped obj := Ok (kmap (λ k, [FieldName k]) obj);
  TypedToObject t := Ok (Some (map_fold (λ p v (o : object),
    match p with [FieldName k] => <[k := v]> o | _ => o end) ∅ t));
|}.

Definition field (name : string) : path := [FieldName name].
Definition leafs (l : list (string * string)) : typed := list_to_map ((λ '(k, v), (field k, JStr v)) <$> l).
Definition fields_of (l : list string) : fset := Enumerated.of_list (field <$> l).
End PathTyped.

Section Witnesses.
Import PathTyped.

#[local] Existing Instance ends_dec.

Lemma field_no_key name q : q `prefix_of` field name → ¬ key_field q.
Proof. intros [k Hk] (r & keys & n & -> & _). apply (f_equal length) in Hk. rewrite !length_app in Hk. simpl in Hk. lia. Qed.

(** The intent drops [b] and [c]; somebody changed [b] and added [e]. *)
Lemma intent_three_way_witness :
  let b := leafs [("a", "1"); ("b", "1"); ("c", "1")] in
  let l := leafs [("a", "1"); ("b", "2"); ("c", "1"); ("e", "9")] in
  let m := leafs [("a", "5"); ("b", "2"); ("e", "9")] in
  told (λ _, "") [".b"] (field "b") ∧ m !! field "b" = l !! field "b".
Proof.
  intros b l m.
  destruct (intent_three_way (λ _, "") b l (leafs [("a", "5")]) m None [".b"]
    (Comparison (fields_of ["b"; "c"]) (fields_of ["a"]) NewSet)
    (Comparison NewSet (fields_of ["b"]) (fields_of ["e"]))
    (fields_of ["a"; "b"; "c"; "e"]) (field "b")) as (_ & _ & _ & Hg);
    [reflexivity..|apply field_no_key|].
  destruct Hg as [Htold Hkeep]; [reflexivity..| |].
  - left. exists (field "b"). split; [right; left; reflexivity|by left].
  - split; [exact Htold|]. apply Hkeep.
    + apply ends_terminal. apply (bool_decide_unpack _). exact I.
    + intros q Hq Hw. assert (q = field "a") as ->.
      { destruct Hw as [Hw|Hw]; [by rewrite member_new_set in Hw|]. apply Enumerated.elem_of_paths_member in Hw.
        replace (Enumerated.paths _) with [field "a"] in Hw by (reflexivity). by apply list_elem_of_singleton in Hw. }
      by apply prefix_cons_inv_1 in Hq.
Defined.

(** A default of a declared list item. *)
Definition item_x : path := [FieldName "items"; Key [("name", JStr "x")]].

Lemma defaults_declared_only_witness :
  let submitted : typed := {[ item_x ++ field "name" := JStr "x" ]} in
  let accepted : typed := {[ item_x ++ field "name" := JStr "x"; item_x ++ field "port" := JStr "80" ]} in
  let result : object := ∅ in
  let converter := TypeConverter typed (λ _, Err (new_error "")) (λ _, Ok (Some ∅)) in
  supplementIntentDefaults converter accepted submitted submitted {[ "spec" := JNull ]}
    (Leaves (Enumerated.of_list [item_x ++ field "port"])) = Ok ∅ ∧
  ∃ include completed,
    (∀ q, member q include = true → at_path submitted q = None ∧ is_Some (at_path accepted q) ∧
       declared_default submitted (Enumerated.of_list [item_x ++ field "name"])
         (Enumerated.of_list [item_x ++ field "name"]) q) ∧
    decode_merged converter completed "cannot decode resource intent defaults"
      "schema converter returned unsupported defaulted intent" {[ "spec" := JNull ]} = Ok result.
Proof.
  intros submitted accepted result conv.
  assert (Hs : supplementIntentDefaults conv accepted submitted submitted {[ "spec" := JNull ]}
    (Leaves (Enumerated.of_list [item_x ++ field "port"])) = Ok ∅) by reflexivity.
  split; [exact Hs|].
  destruct (defaults_declared_only conv accepted submitted submitted submitted {[ "spec" := JNull ]}
    (Comparison NewSet NewSet (Enumerated.of_list [item_x ++ field "port"])) ∅
    (Enumerated.of_list [item_x ++ field "name"]) (Enumerated.of_list [item_x ++ field "name"]))
    as [Heq|(include & completed & Hd & Hi & _)]; [reflexivity..|exact Hs| |].
  - by apply (f_equal (lookup "spec")) in Heq.
  - exists include, completed. split; [exact Hi|exact Hd].
Defined.

Lemma observed_changes_adopted_witness :
  let obj (spec label : string) : object :=
    {[ "apiVersion" := JStr "v1"; "kind" := JStr "Redis"; "spec" := JStr spec; "data" := JStr label ]} in
  let output := obj "2" "d" in
  applyObservedSpecChanges (λ _, "") (Some converter) (Some (obj "1" "b")) (Some (obj "2" "a")) (Some (obj "0" "d")) =
    Ok output ∧
  (∀ key, key ≠ "spec" → output !! key = obj "0" "d" !! key).
Proof.
  intros obj output.
  assert (Ha : applyObservedSpecChanges (λ _, "") (Some converter) (Some (obj "1" "b")) (Some (obj "2" "a"))
    (Some (obj "0" "d")) = Ok output) by reflexivity.
  split; [exact Ha|]. exact (proj1 (observed_changes_adopted (λ _, "") converter _ _ _ _ Ha)).
Defined.
End Witnesses.
