(* ===== verification/IntentSchema.v ===== *)
(** * Intent schemas

    The resolver of merge schemas ([intent_schema.go]): the current document of
    the API server is fetched for every lookup, converted when it changed, and
    fingerprinted by the part of its topology that the requested kind reaches. *)
From stdpp Require Import base gmap strings list option sorting.
From Stdlib Require Import ZArith Lia.
From S2P Require Import Prelude Labels Conditions Prog Middleware Json Adoption FieldPath IntentMerge.

(** ** The topology

    [schema.Schema] of structured-merge-diff: named types.  [FindNamedType]
    searches them, and [topology_text] is the YAML and JSON round trip of a
    closure, of which only the SHA-256 is used. *)
Record type_def := TypeDef { td_name : string; td_atom : atom }.

Class SchemaLib := {
  FindNamedType : list type_def → string → option type_def;
  topology_hash : gmap string type_def → result error string;
  find_named types name d : FindNamedType types name = Some d → d ∈ types ∧ td_name d = name;
  find_unique types d : NoDup (td_name <$> types) → d ∈ types → FindNamedType types (td_name d) = Some d;
}.

Definition missing_type (name : string) : error :=
  new_error ("intent merge topology references missing type " +:+ name).

Section Topology.
Context `{SchemaLib} (types : list type_def).

Abbreviation closure := (gmap string type_def).

(** [visitAtom] and [visitRef] of [intentMergeTopologyHash]; [visitNamed] is a
    parameter, because it calls back into them. *)
Section Visit.
Context (visitNamed : string → closure → option (result error closure)).

(** [None] is out of fuel. *)
Definition then_visit (r : option (result error closure)) (f : closure → option (result error closure)) :
    option (result error closure) :=
  match r with Some (Ok c) => f c | _ => r end.

(** [visitAtom], internal/k8s/intent_schema.go:234-255 *)
Fixpoint visitAtom (a : atom) (c : closure) : option (result error closure) :=
  let 'Atom _ l m := a in
  then_visit (match m with Some m => visitMap m c | None => Some (Ok c) end)
    (λ c, match l with Some (ListType t _) => visitRef t c | None => Some (Ok c) end)
with visitMap (m : map_type) (c : closure) : option (result error closure) :=
  let 'MapType fields t _ := m in
  then_visit ((fix go fields c := match fields with
      | [] => Some (Ok c)
      | StructField _ t _ :: fields => then_visit (visitRef t c) (go fields)
      end) fields c) (visitRef t)
with visitRef (t : type_ref) (c : closure) : option (result error closure) :=
  let 'TypeRef name inlined := t in
  match name with Some name => visitNamed name c | None => visitAtom inlined c end.
End Visit.

(** [visitNamed], internal/k8s/intent_schema.go:256-266 *)
Fixpoint visitNamed (fuel : nat) (name : string) (c : closure) : option (result error closure) :=
  match fuel with
  | 0 => None
  | S fuel =>
      match c !! name with
      | Some _ => Some (Ok c)
      | None =>
          match FindNamedType types name with
          | None => Some (Err (missing_type name))
          | Some definition => visitAtom (visitNamed fuel) (td_atom definition) (<[name := definition]> c)
          end
      end
  end.

(** One call for every type, and one that finds its type missing or visited. *)
(** [intentMergeTopologyHash], internal/k8s/intent_schema.go *)
Definition intentMergeTopologyHash (root : string) : option (result error string) :=
  match visitNamed (S (length types)) root ∅ with
  | Some (Ok closure) => Some (topology_hash closure)
  | Some (Err e) => Some (Err e)
  | None => None
  end.
End Topology.

(** ** Sorting the fields *)

(** Collection defaults are dropped. *)
Definition scalar_default (d : option json) : option json :=
  match d with Some (JObj _) | Some (JArr _) => None | _ => d end.

(** The recursion leaves the names alone, so it does not matter that it comes
    before the sort here. *)
(** [sortIntentSchemaFields], internal/k8s/intent_schema.go *)
Fixpoint sortIntentSchemaFields (a : atom) : atom :=
  let 'Atom s l m := a in
  Atom s
    (match l with Some (ListType t r) => Some (ListType (sort_ref t) r) | None => None end)
    (match m with
     | Some (MapType fields t r) => Some (MapType (sort_by f_name (sort_field <$> fields)) (sort_ref t) r)
     | None => None
     end)
with sort_field (f : struct_field) : struct_field :=
  let 'StructField name t d := f in StructField name (sort_ref t) (scalar_default d)
with sort_ref (t : type_ref) : type_ref :=
  let 'TypeRef name inlined := t in TypeRef name (sortIntentSchemaFields inlined).

Definition sort_topology (types : list type_def) : list type_def :=
  (λ d, TypeDef (td_name d) (sortIntentSchemaFields (td_atom d))) <$> types.

(** ** The resolver *)

Definition group_version : Type := string * string.

(** [spec.Schema] and the conversions of kube-openapi: [model] is one schema
    of the document, and [model_kinds] decodes its GVK extension, if it has one. *)
Class OpenApi (model typed : Type) := {
  decode_document : string → result error (gmap string (option model) * gmap string (option model));
  model_kinds : model → option (result error (list gvk));
  models_hash : gmap string (option model) → result error string;
  NewTypeConverter : gmap string (option model) → result error (type_converter typed);
  ToSchemaFromOpenAPI : gmap string (option model) → result error (list type_def);
  models_hash_inj m1 m2 h : models_hash m1 = Ok h → models_hash m2 = Ok h → m1 = m2;
}.

Section Resolver.
Context `{SchemaLib} {model typed : Type} `{!OpenApi model typed}.
(** The order in which Go visits a map. *)
Context (range : gmap string (option model) → list (string * option model)).
Context (range_perm : ∀ m, range m ≡ₚ map_to_list m).

Abbreviation models := (gmap string (option model)).

(** [intentSchemaCacheEntry], internal/k8s/intent_schema.go *)
Record cache_entry := CacheEntry { ce_hash : string; ce_converter : type_converter typed; ce_topology : list type_def }.
Abbreviation cache := (gmap group_version cache_entry).

(** A request to the API server; a section under the resolver's mutex. *)
Inductive rcall : Type → Type :=
  | Fetch (path : string) : rcall (result error string)
  | Locked {R : Type} (f : cache → R * cache) : rcall R.

(** Of the schemas visited so far: how many matches, and the last one. *)
(** [requireIntentSchemaGVK], internal/k8s/intent_schema.go:175-201 *)
Fixpoint require_loop (g : gvk) (ms : list (string * option model)) (matches : nat) (root : string) :
    result error (nat * string) :=
  match ms with
  | [] => Ok (matches, root)
  | (name, None) :: _ => Err (new_error "OpenAPI contains a null schema")
  | (name, Some m) :: ms =>
      match model_kinds m with
      | None => require_loop g ms matches root
      | Some (Err e) => Err (wrap_error "decode intent schema GVK" e)
      | Some (Ok kinds) =>
          let n := length (filter (.= g) kinds) in
          require_loop g ms (matches + n) (if n is 0 then root else name)
      end
  end.

(** [requireIntentSchemaGVK], internal/k8s/intent_schema.go *)
Definition requireIntentSchemaGVK (ms : models) (g : gvk) : result error string :=
  '(matches, root) ← require_loop g (range ms) 0 "";
  if matches =? 1 then Ok root else Err (new_error "expected exactly one OpenAPI model").

(** The hash of the closure; it never runs out of fuel. *)
Definition topology_answer (topology : list type_def) (root : string) : result error string :=
  default (Err (new_error "")) (intentMergeTopologyHash topology root).

(** [Resolve], internal/k8s/intent_schema.go:143-173 *)
Definition convert_locked (gv : group_version) (ms : models) (root hash : string) (c : cache) :
    result error (type_converter typed * string) * cache :=
  let convert :=
    match NewTypeConverter ms with
    | Err e => (Err (wrap_error "convert intent schema" e), c)
    | Ok converter =>
        match ToSchemaFromOpenAPI ms with
        | Err e => (Err (wrap_error "convert intent topology" e), c)
        | Ok topology =>
            let topology := sort_topology topology in
            match topology_answer topology root with
            | Err e => (Err e, c)
            | Ok semantic => (Ok (converter, semantic), <[gv := CacheEntry hash converter topology]> c)
            end
        end
    end in
  match c !! gv with
  | Some cached =>
      if String.eqb (ce_hash cached) hash
      then ((λ semantic, (ce_converter cached, semantic)) <$> topology_answer (ce_topology cached) root, c)
      else convert
  | None => convert
  end.

(** [Resolve], internal/k8s/intent_schema.go:86-115 *)
Definition fetch_document (g : gvk) : prog rcall (result error (string * bool)) :=
  let path := if String.eqb (gvk_group g) "" then "/openapi/v3/api/" +:+ gvk_version g
              else "/openapi/v3/apis/" +:+ gvk_group g +:+ "/" +:+ gvk_version g in
  raw ← call (Fetch path);
  match raw with
  | Ok raw => Ret (Ok (raw, false))
  | Err e =>
      if is_not_found e then
        v3 ← call (Fetch "/openapi/v3");
        match v3 with
        | Ok _ => Ret (Err (Error ServiceUnavailable "OpenAPI v3 schema is not published yet"))
        | Err rootErr =>
            if negb (is_not_found rootErr) then Ret (Err (wrap_error "check OpenAPI v3 availability" rootErr))
            else
              raw ← call (Fetch "/openapi/v2");
              Ret (match raw with Ok raw => Ok (raw, true) | Err e => Err (wrap_error "read intent schema" e) end)
        end
      else Ret (Err (wrap_error "read intent schema" e))
  end.

(** [Resolve], internal/k8s/intent_schema.go *)
Definition Resolve (g : gvk) : prog rcall (result error (type_converter typed * string)) :=
  if String.eqb (gvk_version g) "" || String.eqb (gvk_kind g) ""
  then Ret (Err (new_error "intent schema requires a complete GVK"))
  else
    raw ← fetch_document g;
    match raw with
    | Err e => Ret (Err e)
    | Ok (raw, useV2) =>
        match decode_document raw with
        | Err e => Ret (Err (wrap_error "decode intent schema" e))
        | Ok (schemas, definitions) =>
            let ms := if (useV2 : bool) then definitions else schemas in
            if decide (ms = ∅) then Ret (Err (new_error "OpenAPI schemas missing"))
            else match requireIntentSchemaGVK ms g with
            | Err e => Ret (Err e)
            | Ok root =>
                match models_hash ms with
                | Err e => Ret (Err (wrap_error "hash intent schema" e))
                | Ok hash =>
                    let gv := if (useV2 : bool) then ("", "") else (gvk_group g, gvk_version g) in
                    call (Locked (convert_locked gv ms root hash))
                end
            end
        end
    end.
End Resolver.

(** ** The types an atom refers to, in the order of the visit *)

Fixpoint refs (a : atom) : list string :=
  let 'Atom _ l m := a in
  match m with
  | Some (MapType fields t _) =>
      (fix go fields := match fields with [] => [] | StructField _ t _ :: fields => ref_refs t ++ go fields end) fields
        ++ ref_refs t
  | None => []
  end ++ match l with Some (ListType t _) => ref_refs t | None => [] end
with ref_refs (t : type_ref) : list string :=
  let 'TypeRef name inlined := t in match name with Some name => [name] | None => refs inlined end.

Section Closure.
Context `{SchemaLib}.

(** What is reached from the root through the types that exist. *)
Inductive reaches (types : list type_def) (root : string) : string → Prop :=
  | reach_root : reaches types root root
  | reach_ref name d name' : reaches types root name → FindNamedType types name = Some d → name' ∈ refs (td_atom d) →
      reaches types root name'.

Section Types.
Context (types : list type_def).
Abbreviation closure := (gmap string type_def).

Fixpoint visit_all (V : string → closure → option (result error closure)) (names : list string) (c : closure) :
    option (result error closure) :=
  match names with [] => Some (Ok c) | name :: names => then_visit (V name c) (visit_all V names) end.

Lemma then_visit_assoc r f g : then_visit (then_visit r f) g = then_visit r (λ c, then_visit (f c) g).
Proof. by destruct r as [[|]|]. Qed.

Lemma then_visit_ext r f g : (∀ c, f c = g c) → then_visit r f = then_visit r g.
Proof. intros Hfg. destruct r as [[|]|]; simpl; auto. Qed.

Lemma visit_all_app V l1 l2 c : visit_all V (l1 ++ l2) c = then_visit (visit_all V l1 c) (visit_all V l2).
Proof.
  revert c. induction l1 as [|n l1 IH]; intros c; [done|]. simpl. rewrite then_visit_assoc. by apply then_visit_ext.
Qed.

Lemma visit_all_single V n c : visit_all V [n] c = V n c.
Proof. simpl. by destruct (V n c) as [[]|]. Qed.

Fixpoint visitAtom_refs V (a : atom) {struct a} : ∀ c, visitAtom V a c = visit_all V (refs a) c
with visitRef_refs V (t : type_ref) {struct t} : ∀ c, visitRef V t c = visit_all V (ref_refs t) c.
Proof.
  - destruct a as [s l m]. intros c. cbn [visitAtom refs]. rewrite visit_all_app.
    assert (Hl : ∀ c, match l with Some (ListType t _) => visitRef V t c | None => Some (Ok c) end =
      visit_all V (match l with Some (ListType t _) => ref_refs t | None => [] end) c).
    { destruct l as [[t r]|]; [|done]. intros c'. apply visitRef_refs. }
    rewrite (then_visit_ext _ _ _ Hl). f_equal. clear Hl. destruct m as [[fields t r]|]; [|done].
    cbn [visitMap]. rewrite visit_all_app.
    rewrite (then_visit_ext _ _ _ (visitRef_refs V t)). f_equal. revert c.
    induction fields as [|[n t' d] fields IH]; intros c; [done|].
    rewrite visit_all_app, <- (visitRef_refs V t'). by apply then_visit_ext.
  - destruct t as [[name|] a]; intros c; [symmetry; apply visit_all_single|]. apply visitAtom_refs.
Qed.

(** *** The visit *)

Definition found (c : closure) : Prop := ∀ name d, c !! name = Some d → FindNamedType types name = Some d.

Lemma found_size c : found c → size c ≤ length types.
Proof.
  intros Hc. rewrite <- size_dom, <- (length_fmap td_name types). apply submseteq_length, NoDup_submseteq; [apply NoDup_elements|].
  intros name [d Hd]%elem_of_elements%elem_of_dom. apply list_elem_of_fmap. exists d.
  by destruct (find_named _ _ _ (Hc _ _ Hd)) as [? <-].
Qed.

(** What a visit of some names leaves: everything they reach has been visited,
    or one of the reached types is missing. *)
Definition visited (names : list string) (c : closure) (r : option (result error closure)) : Prop :=
  match r with
  | Some (Ok c') => c ⊆ c' ∧ found c' ∧ Forall (λ n, is_Some (c' !! n)) names ∧
      ∀ n d, c' !! n = Some d → c !! n = None →
        (∃ root, root ∈ names ∧ reaches types root n) ∧ ∀ n', n' ∈ refs (td_atom d) → is_Some (c' !! n')
  | Some (Err e) => ∃ root n, root ∈ names ∧ reaches types root n ∧ FindNamedType types n = None ∧ e = missing_type n
  | None => False
  end.

Lemma visited_all V names c : (∀ name c', name ∈ names → c ⊆ c' → found c' → visited [name] c' (V name c')) →
  found c → visited names c (visit_all V names c).
Proof.
  revert c. induction names as [|name names IH]; intros c HV Hc; simpl.
  { split_and!; [done|done|constructor|]. intros n d Hn Hno. congruence. }
  assert (Hin : name ∈ name :: names) by by left.
  pose proof (HV name c Hin (reflexivity c) Hc) as Hfirst. destruct (V name c) as [[c1|e]|]; simpl in Hfirst |- *; [| |done].
  - destruct Hfirst as (Hsub1 & Hc1 & [Hname _]%list.Forall_cons_1 & Hnew1).
    assert (Hrest : visited names c1 (visit_all V names c1)) by (apply IH; [|done]; intros; apply HV; [by right|by etrans|done]).
    destruct (visit_all V names c1) as [[c2|e]|]; simpl in Hrest |- *; [| |done].
    + destruct Hrest as (Hsub2 & Hc2 & Hnames & Hnew2). split_and!; [by etrans|done| |].
      { constructor; [|done]. destruct Hname as [d Hd]. exists d. by eapply lookup_weaken. }
      intros n d Hn Hno. destruct (c1 !! n) as [d1|] eqn:Hn1.
      * pose proof (lookup_weaken _ _ _ _ Hn1 Hsub2). simplify_eq. destruct (Hnew1 n d Hn1 Hno) as [(root & Hr & ?) Href].
        split; [exists root; split; [set_solver|done]|]. intros n' [d' Hd']%Href. exists d'. by eapply lookup_weaken.
      * destruct (Hnew2 n d Hn Hn1) as [(root & ? & ?) Href]. split; [exists root; split; [by right|done]|done].
    + destruct Hrest as (root & n & ? & Hrest). exists root, n. split; [by right|done].
  - destruct Hfirst as (root & n & ? & Hrest). exists root, n. split; [set_solver|done].
Qed.

Lemma reaches_trans a b c : reaches types a b → reaches types b c → reaches types a c.
Proof. intros Hab. induction 1; [done|by eapply reach_ref]. Qed.

Lemma visitNamed_spec fuel name c :
  found c → length types < fuel + size c → visited [name] c (visitNamed types fuel name c).
Proof.
  revert name c. induction fuel as [|fuel IH]; intros name c Hc Hfuel; [pose proof (found_size c Hc); lia|]. simpl.
  destruct (c !! name) as [d|] eqn:Hn.
  { split_and!; [done|done|constructor; [by exists d|constructor]|]. intros n d' ? ?. congruence. }
  destruct (FindNamedType types name) as [d|] eqn:Hfind.
  2: { exists name, name. split_and!; [by left|constructor|done..]. }
  rewrite visitAtom_refs. set (c0 := <[name := d]> c).
  assert (Hc0 : found c0).
  { intros n d'. unfold c0. rewrite lookup_insert_Some. intros [[<- <-]|[_ Hd']]; [done|by apply Hc]. }
  assert (Hsize : size c0 = S (size c)) by by apply map_size_insert_None.
  assert (Hall : visited (refs (td_atom d)) c0 (visit_all (visitNamed types fuel) (refs (td_atom d)) c0)).
  { apply visited_all; [|done]. intros n c' _ Hsub Hc'. apply IH; [done|]. pose proof (map_subseteq_size _ _ Hsub). lia. }
  assert (Hreach : ∀ root n, root ∈ refs (td_atom d) → reaches types root n → reaches types name n).
  { intros root n Hroot Hn'. eapply reaches_trans; [|done]. eapply reach_ref; [constructor|done..]. }
  destruct (visit_all _ _ _) as [[c'|e]|]; simpl in Hall |- *; [| |done].
  - destruct Hall as (Hsub & Hc' & Hrefs & Hnew). assert (Hname : c' !! name = Some d).
    { eapply lookup_weaken; [apply lookup_insert_eq|done]. }
    split_and!; [etrans; [by apply insert_subseteq|done]|done|constructor; [by exists d|constructor]|].
    intros n d' Hn' Hno. destruct (decide (n = name)) as [->|Hne].
    + simplify_eq. split; [exists name; split; [by left|constructor]|]. by apply list.Forall_forall.
    + destruct (Hnew n d' Hn') as [(root & Hroot & Hr) Href]; [by unfold c0; rewrite lookup_insert_ne|].
      split; [exists name; split; [by left|by eapply Hreach]|done].
  - destruct Hall as (root & n & Hroot & Hr & Hno & ->). exists name, n. split_and!; [by left|by eapply Hreach|done..].
Qed.

(** The closure of the root: the types it reaches. *)
Definition is_closure (root : string) (c : closure) : Prop :=
  ∀ n d, c !! n = Some d ↔ reaches types root n ∧ FindNamedType types n = Some d.

Lemma closure_unique root c1 c2 : is_closure root c1 → is_closure root c2 → c1 = c2.
Proof. intros Hc1 Hc2. apply map_eq. intros n. apply option_eq. intros d. by rewrite (Hc1 n d), (Hc2 n d). Qed.

Lemma visit_root root : match visitNamed types (S (length types)) root ∅ with
  | Some (Ok c) => is_closure root c ∧ ∀ n, reaches types root n → is_Some (FindNamedType types n)
  | Some (Err e) => ∃ n, reaches types root n ∧ FindNamedType types n = None ∧ e = missing_type n
  | None => False
  end.
Proof.
  pose proof (visitNamed_spec (S (length types)) root ∅) as Hv. destruct (visitNamed _ _ _ _) as [[c|e]|]; simpl in Hv.
  - destruct Hv as (_ & Hc & [[d Hd] _]%list.Forall_cons_1 & Hnew); [done|lia|].
    assert (Hin : ∀ n, reaches types root n → is_Some (c !! n)).
    { induction 1 as [|n d' n' _ [d'' Hd''] Hf Hn']; [by exists d|]. pose proof (Hc _ _ Hd''). simplify_eq.
      by eapply Hnew; [exact Hd''|apply lookup_empty|]. }
    split; [|intros n [d' Hd']%Hin; exists d'; by apply Hc]. intros n d'. split.
    + intros Hn. split; [|by apply Hc]. destruct (Hnew n d' Hn (lookup_empty _)) as [(r & Hr & ?) _]. set_solver.
    + intros [[d'' Hd'']%Hin Hf]. pose proof (Hc _ _ Hd''). by simplify_eq.
  - destruct Hv as (r & n & Hr & Hrest); [done|lia|]. exists n. set_solver.
  - apply Hv; [done|lia].
Qed.

(** C34: The fingerprint of a schema is that of the closure of the requested
    type, the types it reaches and no others; it is an error exactly when a
    reached type is missing, and the search always ends, cycles included. *)
Theorem topology_closure root :
  (∃ c, is_closure root c ∧ (∀ n, reaches types root n → is_Some (FindNamedType types n)) ∧
     intentMergeTopologyHash types root = Some (topology_hash c)) ∨
  (∃ n, reaches types root n ∧ FindNamedType types n = None ∧
     intentMergeTopologyHash types root = Some (Err (missing_type n))).
Proof.
  pose proof (visit_root root) as Hv. unfold intentMergeTopologyHash.
  destruct (visitNamed _ _ _ _) as [[c|e]|]; [| |done].
  - destruct Hv as [? ?]. left. by exists c.
  - destruct Hv as (n & ? & ? & ->). right. by exists n.
Qed.
End Types.
End Closure.

(** ** What the fingerprint ignores *)

(** The same type, up to the order of its fields and the defaults of
    collections.  Field names are distinct: they come from a map. *)
Inductive same_atom : atom → atom → Prop :=
  | same_atom_intro s l l' m m' : same_list l l' → same_map m m' → same_atom (Atom s l m) (Atom s l' m')
with same_list : option list_type → option list_type → Prop :=
  | same_no_list : same_list None None
  | same_some_list t t' r : same_ref t t' → same_list (Some (ListType t r)) (Some (ListType t' r))
with same_map : option map_type → option map_type → Prop :=
  | same_no_map : same_map None None
  | same_some_map fields fields' t t' r : NoDup (f_name <$> fields) → same_fields fields fields' → same_ref t t' →
      same_map (Some (MapType fields t r)) (Some (MapType fields' t' r))
with same_fields : list struct_field → list struct_field → Prop :=
  | same_fields_nil : same_fields [] []
  | same_fields_cons n t t' d d' fields l1 l2 : same_ref t t' → scalar_default d = scalar_default d' →
      same_fields fields (l1 ++ l2) → same_fields (StructField n t d :: fields) (l1 ++ StructField n t' d' :: l2)
with same_ref : type_ref → type_ref → Prop :=
  | same_ref_intro name a a' : same_atom a a' → same_ref (TypeRef name a) (TypeRef name a').

Scheme same_atom_rec := Minimality for same_atom Sort Prop
  with same_list_rec := Minimality for same_list Sort Prop
  with same_map_rec := Minimality for same_map Sort Prop
  with same_fields_rec := Minimality for same_fields Sort Prop
  with same_ref_rec := Minimality for same_ref Sort Prop.

Lemma sort_field_name f : f_name (sort_field f) = f_name f.
Proof. by destruct f. Qed.

Lemma sort_same a a' : same_atom a a' → sortIntentSchemaFields a = sortIntentSchemaFields a'.
Proof.
  apply (same_atom_rec (λ a a', sortIntentSchemaFields a = sortIntentSchemaFields a')
    (λ l l', (λ '(ListType t r), ListType (sort_ref t) r) <$> l = (λ '(ListType t r), ListType (sort_ref t) r) <$> l')
    (λ m m', (λ '(MapType fs t r), MapType (sort_by f_name (sort_field <$> fs)) (sort_ref t) r) <$> m =
             (λ '(MapType fs t r), MapType (sort_by f_name (sort_field <$> fs)) (sort_ref t) r) <$> m')
    (λ fs fs', sort_field <$> fs ≡ₚ sort_field <$> fs') (λ t t', sort_ref t = sort_ref t')).
  - intros s l l' m m' _ Hl _ Hm. cbn [sortIntentSchemaFields]. f_equal.
    + destruct l as [[]|], l' as [[]|]; simpl in Hl; congruence.
    + destruct m as [[]|], m' as [[]|]; simpl in Hm; congruence.
  - done.
  - intros t t' r _ Ht. simpl. by rewrite Ht.
  - done.
  - intros fs fs' t t' r Hnd _ Hfs _ Ht. simpl. rewrite Ht. do 2 f_equal. apply sort_by_unique; [|done].
    rewrite <- list_fmap_compose. by rewrite (list_fmap_ext _ f_name) by (intros ? f _; apply sort_field_name).
  - done.
  - intros n t t' d d' fs l1 l2 _ Ht Hd _ IH. rewrite fmap_app, !fmap_cons. simpl. rewrite Ht, Hd, IH, fmap_app.
    by rewrite Permutation_middle.
  - intros name b b' _ Heq. simpl. by rewrite Heq.
Qed.

Section Stable.
Context `{SchemaLib}.
Implicit Types types : list type_def.

(** Sorting commutes with the search. *)
Lemma find_sorted types name : NoDup (td_name <$> types) →
  FindNamedType (sort_topology types) name =
    (λ d, TypeDef (td_name d) (sortIntentSchemaFields (td_atom d))) <$> FindNamedType types name.
Proof.
  intros Hnd. set (f := λ d, TypeDef (td_name d) (sortIntentSchemaFields (td_atom d))).
  assert (Hnd' : NoDup (td_name <$> sort_topology types)).
  { unfold sort_topology. rewrite <- list_fmap_compose. by rewrite (list_fmap_ext _ td_name) by done. }
  destruct (FindNamedType types name) as [d|] eqn:Hd; simpl.
  - apply find_named in Hd as [Hin <-]. apply (find_unique (sort_topology types) (f d)); [done|]. by apply list_elem_of_fmap_2.
  - destruct (FindNamedType (sort_topology types) name) as [d'|] eqn:Hd'; [|done].
    apply find_named in Hd' as [(d & -> & Hin)%list_elem_of_fmap Hname]. simpl in Hname. subst name.
    by rewrite (find_unique types d Hnd Hin) in Hd.
Qed.

(** A fingerprint survives whatever does not concern the requested type: if
    every type it reaches is the same in another version of the document, up to
    the order in which Go visits the properties and the defaults of
    collections, the fingerprint is the same. *)
Theorem fingerprint_stable types1 types2 root h :
  NoDup (td_name <$> types1) → NoDup (td_name <$> types2) →
  (∀ n d1, reaches (sort_topology types1) root n → FindNamedType types1 n = Some d1 →
     ∃ d2, FindNamedType types2 n = Some d2 ∧ same_atom (td_atom d1) (td_atom d2)) →
  intentMergeTopologyHash (sort_topology types1) root = Some (Ok h) →
  intentMergeTopologyHash (sort_topology types2) root = Some (Ok h).
Proof.
  intros Hnd1 Hnd2 Hsame Hh.
  destruct (topology_closure (sort_topology types1) root) as [(c & Hc & Hall & Hh1)|(n & _ & _ & Hh1)]; [|congruence].
  assert (Hfind : ∀ n, reaches (sort_topology types1) root n →
    FindNamedType (sort_topology types2) n = FindNamedType (sort_topology types1) n).
  { intros n Hr. destruct (Hall n Hr) as [d Hd]. rewrite Hd, find_sorted by done. rewrite find_sorted in Hd by done.
    apply fmap_Some in Hd as (d1 & Hd1 & ->). destruct (Hsame n d1 Hr Hd1) as (d2 & Hd2 & Hs). rewrite Hd2. simpl.
    apply find_named in Hd1 as [_ ->]. apply find_named in Hd2 as [_ ->]. by rewrite (sort_same _ _ Hs). }
  assert (Hreach1 : ∀ n, reaches (sort_topology types1) root n → reaches (sort_topology types2) root n).
  { induction 1 as [|n d n' Hr IH Hf Hin]; [constructor|]. eapply reach_ref; [done|by rewrite Hfind|done]. }
  assert (Hreach2 : ∀ n, reaches (sort_topology types2) root n → reaches (sort_topology types1) root n).
  { induction 1 as [|n d n' Hr IH Hf Hin]; [constructor|]. eapply reach_ref; [done|by rewrite <- Hfind|done]. }
  destruct (topology_closure (sort_topology types2) root) as [(c2 & Hc2 & _ & Hh2)|(n & Hr & Hno & _)].
  - rewrite Hh2, <- Hh, Hh1. do 2 f_equal. apply (closure_unique (sort_topology types1) root); [|done].
    intros n d. rewrite (Hc2 n d). split; intros [Hr Hf].
    + split; [auto|]. by rewrite <- Hfind by auto.
    + split; [auto|]. by rewrite Hfind.
  - apply Hreach2 in Hr. rewrite Hfind in Hno by done. destruct (Hall n Hr). congruence.
Qed.
End Stable.

(** ** The resolver's cache *)

Section Freshness.
Context `{SchemaLib} {model typed : Type} `{!OpenApi model typed}.
Context (range : gmap string (option model) → list (string * option model)).
Context (range_perm : ∀ m, range m ≡ₚ map_to_list m).
Abbreviation models := (gmap string (option model)).
Abbreviation cache := (gmap group_version (cache_entry (typed := typed))).
Abbreviation scall := (rcall (typed := typed)).

(** Every entry is the conversion of the models with its hash. *)
Definition cache_ok (c : cache) : Prop :=
  ∀ gv e, c !! gv = Some e → ∃ ms topology, models_hash ms = Ok (ce_hash e) ∧
    NewTypeConverter ms = Ok (ce_converter e) ∧ ToSchemaFromOpenAPI ms = Ok topology ∧ ce_topology e = sort_topology topology.

(** What a lookup is to answer for the models: their converter, and the
    fingerprint of the root in their topology. *)
Definition fresh_for (ms : models) (root : string) (r : type_converter typed * string) : Prop :=
  ∃ topology, NewTypeConverter ms = Ok r.1 ∧ ToSchemaFromOpenAPI ms = Ok topology ∧
    intentMergeTopologyHash (sort_topology topology) root = Some (Ok r.2).

Lemma topology_answer_ok topology root h : topology_answer topology root = Ok h → intentMergeTopologyHash topology root = Some (Ok h).
Proof. unfold topology_answer. destruct (intentMergeTopologyHash _ _); simpl; [by intros ->|done]. Qed.

Lemma convert_locked_ok gv (ms : models) root hash c :
  cache_ok c → models_hash ms = Ok hash →
  cache_ok (convert_locked gv ms root hash c).2 ∧
  ∀ r, (convert_locked gv ms root hash c).1 = Ok r → fresh_for ms root r.
Proof.
  intros Hc Hhash. unfold convert_locked.
  set (convert := match NewTypeConverter ms with Err e => _ | Ok _ => _ end).
  assert (Hconv : cache_ok convert.2 ∧ ∀ r, convert.1 = Ok r → fresh_for ms root r).
  { unfold convert. destruct (NewTypeConverter ms) as [conv|] eqn:Hn; [|done].
    destruct (ToSchemaFromOpenAPI ms) as [topology|] eqn:Ht; [|done]. cbv zeta.
    destruct (topology_answer _ _) as [h|] eqn:Ha; [|done]. simpl. split.
    - intros gv' e [[<- <-]|[_ He]]%lookup_insert_Some; [|by eapply Hc]. exists ms, topology. done.
    - intros r [= <-]. exists topology. simpl. auto using topology_answer_ok. }
  destruct (c !! gv) as [cached|] eqn:Hgv; [|exact Hconv].
  destruct (String.eqb_spec (ce_hash cached) hash) as [Heq|]; [|exact Hconv]. split; [done|]. simpl.
  destruct (Hc gv cached Hgv) as (ms' & topology & Hh & Hn & Ht & Htop).
  rewrite Heq in Hh. pose proof (models_hash_inj ms ms' hash Hhash Hh) as <-.
  intros [conv h]. destruct (topology_answer _ _) as [h'|] eqn:Ha; [|done]. simpl. intros [= <- <-].
  exists topology. simpl. split_and!; [done..|]. rewrite <- Htop. by apply topology_answer_ok.
Qed.

(** The mutex: a locked section sees a sound cache. *)
Definition locked_ok (e : event scall) : Prop :=
  match e with
  | @Ev _ R c r => match c in rcall R return R → Prop with
                   | Locked f => λ r, ∃ c, cache_ok c ∧ r = (f c).1
                   | Fetch _ => λ _, True
                   end r
  end.
(** And it leaves a sound one. *)
Definition keeps_cache (e : event scall) : Prop :=
  match e with Ev c _ => match c with Locked f => ∀ c, cache_ok c → cache_ok (f c).2 | Fetch _ => True end end.

(** The models the server published when it was asked in this call. *)
Definition current_models (tr : list (event scall)) (ms : models) : Prop :=
  ∃ path raw schemas definitions, Ev (Fetch path) (Ok raw) ∈ tr ∧
    decode_document raw = Ok (schemas, definitions) ∧ (ms = schemas ∨ ms = definitions).

Lemma fetch_spec g tr (Q : list (event scall) → result error (string * bool) → Prop) :
  (∀ l r, Forall (λ e, keeps_cache e) l → (∀ raw v2, r = Ok (raw, v2) → ∃ path, Ev (Fetch path) (Ok raw) ∈ l) → Q (tr ++ l) r) →
  holds (fetch_document g) tr Q.
Proof.
  intros HQ. unfold fetch_document. cbv zeta. intros [raw|e].
  - apply HQ; [by repeat constructor|]. intros ? ? [= <- _]. eexists. by left.
  - simpl. destruct (is_not_found e); [|apply HQ; [by repeat constructor|done]].
    intros [raw|e']; [rewrite <- app_assoc; apply HQ; [by repeat constructor|done]|]. simpl.
    destruct (negb _); [rewrite <- app_assoc; apply HQ; [by repeat constructor|done]|].
    intros r. rewrite <- !app_assoc. simpl. apply HQ; [by repeat constructor|].
    destruct r as [raw|]; [|done]. intros ? ? [= <- _]. exists "/openapi/v2". set_solver.
Qed.

Lemma Resolve_spec g : holds (Resolve range g) [] (λ tr r,
  Forall keeps_cache tr ∧
  (Forall locked_ok tr → ∀ a, r = Ok a → ∃ ms root, current_models tr ms ∧ requireIntentSchemaGVK range ms g = Ok root ∧
     fresh_for ms root a)).
Proof.
  unfold Resolve. destruct (_ || _); [by split; [constructor|]|].
  apply holds_bind, fetch_spec. intros l r Hl Hr. simpl.
  assert (Hdone : ∀ e : error, Forall keeps_cache l ∧ (Forall locked_ok l → ∀ a : type_converter typed * string, Err e = Ok a → ∃ ms root,
    current_models l ms ∧ requireIntentSchemaGVK range ms g = Ok root ∧ fresh_for ms root a)) by done.
  destruct r as [[raw v2]|]; [|apply Hdone]. destruct (Hr raw v2 eq_refl) as [path Hin].
  destruct (decode_document raw) as [[schemas definitions]|] eqn:Hdec; [|apply Hdone]. cbv zeta.
  set (ms := if v2 then definitions else schemas). destruct (decide _); [apply Hdone|].
  destruct (requireIntentSchemaGVK range ms g) as [root|] eqn:Hroot; [|apply Hdone].
  destruct (models_hash ms) as [hash|] eqn:Hhash; [|apply Hdone].
  intros r. split.
  - apply list.Forall_app. split; [done|]. constructor; [|constructor]. intros c Hc. by apply convert_locked_ok.
  - intros [_ [(c & Hc & ->) _]%list.Forall_cons_1]%list.Forall_app a Ha. exists ms, root.
    split_and!; [|done|by eapply convert_locked_ok].
    exists path, raw, schemas, definitions. split_and!; [apply elem_of_app; by left|done|]. destruct v2; auto.
Qed.

(** The root is the one model of the kind. *)
Definition model_has (g : gvk) (m : option model) : nat :=
  match m with Some m => match model_kinds m with Some (Ok kinds) => length (filter (.= g) kinds) | _ => 0 end | None => 0 end.

Definition matches_in (g : gvk) (ms : list (string * option model)) : nat := sum_list ((λ kv, model_has g kv.2) <$> ms).

Lemma matches_in_cons g name m ms : matches_in g ((name, m) :: ms) = model_has g m + matches_in g ms.
Proof. done. Qed.

Lemma require_loop_spec g ms n root0 n' root : require_loop g ms n root0 = Ok (n', root) →
  n' = n + matches_in g ms ∧
  (root = root0 ∧ Forall (λ kv, model_has g kv.2 = 0) ms ∨ ∃ m, (root, m) ∈ ms ∧ 0 < model_has g m).
Proof.
  revert n root0. induction ms as [|[name [m|]] ms IH]; intros n root0; cbn [require_loop]; [| |done].
  { intros [= -> ->]. split; [unfold matches_in; simpl; lia|]. left. split; [done|constructor]. }
  rewrite matches_in_cons. destruct (model_kinds m) as [[kinds|]|] eqn:Hk; [|done|].
  - assert (Hm : model_has g (Some m) = length (filter (.= g) kinds)) by (simpl; by rewrite Hk).
    intros [Hn Hr]%IH. split; [lia|]. destruct Hr as [[-> Hz]|(m' & ? & ?)].
    + destruct (length (filter _ kinds)) eqn:Hlen; [left|right].
      * split; [done|]. by constructor.
      * exists (Some m). split; [by left|lia].
    + right. exists m'. split; [by right|done].
  - assert (Hm : model_has g (Some m) = 0) by (simpl; by rewrite Hk).
    intros [Hn Hr]%IH. split; [lia|]. destruct Hr as [[-> Hz]|(m' & ? & ?)].
    + left. split; [done|]. by constructor.
    + right. exists m'. split; [by right|done].
Qed.

Lemma require_root ms g root : requireIntentSchemaGVK range ms g = Ok root →
  ∃ m, ms !! root = Some m ∧ model_has g m = 1 ∧ ∀ name m', ms !! name = Some m' → name ≠ root → model_has g m' = 0.
Proof.
  unfold requireIntentSchemaGVK. destruct (require_loop _ _ _ _) as [[n r]|] eqn:Hl; [|done]. simpl.
  destruct (Nat.eqb_spec n 1) as [->|]; [|done]. intros [= ->]. apply require_loop_spec in Hl as [Hsum Hr].
  simpl in Hsum. unfold matches_in in Hsum. rewrite range_perm in Hsum. fold (matches_in g (map_to_list ms)) in Hsum.
  assert (Hsplit : ∀ name m, ms !! name = Some m → matches_in g (map_to_list ms) = model_has g m + matches_in g (map_to_list (delete name ms))).
  { intros name m Hm. rewrite <- matches_in_cons with (name := name). unfold matches_in. by rewrite map_to_list_delete. }
  destruct Hr as [[-> Hz]|(m & Hin & Hpos)].
  { exfalso. rewrite range_perm in Hz. assert (matches_in g (map_to_list ms) = 0); [|lia].
    clear -Hz. induction Hz as [|[name m] l Hkv _ IH]; [done|]. rewrite matches_in_cons, IH. simpl in Hkv. lia. }
  rewrite range_perm in Hin. apply elem_of_map_to_list in Hin. exists m. pose proof (Hsplit _ _ Hin). split_and!; [done|lia|].
  intros name m' Hm' Hne. assert (Hm2 : delete root ms !! name = Some m') by by rewrite lookup_delete_ne.
  assert (matches_in g (map_to_list (delete root ms)) = model_has g m' + matches_in g (map_to_list (delete name (delete root ms)))).
  { rewrite <- matches_in_cons with (name := name). unfold matches_in. by rewrite map_to_list_delete. }
  lia.
Qed.

(** Whatever other lookups do to the cache in between, a lookup that succeeds
    answers with the conversion of the document the server published when it
    was asked in this call, at the only model of the requested kind; and it
    leaves the cache as sound as it found it. *)
Theorem resolver_never_stale g {W} (h : handler scall W) w :
  let '(r, tr) := run h (Resolve range g) w in
  Forall keeps_cache tr ∧
  (Forall locked_ok tr → ∀ a, r = Ok a → ∃ ms root m, current_models tr ms ∧ fresh_for ms root a ∧
     ms !! root = Some m ∧ model_has g m = 1 ∧ ∀ name m', ms !! name = Some m' → name ≠ root → model_has g m' = 0).
Proof.
  pose proof (holds_run_pair h _ w _ (Resolve_spec g)) as Hp. destruct (run _ _ _) as [r tr]. destruct Hp as [Hkeep Hp].
  split; [done|]. intros Hok a Ha. destruct (Hp Hok a Ha) as (ms & root & Hcur & Hroot & Hfresh).
  destruct (require_root ms g root Hroot) as (m & ? & ? & ?). exists ms, root, m. done.
Qed.
End Freshness.

(** ** At concrete documents *)

Section Witnesses.

Definition search (types : list type_def) (name : string) : option type_def := snd <$> list_find (λ d, td_name d = name) types.
Definition joined (c : gmap string type_def) : string := String.concat "," (sort_by id (map_to_list c).*1).

#[local] Instance searched : SchemaLib.
Proof.
  refine {| FindNamedType := search; topology_hash c := Ok (joined c) |}.
  - intros types name d. unfold search. intros ([i d'] & (Hi & Hn & _)%list_find_Some & [= ->])%fmap_Some.
    split; [by eapply list_elem_of_lookup_2|done].
  - intros types d Hnd Hin. unfold search. destruct (list_find _ types) as [[i d']|] eqn:Hf; simpl.
    + apply list_find_Some in Hf as (Hi & Hn & _). f_equal. apply (NoDup_key td_name types); [done| |done|done].
      by eapply list_elem_of_lookup_2.
    + exfalso. eapply list_find_None in Hf. rewrite list.Forall_forall in Hf. by eapply Hf.
Defined.

Definition scalar_ref : type_ref := TypeRef None (Atom (Some "string") None None).
Definition named_ref (name : string) : type_ref := TypeRef (Some name) (Atom None None None).
Definition struct_of (fields : list (string * type_ref)) : atom :=
  Atom None None (Some (MapType ((λ '(n, t), StructField n t None) <$> fields) scalar_ref "")).

(** A recursive type, next to one that it does not use; and the same document
    without that one, and with its fields visited in another order. *)
Definition doc1 : list type_def :=
  [TypeDef "Redis" (struct_of [("spec", named_ref "Spec"); ("kind", scalar_ref)]);
   TypeDef "Spec" (struct_of [("sidecar", named_ref "Spec")]); TypeDef "Other" (struct_of [("x", named_ref "Lost")])].
Definition doc2 : list type_def :=
  [TypeDef "Spec" (struct_of [("sidecar", named_ref "Spec")]);
   TypeDef "Redis" (struct_of [("kind", scalar_ref); ("spec", named_ref "Spec")])].

Lemma topology_closure_witness :
  intentMergeTopologyHash doc1 "Redis" = Some (Ok "Redis,Spec") ∧
  ∃ c, is_closure doc1 "Redis" c ∧ intentMergeTopologyHash doc1 "Redis" = Some (topology_hash c).
Proof.
  split; [reflexivity|]. destruct (topology_closure doc1 "Redis") as [(c & Hc & _ & Hh)|(n & _ & _ & Hh)].
  - exists c. split; [exact Hc|exact Hh].
  - discriminate Hh.
Defined.

Lemma same_scalar : same_ref scalar_ref scalar_ref.
Proof. repeat constructor. Qed.
Lemma same_named name : same_ref (named_ref name) (named_ref name).
Proof. repeat constructor. Qed.

Lemma doc1_reaches n : reaches (sort_topology doc1) "Redis" n → n = "Redis" ∨ n = "Spec".
Proof.
  induction 1 as [|n d n' _ IH Hf Hin]; [by left|].
  destruct IH as [->| ->]; vm_compute in Hf; injection Hf as <-; vm_compute in Hin; set_solver.
Qed.

Lemma fingerprint_stable_witness : intentMergeTopologyHash (sort_topology doc2) "Redis" = Some (Ok "Redis,Spec").
Proof.
  apply (fingerprint_stable doc1 doc2); [| | |reflexivity].
  - apply (bool_decide_unpack _). vm_compute. exact I.
  - apply (bool_decide_unpack _). vm_compute. exact I.
  - intros n d1 [->| ->]%doc1_reaches Hd1; vm_compute in Hd1; injection Hd1 as <-; eexists; (split; [reflexivity|]).
    + constructor; [constructor|]. constructor; [|apply (same_fields_cons _ _ _ _ _ _ [_] [])|apply same_scalar].
      * apply (bool_decide_unpack _). vm_compute. exact I.
      * apply same_named.
      * done.
      * apply (same_fields_cons _ _ _ _ _ _ [] []); [apply same_scalar|done|constructor].
    + constructor; [constructor|]. constructor; [|apply (same_fields_cons _ _ _ _ _ _ [] [])|apply same_scalar].
      * apply (bool_decide_unpack _). vm_compute. exact I.
      * apply same_named.
      * done.
      * constructor.
Defined.

(** A schema is the list of its kinds; there is one document. *)
Definition toy_converter : type_converter unit :=
  {| ObjectToTyped _ := Ok tt; TypedToObject _ := Ok None |}.
#[local] Instance toy_openapi : OpenApi (list gvk) unit.
Proof.
  refine {|
    decode_document raw := if String.eqb raw "doc" then Ok ({["Redis" := Some [redis_gvk]; "Spec" := Some []]}, ∅) else Err (new_error "");
    model_kinds m := Some (Ok m);
    models_hash ms := Ok (pos_to_bits (encode ms));
    NewTypeConverter _ := Ok toy_converter;
    ToSchemaFromOpenAPI _ := Ok doc1;
  |}.
  intros m1 m2 h [= <-] [= Heq]. apply (f_equal bits_to_pos) in Heq. rewrite !bits_roundtrip in Heq. by apply (inj encode) in Heq.
Defined.

Definition server (R : Type) (c : rcall (typed := unit) R) : gmap group_version cache_entry → R * gmap group_version cache_entry :=
  match c with Fetch _ => λ w, (Ok "doc", w) | Locked f => f end.

Lemma resolver_never_stale_witness :
  (run server (Resolve map_to_list redis_gvk) ∅).1 = Ok (toy_converter, "Redis,Spec") ∧
  Forall keeps_cache (run server (Resolve map_to_list redis_gvk) ∅).2.
Proof.
  split; [reflexivity|]. pose proof (resolver_never_stale map_to_list (λ _, reflexivity _) redis_gvk server ∅) as Ht.
  destruct (run server (Resolve map_to_list redis_gvk) ∅). exact (proj1 Ht).
Defined.
End Witnesses.
