(* ===== verification/IntentRecord.v ===== *)
(** * Intent records

    What a record of the last written intent holds, how it is stored in a
    Secret ([resource_intent.go], [resource_intent_codec.go]), and the identity
    checks that precede every write ([managed_resource.go]). *)
From stdpp Require Import base gmap strings list option.
From Stdlib Require Import ZArith Lia.
From S2P Require Import Prelude Labels Conditions Prog Middleware Json Adoption FieldPath IntentMerge.

(** ** Accessors of [unstructured.Unstructured]

    A nil map is [None].  The laws: what is set is read back, and a setter
    leaves the other fields alone. *)
Record managed_field := ManagedField {
  mf_manager : string; mf_operation : string; mf_apiVersion : string; mf_subresource : string;
  mf_fieldsType : string; mf_fieldsV1 : option string;
}.

(** [client.ObjectKeyFromObject], with the kind. *)
Definition target_key `{UnstructuredApi} (o : object) : gvk * string * string :=
  (GroupVersionKind o, GetNamespace o, GetName o).

Definition json_string (v : option json) : string := match v with Some (JStr s) => s | _ => "" end.

Class ObjectApi `{UnstructuredApi} := {
  GetResourceVersion : object → string;
  GetGeneration : object → Z;
  GetDeletionTimestamp : object → option Z;
  GetLabels : object → option (gmap string string);
  GetAnnotations : object → option (gmap string string);
  GetOwnerReferences : object → list owner_reference;
  GetFinalizers : object → list string;
  GetManagedFields : object → list managed_field;
  SetManagedFieldsNil : object → object;
  SetResourceVersion : string → object → object;
  SetUID : string → object → object;
  SetLabels : option (gmap string string) → object → object;
  SetAnnotations : option (gmap string string) → object → object;
  SetOwnerReferences : list owner_reference → object → object;
  RemoveNestedField : list string → object → object;

  get_set_annotations a o : GetAnnotations (SetAnnotations (Some a) o) = Some a;
  get_set_annotations_nil o : GetAnnotations (SetAnnotations None o) = None;
  annotations_set_labels l o : GetAnnotations (SetLabels l o) = GetAnnotations o;
  annotations_set_rv v o : GetAnnotations (SetResourceVersion v o) = GetAnnotations o;
  annotations_set_uid u o : GetAnnotations (SetUID u o) = GetAnnotations o;
  get_set_rv v o : GetResourceVersion (SetResourceVersion v o) = v;
  rv_set_uid u o : GetResourceVersion (SetUID u o) = GetResourceVersion o;
  get_set_uid u o : GetUID (SetUID u o) = u;
  key_set_annotations a o : target_key (SetAnnotations a o) = target_key o;
  key_set_labels l o : target_key (SetLabels l o) = target_key o;
  key_set_rv v o : target_key (SetResourceVersion v o) = target_key o;
  key_set_uid u o : target_key (SetUID u o) = target_key o;
  key_set_managed o : target_key (SetManagedFieldsNil o) = target_key o;
  key_remove field o : field ≠ "name" → field ≠ "namespace" →
    target_key (RemoveNestedField ["metadata"; field] o) = target_key o;
  key_content o o' : (∀ k, k ∈ ["apiVersion"; "kind"; "metadata"] → o !! k = o' !! k) → target_key o = target_key o';
  gvk_content o o' : (∀ k, k ∈ ["apiVersion"; "kind"] → o !! k = o' !! k) → GroupVersionKind o = GroupVersionKind o';
  name_metadata o m : o !! "metadata" = Some (JObj m) → GetName o = json_string (m !! "name");
  namespace_metadata o m : o !! "metadata" = Some (JObj m) → GetNamespace o = json_string (m !! "namespace");
}.

(** Reading a key of a map that may be nil. *)
Definition map_at (m : option (gmap string string)) (key : string) : string := str_at (default ∅ m) key.

(** [metav1.GetControllerOf]: the first reference marked as the controller. *)
Definition GetControllerOf (refs : list owner_reference) : option owner_reference :=
  snd <$> list_find (λ r, or_controller r = Some true) refs.

(** ** Owners: what the writer uses of a Middleware or a MiddlewareOperator *)

Inductive owner_type := OwnerMiddleware | OwnerMiddlewareOperator | OwnerOther.
#[export] Instance owner_type_eq_dec : EqDecision owner_type.
Proof. solve_decision. Defined.
Record owner := Owner {
  ow_type : owner_type;
  ow_name : string;
  ow_namespace : string;
  ow_uid : string;
  ow_resourceVersion : string;
  ow_generation : Z;
  ow_deletionTimestamp : option Z;
  ow_annotations : gmap string string;
  ow_conditions : list condition;
  ow_reconcilePause : option pause_status;
  ow_overrides : option reconcile_overrides;
}.

Definition owner_kind (o : owner) : option string :=
  match ow_type o with
  | OwnerMiddleware => Some "Middleware" | OwnerMiddlewareOperator => Some "MiddlewareOperator" | OwnerOther => None
  end.

Definition api_group : string := "middleware.cn".
Definition api_group_version : string := "middleware.cn/v1".

(** ** Records *)

(** [AnnotationResourceIntent], internal/k8s/resource_intent.go *)
Definition AnnotationResourceIntent : string := "middleware.cn/resource-intent".
(** [LabelResourceIntentGCFence], internal/k8s/resource_intent.go *)
Definition LabelResourceIntentGCFence : string := "middleware.cn/resource-intent-gc-fence".
(** [intentRecordLabel], internal/k8s/resource_intent.go *)
Definition intentRecordLabel : string := "middleware.cn/resource-intent-record".
(** [intentPublicationProtocol], internal/k8s/resource_intent.go *)
Definition intentPublicationProtocol : Z := 1.

(** [reconcilePauseData], internal/k8s/reconcile_pause_snapshot.go *)
Record pause_data := ReconcilePauseData { pd_generation : Z; pd_previousOverrides : option reconcile_overrides }.

(** [resourceIntent], internal/k8s/resource_intent.go *)
Record resource_intent := ResourceIntent {
  ri_version : Z;
  ri_publicationProtocol : Z;
  ri_baseResourceVersion : string;
  ri_ownerUID : string;
  ri_resourceUID : string;
  ri_configuration : string;
  ri_schemaHash : string;
  ri_desired : option object;
  ri_effective : option object;
  ri_preserved : list string;
  ri_pause : option pause_data;
}.

Record secret := Secret {
  s_name : string;
  s_generateName : string;
  s_namespace : string;
  s_uid : string;
  s_resourceVersion : string;
  s_creationTimestamp : Z;
  s_deletionTimestamp : option Z;
  s_labels : gmap string string;
  s_owners : list owner_reference;
  s_immutable : option bool;
  s_type : string;
  s_data : gmap string string;
}.
Definition SecretTypeOpaque : string := "Opaque".

(** ** The codec ([resource_intent_codec.go])

    [encoding/json] on records and zstd; an encoder or decoder may fail to
    initialise.  An object without a kind cannot be decoded again, but what is
    decoded is what was encoded, and encoding loses nothing. *)
Definition has_kind `{UnstructuredApi} (o : option object) : Prop :=
  match o with Some o => GetKind o ≠ "" | None => True end.

Class IntentCodec `{UnstructuredApi} := {
  marshal_intent : resource_intent → option string;
  unmarshal_intent : string → option resource_intent;
  intentEncoder : option (string → string);
  intentDecoder : option (string → option string);
  base64 : string → string;
  unmarshal_marshal_intent r raw : has_kind (ri_desired r) → has_kind (ri_effective r) →
    marshal_intent r = Some raw → is_Some (unmarshal_intent raw);
  unmarshal_sound r raw r' : marshal_intent r = Some raw → unmarshal_intent raw = Some r' → r' = r;
  marshal_inj r1 r2 raw : marshal_intent r1 = Some raw → marshal_intent r2 = Some raw → r1 = r2;
  encoder_inj encoder raw1 raw2 : intentEncoder = Some encoder → encoder raw1 = encoder raw2 → raw1 = raw2;
  decode_encode encoder decoder raw : intentEncoder = Some encoder → intentDecoder = Some decoder →
    decoder (encoder raw) = Some raw;
}.

Definition intentJSONKey : string := "intent.json".
Definition intentZstdKey : string := "intent.json.zst".

Section Records.
Context `{ObjectApi, !IntentCodec}.

(** [encodeResourceIntent], internal/k8s/resource_intent_codec.go *)
Definition encodeResourceIntent (record : resource_intent) : result error (gmap string string) :=
  match marshal_intent record with
  | None => Err (new_error "cannot encode resource intent")
  | Some raw =>
      match intentEncoder with
      | None => Err (new_error "cannot initialize resource intent encoder")
      | Some encoder =>
          let compressed := encoder raw in
          if String.length compressed <? String.length raw
          then Ok {[ intentZstdKey := compressed ]} else Ok {[ intentJSONKey := raw ]}
      end
  end.

(** [decodeResourceIntent], internal/k8s/resource_intent_codec.go *)
Definition decodeResourceIntent (data : gmap string string) : result error resource_intent :=
  let parse raw := match unmarshal_intent raw with
                   | Some record => Ok record
                   | None => Err (new_error "invalid resource intent JSON") end in
  match data !! intentJSONKey, data !! intentZstdKey with
  | Some raw, None => parse raw
  | None, Some compressed =>
      match intentDecoder with
      | None => Err (new_error "cannot initialize resource intent decoder")
      | Some decoder => match decoder compressed with
                        | None => Err (new_error "invalid compressed resource intent")
                        | Some raw => parse raw
                        end
      end
  | _, _ => Err (new_error "missing or ambiguous resource intent encoding")
  end.

(** ** The writable surface of an object *)

(** [cleanApplyObject], internal/k8s/managed_resource.go *)
Definition cleanApplyObject (desired : object) : object :=
  let result := SetUID "" (SetResourceVersion "" (SetManagedFieldsNil desired)) in
  let result := delete "status" result in
  let result := foldl (λ result key, RemoveNestedField ["metadata"; key] result) result
    ["creationTimestamp"; "deletionTimestamp"; "deletionGracePeriodSeconds"; "generation"; "selfLink"] in
  let result := SetAnnotations (delete AnnotationResourceIntent <$> GetAnnotations result) result in
  SetLabels (delete LabelResourceIntentGCFence <$> GetLabels result) result.

(** [stringMapJSON], internal/k8s/resource_intent.go *)
Definition stringMapJSON (input : gmap string string) : json := JObj (JStr <$> input).

(** [intentObject], internal/k8s/resource_intent.go:67-82 *)
Definition canonical_secret (result : object) : object :=
  if String.eqb (GetAPIVersion result) "v1" && String.eqb (GetKind result) "Secret" then
    match result !! "stringData" with
    | Some (JObj values) =>
        let data := match result !! "data" with Some (JObj data) => data | _ => ∅ end in
        let data := map_fold (λ key value (data : gmap string json),
          match value with JStr str => <[key := JStr (base64 str)]> data | _ => data end) data values in
        delete "stringData" (<["data" := JObj data]> result)
    | _ => result
    end
  else result.

(** An entry that is left out when there is nothing to say. *)
Definition optional_entry (key : string) (value : option json) (m : gmap string json) : gmap string json :=
  match value with Some value => <[key := value]> m | None => m end.
Definition nonempty_strings (m : option (gmap string string)) : option json :=
  match m with Some m => if decide (m = ∅) then None else Some (stringMapJSON m) | None => None end.

(** [intentObject], internal/k8s/resource_intent.go *)
Definition intentObject (obj : object) : object :=
  let result := canonical_secret (cleanApplyObject obj) in
  let metadata : gmap string json := {[ "name" := JStr (GetName obj) ]} in
  let metadata := optional_entry "namespace"
    (if String.eqb (GetNamespace obj) "" then None else Some (JStr (GetNamespace obj))) metadata in
  let metadata := optional_entry "labels" (nonempty_strings (GetLabels result)) metadata in
  let metadata := optional_entry "annotations" (nonempty_strings (GetAnnotations result)) metadata in
  <["metadata" := JObj metadata]> result.

(** ** Identity *)

(** [managedWriteBlocked], internal/k8s/managed_resource.go *)
Definition managedWriteBlocked (msg : string) : error := new_error ("managed resource write blocked: " +:+ msg).

(** [ParseGroup] is [schema.ParseGroupVersion], of which only the group is used. *)
Context (ParseGroup : string → option string).

(** The message lists the markers of the resource; they are not modelled. *)
(** [verifyManagedIdentity], internal/k8s/managed_resource.go *)
Definition verifyManagedIdentity (owner : owner) (live : object) : result error unit :=
  match owner_kind owner with
  | None => Err (managedWriteBlocked "unsupported owner")
  | Some kind =>
      if String.eqb (ow_uid owner) "" || String.eqb (GetUID live) "" ||
         bool_decide (is_Some (ow_deletionTimestamp owner)) || bool_decide (is_Some (GetDeletionTimestamp live))
      then Err (managedWriteBlocked "invalid resource identity")
      else match GetControllerOf (GetOwnerReferences live) with
      | None => Err (managedWriteBlocked "primary resource lacks controller owner")
      | Some ref =>
          match ParseGroup (or_apiVersion ref) with
          | Some group =>
              if String.eqb group api_group && String.eqb (or_kind ref) kind && String.eqb (or_name ref) (ow_name owner) &&
                 String.eqb (or_uid ref) (ow_uid owner) && String.eqb (GetNamespace live) (ow_namespace owner)
              then Ok tt else Err (managedWriteBlocked "primary resource owner mismatch")
          | None => Err (managedWriteBlocked "primary resource owner mismatch")
          end
      end
  end.

(** [verifyIntentIdentity], internal/k8s/resource_intent.go *)
Definition verifyIntentIdentity (owner : owner) (live : object) (configuration : string) : result error unit :=
  if String.eqb configuration "" then verifyManagedIdentity owner live
  else if String.eqb (ow_uid owner) "" || String.eqb (GetUID live) "" || bool_decide (is_Some (GetDeletionTimestamp live))
  then Err (managedWriteBlocked "invalid configuration resource identity")
  else
    let annotations := GetAnnotations live in
    if negb (String.eqb (map_at annotations LabelConfigurations) configuration)
    then Err (managedWriteBlocked "configuration annotation mismatch")
    else match GetControllerOf (GetOwnerReferences live) with
    | Some _ =>
        _ ← verifyManagedIdentity owner live;
        let uid := map_at annotations AnnotationConfigurationOwnerUID in
        if negb (String.eqb uid "") && negb (String.eqb uid (ow_uid owner))
        then Err (managedWriteBlocked "configuration owner annotation mismatch") else Ok tt
    | None =>
        if negb (String.eqb (map_at (GetLabels live) LabelApp) (ow_name owner)) ||
           negb (String.eqb (map_at annotations AnnotationConfigurationOwnerUID) (ow_uid owner))
        then Err (managedWriteBlocked "identity markers mismatch") else Ok tt
    end.

(** [intentOwnerReference], internal/k8s/resource_intent.go *)
Definition intentOwnerReference (owner : owner) : result error owner_reference :=
  match owner_kind owner with
  | None => Err (managedWriteBlocked "unsupported intent owner")
  | Some kind => Ok (OwnerReference api_group_version kind (ow_name owner) (ow_uid owner) (Some true))
  end.

(** [buildResourceIntentSecret], internal/k8s/resource_intent.go *)
Definition buildResourceIntentSecret (owner : owner) (record : resource_intent) : result error secret :=
  data ← encodeResourceIntent record;
  ref ← intentOwnerReference owner;
  Ok (Secret "" "opensaola-intent-" (ow_namespace owner) "" "" 0 None {[ intentRecordLabel := ow_uid owner ]} [ref]
        (Some true) SecretTypeOpaque data).

(** [setIntentPointer], internal/k8s/resource_intent.go *)
Definition setIntentPointer (obj : object) (name : string) : object :=
  SetAnnotations (Some (<[AnnotationResourceIntent := name]> (default ∅ (GetAnnotations obj)))) obj.

(** [isImmutableResource], internal/k8s/customresource.go *)
Definition isImmutableResource (obj : object) : bool :=
  let g := GroupVersionKind obj in
  String.eqb (gvk_group g) "batch" &&
  ((String.eqb (gvk_version g) "v1" && String.eqb (gvk_kind g) "Job") ||
   (String.eqb (gvk_version g) "v1beta1" && String.eqb (gvk_kind g) "CronJob")).

(** The pointer of an object to its intent record. *)
Definition pointer (obj : object) : string := map_at (GetAnnotations obj) AnnotationResourceIntent.

(** ** Lemmas *)

(** Encoding is injective, and decoding inverts it when it succeeds. *)
Lemma encode_inj r1 r2 data : encodeResourceIntent r1 = Ok data → encodeResourceIntent r2 = Ok data → r1 = r2.
Proof.
  unfold encodeResourceIntent. destruct (marshal_intent r1) as [raw1|] eqn:H1'; [|done].
  destruct (marshal_intent r2) as [raw2|] eqn:H2'; [|done]. destruct intentEncoder as [encoder|] eqn:He; [|done].
  intros Ha Hb. assert (raw1 = raw2) as <-; [|by eapply marshal_inj].
  cbv zeta in *. rewrite <- Hb in Ha. clear Hb.
  pose (entry key (r : result error (gmap string string)) := match r with Ok d => d !! key | Err _ => None end).
  pose proof (f_equal (entry intentZstdKey) Ha) as Hz. pose proof (f_equal (entry intentJSONKey) Ha) as Hj. clear Ha.
  destruct (_ <? _), (_ <? _); unfold entry in Hz, Hj; rewrite ?lookup_singleton_eq, ?lookup_singleton_ne in Hz, Hj by done;
    [|done|done|by simplify_eq]. simplify_eq. by eapply encoder_inj.
Qed.

Lemma decode_sound r r' data : encodeResourceIntent r = Ok data → decodeResourceIntent data = Ok r' → r' = r.
Proof.
  unfold encodeResourceIntent, decodeResourceIntent. destruct (marshal_intent r) as [raw|] eqn:Hm; [|done].
  destruct intentEncoder as [encoder|] eqn:He; [|done]. cbv zeta. destruct (_ <? _); intros [= <-].
  - rewrite lookup_singleton_eq, lookup_singleton_ne by done. destruct intentDecoder as [decoder|] eqn:Hd; [|done].
    rewrite (decode_encode _ _ raw He Hd). destruct (unmarshal_intent raw) as [r''|] eqn:Hu; [|done]. intros [= <-].
    by eapply unmarshal_sound.
  - rewrite lookup_singleton_eq, lookup_singleton_ne by done.
    destruct (unmarshal_intent raw) as [r''|] eqn:Hu; [|done]. intros [= <-]. by eapply unmarshal_sound.
Qed.

Lemma pointer_set obj name : pointer (setIntentPointer obj name) = name.
Proof. unfold pointer, map_at, setIntentPointer. rewrite get_set_annotations. simpl. unfold str_at. by rewrite lookup_insert_eq. Qed.

Lemma pointer_clean obj : pointer (cleanApplyObject obj) = "".
Proof.
  unfold pointer, map_at, cleanApplyObject. rewrite annotations_set_labels. set (result := foldl _ _ _).
  destruct (GetAnnotations result); simpl.
  - rewrite get_set_annotations. unfold str_at. simpl. by rewrite lookup_delete_eq.
  - by rewrite get_set_annotations_nil.
Qed.

Lemma key_delete k obj : k ∉ ["apiVersion"; "kind"; "metadata"] → target_key (delete k obj) = target_key obj.
Proof. intros Hk. apply key_content. intros k' Hk'. apply lookup_delete_ne. congruence. Qed.

Lemma key_clean obj : target_key (cleanApplyObject obj) = target_key obj.
Proof.
  unfold cleanApplyObject. cbn [foldl]. rewrite key_set_labels, key_set_annotations, !key_remove by done.
  rewrite key_delete by (intros ?; set_solver). by rewrite key_set_uid, key_set_rv, key_set_managed.
Qed.

Lemma canonical_keeps obj k : k ∈ ["apiVersion"; "kind"] → canonical_secret obj !! k = obj !! k.
Proof.
  intros Hk. unfold canonical_secret. destruct (_ && _); [|done]. destruct (obj !! "stringData") as [[]|]; try done.
  rewrite lookup_delete_ne, lookup_insert_ne; [done|..]; intros <-; set_solver.
Qed.

Lemma optional_ne key value m k : k ≠ key → optional_entry key value m !! k = m !! k.
Proof. intros Hk. destruct value; [by apply lookup_insert_ne|done]. Qed.

(** The record's object is found at the same key as the rendered one. *)
Lemma key_intentObject obj : target_key (intentObject obj) = target_key obj.
Proof.
  assert (Hg : GroupVersionKind (intentObject obj) = GroupVersionKind obj).
  { transitivity (GroupVersionKind (cleanApplyObject obj)).
    - apply gvk_content. intros k Hk. unfold intentObject.
      rewrite lookup_insert_ne by (intros <-; set_solver). by apply canonical_keeps.
    - by injection (key_clean obj). }
  unfold target_key. rewrite Hg. unfold intentObject. f_equal; [f_equal|].
  - erewrite namespace_metadata by apply lookup_insert_eq. rewrite !(optional_ne _ _ _ "namespace") by done.
    destruct (String.eqb_spec (GetNamespace obj) "") as [->|]; simpl; [done|]. by rewrite lookup_insert_eq.
  - erewrite name_metadata by apply lookup_insert_eq. by rewrite !(optional_ne _ _ _ "name"), lookup_singleton_eq by done.
Qed.

Lemma pointer_guarded u v obj : pointer (SetUID u (SetResourceVersion v obj)) = pointer obj.
Proof. unfold pointer. by rewrite annotations_set_uid, annotations_set_rv. Qed.
End Records.

(** ** Theorems *)

(** C30: A stored intent record is read back as it was written, whichever of the
    two encodings was chosen, and exactly one of them is present. *)
Theorem intent_codec_roundtrip `{IntentCodec} record data :
  encodeResourceIntent record = Ok data → is_Some intentDecoder →
  has_kind (ri_desired record) → has_kind (ri_effective record) →
  decodeResourceIntent data = Ok record ∧
  (is_Some (data !! intentJSONKey) ↔ data !! intentZstdKey = None).
Proof.
  unfold encodeResourceIntent, decodeResourceIntent. intros Henc [decoder Hdec] Hd He.
  destruct (marshal_intent record) as [raw|] eqn:Hm; [|done]. destruct intentEncoder as [encoder|] eqn:Hencoder; [|done].
  destruct (unmarshal_marshal_intent _ _ Hd He Hm) as [r' Hu].
  rewrite (unmarshal_sound _ _ _ Hm Hu) in Hu. clear r'. cbv zeta in Henc.
  destruct (_ <? _); injection Henc as <-.
  - rewrite lookup_singleton_eq, !lookup_singleton_ne by done.
    rewrite Hdec, (decode_encode _ _ raw Hencoder Hdec), Hu. split; [done|]. split; [by intros []|done].
  - rewrite lookup_singleton_eq, !lookup_singleton_ne by done. rewrite Hu. split; [done|]. split; [done|by eexists].
Qed.

(** ** An implementation, and the codec at a concrete record

    Objects keep their fields where the API conventions put them; a text is
    the code of what it stands for. *)
Module ObjectJson.
Export PathTyped.

Definition meta (o : object) : gmap string json := match o !! "metadata" with Some (JObj m) => m | _ => ∅ end.
Definition set_meta (f : gmap string json → gmap string json) (o : object) : object :=
  <["metadata" := JObj (f (meta o))]> o.
Definition strings (v : option json) : option (gmap string string) :=
  match v with Some (JObj m) => Some (omap (λ v, match v with JStr s => Some s | _ => None end) m) | _ => None end.
Definition set_strings (key : string) (v : option (gmap string string)) : object → object :=
  set_meta (λ m, match v with Some v => <[key := JObj (JStr <$> v)]> m | None => delete key m end).
Definition number (v : option json) : option Z := match v with Some (JNum q) => Some (QArith_base.Qnum (Qcanon.this q)) | _ => None end.
Definition items {A} (f : gmap string json → A) (v : option json) : list A :=
  match v with Some (JArr l) => omap (λ v, match v with JObj m => Some (f m) | _ => None end) l | _ => [] end.

Definition reference_of (m : gmap string json) : owner_reference :=
  OwnerReference (json_string (m !! "apiVersion")) (json_string (m !! "kind")) (json_string (m !! "name"))
    (json_string (m !! "uid")) (match m !! "controller" with Some (JBool b) => Some b | _ => None end).
Definition of_reference (r : owner_reference) : json :=
  JObj (optional_entry "controller" (JBool <$> or_controller r)
    {["apiVersion" := JStr (or_apiVersion r); "kind" := JStr (or_kind r); "name" := JStr (or_name r); "uid" := JStr (or_uid r)]}).
Definition managed_of (m : gmap string json) : managed_field :=
  ManagedField (json_string (m !! "manager")) (json_string (m !! "operation")) (json_string (m !! "apiVersion"))
    (json_string (m !! "subresource")) (json_string (m !! "fieldsType")) (code <$> m !! "fieldsV1").

Lemma meta_set f o : meta (set_meta f o) = f (meta o).
Proof. unfold meta, set_meta. by rewrite lookup_insert_eq. Qed.

Lemma strings_set (v : gmap string string) : strings (Some (JObj (JStr <$> v))) = Some v.
Proof.
  simpl. f_equal. apply map_eq. intros k. rewrite lookup_omap, lookup_fmap. by destruct (v !! k).
Qed.

Lemma nested_meta o k : nested o k = json_string (meta o !! k).
Proof. unfold nested, meta. by destruct (o !! "metadata") as [[]|]. Qed.

Lemma key_set_meta f o : f (meta o) !! "name" = meta o !! "name" → f (meta o) !! "namespace" = meta o !! "namespace" →
  target_key (set_meta f o) = target_key o.
Proof.
  intros Hn Hns. unfold target_key. cbn [GroupVersionKind GetNamespace GetName api].
  rewrite !nested_meta, meta_set, Hn, Hns. unfold toplevel, set_meta. by rewrite !lookup_insert_ne.
Qed.

Lemma get_set_strings key v o : strings (meta (set_strings key v o) !! key) = v.
Proof.
  unfold set_strings. rewrite meta_set. destruct v as [v|]; [by rewrite lookup_insert_eq, strings_set|].
  by rewrite lookup_delete_eq.
Qed.

Lemma key_set_strings key v o : key ∉ ["name"; "namespace"] → target_key (set_strings key v o) = target_key o.
Proof.
  intros Hk. assert (key ≠ "name" ∧ key ≠ "namespace") as [? ?] by set_solver.
  apply key_set_meta; destruct v; by rewrite ?lookup_insert_ne, ?lookup_delete_ne by done.
Qed.

Definition remove_nested (fields : list string) (o : object) : object :=
  match fields with
  | [field] => delete field o
  | ["metadata"; field] => set_meta (delete field) o
  | _ => o
  end.

#[export] Instance objects : ObjectApi.
Proof.
  refine {|
    GetResourceVersion o := json_string (meta o !! "resourceVersion");
    GetGeneration o := default 0%Z (number (meta o !! "generation"));
    GetDeletionTimestamp o := number (meta o !! "deletionTimestamp");
    GetLabels o := strings (meta o !! "labels");
    GetAnnotations o := strings (meta o !! "annotations");
    GetOwnerReferences o := items reference_of (meta o !! "ownerReferences");
    GetFinalizers o := match meta o !! "finalizers" with Some (JArr l) => (λ v, json_string (Some v)) <$> l | _ => [] end;
    GetManagedFields o := items managed_of (meta o !! "managedFields");
    SetManagedFieldsNil := set_meta (delete "managedFields");
    SetResourceVersion v := set_meta (<["resourceVersion" := JStr v]>);
    SetUID u := set_meta (<["uid" := JStr u]>);
    SetLabels := set_strings "labels";
    SetAnnotations := set_strings "annotations";
    SetOwnerReferences refs := set_meta (<["ownerReferences" := JArr (of_reference <$> refs)]>);
    RemoveNestedField := remove_nested;
  |}; intros.
  all: try (apply key_set_strings; set_solver).
  all: try (apply key_set_meta; by rewrite ?lookup_insert_ne, ?lookup_delete_ne by congruence).
  - by rewrite get_set_strings.
  - by rewrite get_set_strings.
  - unfold set_strings. rewrite meta_set. destruct l; by rewrite ?lookup_insert_ne, ?lookup_delete_ne by done.
  - by rewrite meta_set, lookup_insert_ne.
  - by rewrite meta_set, lookup_insert_ne.
  - by rewrite meta_set, lookup_insert_eq.
  - by rewrite meta_set, lookup_insert_ne.
  - cbn [GetUID api]. by rewrite nested_meta, meta_set, lookup_insert_eq.
  - unfold target_key. cbn. unfold toplevel, nested. by rewrite !(H _) by set_solver.
  - cbn. unfold toplevel. by rewrite !(H _) by set_solver.
  - cbn. unfold nested. by rewrite H.
  - cbn. unfold nested. by rewrite H.
Defined.

#[export] Instance reconcile_overrides_countable : Countable reconcile_overrides.
Proof.
  apply (inj_countable' (λ o, (ro_specPatch o, ro_baseSpec o, ro_gvk o, ro_namespace o, ro_name o))
    (λ '(a, b, c, d, e), ReconcileOverrides a b c d e)). by intros [].
Defined.
#[export] Instance pause_data_eq_dec : EqDecision pause_data.
Proof. solve_decision. Defined.
#[export] Instance pause_data_countable : Countable pause_data.
Proof.
  apply (inj_countable' (λ p, (pd_generation p, pd_previousOverrides p)) (λ '(a, b), ReconcilePauseData a b)). by intros [].
Defined.
#[export] Instance resource_intent_eq_dec : EqDecision resource_intent.
Proof. solve_decision. Defined.
#[export] Instance resource_intent_countable : Countable resource_intent.
Proof.
  apply (inj_countable'
    (λ r, ((ri_version r, ri_publicationProtocol r, ri_baseResourceVersion r, ri_ownerUID r, ri_resourceUID r),
           (ri_configuration r, ri_schemaHash r, ri_desired r, ri_effective r, ri_preserved r, ri_pause r)))
    (λ '((a, b, c, d, e), (f, g, h, i, j, k)), ResourceIntent a b c d e f g h i j k)). by intros [].
Defined.

Definition config_map : object :=
  {["apiVersion" := JStr "v1"; "kind" := JStr "ConfigMap"; "metadata" := JObj {["name" := JStr "redis-conf"; "namespace" := JStr "prod"]};
    "data" := JObj {["maxmemory" := JStr "1gb"]}]}.
Definition record1 : resource_intent := ResourceIntent 1 1 "7" "owner-1" "uid-7" "" "h" (Some config_map) None [".data.save"] None.

(** A text is the code of a record; the code of [record1] is short. *)
Definition marshal (r : resource_intent) : string := if decide (r = record1) then "r1" else pos_to_bits (encode r).
Definition unmarshal (s : string) : option resource_intent :=
  if String.eqb s "r1" then Some record1 else decode (bits_to_pos s).

Lemma unmarshal_marshal_record r : unmarshal (marshal r) = Some r.
Proof.
  unfold unmarshal, marshal. case_decide as Hr; [by subst|].
  destruct (String.eqb_spec (pos_to_bits (encode r)) "r1") as [Heq|_].
  - by destruct (encode r).
  - by rewrite bits_roundtrip, countable.decode_encode.
Qed.

#[export] Instance codec : IntentCodec.
Proof.
  refine {|
    marshal_intent r := Some (marshal r);
    unmarshal_intent := unmarshal;
    intentEncoder := Some (λ s, s);
    intentDecoder := Some Some;
    base64 s := s;
  |}.
  - intros r raw _ _ [= <-]. rewrite unmarshal_marshal_record. by eexists.
  - intros r raw r' [= <-]. rewrite unmarshal_marshal_record. by intros [= <-].
  - intros r1 r2 raw [= <-] [= Heq]. apply (f_equal unmarshal) in Heq. rewrite !unmarshal_marshal_record in Heq. by injection Heq.
  - by intros encoder raw1 raw2 [= <-].
  - by intros encoder decoder raw [= <-] [= <-].
Defined.
End ObjectJson.

Section Witness.
Import ObjectJson.

Lemma intent_codec_roundtrip_witness :
  ∃ data, encodeResourceIntent record1 = Ok data ∧ decodeResourceIntent data = Ok record1.
Proof.
  eexists. split; [reflexivity|]. refine (proj1 (intent_codec_roundtrip record1 _ eq_refl _ _ _)).
  - by eexists.
  - vm_compute; discriminate.
  - exact I.
Defined.
End Witness.
