(* ===== verification/IntentWriter.v ===== *)
(** * Writing managed resources

    [ManagedResourceWriter] ([managed_resource.go], [resource_intent.go],
    [configuration_adoption.go]): every update of a managed resource is a
    three-way merge guarded by the identity and version of the object it was
    computed from, and is published together with a pointer to the record of
    the intent it wrote. *)
From stdpp Require Import base gmap strings list option.
From Stdlib Require Import Ascii ZArith Lia.
From S2P Require Import Prelude Labels Conditions Prog Middleware Json Adoption FieldPath IntentMerge IntentRecord.

(** ** JSON patches: an operation has a name, a path and a value

    [CreatePatch] is [gomodules.xyz/jsonpatch]; [ApplyPatch] is what the API
    server does with a patch (RFC 6902): a test that fails refuses it. *)
Record patch_op := PatchOp { po_op : string; po_path : string; po_value : json }.
#[export] Instance patch_op_eq_dec : EqDecision patch_op.
Proof. solve_decision. Defined.

Class JsonPatch `{ObjectApi} := {
  CreatePatch : object → object → result error (list patch_op);
  ApplyPatch : list patch_op → object → option object;
  create_apply a b ops : CreatePatch a b = Ok ops → ApplyPatch ops a = Some b;
  test_uid u ops o o' : ApplyPatch (PatchOp "test" "/metadata/uid" (JStr u) :: ops) o = Some o' →
    GetUID o = u ∧ ApplyPatch ops o = Some o';
  test_rv v ops o o' : ApplyPatch (PatchOp "test" "/metadata/resourceVersion" (JStr v) :: ops) o = Some o' →
    GetResourceVersion o = v ∧ ApplyPatch ops o = Some o';
  labels_only op o o' : po_path op = "/metadata/labels" ∨ String.prefix "/metadata/labels/" (po_path op) = true →
    ApplyPatch [op] o = Some o' →
    GetAnnotations o' = GetAnnotations o ∧ GetUID o' = GetUID o ∧ target_key o' = target_key o;
}.

(** ** Calls *)

(** What the search for competing claims reads of a Middleware or a
    MiddlewareOperator. *)
Record claimant := Claimant {
  cl_name : string; cl_uid : string; cl_configurations : list string;
  cl_inventory : list rendered_resource; cl_baseline : string; cl_operator : bool;
}.

(** A failed read of a target, with the details of the API status. *)
Record status_details := StatusDetails { sd_name : string; sd_group : string; sd_kind : string }.

Section Writer.
Context {typed : Type}.

Inductive wcall : Type → Type :=
  | ReadOwner (o : owner) : wcall (result error owner)
  | ReadObject (g : gvk) (ns name : string) : wcall (result error object)
  | ReadSecret (ns name : string) : wcall (result error secret)
  | CreateSecret (dryRun : bool) (s : secret) : wcall (result error secret)
  | DeleteSecret (s : secret) : wcall (option error)
  | CreateObject (obj : object) : wcall (result error object)
  | ApplyObject (dryRun : bool) (obj : object) : wcall (result error object)
  | PatchObject (dryRun : bool) (target : object) (patch : list patch_op) : wcall (result error object)
  | ResolveSchema (g : gvk) : wcall (result error (type_converter typed * string))
  | ListClaimants (operators : bool) : wcall (result error (list claimant))
  | BaselineConfigurations (operator : bool) (name : string) : wcall (result error (list string))
  | RESTMapping (g : gvk) : wcall (result error (bool * string * string))
  | ReadTarget (g : gvk) (ns name : string) : wcall (result (error * option status_details) object)
  | ReadOwnerNamed (t : owner_type) (ns name : string) : wcall (result error owner)
  | UpdateOwnerStatus (o : owner) : wcall (option error)
  | ListRecords (continuation : string) : wcall (result error (list secret * string))
  | Now : wcall Z
  | ContextErr : wcall (option error)
  | ReportPreserved (reason : string) : wcall unit.

Abbreviation wprog := (prog wcall).
Abbreviation wevent := (event wcall).

Context `{FieldPathLib, !TypedLib typed, ObjectApi, !IntentCodec, !JsonPatch, JsonLib}.
Context (decimal : Z → string) (ParseGroup : string → option string) (FieldsFromJSON : string → option fset).
(** Whether a schema resolver is configured. *)
Context (IntentSchemas : bool).

Abbreviation merge_intent := (MergeResourceIntent decimal).
Abbreviation capture_defaults := (CaptureResourceIntentDefaults decimal).
Abbreviation verify_identity := (verifyIntentIdentity ParseGroup).

(** ** Patches *)

(** [intentPatch], internal/k8s/resource_intent.go *)
Definition intentPatch (live after : object) : result error (list patch_op) :=
  operations ← CreatePatch live after;
  Ok (PatchOp "test" "/metadata/uid" (JStr (GetUID live)) ::
      PatchOp "test" "/metadata/resourceVersion" (JStr (GetResourceVersion live)) :: operations).

(** [intentWriteError], internal/k8s/resource_intent.go *)
Definition intentWriteError (live : object) (err : error) : wprog error :=
  if negb (bool_decide (e_kind err = Invalid)) then Ret err
  else
    current ← call (ReadObject (GroupVersionKind live) (GetNamespace live) (GetName live));
    match current with
    | Ok current =>
        if negb (String.eqb (GetUID current) (GetUID live)) ||
           negb (String.eqb (GetResourceVersion current) (GetResourceVersion live))
        then Ret (Error Conflict (e_msg err)) else Ret err
    | Err _ => Ret err
    end.

Definition patch_intent (dryRun : bool) (live after : object) : wprog (result error object) :=
  patch ←? pure (intentPatch live after);
  r ← call (PatchObject dryRun live patch);
  match r with
  | Ok accepted => Ret (Ok accepted)
  | Err e => e ← intentWriteError live e; Ret (Err e)
  end.

(** [validateIntentPatch], internal/k8s/resource_intent.go *)
Definition validateIntentPatch (live after : object) : wprog (result error object) := patch_intent true live after.

(** [commitIntentPatch], internal/k8s/resource_intent.go *)
Definition commitIntentPatch (live after : object) : wprog (result error object) := patch_intent false live after.

(** ** Records *)

(** [prepareResourceIntent], internal/k8s/resource_intent.go *)
Definition prepareResourceIntent (owner : owner) (live desired : object) (configuration schemaHash : string)
    (preserved : list string) (effective : option object) : wprog (result error secret) :=
  if String.eqb (GetUID live) "" || String.eqb (GetResourceVersion live) ""
  then Ret (Err (managedWriteBlocked "intent publication requires resource UID and resourceVersion"))
  else
    let input := intentObject desired in
    let stored := match effective with
                  | Some effective => if decide (input = effective) then None else Some (intentObject effective)
                  | None => None
                  end in
    let record := ResourceIntent 1 intentPublicationProtocol (GetResourceVersion live) (ow_uid owner) (GetUID live)
                    configuration schemaHash (Some input) stored preserved None in
    secret ←? pure (buildResourceIntentSecret owner record);
    r ← call (CreateSecret false secret);
    match r with
    | Ok secret => Ret (Ok secret)
    | Err e => Ret (Err (wrap_error "create resource intent Secret" e))
    end.

(** An error other than not found is only logged. *)
(** [discardIntentRecord], internal/k8s/resource_intent.go *)
Definition discardIntentRecord (s : option secret) : wprog unit :=
  match s with
  | None => Ret tt
  | Some s => _ ← call (DeleteSecret s); Ret tt
  end.

(** The server refused the write for good. *)
Definition rejected (e : error) : bool :=
  bool_decide (e_kind e = Conflict ∨ e_kind e = Invalid ∨ e_kind e = Forbidden ∨ e_kind e = Unauthorized ∨
               e_kind e = NotFound).

(** [cleanupUncommittedIntent], internal/k8s/resource_intent.go *)
Definition cleanupUncommittedIntent (live : object) (prepared : secret) (writeErr : error) : wprog unit :=
  if negb (rejected writeErr) then Ret tt
  else
    current ← call (ReadObject (GroupVersionKind live) (GetNamespace live) (GetName live));
    match current with
    | Err e => if is_not_found e then discardIntentRecord (Some prepared) else Ret tt
    | Ok current => if negb (String.eqb (pointer current) (s_name prepared))
                    then discardIntentRecord (Some prepared) else Ret tt
    end.

(** [loadResourceIntent], internal/k8s/resource_intent.go *)
Definition loadResourceIntent (owner : owner) (live : object) (configuration : string) :
    wprog (result error (option (resource_intent * secret))) :=
  let name := pointer live in
  if String.eqb name "" then Ret (Ok None)
  else
    r ← call (ReadSecret (ow_namespace owner) name);
    match r with
    | Err e => Ret (Err (wrap_error "read resource intent record" e))
    | Ok s =>
        if negb (bool_decide (s_immutable s = Some true)) ||
           negb (String.eqb ((s_labels s).[intentRecordLabel]) (ow_uid owner)) ||
           bool_decide (is_Some (s_deletionTimestamp s))
        then Ret (Err (managedWriteBlocked "invalid resource intent record"))
        else
          expected ←? pure (intentOwnerReference owner);
          if negb (match GetControllerOf (s_owners s) with
                   | Some ref => String.eqb (or_uid ref) (or_uid expected) && String.eqb (or_name ref) (or_name expected) &&
                       String.eqb (or_kind ref) (or_kind expected) && String.eqb (or_apiVersion ref) (or_apiVersion expected)
                   | None => false end)
          then Ret (Err (managedWriteBlocked "resource intent record owner mismatch"))
          else match decodeResourceIntent (s_data s) with
          | Err _ => Ret (Err (managedWriteBlocked "invalid resource intent record data"))
          | Ok record =>
              match ri_desired record with
              | Some recorded =>
                  if negb (ri_version record =? 1)%Z || bool_decide (is_Some (ri_pause record))
                  then Ret (Err (managedWriteBlocked "invalid resource intent record data"))
                  else if negb (String.eqb (ri_ownerUID record) (ow_uid owner)) ||
                          negb (String.eqb (ri_resourceUID record) (GetUID live)) ||
                          negb (String.eqb (ri_configuration record) configuration) ||
                          negb (bool_decide (target_key recorded = target_key live))
                  then Ret (Err (managedWriteBlocked "resource intent record identity mismatch"))
                  else Ret (Ok (Some (record, s)))
              | None => Ret (Err (managedWriteBlocked "invalid resource intent record data"))
              end
          end
    end.

(** [preflightResourceIntent], internal/k8s/resource_intent.go *)
Definition preflightResourceIntent (owner : owner) (desired : object) (configuration : string) : wprog (result error unit) :=
  '(converter, hash) ←? call (ResolveSchema (GroupVersionKind desired));
  match ObjectToTyped converter (intentObject desired) with
  | Err _ => Ret (Err (new_error "rendered intent does not match the resource schema"))
  | Ok _ =>
      preview ←? call (ApplyObject true (cleanApplyObject desired));
      let input := intentObject desired in
      effective ←? pure (capture_defaults (Some converter) (Some input) (Some input) (Some input) (Some (intentObject preview)));
      let record := ResourceIntent 1 intentPublicationProtocol "18446744073709551615" (ow_uid owner)
        "00000000-0000-0000-0000-000000000000" configuration hash (Some input)
        (if decide (input = effective) then None else Some effective) [] None in
      secret ←? pure (buildResourceIntentSecret owner record);
      r ← call (CreateSecret true secret);
      match r with
      | Ok _ => Ret (Ok tt)
      | Err e => Ret (Err (wrap_error "validate resource intent Secret" e))
      end
  end.

(** ** A new resource gets its first record *)

(** One attempt against [current]: the loop ends with an answer, or goes on
    with the refreshed object. *)
(** [initializeResourceIntent], internal/k8s/resource_intent.go:312-346 *)
Definition initialize_attempt (owner : owner) (live desired : object) (configuration hash : string)
    (effective current : object) : wprog (result error unit + object) :=
  prepared ← prepareResourceIntent owner current desired configuration hash [] (Some effective);
  match prepared with
  | Err e => Ret (inl (Err e))
  | Ok prepared =>
      r ← commitIntentPatch current (setIntentPointer current (s_name prepared));
      match r with
      | Ok _ => Ret (inl (Ok tt))
      | Err e =>
          _ ← cleanupUncommittedIntent current prepared e;
          if negb (is_conflict e) then Ret (inl (Err e))
          else
            r ← call (ReadObject (GroupVersionKind live) (GetNamespace live) (GetName live));
            match r with
            | Err e => Ret (inl (Err e))
            | Ok current =>
                if negb (String.eqb (GetUID current) (GetUID live))
                then Ret (inl (Err (managedWriteBlocked "new resource replaced before recording its intent")))
                else match verify_identity owner current configuration with
                | Err e => Ret (inl (Err e))
                | Ok _ =>
                    if negb (String.eqb (pointer current) "")
                    then _ ← discardIntentRecord (Some prepared); Ret (inl (Ok tt))
                    else Ret (inr current)
                end
            end
      end
  end.

Fixpoint initialize_loop (attempts : nat) (owner : owner) (live desired : object) (configuration hash : string)
    (effective current : object) : wprog (result error unit) :=
  match attempts with
  | 0 => Ret (Err (Error Conflict "resource changed while initializing intent"))
  | S attempts =>
      r ← initialize_attempt owner live desired configuration hash effective current;
      match r with
      | inl r => Ret r
      | inr current => initialize_loop attempts owner live desired configuration hash effective current
      end
  end.

(** [initializeResourceIntent], internal/k8s/resource_intent.go *)
Definition initializeResourceIntent (owner : owner) (live desired : object) (configuration : string) :
    wprog (result error unit) :=
  _ ←? pure (verify_identity owner live configuration);
  '(converter, hash) ←? call (ResolveSchema (GroupVersionKind desired));
  let input := intentObject desired in
  effective ←? pure (capture_defaults (Some converter) (Some input) (Some input) (Some input) (Some (intentObject live)));
  initialize_loop 5 owner live desired configuration hash effective live.

(** ** Updating a resource that has a record *)

(** [foreignApplyFields], internal/k8s/resource_intent.go *)
Definition foreignApplyFields (live : object) : result error fset :=
  foldl (λ protected entry,
    match protected with
    | Err e => Err e
    | Ok protected =>
        if negb (String.eqb (mf_operation entry) "Apply") || String.eqb (mf_manager entry) "opensaola" ||
           negb (String.eqb (mf_subresource entry) "")
        then Ok protected
        else match mf_fieldsV1 entry with
        | Some raw =>
            if negb (String.eqb (mf_apiVersion entry) (GetAPIVersion live)) || negb (String.eqb (mf_fieldsType entry) "FieldsV1")
            then Err (managedWriteBlocked "cannot interpret external Apply field ownership in current API version")
            else match FieldsFromJSON raw with
                 | None => Err (managedWriteBlocked "invalid external Apply fields")
                 | Some fields => Ok (Union protected fields)
                 end
        | None => Err (managedWriteBlocked "cannot interpret external Apply field ownership in current API version")
        end
    end) (Ok NewSet) (GetManagedFields live).

(** The collector's fence label of the live object is kept. *)
Definition with_fence (live : object) (labels : option (gmap string string)) : option (gmap string string) :=
  let fence := map_at (GetLabels live) LabelResourceIntentGCFence in
  if String.eqb fence "" then labels else Some (<[LabelResourceIntentGCFence := fence]> (default ∅ labels)).

(** The merged business surface, with the system metadata of the live object. *)
(** [reconcileResourceIntent], internal/k8s/resource_intent.go:461-490 *)
Definition merged_after (live merged : object) : object :=
  let surface := intentObject live in
  let after := filter (λ kv, surface !! kv.1 = None ∨ kv.1 ∈ ["metadata"; "apiVersion"; "kind"]) live in
  let after := map_fold (λ key value (after : object),
    if String.eqb key "metadata" then after else <[key := value]> after) after merged in
  let annotations := filter (λ kv, default ∅ (GetAnnotations surface) !! kv.1 = None) (default ∅ (GetAnnotations after)) in
  let annotations := default ∅ (GetAnnotations merged) ∪ annotations in
  let after := SetAnnotations (Some annotations) after in
  SetLabels (with_fence live (GetLabels merged)) after.

Definition force_apply (owner : owner) : bool :=
  match ow_type owner with
  | OwnerMiddleware =>
      bool_decide (ReconcileResumePolicyFor (ow_annotations owner) = Some ResumeApply) &&
      existsb (λ c, String.eqb (c_type c) CondTypeReconcilePaused && bool_decide (c_status c = ConditionTrue))
        (ow_conditions owner)
  | _ => false
  end.

(** No record yet: the whole desired object is applied, guarded by the version read. *)
(** [reconcileResourceIntent], internal/k8s/resource_intent.go:387-419 *)
Definition bootstrap_intent (owner : owner) (live desired : object) (configuration schemaHash : string)
    (converter : type_converter typed) (input : object) : wprog (result error unit) :=
  '(submitted, _) ←? pure (merge_intent (Some converter) None (Some (intentObject live)) (Some input) None);
  preview ←? call (ApplyObject true (SetUID (GetUID live) (SetResourceVersion (GetResourceVersion live) (cleanApplyObject desired))));
  effective ←? pure (capture_defaults (Some converter) (Some input) (Some input) (Some submitted) (Some (intentObject preview)));
  prepared ←? prepareResourceIntent owner live desired configuration schemaHash [] (Some effective);
  let apply := SetUID (GetUID live) (SetResourceVersion (GetResourceVersion live)
    (setIntentPointer (cleanApplyObject desired) (s_name prepared))) in
  r ← call (ApplyObject false apply);
  match r with
  | Err e => _ ← cleanupUncommittedIntent live prepared e; Ret (Err e)
  | Ok _ => _ ← call (ReportPreserved "baseline established"); Ret (Ok tt)
  end.

Fixpoint report_all (prefix : string) (paths : list string) : wprog unit :=
  match paths with
  | [] => Ret tt
  | path :: paths => _ ← call (ReportPreserved (prefix +:+ path)); report_all prefix paths
  end.

(** [reconcileResourceIntent], internal/k8s/resource_intent.go:420-514 *)
Definition update_intent (owner : owner) (live desired : object) (configuration schemaHash : string)
    (converter : type_converter typed) (input : object) (record : resource_intent) (previous : secret) :
    wprog (result error unit) :=
  protected ←? pure (foreignApplyFields live);
  let before := match ri_effective record with Some effective => Some effective | None => ri_desired record end in
  effectiveInput ←? pure (CarryResourceIntentDefaults decimal (Some converter) (ri_desired record) before (Some input));
  '(merged, preserved) ←? pure (merge_intent (Some converter) before (Some (intentObject live)) (Some effectiveInput)
    (Some protected));
  merged ←? pure (if force_apply owner
    then '(merged, _) ← merge_intent (Some converter) None (Some merged) (Some input) None; Ok merged
    else Ok merged);
  _ ← report_all "previous update retained a field at " (ri_preserved record);
  _ ← report_all "external or ambiguous field retained: " preserved;
  let after := merged_after live merged in
  if decide (ri_desired record = Some input ∧ live = after) then Ret (Ok tt)
  else
    accepted ←? validateIntentPatch live after;
    effective ←? pure (capture_defaults (Some converter) (Some input) (Some effectiveInput) (Some (intentObject after))
      (Some (intentObject accepted)));
    prepared ←? prepareResourceIntent owner live desired configuration schemaHash preserved (Some effective);
    r ← commitIntentPatch live (setIntentPointer after (s_name prepared));
    match r with
    | Err e => _ ← cleanupUncommittedIntent live prepared e; Ret (Err e)
    | Ok _ => _ ← discardIntentRecord (Some previous); Ret (Ok tt)
    end.

(** [reconcileResourceIntent], internal/k8s/resource_intent.go *)
Definition reconcileResourceIntent (owner : owner) (live desired : object) (configuration : string) :
    wprog (result error unit) :=
  _ ←? pure (verify_identity owner live configuration);
  '(converter, schemaHash) ←? call (ResolveSchema (GroupVersionKind desired));
  loaded ←? loadResourceIntent owner live configuration;
  if match loaded with Some (record, _) => negb (String.eqb (ri_schemaHash record) schemaHash) | None => false end
  then Ret (Err (managedWriteBlocked "resource schema changed since recorded intent; refusing to infer deletions"))
  else
    let input := intentObject desired in
    match ObjectToTyped converter input with
    | Err _ => Ret (Err (new_error "rendered intent does not match the resource schema"))
    | Ok _ =>
        match loaded with
        | None => bootstrap_intent owner live desired configuration schemaHash converter input
        | Some (record, previous) =>
            update_intent owner live desired configuration schemaHash converter input record previous
        end
    end.

(** ** Owners *)

(** [freshWriteOwner], internal/k8s/managed_resource.go *)
Definition freshWriteOwner (o : owner) : wprog (result error owner) :=
  fresh ←? call (ReadOwner o);
  if negb (String.eqb (ow_uid fresh) (ow_uid o)) || negb (bool_decide (ow_generation fresh = ow_generation o)) ||
     bool_decide (is_Some (ow_deletionTimestamp fresh))
  then Ret (Err (managedWriteBlocked "owner changed or deleting"))
  else match ow_type fresh with
  | OwnerMiddleware =>
      if IsMiddlewareReconcileWriteSuspended (ow_annotations fresh) (ow_conditions fresh)
      then Ret (Err (managedWriteBlocked "Middleware paused")) else Ret (Ok fresh)
  | OwnerMiddlewareOperator =>
      if IsReconcileSuspended (ow_annotations fresh)
      then Ret (Err (managedWriteBlocked "MiddlewareOperator paused")) else Ret (Ok fresh)
  | OwnerOther => Ret (Ok fresh)
  end.

(** [verifyObservedSpecForWrite], internal/k8s/observed_spec_changes.go *)
Definition verifyObservedSpecForWrite (o : owner) (live : option object) (configuration : string) : result error unit :=
  match ow_type o, ow_reconcilePause o with
  | OwnerMiddleware, Some snapshot =>
      if negb (String.eqb configuration "") then Ok tt
      else if negb (bool_decide (ReconcileResumePolicyFor (ow_annotations o) = Some ResumeMerge)) then Ok tt
      else match live with
      | None => Err (Error ObservedSpecChanged "primary resource is missing or replaced")
      | Some live =>
          if String.eqb (ps_resourceUID snapshot) "" || negb (String.eqb (GetUID live) (ps_resourceUID snapshot)) ||
             bool_decide (is_Some (GetDeletionTimestamp live)) || negb (String.eqb (GetName live) (ps_name snapshot)) ||
             negb (String.eqb (GetNamespace live) (ps_namespace snapshot)) ||
             negb (bool_decide (GroupVersionKind live = ps_gvk snapshot))
          then Err (Error ObservedSpecChanged "primary resource is missing or replaced")
          else
            let hash := sha256_hex (Marshal (default JNull (live !! "spec"))) in
            if String.eqb (ps_adoptedLiveSpecHash snapshot) "" || negb (String.eqb (ps_adoptedLiveSpecHash snapshot) hash)
            then Err (Error ObservedSpecChanged "paused primary custom resource spec changed after adoption") else Ok tt
      end
  | _, _ => Ok tt
  end.

(** ** Adopting configuration resources ([configuration_adoption.go]) *)

Definition in_inventory (live : object) (entry : rendered_resource) : bool :=
  String.eqb (rr_group entry) (gvk_group (GroupVersionKind live)) && String.eqb (rr_kind entry) (GetKind live) &&
  String.eqb (rr_namespace entry) (GetNamespace live) && String.eqb (rr_name entry) (GetName live).

(** [checkConfigurationClaimants], internal/k8s/configuration_adoption.go:75-120 *)
Definition check_claimant (owner : owner) (live : object) (configuration oldUID : string) (c : claimant) :
    wprog (result error unit) :=
  if String.eqb (cl_uid c) (ow_uid owner) then Ret (Ok tt)
  else
    let conflict := (String.eqb (cl_uid c) oldUID && negb (String.eqb oldUID "")) ||
                    existsb (in_inventory live) (cl_inventory c) in
    let references configurations := existsb (String.eqb configuration) configurations in
    let conflict := conflict || (String.eqb (cl_name c) (ow_name owner) && references (cl_configurations c)) in
    conflict ←? (if negb conflict && String.eqb (cl_name c) (ow_name owner) && negb (String.eqb (cl_baseline c) "")
                 then r ← call (BaselineConfigurations (cl_operator c) (cl_baseline c));
                      match r with
                      | Err e => Ret (Err (wrap_error "read baseline before configuration adoption" e))
                      | Ok configurations => Ret (Ok (references configurations))
                      end
                 else Ret (Ok conflict));
    if (conflict : bool) then Ret (Err (managedWriteBlocked "configuration adoption conflicts with existing owner"))
    else Ret (Ok tt).

Fixpoint check_claimants (owner : owner) (live : object) (configuration oldUID : string) (cs : list claimant) :
    wprog (result error unit) :=
  match cs with
  | [] => Ret (Ok tt)
  | c :: cs => _ ←? check_claimant owner live configuration oldUID c;
               check_claimants owner live configuration oldUID cs
  end.

(** [checkConfigurationClaimants], internal/k8s/configuration_adoption.go *)
Definition checkConfigurationClaimants (owner : owner) (live : object) (configuration oldUID : string) :
    wprog (result error unit) :=
  mids ←? call (ListClaimants false);
  mos ←? call (ListClaimants true);
  check_claimants owner live configuration oldUID (mids ++ mos).

(** [configurationNeedsAdoption], internal/k8s/configuration_adoption.go *)
Definition configurationNeedsAdoption (owner : owner) (live desired : object) (configuration : string) :
    wprog (result error bool) :=
  match verify_identity owner live configuration with
  | Ok _ => Ret (Ok false)
  | Err identityErr =>
      if String.eqb (ow_uid owner) "" || bool_decide (is_Some (ow_deletionTimestamp owner)) ||
         String.eqb (GetUID live) "" || bool_decide (is_Some (GetDeletionTimestamp live)) ||
         negb (bool_decide (target_key live = target_key desired)) ||
         negb (String.eqb (map_at (GetLabels live) LabelApp) (ow_name owner)) ||
         negb (String.eqb (map_at (GetAnnotations live) LabelConfigurations) configuration)
      then Ret (Err identityErr)
      else
        let oldUID := map_at (GetAnnotations live) AnnotationConfigurationOwnerUID in
        oldUID ←? pure (match GetControllerOf (GetOwnerReferences live) with
          | None => Ok oldUID
          | Some ref =>
              expected ← intentOwnerReference owner;
              if negb (match ParseGroup (or_apiVersion ref) with Some g => String.eqb g api_group | None => false end) ||
                 negb (String.eqb (or_kind ref) (or_kind expected)) || negb (String.eqb (or_name ref) (or_name expected)) ||
                 negb (String.eqb (GetNamespace live) (ow_namespace owner)) || String.eqb (or_uid ref) "" ||
                 (negb (String.eqb oldUID "") && negb (String.eqb oldUID (or_uid ref)))
              then Err identityErr else Ok (or_uid ref)
          end);
        _ ←? checkConfigurationClaimants owner live configuration oldUID;
        Ret (Ok true)
  end.

(** The references of the live object without its controller, each replaced by
    the desired one with the same UID, and the new ones. *)
(** [adoptConfigurationResource], internal/k8s/configuration_adoption.go:168-186 *)
Definition adopted_references (live desired : list owner_reference) : list owner_reference :=
  foldl (λ refs ref,
    match list_find (λ r, or_uid r = or_uid ref) refs with
    | Some (i, _) => <[i := ref]> refs
    | None => refs ++ [ref]
    end) (filter (λ r, or_controller r ≠ Some true) live) desired.

(** [adoptConfigurationResource], internal/k8s/configuration_adoption.go *)
Definition adoptConfigurationResource (owner : owner) (live desired : object) (configuration : string) :
    wprog (result error unit) :=
  if negb IntentSchemas
  then Ret (Err (managedWriteBlocked "configuration adoption requires a resource schema resolver"))
  else
    '(converter, hash) ←? call (ResolveSchema (GroupVersionKind desired));
    let input := intentObject desired in
    '(merged, _) ←? pure (merge_intent (Some converter) None (Some (intentObject live)) (Some input) None);
    let after := map_fold (λ key value (after : object),
      if String.eqb key "metadata" then after else <[key := value]> after) live merged in
    let after := SetAnnotations (GetAnnotations merged) (SetLabels (with_fence live (GetLabels merged)) after) in
    let after := SetOwnerReferences (adopted_references (GetOwnerReferences live) (GetOwnerReferences desired)) after in
    _ ←? pure (verify_identity owner after configuration);
    accepted ←? validateIntentPatch live after;
    effective ←? pure (capture_defaults (Some converter) (Some input) (Some input) (Some (intentObject after))
      (Some (intentObject accepted)));
    prepared ←? prepareResourceIntent owner live desired configuration hash [] (Some effective);
    recheck ← (_ ←? freshWriteOwner owner; configurationNeedsAdoption owner live desired configuration);
    match recheck with
    | Err e => _ ← discardIntentRecord (Some prepared); Ret (Err e)
    | Ok _ =>
        r ← commitIntentPatch live (setIntentPointer after (s_name prepared));
        match r with
        | Err e => _ ← cleanupUncommittedIntent live prepared e; Ret (Err e)
        | Ok _ => Ret (Ok tt)
        end
    end.

(** ** The writer ([managed_resource.go]) *)

(** An attempt returns from the loop, or reaches its end with an error to test. *)
Inductive attempt_end := | Return_ (r : result error unit) | Tail (err : option error).

Definition tail (p : wprog (result error unit)) : wprog attempt_end :=
  r ← p; Ret (Tail (match r with Ok _ => None | Err e => Some e end)).

(** [Reconcile], internal/k8s/managed_resource.go:207-220 *)
Definition create_resource (fresh : owner) (desired : object) (configuration : string) : wprog attempt_end :=
  let intent := cleanApplyObject desired in
  preflight ← (if IntentSchemas && negb (isImmutableResource intent)
               then preflightResourceIntent fresh intent configuration else Ret (Ok tt));
  match preflight with
  | Err e => Ret (Return_ (Err e))
  | Ok _ =>
      r ← (if isImmutableResource intent then call (CreateObject intent) else call (ApplyObject false intent));
      match r with
      | Err e => Ret (Tail (Some e))
      | Ok intent =>
          if IntentSchemas && negb (isImmutableResource intent)
          then tail (initializeResourceIntent fresh intent desired configuration)
          else Ret (Tail None)
      end
  end.

(** [Reconcile], internal/k8s/managed_resource.go:222-244 *)
Definition update_resource (fresh : owner) (live desired : object) (configuration : string) : wprog attempt_end :=
  adopt ← (if String.eqb configuration ""
           then pure (_ ← verifyManagedIdentity ParseGroup fresh live; Ok false)
           else configurationNeedsAdoption fresh live desired configuration);
  match adopt with
  | Err e => Ret (Return_ (Err e))
  | Ok adopt =>
      if isImmutableResource live then Ret (Tail None)
      else if (adopt : bool) then tail (adoptConfigurationResource fresh live desired configuration)
      else if IntentSchemas then tail (reconcileResourceIntent fresh live desired configuration)
      else
        let intent := SetUID (GetUID live) (SetResourceVersion (GetResourceVersion live) (cleanApplyObject desired)) in
        r ← call (ApplyObject false intent);
        Ret (Tail (match r with Ok _ => None | Err e => Some e end))
  end.

(** [Reconcile], internal/k8s/managed_resource.go:187-252 *)
Definition reconcile_attempt (owner : owner) (desired : object) (configuration : string) : wprog attempt_end :=
  fresh ← freshWriteOwner owner;
  match fresh with
  | Err e => Ret (Return_ (Err e))
  | Ok fresh =>
      r ← call (ReadObject (GroupVersionKind desired) (GetNamespace desired) (GetName desired));
      match r with
      | Ok live =>
          match verifyObservedSpecForWrite fresh (Some live) configuration with
          | Err e => Ret (Return_ (Err e))
          | Ok _ => update_resource fresh live desired configuration
          end
      | Err e =>
          if is_not_found e then
            match verifyObservedSpecForWrite fresh None configuration with
            | Err e => Ret (Return_ (Err e))
            | Ok _ => create_resource fresh desired configuration
            end
          else Ret (Tail (Some e))
      end
  end.

Fixpoint reconcile_loop (attempts : nat) (owner : owner) (desired : object) (configuration : string) :
    wprog (result error unit) :=
  match attempts with
  | 0 => Ret (Err (new_error "resource changed during all managed write retries"))
  | S attempts =>
      r ← reconcile_attempt owner desired configuration;
      match r with
      | Return_ r => Ret r
      | Tail None => Ret (Ok tt)
      | Tail (Some e) => if is_conflict e then reconcile_loop attempts owner desired configuration else Ret (Err e)
      end
  end.

(** [Reconcile], internal/k8s/managed_resource.go *)
Definition Reconcile (owner : owner) (desired : option object) (configuration : string) : wprog (result error unit) :=
  match desired with
  | None => Ret (Ok tt)
  | Some desired => reconcile_loop 5 owner desired configuration
  end.
End Writer.

(** ** An implementation of patches: the document is replaced as a whole *)
Module DocumentPatch.
Export ObjectJson.

(** The key of a path below [/metadata/labels/], where [~1] stands for [/]. *)
Fixpoint unescape (s : string) : string :=
  match s with
  | String "~"%char (String "1"%char s) => String "/"%char (unescape s)
  | String "~"%char (String "0"%char s) => String "~"%char (unescape s)
  | String a s => String a (unescape s)
  | EmptyString => EmptyString
  end.

Definition label_key (path : string) : option string :=
  if String.prefix "/metadata/labels/" path then Some (unescape (String.substring 17 (String.length path) path)) else None.

Definition apply_op (op : patch_op) (o : object) : option object :=
  let test (got : string) := if decide (po_value op = JStr got) then Some o else None in
  if decide (po_op op = "test" ∧ po_path op = "/metadata/uid") then test (GetUID o)
  else if decide (po_op op = "test" ∧ po_path op = "/metadata/resourceVersion") then test (GetResourceVersion o)
  else if decide (po_op op = "replace" ∧ po_path op = "") then match po_value op with JObj m => Some m | _ => None end
  else if decide (po_op op = "add" ∧ po_path op = "/metadata/labels") then Some (set_meta (<["labels" := po_value op]>) o)
  else match label_key (po_path op) with
       | Some key => if decide (po_op op = "add") then
           match meta o !! "labels" with
           | Some (JObj labels) => Some (set_meta (<["labels" := JObj (<[key := po_value op]> labels)]>) o)
           | _ => None
           end else None
       | None => None
       end.

Fixpoint apply_ops (ops : list patch_op) (o : object) : option object :=
  match ops with [] => Some o | op :: ops => o ← apply_op op o; apply_ops ops o end.

Lemma set_labels_keeps v o : let o' := set_meta (<["labels" := v]>) o in
  GetAnnotations o' = GetAnnotations o ∧ GetUID o' = GetUID o ∧ target_key o' = target_key o.
Proof.
  cbn -[target_key set_meta]. rewrite !nested_meta, meta_set, !lookup_insert_ne by done. split_and!; [done..|].
  by apply key_set_meta; rewrite lookup_insert_ne.
Qed.

(** A server that finds nothing and accepts every write as it is. *)
Definition refuse {R} (c : wcall (typed := PathTyped.typed) R) : R :=
  match c in IntentWriter.wcall R return R with
  | ReadOwner o => Ok o | ReadObject _ _ _ => Err (new_error "") | ReadSecret _ _ => Err (new_error "")
  | CreateSecret _ s => Ok s | DeleteSecret _ => None | CreateObject o => Ok o | ApplyObject _ o => Ok o
  | PatchObject _ o _ => Ok o | ResolveSchema _ => Err (new_error "") | ListClaimants _ => Ok []
  | BaselineConfigurations _ _ => Ok [] | RESTMapping _ => Err (new_error "") | ReadTarget _ _ _ => Err (new_error "", None)
  | ReadOwnerNamed _ _ _ => Err (new_error "") | UpdateOwnerStatus _ => None | ListRecords _ => Ok ([], "")
  | Now => 0%Z | ContextErr => None | ReportPreserved _ => tt
  end.

#[export] Instance patch : JsonPatch.
Proof.
  refine {|
    CreatePatch a b := Ok [PatchOp "replace" "" (JObj b)];
    ApplyPatch := apply_ops;
  |}.
  - by intros a b ops [= <-].
  - intros u ops o o'. simpl. unfold apply_op at 1. simpl. case_decide as Hu; [|done]. by injection Hu.
  - intros v ops o o'. simpl. unfold apply_op at 1. simpl. case_decide as Hv; [|done]. by injection Hv.
  - intros op o o' Hpath. simpl. intros (o1 & Ha & [= ->])%bind_Some. unfold apply_op in Ha.
    assert (Hno : ∀ p, po_path op = p → p ∈ ["/metadata/uid"; "/metadata/resourceVersion"; ""] → False).
    { intros p Hop Hp%list_elem_of_In. rewrite Hop in Hpath. simpl in Hp.
      destruct Hp as [<-|[<-|[<-|[]]]], Hpath as [Hpath|Hpath]; cbv in Hpath; discriminate Hpath. }
    rewrite !decide_False in Ha by (intros [_ Hp]; eapply Hno; [exact Hp|set_solver]).
    destruct (decide _); [injection Ha as <-; apply set_labels_keeps|].
    destruct (label_key _); [|done]. destruct (decide _); [|done].
    destruct (meta o !! "labels") as [[]|]; try done. injection Ha as <-. apply set_labels_keeps.
Defined.
End DocumentPatch.
