(* ===== verification/IntentGC.v ===== *)
(** * Pause snapshots and the collection of intent records

    [reconcile_pause_snapshot.go] and [resource_intent_gc.go].  A record may be
    deleted only when no delayed publication of it can still succeed: the
    version that it was bound to must have passed, if need be because the
    collector itself moves it. *)
From stdpp Require Import base gmap strings list option.
From Stdlib Require Import ZArith Lia.
From S2P Require Import Prelude Labels Conditions Prog Middleware Json Adoption FieldPath IntentMerge IntentRecord IntentWriter.

Section Collector.
Context {typed : Type}.
Context `{FieldPathLib, !TypedLib typed, ObjectApi, !IntentCodec, !JsonPatch, JsonLib}.
Context (ParseGroup : string → option string).
Abbreviation wcall := (IntentWriter.wcall (typed := typed)).
Abbreviation wprog := (prog wcall).

(** [invalidPauseSnapshot], internal/k8s/reconcile_pause_snapshot.go *)
Definition invalidPauseSnapshot (msg : string) : error :=
  Error PauseSnapshotInvalid ("reconcile pause snapshot is invalid: " +:+ msg).

(** ** Deleting a record *)

(** [deleteRecord], internal/k8s/resource_intent_gc.go *)
Definition deleteRecord (s : secret) : wprog (result error bool) :=
  err ← call (DeleteSecret s);
  match err with
  | Some e => if is_not_found e then Ret (Ok true) else Ret (Err e)
  | None => Ret (Ok true)
  end.

(** ** Pause snapshots *)

(** [pauseRecordHash], internal/k8s/reconcile_pause_snapshot.go *)
Definition pauseRecordHash (record : resource_intent) : result error string :=
  match marshal_intent record with
  | None => Err (invalidPauseSnapshot "cannot encode record")
  | Some raw => match Unmarshal raw with
                | None => Err (invalidPauseSnapshot "cannot normalize record")
                | Some normalized => Ok (sha256_hex (Marshal normalized))
                end
  end.

(** The spec of an object: absent, an object, or something else. *)
Definition nested_spec (obj : object) : result error (option (gmap string json)) :=
  match obj !! "spec" with
  | None => Ok None
  | Some (JObj spec) => Ok (Some spec)
  | Some _ => Err (invalidPauseSnapshot "actual spec must be an object")
  end.

Definition group_version (g : gvk) : string :=
  if String.eqb (gvk_group g) "" then gvk_version g else gvk_group g +:+ "/" +:+ gvk_version g.

(** [loadReconcilePauseSnapshot], internal/k8s/reconcile_pause_snapshot.go *)
Definition loadReconcilePauseSnapshot (mid : owner) (snapshot : pause_status) :
    wprog (result error (resource_intent * secret)) :=
  if String.eqb (ow_uid mid) "" || String.eqb (ps_snapshotSecret snapshot) "" || String.eqb (ps_hash snapshot) "" ||
     String.eqb (ps_resourceUID snapshot) "" || String.eqb (ps_name snapshot) "" ||
     String.eqb (gvk_version (ps_gvk snapshot)) "" || String.eqb (gvk_kind (ps_gvk snapshot)) ""
  then Ret (Err (invalidPauseSnapshot "Secret reference and target identity are required"))
  else
    r ← call (ReadSecret (ow_namespace mid) (ps_snapshotSecret snapshot));
    match r with
    | Err e => Ret (Err (wrap_error "reconcile pause snapshot is invalid: read Secret" e))
    | Ok s =>
        expected ←? pure (intentOwnerReference mid);
        if negb (String.eqb (s_type s) SecretTypeOpaque) || negb (bool_decide (s_immutable s = Some true)) ||
           bool_decide (is_Some (s_deletionTimestamp s)) ||
           negb (String.eqb ((s_labels s).[intentRecordLabel]) (ow_uid mid)) ||
           negb (match GetControllerOf (s_owners s) with
                 | Some ref => String.eqb (or_uid ref) (or_uid expected) && String.eqb (or_name ref) (or_name expected) &&
                     String.eqb (or_kind ref) (or_kind expected) && String.eqb (or_apiVersion ref) (or_apiVersion expected)
                 | None => false end)
        then Ret (Err (invalidPauseSnapshot "Secret ownership or immutable identity mismatch"))
        else match decodeResourceIntent (s_data s) with
        | Err _ => Ret (Err (invalidPauseSnapshot "Secret record identity mismatch"))
        | Ok record =>
            match ri_pause record, ri_desired record with
            | Some pause, Some desired =>
                if negb (ri_version record =? 1)%Z || negb (String.eqb (ri_ownerUID record) (ow_uid mid)) ||
                   negb (String.eqb (ri_resourceUID record) (ps_resourceUID snapshot)) ||
                   negb (pd_generation pause =? ps_generation snapshot)%Z ||
                   negb (ri_publicationProtocol record =? intentPublicationProtocol)%Z ||
                   String.eqb (ri_baseResourceVersion record) "" || negb (String.eqb (ri_configuration record) "") ||
                   negb (String.eqb (ri_schemaHash record) "") || bool_decide (is_Some (ri_effective record)) ||
                   negb (bool_decide (ri_preserved record = []))
                then Ret (Err (invalidPauseSnapshot "Secret record identity mismatch"))
                else if negb (bool_decide (target_key desired = (ps_gvk snapshot, ps_namespace snapshot, ps_name snapshot))) ||
                        negb (String.eqb (ps_namespace snapshot) (ow_namespace mid)) ||
                        negb (String.eqb (ps_name snapshot) (ow_name mid))
                then Ret (Err (invalidPauseSnapshot "Secret target mismatch"))
                else match pauseRecordHash record with
                     | Ok hash => if String.eqb hash (ps_hash snapshot) then Ret (Ok (record, s))
                                  else Ret (Err (invalidPauseSnapshot "Secret record hash mismatch"))
                     | Err _ => Ret (Err (invalidPauseSnapshot "Secret record hash mismatch"))
                     end
            | _, _ => Ret (Err (invalidPauseSnapshot "Secret record identity mismatch"))
            end
        end
    end.

(** [ReconcilePauseSnapshotData], internal/k8s/reconcile_pause_snapshot.go *)
Record pause_snapshot_data := ReconcilePauseSnapshotData {
  sd_actualSpec : gmap string json;
  sd_previousOverrides : option reconcile_overrides;
}.

(** [LoadReconcilePauseSnapshot], internal/k8s/reconcile_pause_snapshot.go *)
Definition LoadReconcilePauseSnapshot (mid : owner) (snapshot : pause_status) : wprog (result error pause_snapshot_data) :=
  '(record, _) ←? loadReconcilePauseSnapshot mid snapshot;
  match default (Ok None) (nested_spec <$> ri_desired record) with
  | Ok (Some spec) => Ret (Ok (ReconcilePauseSnapshotData spec (ri_pause record ≫= pd_previousOverrides)))
  | _ => Ret (Err (invalidPauseSnapshot "actual spec must be an object"))
  end.

(** The observed object that the record of a pause keeps. *)
(** [PrepareReconcilePauseSnapshot], internal/k8s/reconcile_pause_snapshot.go:76-79 *)
Definition observed_object (live : object) (spec : gmap string json) : object :=
  let metadata := optional_entry "namespace"
    (if String.eqb (GetNamespace live) "" then None else Some (JStr (GetNamespace live))) {[ "name" := JStr (GetName live) ]} in
  {[ "spec" := JObj spec; "apiVersion" := JStr (group_version (GroupVersionKind live));
     "kind" := JStr (gvk_kind (GroupVersionKind live)); "metadata" := JObj metadata ]}.

(** [PrepareReconcilePauseSnapshot], internal/k8s/reconcile_pause_snapshot.go *)
Definition PrepareReconcilePauseSnapshot (mid : owner) (live : object) (now : Z) : wprog (result error pause_status) :=
  if String.eqb (ow_uid mid) "" || String.eqb (ow_resourceVersion mid) ""
  then Ret (Err (invalidPauseSnapshot "owner UID and resourceVersion are required"))
  else
    _ ←? pure (verifyManagedIdentity ParseGroup mid live);
    let g := GroupVersionKind live in
    if negb (String.eqb (GetName live) (ow_name mid)) || negb (String.eqb (GetNamespace live) (ow_namespace mid))
    then Ret (Err (invalidPauseSnapshot "primary resource target mismatch"))
    else if String.eqb (gvk_version g) "" || String.eqb (gvk_kind g) ""
    then Ret (Err (invalidPauseSnapshot "primary resource GVK is required"))
    else
      spec ←? pure (nested_spec live);
      let record := ResourceIntent 1 intentPublicationProtocol (ow_resourceVersion mid) (ow_uid mid) (GetUID live) "" ""
        (Some (observed_object live (default ∅ spec))) None [] (Some (ReconcilePauseData (ow_generation mid) (ow_overrides mid))) in
      hash ←? pure (pauseRecordHash record);
      secret ←? pure (buildResourceIntentSecret mid record);
      let secret := Secret ("opensaola-pause-" +:+ String.substring 0 40 hash) "" (s_namespace secret) (s_uid secret)
        (s_resourceVersion secret) (s_creationTimestamp secret) (s_deletionTimestamp secret) (s_labels secret)
        (s_owners secret) (s_immutable secret) (s_type secret) (s_data secret) in
      let snapshot := ReconcilePauseStatus (s_name secret) g (GetNamespace live) (GetName live) (GetUID live)
        (ow_generation mid) hash now "" in
      r ← call (CreateSecret false secret);
      match r with
      | Ok _ => Ret (Ok snapshot)
      | Err e =>
          if negb (bool_decide (e_kind e = AlreadyExists))
          then Ret (Err (wrap_error "create reconcile pause Secret" e))
          else _ ←? loadReconcilePauseSnapshot mid snapshot; Ret (Ok snapshot)
      end.

(** [mutate] changes the rest of the status. *)
(** [PublishReconcilePauseSnapshot], internal/k8s/reconcile_pause_snapshot.go *)
Definition PublishReconcilePauseSnapshot (mid : owner) (snapshot : pause_status) (mutate : owner → owner) :
    wprog (result error unit) :=
  '(record, _) ←? loadReconcilePauseSnapshot mid snapshot;
  now ←? call (ReadOwner mid);
  if negb (String.eqb (ow_uid now) (ow_uid mid)) || bool_decide (is_Some (ow_deletionTimestamp now)) ||
     bool_decide (is_Some (ow_reconcilePause now)) ||
     negb (String.eqb (ow_resourceVersion now) (ri_baseResourceVersion record)) ||
     negb (String.eqb (ow_resourceVersion mid) (ri_baseResourceVersion record)) ||
     negb (IsReconcileSuspended (ow_annotations now)) || negb (String.eqb ((ow_annotations now).[AnnotationResumePolicy]) "")
  then Ret (Err (Error Conflict "pause capture owner changed"))
  else
    let now := Owner (ow_type now) (ow_name now) (ow_namespace now) (ow_uid now) (ow_resourceVersion now)
      (ow_generation now) (ow_deletionTimestamp now) (ow_annotations now) (ow_conditions now) (Some snapshot)
      (ow_overrides now) in
    err ← call (UpdateOwnerStatus (mutate now));
    Ret (match err with Some e => Err e | None => Ok tt end).

(** [CleanupReconcilePauseSnapshot], internal/k8s/reconcile_pause_snapshot.go *)
Definition CleanupReconcilePauseSnapshot (mid : owner) (snapshot : option pause_status) : wprog (result error unit) :=
  match snapshot with
  | None => Ret (Ok tt)
  | Some snapshot =>
      if String.eqb (ps_snapshotSecret snapshot) "" then Ret (Ok tt)
      else
        r ← loadReconcilePauseSnapshot mid snapshot;
        match r with
        | Err e => if is_not_found e then Ret (Ok tt) else Ret (Err e)
        | Ok (record, secret) =>
            now ←? call (ReadOwner mid);
            if negb (String.eqb (ow_uid now) (ow_uid mid)) || bool_decide (is_Some (ow_deletionTimestamp now)) ||
               String.eqb (ow_resourceVersion now) (ri_baseResourceVersion record) ||
               match ow_reconcilePause now with
               | Some p => String.eqb (ps_snapshotSecret p) (s_name secret) | None => false end
            then Ret (Ok tt)
            else _ ←? deleteRecord secret; Ret (Ok tt)
        end
  end.

(** ** The collector ([resource_intent_gc.go]) *)

(** [intentFenceUnchanged], internal/k8s/resource_intent_gc.go *)
Definition intentFenceUnchanged (before after : object) : bool :=
  String.eqb (GetUID before) (GetUID after) && bool_decide (GetGeneration before = GetGeneration after) &&
  String.eqb (pointer before) (pointer after) &&
  bool_decide (GetOwnerReferences before = GetOwnerReferences after) &&
  bool_decide (GetFinalizers before = GetFinalizers after) &&
  bool_decide (before !! "status" = after !! "status") &&
  bool_decide (intentObject before = intentObject after).

(** [fencePublication], internal/k8s/resource_intent_gc.go:261-269 *)
Definition fence_patch (target : object) (s : secret) : list patch_op :=
  [PatchOp "test" "/metadata/uid" (JStr (GetUID target));
   PatchOp "test" "/metadata/resourceVersion" (JStr (GetResourceVersion target));
   match GetLabels target with
   | None => PatchOp "add" "/metadata/labels" (JObj {[ LabelResourceIntentGCFence := JStr (s_uid s) ]})
   | Some _ => PatchOp "add" "/metadata/labels/middleware.cn~1resource-intent-gc-fence" (JStr (s_uid s))
   end].

(** [fencePublication], internal/k8s/resource_intent_gc.go *)
Definition fencePublication (target : object) (s : secret) : wprog (result error unit) :=
  let patch := fence_patch target s in
  preview ←? call (PatchObject true target patch);
  if negb (intentFenceUnchanged target preview)
  then Ret (Err (managedWriteBlocked "admission changed business fields in collection dry-run"))
  else
    fenced ←? call (PatchObject false target patch);
    if String.eqb (GetResourceVersion fenced) (GetResourceVersion target) || negb (intentFenceUnchanged target fenced)
    then Ret (Err (managedWriteBlocked "intent publication fence could not be confirmed"))
    else Ret (Ok tt).

Context (MinAge : Z).

(** What the record's secret must be, whatever it holds. *)
(** [collect], internal/k8s/resource_intent_gc.go:124-143 *)
Definition collectable (s : secret) : result error (resource_intent * object * owner_reference * owner_type) :=
  if String.eqb (s_uid s) "" || String.eqb (s_resourceVersion s) "" || negb (bool_decide (s_immutable s = Some true)) ||
     negb (String.eqb (s_type s) SecretTypeOpaque)
  then Err (managedWriteBlocked "invalid intent collection identity")
  else match decodeResourceIntent (s_data s) with
  | Err _ => Err (managedWriteBlocked "invalid intent collection record")
  | Ok record =>
      match ri_desired record with
      | None => Err (managedWriteBlocked "invalid intent collection record")
      | Some desired =>
          if negb (ri_version record =? 1)%Z || String.eqb (ri_ownerUID record) "" || String.eqb (ri_resourceUID record) "" ||
             (bool_decide (ri_pause record = None) && String.eqb (ri_schemaHash record) "")
          then Err (managedWriteBlocked "invalid intent collection record")
          else match GetControllerOf (s_owners s) with
          | None => Err (managedWriteBlocked "intent collection owner mismatch")
          | Some ref =>
              if negb (String.eqb (or_uid ref) (ri_ownerUID record)) ||
                 negb (String.eqb ((s_labels s).[intentRecordLabel]) (ri_ownerUID record)) ||
                 negb (String.eqb (or_apiVersion ref) api_group_version) || String.eqb (or_name ref) ""
              then Err (managedWriteBlocked "intent collection owner mismatch")
              else if String.eqb (or_kind ref) "Middleware" then Ok (record, desired, ref, OwnerMiddleware)
              else if String.eqb (or_kind ref) "MiddlewareOperator" then Ok (record, desired, ref, OwnerMiddlewareOperator)
              else Err (managedWriteBlocked "unsupported intent collection owner")
          end
      end
  end.

(** [collectPauseSnapshot], internal/k8s/resource_intent_gc.go *)
Definition collectPauseSnapshot (s : secret) (record : resource_intent) (desired : object) (mid : owner) :
    wprog (result error bool) :=
  if negb (bool_decide (ow_type mid = OwnerMiddleware)) || String.eqb (ow_resourceVersion mid) ""
  then Ret (Err (invalidPauseSnapshot "invalid collection owner"))
  else
    hash ←? pure (pauseRecordHash record);
    let snapshot := ReconcilePauseStatus (s_name s) (GroupVersionKind desired) (GetNamespace desired) (GetName desired)
      (ri_resourceUID record) (default 0%Z (pd_generation <$> ri_pause record)) hash 0 "" in
    _ ←? LoadReconcilePauseSnapshot mid snapshot;
    if match ow_reconcilePause mid with Some p => String.eqb (ps_snapshotSecret p) (s_name s) | None => false end
    then Ret (Ok false)
    else
      _ ←? (if String.eqb (ow_resourceVersion mid) (ri_baseResourceVersion record) then
              target ←? call (ReadObject (GVK api_group "v1" "Middleware") (ow_namespace mid) (ow_name mid));
              if negb (String.eqb (GetUID target) (ow_uid mid)) ||
                 negb (String.eqb (GetResourceVersion target) (ow_resourceVersion mid))
              then Ret (Err (invalidPauseSnapshot "owner changed before collection fence; retry collection"))
              else fencePublication target s
            else Ret (Ok tt));
      deleteRecord s.

(** The record of a resource, once its owner is known to be alive. *)
(** [collect], internal/k8s/resource_intent_gc.go:161-204 *)
Definition collect_resource (s : secret) (record : resource_intent) (desired : object) (owner : owner) :
    wprog (result error bool) :=
  let g := GroupVersionKind desired in
  if String.eqb (gvk_version g) "" || String.eqb (gvk_kind g) "" || String.eqb (GetName desired) ""
  then Ret (Err (managedWriteBlocked "invalid intent target"))
  else
    r ← call (RESTMapping g);
    match r with
    | Err e => Ret (Err (wrap_error "resolve intent target API" e))
    | Ok (namespaced, group, resource) =>
        if negb (Bool.eqb namespaced (negb (String.eqb (GetNamespace desired) "")))
        then Ret (Err (managedWriteBlocked "intent target namespace does not match API scope"))
        else
          r ← call (ReadTarget g (GetNamespace desired) (GetName desired));
          match r with
          | Err (e, details) =>
              if is_not_found e &&
                 match details with
                 | Some d => String.eqb (sd_name d) (GetName desired) && String.eqb (sd_group d) group &&
                             String.eqb (sd_kind d) resource
                 | None => false end
              then deleteRecord s
              else Ret (Err (wrap_error "read intent target" e))
          | Ok target =>
              if String.eqb (pointer target) (s_name s) then Ret (Ok false)
              else if String.eqb (GetUID target) "" || String.eqb (GetResourceVersion target) ""
              then Ret (Err (managedWriteBlocked "intent target lacks UID or resourceVersion"))
              else if negb (String.eqb (GetUID target) (ri_resourceUID record)) then deleteRecord s
              else
                _ ←? pure (verifyIntentIdentity ParseGroup owner target (ri_configuration record));
                _ ←? (if String.eqb (GetResourceVersion target) (ri_baseResourceVersion record)
                      then fencePublication target s else Ret (Ok tt));
                deleteRecord s
          end
    end.

(** A zero creation time is 0. *)
(** [collect], internal/k8s/resource_intent_gc.go *)
Definition collect (s : secret) (now : Z) : wprog (result error bool) :=
  if bool_decide (is_Some (s_deletionTimestamp s)) || (s_creationTimestamp s =? 0)%Z ||
     (now - s_creationTimestamp s <? MinAge)%Z
  then Ret (Ok false)
  else
    '(record, desired, ref, type) ←? pure (collectable s);
    r ← call (ReadOwnerNamed type (s_namespace s) (or_name ref));
    match r with
    | Err e => if is_not_found e then Ret (Ok false) else Ret (Err e)
    | Ok owner =>
        if negb (String.eqb (ow_uid owner) (or_uid ref)) || bool_decide (is_Some (ow_deletionTimestamp owner))
        then Ret (Ok false)
        else if negb (ri_publicationProtocol record =? intentPublicationProtocol)%Z ||
                String.eqb (ri_baseResourceVersion record) ""
        then Ret (Ok false)
        else if bool_decide (is_Some (ri_pause record)) then collectPauseSnapshot s record desired owner
        else collect_resource s record desired owner
    end.

(** [IntentGCResult], internal/k8s/resource_intent_gc.go *)
Record gc_result := IntentGCResult { gc_scanned : Z; gc_deleted : Z; gc_kept : Z; gc_failed : Z }.

(** One page of records; [Err] is a cancelled context. *)
(** [Sweep], internal/k8s/resource_intent_gc.go:90-110 *)
Fixpoint sweep_page (records : list secret) (res : gc_result) (failures : list error) :
    wprog (result (error * gc_result) (gc_result * list error)) :=
  match records with
  | [] => Ret (Ok (res, failures))
  | s :: records =>
      cancelled ← call ContextErr;
      match cancelled with
      | Some e => Ret (Err (e, res))
      | None =>
          let scanned := (gc_scanned res + 1)%Z in
          now ← call Now;
          deleted ← collect s now;
          match deleted with
          | Err e => sweep_page records (IntentGCResult scanned (gc_deleted res) (gc_kept res) (gc_failed res + 1))
                       (if length failures <? 3 then failures ++ [e] else failures)
          | Ok true => sweep_page records (IntentGCResult scanned (gc_deleted res + 1) (gc_kept res) (gc_failed res)) failures
          | Ok false => sweep_page records (IntentGCResult scanned (gc_deleted res) (gc_kept res + 1) (gc_failed res)) failures
          end
      end
  end.

(** At most [pages] pages; the code goes on as long as the server has more. *)
(** [Sweep], internal/k8s/resource_intent_gc.go *)
Fixpoint Sweep (pages : nat) (continuation : string) (res : gc_result) (failures : list error) :
    wprog (gc_result * list error) :=
  match pages with
  | 0 => Ret (res, failures)
  | S pages =>
      r ← call (ListRecords continuation);
      match r with
      | Err e => Ret (res, [wrap_error "list resource intent records" e])
      | Ok (records, continuation) =>
          r ← sweep_page records res failures;
          match r with
          | Err (e, res) => Ret (res, [e])
          | Ok (res, failures) =>
              if String.eqb continuation "" then Ret (res, failures) else Sweep pages continuation res failures
          end
      end
  end.
End Collector.
