(* ===== verification/IntentPublication.v ===== *)
(** * The publication discipline of the writer

    A record is created before the write that points to it, for exactly the
    object version that the write is guarded by, is published at most once
    after its creation, and is deleted only when every publication of it was
    refused or when a successor has replaced it. *)
From stdpp Require Import base gmap strings list option.
From Stdlib Require Import ZArith Lia.
From S2P Require Import Prelude Labels Conditions Prog Middleware Json Adoption FieldPath IntentMerge IntentRecord IntentWriter IntentGC.

Section Discipline.
Context {typed : Type}.
Context `{FieldPathLib, !TypedLib typed, ObjectApi, !IntentCodec, !JsonPatch, JsonLib}.
Context (decimal : Z → string) (ParseGroup : string → option string) (FieldsFromJSON : string → option fset).
Context (IntentSchemas : bool).
Abbreviation wcall := (IntentWriter.wcall (typed := typed)).
Abbreviation wprog := (prog wcall).
Abbreviation wevent := (event wcall).

(** ** Quiet programs: reads, dry runs, reports, and writes that carry no pointer *)

Definition quiet (e : wevent) : Prop :=
  match e with
  | Ev c _ =>
      match c with
      | CreateSecret dry _ => dry = true
      | DeleteSecret _ => False
      | PatchObject dry _ _ => dry = true
      | ApplyObject dry obj => dry = true ∨ pointer obj = ""
      | CreateObject obj => pointer obj = ""
      | UpdateOwnerStatus _ => False
      | _ => True
      end
  end.

Definition quietly {A} (p : wprog A) : Prop :=
  ∀ tr, holds p tr (λ tr' _, ∃ l, tr' = tr ++ l ∧ Forall quiet l).

Lemma quietly_ret {A} (a : A) : quietly (Ret a).
Proof. intros tr. exists []. by rewrite app_nil_r. Qed.

Lemma quietly_call {R} (c : wcall R) : (∀ r, quiet (Ev c r)) → quietly (call c).
Proof. intros Hc tr r. exists [Ev c r]. auto. Qed.

Lemma quietly_bind {A B} (p : wprog A) (f : A → wprog B) : quietly p → (∀ a, quietly (f a)) → quietly (p ≫= f).
Proof.
  intros Hp Hf tr. apply holds_bind. eapply holds_mono; [apply Hp|]. intros tr' a (l & Heq & Hl).
  eapply holds_mono; [apply Hf|]. intros tr'' b (l' & Heq' & Hl'). exists (l ++ l').
  rewrite Heq', Heq, app_assoc. split; [done|]. by apply list.Forall_app.
Qed.

Lemma quietly_try {A B} (p : wprog (result error A)) (f : A → wprog (result error B)) :
  quietly p → (∀ a, quietly (f a)) → quietly (try p f).
Proof. intros Hp Hf. apply quietly_bind; [done|]. intros [a|e]; [apply Hf|apply quietly_ret]. Qed.

Ltac quiet_step :=
  match goal with
  | |- quietly (Ret _) => apply quietly_ret
  | |- quietly (pure _) => apply quietly_ret
  | |- quietly (call _) => apply quietly_call; intros; simpl; auto using pointer_clean
  | |- quietly (try _ _) => apply quietly_try; [|intros ?]
  | |- quietly (_ ≫= _) => apply quietly_bind; [|intros ?]
  | |- quietly (match ?x with _ => _ end) => destruct x
  | |- quietly (let '(_, _) := ?x in _) => destruct x
  end.
Ltac quiet := repeat quiet_step.

Lemma quiet_report prefix paths : quietly (report_all prefix paths).
Proof. induction paths; cbn [report_all]; quiet; done. Qed.

Lemma quiet_write_error live e : quietly (intentWriteError live e).
Proof. unfold intentWriteError. quiet. Qed.

Lemma quiet_validate live after : quietly (validateIntentPatch live after).
Proof. unfold validateIntentPatch, patch_intent. quiet. apply quiet_write_error. Qed.

Lemma quiet_load owner live configuration : quietly (loadResourceIntent owner live configuration).
Proof. unfold loadResourceIntent. quiet. Qed.

Lemma quiet_preflight owner desired configuration : quietly (preflightResourceIntent decimal owner desired configuration).
Proof. unfold preflightResourceIntent. quiet. Qed.

Lemma quiet_fresh owner : quietly (freshWriteOwner owner).
Proof. unfold freshWriteOwner. quiet. Qed.

Lemma quiet_claimants owner live configuration oldUID : quietly (checkConfigurationClaimants owner live configuration oldUID).
Proof.
  unfold checkConfigurationClaimants. quiet. induction (_ ++ _) as [|c cs IH]; cbn [check_claimants]; quiet; [|done].
  unfold check_claimant. quiet.
Qed.

Lemma quiet_adoption owner live desired configuration :
  quietly (configurationNeedsAdoption ParseGroup owner live desired configuration).
Proof. unfold configurationNeedsAdoption. quiet. apply quiet_claimants. Qed.

(** ** Disciplines

    A discipline says which calls may follow which: it must allow every quiet
    call. *)
Class Discipline (D : list wevent → wevent → Prop) := discipline_quiet l e : quiet e → D l e.

Section Spec.
Context {D : list wevent → wevent → Prop} `{!Discipline D}.

Lemma each_quiet tr l : each D tr → Forall quiet l → each D (tr ++ l).
Proof.
  intros Htr. induction l as [|e l IH] using rev_ind; [by rewrite app_nil_r|].
  intros [Hl He]%list.Forall_app. apply (proj1 (list.Forall_singleton quiet e)) in He. rewrite app_assoc. apply each_snoc.
  split; [by apply IH|by apply discipline_quiet].
Qed.

Lemma spec_quietly {A} (p : wprog A) tr :
  quietly p → spec D p tr (λ tr' _, ∃ l, tr' = tr ++ l ∧ Forall quiet l).
Proof.
  intros Hp Htr. eapply holds_mono; [apply Hp|]. intros tr' a (l & Heq & Hl). rewrite Heq.
  split_and!; [by apply each_quiet|by apply prefix_app_r|eauto].
Qed.

(** A quiet step, after which nothing is to be proved but the discipline. *)
Lemma spec_try_quiet {A B} (p : wprog (result error A)) (f : A → wprog (result error B)) tr :
  quietly p → (∀ l a, Forall quiet l → spec D (f a) (tr ++ l) (λ _ _, True)) → spec D (try p f) tr (λ _ _, True).
Proof.
  intros Hp Hf. eapply spec_bind; [by apply spec_quietly|]. intros tr' [a|e] _ (l & -> & Hl); [by apply Hf|by apply spec_ret].
Qed.

Lemma spec_then_quiet {A B} (p : wprog A) (f : A → wprog B) tr :
  quietly p → (∀ l a, Forall quiet l → spec D (f a) (tr ++ l) (λ _ _, True)) → spec D (p ≫= f) tr (λ _ _, True).
Proof. intros Hp Hf. eapply spec_bind; [by apply spec_quietly|]. intros tr' a _ (l & -> & Hl). by apply Hf. Qed.

End Spec.
(** ** What justifies a write *)

Definition key : Type := gvk * string * string.
Definition read_at (k : key) : wcall (result error object) := ReadObject k.1.1 k.1.2 k.2.

(** The program has the object from the server, as the one at the key. *)
Inductive seen_at (l : list wevent) (k : key) : object → Prop :=
  | seen_read live : Ev (read_at k) (Ok live) ∈ l → seen_at l k live
  | seen_applied obj live : target_key obj = k → Ev (ApplyObject false obj) (Ok live) ∈ l → seen_at l k live
  | seen_created obj live : target_key obj = k → Ev (CreateObject obj) (Ok live) ∈ l → seen_at l k live
  | seen_again live0 live : seen_at l k live0 → Ev (read_at (target_key live0)) (Ok live) ∈ l → seen_at l k live.

(** The secret to create holds a record for one version of an object. *)
Definition bound (l : list wevent) (s0 : secret) (live : object) : Prop :=
  ∃ record desired, encodeResourceIntent record = Ok (s_data s0) ∧
    ri_version record = 1%Z ∧ ri_publicationProtocol record = intentPublicationProtocol ∧ ri_pause record = None ∧
    ri_baseResourceVersion record = GetResourceVersion live ∧ ri_resourceUID record = GetUID live ∧
    GetUID live ≠ "" ∧ GetResourceVersion live ≠ "" ∧
    ri_desired record = Some (intentObject desired) ∧ seen_at l (target_key desired) live.

(** The record was just created, and nothing was written since. *)
Definition fresh_prepared (l : list wevent) (s : secret) (live : object) : Prop :=
  ∃ l1 s0 l2, l = l1 ++ Ev (CreateSecret false s0) (Ok s) :: l2 ∧ bound l1 s0 live ∧ Forall quiet l2.

(** A write the server refused for good. *)
Definition refused (e : wevent) : Prop :=
  match e with
  | @Ev _ R c r =>
      match c in IntentWriter.wcall R return R → Prop with
      | PatchObject _ _ _ => λ r, match r with Err e => rejected e = true | Ok _ => False end
      | ApplyObject _ _ => λ r, match r with Err e => rejected e = true | Ok _ => False end
      | _ => λ _, False
      end r
  end.

Definition deletes (e : wevent) : Prop := match e with Ev c _ => match c with DeleteSecret _ => True | _ => False end end.

(** Every write since the record's creation was refused. *)
Definition discardable (l : list wevent) (s : secret) : Prop :=
  ∃ l1 s0 l2, l = l1 ++ Ev (CreateSecret false s0) (Ok s) :: l2 ∧ Forall (λ e, quiet e ∨ refused e ∨ deletes e) l2.

(** A record was read, then its successor was created and published in its place. *)
Definition superseded (l : list wevent) (s : secret) : Prop :=
  ∃ l1 s0 new l2 live after ops accepted l3 ns,
    l = l1 ++ Ev (CreateSecret false s0) (Ok new) :: l2 ++ Ev (PatchObject false live ops) (Ok accepted) :: l3 ∧
    pointer live ≠ "" ∧ Ev (ReadSecret ns (pointer live)) (Ok s) ∈ l1 ∧
    intentPatch live after = Ok ops ∧ pointer after = s_name new.

Definition justified (l : list wevent) (e : wevent) : Prop :=
  match e with
  | Ev c _ =>
      match c with
      | CreateSecret dry s0 => dry = true ∨ ∃ live, bound l s0 live
      | PatchObject dry live ops => dry = true ∨
          ∃ after s, intentPatch live after = Ok ops ∧ fresh_prepared l s live ∧ pointer after = s_name s
      | ApplyObject dry obj => dry = true ∨ pointer obj = "" ∨
          ∃ live s, fresh_prepared l s live ∧ pointer obj = s_name s ∧
            GetUID obj = GetUID live ∧ GetResourceVersion obj = GetResourceVersion live ∧ seen_at l (target_key obj) live
      | CreateObject obj => pointer obj = ""
      | DeleteSecret s => discardable l s ∨ superseded l s
      | UpdateOwnerStatus _ => False
      | _ => True
      end
  end.

#[local] Instance justified_discipline : Discipline justified.
Proof. intros l [R c r]. destruct c; simpl; tauto. Qed.
#[local] Abbreviation wspec := (spec justified).

Lemma seen_mono l l' k live : l `prefix_of` l' → seen_at l k live → seen_at l' k live.
Proof.
  intros [l2 ->]. induction 1 as [live Hr|obj live Hk Ha|obj live Hk Ha|live0 live _ IH Hr].
  - apply seen_read, elem_of_app. by left.
  - eapply seen_applied; [exact Hk|]. apply elem_of_app. by left.
  - eapply seen_created; [exact Hk|]. apply elem_of_app. by left.
  - eapply seen_again; [exact IH|]. apply elem_of_app. by left.
Qed.

Lemma prepared_fresh l s0 s live : bound l s0 live → fresh_prepared (l ++ [Ev (CreateSecret false s0) (Ok s)]) s live.
Proof. intros Hb. exists l, s0, []. auto. Qed.

Lemma fresh_prepared_quiet l l' s live : fresh_prepared l s live → Forall quiet l' → fresh_prepared (l ++ l') s live.
Proof.
  intros (l1 & s0 & l2 & -> & Hb & Hq) Hq'. exists l1, s0, (l2 ++ l'). rewrite <- app_assoc. split_and!; [done..|].
  by apply list.Forall_app.
Qed.

Lemma discardable_quiet l l' s : discardable l s → Forall quiet l' → discardable (l ++ l') s.
Proof.
  intros (l1 & s0 & l2 & -> & Hq) Hq'. exists l1, s0, (l2 ++ l'). rewrite <- app_assoc. split; [done|].
  apply list.Forall_app. split; [done|]. eapply list.Forall_impl; [exact Hq'|]. auto.
Qed.

Lemma fresh_discardable l s live : fresh_prepared l s live → discardable l s.
Proof.
  intros (l1 & s0 & l2 & -> & _ & Hq). exists l1, s0, l2. split; [done|]. eapply list.Forall_impl; [exact Hq|]. auto.
Qed.

Lemma discardable_snoc l s e : discardable l s → refused e ∨ deletes e → discardable (l ++ [e]) s.
Proof.
  intros (l1 & s0 & l2 & -> & Hq) He. exists l1, s0, (l2 ++ [e]). rewrite <- app_assoc. split; [done|].
  apply list.Forall_app. split; [done|]. constructor; [by right|constructor].
Qed.

(** ** The writer's parts keep the discipline *)

Lemma prepare_spec owner live desired configuration hash preserved effective tr :
  seen_at tr (target_key desired) live →
  wspec (prepareResourceIntent owner live desired configuration hash preserved effective) tr
    (λ tr' r, match r with
     | Ok s => ∃ s0, tr' = tr ++ [Ev (CreateSecret false s0) (Ok s)] ∧ bound tr s0 live
     | Err _ => True end).
Proof.
  intros Hseen. unfold prepareResourceIntent.
  destruct (String.eqb_spec (GetUID live) "") as [|Hu]; [by apply spec_ret|].
  destruct (String.eqb_spec (GetResourceVersion live) "") as [|Hv]; [by apply spec_ret|]. cbn [orb].
  set (record := ResourceIntent _ _ _ _ _ _ _ _ _ _ _).
  destruct (buildResourceIntentSecret owner record) as [s0|e] eqn:Hbuild; [|by apply spec_ret].
  assert (Hb : bound tr s0 live).
  { exists record, desired. unfold buildResourceIntentSecret in Hbuild.
    destruct (encodeResourceIntent record) as [data|]; [|done]. simpl in Hbuild.
    destruct (intentOwnerReference owner); [|done]. injection Hbuild as <-. done. }
  apply (spec_bind (call (CreateSecret false s0)) _ _ (λ tr' r,
    match r with Ok s => ∃ s0, tr' = tr ++ [Ev (CreateSecret false s0) (Ok s)] ∧ bound tr s0 live | Err _ => True end)).
  - apply spec_call; [right; eauto|]. intros [s|e]; [|done]. exists s0. auto.
  - intros tr' [s|e] _ HQ; by apply spec_ret.
Qed.

Lemma write_error_spec live e tr :
  wspec (intentWriteError live e) tr (λ tr' e', (∃ l, tr' = tr ++ l ∧ Forall quiet l) ∧ rejected e' = rejected e).
Proof.
  unfold intentWriteError. destruct (negb _) eqn:Hk.
  { apply spec_ret. split; [exists []; by rewrite app_nil_r|done]. }
  eapply spec_bind; [by apply spec_quietly, quietly_call|]. intros tr' [current|e'] _ Hl; simpl; [|by apply spec_ret].
  apply negb_false_iff, bool_decide_eq_true in Hk.
  destruct (_ || _); apply spec_ret; (split; [done|]); [|done].
  unfold rejected. rewrite Hk. by rewrite !bool_decide_eq_true_2 by (simpl; tauto).
Qed.

Lemma commit_spec live after s tr :
  fresh_prepared tr s live → pointer after = s_name s →
  wspec (commitIntentPatch live after) tr (λ tr' r,
    match r with
    | Ok _ => ∃ ops accepted, tr' = tr ++ [Ev (PatchObject false live ops) (Ok accepted)] ∧ intentPatch live after = Ok ops
    | Err e => rejected e = true → discardable tr' s
    end).
Proof.
  intros Hf Hp. unfold commitIntentPatch, patch_intent.
  destruct (intentPatch live after) as [ops|e] eqn:Hops; [|apply spec_ret; intros _; by eapply fresh_discardable].
  apply (spec_bind (call (PatchObject false live ops)) _ _ (λ tr' r, tr' = tr ++ [Ev (PatchObject false live ops) r])).
  { apply spec_call; [|done]. intros r. right. eauto. }
  intros tr' [accepted|e] _ ->.
  - apply spec_ret. exists ops, accepted. done.
  - eapply spec_bind; [apply write_error_spec|]. intros tr' e' _ [(l & -> & Hl) Hrej]. apply spec_ret. intros Hr.
    apply discardable_quiet; [|done]. apply discardable_snoc; [by eapply fresh_discardable|left]. simpl. congruence.
Qed.

Lemma discard_spec s tr : discardable tr s → wspec (discardIntentRecord (Some s)) tr (λ tr' _, discardable tr' s).
Proof.
  intros Hd. unfold discardIntentRecord.
  eapply (spec_bind _ _ _ (λ tr' _, discardable tr' s)); [apply spec_call|].
  - intros r. by left.
  - intros r. apply discardable_snoc; [done|by right].
  - intros. by apply spec_ret.
Qed.

Lemma cleanup_spec live s e tr :
  (rejected e = true → discardable tr s) →
  wspec (cleanupUncommittedIntent live s e) tr (λ tr' _, rejected e = true → discardable tr' s).
Proof.
  intros Hd. unfold cleanupUncommittedIntent. destruct (rejected e) eqn:Hr; [|by apply spec_ret]. specialize (Hd eq_refl).
  eapply spec_bind; [by apply spec_quietly, quietly_call|]. intros tr' current _ (l & -> & Hl).
  pose proof (discardable_quiet _ _ _ Hd Hl) as Hd'.
  destruct current as [current|e']; simpl; [destruct (negb _)|destruct (is_not_found e')];
    (apply spec_ret; intros _; done) || (eapply spec_mono; [by apply discard_spec|]; auto).
Qed.

(** The end of every publication: an error is cleaned up after. *)
Lemma publish_spec {A} live after s tr (g : error → A) (k : wprog A) :
  fresh_prepared tr s live → pointer after = s_name s →
  (∀ ops accepted, intentPatch live after = Ok ops →
     wspec k (tr ++ [Ev (PatchObject false live ops) (Ok accepted)]) (λ _ _, True)) →
  wspec (r ← commitIntentPatch live after;
        match r with
        | Err e => _ ← cleanupUncommittedIntent live s e; Ret (g e)
        | Ok _ => k
        end) tr (λ _ _, True).
Proof.
  intros Hf Hp Hk. eapply spec_bind; [by eapply commit_spec|]. intros tr' [acc|e] Hpre HQ; simpl in HQ.
  - destruct HQ as (ops & accepted & -> & Hops). by apply Hk.
  - eapply spec_bind; [by apply cleanup_spec|]. intros. by apply spec_ret.
Qed.

Lemma prepare_step {B} owner live desired configuration hash preserved effective (f : secret → wprog (result error B)) tr :
  seen_at tr (target_key desired) live →
  (∀ s0 s, bound tr s0 live → fresh_prepared (tr ++ [Ev (CreateSecret false s0) (Ok s)]) s live →
     wspec (f s) (tr ++ [Ev (CreateSecret false s0) (Ok s)]) (λ _ _, True)) →
  wspec (try (prepareResourceIntent owner live desired configuration hash preserved effective) f) tr (λ _ _, True).
Proof.
  intros Hs Hf. eapply spec_bind; [by apply prepare_spec|]. intros tr' [s|e] _ HQ; [|by apply spec_ret].
  destruct HQ as (s0 & -> & Hb). apply Hf; [done|]. by apply prepared_fresh.
Qed.

Lemma initialize_attempt_spec owner live desired configuration hash effective current tr :
  seen_at tr (target_key desired) live → seen_at tr (target_key desired) current →
  wspec (initialize_attempt ParseGroup owner live desired configuration hash effective current) tr
    (λ tr' r, match r with inr current => seen_at tr' (target_key desired) current | inl _ => True end).
Proof.
  intros Hlive Hseen. unfold initialize_attempt.
  eapply spec_bind; [by apply prepare_spec|]. intros tr1 [prepared|e] Hpre1 Hf; [|by apply spec_ret].
  assert (Hf' : fresh_prepared tr1 prepared current) by (destruct Hf as (s0 & -> & Hb); by apply prepared_fresh).
  eapply spec_bind; [apply commit_spec; [exact Hf'|by apply pointer_set]|]. intros tr2 [acc|e] Hpre2 HQ; [by apply spec_ret|].
  eapply spec_bind; [by apply cleanup_spec|]. intros tr3 u Hpre3 Hd.
  destruct (is_conflict e) eqn:Hc; [|by apply spec_ret]. cbn [negb].
  assert (Hr : rejected e = true).
  { unfold rejected. unfold is_conflict in Hc. apply bool_decide_eq_true in Hc. apply bool_decide_eq_true. by left. }
  specialize (Hd Hr).
  eapply (spec_bind _ _ _ (λ tr' r, tr' = tr3 ++ [Ev (read_at (target_key live)) r])); [by apply spec_call|].
  intros tr4 [current'|e'] Hpre4 ->; [|by apply spec_ret].
  destruct (negb _); [by apply spec_ret|]. destruct (verifyIntentIdentity _ _ _ _); [|by apply spec_ret].
  destruct (negb _).
  - eapply spec_bind; [apply discard_spec|intros; by apply spec_ret]. apply discardable_quiet; [done|]. by repeat constructor.
  - apply spec_ret. apply (seen_again _ _ live); [|apply elem_of_app; right; by left].
    eapply seen_mono; [|exact Hlive]. by do 2 (etrans; [done|]); etrans.
Qed.

Lemma initialize_loop_spec attempts owner live desired configuration hash effective current tr :
  seen_at tr (target_key desired) live → seen_at tr (target_key desired) current →
  wspec (initialize_loop ParseGroup attempts owner live desired configuration hash effective current) tr (λ _ _, True).
Proof.
  revert current tr. induction attempts as [|attempts IH]; intros current tr Hlive Hseen; simpl; [by apply spec_ret|].
  eapply spec_bind; [by apply initialize_attempt_spec|]. intros tr' [r|current'] Hpre HQ; [by apply spec_ret|].
  apply IH; [by eapply seen_mono|done].
Qed.

Lemma initialize_spec owner live desired configuration tr :
  seen_at tr (target_key desired) live →
  wspec (initializeResourceIntent decimal ParseGroup owner live desired configuration) tr (λ _ _, True).
Proof.
  intros Hseen. unfold initializeResourceIntent. apply spec_try_pure; [done|]. intros _ _.
  apply spec_try_quiet; [by apply quietly_call|]. intros l [converter hash] _. cbv zeta.
  apply spec_try_pure; [done|]. intros effective _.
  apply initialize_loop_spec; (eapply seen_mono; [|exact Hseen]); by apply prefix_app_r.
Qed.

Lemma load_spec owner live configuration tr :
  wspec (loadResourceIntent owner live configuration) tr (λ tr' r,
    match r with
    | Ok (Some (_, s)) => pointer live ≠ "" ∧ ∃ ns, Ev (ReadSecret ns (pointer live)) (Ok s) ∈ tr'
    | _ => True
    end).
Proof.
  unfold loadResourceIntent. destruct (String.eqb_spec (pointer live) "") as [|Hp]; [by apply spec_ret|].
  eapply (spec_bind _ _ _ (λ tr' r, Ev (ReadSecret (ow_namespace owner) (pointer live)) r ∈ tr')).
  { apply spec_call; [done|]. intros r. apply elem_of_app. right. by left. }
  intros tr' [s|e] _ Hin; [|by apply spec_ret].
  destruct (_ || _ || _); [by apply spec_ret|]. destruct (intentOwnerReference owner); [|by apply spec_ret].
  unfold try, pure. cbn [mbind prog_bind]. destruct (negb _); [by apply spec_ret|].
  destruct (decodeResourceIntent _) as [record|]; [|by apply spec_ret].
  destruct (ri_desired record); [|by apply spec_ret].
  destruct (_ || _); [by apply spec_ret|]. destruct (_ || _ || _ || _); apply spec_ret; eauto.
Qed.

Lemma bootstrap_spec owner live desired configuration hash converter input tr :
  seen_at tr (target_key desired) live →
  wspec (bootstrap_intent decimal owner live desired configuration hash converter input) tr (λ _ _, True).
Proof.
  intros Hread. unfold bootstrap_intent. apply spec_try_pure; [done|]. intros [submitted retained] _.
  apply spec_try_quiet; [by apply quietly_call; intros; left|]. intros l preview Hl.
  apply spec_try_pure; [done|]. intros effective _.
  assert (Hseen : seen_at (tr ++ l) (target_key desired) live) by (eapply seen_mono; [by apply prefix_app_r|done]).
  apply prepare_step; [done|]. intros s0 s _ Hf. cbv zeta.
  set (tr' := (tr ++ l) ++ _) in *. assert (Hpre : (tr ++ l) `prefix_of` tr') by (by apply prefix_app_r).
  set (apply := SetUID _ _). eapply (spec_bind (call (ApplyObject false apply)) _ _ (λ tr'' r, tr'' = tr' ++ [Ev (ApplyObject false apply) r])).
  { apply spec_call; [|done]. intros r. right. right. exists live, s. split_and!; [done|..].
    - unfold apply. by rewrite pointer_guarded, pointer_set.
    - unfold apply. by rewrite get_set_uid.
    - unfold apply. by rewrite rv_set_uid, get_set_rv.
    - unfold apply, setIntentPointer. rewrite key_set_uid, key_set_rv, key_set_annotations, key_clean. by eapply seen_mono. }
  intros tr'' [acc|e] _ ->.
  - apply spec_then_quiet; [by apply quietly_call|]. intros. by apply spec_ret.
  - eapply spec_bind; [apply (cleanup_spec _ s)|intros; by apply spec_ret]. intros Hr.
    apply discardable_snoc; [by eapply fresh_discardable|left; exact Hr].
Qed.

Lemma update_spec owner live desired configuration hash converter input record previous ns tr :
  seen_at tr (target_key desired) live →
  pointer live ≠ "" → Ev (ReadSecret ns (pointer live)) (Ok previous) ∈ tr →
  wspec (update_intent decimal FieldsFromJSON owner live desired configuration hash converter input record previous) tr
    (λ _ _, True).
Proof.
  intros Hseen Hp Hprev. unfold update_intent.
  apply spec_try_pure; [done|]. intros protected _.
  apply spec_try_pure; [done|]. intros effectiveInput _.
  apply spec_try_pure; [done|]. intros [merged preserved] _.
  apply spec_try_pure; [done|]. intros merged' _.
  apply spec_then_quiet; [apply quiet_report|]. intros l1 _ _.
  apply spec_then_quiet; [apply quiet_report|]. intros l2 _ _. cbv zeta.
  case_decide; [by apply spec_ret|].
  apply spec_try_quiet; [apply quiet_validate|]. intros l3 accepted _.
  apply spec_try_pure; [done|]. intros effective _. rewrite <- !app_assoc.
  apply prepare_step; [eapply seen_mono; [by apply prefix_app_r|done]|]. intros s0 s _ Hf.
  apply (publish_spec _ _ s); [done|by apply pointer_set|]. intros ops acc Hops.
  eapply (spec_bind _ _ _ (λ _ _, True)); [|intros; by apply spec_ret]. unfold discardIntentRecord.
  eapply (spec_bind _ _ _ (λ _ _, True)); [apply spec_call; [|done]|intros; by apply spec_ret].
  intros r. right. exists (tr ++ l1 ++ l2 ++ l3), s0, s, [], live, (setIntentPointer (merged_after live merged') (s_name s)), ops, acc, [], ns.
  rewrite <- !app_assoc. split_and!; [done|done| |done|by apply pointer_set]. apply elem_of_app. by left.
Qed.

Lemma reconcile_intent_spec owner live desired configuration tr :
  seen_at tr (target_key desired) live →
  wspec (reconcileResourceIntent decimal ParseGroup FieldsFromJSON owner live desired configuration) tr (λ _ _, True).
Proof.
  intros Hseen. unfold reconcileResourceIntent. apply spec_try_pure; [done|]. intros _ _.
  apply spec_try_quiet; [by apply quietly_call|]. intros l [converter hash] _.
  assert (Hseen' : seen_at (tr ++ l) (target_key desired) live) by (eapply seen_mono; [by apply prefix_app_r|done]).
  eapply spec_bind; [apply load_spec|]. intros tr' [loaded|e] Hpre HQ; [|by apply spec_ret].
  destruct (match loaded with Some _ => _ | None => _ end); [by apply spec_ret|].
  destruct (ObjectToTyped converter _); [|by apply spec_ret].
  destruct loaded as [[record previous]|]; cbv zeta.
  - destruct HQ as (Hp & ns & Hin). eapply update_spec; [by eapply seen_mono|done|exact Hin].
  - apply bootstrap_spec. by eapply seen_mono.
Qed.

Lemma adopt_spec owner live desired configuration tr :
  seen_at tr (target_key desired) live →
  wspec (adoptConfigurationResource decimal ParseGroup IntentSchemas owner live desired configuration) tr (λ _ _, True).
Proof.
  intros Hseen. unfold adoptConfigurationResource. destruct (negb _); [by apply spec_ret|].
  apply spec_try_quiet; [by apply quietly_call|]. intros l1 [converter hash] _. cbv zeta.
  apply spec_try_pure; [done|]. intros [merged retained] _. apply spec_try_pure; [done|]. intros _ _.
  apply spec_try_quiet; [apply quiet_validate|]. intros l2 accepted _.
  apply spec_try_pure; [done|]. intros effective _. rewrite <- app_assoc.
  apply prepare_step; [eapply seen_mono; [by apply prefix_app_r|done]|]. intros s0 s _ Hf.
  eapply spec_bind.
  { apply spec_quietly. apply quietly_try; [apply quiet_fresh|]. intros ?. apply quiet_adoption. }
  intros tr'' r _ (l & -> & Hl). pose proof (fresh_prepared_quiet _ _ _ _ Hf Hl) as Hf'.
  destruct r as [b|e].
  - apply (publish_spec _ _ s); [done|by apply pointer_set|]. intros. by apply spec_ret.
  - eapply spec_bind; [by eapply discard_spec, fresh_discardable|]. intros. by apply spec_ret.
Qed.

Lemma tail_spec p tr : wspec p tr (λ _ _, True) → wspec (tail p) tr (λ _ _, True).
Proof. intros Hp. eapply spec_bind; [exact Hp|]. intros. by apply spec_ret. Qed.

Lemma create_spec owner desired configuration tr :
  wspec (create_resource decimal ParseGroup IntentSchemas owner desired configuration) tr (λ _ _, True).
Proof.
  unfold create_resource. cbv zeta. apply spec_then_quiet.
  { destruct (_ && _); [apply quiet_preflight|apply quietly_ret]. }
  intros l [r|e] _; [|by apply spec_ret].
  eapply (spec_bind _ _ _ (λ tr' r, match r with
    | Ok obj => seen_at tr' (target_key desired) obj
    | Err _ => True end)).
  { destruct (isImmutableResource _); apply spec_call.
    - intros r'. apply pointer_clean.
    - intros [obj|e]; [|done]. eapply seen_created; [apply key_clean|]. apply elem_of_app. right. by left.
    - intros r'. right. left. apply pointer_clean.
    - intros [obj|e]; [|done]. eapply seen_applied; [apply key_clean|]. apply elem_of_app. right. by left. }
  intros tr' [obj|e] _ HQ; [|by apply spec_ret].
  destruct (IntentSchemas && _); [|by apply spec_ret]. by apply tail_spec, initialize_spec.
Qed.

Lemma update_resource_spec owner live desired configuration tr :
  seen_at tr (target_key desired) live →
  wspec (update_resource decimal ParseGroup FieldsFromJSON IntentSchemas owner live desired configuration) tr (λ _ _, True).
Proof.
  intros Hseen. unfold update_resource. apply spec_then_quiet.
  { destruct (String.eqb _ _); [apply quietly_ret|apply quiet_adoption]. }
  intros l [adopt|e] _; [|by apply spec_ret].
  assert (Hseen' : seen_at (tr ++ l) (target_key desired) live) by (eapply seen_mono; [by apply prefix_app_r|done]).
  destruct (isImmutableResource live); [by apply spec_ret|].
  destruct adopt; [by apply tail_spec, adopt_spec|]. destruct IntentSchemas; [by apply tail_spec, reconcile_intent_spec|].
  cbv zeta. apply spec_then_quiet; [|intros; by apply spec_ret]. apply quietly_call. intros r. right.
  by rewrite pointer_guarded, pointer_clean.
Qed.

Lemma attempt_spec owner desired configuration tr :
  wspec (reconcile_attempt decimal ParseGroup FieldsFromJSON IntentSchemas owner desired configuration) tr (λ _ _, True).
Proof.
  unfold reconcile_attempt. apply spec_then_quiet; [apply quiet_fresh|]. intros l [fresh|e] _; [|by apply spec_ret].
  eapply (spec_bind _ _ _ (λ tr' r, match r with Ok live => seen_at tr' (target_key desired) live | Err _ => True end)).
  { apply spec_call; [done|]. intros [live|e]; [|done]. apply seen_read, elem_of_app. right. by left. }
  intros tr' [live|e] _ HQ.
  - destruct (verifyObservedSpecForWrite _ _ _); [by apply update_resource_spec|by apply spec_ret].
  - destruct (is_not_found e); [|by apply spec_ret].
    destruct (verifyObservedSpecForWrite _ _ _); [by apply create_spec|by apply spec_ret].
Qed.

Lemma loop_spec attempts owner desired configuration tr :
  wspec (reconcile_loop decimal ParseGroup FieldsFromJSON IntentSchemas attempts owner desired configuration) tr (λ _ _, True).
Proof.
  revert tr. induction attempts as [|attempts IH]; intros tr; cbn [reconcile_loop]; [by apply spec_ret|].
  eapply spec_bind; [apply attempt_spec|]. intros tr' [r|[e|]] _ _; [by apply spec_ret| |by apply spec_ret].
  destruct (is_conflict e); [apply IH|by apply spec_ret].
Qed.

Lemma Reconcile_spec owner desired configuration tr :
  wspec (Reconcile decimal ParseGroup FieldsFromJSON IntentSchemas owner desired configuration) tr (λ _ _, True).
Proof. destruct desired; [apply loop_spec|by apply spec_ret]. Qed.

(** ** What justifies a deletion by the collector *)

Definition listed (l : list wevent) (s : secret) : Prop :=
  ∃ continuation records next, Ev (ListRecords continuation) (Ok (records, next)) ∈ l ∧ s ∈ records.

Definition read_target (k : key) : wcall (result (error * option status_details) object) := ReadTarget k.1.1 k.1.2 k.2.

(** The target of the listed record was read: it is gone, it is another object,
    its version has moved on, or the collector has moved it; and it does not
    point to the record. *)
Definition settled (l : list wevent) (s : secret) (record : resource_intent) (k : key) : Prop :=
  ∃ l1 r l2, l = l1 ++ Ev (read_target k) r :: l2 ∧ listed l1 s ∧
    match r with
    | Err (e, Some d) => is_not_found e = true ∧ sd_name d = k.2 ∧
        ∃ namespaced, Ev (RESTMapping k.1.1) (Ok (namespaced, sd_group d, sd_kind d)) ∈ l1
    | Err (_, None) => False
    | Ok target => pointer target ≠ s_name s ∧
        (GetUID target ≠ ri_resourceUID record ∨ GetResourceVersion target ≠ ri_baseResourceVersion record ∨
         ∃ fenced, Ev (PatchObject false target (fence_patch target s)) (Ok fenced) ∈ l2 ∧
           GetResourceVersion fenced ≠ GetResourceVersion target)
    end.

Definition collected (l : list wevent) (s : secret) : Prop :=
  listed l s ∧ ∃ record desired, decodeResourceIntent (s_data s) = Ok record ∧ ri_desired record = Some desired ∧
    (is_Some (ri_pause record) ∨ settled l s record (target_key desired)).

Definition gc_justified (l : list wevent) (e : wevent) : Prop :=
  match e with
  | Ev c _ =>
      match c with
      | CreateSecret dry _ => dry = true
      | PatchObject dry target ops => dry = true ∨ ∃ s k, ops = fence_patch target s ∧
          (Ev (read_target k) (Ok target) ∈ l ∨ Ev (read_at k) (Ok target) ∈ l)
      | ApplyObject dry obj => dry = true ∨ pointer obj = ""
      | CreateObject obj => pointer obj = ""
      | DeleteSecret s => collected l s
      | UpdateOwnerStatus _ => False
      | _ => True
      end
  end.

#[local] Instance gc_discipline : Discipline gc_justified.
Proof. intros l [R c r]. destruct c; simpl; tauto. Qed.
#[local] Abbreviation gspec := (spec gc_justified).

Lemma listed_mono l l' s : l `prefix_of` l' → listed l s → listed l' s.
Proof. intros [l2 ->] (c & rs & n & Hin & Hs). exists c, rs, n. split; [|done]. apply elem_of_app. by left. Qed.

Lemma delete_spec s tr : collected tr s → gspec (deleteRecord s) tr (λ _ _, True).
Proof.
  intros Hc. unfold deleteRecord. eapply (spec_bind _ _ _ (λ _ _, True)); [by apply spec_call|].
  intros tr' [e|] _ _; [destruct (is_not_found e)|]; by apply spec_ret.
Qed.

Lemma fence_spec target s k tr :
  Ev (read_target k) (Ok target) ∈ tr ∨ Ev (read_at k) (Ok target) ∈ tr →
  gspec (fencePublication target s) tr (λ tr' r, match r with
    | Ok _ => ∃ l fenced, tr' = tr ++ l ∧ Ev (PatchObject false target (fence_patch target s)) (Ok fenced) ∈ l ∧
        GetResourceVersion fenced ≠ GetResourceVersion target
    | Err _ => True end).
Proof.
  intros Hread. unfold fencePublication. cbv zeta.
  eapply spec_bind; [by apply spec_quietly, quietly_call|]. intros tr1 [preview|e] _ (l1 & -> & Hl1); [|by apply spec_ret].
  destruct (negb _); [by apply spec_ret|].
  eapply (spec_bind _ _ _ (λ tr' r, tr' = (tr ++ l1) ++ [Ev (PatchObject false target (fence_patch target s)) r])).
  { apply spec_call; [|done]. intros r. right. exists s, k. split; [done|].
    destruct Hread; [left|right]; apply elem_of_app; by left. }
  intros tr2 [fenced|e] _ ->; [|by apply spec_ret].
  destruct (String.eqb_spec (GetResourceVersion fenced) (GetResourceVersion target)) as [|Hne]; [by apply spec_ret|].
  destruct (negb _); apply spec_ret; [done|]. eexists _, fenced. rewrite <- app_assoc. split_and!; [done| |done].
  apply elem_of_app. right. by left.
Qed.

Lemma quiet_load_snapshot mid snapshot : quietly (LoadReconcilePauseSnapshot mid snapshot).
Proof. unfold LoadReconcilePauseSnapshot, loadReconcilePauseSnapshot. quiet. Qed.

Lemma collect_pause_spec s record desired mid tr :
  listed tr s → decodeResourceIntent (s_data s) = Ok record → ri_desired record = Some desired →
  is_Some (ri_pause record) → gspec (collectPauseSnapshot s record desired mid) tr (λ _ _, True).
Proof.
  intros Hl Hdec Hdes Hpause. unfold collectPauseSnapshot. destruct (_ || _); [by apply spec_ret|].
  assert (Hdel : ∀ tr', tr `prefix_of` tr' → gspec (deleteRecord s) tr' (λ _ _, True)).
  { intros tr' Hpre. apply delete_spec. split; [by eapply listed_mono|]. exists record, desired. auto. }
  apply spec_try_pure; [done|]. intros hash _. cbv zeta.
  apply spec_try_quiet; [apply quiet_load_snapshot|]. intros l1 data _.
  destruct (match ow_reconcilePause mid with Some _ => _ | None => _ end); [by apply spec_ret|].
  destruct (String.eqb _ _); [|by apply Hdel, prefix_app_r].
  eapply (spec_bind _ _ _ (λ _ _, True)).
  - eapply (spec_bind _ _ _ (λ tr' r, match r with Ok target => Ev (read_at (GVK api_group "v1" "Middleware", ow_namespace mid, ow_name mid)) (Ok target) ∈ tr' | Err _ => True end)).
    { apply spec_call; [done|]. intros [target|e]; [|done]. apply elem_of_app. right. by left. }
    intros tr' [target|e] _ Hin; [|by apply spec_ret]. destruct (_ || _); [by apply spec_ret|].
    eapply spec_mono; [eapply fence_spec; right; exact Hin|done].
  - intros tr' [u|e] Hpre _; [|by apply spec_ret]. apply Hdel. etrans; [|exact Hpre]. by apply prefix_app_r.
Qed.

Lemma collect_resource_spec s record desired owner tr :
  listed tr s → decodeResourceIntent (s_data s) = Ok record → ri_desired record = Some desired →
  gspec (collect_resource ParseGroup s record desired owner) tr (λ _ _, True).
Proof.
  intros Hl Hdec Hdes. unfold collect_resource. cbv zeta. destruct (_ || _ || _); [by apply spec_ret|].
  eapply (spec_bind _ _ _ (λ tr' r, tr' = tr ++ [Ev (RESTMapping (GroupVersionKind desired)) r])); [by apply spec_call|].
  intros tr1 [[[namespaced group] resource]|e] _ ->; [|by apply spec_ret].
  destruct (negb _); [by apply spec_ret|]. set (tr1 := tr ++ _).
  eapply (spec_bind _ _ _ (λ tr' r, tr' = tr1 ++ [Ev (read_target (target_key desired)) r])); [by apply spec_call|].
  assert (Hl1 : listed tr1 s) by (eapply listed_mono; [by apply prefix_app_r|done]).
  intros tr2 r _ ->.
  assert (Hcol : ∀ l2, settled (tr1 ++ Ev (read_target (target_key desired)) r :: l2) s record (target_key desired) →
    collected (tr1 ++ Ev (read_target (target_key desired)) r :: l2) s).
  { intros l2 Hs. split; [eapply listed_mono; [by apply prefix_app_r|done]|]. exists record, desired. auto. }
  destruct r as [target|[e details]].
  - destruct (String.eqb_spec (pointer target) (s_name s)) as [|Hp]; [by apply spec_ret|].
    destruct (_ || _); [by apply spec_ret|].
    destruct (String.eqb_spec (GetUID target) (ri_resourceUID record)) as [Hu|Hu]; cbn [negb].
    + apply spec_try_pure; [done|]. intros _ _.
      destruct (String.eqb_spec (GetResourceVersion target) (ri_baseResourceVersion record)) as [Hv|Hv].
      * eapply spec_bind; [eapply fence_spec; left; apply elem_of_app; right; by left|].
        intros tr3 [u|e] _ HQ; [|by apply spec_ret]. destruct HQ as (l & fenced & -> & Hin & Hne).
        apply delete_spec. rewrite <- app_assoc. apply Hcol. exists tr1, (Ok target), l. split_and!; [done..|].
        right. right. eauto.
      * apply delete_spec, Hcol. exists tr1, (Ok target), []. split_and!; auto.
    + apply delete_spec, Hcol. exists tr1, (Ok target), []. split_and!; auto.
  - destruct (is_not_found e) eqn:He; [|by apply spec_ret]. destruct details as [d|]; [|by apply spec_ret].
    destruct (String.eqb_spec (sd_name d) (GetName desired)) as [Hn|]; [|by apply spec_ret].
    destruct (String.eqb_spec (sd_group d) group) as [Hg|]; [|by apply spec_ret].
    destruct (String.eqb_spec (sd_kind d) resource) as [Hk|]; [|by apply spec_ret].
    apply delete_spec, Hcol. exists tr1, (Err (e, Some d)), []. split_and!; [done..|].
    exists namespaced. rewrite Hg, Hk. apply elem_of_app. right. by left.
Qed.

Lemma gc_collect_spec minAge s now tr : listed tr s → gspec (collect ParseGroup minAge s now) tr (λ _ _, True).
Proof.
  intros Hl. unfold collect. destruct (_ || _); [by apply spec_ret|].
  apply spec_try_pure; [done|]. intros [[[record desired] ref] type] Hcol.
  assert (Hdec : decodeResourceIntent (s_data s) = Ok record ∧ ri_desired record = Some desired).
  { unfold collectable in Hcol. destruct (_ || _); [done|]. destruct (decodeResourceIntent _) as [r|]; [|done].
    destruct (ri_desired r) as [d|] eqn:Hd; [|done]. destruct (_ || _); [done|].
    destruct (GetControllerOf _); [|done]. destruct (_ || _); [done|].
    destruct (String.eqb _ _); [by simplify_eq|]. destruct (String.eqb _ _); by simplify_eq. }
  destruct Hdec as [Hdec Hdes].
  apply spec_then_quiet; [by apply quietly_call|]. intros l r _.
  assert (Hl' : listed (tr ++ l) s) by (eapply listed_mono; [by apply prefix_app_r|done]).
  destruct r as [owner|e]; [|destruct (is_not_found e); by apply spec_ret].
  destruct (_ || _); [by apply spec_ret|]. destruct (_ || _); [by apply spec_ret|].
  case_bool_decide; [by eapply collect_pause_spec|by apply collect_resource_spec].
Qed.

Lemma sweep_page_spec minAge records res failures tr :
  (∀ s, s ∈ records → listed tr s) → gspec (sweep_page ParseGroup minAge records res failures) tr (λ _ _, True).
Proof.
  revert res failures tr. induction records as [|s records IH]; intros res failures tr Hl; [by apply spec_ret|].
  cbn [sweep_page]. apply spec_then_quiet; [by apply quietly_call|]. intros l1 [e|] _; [by apply spec_ret|]. cbv zeta.
  apply spec_then_quiet; [by apply quietly_call|]. intros l2 now _. rewrite <- app_assoc.
  assert (Hl' : ∀ s', s' ∈ s :: records → listed (tr ++ l1 ++ l2) s').
  { intros s' Hs'. eapply listed_mono; [by apply prefix_app_r|by apply Hl]. }
  eapply spec_bind; [apply gc_collect_spec, Hl'; by left|]. intros tr' r Hpre _.
  assert (Hrest : ∀ s', s' ∈ records → listed tr' s').
  { intros s' Hs'. eapply listed_mono; [exact Hpre|]. apply Hl'. by right. }
  destruct r as [[]|e]; by apply IH.
Qed.

Lemma Sweep_spec minAge pages continuation res failures tr :
  gspec (Sweep ParseGroup minAge pages continuation res failures) tr (λ _ _, True).
Proof.
  revert continuation res failures tr. induction pages as [|pages IH]; intros continuation res failures tr; [by apply spec_ret|].
  cbn [Sweep]. eapply (spec_bind _ _ _ (λ tr' r, match r with
    | Ok (records, _) => ∀ s, s ∈ records → listed tr' s | Err _ => True end)).
  { apply spec_call; [done|]. intros [[records next]|e]; [|done]. intros s Hs. exists continuation, records, next.
    split; [|done]. apply elem_of_app. right. by left. }
  intros tr' [[records next]|e] _ Hl; [|by apply spec_ret].
  eapply spec_bind; [by apply sweep_page_spec|]. intros tr'' [[res' failures']|[e res']] _ _; [|by apply spec_ret].
  destruct (String.eqb next ""); [by apply spec_ret|apply IH].
Qed.
End Discipline.

(** ** Theorems *)

Section Theorems.
Context {typed : Type}.
Context `{FieldPathLib, !TypedLib typed, ObjectApi, !IntentCodec, !JsonPatch, JsonLib}.
Context (decimal : Z → string) (ParseGroup : string → option string) (FieldsFromJSON : string → option fset).

(** Whatever the server answers, a writer creates a record for exactly the
    version of the object it then guards the publishing write with, publishes
    nothing else, and deletes a record only when every publication of it was
    refused, or after its successor replaced it. *)
Theorem published_intents_recorded IntentSchemas owner desired configuration {W} (h : handler (wcall (typed := typed)) W) w :
  each justified (run h (Reconcile decimal ParseGroup FieldsFromJSON IntentSchemas owner desired configuration) w).2.
Proof. by eapply spec_run, Reconcile_spec. Qed.

(** Whatever the server answers, the collector publishes nothing, moves only
    objects that it has just read, and deletes only listed records whose target
    it found gone, replaced, past the version the record was written for, or
    moved past it by its own fence; and never one the target points to. *)
Theorem collector_deletes_settled MinAge pages continuation res failures {W} (h : handler (wcall (typed := typed)) W) w :
  each gc_justified (run h (Sweep ParseGroup MinAge pages continuation res failures) w).2.
Proof. by eapply spec_run, Sweep_spec. Unshelve. all: assumption. Qed.
End Theorems.

(** A record that the target still points to is kept; one whose target is gone
    is deleted. *)
Section Witness.
Import DocumentPatch.
#[local] Existing Instance coded_json.

Definition parsed (s : string) : option string := if String.eqb s "middleware.cn/v1" then Some "middleware.cn" else None.
Definition owner_ref : owner_reference := OwnerReference "middleware.cn/v1" "Middleware" "cache" "owner-1" (Some true).
Definition kept_record : secret :=
  Secret "intent-1" "" "prod" "uid-s" "4" 10 None {[ intentRecordLabel := "owner-1" ]} [owner_ref] (Some true) SecretTypeOpaque
    (match encodeResourceIntent record1 with Ok data => data | Err _ => ∅ end).
Definition alive : owner := Owner OwnerMiddleware "cache" "prod" "owner-1" "5" 3 None ∅ [] None None.

(** A server with that record; [target] answers the read of its object. *)
Definition server_of (target : result (error * option status_details) object) : handler (wcall (typed := PathTyped.typed)) unit :=
  λ R c _,
    (match c in IntentWriter.wcall R return R → R with
     | ListRecords _ => λ _, Ok ([kept_record], "")
     | ReadOwnerNamed _ _ _ => λ _, Ok alive
     | Now => λ _, 100%Z
     | RESTMapping _ => λ _, Ok (true, "", "configmaps")
     | ReadTarget _ _ _ => λ _, target
     | _ => λ r, r
     end (refuse c), tt).

Definition sweep_run target := run (server_of target) (Sweep parsed 20 1 "" (IntentGCResult 0 0 0 0) []) tt.

Lemma collector_deletes_settled_witness :
  let gone := Err (Error NotFound "", Some (StatusDetails "redis-conf" "" "configmaps")) in
  gc_deleted (sweep_run gone).1.1 = 1%Z ∧ each gc_justified (sweep_run gone).2.
Proof. split; [vm_compute; reflexivity|]. apply (collector_deletes_settled (λ _, "") parsed (λ _, None)). Defined.
End Witness.
