(* ===== verification/IntentProtocol.v ===== *)
(** * The publication protocol

    Any number of writers and collectors run against one API server, whose
    writes may be answered, refused, or lost and committed later.  The
    disciplines of [IntentPublication] are what each of them keeps on its own;
    together they ensure that a resource never points to a record that does
    not exist. *)
From stdpp Require Import base gmap strings list option relations.
From Stdlib Require Import ZArith Lia.
From S2P Require Import Prelude Labels Conditions Prog Middleware Json Adoption FieldPath IntentMerge IntentRecord IntentWriter IntentGC IntentPublication.

Section Protocol.
Context {typed : Type}.
Context `{FieldPathLib, !TypedLib typed, ObjectApi, !IntentCodec, !JsonPatch, JsonLib}.
Context (decimal : Z → string) (ParseGroup : string → option string) (FieldsFromJSON : string → option fset).
Context (IntentSchemas : bool) (MinAge : Z).
Abbreviation wcall := (IntentWriter.wcall (typed := typed)).
Abbreviation wprog := (prog wcall).
Abbreviation wevent := (event wcall).

(** ** The server

    [sv_history] holds every version that an object ever had, [sv_created]
    every record ever created; [sv_pending] are writes whose answer was lost
    and that may still be committed.  [mapping] is the REST mapping. *)
Record server := Server {
  sv_objects : gmap key object;
  sv_history : list (key * object);
  sv_records : gmap string secret;
  sv_created : list secret;
  sv_pending : list (wcall (result error object));
}.
Context (mapping : gvk → string * string).

Definition put (k : key) (o : object) (sv : server) : server :=
  Server (<[k := o]> (sv_objects sv)) (sv_history sv ++ [(k, o)]) (sv_records sv) (sv_created sv) (sv_pending sv).
Definition remove_object (k : key) (sv : server) : server :=
  Server (delete k (sv_objects sv)) (sv_history sv) (sv_records sv) (sv_created sv) (sv_pending sv).
Definition store (s : secret) (sv : server) : server :=
  Server (sv_objects sv) (sv_history sv) (<[s_name s := s]> (sv_records sv)) (s :: sv_created sv) (sv_pending sv).
Definition discard (s : secret) (sv : server) : server :=
  Server (sv_objects sv) (sv_history sv) (delete (s_name s) (sv_records sv)) (sv_created sv) (sv_pending sv).
Definition pend (c : wcall (result error object)) (sv : server) : server :=
  Server (sv_objects sv) (sv_history sv) (sv_records sv) (sv_created sv) (c :: sv_pending sv).

(** A UID is never given twice, nor a resource version to one UID. *)
Definition fresh_uid (sv : server) (o : object) : Prop := ∀ k' o', (k', o') ∈ sv_history sv → GetUID o' ≠ GetUID o.
Definition fresh_version (sv : server) (o : object) : Prop :=
  ∀ k' o', (k', o') ∈ sv_history sv → GetUID o' = GetUID o → GetResourceVersion o' ≠ GetResourceVersion o.
(** The object after a write, possibly one that changes nothing. *)
Definition next_version (sv : server) (cur o : object) : Prop :=
  GetUID o = GetUID cur ∧ target_key o = target_key cur ∧ (o = cur ∨ fresh_version sv o).
Definition new_object (sv : server) (k : key) (o : object) : Prop := target_key o = k ∧ fresh_uid sv o.

(** What a write makes of an object.  A JSON patch applies to the current
    version; an apply is refused when its UID or resource version, if set, is
    not the current one, and sets the pointer or, without one, keeps or drops it. *)
Inductive effect (sv : server) : wcall (result error object) → key → object → Prop :=
  | effect_patch target ops cur edited o :
      sv_objects sv !! target_key target = Some cur → ApplyPatch ops cur = Some edited →
      next_version sv cur o → pointer o = pointer edited → effect sv (PatchObject false target ops) (target_key target) o
  | effect_apply obj cur o :
      sv_objects sv !! target_key obj = Some cur →
      (GetUID obj = "" ∨ GetUID obj = GetUID cur) →
      (GetResourceVersion obj = "" ∨ GetResourceVersion obj = GetResourceVersion cur) →
      next_version sv cur o →
      (pointer o = pointer obj ∨ pointer obj = "" ∧ pointer o = pointer cur) → effect sv (ApplyObject false obj) (target_key obj) o
  | effect_apply_new obj o :
      sv_objects sv !! target_key obj = None → GetUID obj = "" → GetResourceVersion obj = "" →
      new_object sv (target_key obj) o → pointer o = pointer obj → effect sv (ApplyObject false obj) (target_key obj) o
  | effect_create obj o :
      sv_objects sv !! target_key obj = None → new_object sv (target_key obj) o → pointer o = pointer obj →
      effect sv (CreateObject obj) (target_key obj) o.

(** A write is committed and answered, refused for good, or its answer is lost. *)
Definition serve_write (sv : server) (c : wcall (result error object)) (r : result error object) (sv' : server) : Prop :=
  match r with
  | Ok o => ∃ k, effect sv c k o ∧ sv' = put k o sv
  | Err e => if rejected e then sv' = sv else sv' = pend c sv
  end.

(** The server gives a record a name that no record has had. *)
Definition named (sv : server) (s0 s : secret) : Prop :=
  s_data s = s_data s0 ∧ s_name s ≠ "" ∧ s_name s ∉ s_name <$> sv_created sv.

Definition serve (sv : server) {R} (c : wcall R) (r : R) (sv' : server) : Prop :=
  match c in IntentWriter.wcall R return R → Prop with
  | ReadObject g ns name => λ r, sv' = sv ∧
      match r with Ok o => sv_objects sv !! (g, ns, name) = Some o | Err _ => True end
  | ReadTarget g ns name => λ r, sv' = sv ∧
      match r with
      | Ok o => sv_objects sv !! (g, ns, name) = Some o
      | Err (e, Some d) => is_not_found e = true → sd_name d = name → mapping g = (sd_group d, sd_kind d) →
          sv_objects sv !! (g, ns, name) = None
      | Err (_, None) => True
      end
  | RESTMapping g => λ r, sv' = sv ∧ match r with Ok (_, group, kind) => mapping g = (group, kind) | Err _ => True end
  | ReadSecret ns name => λ r, sv' = sv ∧ match r with Ok s => sv_records sv !! name = Some s | Err _ => True end
  | ListRecords _ => λ r, sv' = sv ∧
      match r with Ok (l, _) => ∀ s, s ∈ l → sv_records sv !! s_name s = Some s | Err _ => True end
  | CreateSecret false s0 => λ r,
      match r with
      | Ok s => named sv s0 s ∧ sv' = store s sv
      | Err _ => sv' = sv ∨ ∃ s, named sv s0 s ∧ sv' = store s sv
      end
  | DeleteSecret s => λ r, match r with None => sv' = discard s sv | Some _ => sv' = sv ∨ sv' = discard s sv end
  | CreateObject obj => λ r, serve_write sv (CreateObject obj) r sv'
  | ApplyObject false obj => λ r, serve_write sv (ApplyObject false obj) r sv'
  | PatchObject false target ops => λ r, serve_write sv (PatchObject false target ops) r sv'
  | _ => λ _, sv' = sv
  end r.

(** ** The system *)

Record proc := Proc { pr_type : Type; pr_prog : wprog pr_type; pr_trace : list wevent }.
Record system := System { sy_server : server; sy_procs : list proc }.

Inductive sys_step : relation system :=
  | step_call sv procs i A R (c : wcall R) (p : R → wprog A) tr r sv' :
      procs !! i = Some (Proc A (Do c p) tr) → serve sv c r sv' →
      sys_step (System sv procs) (System sv' (<[i := Proc A (p r) (tr ++ [Ev c r])]> procs))
  | step_commit sv procs c k o :
      c ∈ sv_pending sv → effect sv c k o → sys_step (System sv procs) (System (put k o sv) procs)
  | step_foreign sv procs k cur o :
      sv_objects sv !! k = Some cur → next_version sv cur o → (pointer o = pointer cur ∨ pointer o = "") →
      sys_step (System sv procs) (System (put k o sv) procs)
  | step_delete sv procs k : sys_step (System sv procs) (System (remove_object k sv) procs)
  | step_create sv procs k o :
      sv_objects sv !! k = None → new_object sv k o → pointer o = "" →
      sys_step (System sv procs) (System (put k o sv) procs)
  | step_writer sv procs owner desired configuration :
      sys_step (System sv procs) (System sv (procs ++
        [Proc _ (Reconcile decimal ParseGroup FieldsFromJSON IntentSchemas owner desired configuration) []]))
  | step_collector sv procs pages :
      sys_step (System sv procs) (System sv (procs ++
        [Proc _ (Sweep ParseGroup MinAge pages "" (IntentGCResult 0 0 0 0) []) []])).

Definition initial : system := System (Server ∅ [] ∅ [] []) [].
Definition reachable (Σ : system) : Prop := rtc sys_step initial Σ.

(** ** Records and versions *)

(** The record in a secret is bound to a version of the object at a key. *)
Definition record_key (s : secret) (k : key) : Prop :=
  ∃ r d, encodeResourceIntent r = Ok (s_data s) ∧ ri_desired r = Some d ∧ target_key d = k ∧ ri_pause r = None.
Definition binds (s : secret) (k : key) (o : object) : Prop :=
  ∃ r d, encodeResourceIntent r = Ok (s_data s) ∧ ri_desired r = Some d ∧ target_key d = k ∧ ri_pause r = None ∧
    ri_resourceUID r = GetUID o ∧ ri_baseResourceVersion r = GetResourceVersion o.

(** The version is past, and nothing points to the record: no publication of it
    can succeed any more. *)
Definition retired (sv : server) (s : secret) : Prop :=
  (∃ k o, (k, o) ∈ sv_history sv ∧ binds s k o) ∧
  (∀ k o, binds s k o → sv_objects sv !! k ≠ Some o) ∧
  (∀ k o, sv_objects sv !! k = Some o → pointer o ≠ s_name s).

Lemma binds_unique s k1 o1 k2 o2 : binds s k1 o1 → binds s k2 o2 →
  k1 = k2 ∧ GetUID o1 = GetUID o2 ∧ GetResourceVersion o1 = GetResourceVersion o2.
Proof.
  intros (r1 & d1 & He1 & Hd1 & <- & _ & Hu1 & Hv1) (r2 & d2 & He2 & Hd2 & <- & _ & Hu2 & Hv2).
  pose proof (encode_inj _ _ _ He1 He2) as <-. simplify_eq. split_and!; congruence.
Qed.

Lemma binds_key s k o : binds s k o → record_key s k.
Proof. intros (r & d & ? & ? & ? & ? & _). exists r, d. auto. Qed.

Lemma record_key_binds s k k' o : record_key s k → binds s k' o → k' = k.
Proof.
  intros (r1 & d1 & He1 & Hd1 & <- & _) (r2 & d2 & He2 & Hd2 & <- & _).
  pose proof (encode_inj _ _ _ He1 He2) as <-. by simplify_eq.
Qed.

(** ** What a process knows from the answers it got

    A fact about the server that holds from the answer on. *)
Definition known (l : list wevent) (s : secret) : Prop :=
  listed l s ∨ ∃ ns name, Ev (ReadSecret ns name) (Ok s) ∈ l.

Definition tested (live : object) (ops : list patch_op) : Prop :=
  ∃ rest, ops = PatchOp "test" "/metadata/uid" (JStr (GetUID live)) ::
                PatchOp "test" "/metadata/resourceVersion" (JStr (GetResourceVersion live)) :: rest.

(** The process has this version of an object from the server. *)
Definition holding (l : list wevent) (live : object) : Prop :=
  (∃ k, seen_at l k live) ∨ ∃ k, Ev (read_target k) (Ok live) ∈ l ∨ Ev (read_at k) (Ok live) ∈ l.

Definition fact (sv : server) (l : list wevent) (e : wevent) : Prop :=
  match e with
  | @Ev _ R c r =>
      match c in IntentWriter.wcall R return R → Prop with
      | ReadObject g ns name => λ r,
          match r with Ok o => ((g, ns, name), o) ∈ sv_history sv | Err _ => True end
      | ReadTarget g ns name => λ r,
          match r with
          | Ok o => ((g, ns, name), o) ∈ sv_history sv ∧
              ∀ s, listed l s → record_key s (g, ns, name) → s_name s ≠ pointer o → binds s (g, ns, name) o ∨ retired sv s
          | Err (e, Some d) => is_not_found e = true → sd_name d = name → mapping g = (sd_group d, sd_kind d) →
              ∀ s, listed l s → record_key s (g, ns, name) → retired sv s
          | Err (_, None) => True
          end
      | RESTMapping g => λ r, match r with Ok (_, group, kind) => mapping g = (group, kind) | Err _ => True end
      | ReadSecret ns name => λ r, match r with Ok s => s ∈ sv_created sv ∧ s_name s = name | Err _ => True end
      | ListRecords _ => λ r, match r with Ok (rs, _) => ∀ s, s ∈ rs → s ∈ sv_created sv | Err _ => True end
      | CreateSecret false s0 => λ r,
          match r with
          | Ok s => s ∈ sv_created sv ∧ s_data s = s_data s0 ∧ ∀ s', known l s' → s_name s' ≠ s_name s
          | Err _ => True
          end
      | CreateObject obj => λ r, match r with Ok o => (target_key obj, o) ∈ sv_history sv | Err _ => True end
      | ApplyObject false obj => λ r, match r with Ok o => (target_key obj, o) ∈ sv_history sv | Err _ => True end
      | PatchObject false live ops => λ r,
          match r with
          | Ok acc => holding l live → tested live ops →
              (∃ after, ApplyPatch ops live = Some after ∧ pointer acc = pointer after) ∧
              (acc = live ∨ ∀ s, known l s → s_name s ≠ pointer acc →
                binds s (target_key live) live ∨ pointer live = s_name s → retired sv s)
          | Err _ => True
          end
      | _ => λ _, True
      end r
  end.

Definition prefix_facts (sv : server) (l : list wevent) : Prop := ∀ l1 e l2, l = l1 ++ e :: l2 → fact sv l1 e.

Lemma prefix_facts_elem sv l e : prefix_facts sv l → e ∈ l → ∃ l1, fact sv l1 e.
Proof. intros Hf (l1 & l2 & Heq)%list_elem_of_split. exists l1. by eapply Hf. Qed.

Lemma prefix_facts_app sv l l' : prefix_facts sv (l ++ l') → prefix_facts sv l.
Proof. intros Hf l1 e l2 ->. apply (Hf l1 e (l2 ++ l')). by rewrite <- app_assoc. Qed.

Lemma known_created sv l s : prefix_facts sv l → known l s → s ∈ sv_created sv.
Proof.
  intros Hf [(c & rs & n & Hin & Hs)|(ns & name & Hin)]; destruct (prefix_facts_elem _ _ _ Hf Hin) as [l1 Hl1]; simpl in Hl1.
  - by apply Hl1.
  - by destruct Hl1.
Qed.

(** ** What never changes as the server goes on *)

Record advance (sv sv' : server) : Prop := {
  adv_history : ∀ v, v ∈ sv_history sv → v ∈ sv_history sv';
  adv_created : ∀ s, s ∈ sv_created sv → s ∈ sv_created sv';
  adv_objects : ∀ k o, sv_objects sv' !! k = Some o → sv_objects sv !! k = Some o ∨ fresh_version sv o;
  adv_pointers : ∀ k o, sv_objects sv' !! k = Some o → pointer o ≠ "" →
    (∃ k' cur, sv_objects sv !! k' = Some cur ∧ pointer cur = pointer o) ∨
    (∃ s live, s ∈ sv_created sv ∧ s_name s = pointer o ∧ sv_objects sv !! k = Some live ∧ binds s k live);
}.

(** The names of the created records identify them. *)
Definition names_unique (sv : server) : Prop :=
  ∀ s s', s ∈ sv_created sv → s' ∈ sv_created sv → s_name s = s_name s' → s = s'.

Lemma retired_advance sv sv' s :
  advance sv sv' → names_unique sv → s ∈ sv_created sv → s_name s ≠ "" → retired sv s → retired sv' s.
Proof.
  intros [Hh Hc Ho Hp] Hn Hs Hne ((k0 & o0 & Hin & Hb0) & Hpast & Hno). split_and!.
  - exists k0, o0. auto.
  - intros k o Hb Hk. destruct (Ho k o Hk) as [Hk'|Hfresh]; [by eapply Hpast|].
    destruct (binds_unique _ _ _ _ _ Hb0 Hb) as (_ & Hu & Hv). by eapply Hfresh.
  - intros k o Hk Heq. destruct (Hp k o Hk) as [(k' & cur & Hk' & Hcur)|(s' & live & Hs' & Hname & Hlive & Hb)].
    + by rewrite Heq.
    + eapply Hno; [exact Hk'|congruence].
    + assert (s' = s) as -> by (apply Hn; [done..|congruence]). by eapply Hpast.
Qed.

Lemma fact_advance sv sv' l e :
  advance sv sv' → names_unique sv → (∀ s, s ∈ sv_created sv → s_name s ≠ "") → prefix_facts sv l →
  fact sv l e → fact sv' l e.
Proof.
  intros Ha Hn Hne Hf.
  assert (Hret : ∀ s, known l s → retired sv s → retired sv' s).
  { intros s Hs%(known_created _ _ _ Hf) Hr. eapply retired_advance; eauto. }
  assert (Hlist : ∀ s, listed l s → retired sv s → retired sv' s) by (intros s Hs; apply Hret; by left).
  destruct Ha as [Hh Hc _ _].
  destruct e as [R c r]. destruct c as [|g ns name|ns name|[] s0|s|obj|[] obj|[] live ops|g|b|b n|g|g ns name|t ns n|o|cont| | |];
    simpl; try done.
  - destruct r; auto.
  - destruct r; [|done]. intros []. auto.
  - destruct r; [|done]. intros (? & ? & ?). auto.
  - destruct r; auto.
  - destruct r; auto.
  - destruct r as [acc|]; [|done]. intros Hfact Hin Htest. destruct (Hfact Hin Htest) as [Hp [->|Hall]];
      (split; [done|]); [by left|right]. eauto.
  - destruct r as [o|[e [d|]]]; [|eauto|done]. intros [Hin Hall]. split; [auto|]. intros s Hs Hk Hp.
    destruct (Hall s Hs Hk Hp); auto.
  - destruct r as [[rs n]|]; auto.
Qed.

Lemma prefix_facts_advance sv sv' l :
  advance sv sv' → names_unique sv → (∀ s, s ∈ sv_created sv → s_name s ≠ "") → prefix_facts sv l → prefix_facts sv' l.
Proof.
  intros Ha Hn Hne Hf l1 e l2 Heq. eapply fact_advance; eauto. subst. by eapply prefix_facts_app.
Qed.

(** ** The invariant *)

Definition allowed (l : list wevent) (e : wevent) : Prop := justified l e ∨ gc_justified l e.

Definition creation_of (e : wevent) : option secret :=
  match e with
  | @Ev _ R c r =>
      match c in IntentWriter.wcall R return R → option secret with
      | CreateSecret false _ => λ r, match r with Ok s => Some s | Err _ => None end
      | _ => λ _, None
      end r
  end.

Definition event_at (procs : list proc) (l : list wevent) (e : wevent) : Prop :=
  ∃ i p l2, procs !! i = Some p ∧ pr_trace p = l ++ e :: l2.
Definition creation_at (procs : list proc) (i : nat) (l : list wevent) (s : secret) : Prop :=
  ∃ p e l2, procs !! i = Some p ∧ pr_trace p = l ++ e :: l2 ∧ creation_of e = Some s.

(** A publication of the record was sent, right after its creation, and was not refused. *)
Definition published (procs : list proc) (s : secret) : Prop :=
  ∃ i p l1 ce l2 e l3, procs !! i = Some p ∧ pr_trace p = l1 ++ ce :: l2 ++ e :: l3 ∧ creation_of ce = Some s ∧
    Forall quiet l2 ∧ ¬ quiet e ∧ ¬ refused e ∧ ¬ deletes e.
(** The creator gave the record up while every publication of it had been refused. *)
Definition dropped (procs : list proc) (s : secret) : Prop :=
  ∃ i p l1 ce l2 e l3, procs !! i = Some p ∧ pr_trace p = l1 ++ ce :: l2 ++ e :: l3 ∧ creation_of ce = Some s ∧
    Forall (λ e, quiet e ∨ refused e ∨ deletes e) l2 ∧ deletes e.

Record base (sv : server) (procs : list proc) : Prop := {
  b_disc i p : procs !! i = Some p → holds (pr_prog p) (pr_trace p) (λ tr _, each allowed tr);
  b_current k o : sv_objects sv !! k = Some o → (k, o) ∈ sv_history sv;
  b_keys k o : (k, o) ∈ sv_history sv → target_key o = k;
  b_versions k o k' o' : (k, o) ∈ sv_history sv → (k', o') ∈ sv_history sv → GetUID o = GetUID o' →
    GetResourceVersion o = GetResourceVersion o' → o = o';
  b_records n s : sv_records sv !! n = Some s → s_name s = n ∧ s ∈ sv_created sv;
  b_names : names_unique sv;
  b_bound s : s ∈ sv_created sv → s_name s ≠ "" ∧ ∃ k o, (k, o) ∈ sv_history sv ∧ binds s k o;
  b_creation i l i' l' s : creation_at procs i l s → creation_at procs i' l' s → i = i' ∧ l = l';
  b_pending c : c ∈ sv_pending sv → ∃ l e, event_at procs l (Ev c (Err e)) ∧ rejected e = false;
  b_pointer k o : (k, o) ∈ sv_history sv → pointer o ≠ "" → ∃ s b,
    s ∈ sv_created sv ∧ s_name s = pointer o ∧ (k, b) ∈ sv_history sv ∧ binds s k b ∧ GetUID b = GetUID o ∧
    sv_objects sv !! k ≠ Some b ∧ published procs s;
  b_deleted s : s ∈ sv_created sv → sv_records sv !! s_name s = None → retired sv s ∨ dropped procs s;
}.

Definition facts (sv : server) (procs : list proc) : Prop := ∀ l e, event_at procs l e → fact sv l e.

Lemma facts_prefix sv procs i p : facts sv procs → procs !! i = Some p → prefix_facts sv (pr_trace p).
Proof. intros Hf Hi l1 e l2 Heq. apply Hf. by exists i, p, l2. Qed.

(** A dropped record was never published. *)
Lemma dropped_unpublished sv procs s : base sv procs → dropped procs s → published procs s → False.
Proof.
  intros Hb (i & p & l1 & ce & l2 & d & l3 & Hi & Htr & Hc & Hq & Hd) (i' & p' & l1' & ce' & l2' & e & l3' & Hi' & Htr' & Hc' & Hq' & Hne & Hnr & Hnd).
  destruct (b_creation _ _ Hb i l1 i' l1' s) as [<- <-].
  { exists p, ce, (l2 ++ d :: l3). auto. }
  { exists p', ce', (l2' ++ e :: l3'). auto. }
  simplify_eq. rewrite Htr in Htr'. apply app_inv_head in Htr'. injection Htr' as <- Htl.
  destruct (decide (length l2 < length l2')) as [Hlt|Hge]; [|destruct (decide (length l2' < length l2)) as [Hlt|Hge']].
  - assert (Hd' : l2' !! length l2 = Some d).
    { rewrite <- (lookup_app_l l2' (e :: l3')), <- Htl, lookup_app_r, Nat.sub_diag by lia. done. }
    eapply Forall_lookup_1 in Hq'; [|exact Hd']. destruct d as [R c r]. by destruct c.
  - assert (He' : l2 !! length l2' = Some e).
    { rewrite <- (lookup_app_l l2 (d :: l3)), Htl, lookup_app_r, Nat.sub_diag by lia. done. }
    eapply Forall_lookup_1 in Hq; [|exact He']. tauto.
  - apply app_inj_1 in Htl as [_ Htl]; [|lia]. injection Htl as <- _. done.
Qed.

(** ** One more event *)

Definition answer {R} (c : wcall R) : R.
Proof.
  destruct c; first [exact None | exact tt | exact 0%Z | exact (Err (new_error "")) | exact (Err (new_error "", None))].
Defined.

Lemma holds_now {A} (p : wprog A) tr D : holds p tr (λ tr' _, each D tr') → each D tr.
Proof.
  revert tr. induction p as [a|R c k IH]; intros tr Hp; [done|]. specialize (IH _ _ (Hp (answer c))).
  by apply each_snoc in IH as [? _].
Qed.

(** Processes go on: what the old traces show, the new ones still show. *)
Definition grows (procs procs' : list proc) : Prop :=
  ∀ j p, procs !! j = Some p → ∃ p', procs' !! j = Some p' ∧ pr_trace p `prefix_of` pr_trace p'.

Section Grows.
Context (procs procs' : list proc) (Hg : grows procs procs').

Lemma grows_event l e : event_at procs l e → event_at procs' l e.
Proof.
  intros (j & p & l2 & Hj & Heq). destruct (Hg j p Hj) as (p' & Hj' & l' & Hl').
  exists j, p', (l2 ++ l'). split; [done|]. by rewrite Hl', Heq, <- app_assoc.
Qed.

Lemma grows_published s : published procs s → published procs' s.
Proof.
  intros (j & p & l1 & ce & l2 & e & l3 & Hj & Heq & Hrest). destruct (Hg j p Hj) as (p' & Hj' & l' & Hl').
  exists j, p', l1, ce, l2, e, (l3 ++ l'). split_and!; [done| |by destruct_and?..].
  rewrite Hl', Heq. by rewrite <- !app_assoc, <- app_comm_cons, <- app_assoc, <- app_comm_cons.
Qed.

Lemma grows_dropped s : dropped procs s → dropped procs' s.
Proof.
  intros (j & p & l1 & ce & l2 & e & l3 & Hj & Heq & Hrest). destruct (Hg j p Hj) as (p' & Hj' & l' & Hl').
  exists j, p', l1, ce, l2, e, (l3 ++ l'). split_and!; [done| |by destruct_and?..].
  rewrite Hl', Heq. by rewrite <- !app_assoc, <- app_comm_cons, <- app_assoc, <- app_comm_cons.
Qed.

Lemma grows_base sv :
  (∀ i p, procs' !! i = Some p → holds (pr_prog p) (pr_trace p) (λ tr _, each allowed tr)) →
  (∀ i l i' l' s, creation_at procs' i l s → creation_at procs' i' l' s → i = i' ∧ l = l') →
  base sv procs → base sv procs'.
Proof.
  intros Hd Hc [_ ? ? ? ? ? ? _ Hp Hptr Hdel]. split; try done.
  - intros c Hin. destruct (Hp c Hin) as (l & e & Hev & ?). exists l, e. split; [by apply grows_event|done].
  - intros k o Hin Hne. destruct (Hptr k o Hin Hne) as (s & b & ? & ? & ? & ? & ? & ? & ?). exists s, b.
    split_and!; [done..|by apply grows_published].
  - intros s Hin Hn. destruct (Hdel s Hin Hn); [by left|right; by apply grows_dropped].
Qed.
End Grows.

Section Append.
Context (procs : list proc) (i : nat) {A R : Type} (c : wcall R) (k : R → wprog A) (tr : list wevent) (r : R).
Hypothesis Hi : procs !! i = Some (Proc A (Do c k) tr).
Let procs' := <[i := Proc A (k r) (tr ++ [Ev c r])]> procs.

Lemma append_lookup j p : procs' !! j = Some p →
  (j = i ∧ p = Proc A (k r) (tr ++ [Ev c r])) ∨ (j ≠ i ∧ procs !! j = Some p).
Proof.
  unfold procs'. intros Hj. destruct (decide (i = j)) as [<-|Hne].
  - rewrite list_lookup_insert_eq in Hj by (by eapply lookup_lt_Some). left. split; [done|congruence].
  - rewrite list_lookup_insert_ne in Hj by done. by right.
Qed.

Lemma append_here : procs' !! i = Some (Proc A (k r) (tr ++ [Ev c r])).
Proof. apply list_lookup_insert_eq. by eapply lookup_lt_Some. Qed.

Lemma append_grows : grows procs procs'.
Proof.
  intros j p Hj. destruct (decide (i = j)) as [<-|Hne].
  - exists (Proc A (k r) (tr ++ [Ev c r])). split; [apply append_here|]. simplify_eq. by exists [Ev c r].
  - exists p. split; [by rewrite <- Hj; apply list_lookup_insert_ne|done].
Qed.

Lemma append_event_new : event_at procs' tr (Ev c r).
Proof. exists i, (Proc A (k r) (tr ++ [Ev c r])), []. split; [apply append_here|done]. Qed.

Lemma append_split l e l2 : tr ++ [Ev c r] = l ++ e :: l2 → (∃ l2', tr = l ++ e :: l2') ∨ (l = tr ∧ e = Ev c r).
Proof.
  intros Heq. destruct l2 as [|e' l2' _] using rev_ind.
  - apply app_inj_tail in Heq as [-> ->]. by right.
  - left. rewrite app_comm_cons, app_assoc in Heq. apply app_inj_tail in Heq as [-> _]. eauto.
Qed.

Lemma append_event_inv l e : event_at procs' l e → event_at procs l e ∨ (l = tr ∧ e = Ev c r).
Proof.
  intros (j & p & l2 & Hj & Heq). apply append_lookup in Hj as [[-> ->]|[_ Hj]].
  - apply append_split in Heq as [[l2' Heq]|?]; [left|by right]. by exists i, (Proc A (Do c k) tr), l2'.
  - left. by exists j, p, l2.
Qed.

Lemma append_creation_inv j l s : creation_at procs' j l s →
  creation_at procs j l s ∨ (j = i ∧ l = tr ∧ creation_of (Ev c r) = Some s).
Proof.
  intros (p & e & l2 & Hj & Heq & Hc). apply append_lookup in Hj as [[-> ->]|[_ Hj]].
  - apply append_split in Heq as [[l2' Heq]|[-> ->]]; [left|by right]. by exists (Proc A (Do c k) tr), e, l2'.
  - left. by exists p, e, l2.
Qed.

(** The call that is made is allowed. *)
Lemma append_allowed sv : base sv procs → each allowed tr ∧ allowed tr (Ev c r).
Proof. intros Hb. pose proof (b_disc _ _ Hb _ _ Hi r) as Hd. apply holds_now in Hd. by apply each_snoc in Hd. Qed.

Lemma append_base sv :
  (∀ s, creation_of (Ev c r) = Some s → ∀ j l, ¬ creation_at procs j l s) → base sv procs → base sv procs'.
Proof.
  intros Hnew Hb. apply (grows_base procs procs'); [apply append_grows| | |done].
  - intros j p [[-> ->]|[_ Hj]]%append_lookup; [|by eapply b_disc]. exact (b_disc _ _ Hb _ _ Hi r).
  - intros j l j' l' s [Hc|(-> & -> & Hc)]%append_creation_inv [Hc'|(-> & -> & Hc')]%append_creation_inv.
    + by eapply (b_creation _ _ Hb).
    + by destruct (Hnew _ Hc' _ _ Hc).
    + by destruct (Hnew _ Hc _ _ Hc').
    + done.
Qed.
End Append.

(** ** What the disciplines mean on the server *)

Lemma creation_inv e s : creation_of e = Some s → ∃ s0, e = Ev (CreateSecret false s0) (Ok s).
Proof.
  destruct e as [R c r]. destruct c as [| | |[] s0| | | | | | | | | | | | | | |]; simpl; try done.
  destruct r as [s'|]; [|done]. intros [= ->]. eauto.
Qed.

Lemma creation_created sv procs j l s : facts sv procs → creation_at procs j l s → s ∈ sv_created sv.
Proof.
  intros Hf (p & e & l2 & Hj & Heq & [s0 ->]%creation_inv).
  assert (Hfe : fact sv l (Ev (CreateSecret false s0) (Ok s))) by (apply Hf; by exists j, p, l2). by destruct Hfe.
Qed.

Section Meaning.
Context (sv : server) (procs : list proc).
Hypothesis Hb : base sv procs.

Lemma seen_history l k live : prefix_facts sv l → seen_at l k live → (k, live) ∈ sv_history sv.
Proof.
  intros Hf. induction 1 as [live Hr|obj live <- Ha|obj live <- Ha|live0 live _ IH Hr].
  - apply (prefix_facts_elem _ _ _ Hf) in Hr as [l1 Hr]. destruct k as [[g ns] name]. exact Hr.
  - by apply (prefix_facts_elem _ _ _ Hf) in Ha as [l1 Ha].
  - by apply (prefix_facts_elem _ _ _ Hf) in Ha as [l1 Ha].
  - apply (prefix_facts_elem _ _ _ Hf) in Hr as [l1 Hr]. by rewrite (b_keys _ _ Hb _ _ IH) in Hr; destruct k as [[g ns] name].
Qed.

Lemma holding_history l live : prefix_facts sv l → holding l live → (target_key live, live) ∈ sv_history sv.
Proof.
  intros Hf Hh. assert (Hin : ∃ k, (k, live) ∈ sv_history sv).
  { destruct Hh as [[k Hs]|[k [Hr|Hr]]]; exists k; [by eapply seen_history|..];
      apply (prefix_facts_elem _ _ _ Hf) in Hr as [l1 Hr]; destruct k as [[g ns] name]; [by destruct Hr|exact Hr]. }
  destruct Hin as [k Hin]. by rewrite (b_keys _ _ Hb _ _ Hin).
Qed.

(** A record just prepared is bound to the version it was prepared for. *)
Lemma bound_binds l s0 s live : prefix_facts sv l → bound l s0 live → s_data s = s_data s0 →
  (target_key live, live) ∈ sv_history sv ∧ binds s (target_key live) live ∧ GetUID live ≠ "" ∧ GetResourceVersion live ≠ "".
Proof.
  intros Hf (r & d & He & _ & _ & Hp & Hv & Hu & Hne & Hnv & Hd & Hs) Hdata.
  pose proof (seen_history _ _ _ Hf Hs) as Hin. pose proof (b_keys _ _ Hb _ _ Hin) as Hk. rewrite Hk.
  split_and!; [done| |done..]. exists r, (intentObject d). rewrite Hdata. split_and!; [done|done|apply key_intentObject|done..].
Qed.

Lemma fresh_binds l s live : prefix_facts sv l → fresh_prepared l s live →
  s ∈ sv_created sv ∧ (target_key live, live) ∈ sv_history sv ∧ binds s (target_key live) live ∧
  GetUID live ≠ "" ∧ GetResourceVersion live ≠ "".
Proof.
  intros Hf (l1 & s0 & l2 & -> & Hbound & _). assert (Hc : fact sv l1 (Ev (CreateSecret false s0) (Ok s))) by (by eapply Hf).
  destruct Hc as (Hin & Hdata & _). split; [done|]. eapply bound_binds; [by eapply prefix_facts_app|done|done].
Qed.

Lemma current_is live k cur : (target_key live, live) ∈ sv_history sv → sv_objects sv !! k = Some cur →
  GetUID cur = GetUID live → GetResourceVersion cur = GetResourceVersion live → cur = live.
Proof. intros Hl Hc Hu Hv. eapply (b_versions _ _ Hb); eauto using b_current. Qed.

Lemma tested_current live ops k cur edited : (target_key live, live) ∈ sv_history sv → tested live ops →
  sv_objects sv !! k = Some cur → ApplyPatch ops cur = Some edited → cur = live.
Proof.
  intros Hl [rest ->] Hc [Hu [Hv _]%test_rv]%test_uid. by eapply current_is.
Qed.

(** The guards say nothing of what the rest of the patch does. *)
Lemma guarded_patch u v rest o o' : ApplyPatch (PatchOp "test" "/metadata/uid" (JStr u) ::
    PatchOp "test" "/metadata/resourceVersion" (JStr v) :: rest) o = Some o' → ApplyPatch rest o = Some o'.
Proof. by intros [_ [_ Ha]%test_rv]%test_uid. Qed.

Lemma intent_patch_tested live after ops : intentPatch live after = Ok ops →
  tested live ops ∧ ∀ x, ApplyPatch ops live = Some x → x = after.
Proof.
  unfold intentPatch. destruct (CreatePatch live after) as [rest|] eqn:Hc; [|done]. intros [= <-]. split; [by exists rest|].
  intros x Hx%guarded_patch. apply create_apply in Hc. congruence.
Qed.

Lemma fence_tested target s : tested target (fence_patch target s).
Proof. eexists. reflexivity. Qed.

Lemma fence_pointer target s after : ApplyPatch (fence_patch target s) target = Some after → pointer after = pointer target.
Proof.
  unfold fence_patch. intros Ha%guarded_patch. unfold pointer.
  destruct (GetLabels target); apply labels_only in Ha as (-> & _ & _); simpl; auto.
Qed.

(** The pointer a committed write leaves. *)
Definition keeps_pointer (k : key) (o : object) : Prop :=
  pointer o = "" ∨ ∃ cur, sv_objects sv !! k = Some cur ∧ pointer o = pointer cur ∧ GetUID o = GetUID cur.

Lemma write_effect l c r k o :
  prefix_facts sv l → allowed l (Ev c r) → effect sv c k o →
  target_key o = k ∧ (sv_objects sv !! k = Some o ∨ fresh_version sv o) ∧
  (keeps_pointer k o ∨ ¬ quiet (Ev c r) ∧ ∃ s live, fresh_prepared l s live ∧ sv_objects sv !! k = Some live ∧
     pointer o = s_name s ∧ GetUID o = GetUID live).
Proof.
  intros Hf Hallow Heff.
  assert (Hnext : ∀ cur k', sv_objects sv !! k' = Some cur → next_version sv cur o →
    target_key o = k' ∧ (sv_objects sv !! k' = Some o ∨ fresh_version sv o)).
  { intros cur k' Hc (_ & Hk & Hv). rewrite Hk. split; [by eapply (b_keys _ _ Hb), (b_current _ _ Hb)|].
    destruct Hv as [->|?]; auto. }
  assert (Hnew : ∀ k', new_object sv k' o → target_key o = k' ∧ (sv_objects sv !! k' = Some o ∨ fresh_version sv o)).
  { intros k' [Hk Hu]. split; [done|]. right. intros k'' o' Hin Heq. by destruct (Hu _ _ Hin). }
  destruct Heff as [live ops cur edited o Hc Ha Hn Hp|obj cur o Hc Hu Hv Hn Hp|obj o Hc Hu Hv Hn Hp|obj o Hc Hn Hp].
  - destruct (Hnext _ _ Hc Hn) as [? ?]. split_and!; [done..|].
    destruct Hallow as [[[=]|(after & s & Hops & Hfresh & Hpa)]|[[=]|(s & k' & -> & Hread)]].
    + right. split; [done|]. destruct (fresh_binds _ _ _ Hf Hfresh) as (_ & Hin & _).
      destruct (intent_patch_tested _ _ _ Hops) as [Ht Hap]. pose proof (tested_current _ _ _ _ _ Hin Ht Hc Ha) as ->.
      exists s, live. destruct Hn as (? & _). pose proof (Hap _ Ha). split_and!; [done..| |done]. congruence.
    + left. right. exists cur. destruct Hn as (? & _). split_and!; [done| |done]. rewrite Hp.
      assert (Hin : (target_key live, live) ∈ sv_history sv).
      { eapply holding_history; [done|]. right. exists k'. tauto. }
      pose proof (tested_current _ _ _ _ _ Hin (fence_tested live s) Hc Ha) as ->. by eapply fence_pointer.
  - destruct (Hnext _ _ Hc Hn) as [? ?]. split_and!; [done..|]. destruct Hn as (Huid & _).
    assert (Hcase : pointer obj = "" ∨ pointer obj ≠ "" ∧ ∃ live s, fresh_prepared l s live ∧ pointer obj = s_name s ∧
      GetUID obj = GetUID live ∧ GetResourceVersion obj = GetResourceVersion live).
    { destruct (decide (pointer obj = "")) as [|Hne]; [by left|right]. split; [done|].
      destruct Hallow as [[[=]|[?|(live & s & ? & ? & ? & ? & _)]]|[[=]|?]]; [done| |done]. eauto 10. }
    destruct Hcase as [He|(Hne & live & s & Hfresh & Hps & Hul & Hvl)].
    + left. destruct Hp as [Hp|[_ Hp]]; [left; congruence|right; eauto].
    + right. split; [simpl; naive_solver|]. exists s, live.
      destruct (fresh_binds _ _ _ Hf Hfresh) as (_ & Hin & _ & Hnu & Hnv).
      assert (cur = live) as -> by (eapply current_is; [done|done|..]; destruct Hu, Hv; congruence).
      destruct Hp as [Hp|[? _]]; [|done]. split_and!; [done..| |done]. congruence.
  - destruct (Hnew _ Hn) as [? ?]. split_and!; [done..|]. left. left. rewrite Hp.
    destruct Hallow as [[[=]|[?|(live & s & Hfresh & _ & Hul & _)]]|[[=]|?]]; [done| |done].
    destruct (fresh_binds _ _ _ Hf Hfresh) as (_ & _ & _ & Hnu & _). congruence.
  - destruct (Hnew _ Hn) as [? ?]. split_and!; [done..|]. left. left. rewrite Hp. by destruct Hallow.
Qed.
Lemma retired_unless s k : s ∈ sv_created sv → record_key s k →
  (∀ o, sv_objects sv !! k = Some o → ¬ binds s k o ∧ pointer o ≠ s_name s) → retired sv s.
Proof.
  intros Hs Hk Hcur. destruct (b_bound _ _ Hb s Hs) as [Hne (k1 & o1 & Hin & Hbind)]. split_and!; [eauto| |].
  - intros k' o' Hb' Ho'. pose proof (record_key_binds _ _ _ _ Hk Hb') as ->. by destruct (Hcur o' Ho').
  - intros k' o' Ho' Hp. destruct (b_pointer _ _ Hb k' o') as (s2 & b & Hs2 & Hname & _ & Hb2 & _); [by apply (b_current _ _ Hb)|congruence|].
    assert (s2 = s) as -> by (apply (b_names _ _ Hb); [done..|congruence]).
    pose proof (record_key_binds _ _ _ _ Hk Hb2) as ->. by destruct (Hcur o' Ho').
Qed.

(** A version other than the one a record is bound to. *)
Lemma not_bound s k o1 o : (k, o1) ∈ sv_history sv → (k, o) ∈ sv_history sv → binds s k o1 → o ≠ o1 → ¬ binds s k o.
Proof.
  intros Hin1 Hin Hb1 Hne Hb2. destruct (binds_unique _ _ _ _ _ Hb1 Hb2) as (_ & Hu & Hv).
  apply Hne. symmetry. by eapply (b_versions _ _ Hb).
Qed.

(** *** Transitions *)

Lemma same_advance sv' : sv_history sv' = sv_history sv → sv_objects sv' = sv_objects sv →
  (∀ s, s ∈ sv_created sv → s ∈ sv_created sv') → advance sv sv'.
Proof. intros Hh Ho Hc. split; [by rewrite Hh|done|rewrite Ho; auto|rewrite Ho; eauto]. Qed.

(** The pointer of a new version: kept, or a record just published for the current one. *)
Definition publishes (k : key) (o : object) : Prop :=
  ∃ s live, s ∈ sv_created sv ∧ published procs s ∧ sv_objects sv !! k = Some live ∧ binds s k live ∧
    pointer o = s_name s ∧ GetUID o = GetUID live.

Section Put.
Context (k : key) (o : object) (Hk : target_key o = k).
Context (Hver : sv_objects sv !! k = Some o ∨ fresh_version sv o) (Hptr : keeps_pointer k o ∨ publishes k o).

Lemma put_current k' o' : sv_objects (put k o sv) !! k' = Some o' →
  (k' = k ∧ o' = o) ∨ (k' ≠ k ∧ sv_objects sv !! k' = Some o').
Proof.
  simpl. destruct (decide (k' = k)) as [->|Hne].
  - rewrite lookup_insert_eq. intros [= <-]. by left.
  - rewrite lookup_insert_ne by done. by right.
Qed.

Lemma put_advance : advance sv (put k o sv).
Proof.
  split; simpl; [intros v ?; apply elem_of_app; by left|done| |].
  - intros k' o' [[-> ->]|[_ Ho']]%put_current; [done|by left].
  - intros k' o' [[-> ->]|[_ Ho']]%put_current Hne; [|left; eauto].
    destruct Hptr as [[?|(cur & Hc & Hp & _)]|(s & live & Hs & _ & Hl & Hbind & Hp & _)]; [done|left; eauto|].
    right. exists s, live. done.
Qed.

Lemma put_passed k' b : (k', b) ∈ sv_history sv → sv_objects sv !! k' ≠ Some b → sv_objects (put k o sv) !! k' ≠ Some b.
Proof.
  intros Hin Hne [[-> ->]|[_ Ho']]%put_current; [|done]. destruct Hver as [?|Hf]; [done|]. by eapply Hf.
Qed.

Lemma put_pointer : pointer o ≠ "" → ∃ s b, s ∈ sv_created sv ∧ s_name s = pointer o ∧ (k, b) ∈ sv_history sv ∧
  binds s k b ∧ GetUID b = GetUID o ∧ sv_objects (put k o sv) !! k ≠ Some b ∧ published procs s.
Proof.
  intros Hne.
  assert (Hkeep : ∀ cur, sv_objects sv !! k = Some cur → pointer o = pointer cur → GetUID o = GetUID cur →
    ∃ s b, s ∈ sv_created sv ∧ s_name s = pointer o ∧ (k, b) ∈ sv_history sv ∧
      binds s k b ∧ GetUID b = GetUID o ∧ sv_objects (put k o sv) !! k ≠ Some b ∧ published procs s).
  { intros cur Hc Hp Hu. destruct (b_pointer _ _ Hb k cur) as (s & b & ? & ? & ? & ? & ? & ? & ?);
      [by apply (b_current _ _ Hb)|congruence|]. exists s, b. split_and!; [done|congruence|done|done|congruence| |done].
    by apply put_passed. }
  destruct Hver as [Hcur|Hf]; [by eapply Hkeep|].
  destruct Hptr as [[?|(cur & Hc & Hp & Hu)]|(s & live & Hs & Hpub & Hl & Hbind & Hp & Hu)]; [done|by eapply Hkeep|].
  exists s, live. pose proof (b_current _ _ Hb _ _ Hl) as Hin. split_and!; try done.
  intros [[_ ->]|[? _]]%put_current; [by eapply Hf|done].
Qed.

Lemma put_base : base (put k o sv) procs.
Proof.
  pose proof put_advance as Hadv. pose proof put_pointer as Hnew. pose proof put_passed as Hpast.
  destruct (Hb) as [Hd Hc Hkeys Hv Hr Hn Hbd Hcr Hpe Hp Hdel]. split; try done.
  - intros k' o' [[-> ->]|[_ Ho']]%put_current; apply elem_of_app; [right; by left|left; by apply Hc].
  - intros k' o' [?|[= -> ->]%list_elem_of_singleton]%elem_of_app; [by apply Hkeys|done].
  - assert (Hmix : ∀ k' o', (k', o') ∈ sv_history sv → GetUID o' = GetUID o → GetResourceVersion o' = GetResourceVersion o → o' = o).
    { intros k' o' Hin Hu Hve. destruct Hver as [Hcur|Hf]; [|by destruct (Hf _ _ Hin)]. eapply Hv; eauto. }
    intros k1 o1 k2 o2 [?|[= -> ->]%list_elem_of_singleton]%elem_of_app [?|[= -> ->]%list_elem_of_singleton]%elem_of_app Hu Hve;
      [by eapply Hv|by eapply Hmix|symmetry; by eapply Hmix|done].
  - intros s Hs. destruct (Hbd s Hs) as [? (k' & o' & ? & ?)]. split; [done|]. exists k', o'.
    split; [|done]. apply elem_of_app. by left.
  - intros k' o' [Hin|[= -> ->]%list_elem_of_singleton]%elem_of_app Hne.
    + destruct (Hp k' o' Hin Hne) as (s & b & ? & ? & ? & ? & ? & ? & ?). exists s, b. split_and!; try done; [|by apply Hpast].
      apply elem_of_app. by left.
    + destruct (Hnew Hne) as (s & b & ? & ? & ? & ? & ? & ? & ?). exists s, b. split_and!; try done.
      apply elem_of_app. by left.
  - intros s Hs Hno. destruct (Hdel s Hs Hno) as [Hret|]; [left|by right].
    eapply retired_advance; [done..| |done]. by apply Hbd.
Qed.
End Put.

Lemma store_base s0 s : named sv s0 s → (∃ k o, (k, o) ∈ sv_history sv ∧ binds s k o) → base (store s sv) procs.
Proof.
  intros (_ & Hne & Hfresh) Hbind.
  assert (Hold : ∀ s', s' ∈ sv_created sv → s_name s' ≠ s_name s).
  { intros s' Hs' Heq. apply Hfresh. rewrite <- Heq. by apply list_elem_of_fmap_2. }
  destruct (Hb) as [Hd Hc Hkeys Hv Hr Hn Hbd Hcr Hpe Hp Hdel]. split; try done; simpl.
  - intros n s' Hs'. destruct (decide (n = s_name s)) as [->|Hne'].
    + rewrite lookup_insert_eq in Hs'. injection Hs' as <-. split; [done|by left].
    + rewrite lookup_insert_ne in Hs' by done. destruct (Hr _ _ Hs'). split; [done|by right].
  - intros s1 s2 [->|Hin1]%elem_of_cons [->|Hin2]%elem_of_cons Heq; [done| | |by apply Hn].
    + by destruct (Hold _ Hin2).
    + by destruct (Hold _ Hin1).
  - intros s' [->|Hs']%elem_of_cons; [done|by apply Hbd].
  - intros k o Hin Hp'. destruct (Hp k o Hin Hp') as (s' & b & ? & Hrest). exists s', b. split; [by right|done].
  - intros s' [->|Hs']%elem_of_cons Hno; [by rewrite lookup_insert_eq in Hno|].
    rewrite lookup_insert_ne in Hno by (intros ?; by destruct (Hold _ Hs')). by apply Hdel.
Qed.

Lemma discard_base s : s ∈ sv_created sv → retired sv s ∨ dropped procs s → base (discard s sv) procs.
Proof.
  intros Hs Hwhy. destruct (Hb) as [Hd Hc Hkeys Hv Hr Hn Hbd Hcr Hpe Hp Hdel]. split; try done; simpl.
  - intros n s' [_ Hs']%lookup_delete_Some. by apply Hr.
  - intros s' Hs' Hno. destruct (decide (s_name s' = s_name s)) as [Heq|Hne].
    + assert (s' = s) as -> by by apply Hn. done.
    + rewrite lookup_delete_ne in Hno by done. by apply Hdel.
Qed.

Lemma remove_advance k : advance sv (remove_object k sv).
Proof.
  split; simpl; [done|done| |].
  - intros k' o [_ Ho]%lookup_delete_Some. by left.
  - intros k' o [_ Ho]%lookup_delete_Some _. left. eauto.
Qed.

Lemma remove_base k : base (remove_object k sv) procs.
Proof.
  pose proof (remove_advance k) as Hadv.
  destruct (Hb) as [Hd Hc Hkeys Hv Hr Hn Hbd Hcr Hpe Hp Hdel]. split; try done; simpl.
  - intros k' o [_ Ho]%lookup_delete_Some. by apply Hc.
  - intros k' o Hin Hne. destruct (Hp k' o Hin Hne) as (s & b & ? & ? & ? & ? & ? & Hcur & ?). exists s, b.
    split_and!; try done. intros [_ Ho]%lookup_delete_Some. done.
  - intros s Hs Hno. destruct (Hdel s Hs Hno) as [Hret|]; [left|by right].
    eapply retired_advance; [done..| |done]. by apply Hbd.
Qed.

Lemma pend_base c l e : event_at procs l (Ev c (Err e)) → rejected e = false → base (pend c sv) procs.
Proof.
  intros Hev Hrej. destruct (Hb) as [Hd Hc Hkeys Hv Hr Hn Hbd Hcr Hpe Hp Hdel]. split; try done; simpl.
  intros c' [->|Hin]%elem_of_cons; [eauto|by apply Hpe].
Qed.
End Meaning.
(** ** Every step keeps the invariant *)

(** A write that was sent and not refused is committed. *)
Lemma commit_keeps sv procs l c r k o :
  base sv procs → prefix_facts sv l → event_at procs l (Ev c r) → allowed l (Ev c r) → ¬ refused (Ev c r) →
  effect sv c k o → base (put k o sv) procs ∧ advance sv (put k o sv).
Proof.
  intros Hb Hf (i & p & l3 & Hi & Htr) Hallow Hnr Heff.
  destruct (write_effect _ _ Hb _ _ _ _ _ Hf Hallow Heff) as (Hk & Hver & Hptr).
  assert (Hptr' : keeps_pointer sv k o ∨ publishes sv procs k o).
  { destruct Hptr as [?|(Hnq & s & live & Hfresh & Hl & Hp & Hu)]; [by left|right]. exists s, live.
    destruct (fresh_binds _ _ Hb _ _ _ Hf Hfresh) as (Hs & Hin & Hbind & _). split_and!; try done.
    - destruct Hfresh as (l1 & s0 & l2 & -> & _ & Hq). exists i, p, l1, (Ev (CreateSecret false s0) (Ok s)), l2, (Ev c r), l3.
      split_and!; try done; [by rewrite Htr, <- app_assoc|]. destruct Heff; by intros [].
    - by rewrite (b_keys _ _ Hb _ _ (b_current _ _ Hb _ _ Hl)) in Hbind. }
  split; [by apply put_base|by eapply put_advance].
Qed.

(** A patch goes to an object that the process has from the server. *)
Lemma patch_holding l live ops r : allowed l (Ev (PatchObject false live ops) r) → holding l live.
Proof.
  intros [[[=]|(after & s & _ & (l1 & s0 & l2 & -> & (rec & d & _ & _ & _ & _ & _ & _ & _ & _ & _ & Hs) & _) & _)]
         |[[=]|(s & k & _ & Hread)]].
  - left. eexists. eapply seen_mono; [by apply prefix_app_r|done].
  - right. exists k. tauto.
Qed.

Lemma known_mono l l' s : l `prefix_of` l' → known l s → known l' s.
Proof.
  intros Hpre [Hl|(ns & name & Hin)]; [left; by eapply listed_mono|right]. exists ns, name.
  destruct Hpre as [l2 ->]. apply elem_of_app. by left.
Qed.

(** Nothing points to what a successor replaced, and its version is past. *)
Lemma superseded_retired sv procs l s :
  base sv procs → prefix_facts sv l → each allowed l → superseded l s → s ∈ sv_created sv ∧ retired sv s.
Proof.
  intros Hb Hf Hall (l1 & s0 & new & l2 & live & after & ops & acc & l3 & ns & -> & Hne & Hread & Hops & Hpa).
  set (l' := l1 ++ Ev (CreateSecret false s0) (Ok new) :: l2).
  assert (Heq : l1 ++ Ev (CreateSecret false s0) (Ok new) :: l2 ++ Ev (PatchObject false live ops) (Ok acc) :: l3 =
                l' ++ Ev (PatchObject false live ops) (Ok acc) :: l3) by (unfold l'; by rewrite <- app_assoc).
  rewrite Heq in Hf, Hall. destruct (Hf _ _ _ eq_refl (patch_holding _ _ _ _ (Hall _ _ _ eq_refl))) as [(after' & Hap & Hp) Hcase].
  { by eapply intent_patch_tested. }
  apply (proj2 (intent_patch_tested _ _ _ Hops)) in Hap as ->.
  assert (Hk1 : known l1 s) by (right; eauto).
  assert (Hk : known l' s) by (eapply known_mono; [by apply prefix_app_r|done]).
  assert (Hf' : prefix_facts sv l') by (by eapply prefix_facts_app).
  assert (Hs : s ∈ sv_created sv) by by eapply known_created. split; [done|].
  destruct (Hf' l1 (Ev (CreateSecret false s0) (Ok new)) l2 eq_refl) as (_ & _ & Hnew).
  assert (Hname : s_name s = pointer live).
  { assert (Hin : Ev (ReadSecret ns (pointer live)) (Ok s) ∈ l') by (apply elem_of_app; by left).
    by destruct (prefix_facts_elem _ _ _ Hf' Hin) as [lx [_ ?]]. }
  assert (Hdiff : s_name s ≠ pointer acc) by (rewrite Hp, Hpa; by apply Hnew).
  destruct Hcase as [->|Hret]; [by rewrite Hname in Hdiff|]. apply Hret; auto.
Qed.

(** What the collector finds settled is retired. *)
Lemma collected_retired sv procs l s :
  base sv procs → prefix_facts sv l → collected l s → s ∈ sv_created sv ∧ retired sv s.
Proof.
  intros Hb Hf (Hl & record & desired & Hdec & Hdes & Hcase).
  assert (Hs : s ∈ sv_created sv) by (eapply known_created; [done|by left]). split; [done|].
  destruct (b_bound _ _ Hb s Hs) as [Hne (k1 & o1 & _ & (r & d & He & Hd & Hk & Hpause & Hu & Hv))].
  pose proof (decode_sound _ _ _ He Hdec) as ->. assert (d = desired) as -> by congruence.
  assert (Hrk : record_key s k1) by (exists r, desired; done). rewrite Hk in Hcase.
  destruct Hcase as [Hp|(l1 & res & l2 & -> & Hl1 & Hcase)]; [by rewrite Hpause in Hp; destruct Hp|].
  pose proof (Hf _ _ _ eq_refl) as Hread. destruct k1 as [[g ns] name]. unfold read_target in *. simpl in *.
  destruct res as [target|[e [details|]]]; [| |done].
  - destruct Hcase as (Hptr & Hcase). destruct Hread as [Hin Hread].
    destruct (Hread s Hl1 Hrk (not_eq_sym Hptr)) as [Hbind|]; [|done].
    assert (Hsame : GetUID target = ri_resourceUID r ∧ GetResourceVersion target = ri_baseResourceVersion r).
    { destruct Hbind as (r' & d' & He' & _ & _ & _ & ? & ?). by rewrite <- (encode_inj _ _ _ He He') in *. }
    destruct Hsame as [Hsu Hsv]. destruct Hcase as [?|[?|(fenced & Hfen & Hver)]]; [done..|].
    apply list_elem_of_split in Hfen as (l2a & l2b & ->). set (l' := l1 ++ Ev (ReadTarget g ns name) (Ok target) :: l2a).
    assert (Hpre : fact sv l' (Ev (PatchObject false target (fence_patch target s)) (Ok fenced))).
    { eapply (Hf _ _ l2b). unfold l'. by rewrite <- app_assoc. }
    destruct Hpre as [(after & Hap & Hpa) [->|Hret]]; [|apply fence_tested|done|].
    + right. exists (g, ns, name). left. apply elem_of_app. right. by left.
    + apply Hret; [left; eapply listed_mono; [by apply prefix_app_r|done]| |].
      * rewrite Hpa, (fence_pointer _ _ _ Hap). by apply not_eq_sym.
      * left. by rewrite (b_keys _ _ Hb _ _ Hin).
  - destruct Hcase as (Hnf & Hname & namespaced & Hmap).
    apply (prefix_facts_elem sv) in Hmap as [lm Hmap]; [|by eapply prefix_facts_app].
    apply (Hread Hnf Hname Hmap s Hl1 Hrk).
Qed.

(** A record is deleted only when it is retired or was dropped. *)
Lemma deletion_sound sv procs i A (p : Prog.prog wcall A) tr s r :
  base sv procs → procs !! i = Some (Proc A p (tr ++ [Ev (DeleteSecret s) r])) → prefix_facts sv tr →
  each allowed tr → allowed tr (Ev (DeleteSecret s) r) →
  s ∈ sv_created sv ∧ (retired sv s ∨ dropped procs s).
Proof.
  intros Hb Hi Hf Hall [[Hd|Hsup]|Hcol].
  - destruct Hd as (l1 & s0 & l2 & -> & Hq). split.
    + by destruct (Hf _ _ _ eq_refl) as [? _].
    + right. eexists i, _, l1, _, l2, _, []. split_and!; [exact Hi|by rewrite <- app_assoc|done|done|done].
  - destruct (superseded_retired _ _ _ _ Hb Hf Hall Hsup). auto.
  - destruct (collected_retired _ _ _ _ Hb Hf Hcol). auto.
Qed.
Lemma write_keeps sv procs l c r sv' :
  base sv procs → prefix_facts sv l → event_at procs l (Ev c r) → allowed l (Ev c r) → serve_write sv c r sv' →
  base sv' procs ∧ advance sv sv'.
Proof.
  intros Hb Hf Hev Hallow. unfold serve_write. destruct r as [o|e].
  - intros (k & Heff & ->). eapply commit_keeps; [done..| |done]. destruct Heff; by intros [].
  - destruct (rejected e) eqn:Hr; intros ->; [by split; [|apply same_advance]|].
    split; [by eapply pend_base|by apply same_advance].
Qed.

Section Call.
Context (sv sv' : server) (procs : list proc) (i : nat) {A R : Type}.
Context (c : wcall R) (k : R → wprog A) (tr : list wevent) (r : R).
Hypothesis Hb : base sv procs.
Hypothesis Hfacts : facts sv procs.
Hypothesis Hi : procs !! i = Some (Proc A (Do c k) tr).
Hypothesis Hserve : serve sv c r sv'.
Let procs' := <[i := Proc A (k r) (tr ++ [Ev c r])]> procs.

Lemma call_base : base sv' procs' ∧ advance sv sv'.
Proof.
  pose proof (facts_prefix _ _ _ _ Hfacts Hi) as Hf. simpl in Hf. unfold procs'.
  pose proof (append_event_new _ _ _ _ _ r Hi) as Hev.
  destruct (append_allowed _ _ _ _ _ r Hi _ Hb) as [Hall Hallow].
  pose proof (append_here _ _ _ _ _ r Hi) as Hhere.
  assert (Happ : (∀ s, creation_of (Ev c r) = Some s → s ∉ sv_created sv) → base sv (<[i := Proc A (k r) (tr ++ [Ev c r])]> procs)).
  { intros Hnew. apply (append_base _ _ _ _ _ r Hi); [|done]. intros s Hs j l Hc. by eapply Hnew, creation_created. }
  assert (Hsame : ∀ sv0, sv0 = sv → base sv (<[i := Proc A (k r) (tr ++ [Ev c r])]> procs) →
    base sv0 (<[i := Proc A (k r) (tr ++ [Ev c r])]> procs) ∧ advance sv sv0).
  { intros ? -> ?. split; [done|by apply same_advance]. }
  destruct c as [|g ns name|ns name|[] s0|s|obj|[] obj|[] live ops|g|b|b n|g|g ns name|t ns n|o|cont| | |]; simpl in Hserve;
    try (apply Hsame; [tauto|by apply Happ]).
  - assert (Hbound : ∃ live, bound tr s0 live) by (destruct Hallow as [[|?]|]; done). destruct Hbound as [live Hbound].
    assert (Hstore : ∀ s, named sv s0 s → base (store s sv) (<[i := Proc A (k r) (tr ++ [Ev (CreateSecret false s0) r])]> procs) ∧
      advance sv (store s sv)).
    { intros s Hn. split; [|apply same_advance; [done..|by right]]. eapply store_base; [apply Happ|exact Hn|].
      - intros s' Hs' Hin. simpl in Hs'. destruct r as [s1|]; [|done]. injection Hs' as ->.
        destruct Hserve as [(_ & _ & Hfresh) _]. by apply Hfresh, list_elem_of_fmap_2.
      - destruct (bound_binds _ _ Hb _ _ s _ Hf Hbound) as (? & ? & _); [by destruct Hn|]. eauto. }
    destruct r as [s|e]; [destruct Hserve as [Hn ->]; by apply Hstore|].
    destruct Hserve as [->|(s & Hn & ->)]; [by apply Hsame; [|apply Happ]|by apply Hstore].
  - destruct (deletion_sound sv (<[i := Proc A (k r) (tr ++ [Ev (DeleteSecret s) r])]> procs) i A (k r) tr s r) as [Hs Hwhy];
      [by apply Happ|done..|].
    assert (Hdel : base (discard s sv) (<[i := Proc A (k r) (tr ++ [Ev (DeleteSecret s) r])]> procs) ∧ advance sv (discard s sv)).
    { split; [|by apply same_advance]. apply discard_base; [by apply Happ|done..]. }
    destruct r; [destruct Hserve as [-> | ->]|subst sv']; [by apply Hsame; [|apply Happ]|done..].
  - by eapply write_keeps; [apply Happ|..].
  - by eapply write_keeps; [apply Happ|..].
  - by eapply write_keeps; [apply Happ|..].
Qed.
(** What a patch of an object in hand establishes. *)
Lemma patch_fact procs2 live ops acc :
  base (put (target_key live) acc sv) procs2 → prefix_facts sv tr → effect sv (PatchObject false live ops) (target_key live) acc →
  holding tr live → tested live ops →
  (∃ after, ApplyPatch ops live = Some after ∧ pointer acc = pointer after) ∧
  (acc = live ∨ ∀ s, known tr s → s_name s ≠ pointer acc →
    binds s (target_key live) live ∨ pointer live = s_name s → retired (put (target_key live) acc sv) s).
Proof.
  intros Hput Hf Heff Hhold Htest. pose proof (holding_history _ _ Hb _ _ Hf Hhold) as Hin.
  inversion Heff as [target ops' cur edited o Hc Ha Hn Hp| | |]; subst.
  pose proof (tested_current _ _ Hb _ _ _ _ _ Hin Htest Hc Ha) as ->. split; [eauto|].
  destruct Hn as (_ & Hkey & [->|Hfresh]); [by left|right]. intros s Hs Hname Hcase.
  pose proof (known_created _ _ _ Hf Hs) as Hcr.
  assert (Hin' : ∀ v, v ∈ sv_history sv → v ∈ sv_history (put (target_key live) acc sv)) by (intros; apply elem_of_app; by left).
  assert (Hnew : (target_key live, acc) ∈ sv_history (put (target_key live) acc sv)) by (apply elem_of_app; right; by left).
  assert (Hbound : ∃ b, (target_key live, b) ∈ sv_history sv ∧ binds s (target_key live) b).
  { destruct Hcase as [|Hptr]; [by exists live|]. destruct (b_bound _ _ Hb _ Hcr) as [Hne _].
    destruct (b_pointer _ _ Hb _ _ Hin) as (s2 & b & Hs2 & Hname2 & Hbin & Hbind & _); [congruence|].
    assert (s2 = s) as -> by (apply (b_names _ _ Hb); [done..|congruence]). by exists b. }
  destruct Hbound as (b & Hbin & Hbind). eapply retired_unless; [done|done|by eapply binds_key|].
  intros o [[_ ->]|[? _]]%put_current; [|done]. split; [|congruence].
  eapply (not_bound _ _ Hput _ _ b); [auto..|]. intros ->. by eapply Hfresh.
Qed.

(** A target that was read is the version a listed record is bound to, or the
    record is retired. *)
Lemma read_fact k0 s : prefix_facts sv tr → listed tr s → record_key s k0 →
  (∀ o, sv_objects sv !! k0 = Some o → binds s k0 o ∨ pointer o = s_name s → False) → retired sv s.
Proof.
  intros Hf Hl Hk Hcur. eapply retired_unless; [done|eapply known_created; [done|by left]|done|].
  intros o Ho. split; intros ?; eapply Hcur; eauto.
Qed.

Lemma call_fact : fact sv' tr (Ev c r).
Proof.
  destruct call_base as [Hb' Hadv]. pose proof (facts_prefix _ _ _ _ Hfacts Hi) as Hf. simpl in Hf.
  destruct c as [|g ns name|ns name|[] s0|s|obj|[] obj|[] live ops|g|b|b n|g|g ns name|t ns n|o|cont| | |]; simpl in Hserve |- *;
    try done.
  - destruct Hserve as [-> Ho]. destruct r; [by apply (b_current _ _ Hb)|done].
  - destruct Hserve as [-> Hs]. destruct r; [|done]. by destruct (b_records _ _ Hb _ _ Hs).
  - destruct r as [s|]; [|done]. destruct Hserve as [(Hdata & _ & Hfresh) ->]. split_and!; [by left|done|].
    intros s' Hs'%(known_created _ _ _ Hf) Heq. apply Hfresh. rewrite <- Heq. by apply list_elem_of_fmap_2.
  - destruct r as [o|]; [|done]. destruct Hserve as (k0 & Heff & ->). inversion Heff; subst. apply elem_of_app. right. by left.
  - destruct r as [o|]; [|done]. destruct Hserve as (k0 & Heff & ->). inversion Heff; subst; apply elem_of_app; right; by left.
  - destruct r as [acc|]; [|done]. destruct Hserve as (k0 & Heff & ->). assert (k0 = target_key live) as -> by by inversion Heff.
    intros Hhold Htest. by eapply patch_fact.
  - destruct Hserve as [_ ?]. by destruct r as [[[] ?]|].
  - destruct Hserve as [-> Hs]. destruct r as [o|[e [d|]]]; [| |done].
    + split; [by apply (b_current _ _ Hb)|]. intros s Hl Hk Hp.
      destruct (b_bound _ _ Hb s) as [Hne (k1 & o1 & Hin1 & Hbind1)]; [eapply known_created; [done|by left]|].
      pose proof (record_key_binds _ _ _ _ Hk Hbind1) as ->.
      destruct (decide (o = o1)) as [->|Hno]; [by left|right]. eapply read_fact; [done..|].
      intros o2 Ho2. pose proof (eq_trans (eq_sym Hs) Ho2) as [= <-]. intros [Hbind|?]; [|congruence].
      eapply (not_bound _ _ Hb _ _ o1); [done|by apply (b_current _ _ Hb)|done..].
    + intros Hnf Hn Hm s Hl Hk. eapply read_fact; [done..|]. intros o Ho. by pose proof (eq_trans (eq_sym (Hs Hnf Hn Hm)) Ho).
  - destruct Hserve as [-> Hs]. destruct r as [[rs n]|]; [|done]. intros s Hin. by destruct (b_records _ _ Hb _ _ (Hs s Hin)).
Qed.
End Call.
(** ** The whole system *)

Definition invariant (Σ : system) : Prop := base (sy_server Σ) (sy_procs Σ) ∧ facts (sy_server Σ) (sy_procs Σ).

(** Facts survive a step of the server that adds at most one event. *)
Lemma facts_keep sv sv' procs procs' :
  base sv procs → advance sv sv' → facts sv procs →
  (∀ l e, event_at procs' l e → event_at procs l e ∨ fact sv' l e) → facts sv' procs'.
Proof.
  intros Hb Hadv Hf Hnew l e [(i & p & l2 & Hi & Heq)|?]%Hnew; [|done].
  pose proof (facts_prefix _ _ _ _ Hf Hi) as Hp. rewrite Heq in Hp.
  eapply fact_advance; [done|by apply (b_names _ _ Hb)|intros s Hs; by apply (b_bound _ _ Hb)|by eapply prefix_facts_app|].
  by apply (Hp l e l2).
Qed.

Lemma call_invariant sv procs i A R (c : wcall R) (p : R → wprog A) tr r sv' :
  invariant (System sv procs) → procs !! i = Some (Proc A (Do c p) tr) → serve sv c r sv' →
  invariant (System sv' (<[i := Proc A (p r) (tr ++ [Ev c r])]> procs)).
Proof.
  intros [Hb Hf] Hi Hs. destruct (call_base _ _ _ _ _ _ _ _ Hb Hf Hi Hs) as [Hb' Hadv]. split; [done|].
  apply (facts_keep sv _ procs); [done..|]. intros l e [?|[-> ->]]%(append_event_inv _ _ _ _ _ _ Hi); [by left|right].
  by apply (call_fact sv sv' procs i c p).
Qed.

Lemma put_invariant sv procs k o :
  invariant (System sv procs) → target_key o = k → sv_objects sv !! k = Some o ∨ fresh_version sv o →
  keeps_pointer sv k o → invariant (System (put k o sv) procs).
Proof.
  intros [Hb Hf] Hk Hver Hptr. split; [by apply put_base; auto|].
  apply (facts_keep sv _ procs); [done|by apply (put_advance _ procs); auto|done|by left].
Qed.

Lemma spawn_invariant sv procs A (p : wprog A) :
  invariant (System sv procs) → holds p [] (λ tr _, each allowed tr) → invariant (System sv (procs ++ [Proc A p []])).
Proof.
  intros [Hb Hf] Hp.
  assert (Hold : ∀ j q, (procs ++ [Proc A p []]) !! j = Some q → procs !! j = Some q ∨ q = Proc A p []).
  { intros j q [?|[_ Hq]]%lookup_app_Some; [by left|right]. by apply list_lookup_singleton_Some in Hq as [_ <-]. }
  assert (Hnil : ∀ (l l2 : list wevent) e, [] ≠ l ++ e :: l2) by (by intros []).
  assert (Hc : ∀ j l s, creation_at (procs ++ [Proc A p []]) j l s → creation_at procs j l s).
  { intros j l s (q & e & l2 & [Hj| ->]%Hold & Heq & Hc); [by exists q, e, l2|]. by apply Hnil in Heq. }
  split.
  - apply (grows_base procs); [| | |done].
    + intros j q Hj. exists q. split; [by apply lookup_app_l_Some|done].
    + intros j q [Hj| ->]%Hold; [by eapply b_disc|done].
    + intros j l j' l' s ?%Hc ?%Hc. by eapply (b_creation _ _ Hb).
  - intros l e (j & q & l2 & [Hj| ->]%Hold & Heq); [apply Hf; by exists j, q, l2|]. by apply Hnil in Heq.
Qed.

Lemma spec_allowed (D : list wevent → wevent → Prop) A (p : wprog A) Q :
  (∀ l e, D l e → allowed l e) → spec D p [] Q → holds p [] (λ tr _, each allowed tr).
Proof.
  intros HD Hp. eapply holds_mono; [apply Hp, each_nil|]. intros tr a (Htr & _). simpl in *.
  intros l e l' Heq. by eapply HD, Htr.
Qed.

Lemma step_invariant Σ Σ' : invariant Σ → sys_step Σ Σ' → invariant Σ'.
Proof.
  intros Hinv Hstep.
  destruct Hstep as [sv procs i A R c p tr r sv' Hi Hs|sv procs c k o Hin Heff|sv procs k cur o Hc Hn Hp|sv procs k
    |sv procs k o Hno [Hk Hu] Hp|sv procs owner desired configuration|sv procs pages].
  - by apply (call_invariant sv procs i A R c p tr r sv').
  - destruct Hinv as [Hb Hf]. destruct (b_pending _ _ Hb _ Hin) as (l & e & (i & p & l2 & Hi & Heq) & Hrej).
    assert (Hfl : prefix_facts sv l).
    { pose proof (facts_prefix _ _ _ _ Hf Hi) as Hpf. rewrite Heq in Hpf. by eapply prefix_facts_app. }
    assert (Hallow : allowed l (Ev c (Err e))).
    { pose proof (holds_now _ _ _ (b_disc _ _ Hb _ _ Hi)) as Hall. by eapply Hall. }
    destruct (commit_keeps sv procs l c (Err e) k o) as [Hb' Hadv]; [done|done|by exists i, p, l2|done| |done|].
    { destruct Heff; simpl; congruence. }
    split; [done|]. apply (facts_keep sv _ procs); [done..|by left].
  - destruct Hinv as [Hb Hf]. destruct Hn as (Hu & Hk & Hv). apply put_invariant; [done| | |].
    + rewrite Hk. by eapply (b_keys _ _ Hb), (b_current _ _ Hb).
    + destruct Hv as [->|?]; auto.
    + destruct Hp as [Hp|Hp]; [right|by left]. eauto.
  - destruct Hinv as [Hb Hf]. split; [by apply remove_base|].
    apply (facts_keep sv _ procs); [done|by apply remove_advance|done|by left].
  - apply put_invariant; [done|done| |by left]. right. intros k' o' Hin Heq. by destruct (Hu _ _ Hin).
  - apply spawn_invariant; [done|]. eapply (spec_allowed justified); [by left|]. apply Reconcile_spec.
  - apply spawn_invariant; [done|]. eapply (spec_allowed gc_justified); [by right|]. by apply Sweep_spec.
  Unshelve. all: assumption.
Qed.

Lemma reachable_invariant Σ : reachable Σ → invariant Σ.
Proof.
  unfold reachable. intros Hr. assert (Hinit : invariant initial).
  { split; [split|by intros l e (i & p & l2 & Hi & _)]; simpl; try done.
    - by intros k o Hin%elem_of_nil.
    - by intros k o k' o' Hin%elem_of_nil.
    - by intros s s' Hin%elem_of_nil.
    - by intros s Hin%elem_of_nil.
    - by intros ? ? ? ? ? (? & ? & ? & Hi & _).
    - by intros c Hin%elem_of_nil.
    - by intros k o Hin%elem_of_nil.
    - by intros s Hin%elem_of_nil. }
  induction Hr as [|Σ Σ' Σ'' Hs _ IH]; [done|]. apply IH. by eapply step_invariant.
Qed.

(** C6: Whatever the interleaving of writers, collectors, lost answers, late
    commits and other clients: the record that a resource points to exists, it
    decodes, and it was created for the resource itself, at a version it had
    before. *)
Theorem no_dangling_intent Σ k o :
  reachable Σ → sv_objects (sy_server Σ) !! k = Some o → pointer o ≠ "" →
  ∃ s record desired before,
    sv_records (sy_server Σ) !! pointer o = Some s ∧ encodeResourceIntent record = Ok (s_data s) ∧
    ri_desired record = Some desired ∧ target_key desired = k ∧ ri_resourceUID record = GetUID o ∧
    (k, before) ∈ sv_history (sy_server Σ) ∧ before ≠ o ∧ ri_baseResourceVersion record = GetResourceVersion before.
Proof.
  intros [Hb _]%reachable_invariant Ho Hne.
  destruct (b_pointer _ _ Hb k o) as (s & b & Hs & Hname & Hin & (r & d & He & Hd & Hk & _ & Hu & Hv) & Huid & Hcur & Hpub);
    [by apply (b_current _ _ Hb)|done|].
  assert (Hrec : sv_records (sy_server Σ) !! pointer o = Some s).
  { destruct (sv_records (sy_server Σ) !! pointer o) as [s'|] eqn:Hs'.
    - destruct (b_records _ _ Hb _ _ Hs') as [Hn' Hs'']. f_equal. apply (b_names _ _ Hb); [done..|congruence].
    - exfalso. rewrite <- Hname in Hs'. destruct (b_deleted _ _ Hb s Hs Hs') as [(_ & _ & Hno)|Hdrop].
      + by apply (Hno k o Ho).
      + by eapply dropped_unpublished. }
  exists s, r, d, b. split_and!; try done; [congruence|]. intros ->. done.
Qed.
End Protocol.

(** ** The protocol at a concrete run

    Somebody creates a ConfigMap that the Middleware controls; the writer finds
    it without a record and publishes its first intent. *)
Section Witness.
Import DocumentPatch.
#[local] Existing Instance coded_json.

Definition parse_group (s : string) : option string :=
  if String.eqb s "middleware.cn/v1" then Some "middleware.cn" else None.
Definition owner1 : owner := Owner OwnerMiddleware "cache" "prod" "owner-1" "5" 3 None ∅ [] None None.
Definition live0 : object :=
  {["apiVersion" := JStr "v1"; "kind" := JStr "ConfigMap";
    "metadata" := JObj {["name" := JStr "redis-conf"; "namespace" := JStr "prod"; "uid" := JStr "uid-7";
      "resourceVersion" := JStr "1";
      "ownerReferences" := JArr [of_reference (OwnerReference "middleware.cn/v1" "Middleware" "cache" "owner-1" (Some true))]]}]}.
Definition published0 : object :=
  SetResourceVersion "2" (SetUID "uid-7" (SetResourceVersion "1" (setIntentPointer (cleanApplyObject config_map) "intent-1"))).
Definition stored0 (s : secret) : secret :=
  Secret "intent-1" (s_generateName s) (s_namespace s) "uid-s" "1" 0 None (s_labels s) (s_owners s) (s_immutable s)
    (s_type s) (s_data s).
Definition key0 : key := target_key live0.
Abbreviation reachable0 := (reachable (typed := PathTyped.typed) (λ _, "") parse_group (λ _, None) true 0%Z (λ _, ("", ""))).

(** The writer's call number [n] is [c], answered by [r]. *)
Ltac answered c r := eapply rtc_l; [eapply (step_call _ _ _ _ _ _ _ _ 0 _ _ c _ _ r); [reflexivity|]|].

Lemma published_reachable : ∃ Σ, reachable0 Σ ∧ sv_objects (sy_server Σ) !! key0 = Some published0.
Proof.
  eexists. split.
  - eapply rtc_l.
    { apply (step_create _ _ _ _ _ _ _ _ key0 live0); [reflexivity| |reflexivity].
      split; [reflexivity|]. by intros ? ? ?%elem_of_nil. }
    eapply rtc_l; [apply (step_writer _ _ _ _ _ _ _ _ owner1 (Some config_map) "")|].
    answered (ReadOwner (typed := PathTyped.typed) owner1) (Ok (E := error) owner1); [reflexivity|].
    answered (ReadObject (typed := PathTyped.typed) key0.1.1 key0.1.2 key0.2) (Ok (E := error) live0); [split; reflexivity|].
    answered (ResolveSchema (typed := PathTyped.typed) key0.1.1) (Ok (E := error) (converter, "h")); [reflexivity|].
    eapply rtc_l; [eapply (step_call _ _ _ _ _ _ _ _ 0 _ _ (ApplyObject true _) _ _ (Ok live0)); reflexivity|].
    eapply rtc_l.
    { eapply (step_call _ _ _ _ _ _ _ _ 0 _ _ (CreateSecret false ?[s0]) _ _ (Ok (stored0 ?s0))); [reflexivity|].
      split; [|reflexivity]. split; [reflexivity|]. split; [discriminate|]. by intros ?%elem_of_nil. }
    eapply rtc_l; [|apply rtc_refl].
    eapply (step_call _ _ _ _ _ _ _ _ 0 _ _ (ApplyObject false _) _ _ (Ok published0)); [reflexivity|].
    eexists. split; [|reflexivity].
    eapply (effect_apply _ _ live0); [reflexivity|right; reflexivity|right; reflexivity| |left; reflexivity].
    split; [reflexivity|]. split; [reflexivity|]. right. intros k' o' Hin. apply list_elem_of_singleton in Hin.
    apply (f_equal snd) in Hin. cbn [snd] in Hin. subst o'. intros _ Hv. vm_compute in Hv. discriminate Hv.
  - reflexivity.
Qed.

Lemma no_dangling_intent_witness :
  ∃ Σ s, reachable0 Σ ∧ sv_objects (sy_server Σ) !! key0 = Some published0 ∧ sv_records (sy_server Σ) !! "intent-1" = Some s.
Proof.
  destruct published_reachable as (Σ & HΣ & Ho).
  destruct (no_dangling_intent _ _ _ _ _ _ Σ key0 published0 HΣ Ho) as (s & _ & _ & _ & Hs & _); [by vm_compute|].
  exists Σ, s. split; [exact HΣ|]. split; [exact Ho|exact Hs].
Defined.
End Witness.
