(* ===== verification/Configurations.v ===== *)
(** * Configuration resources

    The resources rendered from the configurations of a Middleware or of its
    operator ([internal/service/middlewareconfiguration]): who owns them, how
    they are applied and recorded, and which of them may be deleted, when a
    configuration stops rendering them and when their owner goes away. *)
From Stdlib Require Import Ascii ZArith Lia.
From stdpp Require Import base gmap strings list option sorting.
From S2P Require Import Prelude Labels Conditions Prog Middleware Json Adoption FieldPath IntentMerge IntentRecord IntentWriter GoStrings.

(** ** Data *)

(** A MiddlewareConfiguration, with its template. *)
Record configuration := MiddlewareConfiguration {
  mc_name : string; mc_uid : string; mc_labels : gmap string string; mc_annotations : gmap string string;
  mc_template : string;
}.

(** [HandleAction], internal/service/consts/consts.go *)
Inductive handle_action := HandleActionPublish | HandleActionUpdate | HandleActionDelete | HandleActionOther.
#[export] Instance handle_action_eq : EqDecision handle_action.
Proof. solve_decision. Defined.

Section Ownership.
Context `{ObjectApi}.
Implicit Types (owner : owner) (m : configuration) (obj live : object).

Definition annotation obj (key : string) : string := map_at (GetAnnotations obj) key.
Definition label obj (key : string) : string := map_at (GetLabels obj) key.

(** ** Ownership ([ownership.go]) *)

(** [ownerIdentity], internal/service/middlewareconfiguration/ownership.go *)
Definition ownerIdentity owner : string * string * string * string :=
  match owner_kind owner with
  | Some kind => (api_group_version, kind, ow_name owner, ow_uid owner)
  | None => ("", "", ow_name owner, ow_uid owner)
  end.

(** [sameControllerOwner], internal/service/middlewareconfiguration/ownership.go *)
Definition sameControllerOwner owner (ref : option owner_reference) : bool :=
  match ref with
  | None => false
  | Some ref =>
      let '(apiVersion, kind, name, uid) := ownerIdentity owner in
      if negb (String.eqb uid "") && negb (String.eqb (or_uid ref) "") then String.eqb uid (or_uid ref)
      else if negb (String.eqb apiVersion "") && negb (String.eqb kind "")
      then String.eqb (or_apiVersion ref) apiVersion && String.eqb (or_kind ref) kind && String.eqb (or_name ref) name
      else String.eqb (or_name ref) name
  end.

(** [configurationPolicy], internal/service/middlewareconfiguration/ownership.go *)
Definition configurationPolicy m obj (key : string) : string :=
  let value := annotation obj key in
  if negb (String.eqb value "") then value else (mc_annotations m).[key].

(** [isCustomResourceDefinition], internal/service/middlewareconfiguration/ownership.go *)
Definition isCustomResourceDefinition (g : gvk) : bool :=
  String.eqb (gvk_group g) "apiextensions.k8s.io" && String.eqb (gvk_kind g) "CustomResourceDefinition".

(** [isDefaultOrphanConfigurationGVK], internal/service/middlewareconfiguration/ownership.go *)
Definition isDefaultOrphanConfigurationGVK (g : gvk) : bool :=
  if isCustomResourceDefinition g then true
  else String.eqb (gvk_group g) "" &&
       (String.eqb (gvk_kind g) "PersistentVolume" || String.eqb (gvk_kind g) "PersistentVolumeClaim").

(** [defaultConfigurationDisablePolicy], internal/service/middlewareconfiguration/ownership.go *)
Definition defaultConfigurationDisablePolicy (g : gvk) : string :=
  if isDefaultOrphanConfigurationGVK g then ConfigurationDisablePolicyOrphan else ConfigurationDisablePolicyDelete.

(** [configurationDisablePolicy], internal/service/middlewareconfiguration/ownership.go *)
Definition configurationDisablePolicy m obj : result error string :=
  let g := GroupVersionKind obj in
  let policy := configurationPolicy m obj AnnotationConfigurationDisablePolicy in
  if negb (String.eqb policy "") && negb (String.eqb policy ConfigurationDisablePolicyOrphan) &&
     negb (String.eqb policy ConfigurationDisablePolicyDelete)
  then Err (new_error "unsupported configuration disable policy")
  else if isCustomResourceDefinition g then Ok ConfigurationDisablePolicyOrphan
  else if String.eqb policy "" then Ok (defaultConfigurationDisablePolicy g)
  else Ok policy.

(** [hasConfigurationLifecycleMarkers], internal/service/middlewareconfiguration/ownership.go *)
Definition hasConfigurationLifecycleMarkers owner obj (configurationName configurationUID : string) : bool :=
  if String.eqb configurationName "" || String.eqb (ow_uid owner) "" then false
  else if negb (String.eqb (label obj LabelApp) (ow_name owner)) ||
          negb (String.eqb (annotation obj LabelConfigurations) configurationName) then false
  else if negb (String.eqb (annotation obj AnnotationConfigurationOwnerUID) (ow_uid owner)) then false
  else if negb (String.eqb configurationUID "") &&
          negb (String.eqb (annotation obj AnnotationConfigurationUID) configurationUID) then false
  else true.

(** [shouldDeleteDisabledRenderedResource], internal/service/middlewareconfiguration/ownership.go *)
Definition shouldDeleteDisabledRenderedResource owner obj (resource : rendered_resource) : bool :=
  if negb (String.eqb (rr_disablePolicy resource) ConfigurationDisablePolicyDelete) then false
  else if String.eqb (rr_ownerUID resource) "" || negb (String.eqb (ow_uid owner) (rr_ownerUID resource)) then false
  else if String.eqb (rr_resourceUID resource) "" || negb (String.eqb (GetUID obj) (rr_resourceUID resource)) then false
  else if negb (hasConfigurationLifecycleMarkers owner obj (rr_configurationName resource) (rr_configurationUID resource))
  then false
  else
    let controller := GetControllerOf (GetOwnerReferences obj) in
    if rr_namespaced resource && String.eqb (GetNamespace obj) (ow_namespace owner)
    then sameControllerOwner owner controller
    else bool_decide (controller = None) || sameControllerOwner owner controller.

(** [isOpenSaolaManagedConfiguration], internal/service/middlewareconfiguration/ownership.go *)
Definition isOpenSaolaManagedConfiguration owner obj (configurationName : string) : bool :=
  if String.eqb configurationName "" then false
  else String.eqb (label obj LabelApp) (ow_name owner) && String.eqb (annotation obj LabelConfigurations) configurationName.

(** [shouldDeleteRenderedResource], internal/service/middlewareconfiguration/ownership.go *)
Definition shouldDeleteRenderedResource owner obj (configurationName deletePolicy : string) : bool :=
  if String.eqb deletePolicy ConfigurationDeletePolicyOrphan then false
  else if String.eqb deletePolicy ConfigurationDeletePolicyDelete then true
  else match GetControllerOf (GetOwnerReferences obj) with
  | Some ref => sameControllerOwner owner (Some ref)
  | None => isOpenSaolaManagedConfiguration owner obj configurationName
  end.

(** [removeControllerOwnerReference], internal/service/middlewareconfiguration/ownership.go *)
Definition removeControllerOwnerReference (refs : list owner_reference) owner : list owner_reference :=
  filter (λ ref, ¬ (or_controller ref = Some true ∧ or_uid ref = ow_uid owner)) refs.

(** [resolveConfigurationDeletePolicy], internal/service/middlewareconfiguration/ownership.go *)
Definition resolveConfigurationDeletePolicy m obj : string :=
  let policy := configurationPolicy m obj AnnotationConfigurationDeletePolicy in
  if negb (String.eqb policy "") then policy
  else match configurationDisablePolicy m obj with
  | Ok policy => if String.eqb policy ConfigurationDisablePolicyOrphan then ConfigurationDeletePolicyOrphan else ""
  | Err _ => ""
  end.
End Ownership.

(** ** Inventories ([inventory.go]) *)

(** [renderedConfigurationResourceKey], internal/service/middlewareconfiguration/inventory.go *)
Definition renderedConfigurationResourceKey (r : rendered_resource) : string :=
  if String.eqb (rr_version r) "" || String.eqb (rr_kind r) "" || String.eqb (rr_name r) "" then ""
  else String.concat "/" [rr_group r; rr_version r; rr_kind r; rr_namespace r; rr_name r].

(** The values of a map in the order of its sorted keys. *)
Definition in_key_order {A} (byKey : gmap string A) : list A := (sort_by fst (map_to_list byKey)).*2.

(** [normalizeRenderedConfigurationResources], internal/service/middlewareconfiguration/inventory.go:191-202 *)
Fixpoint index_resources (resources : list rendered_resource) (byKey : gmap string rendered_resource) :
    result error (gmap string rendered_resource) :=
  match resources with
  | [] => Ok byKey
  | resource :: resources =>
      let key := renderedConfigurationResourceKey resource in
      if String.eqb key "" then Err (new_error "rendered configuration has an incomplete resource identity")
      else match byKey !! key with
      | Some _ => Err (new_error "configurations render the same resource; shared rendered resources are not supported")
      | None => index_resources resources (<[key := resource]> byKey)
      end
  end.

(** [normalizeRenderedConfigurationResources], internal/service/middlewareconfiguration/inventory.go *)
Definition normalizeRenderedConfigurationResources (resources : list rendered_resource) :
    result error (list rendered_resource) :=
  byKey ← index_resources resources ∅; Ok (in_key_order byKey).

(** The entries that are no longer rendered, one for each key. *)
(** [DeleteDisabledRenderedConfigurationResources], internal/service/middlewareconfiguration/inventory.go:94-117 *)
Definition stale_resources (previous currentlyRendered : list rendered_resource) : gmap string rendered_resource :=
  let currentKeys := filter (.≠ "") (renderedConfigurationResourceKey <$> currentlyRendered) in
  foldl (λ stale resource,
    let key := renderedConfigurationResourceKey resource in
    if String.eqb key "" || bool_decide (key ∈ currentKeys) then stale
    else match stale !! key with
    | None => <[key := resource]> stale
    | Some old =>
        if negb (String.eqb (rr_disablePolicy old) ConfigurationDisablePolicyDelete) &&
           String.eqb (rr_disablePolicy resource) ConfigurationDisablePolicyDelete
        then <[key := resource]> stale else stale
    end) ∅ previous.

(** ** Calls

    The writer's calls; reads of the cached client, deletions by name, the REST
    mapping; and the components that find and render templates, which are not
    modelled. *)
Section Programs.
Context {typed : Type}.
Abbreviation wcall := (IntentWriter.wcall (typed := typed)).

Inductive ccall : Type → Type :=
  | Write {R : Type} (c : wcall R) : ccall R
  | GetCached (g : gvk) (ns name : string) : ccall (result error object)
  | ListCached (g : gvk) (ns app : string) : ccall (result error (list object))
  | DeleteObject (o : object) : ccall (option error)
  | PatchOwnerReferences (live : object) (refs : list owner_reference) : ccall (option error)
  | ScopeOf (g : gvk) : ccall (result error bool)
  | TemplateValuesOf : ccall (result error unit)
  | GetConfiguration (name package : string) : ccall (result error configuration)
  | RenderFor (cfg expr : string) : ccall (result error string).
Abbreviation cprog := (prog ccall).
Abbreviation cevent := (event ccall).

(** A program of the writer as part of this one. *)
Fixpoint written {A} (p : prog wcall A) : cprog A :=
  match p with Ret a => Ret a | Do c k => Do (Write c) (λ r, written (k r)) end.

Context `{FieldPathLib, !TypedLib typed, ObjectApi, !IntentCodec, !JsonPatch, JsonLib}.
Context (decimal : Z → string) (ParseGroup : string → option string) (FieldsFromJSON : string → option fset).
Context (IntentSchemas : bool).
(** The YAML decoder ([None]: an empty document), the remaining setter of
    objects and [ctrl.SetControllerReference]. *)
Context (decode_template : string → result error (option object)).
Context (SetNamespace : string → object → object) (SetControllerReference : owner → object → result error object).

(** [IsCRDNotInstalled], internal/k8s/customresource.go *)
Definition IsCRDNotInstalled (e : error) : bool :=
  bool_decide (e_kind e = GroupVersionNotFound) ||
  contains "the server could not find the requested resource" (e_msg e) || contains "no matches for kind" (e_msg e).
Definition is_no_match (e : error) : bool := bool_decide (e_kind e = NoMatch).

(** An owner with its labels. *)
Implicit Types (o : owner) (labels : gmap string string) (m : configuration) (obj : object).

(** *** Applying ([deploy.go]) *)

(** [stripLiveControllerOwnerReference], internal/service/middlewareconfiguration/ownership.go *)
Definition stripLiveControllerOwnerReference obj o : cprog (result error unit) :=
  live ←? call (GetCached (GroupVersionKind obj) (GetNamespace obj) (GetName obj));
  match GetControllerOf (GetOwnerReferences live) with
  | Some controller =>
      if negb (String.eqb (or_uid controller) (ow_uid o)) then Ret (Ok tt)
      else
        err ← call (PatchOwnerReferences live (removeControllerOwnerReference (GetOwnerReferences live) o));
        Ret (match err with Some e => Err e | None => Ok tt end)
  | None => Ret (Ok tt)
  end.

(** The labels and annotations of the rendered object. *)
(** [Handle], internal/service/middlewareconfiguration/deploy.go:79-98 *)
Definition marked o labels m obj : object :=
  let obj := SetLabels (Some (<[LabelApp := ow_name o]>
    (default ∅ (GetLabels obj) ∪ (mc_labels m ∪ labels)))) obj in
  SetAnnotations (Some (<[LabelConfigurations := mc_name m]> (default ∅ (GetAnnotations obj)))) obj.

(** [Handle], internal/service/middlewareconfiguration/deploy.go:108-114 *)
Definition identified o m obj : object :=
  let annotations := <[AnnotationConfigurationOwnerUID := ow_uid o]> (default ∅ (GetAnnotations obj)) in
  SetAnnotations (Some (if String.eqb (mc_uid m) "" then annotations
                        else <[AnnotationConfigurationUID := mc_uid m]> annotations)) obj.

(** [renderedConfigurationApplyResult], internal/service/middlewareconfiguration/deploy.go *)
Record apply_result := ApplyResult { ar_identity : rendered_resource; ar_inventory : option rendered_resource }.

(** [Handle], internal/service/middlewareconfiguration/deploy.go:117-189 *)
Definition apply_configuration o m obj (namespaced exists_ : bool) : cprog (result error (option apply_result)) :=
  disablePolicy ←? pure (configurationDisablePolicy m obj);
  let own := namespaced && String.eqb (GetNamespace obj) (ow_namespace o) in
  let orphan := String.eqb disablePolicy ConfigurationDisablePolicyOrphan in
  obj ←? pure (if own && negb orphan
    then match SetControllerReference o obj with
         | Ok obj => Ok obj | Err e => Err (wrap_error "failed to set ControllerReference" e) end
    else Ok obj);
  err ← written (Reconcile decimal ParseGroup FieldsFromJSON IntentSchemas o (Some obj) (mc_name m));
  _ ←? (match err with
    | Err e => Ret (if exists_ then Err e
                    else if bool_decide (e_kind e = AlreadyExists) then Ok tt else Err (wrap_error "failed to create CR" e))
    | Ok _ => if exists_ && (own && orphan) then stripLiveControllerOwnerReference obj o else Ret (Ok tt)
    end);
  let g := GroupVersionKind obj in
  let identity := RenderedConfigurationResource (mc_name m) "" (gvk_group g) (gvk_version g) (GetKind obj)
    (GetNamespace obj) (GetName obj) "" "" false "" in
  r ← call (Write (ReadObject g (GetNamespace obj) (GetName obj)));
  match r with
  | Err e => Ret (Err (wrap_error "get applied configuration resource" e))
  | Ok live =>
      if negb (hasConfigurationLifecycleMarkers o live (mc_name m) (mc_uid m))
      then Ret (Ok (Some (ApplyResult identity None)))
      else
        let g := GroupVersionKind live in
        Ret (Ok (Some (ApplyResult identity (Some
          (RenderedConfigurationResource (mc_name m) (mc_uid m) (gvk_group g) (gvk_version g) (GetKind live)
             (GetNamespace live) (GetName live) (ow_uid o) (GetUID live) namespaced disablePolicy)))))
  end.

(** [Handle], internal/service/middlewareconfiguration/deploy.go:191-217 *)
Definition delete_configuration o m obj (old : option object) : cprog (result error (option apply_result)) :=
  match old with
  | None => Ret (Ok None)
  | Some old =>
      if String.eqb (gvk_kind (GroupVersionKind obj)) "CustomResourceDefinition" then Ret (Ok None)
      else if negb (shouldDeleteRenderedResource o old (mc_name m) (resolveConfigurationDeletePolicy m obj))
      then Ret (Ok None)
      else
        err ← call (DeleteObject obj);
        Ret (match err with
             | Some e => if is_not_found e then Ok None else Err (wrap_error "failed to delete CR" e)
             | None => Ok None
             end)
  end.

(** [Handle], internal/service/middlewareconfiguration/deploy.go *)
Definition Handle o labels (act : handle_action) m : cprog (result error (option apply_result)) :=
  match decode_template (mc_template m) with
  | Err e => Ret (Err (wrap_error "failed to unmarshal CR" e))
  | Ok None => Ret (Ok None)
  | Ok (Some obj) =>
      scope ← call (ScopeOf (GroupVersionKind obj));
      scope ←? pure (match scope with
        | Ok namespaced => Ok (Some namespaced)
        | Err e => if is_no_match e || IsCRDNotInstalled e then Ok None
                   else Err (wrap_error "failed to check if resource is namespaced" e)
        end);
      let namespaced := default false scope in
      let obj := if (namespaced : bool) && String.eqb (GetNamespace obj) "" then SetNamespace (ow_namespace o) obj else obj in
      let obj := marked o labels m obj in
      old ← call (GetCached (GroupVersionKind obj) (GetNamespace obj) (GetName obj));
      old ←? pure (match old with
        | Ok old => Ok (Some old)
        | Err e => if is_not_found e then Ok None else Err e
        end);
      let obj := if bool_decide (is_Some scope) then identified o m obj else obj in
      match act with
      | HandleActionPublish | HandleActionUpdate =>
          apply_configuration o m obj namespaced (bool_decide (is_Some (old : option object)))
      | HandleActionDelete => delete_configuration o m obj old
      | HandleActionOther => Ret (Ok None)
      end
  end.

(** *** What is no longer rendered ([inventory.go]) *)

Definition resource_gvk (r : rendered_resource) : gvk := GVK (rr_group r) (rr_version r) (rr_kind r).

(** [deleteDisabledRenderedConfigurationResource], internal/service/middlewareconfiguration/inventory.go *)
Definition deleteDisabledRenderedConfigurationResource o (resource : rendered_resource) : cprog (result error unit) :=
  if negb (String.eqb (rr_disablePolicy resource) ConfigurationDisablePolicyDelete) then Ret (Ok tt)
  else
    let g := resource_gvk resource in
    if isCustomResourceDefinition g then Ret (Ok tt)
    else
      r ← call (GetCached g (rr_namespace resource) (rr_name resource));
      match r with
      | Err e =>
          Ret (if is_not_found e then Ok tt
               else if IsCRDNotInstalled e then Ok tt
               else Err (wrap_error "get disabled configuration resource" e))
      | Ok obj =>
          if negb (shouldDeleteDisabledRenderedResource o obj resource) then Ret (Ok tt)
          else
            err ← call (DeleteObject obj);
            Ret (match err with
                 | Some e => if is_not_found e then Ok tt else Err (wrap_error "delete disabled configuration resource" e)
                 | None => Ok tt
                 end)
      end.

Fixpoint delete_all o (resources : list rendered_resource) : cprog (result error unit) :=
  match resources with
  | [] => Ret (Ok tt)
  | resource :: resources =>
      _ ←? deleteDisabledRenderedConfigurationResource o resource; delete_all o resources
  end.

(** [DeleteDisabledRenderedConfigurationResources], internal/service/middlewareconfiguration/inventory.go *)
Definition DeleteDisabledRenderedConfigurationResources o (previous currentlyRendered : list rendered_resource) :
    cprog (result error unit) :=
  delete_all o (in_key_order (stale_resources previous currentlyRendered)).

(** [ReconcileRenderedConfigurationResources], internal/service/middlewareconfiguration/inventory.go:51-64 *)
Fixpoint apply_all o labels (act : handle_action) (configurations : list configuration) (rendered current : list rendered_resource) :
    cprog (result error (list rendered_resource * list rendered_resource)) :=
  match configurations with
  | [] => Ret (Ok (rendered, current))
  | m :: configurations =>
      r ← Handle o labels act m;
      match r with
      | Err e => Ret (Err (wrap_error "middleware configuration error" e))
      | Ok None => apply_all o labels act configurations rendered current
      | Ok (Some r) => apply_all o labels act configurations (rendered ++ [ar_identity r])
                         (current ++ option_list (ar_inventory r))
      end
  end.

(** [ReconcileRenderedConfigurationResources], internal/service/middlewareconfiguration/inventory.go *)
Definition ReconcileRenderedConfigurationResources o labels (act : handle_action) (configurations : list configuration)
    (previous : list rendered_resource) : cprog (result error (list rendered_resource)) :=
  match act with
  | HandleActionPublish | HandleActionUpdate =>
      '(rendered, current) ←? apply_all o labels act configurations [] [];
      rendered ←? pure (normalizeRenderedConfigurationResources rendered);
      current ←? pure (normalizeRenderedConfigurationResources current);
      _ ←? match act with
           | HandleActionUpdate => DeleteDisabledRenderedConfigurationResources o previous rendered
           | _ => Ret (Ok tt)
           end;
      Ret (Ok current)
  | _ => Ret (Ok previous)
  end.

(** *** When the owner goes away ([delete.go]) *)

(** What the scan of a template's lines has found: the indentation of the
    metadata block it is in, if any, and the four values. *)
Record template_lines := TemplateLines {
  tl_indent : option nat; tl_apiVersion : string; tl_kind : string; tl_name : string; tl_namespace : string;
}.

(** [deleteTemplateLineValues], internal/service/middlewareconfiguration/delete.go:41-75 *)
Definition scan_line (t : template_lines) (line : string) : template_lines :=
  let '(TemplateLines indent0 apiVersion kind nameExpr namespaceExpr) := t in
  let trimmed := TrimSpace line in
  let value prefix := TrimSpace (TrimPrefix trimmed prefix) in
  if String.eqb trimmed "" || HasPrefix trimmed "#" then t
  else if String.eqb apiVersion "" && HasPrefix trimmed "apiVersion:"
  then TemplateLines indent0 (value "apiVersion:") kind nameExpr namespaceExpr
  else if String.eqb kind "" && HasPrefix trimmed "kind:"
  then TemplateLines indent0 apiVersion (value "kind:") nameExpr namespaceExpr
  else
    let indent := String.length line - String.length (TrimLeftSpaces line) in
    if String.eqb trimmed "metadata:" then TemplateLines (Some indent) apiVersion kind nameExpr namespaceExpr
    else match indent0 with
    | None => t
    | Some metadataIndent =>
        if indent <=? metadataIndent then TemplateLines None apiVersion kind nameExpr namespaceExpr
        else if String.eqb nameExpr "" && HasPrefix trimmed "name:"
        then TemplateLines indent0 apiVersion kind (value "name:") namespaceExpr
        else if String.eqb namespaceExpr "" && HasPrefix trimmed "namespace:"
        then TemplateLines indent0 apiVersion kind nameExpr (value "namespace:")
        else t
    end.

(** [deleteTemplateLineValues], internal/service/middlewareconfiguration/delete.go *)
Definition deleteTemplateLineValues (template : string) : template_lines :=
  foldl scan_line (TemplateLines None "" "" "" "") (split_on newline template).

(** [normalizeRenderedName], internal/service/middlewareconfiguration/delete.go *)
Definition normalizeRenderedName (s : string) : string :=
  TrimSpace (Trim [double_quote; single_quote] (TrimSpace s)).

(** [deleteByNameResult], internal/service/middlewareconfiguration/delete.go *)
Inductive deleteByNameResult := deleteByNameDeleted | deleteByNameNotFound | deleteByNameSkipped.

(** [deleteByGVKAndName], internal/service/middlewareconfiguration/delete.go *)
Definition deleteByGVKAndName o (g : gvk) (namespace name : string) m : cprog (result error deleteByNameResult) :=
  r ← call (GetCached g namespace name);
  match r with
  | Err e => Ret (if is_not_found e then Ok deleteByNameNotFound else Err e)
  | Ok obj =>
      if negb (shouldDeleteRenderedResource o obj (mc_name m) (resolveConfigurationDeletePolicy m obj))
      then Ret (Ok deleteByNameSkipped)
      else
        err ← call (DeleteObject obj);
        Ret (match err with Some e => Err e | None => Ok deleteByNameDeleted end)
  end.

(** [schema.FromAPIVersionAndKind] is a parameter. *)
Context (FromAPIVersionAndKind : string → string → gvk).

(** A listed item is deleted as an object of the kind that was listed. *)
Fixpoint delete_items o (cfg : string) m (items : list object) (errList : list string) : cprog (list string) :=
  match items with
  | [] => Ret errList
  | item :: items =>
      if negb (shouldDeleteRenderedResource o item cfg (resolveConfigurationDeletePolicy m item))
      then delete_items o cfg m items errList
      else
        err ← call (DeleteObject item);
        delete_items o cfg m items
          (match err with
           | Some e => if is_not_found e then errList else errList ++ [e_msg e]
           | None => errList
           end)
  end.

(** Deletion by name, then by label. *)
(** [DeleteTemplateRenderedResources], internal/service/middlewareconfiguration/delete.go:236-276 *)
Definition delete_rendered o (cfg : string) m (g : gvk) (ns renderedName : string) (errList : list string) : cprog (list string) :=
  deleted ← (if String.eqb renderedName "" then Ret false
             else r ← deleteByGVKAndName o g ns renderedName m;
                  Ret (match r with Ok deleteByNameDeleted => true | _ => false end));
  if (deleted : bool) then Ret errList
  else
    items ← call (ListCached g ns (ow_name o));
    match items with
    | Err e => if is_not_found e then Ret errList else Ret (errList ++ [e_msg e])
    | Ok items => delete_items o cfg m items errList
    end.

(** [DeleteTemplateRenderedResources], internal/service/middlewareconfiguration/delete.go:161-234 *)
Definition delete_one o (pkgName cfg : string) (errList : list string) : cprog (list string) :=
  mc ← call (GetConfiguration cfg pkgName);
  match mc with
  | Err e => Ret (errList ++ [e_msg e])
  | Ok m =>
      let '(TemplateLines _ apiVersion kind nameExpr namespaceExpr) := deleteTemplateLineValues (mc_template m) in
      if String.eqb apiVersion "" || String.eqb kind "" then Ret (errList ++ ["missing apiVersion/kind"])
      else
        let g := FromAPIVersionAndKind apiVersion kind in
        if String.eqb (gvk_kind g) "CustomResourceDefinition" then Ret errList
        else
          let render expr := if String.eqb expr "" then Ret "" else
            r ← call (RenderFor cfg expr);
            Ret (match r with Ok n => normalizeRenderedName n | Err _ => "" end) in
          renderedName ← render nameExpr;
          renderedNS ← render namespaceExpr;
          scope ← call (ScopeOf g);
          match scope with
          | Err e => if is_no_match e || IsCRDNotInstalled e then Ret errList else Ret (errList ++ [e_msg e])
          | Ok namespaced =>
              let ns := if (namespaced : bool) then if String.eqb renderedNS "" then ow_namespace o else renderedNS else "" in
              delete_rendered o cfg m g ns renderedName errList
          end
  end.

Fixpoint delete_configurations o (pkgName : string) (configurations : list string) (errList : list string) :
    cprog (list string) :=
  match configurations with
  | [] => Ret errList
  | cfg :: configurations =>
      errList ← delete_one o pkgName cfg errList; delete_configurations o pkgName configurations errList
  end.

(** [DeleteTemplateRenderedResources], internal/service/middlewareconfiguration/delete.go *)
Definition DeleteTemplateRenderedResources o labels (configurations : list string) : cprog (result error unit) :=
  if bool_decide (configurations = []) then Ret (Ok tt)
  else
    let pkgName := labels.[LabelPackageName] in
    if String.eqb pkgName "" then Ret (Err (new_error "package name is empty"))
    else
      values ← call TemplateValuesOf;
      match values with
      | Err e => Ret (Err (wrap_error "failed to get template values" e))
      | Ok _ =>
          errList ← delete_configurations o pkgName configurations [];
          Ret (if bool_decide (errList = []) then Ok tt else Err (new_error (String.concat ";" errList)))
      end.
End Programs.


(** ** Inventories have a normal form *)

Lemma index_resources_spec resources byKey :
  match index_resources resources byKey with
  | Ok byKey' => ∀ key r, byKey' !! key = Some r ↔
      byKey !! key = Some r ∨ r ∈ resources ∧ renderedConfigurationResourceKey r = key
  | Err _ => True
  end ∧
  (is_ok (index_resources resources byKey) = true ↔
   Forall (λ r, renderedConfigurationResourceKey r ≠ "" ∧ byKey !! renderedConfigurationResourceKey r = None) resources ∧
   NoDup (renderedConfigurationResourceKey <$> resources)).
Proof.
  revert byKey. induction resources as [|r resources IH]; intros byKey; cbn [index_resources].
  { split; [|split; [split; constructor|done]]. intros key r. split; [by left|]. intros [?|[Hin _]]; [done|by apply not_elem_of_nil in Hin]. }
  set (key := renderedConfigurationResourceKey r). rewrite fmap_cons, Forall_cons, NoDup_cons. fold key.
  destruct (String.eqb_spec key "") as [He|He]; [split; [done|]; split; [done|naive_solver]|].
  destruct (byKey !! key) as [old|] eqn:Hold; [split; [done|]; split; [done|naive_solver]|].
  destruct (IH (<[key := r]> byKey)) as [IHv IHok]. split.
  - destruct (index_resources _ _) as [byKey'|]; [|done]. intros key' r'. rewrite IHv, elem_of_cons, lookup_insert_Some.
    split; [intros [[[<- <-]|[_ ?]]|[? ?]]; auto|]. intros [Hk|[[->|?] <-]]; [left; right|by left; left|by right].
    split; [|done]. intros <-. congruence.
  - rewrite IHok. split.
    + intros [Hall Hnd]. split; [|split; [|done]].
      * split; [done|]. eapply list.Forall_impl; [exact Hall|]. intros r' [? [Hk _]%lookup_insert_None]. done.
      * intros (r' & Heq & Hin)%list_elem_of_fmap. rewrite list.Forall_forall in Hall.
        destruct (Hall r' Hin) as [_ [_ Hne]%lookup_insert_None]. by rewrite <- Heq in Hne.
    + intros [[_ Hall] [Hnot Hnd]]. split; [|done]. apply list.Forall_forall. intros r' Hin.
      rewrite list.Forall_forall in Hall. destruct (Hall r' Hin). split; [done|]. apply lookup_insert_None. split; [done|].
      intros Heq. apply Hnot. rewrite Heq. by apply list_elem_of_fmap_2.
Qed.

Lemma in_key_order_elem {A} (byKey : gmap string A) a : a ∈ in_key_order byKey ↔ ∃ key, byKey !! key = Some a.
Proof.
  unfold in_key_order. rewrite list_elem_of_fmap. setoid_rewrite sort_by_Permutation. split.
  - intros ([key a'] & -> & Hin%elem_of_map_to_list). by exists key.
  - intros [key Hk]. exists (key, a). split; [done|]. by apply elem_of_map_to_list.
Qed.

Lemma inventory_permutation resources l : normalizeRenderedConfigurationResources resources = Ok l → l ≡ₚ resources.
Proof.
  unfold normalizeRenderedConfigurationResources. destruct (index_resources_spec resources ∅) as [Hv Hok].
  destruct (index_resources resources ∅) as [byKey|] eqn:Hi; [|done]. simpl in *. intros [= <-].
  destruct (proj1 Hok eq_refl) as [_ Hnd]. assert (Hkeys : ∀ kv, kv ∈ map_to_list byKey → renderedConfigurationResourceKey kv.2 = kv.1).
  { intros [key r] [Hk|[_ Hk]]%elem_of_map_to_list%Hv; [by rewrite lookup_empty in Hk|done]. }
  apply NoDup_Permutation; [|by eapply NoDup_fmap_1|].
  - unfold in_key_order. rewrite sort_by_Permutation. apply (NoDup_fmap_1 renderedConfigurationResourceKey).
    rewrite <- list_fmap_compose. rewrite (list_fmap_ext _ fst); [apply NoDup_fst_map_to_list|].
    intros i kv Hi'. apply Hkeys. by eapply list_elem_of_lookup_2.
  - intros r. rewrite in_key_order_elem. split.
    + intros [key [Hk|[? _]]%Hv]; [by rewrite lookup_empty in Hk|done].
    + intros Hin. exists (renderedConfigurationResourceKey r). apply Hv. by right.
Qed.

(** An inventory is accepted exactly when every entry is identified and no
    two entries are the same physical resource; its normal form has the same
    entries, in the order of their keys, so that an unchanged inventory is
    written unchanged. *)
Theorem inventory_normal_form resources :
  (is_ok (normalizeRenderedConfigurationResources resources) = true ↔
   Forall (λ r, renderedConfigurationResourceKey r ≠ "") resources ∧ NoDup (renderedConfigurationResourceKey <$> resources)) ∧
  ∀ l, normalizeRenderedConfigurationResources resources = Ok l →
    l ≡ₚ resources ∧ Sorted String.le (renderedConfigurationResourceKey <$> l).
Proof.
  unfold normalizeRenderedConfigurationResources. destruct (index_resources_spec resources ∅) as [Hv Hok]. split.
  - transitivity (is_ok (index_resources resources ∅) = true); [by destruct (index_resources _ _)|]. rewrite Hok.
    f_equiv. apply Forall_proper; [|done]. intros r. rewrite lookup_empty. naive_solver.
  - intros l. destruct (index_resources resources ∅) as [byKey|] eqn:Hi; [|done]. simpl in *. intros [= <-].
    destruct (proj1 Hok eq_refl) as [_ Hnd].
    assert (Hkeys : ∀ kv, kv ∈ map_to_list byKey → renderedConfigurationResourceKey kv.2 = kv.1).
    { intros [key r] [Hk|[_ Hk]]%elem_of_map_to_list%Hv; [by rewrite lookup_empty in Hk|done]. }
    split; [apply inventory_permutation; unfold normalizeRenderedConfigurationResources; by rewrite Hi|].
    unfold in_key_order. rewrite <- list_fmap_compose. rewrite (list_fmap_ext _ fst).
      * pose proof (sort_by_sorted fst (map_to_list byKey)) as Hs. clear -Hs. induction Hs as [|kv l _ IH Hhd]; [constructor|].
        rewrite fmap_cons. constructor; [done|]. destruct Hhd as [|kv' l Hle]; constructor. exact Hle.
      * intros i kv Hi'. apply Hkeys. rewrite <- (sort_by_Permutation fst). by eapply list_elem_of_lookup_2.
Qed.

(** ** What may be deleted *)

Lemma stale_spec previous rendered key r : stale_resources previous rendered !! key = Some r →
  r ∈ previous ∧ renderedConfigurationResourceKey r = key ∧ key ≠ "" ∧ key ∉ renderedConfigurationResourceKey <$> rendered.
Proof.
  unfold stale_resources. set (keys := filter _ _). set (f := λ stale resource, _).
  assert (Hkeys : ∀ k, k ≠ "" → k ∉ keys → k ∉ renderedConfigurationResourceKey <$> rendered).
  { intros k Hk Hnot Hin. apply Hnot. by apply list_elem_of_filter. }
  enough (Hind : ∀ l stale, l ⊆ previous → (∀ key r, stale !! key = Some r →
      r ∈ previous ∧ renderedConfigurationResourceKey r = key ∧ key ≠ "" ∧ key ∉ renderedConfigurationResourceKey <$> rendered) →
    ∀ key r, foldl f stale l !! key = Some r →
      r ∈ previous ∧ renderedConfigurationResourceKey r = key ∧ key ≠ "" ∧ key ∉ renderedConfigurationResourceKey <$> rendered).
  { apply Hind; [done|]. intros ? ? Hno. by rewrite lookup_empty in Hno. }
  induction l as [|x l IH]; intros stale Hsub Hst; [done|]. simpl. apply IH; [set_solver|].
  intros key' r'. unfold f at 1. set (kx := renderedConfigurationResourceKey x).
  destruct (String.eqb_spec kx ""); [apply Hst|]. cbn [orb]. case_bool_decide as Hin; [apply Hst|].
  assert (Hins : <[kx := x]> stale !! key' = Some r' → r' ∈ previous ∧ renderedConfigurationResourceKey r' = key' ∧ key' ≠ "" ∧
    key' ∉ renderedConfigurationResourceKey <$> rendered).
  { intros [[<- <-]|[_ Hr]]%lookup_insert_Some; [|by apply Hst]. split_and!; [apply Hsub; by left|done|done|by apply Hkeys]. }
  destruct (stale !! kx); [|exact Hins]. destruct (_ && _); [exact Hins|apply Hst].
Qed.


Section Deletions.
Context {typed : Type}.
Context `{FieldPathLib, !TypedLib typed, ObjectApi, !IntentCodec, !JsonPatch, JsonLib}.
Context (decimal : Z → string) (ParseGroup : string → option string) (FieldsFromJSON : string → option fset).
Context (IntentSchemas : bool).
Context (decode_template : string → result error (option object)).
Context (SetNamespace : string → object → object) (SetControllerReference : owner → object → result error object).
Abbreviation ccall := (ccall (typed := typed)).
Abbreviation cprog := (prog ccall).
Abbreviation cevent := (event ccall).
Implicit Types (o : owner) (m : configuration) (obj : object).

(** The object is the one the entry was recorded for, and still belongs to the owner. *)
Definition still_owned o obj (r : rendered_resource) : Prop :=
  GetUID obj = rr_resourceUID r ∧ rr_resourceUID r ≠ "" ∧ ow_uid o = rr_ownerUID r ∧ rr_ownerUID r ≠ "" ∧
  label obj LabelApp = ow_name o ∧ annotation obj LabelConfigurations = rr_configurationName r ∧
  annotation obj AnnotationConfigurationOwnerUID = ow_uid o ∧
  (rr_configurationUID r ≠ "" → annotation obj AnnotationConfigurationUID = rr_configurationUID r) ∧
  match GetControllerOf (GetOwnerReferences obj) with
  | Some ref => sameControllerOwner o (Some ref) = true
  | None => rr_namespaced r = false ∨ GetNamespace obj ≠ ow_namespace o
  end.

Lemma should_delete_disabled o obj r : shouldDeleteDisabledRenderedResource o obj r = true →
  rr_disablePolicy r = ConfigurationDisablePolicyDelete ∧ still_owned o obj r.
Proof.
  unfold shouldDeleteDisabledRenderedResource, hasConfigurationLifecycleMarkers, still_owned.
  repeat match goal with
  | |- context [String.eqb ?a ?b] => destruct (String.eqb_spec a b); simpl; try done
  | |- context [if rr_namespaced r then _ else _] => destruct (rr_namespaced r); simpl
  | |- context [rr_namespaced r && _] => destruct (rr_namespaced r); simpl
  end; destruct (GetControllerOf _) as [ref|]; intros Hc; split_and!; (done || congruence || auto).
Qed.

(** A deletion by the cleanup: of an entry with the policy to delete, not a CRD,
    which is [gone] from what is rendered, whose object was the last thing read, at its place. *)
Definition cleanup_justified o (previous : list rendered_resource) (gone : list cevent → rendered_resource → Prop)
    (l : list cevent) (e : cevent) : Prop :=
  match e with
  | Ev c _ => match c with
    | DeleteObject obj => ∃ r, r ∈ previous ∧ rr_disablePolicy r = ConfigurationDisablePolicyDelete ∧
        isCustomResourceDefinition (resource_gvk r) = false ∧ gone l r ∧
        last l = Some (Ev (GetCached (resource_gvk r) (rr_namespace r) (rr_name r)) (Ok obj)) ∧ still_owned o obj r
    | _ => True
    end
  end.

Section Cleanup.
Context (o : owner) (previous : list rendered_resource) (gone : list cevent → rendered_resource → Prop).
Context (gone_more : ∀ l l' r, gone l r → l `prefix_of` l' → gone l' r).

Lemma delete_disabled_spec r tr : r ∈ previous → gone tr r →
  spec (cleanup_justified o previous gone) (deleteDisabledRenderedConfigurationResource o r) tr (λ _ _, True).
Proof.
  intros Hr Hgone. unfold deleteDisabledRenderedConfigurationResource. destruct (negb _); [by apply spec_ret|]. cbv zeta.
  destruct (isCustomResourceDefinition (resource_gvk r)) eqn:Hcrd; [by apply spec_ret|].
  eapply (spec_bind _ _ _ (λ tr' a, tr' = tr ++ [Ev (GetCached (resource_gvk r) (rr_namespace r) (rr_name r)) a])); [by apply spec_call|].
  intros tr' [obj|e] _ ->; [|by apply spec_ret].
  destruct (shouldDeleteDisabledRenderedResource o obj r) eqn:Hs; [|by apply spec_ret]. cbn [negb].
  apply should_delete_disabled in Hs as [Hpol Hown].
  apply (spec_bind _ _ _ (λ _ _, True)); [|by intros; apply spec_ret]. apply spec_call; [|done]. intros a.
  exists r. split_and!; try done; [eapply gone_more; [exact Hgone|by apply prefix_app_r]|]. apply last_snoc.
Qed.

Lemma delete_all_spec rs tr : (∀ r, r ∈ rs → r ∈ previous ∧ gone tr r) →
  spec (cleanup_justified o previous gone) (delete_all o rs) tr (λ _ _, True).
Proof.
  revert tr. induction rs as [|r rs IH]; intros tr Hrs; [by apply spec_ret|]. cbn [delete_all].
  destruct (Hrs r) as [? ?]; [by left|]. eapply spec_bind; [by apply delete_disabled_spec|].
  intros tr' [[]|e] Hpre _; [|by apply spec_ret]. apply IH. intros r' Hr'. destruct (Hrs r'); [by right|]. eauto.
Qed.

Lemma disabled_cleanup_spec rendered tr :
  (∀ r, r ∈ previous → renderedConfigurationResourceKey r ∉ renderedConfigurationResourceKey <$> rendered → gone tr r) →
  spec (cleanup_justified o previous gone) (DeleteDisabledRenderedConfigurationResources o previous rendered) tr (λ _ _, True).
Proof.
  intros Hg. apply delete_all_spec. intros r [key Hk]%in_key_order_elem. apply stale_spec in Hk as (? & <- & _ & ?). auto.
Qed.
End Cleanup.

(** Not among the resources given. *)
Definition not_among (rendered : list rendered_resource) (_ : list cevent) (r : rendered_resource) : Prop :=
  renderedConfigurationResourceKey r ∉ renderedConfigurationResourceKey <$> rendered.

(** *** What a configuration renders *)

Abbreviation write_for o obj m := (written (Reconcile decimal ParseGroup FieldsFromJSON IntentSchemas o (Some obj) (mc_name m))).
Abbreviation Handle_ o labels act m :=
  (Handle decimal ParseGroup FieldsFromJSON IntentSchemas decode_template SetNamespace SetControllerReference o labels act m).
Abbreviation apply_all_ o labels act ms rendered current :=
  (apply_all decimal ParseGroup FieldsFromJSON IntentSchemas decode_template SetNamespace SetControllerReference
     o labels act ms rendered current).

(** The physical resource of an object, under the key of inventories. *)
Definition object_key obj : string :=
  let g := GroupVersionKind obj in
  renderedConfigurationResourceKey (RenderedConfigurationResource "" "" (gvk_group g) (gvk_version g) (GetKind obj)
    (GetNamespace obj) (GetName obj) "" "" false "").

(** No configuration renders it any more: every one whose template is not empty
    was written in this run, as another resource. *)
Definition rendered_by_none o (ms : list configuration) (l : list cevent) (r : rendered_resource) : Prop :=
  ∀ m, m ∈ ms → decode_template (mc_template m) ≠ Ok None →
    ∃ obj err, answered (write_for o obj m) l err ∧ object_key obj ≠ renderedConfigurationResourceKey r.

Lemma rendered_by_none_more o ms l l' r : rendered_by_none o ms l r → l `prefix_of` l' → rendered_by_none o ms l' r.
Proof. intros Hn Hpre m Hm Ht. destruct (Hn m Hm Ht) as (obj & err & ? & ?). exists obj, err. split; [by eapply answered_prefix|done]. Qed.

Lemma apply_configuration_applied o m obj namespaced exists_ k r :
  Prog.outcome (apply_configuration decimal ParseGroup FieldsFromJSON IntentSchemas SetControllerReference o m obj namespaced exists_)
    k (Ok r) →
  ∃ res obj' err, r = Some res ∧ answered (write_for o obj' m) k err ∧ renderedConfigurationResourceKey (ar_identity res) = object_key obj'.
Proof.
  unfold apply_configuration. intros (policy & _ & Ho)%outcome_try_pure. cbv zeta in Ho.
  apply outcome_try_pure in Ho as (obj' & _ & Ho). apply outcome_bind in Ho as (k1 & k2 & err & -> & Hw & Ho).
  apply outcome_try in Ho as (k3 & k4 & [] & -> & _ & Ho). apply outcome_bind in Ho as (k5 & k6 & live & -> & _ & Ho).
  destruct live as [live|e]; [|by destruct Ho].
  exists (default (ApplyResult (RenderedConfigurationResource "" "" "" "" "" "" "" "" "" false "") None) r), obj', err.
  destruct (negb _); destruct Ho as [_ [= ->]]; (split_and!; [done|by exists [], k1, (k3 ++ k5 ++ k6)|done]).
Qed.

Lemma handle_applied o labels act m k r : act = HandleActionPublish ∨ act = HandleActionUpdate →
  Prog.outcome (Handle_ o labels act m) k (Ok r) →
  match r with
  | None => decode_template (mc_template m) = Ok None
  | Some res => ∃ obj err, answered (write_for o obj m) k err ∧ renderedConfigurationResourceKey (ar_identity res) = object_key obj
  end.
Proof.
  intros Hact. unfold Handle. destruct (decode_template _) as [[obj|]|e] eqn:Ht; [|by intros [_ [= ->]]|by intros [_ ?]].
  intros (k1 & k2 & scope & -> & _ & Ho)%outcome_bind. apply outcome_try_pure in Ho as (scope' & _ & Ho). cbv zeta in Ho.
  apply outcome_bind in Ho as (k3 & k4 & old & -> & _ & Ho). apply outcome_try_pure in Ho as (old' & _ & Ho).
  assert (Hr : ∃ res obj' err, r = Some res ∧ answered (write_for o obj' m) k4 err ∧
    renderedConfigurationResourceKey (ar_identity res) = object_key obj').
  { destruct Hact as [-> | ->]; by eapply apply_configuration_applied. }
  destruct Hr as (res & obj' & err & -> & Hw & Hk). exists obj', err. split; [|done]. by do 2 apply answered_app_l.
Qed.

Lemma apply_all_applied o labels act ms rendered current k rendered' current' :
  act = HandleActionPublish ∨ act = HandleActionUpdate →
  Prog.outcome (apply_all_ o labels act ms rendered current) k (Ok (rendered', current')) →
  rendered ⊆ rendered' ∧ ∀ m, m ∈ ms → decode_template (mc_template m) ≠ Ok None →
    ∃ obj err, answered (write_for o obj m) k err ∧ object_key obj ∈ renderedConfigurationResourceKey <$> rendered'.
Proof.
  intros Hact. revert rendered current k. induction ms as [|m ms IH]; intros rendered current k; cbn [apply_all].
  { intros [-> [= -> ->]]. split; [done|]. by intros m ?%elem_of_nil. }
  intros (k1 & k2 & [r|e] & -> & Hh & Ho)%outcome_bind; [|by destruct Ho]. apply handle_applied in Hh; [|done].
  assert (Hrest : ∀ rendered1 current1, Prog.outcome (apply_all_ o labels act ms rendered1 current1) k2 (Ok (rendered', current')) →
    rendered1 ⊆ rendered' ∧ ∀ m, m ∈ ms → decode_template (mc_template m) ≠ Ok None →
      ∃ obj err, answered (write_for o obj m) (k1 ++ k2) err ∧ object_key obj ∈ renderedConfigurationResourceKey <$> rendered').
  { intros rendered1 current1 [? Hall]%IH. split; [done|]. intros m' Hm' Ht. destruct (Hall m' Hm' Ht) as (obj & err & ? & ?).
    exists obj, err. split; [by apply answered_app_l|done]. }
  destruct r as [res|]; apply Hrest in Ho as [Hsub Hall].
  - destruct Hh as (obj & err & Hw & Hk). split; [set_solver|]. intros m' [->|Hm']%elem_of_cons Ht; [|by apply Hall].
    exists obj, err. split; [eapply answered_prefix; [exact Hw|by apply prefix_app_r]|]. rewrite <- Hk. apply list_elem_of_fmap_2, Hsub.
    apply elem_of_app. right. by left.
  - split; [done|]. intros m' [->|Hm']%elem_of_cons Ht; [done|by apply Hall].
Qed.

(** *** Applying deletes nothing *)

Definition deletes_nothing (l : list cevent) (e : cevent) : Prop :=
  match e with Ev c _ => match c with DeleteObject _ => False | _ => True end end.

Section Applying.
Context (D : list cevent → cevent → Prop) (HD : ∀ l e, deletes_nothing l e → D l e).

Lemma written_spec {A} (p : prog (IntentWriter.wcall (typed := typed)) A) tr : spec D (written p) tr (λ _ _, True).
Proof.
  revert tr. induction p as [a|R c k IH]; intros tr; [by apply spec_ret|]. cbn [written].
  apply (spec_bind (call (Write c)) (λ r, written (k r)) _ (λ _ _, True)); [apply spec_call; [intros; by apply HD|done]|]. intros tr' r _ _. apply IH.
Qed.

Lemma strip_spec obj o tr : spec D (stripLiveControllerOwnerReference obj o) tr (λ _ _, True).
Proof.
  unfold stripLiveControllerOwnerReference. apply (spec_bind _ _ _ (λ _ _, True)); [apply spec_call; [intros; by apply HD|done]|].
  intros tr' [live|e] _ _; [|by apply spec_ret]. destruct (GetControllerOf _) as [ref|]; [|by apply spec_ret].
  destruct (negb _); [by apply spec_ret|]. apply (spec_bind _ _ _ (λ _ _, True)); [apply spec_call; [intros; by apply HD|done]|]. intros; by apply spec_ret.
Qed.

(** What was applied is among the identities returned. *)
Lemma apply_configuration_spec o m obj namespaced exists_ tr :
  spec D (apply_configuration decimal ParseGroup FieldsFromJSON IntentSchemas SetControllerReference o m obj namespaced exists_)
    tr (λ _ _, True).
Proof.
  unfold apply_configuration. apply spec_try_pure; [done|]. intros policy _. cbv zeta.
  apply spec_try_pure; [done|]. intros obj' _. apply (spec_bind _ _ _ (λ _ _, True)); [by apply written_spec|]. intros tr1 err _ _.
  apply (spec_bind _ _ _ (λ _ _, True)).
  { destruct err; [destruct (_ && _); [apply strip_spec|by apply spec_ret]|by apply spec_ret]. }
  intros tr2 [[]|e] _ _; [|by apply spec_ret]. apply (spec_bind _ _ _ (λ _ _, True)); [apply spec_call; [intros; by apply HD|done]|].
  intros tr3 [live|e] _ _; [|by apply spec_ret]. destruct (negb _); by apply spec_ret.
Qed.

Lemma apply_handle_spec o labels act m tr : act = HandleActionPublish ∨ act = HandleActionUpdate →
  spec D (Handle decimal ParseGroup FieldsFromJSON IntentSchemas decode_template SetNamespace SetControllerReference
    o labels act m) tr (λ _ _, True).
Proof.
  intros Hact. unfold Handle. destruct (decode_template _) as [[obj|]|]; [|by apply spec_ret..].
  apply (spec_bind _ _ _ (λ _ _, True)); [apply spec_call; [intros; by apply HD|done]|]. intros tr1 scope _ _.
  apply spec_try_pure; [done|]. intros scope' _. cbv zeta. apply (spec_bind _ _ _ (λ _ _, True)); [apply spec_call; [intros; by apply HD|done]|].
  intros tr2 old _ _. apply spec_try_pure; [done|]. intros old' _. destruct Hact as [-> | ->]; apply apply_configuration_spec.
Qed.

Lemma apply_all_spec o labels act ms rendered current tr : act = HandleActionPublish ∨ act = HandleActionUpdate →
  spec D (apply_all decimal ParseGroup FieldsFromJSON IntentSchemas decode_template SetNamespace SetControllerReference
    o labels act ms rendered current) tr (λ _ _, True).
Proof.
  intros Hact. revert rendered current tr. induction ms as [|m ms IH]; intros rendered current tr; [by apply spec_ret|].
  cbn [apply_all]. eapply spec_bind; [by apply apply_handle_spec|]. intros tr' [[r|]|e] _ _; [apply IH..|by apply spec_ret].
Qed.
End Applying.

Lemma deletes_nothing_justified o previous gone l e : deletes_nothing l e → cleanup_justified o previous gone l e.
Proof. destruct e as [R c r]. by destruct c. Qed.

Lemma normalize_keys resources l : normalizeRenderedConfigurationResources resources = Ok l → l ≡ₚ resources.
Proof. intros Hl. by apply inventory_permutation. Qed.

Abbreviation reconcile_configurations o labels act ms previous :=
  (ReconcileRenderedConfigurationResources decimal ParseGroup FieldsFromJSON IntentSchemas decode_template
     SetNamespace SetControllerReference o labels act ms previous).

Lemma update_cleanup_spec o labels ms previous :
  spec (cleanup_justified o previous (rendered_by_none o ms)) (reconcile_configurations o labels HandleActionUpdate ms previous) [] (λ _ _, True).
Proof.
  unfold ReconcileRenderedConfigurationResources.
  eapply (spec_bind _ _ _ (λ tr r, Prog.outcome (apply_all_ o labels HandleActionUpdate ms [] []) tr r)).
  { eapply spec_mono; [apply spec_holds; [apply apply_all_spec; [apply deletes_nothing_justified|by right]|]|].
    - apply holds_outcome. intros k r Hk. exact Hk.
    - by intros tr r _ [_ ?]. }
  intros tr [[now current]|e] _ Hout; [|by apply spec_ret].
  apply apply_all_applied in Hout as [_ Happlied]; [|by right].
  apply spec_try_pure; [done|]. intros now' Hnow%normalize_keys. apply spec_try_pure; [done|]. intros current' _.
  eapply (spec_bind _ _ _ (λ _ _, True)); [|intros tr' [[]|e] _ _; by apply spec_ret].
  apply disabled_cleanup_spec; [intros; by eapply rendered_by_none_more|]. intros r Hr Hnot m Hm Ht.
  destruct (Happlied m Hm Ht) as (obj & err & ? & Hkey). exists obj, err. split; [done|]. intros Heq.
  apply Hnot. rewrite <- Heq. by rewrite Hnow.
Qed.

Lemma no_cleanup_spec o labels act ms previous : act ≠ HandleActionUpdate →
  spec deletes_nothing (reconcile_configurations o labels act ms previous) [] (λ _ _, True).
Proof.
  intros Hact. unfold ReconcileRenderedConfigurationResources. destruct act; try done; try (by apply spec_ret).
  eapply spec_bind; [apply apply_all_spec; [done|by left]|]. intros tr [[now current]|e] _ _; [|by apply spec_ret].
  apply spec_try_pure; [done|]. intros now' _. apply spec_try_pure; [done|]. intros current' _.
  eapply (spec_bind _ _ _ (λ _ _, True)); [by apply spec_ret|]. intros tr' [[]|e] _ _; by apply spec_ret.
Qed.

(** C31: An update of the configurations deletes only what the inventory of the
    last reconciliation says it created and may delete: an entry with the
    policy to delete that is not a CRD, that no configuration renders any more
    (every one whose template is not empty was written in this run, before, as
    another resource), and whose object, read in its place just before, still is
    the recorded one, carries the owner's markers and is controlled by nobody
    else.  Publishing, and any other action, deletes nothing; and the cleanup by
    itself deletes none of the resources it is told are rendered. *)
Theorem cleanup_deletes_only_stale o labels act ms previous rendered {W} (h : handler ccall W) w :
  each (cleanup_justified o previous (not_among rendered))
    (run h (DeleteDisabledRenderedConfigurationResources o previous rendered) w).2 ∧
  (if decide (act = HandleActionUpdate)
   then each (cleanup_justified o previous (rendered_by_none o ms)) (run h (reconcile_configurations o labels act ms previous) w).2
   else each deletes_nothing (run h (reconcile_configurations o labels act ms previous) w).2).
Proof.
  split; [by eapply spec_run, disabled_cleanup_spec|].
  destruct (decide _) as [->|Hact]; [by eapply spec_run, update_cleanup_spec|by eapply spec_run, no_cleanup_spec].
Qed.

End Deletions.

(** *** Deletion with the owner *)

Section OwnerDeletion.
Context {typed : Type} `{ObjectApi} (FromAPIVersionAndKind : string → string → gvk).
Abbreviation ccall := (ccall (typed := typed)).
Abbreviation cprog := (prog ccall).
Abbreviation cevent := (event ccall).
Implicit Types (o : owner) (m : configuration) (obj : object).

(** The object is not kept as an orphan and either is to be deleted whoever owns
    it, or is controlled by the owner, or by nobody and carries its marks. *)
Definition deletable o obj (policy configurationName : string) : Prop :=
  policy ≠ ConfigurationDeletePolicyOrphan ∧
  (policy = ConfigurationDeletePolicyDelete ∨
   match GetControllerOf (GetOwnerReferences obj) with
   | Some ref => sameControllerOwner o (Some ref) = true
   | None => configurationName ≠ "" ∧ label obj LabelApp = ow_name o ∧ annotation obj LabelConfigurations = configurationName
   end).

Lemma should_delete_rendered o obj cfg policy : shouldDeleteRenderedResource o obj cfg policy = true → deletable o obj policy cfg.
Proof.
  unfold shouldDeleteRenderedResource, isOpenSaolaManagedConfiguration, deletable.
  repeat match goal with |- context [String.eqb ?a ?b] => destruct (String.eqb_spec a b); simpl; try done end; auto;
    destruct (GetControllerOf _); try done; auto.
Qed.

(** A deletion with the owner: of an object of a kind that is not a CRD, just
    read by its name or found by its label, for a configuration of the list. *)
Definition teardown_justified o (configurations : list string) (l : list cevent) (e : cevent) : Prop :=
  match e with
  | Ev c _ => match c with
    | DeleteObject obj => ∃ cfg pkgName m g ns, cfg ∈ configurations ∧ Ev (GetConfiguration cfg pkgName) (Ok m) ∈ l ∧
        gvk_kind g ≠ "CustomResourceDefinition" ∧
        ((∃ name, Ev (GetCached g ns name) (Ok obj) ∈ l ∧
            deletable o obj (resolveConfigurationDeletePolicy m obj) (mc_name m)) ∨
         (∃ items, Ev (ListCached g ns (ow_name o)) (Ok items) ∈ l ∧ obj ∈ items ∧
            deletable o obj (resolveConfigurationDeletePolicy m obj) cfg))
    | _ => True
    end
  end.

Section Teardown.
Context (o : owner) (configurations : list string).
Abbreviation D := (teardown_justified o configurations).

Lemma delete_items_spec cfg pkgName m g ns items rest errs tr :
  cfg ∈ configurations → Ev (GetConfiguration cfg pkgName) (Ok m) ∈ tr → gvk_kind g ≠ "CustomResourceDefinition" →
  Ev (ListCached g ns (ow_name o)) (Ok items) ∈ tr → rest ⊆ items →
  spec D (delete_items o cfg m rest errs) tr (λ _ _, True).
Proof.
  intros Hcfg. revert errs tr. induction rest as [|item rest IH]; intros errs tr Hm Hg Hl Hsub; [by apply spec_ret|].
  cbn [delete_items]. assert (item ∈ items ∧ rest ⊆ items) as [Hin Hrest] by set_solver.
  destruct (shouldDeleteRenderedResource o item cfg _) eqn:Hs; [|by apply IH]. cbn [negb].
  apply should_delete_rendered in Hs. eapply (spec_bind _ _ _ (λ _ _, True)).
  - apply spec_call; [|done]. intros a. exists cfg, pkgName, m, g, ns. split_and!; eauto 6.
  - intros tr' err Hpre _. apply IH; try done; by eapply elem_of_prefix.
Qed.

Lemma delete_by_name_spec cfg pkgName m g ns name tr :
  cfg ∈ configurations → Ev (GetConfiguration cfg pkgName) (Ok m) ∈ tr → gvk_kind g ≠ "CustomResourceDefinition" →
  spec D (deleteByGVKAndName o g ns name m) tr (λ _ _, True).
Proof.
  intros Hcfg Hm Hg. unfold deleteByGVKAndName.
  eapply (spec_bind _ _ _ (λ tr' a, tr' = tr ++ [Ev (GetCached g ns name) a])); [by apply spec_call|].
  intros tr' [obj|e] _ ->; [|by apply spec_ret]. destruct (shouldDeleteRenderedResource o obj _ _) eqn:Hs; [|by apply spec_ret].
  cbn [negb]. apply should_delete_rendered in Hs. apply (spec_bind _ _ _ (λ _ _, True)); [|by intros; apply spec_ret].
  apply spec_call; [|done]. intros a. exists cfg, pkgName, m, g, ns. split_and!; [done|set_solver|done|]. left. exists name. split; [set_solver|done].
Qed.

Lemma delete_rendered_spec cfg pkgName m g ns name errs tr :
  cfg ∈ configurations → Ev (GetConfiguration cfg pkgName) (Ok m) ∈ tr → gvk_kind g ≠ "CustomResourceDefinition" →
  spec D (delete_rendered o cfg m g ns name errs) tr (λ _ _, True).
Proof.
  intros Hcfg Hm Hg. unfold delete_rendered. apply (spec_bind _ _ _ (λ _ _, True)).
  { destruct (String.eqb name ""); [by apply spec_ret|]. eapply spec_bind; [by eapply delete_by_name_spec|]. intros; by apply spec_ret. }
  intros tr' [] Hpre _; [by apply spec_ret|].
  eapply (spec_bind _ _ _ (λ tr'' a, tr'' = tr' ++ [Ev (ListCached g ns (ow_name o)) a])); [by apply spec_call|].
  intros tr'' [items|e] Hpre' ->; [|destruct (is_not_found e); by apply spec_ret].
  eapply (delete_items_spec cfg pkgName m g ns items); [done| |done|apply elem_of_app; right; by left|done].
  apply elem_of_app. left. by eapply elem_of_prefix.
Qed.

Lemma delete_one_spec pkgName cfg errs tr :
  cfg ∈ configurations → spec D (delete_one FromAPIVersionAndKind o pkgName cfg errs) tr (λ _ _, True).
Proof.
  intros Hcfg. unfold delete_one.
  eapply (spec_bind _ _ _ (λ tr' a, tr' = tr ++ [Ev (GetConfiguration cfg pkgName) a])); [by apply spec_call|].
  intros tr' [m|e] _ ->; [|by apply spec_ret]. destruct (deleteTemplateLineValues _) as [i apiVersion kind name namespace].
  destruct (_ || _); [by apply spec_ret|]. cbv zeta. set (g := FromAPIVersionAndKind _ _).
  destruct (String.eqb_spec (gvk_kind g) "CustomResourceDefinition") as [|Hg]; [by apply spec_ret|].
  assert (Hrender : ∀ expr tr, spec D (if String.eqb expr "" then Ret "" else
    r ← call (RenderFor cfg expr); Ret (match r with Ok n => normalizeRenderedName n | Err _ => "" end)) tr (λ _ _, True)).
  { intros expr tr1. destruct (String.eqb expr ""); [by apply spec_ret|].
    apply (spec_bind _ _ _ (λ _ _, True)); [by apply spec_call|]. intros; by apply spec_ret. }
  eapply spec_bind; [apply Hrender|]. intros tr1 rname Hpre1 _. eapply spec_bind; [apply Hrender|]. intros tr2 rns Hpre2 _.
  apply (spec_bind _ _ _ (λ _ _, True)); [by apply spec_call|]. intros tr3 [namespaced|e] Hpre3 _; [|destruct (_ || _); by apply spec_ret].
  eapply (delete_rendered_spec cfg pkgName); try done. eapply elem_of_prefix; [|exact Hpre3]. eapply elem_of_prefix; [|exact Hpre2].
  eapply elem_of_prefix; [|exact Hpre1]. set_solver.
Qed.

Lemma delete_configurations_spec pkgName cfgs errs tr :
  cfgs ⊆ configurations → spec D (delete_configurations FromAPIVersionAndKind o pkgName cfgs errs) tr (λ _ _, True).
Proof.
  revert errs tr. induction cfgs as [|cfg cfgs IH]; intros errs tr Hsub; [by apply spec_ret|]. cbn [delete_configurations].
  eapply spec_bind; [apply delete_one_spec; set_solver|]. intros tr' errs' _ _. apply IH. set_solver.
Qed.
End Teardown.

(** When an owner goes away, an object is deleted only for one of its
    configurations, after it was read under the name the template renders or
    found by the owner's label; never a CRD, never an orphan, and, unless the
    policy says to delete it whoever owns it, only if the owner controls it or
    nobody does and the marks are the owner's and the configuration's. *)
Theorem teardown_deletes_only_owned o labels configurations {W} (h : handler ccall W) w :
  each (teardown_justified o configurations)
    (run h (DeleteTemplateRenderedResources FromAPIVersionAndKind o labels configurations) w).2.
Proof.
  eapply (spec_run _ _ _ (λ _ _, True)). unfold DeleteTemplateRenderedResources. destruct (bool_decide _); [by apply spec_ret|]. cbv zeta.
  destruct (String.eqb _ ""); [by apply spec_ret|]. apply (spec_bind _ _ _ (λ _ _, True)); [by apply spec_call|].
  intros tr [[]|e] _ _; [|by apply spec_ret]. eapply spec_bind; [by apply delete_configurations_spec|]. intros; by apply spec_ret.
Qed.
End OwnerDeletion.

(** ** A resource that its configuration stops rendering

    The recorded object is deleted by the cleanup, and is not when a
    configuration still renders it; nor does the teardown of its owner delete an
    object that another owner controls. *)
Section Witness.
Import DocumentPatch.
#[local] Existing Instance coded_json.

Definition cache_owner : owner := Owner OwnerMiddleware "cache" "prod" "owner-1" "5" 3 None ∅ [] None None.
Definition conf_resource : rendered_resource :=
  RenderedConfigurationResource "redis-conf" "mc-1" "" "v1" "ConfigMap" "prod" "redis-conf" "owner-1" "uid-7" true
    ConfigurationDisablePolicyDelete.
Definition conf_object (controller : owner_reference) : object :=
  SetOwnerReferences [controller] (SetUID "uid-7"
    (SetLabels (Some {[LabelApp := "cache"]})
      (SetAnnotations (Some {[LabelConfigurations := "redis-conf"; AnnotationConfigurationOwnerUID := "owner-1";
                              AnnotationConfigurationUID := "mc-1"]}) config_map))).
Definition by_cache : owner_reference := OwnerReference "middleware.cn/v1" "Middleware" "cache" "owner-1" (Some true).
Definition by_other : owner_reference := OwnerReference "middleware.cn/v1" "Middleware" "store" "owner-2" (Some true).

Definition conf_template : string :=
  String.concat (String newline "") ["apiVersion: v1"; "kind: ConfigMap"; "metadata:"; "  name: redis-conf"].

(** A server whose only object is [live]; every deletion succeeds. *)
Definition one_object (live : object) : handler (ccall (typed := PathTyped.typed)) unit :=
  λ R c _,
    (match c in Configurations.ccall R return R with
     | Write c => refuse c
     | GetCached _ _ _ => Ok live
     | ListCached _ _ _ => Ok [live]
     | DeleteObject _ => None
     | PatchOwnerReferences _ _ => None
     | ScopeOf _ => Ok true
     | TemplateValuesOf => Ok tt
     | GetConfiguration name _ => Ok (MiddlewareConfiguration name "mc-1" ∅ ∅ conf_template)
     | RenderFor _ expr => Ok expr
     end, tt).

Definition deletions (l : list (event (ccall (typed := PathTyped.typed)))) : list object :=
  omap (λ e, match e with Ev c _ => match c with DeleteObject o => Some o | _ => None end end) l.

Lemma inventory_normal_form_witness :
  let other := RenderedConfigurationResource "a" "" "" "v1" "ConfigMap" "prod" "a" "" "" true "" in
  normalizeRenderedConfigurationResources [conf_resource; other] = Ok [other; conf_resource] ∧
  [other; conf_resource] ≡ₚ [conf_resource; other].
Proof.
  assert (Hn : let other := RenderedConfigurationResource "a" "" "" "v1" "ConfigMap" "prod" "a" "" "" true "" in
    normalizeRenderedConfigurationResources [conf_resource; other] = Ok [other; conf_resource]) by (vm_compute; reflexivity).
  split; [exact Hn|]. apply (proj2 (inventory_normal_form _) _ Hn).
Defined.

Lemma cleanup_deletes_only_stale_witness :
  let cleanup live rendered := run (one_object live) (DeleteDisabledRenderedConfigurationResources cache_owner [conf_resource] rendered) tt in
  deletions (cleanup (conf_object by_cache) []).2 = [conf_object by_cache] ∧
  deletions (cleanup (conf_object by_cache) [conf_resource]).2 = [] ∧
  deletions (cleanup (conf_object by_other) []).2 = [] ∧
  each (cleanup_justified cache_owner [conf_resource] (not_among [])) (cleanup (conf_object by_cache) []).2.
Proof.
  cbv zeta. split; [vm_compute; reflexivity|]. split; [vm_compute; reflexivity|]. split; [vm_compute; reflexivity|].
  exact (proj1 (cleanup_deletes_only_stale (λ _, "") (λ _, None) (λ _, None) false (λ _, Ok None) (λ _ o, o) (λ _ o, Ok o)
    cache_owner ∅ HandleActionUpdate [] [conf_resource] [] (one_object (conf_object by_cache)) tt)).
Defined.

Lemma teardown_deletes_only_owned_witness :
  let teardown live := run (one_object live) (DeleteTemplateRenderedResources (λ _ k, GVK "" "v1" k) cache_owner
    {[LabelPackageName := "redis-pkg"]} ["redis-conf"]) tt in
  deletions (teardown (conf_object by_cache)).2 = [conf_object by_cache] ∧
  deletions (teardown (conf_object by_other)).2 = [] ∧
  each (teardown_justified cache_owner ["redis-conf"]) (teardown (conf_object by_cache)).2.
Proof.
  cbv zeta. split; [vm_compute; reflexivity|]. split; [vm_compute; reflexivity|].
  apply teardown_deletes_only_owned.
Defined.
End Witness.
