(* ===== verification/Operator.v ===== *)
(** * The MiddlewareOperator resource and its API-server client

    The data of [api/v1/middlewareoperator_types.go], the client functions of
    [internal/k8s/middlewareoperator.go] and the delete contexts of
    [internal/service/middlewareoperator/delete_context.go].  Two controllers
    write the status of an operator: the main one owns the conditions, the
    state and the inventory, the runtime one what it sees of the Deployment. *)
From Stdlib Require Import ZArith Lia.
From stdpp Require Import base gmap strings list option.
From S2P Require Import Prelude Labels Conditions Prog Json Middleware WorkloadPhase.

(** ** Data *)

(** [Permission], api/v1/common.go *)
Record permission := Permission { pm_serviceAccountName : string; pm_rules : list json }.

(** A raw extension is its bytes. *)
(** [MiddlewareOperatorSpec], api/v1/middlewareoperator_types.go *)
Record operator_spec := MiddlewareOperatorSpec {
  op_baseline : string;
  op_globe : option string;
  op_preActions : list pre_action;
  op_permissionScope : string;
  op_permissions : list permission;
  op_deployment : string;
  op_configurations : list configuration_ref;
}.

(** [MiddlewareOperatorStatus], api/v1/middlewareoperator_types.go *)
Record operator_status := MiddlewareOperatorStatus {
  os_observedGeneration : Z;
  os_conditions : list condition;
  os_state : string;
  os_operatorStatus : gmap string deployment_status;
  os_operatorAvailable : string;
  os_reason : string;
  os_ready : bool;
  os_runtime : string;
  os_rendered : list rendered_resource;
  os_renderedGeneration : Z;
}.
#[export] Instance operator_status_eq_dec : EqDecision operator_status.
Proof. solve_decision. Defined.

(** [MiddlewareOperator], api/v1/middlewareoperator_types.go *)
Record operator := MiddlewareOperator {
  mo_name : string;
  mo_namespace : string;
  mo_uid : string;
  mo_generation : Z;
  mo_deletionTimestamp : option Z;
  mo_labels : gmap string string;
  mo_annotations : gmap string string;
  mo_finalizers : list string;
  mo_spec : operator_spec;
  mo_status : operator_status;
}.

(** The fields of the object that its writers set. *)
Definition with_meta (labels annotations : gmap string string) (spec : operator_spec) (o : operator) : operator :=
  MiddlewareOperator (mo_name o) (mo_namespace o) (mo_uid o) (mo_generation o) (mo_deletionTimestamp o)
    labels annotations (mo_finalizers o) spec (mo_status o).
Definition with_status (st : operator_status) (o : operator) : operator :=
  MiddlewareOperator (mo_name o) (mo_namespace o) (mo_uid o) (mo_generation o) (mo_deletionTimestamp o)
    (mo_labels o) (mo_annotations o) (mo_finalizers o) (mo_spec o) st.
Definition with_finalizers (fs : list string) (o : operator) : operator :=
  MiddlewareOperator (mo_name o) (mo_namespace o) (mo_uid o) (mo_generation o) (mo_deletionTimestamp o)
    (mo_labels o) (mo_annotations o) fs (mo_spec o) (mo_status o).
Definition with_conditions (cs : list condition) (st : operator_status) : operator_status :=
  MiddlewareOperatorStatus (os_observedGeneration st) cs (os_state st) (os_operatorStatus st) (os_operatorAvailable st)
    (os_reason st) (os_ready st) (os_runtime st) (os_rendered st) (os_renderedGeneration st).
Definition with_state (state reason : string) (st : operator_status) : operator_status :=
  MiddlewareOperatorStatus (os_observedGeneration st) (os_conditions st) state (os_operatorStatus st)
    (os_operatorAvailable st) reason (os_ready st) (os_runtime st) (os_rendered st) (os_renderedGeneration st).
Definition with_observed (g : Z) (st : operator_status) : operator_status :=
  MiddlewareOperatorStatus g (os_conditions st) (os_state st) (os_operatorStatus st) (os_operatorAvailable st)
    (os_reason st) (os_ready st) (os_runtime st) (os_rendered st) (os_renderedGeneration st).
Definition with_inventory (rendered : list rendered_resource) (g : Z) (st : operator_status) : operator_status :=
  MiddlewareOperatorStatus (os_observedGeneration st) (os_conditions st) (os_state st) (os_operatorStatus st)
    (os_operatorAvailable st) (os_reason st) (os_ready st) (os_runtime st) rendered g.
Definition with_runtime (status : gmap string deployment_status) (available : string) (ready : bool) (runtime : string)
    (st : operator_status) : operator_status :=
  MiddlewareOperatorStatus (os_observedGeneration st) (os_conditions st) (os_state st) status available
    (os_reason st) ready runtime (os_rendered st) (os_renderedGeneration st).
Definition on_status (f : operator_status → operator_status) (o : operator) : operator := with_status (f (mo_status o)) o.

(** ** Objects an operator owns: Deployments and RBAC objects

    Of a Deployment's spec the code looks at the selector, the labels of the
    template and the containers. *)
Record deployment_spec := DeploymentSpec {
  dsp_selector : option json;
  dsp_templateLabels : option (gmap string string);
  dsp_containers : list json;
  dsp_rest : json;
}.
#[export] Instance deployment_spec_eq_dec : EqDecision deployment_spec.
Proof. solve_decision. Defined.

Record operator_deployment := OperatorDeployment {
  od_name : string; od_namespace : string; od_labels : gmap string string;
  od_controller : option string;   (** the UID of the controlling owner *)
  od_spec : deployment_spec;
}.

Inductive rbac_kind := ServiceAccount | Role | RoleBinding | ClusterRole | ClusterRoleBinding.
#[export] Instance rbac_kind_eq_dec : EqDecision rbac_kind.
Proof. solve_decision. Defined.

(** A binding's subject and role have the object's name; the subject is in the
    operator's namespace. *)
Record rbac_object := RBAC {
  ro_kind : rbac_kind; ro_namespace : string; ro_name : string; ro_labels : gmap string string;
  ro_rules : list json; ro_controller : option string; ro_subjectNamespace : string;
}.

(** ** What the operator's controllers call *)

Inductive ocall : Type → Type :=
  | OpGet (name ns : string) : ocall (result error operator)
  | OpReaderGet (name ns : string) : ocall (result error operator)
  | OpUpdate (o : operator) : ocall (option error)
  | OpStatusUpdate (o : operator) : ocall (option error)
  | OpCacheSet (key : string) (o : operator) : ocall unit
  | OpCacheGet (key : string) : ocall (option operator)
  | OpCacheDelete (key : string) : ocall unit
  (** packages *)
  | ListCompatiblePackages (component version : string) : ocall (result error (list string))
  | GetInstallStatus (package : string) : ocall (result error (bool * string))
  | GetPackageEnabled (package : string) : ocall (result error bool)
  | GetBaselineFromPackage (name package : string) : ocall (option error)
  (** rendering, pre-actions and configurations *)
  | HydrateDeleteContext (o : operator) : ocall (option error * operator)
  | RenderWithBaseline (o : operator) : ocall (option error * operator)
  | HandlePreActions (o : operator) : ocall (option error * operator)
  | DeleteRenderedConfigurations (o : operator) : ocall (option error)
  | ReconcileConfigurations (a : action) (o : operator) (previous : list rendered_resource) :
      ocall (result error (list rendered_resource))
  (** owned objects *)
  | RbacCreate (r : rbac_object) : ocall (option error)
  | RbacCreateOrUpdate (r : rbac_object) : ocall (option error)
  | RbacDelete (r : rbac_object) : ocall (option error)
  | DepGet (name ns : string) : ocall (result error operator_deployment)
  | DepCreate (d : operator_deployment) : ocall (option error)
  | DepUpdate (d : operator_deployment) : ocall (option error)
  | DepPatch (current d : operator_deployment) : ocall (option error)
  | DepDelete (d : operator_deployment) : ocall (option error).
Abbreviation oprog := (prog ocall).
Abbreviation oevent := (event ocall).

(** ** Client functions ([internal/k8s/middlewareoperator.go]) *)

Section Client.
Context `{!RetryOnConflict ocall error is_conflict} (statusAPIReader : bool).

(** [GetMiddlewareOperator], internal/k8s/middlewareoperator.go *)
Definition GetMiddlewareOperator (name namespace : string) : oprog (result error operator) :=
  r ← call (OpGet name namespace);
  match r with
  | Err e => Ret (Err e)
  | Ok o => _ ← call (OpCacheSet (namespaced_name namespace name) o); Ret (Ok o)
  end.

(** [UpdateMiddlewareOperator], internal/k8s/middlewareoperator.go *)
Definition UpdateMiddlewareOperator (o : operator) : oprog (option error) :=
  r ← retry tt (λ _,
    r ← GetMiddlewareOperator (mo_name o) (mo_namespace o);
    match r with
    | Err e => Ret (Some e, tt)
    | Ok now => err ← call (OpUpdate (with_meta (mo_labels o) (mo_annotations o) (mo_spec o) now)); Ret (err, tt)
    end);
  Ret r.1.

(** The cached read first, the uncached one on a retry. *)
(** [UpdateMiddlewareOperatorStatus], internal/k8s/middlewareoperator.go:164-181 *)
Definition read_for_status (attempt : nat) (name namespace : string) : oprog (result error operator) :=
  r ← (if (0 <? attempt) && statusAPIReader then call (OpReaderGet name namespace) else GetMiddlewareOperator name namespace);
  Ret (match r with Ok now => Ok now | Err e => Err (wrap_error "get MiddlewareOperator error" e) end).

(** [UpdateMiddlewareOperatorRuntimeStatus], internal/k8s/middlewareoperator.go *)
Definition UpdateMiddlewareOperatorRuntimeStatus (name namespace : string) (operatorStatus : gmap string deployment_status)
    (operatorAvailable : string) (ready : bool) (runtime : string) : oprog (option error) :=
  r ← retry 0 (λ attempt,
    r ← read_for_status attempt name namespace;
    match r with
    | Err e => Ret (Some e, attempt)
    | Ok now =>
        err ← call (OpStatusUpdate (on_status (with_runtime operatorStatus operatorAvailable ready runtime) now));
        Ret (option_map (wrap_error "update MiddlewareOperator runtime status error") err, S attempt)
    end);
  Ret r.1.

(** The caller's status as [UpdateMiddlewareOperatorStatus] changes it, given
    the latest one. *)
(** [UpdateMiddlewareOperatorStatus], internal/k8s/middlewareoperator.go:183-195 *)
Definition merge_status (now st : operator_status) : operator_status :=
  let st := if (os_observedGeneration st <? os_observedGeneration now)%Z
            then with_observed (os_observedGeneration now) st else st in
  let st := with_runtime (os_operatorStatus now) (os_operatorAvailable now) (os_ready now) (os_runtime now) st in
  if (os_renderedGeneration st <? os_renderedGeneration now)%Z
  then with_inventory (os_rendered now) (os_renderedGeneration now) st else st.

(** The caller's object is changed too. *)
(** [UpdateMiddlewareOperatorStatus], internal/k8s/middlewareoperator.go *)
Definition UpdateMiddlewareOperatorStatus (o : operator) : oprog (option error * operator) :=
  r ← retry (0, o) (λ '(attempt, o),
    r ← read_for_status attempt (mo_name o) (mo_namespace o);
    match r with
    | Err e => Ret (Some e, (attempt, o))
    | Ok now =>
        let o := on_status (merge_status (mo_status now)) o in
        if decide (mo_status now = mo_status o) then Ret (None, (S attempt, o))
        else
          err ← call (OpStatusUpdate (with_status (mo_status o) now));
          Ret (option_map (wrap_error "update MiddlewareOperator status error") err, (S attempt, o))
    end);
  Ret (r.1, r.2.2).
End Client.

(** ** Delete contexts ([delete_context.go]) *)

(** [IsNoOperatorResource], internal/service/middlewareoperator/middlewareoperator.go *)
Definition IsNoOperatorResource (o : operator) : bool := String.eqb ((mo_annotations o).[LabelNoOperator]) "true".

(** [hardRequirementsMet], internal/service/middlewareoperator/delete_context.go *)
Definition operator_requirements_met (o : operator) : bool * list string :=
  let missing := if String.eqb ((mo_labels o).[LabelPackageName]) "" then ["packageName"] else [] in
  let missing := if String.eqb (op_baseline (mo_spec o)) "" then missing ++ ["baseline"] else missing in
  (bool_decide (length missing = 0), missing).

(** [ShouldUseLegacyDeleteFallback], internal/service/middlewareoperator/delete_context.go *)
Definition operator_legacy_fallback (o : operator) : bool * string :=
  let '(ok, missing) := operator_requirements_met o in
  if ok then (false, "") else (true, "missing hard requirements: " +:+ String.concat ", " missing).

Definition with_baseline (b : string) (sp : operator_spec) : operator_spec :=
  MiddlewareOperatorSpec b (op_globe sp) (op_preActions sp) (op_permissionScope sp) (op_permissions sp)
    (op_deployment sp) (op_configurations sp).

(** The missing fields taken from the cached object. *)
(** [ResolveDeleteContext], internal/service/middlewareoperator/delete_context.go:70-78 *)
Definition operator_backfill (cp cached : operator) : operator :=
  let labels :=
    if String.eqb ((mo_labels cp).[LabelPackageName]) "" && negb (String.eqb ((mo_labels cached).[LabelPackageName]) "")
    then <[LabelPackageName := (mo_labels cached).[LabelPackageName]]> (mo_labels cp) else mo_labels cp in
  with_meta labels (mo_annotations cp)
    (with_baseline (fill (op_baseline (mo_spec cp)) (op_baseline (mo_spec cached))) (mo_spec cp)) cp.

(** The object, whether the cache was used, the reason and the error. *)
(** [ResolveDeleteContext], internal/service/middlewareoperator/delete_context.go *)
Definition operator_delete_context (o : operator) : oprog (option operator * bool * string * option error) :=
  if IsNoOperatorResource o then Ret (Some o, false, "", None)
  else if (operator_requirements_met o).1 then Ret (Some o, false, "all hard requirements already present", None)
  else
    let '(needFallback, reason) := operator_legacy_fallback o in
    if negb needFallback then Ret (Some o, false, "", None) else
    let cacheKey := namespaced_name (mo_namespace o) (mo_name o) in
    cached ← call (OpCacheGet cacheKey);
    match cached with
    | None => Ret (None, true, reason, Some (new_error ("delete context: cache miss for " +:+ cacheKey)))
    | Some cached =>
        let cp := operator_backfill o cached in
        if (operator_requirements_met cp).1 then Ret (Some cp, true, reason, None)
        else Ret (None, true, reason,
               Some (new_error ("delete context: hard requirements still unmet after cache fallback for " +:+ cacheKey)))
    end.

(** ** What the client functions do, for any discipline that lets them read *)

(** The object was read through the cached client, just before. *)
Definition just_read (l : list oevent) (now : operator) : Prop :=
  ∃ l' name ns key u, l = l' ++ [Ev (OpGet name ns) (Ok now); Ev (OpCacheSet key now) u].
(** Or, on a retry, through the uncached one. *)
Definition just_read_any (l : list oevent) (now : operator) : Prop :=
  just_read l now ∨ ∃ l' name ns, l = l' ++ [Ev (OpReaderGet name ns) (Ok now)].

(** Reads, and writes of the status. *)
Definition op_reads (e : oevent) : bool :=
  match e with Ev c _ => match c with OpGet _ _ | OpReaderGet _ _ | OpCacheSet _ _ | OpCacheGet _ => true | _ => false end end.
Definition op_status_write (e : oevent) : option operator :=
  match e with Ev c _ => match c with OpStatusUpdate o => Some o | _ => None end end.
Definition op_write (e : oevent) : option operator :=
  match e with Ev c _ => match c with OpUpdate o => Some o | _ => None end end.

(** The same object, but for what status writers change. *)
Definition same_object (o o' : operator) : Prop :=
  o' = with_status (mo_status o') o ∧ os_conditions (mo_status o') = os_conditions (mo_status o) ∧
  os_state (mo_status o') = os_state (mo_status o) ∧ os_reason (mo_status o') = os_reason (mo_status o) ∧
  (os_observedGeneration (mo_status o) ≤ os_observedGeneration (mo_status o'))%Z.

Lemma same_object_refl o : same_object o o.
Proof. destruct o; unfold same_object; simpl; split_and!; (done || lia). Qed.

Lemma same_object_trans o1 o2 o3 : same_object o1 o2 → same_object o2 o3 → same_object o1 o3.
Proof. 
  intros (E1 & ? & ? & ? & ?) (E2 & ? & ? & ? & ?). split_and!; [|congruence..|lia].
  rewrite E2 at 1. rewrite E1. by destruct o1. Qed.

Lemma merge_keeps now st :
  os_conditions (merge_status now st) = os_conditions st ∧ os_state (merge_status now st) = os_state st ∧
  os_reason (merge_status now st) = os_reason st ∧
  (os_observedGeneration st ≤ os_observedGeneration (merge_status now st))%Z ∧
  (os_observedGeneration now ≤ os_observedGeneration (merge_status now st))%Z.
Proof.
  unfold merge_status. destruct (Z.ltb_spec (os_observedGeneration st) (os_observedGeneration now)); simpl;
    destruct (_ <? _)%Z; simpl; split_and!; (done || lia).
Qed.

Lemma same_object_merge now o : same_object o (on_status (merge_status now) o).
Proof. destruct (merge_keeps now (mo_status o)) as (? & ? & ? & ? & ?). by destruct o. Qed.

Section Specs.
Context `{!RetryOnConflict ocall error is_conflict} (reader : bool).
Context (D : list oevent → oevent → Prop) (HD : ∀ l e, op_reads e = true → D l e).

Lemma read_spec name ns tr :
  spec D (GetMiddlewareOperator name ns) tr (λ tr' r, match r with Ok now => just_read tr' now | Err _ => True end).
Proof.
  unfold GetMiddlewareOperator.
  eapply (spec_bind _ _ _ (λ tr' r, tr' = tr ++ [Ev (OpGet name ns) r])); [apply spec_call; [auto|done]|].
  intros tr' [now|e] _ ->; [|by apply spec_ret].
  eapply (spec_bind _ _ _ (λ tr' u, just_read tr' now)); [|intros; by apply spec_ret].
  apply spec_call; [auto|]. intros u. rewrite <- app_assoc. by eexists _, _, _, _, _.
Qed.

Lemma read_for_status_spec attempt name ns tr :
  spec D (read_for_status reader attempt name ns) tr
    (λ tr' r, match r with Ok now => just_read_any tr' now | Err _ => True end).
Proof.
  unfold read_for_status.
  apply (spec_bind _ _ _ (λ tr' r, match r with Ok now => just_read_any tr' now | Err _ => True end));
    [|intros tr' [now|e] _ ?; by apply spec_ret].
  destruct (_ && _).
  - apply spec_call; [auto|]. intros [now|e]; [|done]. right. by eexists _, _, _.
  - eapply spec_mono; [apply read_spec|]. intros tr' [now|e] _ ?; [by left|done].
Qed.

(** The status write: the caller's report over the runtime's fields. *)
Definition writes_status (o : operator) (l : list oevent) (e : oevent) : Prop :=
  ∃ now o', just_read_any l now ∧ same_object o o' ∧ op_status_write e = Some (with_status (merge_status (mo_status now) (mo_status o')) now).

Lemma UpdateStatus_spec o tr (HS : ∀ l e, tr `prefix_of` l → writes_status o l e → D l e) :
  spec D (UpdateMiddlewareOperatorStatus reader o) tr (λ _ r, same_object o r.2).
Proof.
  unfold UpdateMiddlewareOperatorStatus.
  apply (spec_bind _ _ _ (λ _ r, same_object o r.2.2)); [|intros; by apply spec_ret].
  apply (spec_retry _ _ _ (λ s tr', tr `prefix_of` tr' ∧ same_object o s.2)); [|split; [done|apply same_object_refl]].
  intros [attempt o1] tr1 [Hpre Hsame]. eapply spec_bind; [apply read_for_status_spec|].
  intros tr2 [now|e] Hpre2 Hread; [|apply spec_ret; split; [done|]; intros; split; [by etrans|done]]. cbv zeta.
  assert (Hs : same_object o (on_status (merge_status (mo_status now)) o1)) by (eapply same_object_trans; [done|apply same_object_merge]).
  assert (Hpre' : tr `prefix_of` tr2) by (by etrans).
  case_decide; [by apply spec_ret|].
  eapply (spec_bind _ _ _ (λ tr3 _, tr `prefix_of` tr3)).
  - apply spec_call; [|intros; by apply prefix_app_r]. intros r. apply HS; [done|]. exists now, o1. split_and!; [done|done|]. by destruct o1.
  - intros tr3 err ? ?. apply spec_ret. split; [done|]. by destruct err.
Qed.

(** The write of an object: the latest one with the given metadata and spec. *)
Definition writes_object (o : operator) (l : list oevent) (e : oevent) : Prop :=
  ∃ now, just_read l now ∧ op_write e = Some (with_meta (mo_labels o) (mo_annotations o) (mo_spec o) now).

Lemma UpdateOperator_spec o tr (HS : ∀ l e, tr `prefix_of` l → writes_object o l e → D l e) :
  spec D (UpdateMiddlewareOperator o) tr
    (λ tr' err, err = None → ∃ l e, tr `prefix_of` l ∧ tr' = l ++ [e] ∧ writes_object o l e ∧ e = Ev (OpUpdate (default o (op_write e))) None).
Proof.
  unfold UpdateMiddlewareOperator.
  apply (spec_bind _ _ _ (λ tr' r, r.1 = None → ∃ l e, tr `prefix_of` l ∧ tr' = l ++ [e] ∧ writes_object o l e ∧ e = Ev (OpUpdate (default o (op_write e))) None));
    [|intros; by apply spec_ret].
  apply (spec_retry _ _ _ (λ _ tr', tr `prefix_of` tr')); [|done].
  intros _ tr1 Hpre. eapply spec_bind; [apply read_spec|].
  intros tr2 [now|e] Hpre2 Hread; [|apply spec_ret; split; [done|]; simpl; intros _; by etrans].
  assert (Hpre' : tr `prefix_of` tr2) by (by etrans).
  set (new := with_meta _ _ _ _).
  eapply (spec_bind _ _ _ (λ tr3 err, tr `prefix_of` tr3 ∧ tr3 = tr2 ++ [Ev (OpUpdate new) err])).
  - apply spec_call; [|intros; by split; [apply prefix_app_r|]]. intros r. apply HS; [done|]. by exists now.
  - intros tr3 err _ [? ->]. apply spec_ret. split; [|destruct err; simpl; auto]. simpl. intros ->. exists tr2, (Ev (OpUpdate new) None).
    split_and!; [done|done|by exists now|done].
Qed.
End Specs.

(** ** The two writers of the status *)

Section Writers.
Context `{!RetryOnConflict ocall error is_conflict} (reader : bool).
Context {W : Type} (h : handler ocall W) (w : W).

Definition runtime_fields (st : operator_status) : gmap string deployment_status * string * bool * string :=
  (os_operatorStatus st, os_operatorAvailable st, os_ready st, os_runtime st).

(** A status write of the main controller: its report, over what the object
    read last says of the runtime, and never an older generation or inventory. *)
Definition main_write (o : operator) (l : list oevent) (e : oevent) : Prop :=
  op_write e = None ∧ ∀ new, op_status_write e = Some new → ∃ now, just_read_any l now ∧ new = with_status (mo_status new) now ∧
    runtime_fields (mo_status new) = runtime_fields (mo_status now) ∧
    os_conditions (mo_status new) = os_conditions (mo_status o) ∧ os_state (mo_status new) = os_state (mo_status o) ∧
    os_reason (mo_status new) = os_reason (mo_status o) ∧
    (os_observedGeneration (mo_status now) ≤ os_observedGeneration (mo_status new))%Z ∧
    (os_renderedGeneration (mo_status now) ≤ os_renderedGeneration (mo_status new))%Z.

(** One of the runtime controller: only its own fields change. *)
Definition runtime_write (l : list oevent) (e : oevent) : Prop :=
  op_write e = None ∧ ∀ new, op_status_write e = Some new → ∃ now, just_read_any l now ∧
    new = with_status (mo_status new) now ∧
    mo_status now = with_runtime (os_operatorStatus (mo_status now)) (os_operatorAvailable (mo_status now))
      (os_ready (mo_status now)) (os_runtime (mo_status now)) (mo_status new).

Lemma merge_inventory now st : (os_renderedGeneration now ≤ os_renderedGeneration (merge_status now st))%Z.
Proof.
  unfold merge_status. destruct (os_observedGeneration st <? _)%Z; simpl;
    destruct (Z.ltb_spec (os_renderedGeneration st) (os_renderedGeneration now)); simpl; lia.
Qed.

Lemma merge_runtime now st : runtime_fields (merge_status now st) = runtime_fields now.
Proof. unfold merge_status. destruct (os_observedGeneration st <? _)%Z; simpl; by destruct (_ <? _)%Z. Qed.

(** The main controller and the runtime controller share an operator's
    status without losing each other's fields: every status write of the one
    starts from the object read last, on whatever attempt, and keeps what that
    object says in the fields of the other; the observed generation and the
    generation of the inventory never decrease. *)
Theorem operator_status_writers o name ns status available ready runtime :
  each (main_write o) (run h (UpdateMiddlewareOperatorStatus reader o) w).2 ∧
  each runtime_write (run h (UpdateMiddlewareOperatorRuntimeStatus reader name ns status available ready runtime) w).2.
Proof.
  split.
  - eapply (spec_run _ _ _ (λ _ _, True)). eapply spec_mono; [apply UpdateStatus_spec|done].
    + intros l e He. destruct e as [R c r]. by destruct c.
    + intros l e _ (now & o' & Hread & (Ho & Hc & Hs & Hr & _) & He). split; [destruct e as [R c r]; by destruct c|].
      rewrite He. intros new [= <-]. exists now. destruct (merge_keeps (mo_status now) (mo_status o')) as (? & ? & ? & _ & ?).
      split_and!; simpl; [done|done|apply merge_runtime|congruence..|done|apply merge_inventory].
  - assert (HD : ∀ l e, op_reads e = true → runtime_write l e) by (intros l e He; destruct e as [R c r]; by destruct c).
    eapply (spec_run _ _ _ (λ _ _, True)). unfold UpdateMiddlewareOperatorRuntimeStatus.
    eapply (spec_bind _ _ _ (λ _ _, True)); [|intros; by apply spec_ret].
    apply (spec_retry _ _ _ (λ _ _, True)); [|done]. intros attempt tr _.
    eapply spec_bind; [by apply read_for_status_spec|]. intros tr' [now|e] _ Hread; [|by apply spec_ret].
    eapply (spec_bind _ _ _ (λ _ _, True)).
    + apply spec_call; [|done]. intros r. split; [done|]. intros new [= <-]. exists now. by destruct now as [????????? []].
    + intros tr2 err _ _. apply spec_ret. split; [done|]. by destruct err.
Qed.
End Writers.
