(* ===== verification/OperatorUpgrade.v ===== *)
(** * Upgrading an operator

    [Check] and [ReplacePackage] of
    [internal/service/middlewareoperator/middlewareoperator.go]: the switch of
    an operator to another version of its package.  The mutex that serialises
    upgrades in the process is left out; a pointer to a condition is its index
    in the slice. *)
From Stdlib Require Import ZArith Lia.
From stdpp Require Import base gmap strings list option pretty.
From S2P Require Import Prelude Labels Conditions Prog Json Middleware GoStrings WorkloadPhase Operator.

Section Upgrade.
Context `{!MetaConditions, !RetryOnConflict ocall error is_conflict}.
Context (reader : bool) (now : Z).

Abbreviation UpdateStatus := (UpdateMiddlewareOperatorStatus reader).

(** The status of the condition of a type, and the slice with that condition. *)
Definition condition_status (t : string) (cs : list condition) : string * list condition :=
  let '(cs, p) := GetCondition now cs t in
  (match p with Some i => match cs !! i with Some c => c_status c | None => "" end | None => "" end, cs).

(** An update through a pointer that is taken where it is used. *)
Definition set_condition (t : string) (f : condition → condition) (cs : list condition) : list condition :=
  let '(cs, p) := GetCondition now cs t in
  match p with Some i => alter f i cs | None => cs end.

Definition set_outcome (t : string) (err : option error) (o : operator) : operator :=
  on_status (λ st, with_conditions (set_condition t (match err with
    | Some e => Failed now (e_msg e) (mo_generation o) | None => Success now (mo_generation o) end) (os_conditions st)) st) o.

(** The error, and the object, whose state a resource without operator sets. *)
(** [skipNoOperatorResource], internal/service/middlewareoperator/middlewareoperator.go *)
Definition skipNoOperatorResource (o : operator) : option error * operator :=
  if IsNoOperatorResource o
  then (Some (Error NoOperator "no matching MiddlewareOperator found"),
        on_status (λ st, with_state StateAvailable (os_reason st) st) o)
  else (None, o).

(** [Check], internal/service/middlewareoperator/middlewareoperator.go *)
Definition Check_operator (o : operator) : oprog (option error * operator) :=
  let '(skip, o) := skipNoOperatorResource o in
  let o := set_outcome CondTypeChecked
    (match skip with
     | Some _ => None
     | None => if String.eqb (op_baseline (mo_spec o)) "" then Some (new_error "baseline must not be empty") else None
     end) o in
  '(err, o) ← UpdateStatus o;
  Ret (option_map (wrap_error "failed to update MiddlewareOperator status") err, o).

(** [targetUpgradeBaseline], internal/service/middlewareoperator/middlewareoperator.go *)
Definition targetUpgradeBaseline (o : operator) : string :=
  let baseline := (mo_annotations o).[LabelBaseline] in
  if negb (String.eqb baseline "") then baseline else op_baseline (mo_spec o).

Definition without_update (o : operator) : operator :=
  with_meta (mo_labels o) (delete LabelUpdate (mo_annotations o)) (mo_spec o) o.

(** A failed write is only logged. *)
(** [clearUpgradeAnnotation], internal/service/middlewareoperator/middlewareoperator.go *)
Definition clearUpgradeAnnotation (live current : operator) : oprog operator :=
  _ ← UpdateMiddlewareOperator (without_update live); Ret (without_update current).

(** [packageUnavailableMessage], internal/service/middlewareoperator/middlewareoperator.go *)
Definition packageUnavailableMessage (targetVersion reason : string) : string :=
  "waiting for upgrade target package to be ready: version=" +:+ targetVersion +:+ ", reason=" +:+ reason.

(** In seconds. *)
(** [defaultUpgradePackageUnavailableTimeout], internal/service/middlewareoperator/middlewareoperator.go *)
Definition defaultUpgradePackageUnavailableTimeout : Z := 50.

(** [markPackageUnavailable], internal/service/middlewareoperator/middlewareoperator.go *)
Definition markPackageUnavailable (targetVersion reason : string) (og : Z) (c : condition) : error * condition :=
  let message := packageUnavailableMessage targetVersion reason in
  let restart := negb (String.eqb (c_status c) ConditionUnknown) ||
                 negb (contains ("version=" +:+ targetVersion) (c_message c)) in
  let ltt := if restart then now else c_lastTransitionTime c in
  let c := Condition (c_type c) (if restart then ConditionUnknown else c_status c) og ltt CondReasonIniting message in
  if (now - ltt <? defaultUpgradePackageUnavailableTimeout)%Z
  then (Error PackageNotReady "middleware package is not ready yet", c)
  else (Error PackageUnavailableExceeded ("middleware package has been unavailable for too long: " +:+ message +:+ ", timeout=50s"), c).

(** The condition at [p] marked, and the annotation cleared once the time is up. *)
(** [ReplacePackage], internal/service/middlewareoperator/middlewareoperator.go:193-203 *)
Definition unavailable (p : nat) (live : operator) (targetVersion reason : string) (o : operator) : oprog (error * operator) :=
  match os_conditions (mo_status o) !! p with
  | None => Ret (Error PackageNotReady "middleware package is not ready yet", o)
  | Some c =>
      let '(e, c) := markPackageUnavailable targetVersion reason (mo_generation o) c in
      let o := on_status (λ st, with_conditions (<[p := c]> (os_conditions st)) st) o in
      if decide (e_kind e = PackageUnavailableExceeded)
      then o ← clearUpgradeAnnotation live o; Ret (e, o)
      else Ret (e, o)
  end.

(** The object switched to the package. *)
(** [ReplacePackage], internal/service/middlewareoperator/middlewareoperator.go:247-267 *)
Definition switched (o : operator) (targetBaseline package : string) : operator :=
  with_meta (<[LabelPackageName := package]> (<[LabelPackageVersion := (mo_annotations o).[LabelUpdate]]> (mo_labels o)))
    (delete LabelUpdate (mo_annotations o))
    (MiddlewareOperatorSpec targetBaseline (op_globe (mo_spec o)) (op_preActions (mo_spec o)) "" [] "" []) o.

(** What is returned, the variable [err] as the deferred function finds it, and
    the object. *)
Definition outcome : Type := option error * option error * operator.
Definition failing (e : error) (o : operator) : outcome := (Some e, Some e, o).

(** From the check of the installed package on. *)
(** [ReplacePackage], internal/service/middlewareoperator/middlewareoperator.go:226-297 *)
Definition switch_package (p : nat) (live : operator) (targetVersion package : string) (o : operator) : oprog outcome :=
  let targetBaseline := targetUpgradeBaseline o in
  let '(skip, o) := skipNoOperatorResource o in
  missing ← (match skip with
    | Some _ => Ret None
    | None => call (GetBaselineFromPackage targetBaseline package)
    end);
  match missing with
  | Some e => Ret (Some e, None, o)   (** the [err] of the inner scope *)
  | None =>
      let new := switched o targetBaseline package in
      enabled ← call (GetPackageEnabled package);
      match enabled with
      | Ok true =>
          err ← UpdateMiddlewareOperator new;
          match err with
          | Some e => Ret (failing e o)
          | None => _ ← GetMiddlewareOperator (mo_name new) (mo_namespace new); Ret (None, None, new)
          end
      | _ =>
          '(e, o) ← unavailable p live targetVersion
            (match enabled with
             | Err e => "failed to re-fetch package after switching: " +:+ e_msg e
             | Ok _ => "package still not enabled after switching: " +:+ package
             end) o;
          Ret (failing e o)
      end
  end.

(** The body of the upgrade, for an operator that is checked. *)
(** [ReplacePackage], internal/service/middlewareoperator/middlewareoperator.go:180-224 *)
Definition upgrade_body (p : nat) (live o : operator) : oprog outcome :=
  let targetVersion := (mo_annotations o).[LabelUpdate] in
  packages ← call (ListCompatiblePackages ((mo_labels o).[LabelComponent]) targetVersion);
  match packages with
  | Err e => Ret (failing e o)
  | Ok [package] =>
      status ← call (GetInstallStatus package);
      match status with
      | Ok (true, _) => switch_package p live targetVersion package o
      | Ok (false, installErr) =>
          if negb (String.eqb installErr "") then
            o ← clearUpgradeAnnotation live o;
            Ret (failing (Error PackageInstallFailed installErr) o)
          else
            '(e, o) ← unavailable p live targetVersion "target package not ready: enabled=false" o; Ret (failing e o)
      | Err e =>
          '(e, o) ← unavailable p live targetVersion ("failed to get target package status: " +:+ e_msg e) o; Ret (failing e o)
      end
  | Ok packages =>
      '(e, o) ← unavailable p live targetVersion
        ("failed to get new package: expected 1 package but got " +:+ pretty (length packages)) o;
      Ret (failing e o)
  end.

(** The deferred report: the object as it leaves. *)
(** [ReplacePackage], internal/service/middlewareoperator/middlewareoperator.go:162-176 *)
Definition report_upgrade (p : nat) (err : option error) (o : operator) : operator :=
  let update f := on_status (λ st, with_conditions (alter f p (os_conditions st)) st) o in
  match err with
  | Some e => if decide (e_kind e = PackageNotReady) then o else update (Failed now (e_msg e) (mo_generation o))
  | None => update (Success now (mo_generation o))
  end.

(** The error of the deferred status write is assigned to a variable that is
    not returned. *)
(** [ReplacePackage], internal/service/middlewareoperator/middlewareoperator.go *)
Definition ReplacePackage_operator (o : operator) : oprog (option error * operator) :=
  match mo_annotations o !! LabelUpdate with
  | None => Ret (None, o)
  | Some _ =>
      live ← GetMiddlewareOperator (mo_name o) (mo_namespace o);
      match live with
      | Err e => Ret (Some (wrap_error "failed to get MiddlewareOperator" e), o)
      | Ok live =>
          match mo_annotations live !! LabelUpdate with
          | None => Ret (Some (new_error "no upgrade annotation found, skipping"), o)
          | Some _ =>
              let '(checked, cs) := condition_status CondTypeChecked (os_conditions (mo_status o)) in
              let '(cs, p) := GetCondition now cs CondTypeUpdating in
              let p := default (length cs) p in
              let o := on_status (λ st, with_state StateUpdating (os_reason st) (with_conditions cs st)) o in
              '(err, o) ← UpdateStatus o;
              match err with
              | Some e => Ret (Some e, o)
              | None =>
                  '(ret, err, o) ← (if decide (checked = ConditionTrue) then upgrade_body p live o
                                    else Ret ((None, None, o) : outcome));
                  '(_, o) ← UpdateStatus (report_upgrade p err o);
                  Ret (ret, o)
              end
          end
      end
  end.
End Upgrade.

(** ** When an operator is switched, and when the request is dropped *)

Section Proofs.
Context `{!MetaConditions, !RetryOnConflict ocall error is_conflict}.
Context (reader : bool) (now : Z).
Implicit Types (o live : operator) (l tr : list oevent).

(** The Updating condition as the upgrade finds it. *)
Definition updating_condition o : option condition :=
  let '(cs, p) := GetCondition now (condition_status now CondTypeChecked (os_conditions (mo_status o))).2 CondTypeUpdating in
  p ≫= (cs !!.).

(** The recorded wait is over: the condition has been Unknown for the timeout,
    and its message contains [version=] followed by the target, which the message
    of another version that begins like the target does too. *)
Definition timed_out o : Prop :=
  ∃ c, updating_condition o = Some c ∧ c_status c = ConditionUnknown ∧
    contains ("version=" +:+ (mo_annotations o).[LabelUpdate]) (c_message c) = true ∧
    (defaultUpgradePackageUnavailableTimeout ≤ now - c_lastTransitionTime c)%Z.

Definition listed_packages o l (packages : list string) : Prop :=
  Ev (ListCompatiblePackages ((mo_labels o).[LabelComponent]) ((mo_annotations o).[LabelUpdate])) (Ok packages) ∈ l.
(** This run found no package to switch to. *)
Definition found_unusable o l : Prop :=
  ∃ packages, listed_packages o l packages ∧
    (length packages ≠ 1 ∨ ∃ package, packages = [package] ∧
       ((∃ e, Ev (GetInstallStatus package) (Err e) ∈ l) ∨ Ev (GetInstallStatus package) (Ok (false, "")) ∈ l ∨
        (∃ e, Ev (GetPackageEnabled package) (Err e) ∈ l) ∨ Ev (GetPackageEnabled package) (Ok false) ∈ l)).
Definition install_failed o l : Prop :=
  ∃ package installErr, listed_packages o l [package] ∧ Ev (GetInstallStatus package) (Ok (false, installErr)) ∈ l ∧ installErr ≠ "".
(** The object that the upgrade begins with. *)
Definition began_with o l live : Prop := [Ev (OpGet (mo_name o) (mo_namespace o)) (Ok live)] `prefix_of` l.

Definition switching o l (e : oevent) : Prop :=
  ∃ package installErr,
    listed_packages o l [package] ∧ Ev (GetInstallStatus package) (Ok (true, installErr)) ∈ l ∧ Ev (GetPackageEnabled package) (Ok true) ∈ l ∧
    (IsNoOperatorResource o = true ∨ Ev (GetBaselineFromPackage (targetUpgradeBaseline o) package) None ∈ l) ∧
    writes_object (switched o (targetUpgradeBaseline o) package) l e.

Definition dropping o l (e : oevent) : Prop :=
  ∃ live, began_with o l live ∧ writes_object (without_update live) l e ∧ (install_failed o l ∨ found_unusable o l ∧ timed_out o).

Definition upgrade_justified o l (e : oevent) : Prop :=
  is_Some (op_write e) → switching o l e ∨ dropping o l e.

(** Another status only. *)
Definition like o o' : Prop := o' = with_status (mo_status o') o.
(** And the Updating condition at [p]. *)
Definition upgrading o (p : nat) o' : Prop := like o o' ∧ os_conditions (mo_status o') !! p = updating_condition o.

(** What the caller's object becomes. *)
Definition kept o o' : Prop :=
  mo_spec o' = mo_spec o ∧ mo_labels o' = mo_labels o ∧
  (mo_annotations o' = mo_annotations o ∨ mo_annotations o' = delete LabelUpdate (mo_annotations o)).
Definition upgraded o tr o' : Prop :=
  ∃ package l e, e ∈ tr ∧ switching o l e ∧ l `prefix_of` tr ∧ (∃ new, e = Ev (OpUpdate new) None) ∧
    o' = with_status (mo_status o') (switched o (targetUpgradeBaseline o) package).

Lemma no_write_justified o l e : op_write e = None → upgrade_justified o l e.
Proof. intros He [? Hs]. congruence. Qed.
#[local] Hint Resolve no_write_justified : core.

Lemma reads_justified o l e : op_reads e = true → upgrade_justified o l e.
Proof. intros He. apply no_write_justified. destruct e as [R c r]. by destruct c. Qed.

Lemma status_justified o o' l e : writes_status o' l e → upgrade_justified o l e.
Proof. intros (? & ? & _ & _ & Hs). apply no_write_justified. destruct e as [R c r]. by destruct c. Qed.

Lemma like_on_status o f o' : like o o' → like o (on_status f o').
Proof. intros ->. by destruct o. Qed.

Lemma kept_like o o' : like o o' → kept o o'.
Proof. intros ->. destruct o. split_and!; auto. Qed.

Lemma kept_without o o' : like o o' → kept o (without_update o').
Proof. intros ->. destruct o. split_and!; simpl; auto. Qed.

Lemma like_switched o o' b package : like o o' → like (switched o b package) (switched o' b package).
Proof. intros ->. by destruct o. Qed.

Lemma like_writes o o' l e : like o o' → writes_object o' l e → writes_object o l e.
Proof. intros ->. by destruct o. Qed.

Lemma began_more o l l' live : began_with o l live → l `prefix_of` l' → began_with o l' live.
Proof. intros Hl Hpre. unfold began_with. by etrans. Qed.
Lemma install_failed_more o l l' : install_failed o l → l `prefix_of` l' → install_failed o l'.
Proof. intros (pk & ie & Hl & Hi & ?) Hpre. exists pk, ie. split_and!; [by eapply elem_of_prefix|by eapply elem_of_prefix|done]. Qed.
Lemma found_unusable_more o l l' : found_unusable o l → l `prefix_of` l' → found_unusable o l'.
Proof.
  intros (pks & Hl & Hwhy) Hpre. exists pks. split; [by eapply elem_of_prefix|].
  destruct Hwhy as [?|(pk & ? & Hwhy)]; [by left|right]. exists pk. split; [done|].
  assert (Hin : ∀ e, e ∈ l → e ∈ l') by (intros e He; by eapply elem_of_prefix). naive_solver.
Qed.

(** Dropping the request. *)
Lemma clear_spec o o' live tr :
  like o o' → began_with o tr live → (install_failed o tr ∨ found_unusable o tr ∧ timed_out o) →
  spec (upgrade_justified o) (clearUpgradeAnnotation live o') tr (λ _ o'', kept o o'').
Proof.
  intros Hlike Hlive Hwhy. unfold clearUpgradeAnnotation.
  apply (spec_bind _ _ _ (λ _ _, True)); [|intros; apply spec_ret; by apply kept_without].
  eapply spec_mono; [|done]. apply UpdateOperator_spec; [apply reads_justified|].
  intros l e Hpre Hw _. right. exists live. split; [by eapply began_more|]. split; [done|].
  destruct Hwhy as [?|[? ?]]; [left; by eapply install_failed_more|right; split; [by eapply found_unusable_more|done]].
Qed.

Lemma mark_spec_upgrade version reason og c e c' :
  markPackageUnavailable now version reason og c = (e, c') → e_kind e = PackageUnavailableExceeded →
  c_status c = ConditionUnknown ∧ contains ("version=" +:+ version) (c_message c) = true ∧
  (defaultUpgradePackageUnavailableTimeout ≤ now - c_lastTransitionTime c)%Z.
Proof.
  unfold markPackageUnavailable. cbv zeta. set (sub := "version=" +:+ version).
  destruct (String.eqb_spec (c_status c) ConditionUnknown) as [Hu|Hu], (contains sub (c_message c)) eqn:Hc; cbn [negb orb];
    destruct (Z.ltb_spec (now - now) defaultUpgradePackageUnavailableTimeout) as [|Hbad];
    try (unfold defaultUpgradePackageUnavailableTimeout in Hbad; lia); try (intros [= <- <-]; done).
  destruct (Z.ltb_spec (now - c_lastTransitionTime c) defaultUpgradePackageUnavailableTimeout); intros [= <- <-]; done.
Qed.

Lemma unavailable_spec o p o' live tr reason :
  upgrading o p o' → began_with o tr live → found_unusable o tr →
  spec (upgrade_justified o) (unavailable now p live ((mo_annotations o).[LabelUpdate]) reason o') tr (λ _ r, kept o r.2).
Proof.
  intros [Hlike Hp] Hlive Hfound. unfold unavailable.
  destruct (os_conditions (mo_status o') !! p) as [c|]; [|apply spec_ret; by apply kept_like].
  destruct (markPackageUnavailable _ _ _ _ c) as [e c'] eqn:Hm. cbv zeta.
  assert (Hlike' := like_on_status o (λ st, with_conditions (<[p:=c']> (os_conditions st)) st) o' Hlike).
  case_decide as Hk; [|apply spec_ret; by apply kept_like].
  eapply spec_bind; [apply clear_spec; [done|done|]|intros; by apply spec_ret].
  right. split; [done|]. exists c. split; [done|]. by eapply mark_spec_upgrade.
Qed.

(** The switch. *)
Definition upgrade_outcome o tr (r : outcome) : Prop :=
  match r.1.1 with Some _ => kept o r.2 | None => upgraded o tr r.2 end.

Lemma failing_outcome o tr e o' : kept o o' → upgrade_outcome o tr (failing e o').
Proof. done. Qed.

Lemma switch_spec o p o' live tr package installErr :
  upgrading o p o' → began_with o tr live → listed_packages o tr [package] →
  Ev (GetInstallStatus package) (Ok (true, installErr)) ∈ tr →
  spec (upgrade_justified o) (switch_package now p live ((mo_annotations o).[LabelUpdate]) package o') tr (upgrade_outcome o).
Proof.
  intros [Hlike Hp] Hlive Hlist Hinst. unfold switch_package. cbv zeta.
  destruct (skipNoOperatorResource o') as [skip o1] eqn:Hskip.
  assert (Ho1 : upgrading o p o1 ∧ (skip = None ∨ IsNoOperatorResource o = true) ∧ targetUpgradeBaseline o' = targetUpgradeBaseline o).
  { unfold skipNoOperatorResource in Hskip. assert (Hno : IsNoOperatorResource o' = IsNoOperatorResource o) by (rewrite Hlike; by destruct o).
    assert (Ht : targetUpgradeBaseline o' = targetUpgradeBaseline o) by (rewrite Hlike; by destruct o).
    destruct (IsNoOperatorResource o') eqn:Hn; injection Hskip as <- <-; (split; [|auto]); (split; [|done]); [by apply like_on_status|done]. }
  destruct Ho1 as ([Hlike1 Hp1] & Hno & Hbase). rewrite Hbase.
  apply (spec_bind _ _ _ (λ tr' missing, missing = None →
    IsNoOperatorResource o = true ∨ Ev (GetBaselineFromPackage (targetUpgradeBaseline o) package) None ∈ tr')).
  { destruct skip as [e|]; [apply spec_ret; naive_solver|]. apply spec_call; [intros; by apply no_write_justified|].
    intros r ->. right. apply elem_of_app. right. by left. }
  intros tr1 [e|] Hpre1 Hbl; [apply spec_ret; by apply kept_like|]. specialize (Hbl eq_refl).
  eapply (spec_bind _ _ _ (λ tr' r, Ev (GetPackageEnabled package) r ∈ tr'));
    [apply spec_call; [intros; by apply no_write_justified|intros; apply elem_of_app; right; by left]|].
  intros tr2 enabled Hpre2 Hen.
  assert (Hlive2 : began_with o tr2 live) by (eapply began_more; [exact Hlive|by etrans]).
  assert (Hlist2 : listed_packages o tr2 [package]) by (eapply elem_of_prefix; [exact Hlist|by etrans]).
  assert (Hlater : ∀ r, found_unusable o tr2 → spec (upgrade_justified o) (unavailable now p live ((mo_annotations o).[LabelUpdate]) r o1 ≫= λ '(e, o), Ret (failing e o))
    tr2 (upgrade_outcome o)).
  { intros r Hf. eapply spec_bind; [by apply unavailable_spec|]. intros tr3 [e o2] _ ?. by apply spec_ret. }
  destruct enabled as [[]|e]; [|(apply Hlater; exists [package]; split; [done|right; exists package; split; [done|by eauto 10]])..].
  set (new := switched o1 _ _).
  assert (Hsw : ∀ l e, tr2 `prefix_of` l → writes_object new l e → switching o l e).
  { intros l e Hpre Hw. assert (Hin : ∀ e', e' ∈ tr2 → e' ∈ l) by (intros; by eapply elem_of_prefix).
    exists package, installErr. split_and!; [by apply Hin|apply Hin; eapply elem_of_prefix; [eassumption|by etrans]|by apply Hin| |].
    - destruct Hbl as [?|Hb]; [by left|right]. apply Hin. eapply elem_of_prefix; [exact Hb|done].
    - eapply like_writes; [|exact Hw]. by apply like_switched. }
  eapply spec_bind; [apply UpdateOperator_spec; [apply reads_justified|]; intros l e Hpre Hw _; left; by apply Hsw|].
  intros tr3 [e|] Hpre3 Hok; [apply spec_ret; by apply kept_like|].
  destruct (Hok eq_refl) as (l & e & Hl & -> & Hw & He).
  assert (Hdone : ∀ k st, upgraded o ((l ++ [e]) ++ k) (with_status st new)).
  { intros k st. exists package, l, e. split_and!; [|by apply Hsw| |by rewrite He; eexists|].
    - apply elem_of_app. left. apply elem_of_app. right. by left.
    - rewrite <- app_assoc. by apply prefix_app_r.
    - unfold new. rewrite (like_switched _ _ (targetUpgradeBaseline o) package Hlike1). by destruct o. }
  eapply spec_bind; [apply read_spec, reads_justified|]. intros tr4 r [k ->] _. apply spec_ret.
  specialize (Hdone k (mo_status new)). by destruct new.
Qed.
Lemma upgrade_body_spec o p o' live tr :
  upgrading o p o' → began_with o tr live →
  spec (upgrade_justified o) (upgrade_body now p live o') tr (upgrade_outcome o).
Proof.
  intros Hup Hlive. pose proof Hup as [Hlike _]. unfold upgrade_body. cbv zeta.
  assert (mo_annotations o' = mo_annotations o ∧ mo_labels o' = mo_labels o) as [-> ->] by (rewrite Hlike; by destruct o).
  assert (Hlater : ∀ r tr', tr `prefix_of` tr' → found_unusable o tr' → spec (upgrade_justified o)
    (unavailable now p live ((mo_annotations o).[LabelUpdate]) r o' ≫= λ '(e, o), Ret (failing e o)) tr' (upgrade_outcome o)).
  { intros r tr' Hpre Hf. eapply spec_bind; [apply unavailable_spec; [done|by eapply began_more|done]|].
    intros tr3 [e o2] _ ?. by apply spec_ret. }
  set (list := ListCompatiblePackages _ _).
  eapply (spec_bind _ _ _ (λ tr' r, Ev list r ∈ tr'));
    [apply spec_call; [intros; by apply no_write_justified|intros; apply elem_of_app; right; by left]|].
  intros tr1 [[|package [|]]|e] Hpre1 Hlist; [| | |apply spec_ret; by apply kept_like];
    [apply Hlater; [done|]; eexists; split; [exact Hlist|by left]| |apply Hlater; [done|]; eexists; split; [exact Hlist|by left]].
  eapply (spec_bind _ _ _ (λ tr' r, Ev (GetInstallStatus package) r ∈ tr'));
    [apply spec_call; [intros; by apply no_write_justified|intros; apply elem_of_app; right; by left]|].
  intros tr2 status Hpre2 Hinst.
  assert (Hpre : tr `prefix_of` tr2) by (by etrans). assert (Hlive2 : began_with o tr2 live) by (by eapply began_more).
  assert (Hlist2 : listed_packages o tr2 [package]) by (by eapply elem_of_prefix).
  assert (Hbad : ∀ r, Ev (GetInstallStatus package) r ∈ tr2 → (r = Ok (false, "") ∨ ∃ e, r = Err e) → found_unusable o tr2).
  { intros r Hr Hwhy. exists [package]. split; [done|]. right. exists package. split; [done|]. naive_solver. }
  destruct status as [[[] installErr]|e]; [|destruct (String.eqb_spec installErr "") as [->|]|apply Hlater; [done|by eauto]].
  - by eapply switch_spec.
  - apply Hlater; [done|]. by eauto.
  - eapply spec_bind; [apply clear_spec; [done|done|left; by exists package, installErr]|]. intros tr3 o2 _ ?. by apply spec_ret.
Qed.

Lemma kept_trans o o1 o2 : kept o o1 → like o1 o2 → kept o o2.
Proof. intros (? & ? & ?) ->. by destruct o1. Qed.

Lemma upgraded_trans o tr tr' o1 o2 : upgraded o tr o1 → tr `prefix_of` tr' → like o1 o2 → upgraded o tr' o2.
Proof.
  intros (package & l & e & Hin & Hsw & Hl & Hnew & Ho) Hpre Hlike. exists package, l, e.
  split_and!; [by eapply elem_of_prefix|done|by etrans|done|]. rewrite Hlike, Ho. by destruct o.
Qed.

Definition upgrade_result o tr (r : option error * operator) : Prop :=
  match mo_annotations o !! LabelUpdate with
  | None => r = (None, o)
  | Some _ =>
      match r.1 with
      | Some _ => kept o r.2
      | None => upgraded o tr r.2 ∨ (condition_status now CondTypeChecked (os_conditions (mo_status o))).1 ≠ ConditionTrue ∧ kept o r.2
      end
  end.

Lemma like_report p err o : like o (report_upgrade now p err o).
Proof.
  unfold report_upgrade. assert (Hr : like o o) by (by destruct o).
  destruct err as [e|]; [case_decide; [done|]|]; by apply like_on_status.
Qed.

Lemma ReplacePackage_spec o :
  spec (upgrade_justified o) (ReplacePackage_operator reader now o) [] (upgrade_result o).
Proof.
  unfold ReplacePackage_operator, upgrade_result. destruct (mo_annotations o !! LabelUpdate); [|by apply spec_ret].
  assert (Hkept : kept o o) by (apply kept_like; by destruct o).
  apply (spec_bind _ _ _ (λ tr r, match r with Ok live => began_with o tr live | Err _ => True end)).
  { unfold GetMiddlewareOperator.
    eapply (spec_bind _ _ _ (λ tr' r, tr' = [Ev (OpGet (mo_name o) (mo_namespace o)) r]));
      [apply spec_call; [intros; by apply no_write_justified|done]|].
    intros tr [live|e] _ Hin; [|by apply spec_ret]. eapply (spec_bind _ _ _ (λ _ _, True)).
    - apply spec_call; [intros; by apply no_write_justified|done].
    - intros tr' u Hpre _. apply spec_ret. unfold began_with. by rewrite <- Hin. }
  intros tr1 [live|e] _ Hlive; [|by apply spec_ret].
  destruct (mo_annotations live !! LabelUpdate); [|by apply spec_ret].
  destruct (condition_status now CondTypeChecked _) as [checked cs] eqn:Hcs.
  destruct (GetCondition now cs CondTypeUpdating) as [cs' q] eqn:Hq. cbv zeta. set (p := default (length cs') q).
  set (o1 := on_status _ o).
  assert (Hup : upgrading o p o1).
  { split; [apply like_on_status; by destruct o|]. unfold updating_condition. rewrite Hcs. simpl. rewrite Hq. unfold o1, p. simpl.
    destruct q as [i|]; [done|]. by apply lookup_ge_None. }
  clearbody o1 p. eapply spec_bind; [apply UpdateStatus_spec; [apply reads_justified|intros; by eapply status_justified]|].
  intros tr2 [[e|] o2] Hpre2 (Hlike2 & Hconds & _); simpl in *; destruct Hup as [Hlike Hp].
  all: assert (Hup2 : upgrading o p o2) by (split; [rewrite Hlike2, Hlike; by destruct o|by rewrite Hconds]).
  { apply spec_ret. apply kept_like. apply Hup2. }
  eapply (spec_bind _ _ _ (λ tr r, upgrade_outcome o tr r ∨ r.1.1 = None ∧ checked ≠ ConditionTrue ∧ kept o r.2)).
  { case_decide; [|apply spec_ret; right; split_and!; [done|done|apply kept_like; apply Hup2]].
    eapply spec_mono; [apply upgrade_body_spec; [done|by eapply began_more]|]. by left. }
  intros tr3 [[ret err] o3] Hpre3 Hout. simpl in *.
  eapply spec_bind; [apply UpdateStatus_spec; [apply reads_justified|intros; by eapply status_justified]|].
  intros tr4 [e4 o4] Hpre4 (Hlike4 & _). simpl in *. apply spec_ret. simpl.
  assert (Hlike34 : like o3 o4).
  { rewrite Hlike4. pose proof (like_report p err o3) as Hr. rewrite Hr. by destruct o3. }
  unfold upgrade_outcome in Hout. simpl in Hout. destruct ret as [e|].
  - destruct Hout as [?|[? _]]; [by eapply kept_trans|done].
  - destruct Hout as [?|(_ & ? & ?)]; [left; by eapply upgraded_trans|right; split; [done|by eapply kept_trans]].
Qed.

End Proofs.

(** ** Runs at concrete inputs *)

Section Witness.
Definition demo_condition (t s : string) : condition := Condition t s 1 5 "" "".
Definition demo_operator (checked : string) : operator :=
  MiddlewareOperator "redis-op" "prod" "uid-o" 1 None
    {[LabelComponent := "redis"; LabelPackageName := "redis-1"; LabelPackageVersion := "1.0"]} {[LabelUpdate := "2.0"]} [FinalizerMiddlewareOperator]
    (MiddlewareOperatorSpec "base" None [] "Namespace" [] "{}" [])
    (MiddlewareOperatorStatus 1 [demo_condition CondTypeChecked checked] "" ∅ "" "" false "" [] 0).

(** A server with that operator whose writes succeed, and a package of version
    2.0 which holds the baseline or not. *)
Definition demo_server (o : operator) (missing : option error) : handler ocall unit := λ R c w,
  (match c in ocall R return R with
   | OpGet _ _ | OpReaderGet _ _ => Ok o
   | OpUpdate _ | OpStatusUpdate _ => None
   | OpCacheSet _ _ | OpCacheDelete _ => tt
   | OpCacheGet _ => Some o
   | ListCompatiblePackages _ _ => Ok ["redis-2"]
   | GetInstallStatus _ => Ok (true, "")
   | GetPackageEnabled _ => Ok true
   | GetBaselineFromPackage _ _ => missing
   | HydrateDeleteContext o | RenderWithBaseline o | HandlePreActions o => (None, o)
   | DeleteRenderedConfigurations _ => None
   | ReconcileConfigurations _ _ l => Ok l
   | RbacCreate _ | RbacCreateOrUpdate _ | RbacDelete _ => None
   | DepGet _ _ => Err (Error NotFound "")
   | DepCreate _ | DepUpdate _ | DepPatch _ _ | DepDelete _ => None
   end, tt).

Definition demo_upgrade (o : operator) (missing : option error) : option error * operator * list oevent :=
  run (demo_server o missing) (@ReplacePackage_operator meta_by_list (bounded_retry is_conflict 4) false 7 o) tt.
Definition statuses (tr : list oevent) : list (list (string * string)) :=
  (λ o, (λ c, (c_type c, c_status c)) <$> os_conditions (mo_status o)) <$> omap op_status_write tr.


(** A baseline that the target package lacks: the error is returned, but the
    deferred function sees another variable, so the Updating condition is
    written as True, with the message of a success. *)
Lemma missing_baseline_reported_as_success :
  let '(r, tr) := demo_upgrade (demo_operator ConditionTrue) (Some (Error NotFound "no baseline")) in
  e_kind <$> r.1 = Some NotFound ∧ last (statuses tr) = Some [(CondTypeChecked, ConditionTrue); (CondTypeUpdating, ConditionTrue)].
Proof. vm_compute. split; reflexivity. Qed.

(** An operator that failed its check is not upgraded, and the same success is
    reported, although the request is still there. *)
Lemma unchecked_upgrade_reported_as_success :
  let '(r, tr) := demo_upgrade (demo_operator ConditionFalse) None in
  r.1 = None ∧ mo_annotations r.2 !! LabelUpdate = Some "2.0" ∧ omap op_write tr = [] ∧
  last (statuses tr) = Some [(CondTypeChecked, ConditionFalse); (CondTypeUpdating, ConditionTrue)].
Proof. vm_compute. split_and!; reflexivity. Qed.

(** The clock of the timeout is restarted when the target version changes, but
    not when the new version is a prefix of the old one. *)
Lemma timeout_not_restarted_for_prefix :
  let c := Condition CondTypeUpdating ConditionUnknown 1 5 CondReasonIniting (packageUnavailableMessage "1.2.3" "r") in
  e_kind (markPackageUnavailable 60 "1.2" "r" 1 c).1 = PackageUnavailableExceeded ∧
  e_kind (markPackageUnavailable 60 "2.0" "r" 1 c).1 = PackageNotReady.
Proof. vm_compute. split; reflexivity. Qed.
End Witness.
