(* ===== verification/OperatorResources.v ===== *)
(** * The resources of an operator

    [HandleResource] of [internal/service/middlewareoperator]: the
    configurations, the RBAC objects ([rbac.go]) and the Deployment
    ([deployment.go], over [internal/k8s/deployment.go]) of an operator.
    Rendering and the pre-actions are calls. *)
From Stdlib Require Import ZArith Lia.
From stdpp Require Import base gmap strings list option.
From S2P Require Import Prelude Labels Conditions Prog Json Adoption JsonTools Middleware WorkloadPhase Operator OperatorUpgrade.

(** [PermissionScopeCluster], api/v1/common.go *)
Definition PermissionScopeCluster : string := "Cluster".
(** [PermissionScopeNamespace], api/v1/common.go *)
Definition PermissionScopeNamespace : string := "Namespace".

(** The JSON of a Deployment's spec, and the texts of JSON values that gjson and
    [fmt] write. *)
Class SpecText := {
  encode_deployment_spec : deployment_spec → json;
  result_text : json → string;
  sprint_text : json → string;
}.

(** [CompareDeploymentSpec], internal/k8s/deployment.go *)
Definition CompareDeploymentSpec `{!JsonLib, !MapOrder, !SpecText} (new old : option operator_deployment) : result error bool :=
  match new, old with
  | Some new, Some old =>
      CompareJson result_text sprint_text (encode_deployment_spec (od_spec new)) (encode_deployment_spec (od_spec old))
  | None, None => Ok true
  | _, _ => Ok false
  end.

Section Resources.
Context `{!MetaConditions, !RetryOnConflict ocall error is_conflict}.
Context (reader : bool) (now : Z).
(** Why [ctrl.SetControllerReference] refuses the operator as owner of a new
    object, and the JSON decoder of a Deployment. *)
Context (ControllerReference : operator → option error).
Context (UnmarshalDeployment : string → result error operator_deployment).
Context `{!JsonLib, !MapOrder, !SpecText}.
Implicit Types (o : operator) (a : action).

Definition is_delete a : bool := match a with HandleActionDelete => true | _ => false end.

(** The condition of a type is there afterwards. *)
Definition touch_condition (t : string) o : operator :=
  on_status (λ st, with_conditions (GetCondition now (os_conditions st) t).1 st) o.

(** ** Deployments ([internal/k8s/deployment.go]) *)

(** [CreateDeployment], internal/k8s/deployment.go *)
Definition CreateDeployment (d : operator_deployment) : oprog (option error) :=
  r ← call (DepGet (od_name d) (od_namespace d));
  match r with
  | Ok _ => Ret None
  | Err e => if is_not_found e then call (DepCreate d) else Ret (Some (wrap_error "get deployment error" e))
  end.

(** [DeleteDeployment], internal/k8s/deployment.go *)
Definition DeleteDeployment (name namespace : string) : oprog (option error) :=
  r ← call (DepGet name namespace);
  match r with Ok d => call (DepDelete d) | Err e => Ret (Some e) end.

(** [UpdateDeployment], internal/k8s/deployment.go *)
Definition UpdateDeployment (d : operator_deployment) : oprog (option error) :=
  r ← retry tt (λ _,
    r ← call (DepGet (od_name d) (od_namespace d));
    match r with
    | Err e => Ret (Some e, tt)
    | Ok new =>
        err ← call (DepUpdate (OperatorDeployment (od_name new) (od_namespace new) (od_labels new) (od_controller new) (od_spec d)));
        Ret (err, tt)
    end);
  Ret r.1.

(** The selector and the labels of the template stay. *)
(** [PatchDeployment], internal/k8s/deployment.go *)
Definition PatchDeployment (d : operator_deployment) : oprog (option error) :=
  r ← retry tt (λ _,
    r ← call (DepGet (od_name d) (od_namespace d));
    match r with
    | Err e => Ret (Some e, tt)
    | Ok current =>
        let spec := DeploymentSpec (dsp_selector (od_spec current)) (dsp_templateLabels (od_spec current))
                      (dsp_containers (od_spec d)) (dsp_rest (od_spec d)) in
        err ← call (DepPatch current (OperatorDeployment (od_name current) (od_namespace current) (od_labels current)
                      (od_controller current) spec));
        Ret (err, tt)
    end);
  Ret r.1.

(** [CreateOrPatchDeployment], internal/k8s/deployment.go *)
Definition CreateOrPatchDeployment (d : operator_deployment) : oprog (option error) :=
  r ← call (DepGet (od_name d) (od_namespace d));
  match r with
  | Ok _ => PatchDeployment d
  | Err e => if is_not_found e then CreateDeployment d else Ret (Some e)
  end.

Definition owned_deployment o (d : operator_deployment) : operator_deployment :=
  OperatorDeployment (mo_name o) (mo_namespace o) (mo_labels o) (Some (mo_uid o)) (od_spec d).

(** [buildDeployment], internal/service/middlewareoperator/deployment.go:61-130 *)
Definition build_deployment_body a o : oprog (option error) :=
  match a with
  | HandleActionDelete =>
      err ← DeleteDeployment (mo_name o) (mo_namespace o);
      Ret (match err with
           | Some e => if is_not_found e then None else Some (wrap_error "delete deployment error" e)
           | None => None
           end)
  | _ =>
      match UnmarshalDeployment (op_deployment (mo_spec o)) with
      | Err e => Ret (Some (wrap_error "unmarshal deployment error" e))
      | Ok d =>
          if bool_decide (dsp_containers (od_spec d) = []) then Ret None
          else match ControllerReference o with
          | Some e => Ret (Some (wrap_error "set controller reference error" e))
          | None =>
              match a with
              | HandleActionUpdate =>
                  err ← CreateOrPatchDeployment (owned_deployment o d);
                  Ret (option_map (wrap_error "update deployment error") err)
              | _ =>
                  err ← CreateDeployment (owned_deployment o d);
                  Ret (option_map (wrap_error "create deployment error") err)
              end
          end
      end
  end.

(** The deferred report of a step: its condition and the status write. *)
Definition report_step (t : string) a (err : option error) o : oprog (option error * operator) :=
  if is_delete a then Ret (None, o) else UpdateMiddlewareOperatorStatus reader (set_outcome now t err o).

(** [buildDeployment], internal/service/middlewareoperator/deployment.go *)
Definition buildDeployment a o : oprog (option error * operator) :=
  let o := touch_condition CondTypeApplyOperator o in
  err ← build_deployment_body a o;
  '(statusErr, o) ← report_step CondTypeApplyOperator a err o;
  Ret (match statusErr with Some e => Some e | None => err end, o).

(** ** RBAC ([rbac.go]) *)

Definition ignore_not_found (err : option error) : option error :=
  match err with Some e => if is_not_found e then None else Some e | None => None end.

Definition rbac_write a (r : rbac_object) : oprog (option error) :=
  match a with
  | HandleActionPublish => call (RbacCreate r)
  | HandleActionUpdate => call (RbacCreateOrUpdate r)
  | HandleActionDelete => err ← call (RbacDelete r); Ret (ignore_not_found err)
  end.

Definition rbac_of (kind : rbac_kind) (p : permission) o (owner : option string) : rbac_object :=
  let ns := match kind with ClusterRole | ClusterRoleBinding => "" | _ => mo_namespace o end in
  let rules := match kind with Role | ClusterRole => pm_rules p | _ => [] end in
  RBAC kind ns (pm_serviceAccountName p) (mo_labels o) rules owner (mo_namespace o).

(** [handleServiceAccount], internal/service/middlewareoperator/rbac.go *)
Definition handleServiceAccount (p : permission) a o : oprog (option error) :=
  if is_delete a then rbac_write a (rbac_of ServiceAccount p o None)
  else match ControllerReference o with
  | Some e => Ret (Some (wrap_error "set controller reference error" e))
  | None => rbac_write a (rbac_of ServiceAccount p o (Some (mo_uid o)))
  end.

(** A namespaced object gets its owner before the action is looked at; a
    cluster-wide one gets none; an unknown scope has neither. *)
Definition scoped (namespaced cluster : rbac_kind) (p : permission) a o : oprog (option error) :=
  if String.eqb (op_permissionScope (mo_spec o)) PermissionScopeCluster then rbac_write a (rbac_of cluster p o None)
  else if String.eqb (op_permissionScope (mo_spec o)) PermissionScopeNamespace then
    match ControllerReference o with
    | Some e => Ret (Some (wrap_error "set controller reference error" e))
    | None => rbac_write a (rbac_of namespaced p o (Some (mo_uid o)))
    end
  else Ret None.

(** [handleRole], internal/service/middlewareoperator/rbac.go *)
Definition handleRole : permission → action → operator → oprog (option error) := scoped Role ClusterRole.
(** [handleRoleBinding], internal/service/middlewareoperator/rbac.go *)
Definition handleRoleBinding : permission → action → operator → oprog (option error) := scoped RoleBinding ClusterRoleBinding.

Definition note_error (what : string) (err : option error) : list string :=
  match err with Some e => [what +:+ " error: " +:+ e_msg e] | None => [] end.

(** The errors met. *)
(** [handleRBAC], internal/service/middlewareoperator/rbac.go:63-108 *)
Fixpoint handle_permissions (ps : list permission) a o : oprog (list string) :=
  match ps with
  | [] => Ret []
  | p :: ps =>
      e1 ← handleServiceAccount p a o; e2 ← handleRole p a o; e3 ← handleRoleBinding p a o;
      errs ← handle_permissions ps a o;
      Ret (note_error "service account" e1 ++ note_error "role" e2 ++ note_error "role binding" e3 ++ errs)
  end.

(** Without an error of its own when deleting. *)
(** [handleRBAC], internal/service/middlewareoperator/rbac.go *)
Definition handleRBAC a o : oprog (option error * operator) :=
  let o := touch_condition CondTypeApplyRBAC o in
  errs ← handle_permissions (op_permissions (mo_spec o)) a o;
  let err := if is_delete a || bool_decide (errs = []) then None else Some (new_error (String.concat ";" errs)) in
  '(statusErr, o) ← report_step CondTypeApplyRBAC a err o;
  Ret (match statusErr with Some e => Some e | None => err end, o).

(** ** Configurations *)

(** A failed status write is only logged. *)
(** [handleExtraResource], internal/service/middlewareoperator/middlewareoperator.go *)
Definition handleExtraResource_operator a o : oprog (option error * operator) :=
  let o := touch_condition CondTypeBuildExtraResource o in
  '(err, o) ← (match a with
    | HandleActionDelete => err ← call (DeleteRenderedConfigurations o); Ret (err, o)
    | _ =>
        r ← call (ReconcileConfigurations a o (os_rendered (mo_status o)));
        match r with
        | Err e => Ret (Some e, o)
        | Ok inventory => Ret (None, on_status (with_inventory inventory (mo_generation o)) o)
        end
    end);
  '(_, o) ← report_step CondTypeBuildExtraResource a err o;
  Ret (err, o).

(** ** [HandleResource] *)

(** [TemplateParseWithBaseline], internal/service/middlewareoperator/middlewareoperator.go *)
Definition TemplateParse_operator o : oprog (option error * operator) :=
  '(err, o) ← call (RenderWithBaseline o);
  match err with
  | Some e => Ret (Some e, o)
  | None => '(err, o) ← call (HandlePreActions o); Ret (option_map (wrap_error "handle preActions error") err, o)
  end.

(** [HandleResource], internal/service/middlewareoperator/middlewareoperator.go:372-398 *)
Definition delete_resources o : oprog (option error * operator) :=
  '(err, o) ← call (HydrateDeleteContext o);
  match err with
  | Some e => Ret (Some (wrap_error "hydrate delete context error" e), o)
  | None =>
      '(err, o) ← handleExtraResource_operator HandleActionDelete o;
      match err with
      | Some e => Ret (Some e, o)
      | None =>
          '(_, o) ← handleRBAC HandleActionDelete o;
          err ← DeleteDeployment (mo_name o) (mo_namespace o);
          Ret (match err with
               | Some e => if is_not_found e then None else Some (wrap_error "delete deployment error" e)
               | None => None
               end, o)
      end
  end.

(** One step, and the next with the object it leaves. *)
Definition and_then (p : oprog (option error * operator)) (f : operator → oprog (option error * operator)) :
    oprog (option error * operator) :=
  '(err, o) ← p; match err with Some e => Ret (Some e, o) | None => f o end.

(** [HandleResource], internal/service/middlewareoperator/middlewareoperator.go:400-436 *)
Definition apply_resources a o : oprog (option error * operator) :=
  let '(checked, cs) := condition_status now CondTypeChecked (os_conditions (mo_status o)) in
  let o := on_status (with_conditions cs) o in
  if decide (checked = ConditionTrue) then
    and_then (TemplateParse_operator o) (λ o,
    and_then (handleExtraResource_operator a o) (λ o,
    and_then (handleRBAC a o) (λ o,
    '(err, o) ← buildDeployment a o; Ret (option_map (wrap_error "build deployment error") err, o))))
  else Ret (None, o).

(** [HandleResource], internal/service/middlewareoperator/middlewareoperator.go *)
Definition HandleResource_operator a o : oprog (option error * operator) :=
  if negb (is_delete a) && IsReconcileSuspended (mo_annotations o) then Ret (None, o)
  else if is_delete a && IsNoOperatorResource o then Ret (None, o)
  else
    let '(skip, o) := skipNoOperatorResource o in
    match skip with
    | Some e => Ret (Some e, o)
    | None => if is_delete a then delete_resources o else apply_resources a o
    end.

(** ** Drift of the Deployment *)

(** [CompareDeployment], internal/service/middlewareoperator/deployment.go *)
Definition CompareDeployment (d : operator_deployment) o : oprog (option error) :=
  if IsReconcileSuspended (mo_annotations o) then Ret None
  else
    '(err, o) ← TemplateParse_operator o;
    match err with
    | Some e => Ret (Some e)
    | None =>
        match UnmarshalDeployment (op_deployment (mo_spec o)) with
        | Err e => Ret (Some (wrap_error "unmarshal old deployment error" e))
        | Ok old =>
            match CompareDeploymentSpec (Some d) (Some old) with
            | Err e => Ret (Some (wrap_error "compare deployment error" e))
            | Ok true => Ret None
            | Ok false =>
                match ControllerReference o with
                | Some e => Ret (Some (wrap_error "set controller reference error" e))
                | None =>
                    err ← UpdateDeployment (owned_deployment o old);
                    Ret (option_map (wrap_error "update deployment error") err)
                end
            end
        end
    end.
End Resources.
