(* ===== verification/OperatorController.v ===== *)
(** * The MiddlewareOperator controller

    [internal/controller/middlewareoperator_controller.go], as a program over
    the calls of [Operator]. *)
From Stdlib Require Import ZArith Lia.
From stdpp Require Import base gmap strings list option.
From S2P Require Import Prelude Labels Conditions Prog Json Adoption JsonTools Middleware MiddlewareController WorkloadPhase Operator OperatorUpgrade OperatorResources.

Section Controller.
Context `{!MetaConditions, !ControllerUtil, !RetryOnConflict ocall error is_conflict}.
Context (reader : bool) (now : Z).
Context (ControllerReference : operator → option error).
Context (UnmarshalDeployment : string → result error operator_deployment).
Context `{!JsonLib, !MapOrder, !SpecText}.
Implicit Types (o : operator) (a : action).

Abbreviation HandleResource := (HandleResource_operator reader now ControllerReference UnmarshalDeployment).

(** *** The reported status *)

Definition no_operator_error (retErr : option error) : bool :=
  match retErr with Some e => bool_decide (e_kind e = NoOperator) | None => false end.

(** The state, the reason and the conditions. *)
(** [handleMiddlewareOperator], internal/controller/middlewareoperator_controller.go:205-251 *)
Definition operator_report o (retErr : option error) : string * string * list condition :=
  let cs := os_conditions (mo_status o) in
  if IsNoOperatorResource o || no_operator_error retErr then (StateAvailable, "", cs)
  else
    let cs := drop_stale_updating (mo_annotations o) cs in
    let '(state, reason) := match currentFalseCondition cs (mo_generation o) with
      | Some c => (StateUnavailable, c_message c) | None => (StateAvailable, "") end in
    let '(state, reason) := match retErr with
      | Some e => if decide (state = StateAvailable) then (StateUnavailable, e_msg e) else (state, reason)
      | None => (state, reason) end in
    let '(state, reason) := match mo_annotations o !! LabelUpdate with
      | Some _ => if decide (state = StateAvailable) then (StateUpdating, "") else (state, reason)
      | None => (state, reason) end in
    (state, reason, cs).

(** [handleMiddlewareOperator], internal/controller/middlewareoperator_controller.go:201-266 *)
Definition operator_converge o (retErr : option error) : operator_status :=
  let '(state, reason, cs) := operator_report o retErr in
  let st := with_state state reason (with_conditions cs (mo_status o)) in
  let noOperator := IsNoOperatorResource o || no_operator_error retErr in
  if (bool_decide (retErr = None) || noOperator) && negb (String.eqb state StateUpdating) &&
     (os_observedGeneration st <? mo_generation o)%Z
  then with_observed (mo_generation o) st else st.

(** *** One pass *)

(** [handleMiddlewareOperator], internal/controller/middlewareoperator_controller.go:142-150 *)
Definition remove_operator_finalizer o : oprog (option error) :=
  r ← retry tt (λ _,
    r ← call (OpGet (mo_name o) (mo_namespace o));
    match r with
    | Err e => Ret (Some e, tt)
    | Ok latest =>
        err ← call (OpUpdate (with_finalizers (RemoveFinalizer (mo_finalizers latest) FinalizerMiddlewareOperator) latest));
        Ret (err, tt)
    end);
  Ret r.1.

(** The deletion of an operator that carries the finalizer. *)
(** [handleMiddlewareOperator], internal/controller/middlewareoperator_controller.go:113-163 *)
Definition delete_operator o : oprog (option error) :=
  rc ← operator_delete_context o;
  match rc with
  | (_, _, _, Some resolveErr) => Ret (Some resolveErr)
  | (None, _, _, None) => Ret None   (** not returned by [operator_delete_context] *)
  | (Some resolved, _, _, None) =>
      r ← HandleResource HandleActionDelete resolved;
      match r.1 with
      | Some cleanErr => Ret (Some cleanErr)
      | None =>
          err ← remove_operator_finalizer o;
          match err with
          | Some e => Ret (Some e)
          | None => _ ← call (OpCacheDelete (namespaced_name (mo_namespace o) (mo_name o))); Ret None
          end
      end
  end.

(** After a successful pass the pause marker goes, if the operator is checked. *)
Definition clear_paused (wasPaused : bool) o : operator :=
  if wasPaused && bool_decide ((condition_status now CondTypeChecked (os_conditions (mo_status o))).1 = ConditionTrue)
  then on_status (λ st, with_conditions
    (clearReconcilePaused (condition_status now CondTypeChecked (os_conditions st)).2).1 st) o
  else o.

(** The error and the object as the deferred function finds them. *)
(** [handleMiddlewareOperator], internal/controller/middlewareoperator_controller.go:281-318 *)
Definition operator_apply (generation observedGeneration : Z) (wasPaused : bool) o : oprog (option error * operator) :=
  '(err, o) ← Check_operator reader now o;
  match err with
  | Some e => Ret (Some (wrap_error "failed to validate middlewareOperatorBaseline" e), o)
  | None =>
      '(err, o) ← ReplacePackage_operator reader now o;
      match err with
      | Some e => Ret (Some (wrap_error "upgrade failed" e), o)
      | None =>
          if IsNoOperatorResource o then Ret (Some (Error NoOperator "no matching MiddlewareOperator found"), o)
          else
            let handle a what :=
              '(err, o) ← HandleResource a o;
              Ret (match err with Some e => (Some (wrap_error what e), o) | None => (None, clear_paused wasPaused o) end) in
            if (observedGeneration =? 0)%Z then handle HandleActionPublish "failed to generate resources"
            else if (observedGeneration <? generation)%Z || String.eqb (os_state (mo_status o)) StateUpdating || wasPaused
            then handle HandleActionUpdate "failed to update resources"
            else Ret (None, o)
      end
  end.

(** [handleMiddlewareOperator], internal/controller/middlewareoperator_controller.go *)
Definition handleMiddlewareOperator (name namespace : string) : oprog (option error) :=
  r ← GetMiddlewareOperator name namespace;
  match r with
  | Err e => Ret (Some e)
  | Ok o =>
      match mo_deletionTimestamp o with
      | Some _ =>
          if ContainsFinalizer (mo_finalizers o) FinalizerMiddlewareOperator then delete_operator o else Ret None
      | None =>
          if negb (ContainsFinalizer (mo_finalizers o) FinalizerMiddlewareOperator) then
            err ← call (OpUpdate (with_finalizers (AddFinalizer (mo_finalizers o) FinalizerMiddlewareOperator) o));
            Ret (match err with Some e => Some e | None => Some (Error OperatorFinalizerAdded "finalizer added") end)
          else if IsReconcileSuspended (mo_annotations o) then
            let '(cs, changed) := default (os_conditions (mo_status o), false)
              (markReconcilePaused now (os_conditions (mo_status o)) (mo_generation o)) in
            err ← (if (changed : bool)
                   then r ← UpdateMiddlewareOperatorStatus reader (on_status (with_conditions cs) o); Ret r.1
                   else Ret None);
            Ret (match err with Some e => Some e | None => Some (Error OperatorReconcilePaused "reconciliation paused") end)
          else
            '(retErr, o) ← operator_apply (mo_generation o) (os_observedGeneration (mo_status o))
                             (hasReconcilePaused (os_conditions (mo_status o))) o;
            s ← UpdateMiddlewareOperatorStatus reader (with_status (operator_converge o retErr) o);
            Ret (match retErr with Some e => Some e | None => s.1 end)
      end
  end.

(** [handleDeployment], internal/controller/middlewareoperator_controller.go *)
Definition handleDeployment (name namespace : string) : oprog (option error) :=
  r ← GetMiddlewareOperator name namespace;
  match r with
  | Err e => Ret (Some e)
  | Ok o =>
      if bool_decide (is_Some (mo_deletionTimestamp o)) then Ret None
      else if IsReconcileSuspended (mo_annotations o) then Ret None
      else if bool_decide (is_Some (mo_annotations o !! LabelUpdate)) then Ret None
      else
        d ← call (DepGet name namespace);
        match d with
        | Ok d =>
            err ← CompareDeployment ControllerReference UnmarshalDeployment d o;
            Ret (option_map (wrap_error "failed to compare deployment with published deployment") err)
        | Err e =>
            if is_not_found e then
              let '(applied, cs) := condition_status now CondTypeApplyOperator (os_conditions (mo_status o)) in
              let o := on_status (with_conditions cs) o in
              if decide (applied = ConditionTrue) then
                r ← HandleResource HandleActionPublish o;
                Ret (option_map (wrap_error "failed to regenerate resources") r.1)
              else Ret None
            else Ret (Some (wrap_error "failed to get deployment" e))
        end
  end.

(** [Reconcile], internal/controller/middlewareoperator_controller.go *)
Definition Reconcile_operator (name namespace : string) : oprog (ctrl_result * option error) :=
  err ← handleMiddlewareOperator name namespace;
  match err with
  | Some e =>
      Ret (match e_kind e with
      | NotFound | OperatorReconcilePaused | NoOperator | PackageInstallFailed | PackageUnavailableExceeded => (done_result, None)
      | OperatorFinalizerAdded => (requeue_now, None)
      | PackageNotReady => (CtrlResult false 5, None)
      | _ => (done_result, Some e)
      end)
  | None =>
      err ← handleDeployment name namespace;
      Ret (done_result, match err with Some e => if is_not_found e then None else Some e | None => None end)
  end.
End Controller.

(** ** What precedes a write *)

Definition child_write (e : oevent) : bool :=
  match e with Ev c _ => match c with
    | ReconcileConfigurations _ _ _ | RbacCreate _ | RbacCreateOrUpdate _ | DepCreate _ | DepUpdate _ | DepPatch _ _ => true
    | _ => false end end.
Definition child_delete (e : oevent) : bool :=
  match e with Ev c _ => match c with DeleteRenderedConfigurations _ | RbacDelete _ | DepDelete _ => true | _ => false end end.
Definition op_read (e : oevent) : option operator :=
  match e with Ev c r => match c in ocall R return R → option operator with
    | OpGet _ _ => λ r, match r with Ok o => Some o | Err _ => None end | _ => λ _, None end r end.
Definition first_op_read (l : list oevent) : option operator := head (omap op_read l).

Lemma first_op_read_prefix l l' o : first_op_read l = Some o → l `prefix_of` l' → first_op_read l' = Some o.
Proof. unfold first_op_read. intros Hl [k ->]. rewrite omap_app. by destruct (omap op_read l). Qed.

(** A write that does not take the finalizer from the object just read. *)
Definition finalizer_kept (l : list oevent) (new : operator) : Prop :=
  ∃ now, just_read l now ∧ (FinalizerMiddlewareOperator ∈ mo_finalizers now → FinalizerMiddlewareOperator ∈ mo_finalizers new).

(** Reads and status writes; those and writes to the children; those and deletions. *)
Definition plain (_ : list oevent) (e : oevent) : Prop := child_write e = false ∧ child_delete e = false ∧ op_write e = None.
Definition applying (l : list oevent) (e : oevent) : Prop :=
  child_delete e = false ∧ ∀ new, op_write e = Some new → finalizer_kept l new.
Definition deleting (_ : list oevent) (e : oevent) : Prop := child_write e = false ∧ op_write e = None.

Section Kinds.
Context `{!MetaConditions, !ControllerUtil, !RetryOnConflict ocall error is_conflict}.
Context (reader : bool) (now : Z).
Context (ControllerReference : operator → option error).
Context (UnmarshalDeployment : string → result error operator_deployment).
Context `{!JsonLib, !MapOrder, !SpecText}.

Lemma plain_applying l e : plain l e → applying l e.
Proof. intros (? & ? & Hw). split; [done|]. intros new. congruence. Qed.
Lemma plain_deleting l e : plain l e → deleting l e.
Proof. by intros (? & ? & ?). Qed.

Ltac kind_step :=
  lazymatch goal with
  | |- only _ (Ret _) => apply only_ret
  | |- only _ (call _) => apply only_call; intros; (split_and! || idtac); (done || (intros ? ?; done))
  | |- only _ (retry _ _) => apply only_retry; intros
  | |- only _ (match ?x with _ => _ end) => destruct x
  | |- only _ (_ ≫= _) => apply only_bind; [|intros]
  end.

Lemma status_plain o : only plain (UpdateMiddlewareOperatorStatus reader o).
Proof. unfold UpdateMiddlewareOperatorStatus, read_for_status, GetMiddlewareOperator. repeat kind_step. Qed.

Lemma read_plain name ns : only plain (GetMiddlewareOperator name ns).
Proof. unfold GetMiddlewareOperator. repeat kind_step. Qed.

Lemma update_applying o : only applying (UpdateMiddlewareOperator o).
Proof.
  intros P tr HK Htr. unfold UpdateMiddlewareOperator. apply holds_bind.
  apply (retry_holds _ _ _ (λ _ tr, each P tr)); [|done]. intros _ tr1 Htr1.
  assert (Hr : ∀ tr e, each P tr → child_delete e = false → op_write e = None → each P (tr ++ [e])).
  { intros tr' e ? ? ?. apply each_snoc. split; [done|]. apply HK. split; [done|]. intros. congruence. }
  simpl. intros [now'|e]; simpl; [intros u err|by split; [apply Hr|intros; apply Hr]].
  set (new := with_meta _ _ _ _). rewrite <- (app_assoc tr1 [_] [_]). simpl.
  assert (each P ((tr1 ++ [Ev (OpGet (mo_name o) (mo_namespace o)) (Ok now'); Ev (OpCacheSet (namespaced_name (mo_namespace o) (mo_name o)) now') u]) ++
    [Ev (OpUpdate new) err])); [|by destruct err].
  apply each_snoc. split.
  - pose proof (Hr _ (Ev (OpCacheSet (namespaced_name (mo_namespace o) (mo_name o)) now') u) (Hr _ (Ev (OpGet (mo_name o) (mo_namespace o)) (Ok now')) Htr1 eq_refl eq_refl) eq_refl eq_refl) as Hall.
    by rewrite <- app_assoc in Hall.
  - apply HK. split; [done|]. intros new' [= <-]. exists now'. split; [by eexists _, _, _, _, _|]. done.
Qed.

Ltac applying_step :=
  lazymatch goal with
  | |- only applying (UpdateMiddlewareOperatorStatus _ _) => apply (only_mono plain); [apply plain_applying|apply status_plain]
  | |- only applying (GetMiddlewareOperator _ _) => apply (only_mono plain); [apply plain_applying|apply read_plain]
  | |- only applying (UpdateMiddlewareOperator _) => apply update_applying
  | |- only deleting (UpdateMiddlewareOperatorStatus _ _) => apply (only_mono plain); [apply plain_deleting|apply status_plain]
  | _ => kind_step
  end.

Lemma check_applying o : only applying (Check_operator reader now o).
Proof. unfold Check_operator. repeat applying_step. Qed.

Lemma unavailable_applying p live v r o : only applying (unavailable now p live v r o).
Proof. unfold unavailable, clearUpgradeAnnotation. repeat applying_step. Qed.

Lemma switch_applying p live v pk o : only applying (switch_package now p live v pk o).
Proof. unfold switch_package. repeat (apply unavailable_applying || applying_step). Qed.

Lemma replace_applying o : only applying (ReplacePackage_operator reader now o).
Proof.
  unfold ReplacePackage_operator, upgrade_body, clearUpgradeAnnotation.
  repeat (apply unavailable_applying || apply switch_applying || applying_step).
Qed.

Lemma rbac_write_applying a r : is_delete a = false → only applying (rbac_write a r).
Proof. destruct a; [intros _..|done]; simpl; repeat applying_step. Qed.

Lemma permissions_applying ps a o : is_delete a = false → only applying (handle_permissions ControllerReference ps a o).
Proof.
  intros Ha. induction ps as [|p ps IH]; cbn [handle_permissions]; [apply only_ret|].
  unfold handleServiceAccount, handleRole, handleRoleBinding, scoped. rewrite Ha.
  repeat (exact IH || (apply rbac_write_applying; exact Ha) || applying_step).
Qed.

Lemma handle_applying a o : is_delete a = false →
  only applying (HandleResource_operator reader now ControllerReference UnmarshalDeployment a o).
Proof.
  intros Ha. unfold HandleResource_operator, apply_resources, and_then, TemplateParse_operator, handleExtraResource_operator,
    handleRBAC, buildDeployment, build_deployment_body, report_step, CreateOrPatchDeployment, PatchDeployment, CreateDeployment.
  rewrite !Ha. destruct a; [..|done];
    repeat ((apply permissions_applying; exact Ha) || applying_step).
Qed.
Lemma apply_applying g og paused o :
  only applying (operator_apply reader now ControllerReference UnmarshalDeployment g og paused o).
Proof.
  unfold operator_apply. repeat (apply check_applying || apply replace_applying || (apply handle_applying; reflexivity) || applying_step).
Qed.

Lemma compare_applying d o :
  only applying (CompareDeployment ControllerReference UnmarshalDeployment d o).
Proof. unfold CompareDeployment, TemplateParse_operator, UpdateDeployment. repeat applying_step. Qed.

Lemma permissions_deleting ps o : only deleting (handle_permissions ControllerReference ps HandleActionDelete o).
Proof.
  induction ps as [|p ps IH]; cbn [handle_permissions]; [apply only_ret|].
  unfold handleServiceAccount, handleRole, handleRoleBinding, scoped, rbac_write. cbn [is_delete].
  repeat (exact IH || applying_step).
Qed.

Lemma rbac_deleting o : only deleting (handleRBAC reader now ControllerReference HandleActionDelete o).
Proof. unfold handleRBAC, report_step. cbn [is_delete]. repeat (apply permissions_deleting || applying_step). Qed.

Lemma context_plain o : only plain (operator_delete_context o).
Proof. unfold operator_delete_context. destruct (operator_legacy_fallback o). repeat kind_step. Qed.

(** *** When the resources of an operator are cleaned up *)

(** The Deployment was looked for and found gone, or deleted. *)
Definition deployment_gone (name ns : string) (l : list oevent) : Prop :=
  (∃ e, Ev (DepGet name ns) (Err e) ∈ l ∧ is_not_found e = true) ∨
  (∃ d r, Ev (DepGet name ns) (Ok d) ∈ l ∧ Ev (DepDelete d) r ∈ l ∧ match r with Some e => is_not_found e = true | None => True end).

Definition cleaned (o : operator) (l : list oevent) : Prop :=
  IsNoOperatorResource o = true ∨
  ∃ cp o', (cp = o ∨ ∃ cached, cp = operator_backfill o cached) ∧ (operator_requirements_met cp).1 = true ∧
    Ev (HydrateDeleteContext cp) (None, o') ∈ l ∧
    Ev (DeleteRenderedConfigurations (touch_condition now CondTypeBuildExtraResource o')) None ∈ l ∧
    deployment_gone (mo_name o') (mo_namespace o') l.

Lemma deployment_gone_prefix name ns l l' : deployment_gone name ns l → l `prefix_of` l' → deployment_gone name ns l'.
Proof.
  intros [(e & ? & ?)|(d & r & ? & ? & ?)] Hpre; [left; exists e|right; exists d, r]; split_and!; try done; by eapply elem_of_prefix.
Qed.

Lemma cleaned_prefix o l l' : cleaned o l → l `prefix_of` l' → cleaned o l'.
Proof.
  intros [?|(cp & o' & ? & ? & ? & ? & ?)] Hpre; [by left|right]. exists cp, o'.
  split_and!; try done; try (by eapply elem_of_prefix). by eapply deployment_gone_prefix.
Qed.

Section Cleanup.
Context (D : list oevent → oevent → Prop) (from : list oevent) (HD : ∀ l e, from `prefix_of` l → deleting l e → D l e).

Lemma deployment_deleted_spec name ns tr : from `prefix_of` tr →
  spec D (DeleteDeployment name ns) tr (λ tr' err,
    match err with Some e => is_not_found e = true | None => True end → deployment_gone name ns tr').
Proof.
  intros Hfrom. unfold DeleteDeployment.
  eapply (spec_bind _ _ _ (λ tr' r, Ev (DepGet name ns) r ∈ tr')).
  { apply spec_call; [intros; by apply HD|]. intros. apply elem_of_app. right. by left. }
  intros tr' [d|e] Hpre Hin.
  - apply spec_call; [intros; apply HD; [by etrans|done]|]. intros r Hr. right. exists d, r.
    split_and!; [apply elem_of_app; by left|apply elem_of_app; right; by left|done].
  - apply spec_ret. intros Hr. left. by exists e.
Qed.

Lemma delete_resources_spec o tr : from `prefix_of` tr → IsNoOperatorResource o = false →
  spec D (HandleResource_operator reader now ControllerReference UnmarshalDeployment HandleActionDelete o) tr (λ tr' r,
    r.1 = None → ∃ o', Ev (HydrateDeleteContext o) (None, o') ∈ tr' ∧
      Ev (DeleteRenderedConfigurations (touch_condition now CondTypeBuildExtraResource o')) None ∈ tr' ∧
      deployment_gone (mo_name o') (mo_namespace o') tr').
Proof.
  intros Hfrom Hno. unfold HandleResource_operator, skipNoOperatorResource. cbn [is_delete negb andb]. rewrite Hno. unfold delete_resources.
  eapply (spec_bind _ _ _ (λ tr' r, Ev (HydrateDeleteContext o) r ∈ tr')).
  { apply spec_call; [intros; by apply HD|]. intros. apply elem_of_app. right. by left. }
  intros tr1 [[e|] o1] Hpre1 Hhyd; [by apply spec_ret|].
  unfold handleExtraResource_operator. set (o2 := touch_condition _ _ _). cbv zeta.
  eapply (spec_bind _ _ _ (λ tr' r, r.1 = None → r.2 = o2 ∧ Ev (DeleteRenderedConfigurations o2) None ∈ tr')).
  { eapply (spec_bind _ _ _ (λ tr' r, r.1 = None → r.2 = o2 ∧ Ev (DeleteRenderedConfigurations o2) None ∈ tr')).
    - eapply (spec_bind _ _ _ (λ tr' r, Ev (DeleteRenderedConfigurations o2) r ∈ tr')).
      + apply spec_call; [intros; apply HD; [by etrans|done]|]. intros. apply elem_of_app. right. by left.
      + intros tr' err _ Hin. apply spec_ret. simpl. by intros ->.
    - intros tr' [err o3] _ Hin. unfold report_step. simpl. by apply spec_ret. }
  intros tr2 [[e|] o3] Hpre2 Hdel; [by apply spec_ret|]. destruct (Hdel eq_refl) as [Heq Hdone]. simpl in Heq. subst o3.
  eapply (spec_bind _ _ _ (λ tr' r, mo_name r.2 = mo_name o1 ∧ mo_namespace r.2 = mo_namespace o1)).
  { unfold handleRBAC, report_step. cbn [is_delete orb]. cbv zeta.
    eapply (spec_bind _ _ _ (λ _ _, True)); [apply (only_spec deleting); [apply permissions_deleting|]|].
    - intros l e Hpre He. apply HD; [|done]. do 3 (etrans; [eassumption|]). done.
    - intros tr' errs _ _. by apply spec_ret. }
  intros tr3 [e4 o4] Hpre3 [Hn Hns]. simpl in Hn, Hns. rewrite Hn, Hns.
  eapply spec_bind; [apply deployment_deleted_spec; do 3 (etrans; [eassumption|]); done|].
  intros tr4 err Hpre4 Hgone. apply spec_ret. intros Herr. exists o1.
  assert (Hsub : ∀ l e, e ∈ l → l `prefix_of` tr3 → e ∈ tr4) by (intros l e ? ?; eapply elem_of_prefix; [done|by etrans]).
  split_and!; [eapply Hsub; [exact Hhyd|by etrans]|by eapply Hsub|].
  apply Hgone. destruct err as [e|]; [|done]. simpl in Herr. by destruct (is_not_found e).
Qed.
End Cleanup.
End Kinds.

(** ** Properties *)

#[local] Opaque operator_apply HandleResource_operator CompareDeployment.

Section Properties.
Context `{!MetaConditions, !ControllerUtil, !RetryOnConflict ocall error is_conflict}.
Context (reader : bool) (now : Z).
Context (ControllerReference : operator → option error).
Context (UnmarshalDeployment : string → result error operator_deployment).
Context `{!JsonLib, !MapOrder, !SpecText}.
Context {W : Type} (h : handler ocall W) (w : W).

Abbreviation handle := (handleMiddlewareOperator reader now ControllerReference UnmarshalDeployment).
Abbreviation drift := (handleDeployment reader now ControllerReference UnmarshalDeployment).

(** Of the pass over an operator: when its children may be written, when they
    may be deleted, and when its finalizer may go. *)
Definition operator_gated (l : list oevent) (e : oevent) : Prop :=
  (child_write e = true → ∃ o, first_op_read l = Some o ∧ mo_deletionTimestamp o = None ∧
     FinalizerMiddlewareOperator ∈ mo_finalizers o ∧ IsReconcileSuspended (mo_annotations o) = false) ∧
  (child_delete e = true → ∃ o, first_op_read l = Some o ∧ is_Some (mo_deletionTimestamp o) ∧
     FinalizerMiddlewareOperator ∈ mo_finalizers o ∧ IsNoOperatorResource o = false) ∧
  (∀ new, op_write e = Some new → finalizer_kept l new ∨
     ∃ o, first_op_read l = Some o ∧ is_Some (mo_deletionTimestamp o) ∧ cleaned now o l).

Lemma plain_gated l e : plain l e → operator_gated l e.
Proof. intros (Hw & Hd & Ho). split_and!; congruence. Qed.

Lemma delete_operator_spec o tr : first_op_read tr = Some o → is_Some (mo_deletionTimestamp o) → FinalizerMiddlewareOperator ∈ mo_finalizers o →
  spec operator_gated (delete_operator reader now ControllerReference UnmarshalDeployment o) tr (λ _ _, True).
Proof.
  intros Hread Hdel Hfin. unfold delete_operator.
  assert (Hpl : ∀ l e, plain l e → operator_gated l e) by apply plain_gated.
  eapply (spec_bind _ _ _ (λ tr' rc, match rc with
    | (Some cp, _, _, None) => (IsNoOperatorResource o = true ∧ cp = o) ∨
        (IsNoOperatorResource o = false ∧ IsNoOperatorResource cp = false ∧ (cp = o ∨ ∃ cached, cp = operator_backfill o cached) ∧
         (operator_requirements_met cp).1 = true)
    | _ => True end)).
  { unfold operator_delete_context. destruct (IsNoOperatorResource o) eqn:Hno; [apply spec_ret; auto|].
    destruct ((operator_requirements_met o).1) eqn:Hmet; [apply spec_ret; right; auto|].
    unfold operator_legacy_fallback. destruct (operator_requirements_met o) as [ok missing]. simpl in Hmet. subst ok. cbn [negb].
    eapply (spec_bind _ _ _ (λ _ _, True)); [apply spec_call; [intros; by apply Hpl|done]|].
    intros tr' [cached|] _ _; [|by apply spec_ret].
    destruct ((operator_requirements_met (operator_backfill o cached)).1) eqn:Hm; [|by apply spec_ret].
    apply spec_ret. right. split_and!; [done|done|right; by exists cached|done]. }
  intros tr1 [[[[cp|] legacy] reason] [e|]] Hpre1 Hcp; try by apply spec_ret.
  assert (Hread1 := first_op_read_prefix _ _ _ Hread Hpre1).
  eapply (spec_bind _ _ _ (λ tr' r, r.1 = None → cleaned now o tr')).
  { destruct Hcp as [[Hno ->]|(Hno & Hno' & Hcp & Hmet)].
    - Transparent HandleResource_operator. unfold HandleResource_operator. cbn [is_delete negb andb]. rewrite Hno. apply spec_ret. by left.
    - Opaque HandleResource_operator.
      eapply spec_mono; [apply (delete_resources_spec _ _ _ _ operator_gated tr1); [|done|done]|].
      + intros l e Hpre [Hw Ho]. split_and!; [congruence| |congruence]. intros _. exists o.
        split_and!; [by eapply first_op_read_prefix|done..].
      + intros tr' r _ Hr Hok. destruct (Hr Hok) as (o' & ? & ? & ?). right. exists cp, o'. auto. }
  intros tr2 [[e|] o2] Hpre2 Hclean; [by apply spec_ret|]. specialize (Hclean eq_refl). cbn [fst].
  eapply (spec_bind _ _ _ (λ _ _, True)).
  - unfold remove_operator_finalizer. eapply (spec_bind _ _ _ (λ _ _, True)); [|intros; by apply spec_ret].
    apply (spec_retry _ _ _ (λ _ tr', tr2 `prefix_of` tr')); [|done]. intros _ tr3 Hpre3.
    eapply (spec_bind _ _ _ (λ tr' _, tr2 `prefix_of` tr')); [apply spec_call; [intros; by apply Hpl|intros; by apply prefix_app_r]|].
    intros tr4 [latest|e] Hpre4 Hp; [|apply spec_ret; split; [done|]; by simpl].
    set (new := with_finalizers _ latest).
    eapply (spec_bind _ _ _ (λ tr' _, tr2 `prefix_of` tr')).
    + apply spec_call; [|intros; by apply prefix_app_r]. intros r. split_and!; [done|done|]. intros new' _. right. exists o.
      split_and!; [eapply first_op_read_prefix; [exact Hread1|by etrans]|done|by eapply cleaned_prefix].
    + intros tr5 err _ ?. apply spec_ret. split; [done|]. destruct err; simpl; auto.
  - intros tr3 [e|] _ _; [by apply spec_ret|]. eapply (spec_bind _ _ _ (λ _ _, True)); [apply spec_call; [intros; by apply Hpl|done]|].
    intros; by apply spec_ret.
Qed.

Lemma handle_gated name ns : spec operator_gated (handle name ns) [] (λ _ _, True).
Proof.
  unfold handleMiddlewareOperator.
  eapply (spec_bind _ _ _ (λ tr r, match r with Ok o => just_read tr o ∧ first_op_read tr = Some o | Err _ => True end)).
  { unfold GetMiddlewareOperator.
    eapply (spec_bind _ _ _ (λ tr r, tr = [Ev (OpGet name ns) r])); [apply spec_call; [intros; by apply plain_gated|done]|].
    intros tr [o|e] _ ->; [|by apply spec_ret].
    eapply (spec_bind _ _ _ (λ tr _, just_read tr o ∧ first_op_read tr = Some o)); [|intros; by apply spec_ret].
    apply spec_call; [intros; by apply plain_gated|]. intros u. split; [|done]. by exists [], name, ns, (namespaced_name ns name), u. }
  intros tr [o|e] _ Hread; [|by apply spec_ret]. destruct Hread as [Hjust Hread].
  destruct (mo_deletionTimestamp o) eqn:Hdel.
  { destruct (ContainsFinalizer _ _) eqn:Hf; [|by apply spec_ret]. apply contains_finalizer in Hf.
    apply delete_operator_spec; [done|by rewrite Hdel|done]. }
  destruct (ContainsFinalizer _ _) eqn:Hf; cbn [negb].
  - apply contains_finalizer in Hf. destruct (IsReconcileSuspended (mo_annotations o)) eqn:Hs.
    + destruct (default _ _) as [cs changed]. apply (spec_bind _ _ _ (λ _ _, True)); [|intros; by apply spec_ret].
      destruct changed; [|by apply spec_ret]. eapply (spec_bind _ _ _ (λ _ _, True)); [|intros; by apply spec_ret].
      apply (only_spec plain); [apply status_plain|]. intros; by apply plain_gated.
    + assert (Happ : ∀ l e, tr `prefix_of` l → applying l e → operator_gated l e).
      { intros l e Hpre [Hd Hw]. split_and!; [|congruence|auto]. intros _. exists o. split_and!; try done. by eapply first_op_read_prefix. }
      eapply (spec_bind _ _ _ (λ _ _, True)); [apply (only_spec applying); [apply apply_applying|done]|].
      intros tr' [retErr o'] Hpre _. eapply (spec_bind _ _ _ (λ _ _, True)); [|intros; by apply spec_ret].
      apply (only_spec plain); [apply status_plain|]. intros; by apply plain_gated.
  - eapply (spec_bind _ _ _ (λ _ _, True)); [|intros; by apply spec_ret]. apply spec_call; [|done].
    intros r. split_and!; [done|done|]. intros new [= <-]. left. exists o. split; [done|]. intros _.
    simpl. apply add_finalizer. by left.
Qed.

(** The controller writes the children of an operator only if the operator,
    as this pass read it first, is not being deleted, carries the finalizer and
    is not suspended; it deletes them only during the operator's deletion; and
    it takes the finalizer only during the deletion and after its configurations
    were deleted and its Deployment was deleted or found gone, or for an
    operator that has none.  The RBAC objects are deleted at best effort. *)
Theorem operator_children_gated name ns : each operator_gated (run h (handle name ns) w).2.
Proof. eapply (spec_run _ _ _ (λ _ _, True)), handle_gated. Qed.

(** Of the drift check: it writes only for an operator that it read alive, not
    suspended and not upgrading, and recreates a Deployment only after it was
    found missing while the operator is reported as applied. *)
Definition drift_gated (name ns : string) (l : list oevent) (e : oevent) : Prop :=
  child_delete e = false ∧
  (child_write e = true → ∃ o, first_op_read l = Some o ∧ mo_deletionTimestamp o = None ∧
     IsReconcileSuspended (mo_annotations o) = false ∧ mo_annotations o !! LabelUpdate = None ∧
     ((∃ d, Ev (DepGet name ns) (Ok d) ∈ l) ∨
      (∃ e', Ev (DepGet name ns) (Err e') ∈ l ∧ is_not_found e' = true) ∧
      (condition_status now CondTypeApplyOperator (os_conditions (mo_status o))).1 = ConditionTrue)).

(** The drift check never deletes; it restores or recreates the children
    only of an operator that it read without a deletion timestamp, suspension
    or upgrade, either from its live Deployment, or because the Deployment is
    missing although the operator was applied. *)
Theorem operator_drift_gated name ns : each (drift_gated name ns) (run h (drift name ns) w).2.
Proof.
  assert (Hpl : ∀ l e, plain l e → drift_gated name ns l e) by (intros l e (Hw & Hd & _); split; congruence).
  eapply (spec_run _ _ _ (λ _ _, True)). unfold handleDeployment.
  eapply (spec_bind _ _ _ (λ tr r, match r with Ok o => first_op_read tr = Some o | Err _ => True end)).
  { unfold GetMiddlewareOperator.
    eapply (spec_bind _ _ _ (λ tr r, tr = [Ev (OpGet name ns) r])); [apply spec_call; [intros; by apply Hpl|done]|].
    intros tr [o|e] _ ->; [|by apply spec_ret]. eapply (spec_bind _ _ _ (λ tr _, first_op_read tr = Some o)); [|intros; by apply spec_ret].
    apply spec_call; [intros; by apply Hpl|done]. }
  intros tr [o|e] _ Hread; [|by apply spec_ret].
  case_bool_decide as Hdel; [by apply spec_ret|]. destruct (IsReconcileSuspended _) eqn:Hs; [by apply spec_ret|].
  case_bool_decide as Hup; [by apply spec_ret|]. apply eq_None_not_Some in Hdel, Hup.
  eapply (spec_bind _ _ _ (λ tr' r, Ev (DepGet name ns) r ∈ tr')).
  { apply spec_call; [intros; by apply Hpl|]. intros. apply elem_of_app. right. by left. }
  intros tr1 r Hpre1 Hdep. assert (Hread1 := first_op_read_prefix _ _ _ Hread Hpre1).
  assert (Happ : (∃ d, r = Ok d) ∨ (∃ e', r = Err e' ∧ is_not_found e' = true) ∧
      (condition_status now CondTypeApplyOperator (os_conditions (mo_status o))).1 = ConditionTrue →
    ∀ l e, tr1 `prefix_of` l → applying l e → drift_gated name ns l e).
  { intros Hr l e Hpre [Hd _]. split; [done|]. intros _. exists o. split_and!; try done; [by eapply first_op_read_prefix|].
    destruct Hr as [[d ->]|[(e' & -> & ?) ?]]; [left; exists d; by eapply elem_of_prefix|right; split; [|done]].
    exists e'. split; [by eapply elem_of_prefix|done]. }
  destruct r as [d|e].
  - eapply (spec_bind _ _ _ (λ _ _, True)); [|intros; by apply spec_ret].
    apply (only_spec applying); [apply compare_applying|]. apply Happ. left. by eexists.
  - destruct (is_not_found e) eqn:Hnf; [|by apply spec_ret].
    destruct (condition_status now CondTypeApplyOperator _) as [applied cs] eqn:Hc. cbv zeta. case_decide as Hd; [|by apply spec_ret].
    eapply (spec_bind _ _ _ (λ _ _, True)); [|intros; by apply spec_ret].
    apply (only_spec applying); [by apply handle_applying|]. apply Happ. right. split; [by exists e|done].
Qed.
End Properties.

(** The status an operator's pass ends with: an operator without operator
    resources is Available; otherwise it is Unavailable exactly when the pass
    failed or a condition is False for its generation, Updating exactly during
    an upgrade that is not in trouble, and Available otherwise.  Its generation
    counts as observed exactly when the pass succeeded (or there is nothing to
    do) and no upgrade runs, and never decreases. *)
Theorem operator_status_convergence o retErr :
  let st := operator_converge o retErr in
  let cs := os_conditions st in
  let idle := IsNoOperatorResource o || no_operator_error retErr in
  let trouble := retErr ≠ None ∨ Exists (current_false (mo_generation o)) cs in
  (idle = true → os_state st = StateAvailable ∧ cs = os_conditions (mo_status o)) ∧
  (idle = false →
    (os_state st = StateUnavailable ↔ trouble) ∧
    (os_state st = StateUpdating ↔ ¬ trouble ∧ is_Some (mo_annotations o !! LabelUpdate)) ∧
    (os_state st = StateAvailable ↔ ¬ trouble ∧ mo_annotations o !! LabelUpdate = None)) ∧
  (os_observedGeneration (mo_status o) ≤ os_observedGeneration st)%Z ∧
  ((idle = true ∨ retErr = None) ∧ os_state st ≠ StateUpdating →
     os_observedGeneration st = Z.max (os_observedGeneration (mo_status o)) (mo_generation o)) ∧
  (¬ ((idle = true ∨ retErr = None) ∧ os_state st ≠ StateUpdating) →
     os_observedGeneration st = os_observedGeneration (mo_status o)).
Proof.
  unfold operator_converge, operator_report. set (idle := IsNoOperatorResource o || no_operator_error retErr).
  set (cs := drop_stale_updating _ _).
  assert (Hobs : ∀ state cs' st, os_state st = state → os_conditions st = cs' → os_observedGeneration st = os_observedGeneration (mo_status o) →
    let st' := if (bool_decide (retErr = None) || idle) && negb (String.eqb state StateUpdating) &&
                  (os_observedGeneration st <? mo_generation o)%Z then with_observed (mo_generation o) st else st in
    os_state st' = state ∧ os_conditions st' = cs' ∧
    (os_observedGeneration (mo_status o) ≤ os_observedGeneration st')%Z ∧
    ((idle = true ∨ retErr = None) ∧ state ≠ StateUpdating →
       os_observedGeneration st' = Z.max (os_observedGeneration (mo_status o)) (mo_generation o)) ∧
    (¬ ((idle = true ∨ retErr = None) ∧ state ≠ StateUpdating) →
       os_observedGeneration st' = os_observedGeneration (mo_status o))).
  { intros state cs' st Hs Hcs Hg. cbv zeta. rewrite Hg. destruct (bool_decide (retErr = None)) eqn:Hr, idle,
      (String.eqb_spec state StateUpdating), (Z.ltb_spec (os_observedGeneration (mo_status o)) (mo_generation o)); simpl;
    rewrite ?bool_decide_eq_true, ?bool_decide_eq_false in Hr; split_and!; try done; try lia; intros; simpl; try lia; naive_solver. }
  destruct idle eqn:Hidle.
  { destruct (Hobs StateAvailable _ (with_state StateAvailable "" (with_conditions (os_conditions (mo_status o)) (mo_status o))) eq_refl eq_refl eq_refl)
      as (-> & -> & ? & ? & ?). split_and!; done. }
  pose proof (currentFalseCondition_spec cs (mo_generation o)) as Hfalse.
  assert (Hex : Exists (current_false (mo_generation o)) cs ↔ is_Some (currentFalseCondition cs (mo_generation o))).
  { destruct (currentFalseCondition cs _) as [c|]; split; try by eauto.
    - intros _. apply list.Exists_exists. by exists c.
    - intros (c & Hc & Hf)%list.Exists_exists. rewrite list.Forall_forall in Hfalse. by destruct (Hfalse c). }
  clear Hfalse. clearbody cs.
  destruct (currentFalseCondition cs (mo_generation o)) as [c|] eqn:Ec, retErr as [e|],
    (mo_annotations o !! LabelUpdate) as [u|] eqn:Eu; 
    repeat (cbn -[with_state with_conditions with_observed current_false];
            first [rewrite decide_True by done | rewrite decide_False by done]);
    cbn -[with_state with_conditions with_observed current_false];
  match goal with |- context [with_state ?s ?r _] =>
    pose proof (Hobs s cs (with_state s r (with_conditions cs (mo_status o))) eq_refl eq_refl eq_refl) as Ho end;
  cbn -[with_state with_conditions with_observed current_false] in Ho; destruct Ho as (Hs & Hc & ? & ? & ?);
  rewrite Hs, Hc, Hex; split_and!; try done; intros; naive_solver.
Qed.

(** ** Runs at concrete inputs *)

Section Witness.
Definition fresh_operator (deleting : option Z) (annotations : gmap string string) : operator :=
  MiddlewareOperator "redis-op" "prod" "uid-o" 1 deleting {[LabelPackageName := "redis-1"]} annotations [FinalizerMiddlewareOperator]
    (MiddlewareOperatorSpec "base" None [] "Namespace" [Permission "redis-sa" []] "{}" [])
    (MiddlewareOperatorStatus 0 [] "" ∅ "" "" false "" [] 0).
Definition demo_deployment (_ : string) : result error operator_deployment :=
  Ok (OperatorDeployment "" "" ∅ None (DeploymentSpec None None [JNull] JNull)).
Definition demo_pass (o : operator) : option error * list oevent :=
  run (demo_server o None)
    (@handleMiddlewareOperator meta_by_list util_by_list (bounded_retry is_conflict 4) false 7 (λ _, None) demo_deployment "redis-op" "prod") tt.
Definition op_writes (tr : list oevent) : list operator := omap op_write tr.
(** A first publication writes, a suspended operator is left alone, and a
    deletion ends with the finalizer gone. *)
Lemma operator_children_gated_witness :
  let writes o := length (filter (λ e, child_write e = true) (demo_pass o).2) in
  let deletes o := length (filter (λ e, child_delete e = true) (demo_pass o).2) in
  writes (fresh_operator None ∅) = 5 ∧ writes (fresh_operator None {[AnnotationSuspendReconcile := "true"]}) = 0 ∧
  deletes (fresh_operator (Some 3%Z) ∅) = 4 ∧
  option_map mo_finalizers (list.last (op_writes (demo_pass (fresh_operator (Some 3%Z) ∅)).2)) = Some ([] : list string) ∧
  each (operator_gated 7 (H := meta_by_list)) (demo_pass (fresh_operator (Some 3%Z) ∅)).2.
Proof.
  cbv zeta. split; [vm_compute; reflexivity|]. split; [vm_compute; reflexivity|]. split; [vm_compute; reflexivity|].
  split; [vm_compute; reflexivity|].
  exact (@operator_children_gated meta_by_list util_by_list (bounded_retry is_conflict 4) false 7 (λ _, None) demo_deployment unit
    (demo_server (fresh_operator (Some 3%Z) ∅) None) tt "redis-op" "prod").
Defined.
End Witness.
