(* ===== verification/OperatorRuntime.v ===== *)
(** * The runtime status of an operator's Deployment

    [internal/controller/middlewareoperator_runtime_controller.go] and
    [middlewareoperator_runtime_diagnostic.go]: what the status of an operator
    says of its Deployment, why it is not ready, and which Deployments an event
    of the cluster is about.

    Objects have the fields the code looks at; the zero time is 0.  Names are
    unique within a namespace, so that sorting by name has one result.  Of a
    label selector the code knows whether it is valid, empty, and what it
    matches. *)
From Stdlib Require Import ZArith Lia String.
From stdpp Require Import base gmap strings list option pretty sorting.
From S2P Require Import Prelude GoStrings Labels Conditions Prog Diagnostic Middleware Json WorkloadPhase IntentMerge Operator.

(** ** Objects of the cluster *)

(** [metav1.LabelSelectorAsSelector]: whether the selector is empty, and what
    it matches. *)
Class LabelSelectors := {
  label_selector : Type;
  LabelSelectorAsSelector : label_selector → option (bool * (gmap string string → bool));
}.

Record waiting_state := Waiting { w_reason : string; w_message : string }.
#[export] Instance waiting_state_eq_dec : EqDecision waiting_state.
Proof. solve_decision. Defined.
Record container_status := ContainerStatus {
  cst_name : string; cst_image : string; cst_waiting : option waiting_state; cst_rest : json }.
#[export] Instance container_status_eq_dec : EqDecision container_status.
Proof. solve_decision. Defined.
Record pod_condition := PodCondition {
  pc_type : string; pc_status : string; pc_reason : string; pc_message : string; pc_rest : json }.
#[export] Instance pod_condition_eq_dec : EqDecision pod_condition.
Proof. solve_decision. Defined.
Record volume := Volume { v_claim : option string; v_rest : json }.
#[export] Instance volume_eq_dec : EqDecision volume.
Proof. solve_decision. Defined.
Record pod_status := PodStatus {
  pst_init : list container_status; pst_containers : list container_status; pst_conditions : list pod_condition;
  pst_rest : json }.
#[export] Instance pod_status_eq_dec : EqDecision pod_status.
Proof. solve_decision. Defined.

Record runtime_pod := RuntimePod {
  rp_namespace : string; rp_name : string; rp_labels : gmap string string; rp_owners : list owner_reference;
  rp_nodeName : string; rp_serviceAccountName : string; rp_volumes : list volume; rp_status : pod_status }.

(** The requested storage as printed, or nothing when it is zero. *)
Record volume_claim := PersistentVolumeClaim {
  vc_namespace : string; vc_name : string; vc_labels : gmap string string; vc_owners : list owner_reference;
  vc_storageClassName : option string; vc_accessModes : list string; vc_requestedStorage : string; vc_phase : string }.

Record replica_set := ReplicaSet { rs_name : string; rs_owners : list owner_reference }.

Record core_event := CoreEvent {
  ev_namespace : string; ev_apiVersion : string; ev_kind : string; ev_name : string;   (** of the object involved *)
  ev_type : string; ev_reason : string; ev_message : string; ev_count : Z;
  ev_eventTime : Z; ev_lastTimestamp : Z; ev_firstTimestamp : Z; ev_creationTimestamp : Z;
  ev_component : string; ev_reportingController : string }.
#[export] Instance core_event_eq_dec : EqDecision core_event.
Proof. solve_decision. Defined.

Record runtime_deployment `{!LabelSelectors} := RuntimeDeployment {
  rd_namespace : string; rd_name : string; rd_generation : Z; rd_owners : list owner_reference;
  rd_replicas : option Z; rd_selector : option label_selector; rd_status : deployment_status }.

(** ** Which objects belong to a Deployment *)

(** [objectOwnedBy], internal/controller/middlewareoperator_runtime_diagnostic.go *)
Definition objectOwnedBy (ownerReferences : list owner_reference) (apiVersion kind name : string) : bool :=
  existsb (λ r, String.eqb (or_kind r) kind && String.eqb (or_name r) name &&
                (String.eqb (or_apiVersion r) "" || String.eqb (or_apiVersion r) apiVersion)) ownerReferences.

Section Related.
Context `{!LabelSelectors}.

(** [labelsMatchDeploymentSelector], internal/controller/middlewareoperator_runtime_diagnostic.go *)
Definition labelsMatchDeploymentSelector (deployment : runtime_deployment) (objectLabels : gmap string string) : bool :=
  match rd_selector deployment with
  | None => false
  | Some s => match LabelSelectorAsSelector s with
              | Some (false, matches) => matches objectLabels
              | _ => false
              end
  end.

(** [podMatchesDeploymentSelector], internal/controller/middlewareoperator_runtime_diagnostic.go *)
Definition podMatchesDeploymentSelector (deployment : runtime_deployment) (pod : runtime_pod) : bool :=
  labelsMatchDeploymentSelector deployment (rp_labels pod).

Definition owned_by_deployment (deployment : runtime_deployment) (owners : list owner_reference) : bool :=
  objectOwnedBy owners "apps/v1" "Deployment" (rd_name deployment).

(** [filterRuntimeReplicaSets], internal/controller/middlewareoperator_runtime_diagnostic.go *)
Definition filterRuntimeReplicaSets (deployment : runtime_deployment) (replicaSets : list replica_set) : list replica_set :=
  filter (λ rs, owned_by_deployment deployment (rs_owners rs) = true) replicaSets.

(** [filterRuntimePods], internal/controller/middlewareoperator_runtime_diagnostic.go:416-428 *)
Definition runtime_pod_related (deployment : runtime_deployment) (replicaSetNames : list string) (pod : runtime_pod) : bool :=
  String.eqb (rp_namespace pod) (rd_namespace deployment) &&
  (owned_by_deployment deployment (rp_owners pod) || podMatchesDeploymentSelector deployment pod ||
   existsb (λ r, String.eqb (or_kind r) "ReplicaSet" && bool_decide (or_name r ∈ replicaSetNames)) (rp_owners pod)).

(** [filterRuntimePods], internal/controller/middlewareoperator_runtime_diagnostic.go *)
Definition filterRuntimePods (deployment : runtime_deployment) (replicaSets : list replica_set) (pods : list runtime_pod) :
    list runtime_pod :=
  filter (λ pod, runtime_pod_related deployment (rs_name <$> replicaSets) pod = true) pods.

(** The claims that a pod mounts. *)
Definition pod_claims (pod : runtime_pod) : list string :=
  omap (λ v, match v_claim v with Some c => if String.eqb c "" then None else Some c | None => None end) (rp_volumes pod).

(** [filterRuntimePVCs], internal/controller/middlewareoperator_runtime_diagnostic.go:435-457 *)
Definition runtime_claim_related (deployment : runtime_deployment) (pods : list runtime_pod) (pvc : volume_claim) : bool :=
  String.eqb (vc_namespace pvc) (rd_namespace deployment) &&
  (existsb (λ pod, existsb (λ c, String.eqb (namespaced_name (vc_namespace pvc) (vc_name pvc))
                                            (namespaced_name (rp_namespace pod) c)) (pod_claims pod)) pods ||
   owned_by_deployment deployment (vc_owners pvc) || labelsMatchDeploymentSelector deployment (vc_labels pvc)).

(** [filterRuntimePVCs], internal/controller/middlewareoperator_runtime_diagnostic.go *)
Definition filterRuntimePVCs (deployment : runtime_deployment) (pods : list runtime_pod) (pvcs : list volume_claim) :
    list volume_claim :=
  filter (λ pvc, runtime_claim_related deployment pods pvc = true) pvcs.

(** [isInterestingEvent], internal/controller/middlewareoperator_runtime_diagnostic.go *)
Definition isInterestingEvent (event : core_event) : bool :=
  String.eqb (ev_type event) "Warning" ||
  bool_decide (ev_reason event ∈ ["BackOff"; "ErrImagePull"; "Failed"; "FailedAttachVolume"; "FailedBinding"; "FailedCreate";
    "FailedMount"; "FailedPull"; "FailedScheduling"; "ImagePullBackOff"; "Unhealthy"]).

(** [eventKey], internal/controller/middlewareoperator_runtime_diagnostic.go *)
Definition eventKey (kind name : string) : string := kind +:+ "/" +:+ name.

(** [filterRuntimeEvents], internal/controller/middlewareoperator_runtime_diagnostic.go *)
Definition filterRuntimeEvents (deployment : runtime_deployment) (replicaSets : list replica_set) (pods : list runtime_pod)
    (pvcs : list volume_claim) (events : list core_event) : list core_event :=
  let related := eventKey "Deployment" (rd_name deployment) ::
    (eventKey "ReplicaSet" ∘ rs_name <$> replicaSets) ++ (eventKey "Pod" ∘ rp_name <$> pods) ++
    (eventKey "PersistentVolumeClaim" ∘ vc_name <$> pvcs) in
  filter (λ event, ev_namespace event = rd_namespace deployment ∧ eventKey (ev_kind event) (ev_name event) ∈ related ∧
                   isInterestingEvent event = true) events.
End Related.

(** ** Events *)

(** [eventTimestamp], internal/controller/middlewareoperator_runtime_diagnostic.go *)
Definition eventTimestamp (event : core_event) : Z :=
  if negb (ev_eventTime event =? 0)%Z then ev_eventTime event
  else if negb (ev_lastTimestamp event =? 0)%Z then ev_lastTimestamp event
  else if negb (ev_firstTimestamp event =? 0)%Z then ev_firstTimestamp event
  else ev_creationTimestamp event.

(** The first of the latest events that pass a test. *)
(** [latestEventForObject], internal/controller/middlewareoperator_runtime_diagnostic.go:498-506 *)
Fixpoint latest_where (test : core_event → bool) (latest : option core_event) (events : list core_event) : option core_event :=
  match events with
  | [] => latest
  | event :: events =>
      let latest :=
        if negb (test event) then latest
        else match latest with
             | None => Some event
             | Some l => if (eventTimestamp l <? eventTimestamp event)%Z then Some event else latest
             end in
      latest_where test latest events
  end.

(** [latestEventForObject], internal/controller/middlewareoperator_runtime_diagnostic.go *)
Definition latestEventForObject (events : list core_event) (kind name : string) : option core_event :=
  latest_where (λ e, String.eqb (ev_kind e) kind && String.eqb (ev_name e) name) None events.

(** [latestInterestingEvent], internal/controller/middlewareoperator_runtime_diagnostic.go *)
Definition latestInterestingEvent (events : list core_event) : option core_event :=
  latest_where isInterestingEvent None events.

(** [runtimeEventChanged], internal/controller/middlewareoperator_runtime_diagnostic.go *)
Definition runtimeEventChanged (oldEvent newEvent : option core_event) : bool :=
  match oldEvent, newEvent with
  | Some o, Some n =>
      negb (String.eqb (ev_type o) (ev_type n)) || negb (String.eqb (ev_reason o) (ev_reason n)) ||
      negb (String.eqb (ev_message o) (ev_message n)) || negb (ev_count o =? ev_count n)%Z ||
      negb (eventTimestamp o =? eventTimestamp n)%Z
  | _, _ => true
  end.

(** [runtimePodChanged], internal/controller/middlewareoperator_runtime_diagnostic.go *)
Definition runtimePodChanged (oldPod newPod : option runtime_pod) : bool :=
  match oldPod, newPod with
  | Some o, Some n =>
      negb (bool_decide (rp_status o = rp_status n)) || negb (bool_decide (rp_volumes o = rp_volumes n)) ||
      negb (bool_decide (rp_owners o = rp_owners n)) || negb (bool_decide (rp_labels o = rp_labels n))
  | _, _ => true
  end.

(** ** The diagnosis *)

(** [diagnosticValue], internal/controller/middlewareoperator_runtime_diagnostic.go *)
Definition diagnosticValue (key value : string) : string :=
  if String.eqb (TrimSpace value) "" then "" else key +:+ "=" +:+ value.

(** [runtimeCause], internal/controller/middlewareoperator_runtime_diagnostic.go *)
Definition runtimeCause (parts : list string) : string :=
  Join (filter (λ part, TrimSpace part ≠ "") parts) "; ".

(** [deploymentRuntimeReady], internal/controller/middlewareoperator_runtime_diagnostic.go *)
Definition deploymentRuntimeReady `{!LabelSelectors} (deployment : runtime_deployment) : bool :=
  let status := rd_status deployment in
  if ((0 <? rd_generation deployment) && (0 <? ds_observedGeneration status) &&
      (ds_observedGeneration status <? rd_generation deployment))%Z then false
  else ((0 <? ds_replicas status) && (ds_readyReplicas status =? ds_replicas status) &&
        (ds_availableReplicas status =? ds_replicas status) && (ds_updatedReplicas status =? ds_replicas status) &&
        (ds_unavailableReplicas status =? 0))%Z.

(** [deriveRuntimePhase], internal/controller/middlewareoperator_controller.go:461-468 *)
Fixpoint failed_phase (conditions : list deployment_condition) : option string :=
  match conditions with
  | [] => None
  | cond :: conditions =>
      if String.eqb (dc_type cond) "ReplicaFailure" && String.eqb (dc_status cond) "True" then Some "ReplicaFailure"
      else if String.eqb (dc_type cond) "Progressing" && String.eqb (dc_status cond) "False" then Some "Unavailable"
      else failed_phase conditions
  end.

(** [deriveRuntimePhase], internal/controller/middlewareoperator_controller.go *)
Definition deriveRuntimePhase (status : deployment_status) : string :=
  if (ds_replicas status =? 0)%Z then "Scaled to Zero"
  else if ((ds_readyReplicas status =? ds_replicas status) && (0 <? ds_availableReplicas status) &&
           ((ds_updatedReplicas status =? 0) || (ds_updatedReplicas status =? ds_replicas status)) &&
           (ds_unavailableReplicas status =? 0))%Z then "Ready"
  else match failed_phase (ds_conditions status) with
  | Some phase => phase
  | None =>
      if ((ds_updatedReplicas status <? ds_replicas status) || (ds_readyReplicas status <? ds_replicas status))%Z
      then "Progressing" else "Unknown"
  end.

(** [deploymentFailureCondition], internal/controller/middlewareoperator_runtime_diagnostic.go *)
Definition deploymentFailureCondition (conditions : list deployment_condition) : option deployment_condition :=
  let first t s := snd <$> list_find (λ c, dc_type c = t ∧ dc_status c = s) conditions in
  match first "ReplicaFailure" "True", first "Progressing" "False" with
  | Some c, _ => Some c
  | None, Some c => Some c
  | None, None => first "Available" "False"
  end.

(** [deploymentObjectRef], internal/controller/middlewareoperator_runtime_diagnostic.go *)
Definition deploymentObjectRef `{!LabelSelectors} (deployment : runtime_deployment) : object_ref :=
  ObjectRef "apps/v1" "Deployment" (rd_namespace deployment) (rd_name deployment).
(** [podObjectRef], internal/controller/middlewareoperator_runtime_diagnostic.go *)
Definition podObjectRef (pod : runtime_pod) : object_ref := ObjectRef "v1" "Pod" (rp_namespace pod) (rp_name pod).
(** [pvcObjectRef], internal/controller/middlewareoperator_runtime_diagnostic.go *)
Definition pvcObjectRef (pvc : volume_claim) : object_ref :=
  ObjectRef "v1" "PersistentVolumeClaim" (vc_namespace pvc) (vc_name pvc).
(** [eventObjectRef], internal/controller/middlewareoperator_runtime_diagnostic.go *)
Definition eventObjectRef (event : core_event) : object_ref :=
  ObjectRef (ev_apiVersion event) (ev_kind event) (ev_namespace event) (ev_name event).

(** [firstWaitingContainer], internal/controller/middlewareoperator_runtime_diagnostic.go *)
Record waitingContainer := WaitingContainer {
  wc_container : string; wc_image : string; wc_reason : string; wc_message : string; wc_fieldPath : string }.

(** The first of the statuses that waits; [field] is where they are. *)
(** [firstWaitingContainer], internal/controller/middlewareoperator_runtime_diagnostic.go:368-379 *)
Fixpoint first_waiting (field : string) (statuses : list container_status) : option waitingContainer :=
  match statuses with
  | [] => None
  | c :: statuses =>
      match cst_waiting c with
      | None => first_waiting field statuses
      | Some w => Some (WaitingContainer (cst_name c) (cst_image c) (w_reason w) (w_message w)
                          ("status." +:+ field +:+ "[name=" +:+ cst_name c +:+ "].state.waiting"))
      end
  end.

(** [firstWaitingContainer], internal/controller/middlewareoperator_runtime_diagnostic.go *)
Definition firstWaitingContainer (pod : runtime_pod) : option waitingContainer :=
  match first_waiting "initContainerStatuses" (pst_init (rp_status pod)) with
  | Some w => Some w
  | None => first_waiting "containerStatuses" (pst_containers (rp_status pod))
  end.

(** [pvcStorageClassName], internal/controller/middlewareoperator_runtime_diagnostic.go *)
Definition pvcStorageClassName (pvc : volume_claim) : string := default "" (vc_storageClassName pvc).
(** [pvcAccessModes], internal/controller/middlewareoperator_runtime_diagnostic.go *)
Definition pvcAccessModes (pvc : volume_claim) : string := Join (vc_accessModes pvc) ",".

Section Diagnosis.
Context `{!LabelSelectors} (FormatRFC3339 : Z → string) (moName : string) (deployment : runtime_deployment).

(** [formatEventTime], internal/controller/middlewareoperator_runtime_diagnostic.go *)
Definition formatEventTime (t : Z) : string := if (t =? 0)%Z then "" else FormatRFC3339 t.

(** [eventDetails], internal/controller/middlewareoperator_runtime_diagnostic.go *)
Definition eventDetails (event : option core_event) : list string :=
  match event with
  | None => []
  | Some e =>
      [diagnosticValue "eventType" (ev_type e); diagnosticValue "eventReason" (ev_reason e);
       diagnosticValue "eventMessage" (ev_message e); diagnosticValue "eventCount" (pretty (ev_count e));
       diagnosticValue "eventFirstTimestamp" (formatEventTime (ev_firstTimestamp e));
       diagnosticValue "eventLastTimestamp" (formatEventTime (eventTimestamp e));
       diagnosticValue "eventSource" (ev_component e); diagnosticValue "reportingController" (ev_reportingController e)]
  end.

(** A diagnostic of the Deployment's operator about [failed]. *)
(** [runtimeDiagnostic], internal/controller/middlewareoperator_runtime_diagnostic.go *)
Definition runtimeDiagnostic (phase : string) (failed : object_ref) (fieldPath expected actual next : string) (cause : error) : string :=
  Message (Diagnostic phase "middlewareoperator-runtime"
    (ObjectRef "middleware.cn/v1" "MiddlewareOperator" (rd_namespace deployment) moName) failed (deploymentObjectRef deployment)
    fieldPath expected actual (rd_generation deployment) (ds_observedGeneration (rd_status deployment)) next) (Some cause).

(** Where to look next. *)
Definition describe (kind ns name : string) : string :=
  "kubectl describe " +:+ kind +:+ " " +:+ name +:+ " -n " +:+ ns +:+ "; kubectl get events -n " +:+ ns +:+
  " --field-selector involvedObject.name=" +:+ name +:+ " --sort-by=.lastTimestamp".

(** [deploymentNotReadyDiagnostic], internal/controller/middlewareoperator_runtime_diagnostic.go *)
Definition deploymentNotReadyDiagnostic : option string :=
  let status := rd_status deployment in
  if deploymentRuntimeReady deployment then None
  else if (default 1 (rd_replicas deployment) =? 0)%Z && (ds_replicas status =? 0)%Z then None
  else
    let causeParts :=
      ["replicas=" +:+ pretty (ds_replicas status); "updatedReplicas=" +:+ pretty (ds_updatedReplicas status);
       "readyReplicas=" +:+ pretty (ds_readyReplicas status); "availableReplicas=" +:+ pretty (ds_availableReplicas status);
       "unavailableReplicas=" +:+ pretty (ds_unavailableReplicas status)] in
    let actual := runtimeCause causeParts in
    let '(causeParts, actual) :=
      match deploymentFailureCondition (ds_conditions status) with
      | None => (causeParts, actual)
      | Some condition =>
          (causeParts ++ ["deploymentCondition=" +:+ dc_type condition; "conditionStatus=" +:+ dc_status condition;
                          diagnosticValue "reason" (dc_reason condition); diagnosticValue "message" (dc_message condition)],
           if negb (String.eqb (dc_reason condition) "") then dc_reason condition else actual)
      end in
    Some (runtimeDiagnostic PhaseWorkloadReadiness (deploymentObjectRef deployment) "status"
      "observedGeneration>=generation, updatedReplicas==replicas, readyReplicas==replicas, availableReplicas==replicas, unavailableReplicas=0"
      actual ("kubectl describe deployment " +:+ rd_name deployment +:+ " -n " +:+ rd_namespace deployment +:+
              "; kubectl rollout status deployment/" +:+ rd_name deployment +:+ " -n " +:+ rd_namespace deployment)
      (new_error (runtimeCause causeParts))).

(** [podConditionDiagnostic], internal/controller/middlewareoperator_runtime_diagnostic.go *)
Fixpoint pod_condition_of (pod : runtime_pod) (events : list core_event) (conditions : list pod_condition) : option string :=
  match conditions with
  | [] => None
  | condition :: conditions =>
      if negb (String.eqb (pc_status condition) "False") && negb (String.eqb (pc_status condition) "Unknown")
      then pod_condition_of pod events conditions
      else if bool_decide (pc_type condition ∉ ["PodScheduled"; "ContainersReady"; "Ready"])
      then pod_condition_of pod events conditions
      else
        let event := latestEventForObject events "Pod" (rp_name pod) in
        Some (runtimeDiagnostic PhaseWorkloadReadiness (podObjectRef pod)
          ("status.conditions[type=" +:+ pc_type condition +:+ "]") "pod condition True" (pc_status condition)
          (describe "pod" (rp_namespace pod) (rp_name pod))
          (new_error (runtimeCause (
            ["podCondition=" +:+ pc_type condition; diagnosticValue "nodeName" (rp_nodeName pod);
             diagnosticValue "serviceAccountName" (rp_serviceAccountName pod);
             "reason=" +:+ pc_reason condition; "message=" +:+ pc_message condition] ++ eventDetails event))))
  end.

(** [podWaitingDiagnostic], internal/controller/middlewareoperator_runtime_diagnostic.go:224-249 *)
Definition pod_waiting (pod : runtime_pod) (events : list core_event) (waiting : waitingContainer) : string :=
  let event := latestEventForObject events "Pod" (rp_name pod) in
  runtimeDiagnostic PhaseWorkloadReadiness (podObjectRef pod) (wc_fieldPath waiting) "container ready" (wc_reason waiting)
    (describe "pod" (rp_namespace pod) (rp_name pod))
    (new_error (runtimeCause (
      ["container=" +:+ wc_container waiting; "image=" +:+ wc_image waiting; diagnosticValue "nodeName" (rp_nodeName pod);
       diagnosticValue "serviceAccountName" (rp_serviceAccountName pod); "reason=" +:+ wc_reason waiting;
       "message=" +:+ wc_message waiting] ++ eventDetails event))).

(** [podWaitingDiagnostic], internal/controller/middlewareoperator_runtime_diagnostic.go:221-254 *)
Fixpoint first_pod_diagnostic (pods : list runtime_pod) (events : list core_event) : option string :=
  match pods with
  | [] => None
  | pod :: pods =>
      match firstWaitingContainer pod with
      | Some waiting => Some (pod_waiting pod events waiting)
      | None =>
          match pod_condition_of pod events (pst_conditions (rp_status pod)) with
          | Some diagnostic => Some diagnostic
          | None => first_pod_diagnostic pods events
          end
      end
  end.

(** [podWaitingDiagnostic], internal/controller/middlewareoperator_runtime_diagnostic.go *)
Definition podWaitingDiagnostic (pods : list runtime_pod) (events : list core_event) : option string :=
  first_pod_diagnostic (sort_by rp_name pods) events.

(** [pvcPendingDiagnostic], internal/controller/middlewareoperator_runtime_diagnostic.go:300-323 *)
Fixpoint first_pending_claim (pvcs : list volume_claim) (events : list core_event) : option string :=
  match pvcs with
  | [] => None
  | pvc :: pvcs =>
      if negb (String.eqb (vc_phase pvc) "Pending") then first_pending_claim pvcs events
      else
        let event := latestEventForObject events "PersistentVolumeClaim" (vc_name pvc) in
        Some (runtimeDiagnostic PhaseWorkloadReadiness (pvcObjectRef pvc) "status.phase" "Bound" (vc_phase pvc)
          (describe "pvc" (vc_namespace pvc) (vc_name pvc))
          (new_error (runtimeCause (
            ["pvc pending"; "phase=" +:+ vc_phase pvc; diagnosticValue "storageClassName" (pvcStorageClassName pvc);
             diagnosticValue "accessModes" (pvcAccessModes pvc);
             diagnosticValue "requestedStorage" (vc_requestedStorage pvc)] ++ eventDetails event))))
  end.

(** [pvcPendingDiagnostic], internal/controller/middlewareoperator_runtime_diagnostic.go *)
Definition pvcPendingDiagnostic (pvcs : list volume_claim) (events : list core_event) : option string :=
  first_pending_claim (sort_by vc_name pvcs) events.

(** [warningEventDiagnostic], internal/controller/middlewareoperator_runtime_diagnostic.go *)
Definition warningEventDiagnostic (events : list core_event) : option string :=
  event ← latestInterestingEvent events;
  Some (runtimeDiagnostic PhaseWorkloadReadiness (eventObjectRef event) "events" "no Warning events" (ev_reason event)
    (describe (ToLower (ev_kind event)) (ev_namespace event) (ev_name event))
    (new_error (runtimeCause (eventDetails (Some event))))).

(** [deriveRuntimeDiagnostic], internal/controller/middlewareoperator_runtime_diagnostic.go:117-129 *)
Definition stale_status_diagnostic : option string :=
  let observed := ds_observedGeneration (rd_status deployment) in
  if ((0 <? observed) && (0 <? rd_generation deployment) && (observed <? rd_generation deployment))%Z
  then Some (runtimeDiagnostic PhaseRuntimeReconcile (deploymentObjectRef deployment) "" "" ""
    ("kubectl rollout status deployment/" +:+ rd_name deployment +:+ " -n " +:+ rd_namespace deployment +:+
     "; kubectl describe deployment/" +:+ rd_name deployment +:+ " -n " +:+ rd_namespace deployment)
    (new_error "deployment status is stale"))
  else None.

(** [deriveRuntimeDiagnostic], internal/controller/middlewareoperator_runtime_diagnostic.go:130-143 *)
Definition collection_diagnostic (collectionErr : option error) : option string :=
  err ← collectionErr;
  Some (runtimeDiagnostic PhaseRuntimeReconcile (deploymentObjectRef deployment) "runtimeObjectSnapshot"
    "list ReplicaSets, Pods, PVCs and Events" "list failed"
    ("check operator RBAC for apps/replicasets and core pods,persistentvolumeclaims,events; kubectl auth can-i list pods -n " +:+
     rd_namespace deployment +:+ " --as=<operator-service-account>") err).

(** A diagnostic is never empty, so that the empty text of the code is [None]. *)
(** [deriveRuntimeDiagnostic], internal/controller/middlewareoperator_runtime_diagnostic.go *)
Definition deriveRuntimeDiagnostic (replicaSets : list replica_set) (pods : list runtime_pod) (pvcs : list volume_claim)
    (events : list core_event) (collectionErr : option error) : string :=
  let relatedReplicaSets := filterRuntimeReplicaSets deployment replicaSets in
  let relatedPods := filterRuntimePods deployment relatedReplicaSets pods in
  let relatedPVCs := filterRuntimePVCs deployment relatedPods pvcs in
  let relatedEvents := filterRuntimeEvents deployment relatedReplicaSets relatedPods relatedPVCs events in
  if deploymentRuntimeReady deployment then "Ready"
  else
    let diagnoses :=
      [podWaitingDiagnostic relatedPods relatedEvents; pvcPendingDiagnostic relatedPVCs relatedEvents;
       stale_status_diagnostic; collection_diagnostic collectionErr; warningEventDiagnostic relatedEvents;
       deploymentNotReadyDiagnostic] in
    default (deriveRuntimePhase (rd_status deployment)) (head (omap id diagnoses)).
End Diagnosis.

(** ** Owners of a Deployment *)

(** [hasMiddlewareOperatorOwner], internal/controller/middlewareoperator_runtime_controller.go *)
Definition hasMiddlewareOperatorOwner `{!LabelSelectors} (deployment : runtime_deployment) : bool :=
  existsb (λ r, String.eqb (or_kind r) "MiddlewareOperator") (rd_owners deployment).

(** [middlewareOperatorNameFromDeployment], internal/controller/middlewareoperator_runtime_controller.go *)
Definition middlewareOperatorNameFromDeployment `{!LabelSelectors} (deployment : runtime_deployment) : result error string :=
  let middlewareOperatorOwners := filter (λ r, or_kind r = "MiddlewareOperator") (rd_owners deployment) in
  let controllerOwners := filter (λ r, or_controller r = Some true) middlewareOperatorOwners in
  match controllerOwners with
  | [owner] => if String.eqb (or_name owner) ""
               then Err (new_error "controller MiddlewareOperator ownerReference name is empty") else Ok (or_name owner)
  | _ :: _ :: _ => Err (new_error ("expected at most 1 controller MiddlewareOperator ownerReference, got " +:+
                                   pretty (length controllerOwners)))
  | [] =>
      match middlewareOperatorOwners with
      | [] => Err (new_error "missing MiddlewareOperator ownerReference")
      | [owner] => if String.eqb (or_name owner) ""
                   then Err (new_error "MiddlewareOperator ownerReference name is empty") else Ok (or_name owner)
      | _ => Err (new_error ("expected exactly 1 MiddlewareOperator ownerReference when controller owner is absent, got " +:+
                             pretty (length middlewareOperatorOwners)))
      end
  end.

(** [deploymentRuntimeStatusChanged], internal/controller/middlewareoperator_runtime_controller.go *)
Definition deploymentRuntimeStatusChanged `{!LabelSelectors} (oldDeployment newDeployment : runtime_deployment) : bool :=
  negb (bool_decide (rd_owners oldDeployment = rd_owners newDeployment)) ||
  negb (bool_decide (rd_status oldDeployment = rd_status newDeployment)).

(** ** What the controller calls *)

Inductive rcall `{!LabelSelectors} : Type → Type :=
  | RtOp {R} (c : ocall R) : rcall R
  | RtDeployment (ns name : string) : rcall (result error runtime_deployment)
  | RtReplicaSet (ns name : string) : rcall (result error replica_set)
  | RtPod (ns name : string) : rcall (result error runtime_pod)
  | ListDeployments (ns : string) : rcall (result error (list runtime_deployment))
  | ListReplicaSets (ns : string) : rcall (result error (list replica_set))
  | ListPods (ns : string) : rcall (result error (list runtime_pod))
  | ListPVCs (ns : string) : rcall (result error (list volume_claim))
  | ListEvents (ns : string) : rcall (result error (list core_event)).

Section Controller.
Context `{!LabelSelectors, !RetryOnConflict ocall error is_conflict}.
Context (FormatRFC3339 : Z → string) (statusAPIReader : bool).
Abbreviation rprog := (prog rcall).
Abbreviation revent := (event rcall).

Definition op {A} (p : oprog A) : rprog A := embed (@RtOp _) p.

(** [errors.Join] of two errors; its kind is that of the first. *)
Definition join_errors (a b : option error) : option error :=
  match a, b with
  | None, _ => b
  | _, None => a
  | Some a, Some b => Some (MkError (e_kind a) (e_msg a +:+ String newline (e_msg b))
      (match e_status a with Some s => Some s | None => e_status b end) (e_diagnosed a || e_diagnosed b))
  end.

(** [runtimeObjectSnapshot], internal/controller/middlewareoperator_runtime_diagnostic.go *)
Record runtimeObjectSnapshot := RuntimeObjectSnapshot {
  sn_replicaSets : list replica_set; sn_pods : list runtime_pod; sn_pvcs : list volume_claim;
  sn_events : list core_event; sn_err : option error }.

(** A list, or nothing and the error joined to those so far. *)
(** [collectRuntimeObjects], internal/controller/middlewareoperator_runtime_diagnostic.go:51-57 *)
Definition listed {A} (what : string) (r : result error (list A)) (err : option error) : list A * option error :=
  match r with
  | Ok items => (items, err)
  | Err e => ([], join_errors err (Some (wrap_error ("list " +:+ what +:+ " for runtime diagnostics") e)))
  end.

(** [MiddlewareOperatorRuntimeReconciler.collectRuntimeObjects], internal/controller/middlewareoperator_runtime_diagnostic.go *)
Definition collectRuntimeObjects (deployment : runtime_deployment) : rprog runtimeObjectSnapshot :=
  let ns := rd_namespace deployment in
  r ← call (ListReplicaSets ns); let '(replicaSets, err) := listed "ReplicaSets" r None in
  r ← call (ListPods ns); let '(pods, err) := listed "Pods" r err in
  r ← call (ListPVCs ns); let '(pvcs, err) := listed "PVCs" r err in
  r ← call (ListEvents ns); let '(events, err) := listed "Events" r err in
  Ret (RuntimeObjectSnapshot replicaSets pods pvcs events err).

(** [MiddlewareOperatorRuntimeReconciler.Reconcile], internal/controller/middlewareoperator_runtime_controller.go *)
Definition Reconcile_runtime (ns name : string) : rprog (option error) :=
  r ← call (RtDeployment ns name);
  match r with
  | Err e => Ret (if is_not_found e then None else Some e)
  | Ok deployment =>
      match middlewareOperatorNameFromDeployment deployment with
      | Err e => Ret (Some e)
      | Ok moName =>
          r ← op (GetMiddlewareOperator moName (rd_namespace deployment));
          match r with
          | Err e => Ret (Some e)
          | Ok mo =>
              let operatorStatus := <[rd_name deployment := rd_status deployment]> (os_operatorStatus (mo_status mo)) in
              snapshot ← collectRuntimeObjects deployment;
              let runtime := deriveRuntimeDiagnostic FormatRFC3339 moName deployment (sn_replicaSets snapshot)
                               (sn_pods snapshot) (sn_pvcs snapshot) (sn_events snapshot) (sn_err snapshot) in
              let ready := deploymentRuntimeReady deployment && String.eqb runtime "Ready" in
              op (UpdateMiddlewareOperatorRuntimeStatus statusAPIReader moName (rd_namespace deployment) operatorStatus
                    (pretty (ds_availableReplicas (rd_status deployment)) +:+ "/" +:+ pretty (ds_replicas (rd_status deployment)))
                    ready runtime)
          end
      end
  end.

(** ** Which Deployments an event is about *)

(** A request is the namespace and the name of a Deployment. *)
Definition request : Type := string * string.

(** [requestsFromMap], internal/controller/middlewareoperator_runtime_diagnostic.go *)
Definition requestsFromMap (requests : gmap request ()) : list request :=
  sort_by (λ r : request, namespaced_name r.1 r.2) (map_to_list requests).*1.

Definition requests_of (l : list request) : gmap request () := list_to_map (map (λ r, (r, ())) l).

Definition deployment_request (deployment : runtime_deployment) : request := (rd_namespace deployment, rd_name deployment).

(** [MiddlewareOperatorRuntimeReconciler.deploymentNameToRuntimeRequest], internal/controller/middlewareoperator_runtime_diagnostic.go *)
Definition deploymentNameToRuntimeRequest (ns name : string) : rprog (list request) :=
  r ← call (RtDeployment ns name);
  Ret (match r with
       | Ok deployment => if negb (hasMiddlewareOperatorOwner deployment) then [] else [(ns, name)]
       | Err _ => []
       end).

(** [MiddlewareOperatorRuntimeReconciler.middlewareOperatorDeploymentRequestsForNamespace], internal/controller/middlewareoperator_runtime_diagnostic.go *)
Definition middlewareOperatorDeploymentRequestsForNamespace (ns : string) : rprog (list request) :=
  r ← call (ListDeployments ns);
  Ret (match r with
       | Ok deployments =>
           requestsFromMap (requests_of (map deployment_request (filter (λ d, hasMiddlewareOperatorOwner d = true) deployments)))
       | Err _ => []
       end).

(** [MiddlewareOperatorRuntimeReconciler.replicaSetNameToDeploymentRequests], internal/controller/middlewareoperator_runtime_diagnostic.go *)
Definition replicaSetNameToDeploymentRequests (ns name : string) : rprog (list request) :=
  r ← call (RtReplicaSet ns name);
  match r with
  | Err _ => middlewareOperatorDeploymentRequestsForNamespace ns
  | Ok replicaSet =>
      match list_find (λ r, or_kind r = "Deployment") (rs_owners replicaSet) with
      | Some (_, owner) => deploymentNameToRuntimeRequest ns (or_name owner)
      | None => Ret []
      end
  end.

(** [MiddlewareOperatorRuntimeReconciler.podToDeploymentRequests], internal/controller/middlewareoperator_runtime_diagnostic.go *)
Definition podToDeploymentRequests (pod : runtime_pod) : rprog (list request) :=
  match list_find (λ r, or_kind r = "Deployment" ∨ or_kind r = "ReplicaSet") (rp_owners pod) with
  | Some (_, owner) =>
      if String.eqb (or_kind owner) "Deployment" then deploymentNameToRuntimeRequest (rp_namespace pod) (or_name owner)
      else replicaSetNameToDeploymentRequests (rp_namespace pod) (or_name owner)
  | None =>
      r ← call (ListDeployments (rp_namespace pod));
      Ret (match r with
           | Ok deployments =>
               requestsFromMap (requests_of (map deployment_request (filter (λ d,
                 hasMiddlewareOperatorOwner d = true ∧ podMatchesDeploymentSelector d pod = true) deployments)))
           | Err _ => []
           end)
  end.

(** [podUsesPVC], internal/controller/middlewareoperator_runtime_diagnostic.go *)
Definition podUsesPVC (pod : runtime_pod) (claimName : string) : bool :=
  existsb (λ v, bool_decide (v_claim v = Some claimName)) (rp_volumes pod).

(** The requests of the pods that use the claim. *)
(** [MiddlewareOperatorRuntimeReconciler.runtimePVCToDeploymentRequests], internal/controller/middlewareoperator_runtime_diagnostic.go:671-680 *)
Fixpoint requests_of_pods (pods : list runtime_pod) (claimName : string) (requestsByName : gmap request ()) :
    rprog (gmap request ()) :=
  match pods with
  | [] => Ret requestsByName
  | pod :: pods =>
      if negb (podUsesPVC pod claimName) then requests_of_pods pods claimName requestsByName
      else
        requests ← podToDeploymentRequests pod;
        requests_of_pods pods claimName (foldl (λ m r, <[r := ()]> m) requestsByName requests)
  end.

(** [MiddlewareOperatorRuntimeReconciler.runtimePVCToDeploymentRequests], internal/controller/middlewareoperator_runtime_diagnostic.go *)
Definition runtimePVCToDeploymentRequests (ns name : string) : rprog (list request) :=
  r ← call (ListPods ns);
  match r with
  | Err _ => middlewareOperatorDeploymentRequestsForNamespace ns
  | Ok pods =>
      requestsByName ← requests_of_pods pods name ∅;
      if decide (requestsByName = ∅) then middlewareOperatorDeploymentRequestsForNamespace ns
      else Ret (requestsFromMap requestsByName)
  end.

(** [MiddlewareOperatorRuntimeReconciler.runtimeEventToDeploymentRequests], internal/controller/middlewareoperator_runtime_diagnostic.go *)
Definition runtimeEventToDeploymentRequests (event : core_event) : rprog (list request) :=
  if negb (isInterestingEvent event) then Ret []
  else if String.eqb (ev_kind event) "Deployment" then deploymentNameToRuntimeRequest (ev_namespace event) (ev_name event)
  else if String.eqb (ev_kind event) "ReplicaSet" then replicaSetNameToDeploymentRequests (ev_namespace event) (ev_name event)
  else if String.eqb (ev_kind event) "Pod" then
    r ← call (RtPod (ev_namespace event) (ev_name event));
    match r with
    | Err _ => middlewareOperatorDeploymentRequestsForNamespace (ev_namespace event)
    | Ok pod => podToDeploymentRequests pod
    end
  else if String.eqb (ev_kind event) "PersistentVolumeClaim"
  then runtimePVCToDeploymentRequests (ev_namespace event) (ev_name event)
  else Ret [].
End Controller.

(** ** What the diagnosis blames *)

(** The pods and the claims that keep a Deployment from being ready. *)
Definition condition_ails (condition : pod_condition) : bool :=
  (String.eqb (pc_status condition) "False" || String.eqb (pc_status condition) "Unknown") &&
  bool_decide (pc_type condition ∈ ["PodScheduled"; "ContainersReady"; "Ready"]).
Definition pod_ails (pod : runtime_pod) : bool :=
  bool_decide (is_Some (firstWaitingContainer pod)) || existsb condition_ails (pst_conditions (rp_status pod)).
Definition claim_ails (pvc : volume_claim) : bool := String.eqb (vc_phase pvc) "Pending".

(** An element that passes the test, the least one by name. *)
Definition least_such {A} (key : A → string) (test : A → bool) (l : list A) (x : A) : Prop :=
  x ∈ l ∧ test x = true ∧ ∀ y, y ∈ l → test y = true → String.le (key x) (key y).

Lemma sort_by_least {A} (key : A → string) (test : A → bool) l l1 x l2 :
  sort_by key l = l1 ++ x :: l2 → Forall (λ y, test y = false) l1 → test x = true → least_such key test l x.
Proof.
  intros Hl Hno Hx. pose proof (Sorted_StronglySorted _ _ (sort_by_sorted key l)) as Hs.
  assert (Hin : ∀ y, y ∈ l ↔ y ∈ l1 ++ x :: l2) by (intros y; by rewrite <- Hl, sort_by_Permutation).
  split_and!; [apply Hin; set_solver|done|]. intros y [Hy | [->|Hy]%elem_of_cons]%Hin%elem_of_app Ht.
  - rewrite list.Forall_forall in Hno. by rewrite (Hno y Hy) in Ht.
  - done.
  - rewrite Hl in Hs. apply StronglySorted_app_1_r in Hs. apply StronglySorted_inv in Hs as [_ Hle].
    rewrite list.Forall_forall in Hle. exact (Hle y Hy).
Qed.

Section Verdict.
Context `{!LabelSelectors} (FormatRFC3339 : Z → string) (moName : string) (deployment : runtime_deployment).

(** The text is a diagnostic of the operator's controller about [failed]. *)
Definition blames (failed : object_ref) (text : string) : Prop :=
  ∃ d cause, text = Message d (Some cause) ∧ d_controller d = "middlewareoperator-runtime" ∧
    d_resource d = ObjectRef "middleware.cn/v1" "MiddlewareOperator" (rd_namespace deployment) moName ∧
    d_owner d = deploymentObjectRef deployment ∧ d_failedObject d = failed ∧
    d_generation d = rd_generation deployment ∧ d_observedGeneration d = ds_observedGeneration (rd_status deployment).

Lemma runtimeDiagnostic_blames phase failed fieldPath expected actual next cause :
  blames failed (runtimeDiagnostic moName deployment phase failed fieldPath expected actual next cause).
Proof. unfold runtimeDiagnostic. eexists _, _. by split_and!. Qed.

(** A diagnostic names its controller, so it is never a phase. *)
Lemma blames_not_phase failed text : blames failed text → text ≠ "Ready".
Proof.
  intros (d & cause & -> & Hc & _) Heq.
  assert (contains ("controller=" +:+ d_controller d) (Message d (Some cause)) = true) as Hin.
  { apply in_message. unfold message_parts. rewrite Hc. in_parts. }
  by rewrite Heq, Hc in Hin.
Qed.

Lemma pod_condition_spec pod events conditions :
  match pod_condition_of FormatRFC3339 moName deployment pod events conditions with
  | Some text => existsb condition_ails conditions = true ∧ blames (podObjectRef pod) text
  | None => existsb condition_ails conditions = false
  end.
Proof.
  induction conditions as [|c cs IH]; [done|]. cbn [pod_condition_of existsb].
  assert (Ha : condition_ails c = negb (negb (String.eqb (pc_status c) "False") && negb (String.eqb (pc_status c) "Unknown")) &&
                                  negb (bool_decide (pc_type c ∉ ["PodScheduled"; "ContainersReady"; "Ready"]))).
  { unfold condition_ails. by rewrite bool_decide_not, negb_andb, !negb_involutive. }
  rewrite Ha. destruct (negb (String.eqb (pc_status c) "False") && negb (String.eqb (pc_status c) "Unknown")); cbn [negb andb orb]; [exact IH|].
  destruct (bool_decide _); simpl; [exact IH|]. split; [done|]. apply runtimeDiagnostic_blames.
Qed.

(** The first of a list that fails its test; the rest is not looked at. *)
Lemma first_pod_spec pods events :
  match first_pod_diagnostic FormatRFC3339 moName deployment pods events with
  | Some text => ∃ l1 pod l2, pods = l1 ++ pod :: l2 ∧ Forall (λ p, pod_ails p = false) l1 ∧ pod_ails pod = true ∧
                   blames (podObjectRef pod) text
  | None => Forall (λ p, pod_ails p = false) pods
  end.
Proof.
  induction pods as [|pod pods IH]; [constructor|]. cbn [first_pod_diagnostic].
  destruct (firstWaitingContainer pod) as [w|] eqn:Ew.
  { exists [], pod, pods. split_and!; [done|constructor| |apply runtimeDiagnostic_blames].
    unfold pod_ails. rewrite Ew. by rewrite bool_decide_eq_true_2. }
  pose proof (pod_condition_spec pod events (pst_conditions (rp_status pod))) as Hc.
  assert (Ha : pod_ails pod = existsb condition_ails (pst_conditions (rp_status pod))).
  { unfold pod_ails. rewrite Ew. by rewrite bool_decide_eq_false_2 by (by intros []). }
  destruct (pod_condition_of _ _ _ _ _ _) as [text|].
  - destruct Hc as [Hc Hb]. exists [], pod, pods. split_and!; [done|constructor|congruence|done].
  - destruct (first_pod_diagnostic _ _ _ _ _) as [text|]; [|by constructor; [congruence|]].
    destruct IH as (l1 & pod' & l2 & -> & Hl1 & ? & ?). exists (pod :: l1), pod', l2.
    split_and!; [done|by constructor; [congruence|]|done..].
Qed.

Lemma first_claim_spec pvcs events :
  match first_pending_claim FormatRFC3339 moName deployment pvcs events with
  | Some text => ∃ l1 pvc l2, pvcs = l1 ++ pvc :: l2 ∧ Forall (λ p, claim_ails p = false) l1 ∧ claim_ails pvc = true ∧
                   blames (pvcObjectRef pvc) text
  | None => Forall (λ p, claim_ails p = false) pvcs
  end.
Proof.
  induction pvcs as [|pvc pvcs IH]; [constructor|]. cbn [first_pending_claim].
  destruct (String.eqb (vc_phase pvc) "Pending") eqn:Ep; simpl.
  { exists [], pvc, pvcs. split_and!; [done|constructor|done|apply runtimeDiagnostic_blames]. }
  destruct (first_pending_claim _ _ _ _ _) as [text|]; [|by constructor].
  destruct IH as (l1 & pvc' & l2 & -> & Hl1 & ? & ?). exists (pvc :: l1), pvc', l2.
  split_and!; [done|by constructor|done..].
Qed.

(** The verdict of a Deployment that is not ready, by what is found first. *)
Definition verdict_of (pods : list runtime_pod) (pvcs : list volume_claim) (events : list core_event)
    (collectionErr : option error) (text : string) : Prop :=
  let status := rd_status deployment in
  let stale := (0 < ds_observedGeneration status ∧ ds_observedGeneration status < rd_generation deployment)%Z in
  (∃ pod, least_such rp_name pod_ails pods pod ∧ blames (podObjectRef pod) text) ∨
  (∀ pod, pod ∈ pods → pod_ails pod = false) ∧
  ((∃ pvc, least_such vc_name claim_ails pvcs pvc ∧ blames (pvcObjectRef pvc) text) ∨
   (∀ pvc, pvc ∈ pvcs → claim_ails pvc = false) ∧
   ((stale ∨ is_Some collectionErr) ∧ blames (deploymentObjectRef deployment) text ∨
    ¬ stale ∧ collectionErr = None ∧
    ((∃ event, event ∈ events ∧ blames (eventObjectRef event) text ∧
        ∀ other, other ∈ events → (eventTimestamp other ≤ eventTimestamp event)%Z) ∨
     events = [] ∧
     (blames (deploymentObjectRef deployment) text ∧ ¬ (default 1 (rd_replicas deployment) = 0 ∧ ds_replicas status = 0)%Z ∨
      text = "Scaled to Zero" ∧ rd_replicas deployment = Some 0%Z ∧ ds_replicas status = 0%Z)))).

Lemma latest_where_spec test latest events :
  match latest_where test latest events with
  | Some e => (latest = Some e ∨ e ∈ events ∧ test e = true) ∧
      (∀ other, (latest = Some other ∨ other ∈ events ∧ test other = true) → (eventTimestamp other ≤ eventTimestamp e)%Z)
  | None => latest = None ∧ ∀ other, other ∈ events → test other = false
  end.
Proof.
  revert latest. induction events as [|e events IH]; intros latest; cbn [latest_where].
  - destruct latest; [|by split; [|intros ? ?%elem_of_nil]]. split; [by left|]. intros other [[= ->]|[?%elem_of_nil _]]; [lia|done].
  - destruct (test e) eqn:Et; cbn [negb];
      match goal with |- context [latest_where test ?n events] => specialize (IH n); destruct (latest_where test n events) as [r|] end.
    + destruct IH as [Hr Hmax]. destruct latest as [l|].
      * destruct (Z.ltb_spec (eventTimestamp l) (eventTimestamp e)) as [Hlt|Hge]; split.
        -- destruct Hr as [[= ->]|[? ?]]; right; (split; [set_solver|done]).
        -- intros other [[= ->] | [[->|Hin]%elem_of_cons Ht]]; [|by apply Hmax; left|by apply Hmax; right].
           specialize (Hmax e (or_introl eq_refl)). lia.
        -- destruct Hr as [?|[? ?]]; [by left|right; split; [set_solver|done]].
        -- intros other [[= ->] | [[->|Hin]%elem_of_cons Ht]]; [by apply Hmax; left| |by apply Hmax; right].
           specialize (Hmax l (or_introl eq_refl)). lia.
      * split; [destruct Hr as [[= ->]|[? ?]]; right; (split; [set_solver|done])|].
        intros other [? | [[->|Hin]%elem_of_cons Ht]]; [done|by apply Hmax; left|by apply Hmax; right].
    + exfalso. destruct IH as [Hn _], latest; [|done]. by destruct (_ <? _)%Z.
    + destruct IH as [Hr Hmax]. split; [destruct Hr as [?|[? ?]]; [by left|right; split; [set_solver|done]]|].
      intros other [? | [[->|Hin]%elem_of_cons Ht]]; [by apply Hmax; left|congruence|by apply Hmax; right].
    + destruct IH as [-> Hno]. split; [done|]. intros other [->|?]%elem_of_cons; auto.
Qed.

Lemma pods_verdict pods events :
  match podWaitingDiagnostic FormatRFC3339 moName deployment pods events with
  | Some text => ∃ pod, least_such rp_name pod_ails pods pod ∧ blames (podObjectRef pod) text
  | None => ∀ pod, pod ∈ pods → pod_ails pod = false
  end.
Proof.
  unfold podWaitingDiagnostic. pose proof (first_pod_spec (sort_by rp_name pods) events) as Hf.
  destruct (first_pod_diagnostic _ _ _ _ _).
  - destruct Hf as (l1 & pod & l2 & Hl & ? & ? & ?). exists pod. split; [by eapply sort_by_least|done].
  - intros pod Hin. rewrite list.Forall_forall in Hf. apply Hf. by rewrite sort_by_Permutation.
Qed.

Lemma claims_verdict pvcs events :
  match pvcPendingDiagnostic FormatRFC3339 moName deployment pvcs events with
  | Some text => ∃ pvc, least_such vc_name claim_ails pvcs pvc ∧ blames (pvcObjectRef pvc) text
  | None => ∀ pvc, pvc ∈ pvcs → claim_ails pvc = false
  end.
Proof.
  unfold pvcPendingDiagnostic. pose proof (first_claim_spec (sort_by vc_name pvcs) events) as Hf.
  destruct (first_pending_claim _ _ _ _ _).
  - destruct Hf as (l1 & pvc & l2 & Hl & ? & ? & ?). exists pvc. split; [by eapply sort_by_least|done].
  - intros pvc Hin. rewrite list.Forall_forall in Hf. apply Hf. by rewrite sort_by_Permutation.
Qed.

Lemma event_verdict events : (∀ e, e ∈ events → isInterestingEvent e = true) →
  match warningEventDiagnostic FormatRFC3339 moName deployment events with
  | Some text => ∃ event, event ∈ events ∧ blames (eventObjectRef event) text ∧
      ∀ other, other ∈ events → (eventTimestamp other ≤ eventTimestamp event)%Z
  | None => events = []
  end.
Proof.
  intros Hint. unfold warningEventDiagnostic, latestInterestingEvent.
  pose proof (latest_where_spec isInterestingEvent None events) as Hl. destruct (latest_where _ _ _) as [e|]; simpl.
  - destruct Hl as [[?|[Hin _]] Hmax]; [done|]. exists e. split_and!; [done|apply runtimeDiagnostic_blames|].
    intros other Hother. apply Hmax. right. auto.
  - destruct Hl as [_ Hno]. destruct events as [|e events]; [done|].
    specialize (Hno e ltac:(by left)). by rewrite (Hint e ltac:(by left)) in Hno.
Qed.

Lemma workload_verdict : deploymentRuntimeReady deployment = false →
  match deploymentNotReadyDiagnostic moName deployment with
  | Some text => blames (deploymentObjectRef deployment) text ∧
      ¬ (default 1 (rd_replicas deployment) = 0 ∧ ds_replicas (rd_status deployment) = 0)%Z
  | None => rd_replicas deployment = Some 0%Z ∧ ds_replicas (rd_status deployment) = 0%Z
  end.
Proof.
  intros Hready. unfold deploymentNotReadyDiagnostic. rewrite Hready.
  destruct (Z.eqb_spec (default 1%Z (rd_replicas deployment)) 0), (Z.eqb_spec (ds_replicas (rd_status deployment)) 0); simpl.
  1: by destruct (rd_replicas deployment); simplify_eq/=.
  all: destruct (deploymentFailureCondition _); simpl; (split; [apply runtimeDiagnostic_blames|tauto]).
Qed.

Lemma verdict_not_ready pods pvcs events err text : verdict_of pods pvcs events err text → text ≠ "Ready".
Proof.
  unfold verdict_of. intros Hv.
  repeat match goal with Hx : _ ∨ _ |- _ => destruct Hx as [Hx|Hx] | Hx : _ ∧ _ |- _ => destruct Hx | Hx : ∃ _, _ |- _ => destruct Hx end;
    first [by eapply blames_not_phase | by intros ->].
Qed.

Lemma deriveRuntimeDiagnostic_verdict replicaSets pods pvcs events collectionErr :
  let relatedReplicaSets := filterRuntimeReplicaSets deployment replicaSets in
  let relatedPods := filterRuntimePods deployment relatedReplicaSets pods in
  let relatedPVCs := filterRuntimePVCs deployment relatedPods pvcs in
  let relatedEvents := filterRuntimeEvents deployment relatedReplicaSets relatedPods relatedPVCs events in
  deploymentRuntimeReady deployment = false →
  verdict_of relatedPods relatedPVCs relatedEvents collectionErr
    (deriveRuntimeDiagnostic FormatRFC3339 moName deployment replicaSets pods pvcs events collectionErr).
Proof.
  cbv zeta. intros Hready. unfold deriveRuntimeDiagnostic. rewrite Hready.
  set (rpods := filterRuntimePods _ _ _). set (rpvcs := filterRuntimePVCs _ _ _).
  assert (Hint : ∀ e, e ∈ filterRuntimeEvents deployment (filterRuntimeReplicaSets deployment replicaSets) rpods rpvcs events →
    isInterestingEvent e = true) by (intros e (? & _)%list_elem_of_filter; tauto).
  set (revents := filterRuntimeEvents _ _ _ _ _) in *.
  pose proof (pods_verdict rpods revents) as Hp. pose proof (claims_verdict rpvcs revents) as Hc.
  pose proof (event_verdict revents Hint) as He. pose proof (workload_verdict Hready) as Hw.
  destruct (podWaitingDiagnostic _ _ _ _ _) as [text|]; [by left|]. right. split; [exact Hp|].
  destruct (pvcPendingDiagnostic _ _ _ _ _) as [text|]; [by left|]. right. split; [exact Hc|].
  unfold stale_status_diagnostic. cbv zeta.
  destruct (_ && _ && _)%Z eqn:Es; [left; split; [left; lia|apply runtimeDiagnostic_blames]|].
  destruct collectionErr as [err|]; [left; split; [by right|apply runtimeDiagnostic_blames]|]. right. split; [lia|]. split; [done|].
  destruct (warningEventDiagnostic _ _ _ _) as [text|]; [by left|]. right. split; [exact He|].
  destruct (deploymentNotReadyDiagnostic _ _) as [text|]; [by left|]. right. destruct Hw as [Hd Hz].
  cbn [omap list_omap head option_bind id default]. unfold deriveRuntimePhase. by rewrite Hz.
Qed.

(** C28: The verdict on an operator's Deployment is Ready exactly when the
    Deployment is: its status is not stale, and there are replicas, all of them
    updated, ready and available.  Otherwise it names, of what belongs to the
    Deployment, the first pod by name that waits or whose conditions fail;
    without one, the first pending claim; then the Deployment itself for a
    stale status or a failed listing; then the object of the latest warning;
    then the Deployment; and only when no replica is wanted and none is there
    is it Scaled to Zero. *)
Theorem runtime_verdict replicaSets pods pvcs events collectionErr :
  let text := deriveRuntimeDiagnostic FormatRFC3339 moName deployment replicaSets pods pvcs events collectionErr in
  let relatedReplicaSets := filterRuntimeReplicaSets deployment replicaSets in
  let relatedPods := filterRuntimePods deployment relatedReplicaSets pods in
  let relatedPVCs := filterRuntimePVCs deployment relatedPods pvcs in
  let relatedEvents := filterRuntimeEvents deployment relatedReplicaSets relatedPods relatedPVCs events in
  let status := rd_status deployment in
  (text = "Ready" ↔
     ¬ (0 < ds_observedGeneration status < rd_generation deployment)%Z ∧ (0 < ds_replicas status)%Z ∧
     ds_readyReplicas status = ds_replicas status ∧ ds_availableReplicas status = ds_replicas status ∧
     ds_updatedReplicas status = ds_replicas status ∧ ds_unavailableReplicas status = 0%Z) ∧
  (text = "Ready" ∨ verdict_of relatedPods relatedPVCs relatedEvents collectionErr text).
Proof.
  cbv zeta. set (text := deriveRuntimeDiagnostic _ _ _ _ _ _ _ _).
  assert (Hr : deploymentRuntimeReady deployment = true ↔
    ¬ (0 < ds_observedGeneration (rd_status deployment) < rd_generation deployment)%Z ∧ (0 < ds_replicas (rd_status deployment))%Z ∧
    ds_readyReplicas (rd_status deployment) = ds_replicas (rd_status deployment) ∧
    ds_availableReplicas (rd_status deployment) = ds_replicas (rd_status deployment) ∧
    ds_updatedReplicas (rd_status deployment) = ds_replicas (rd_status deployment) ∧
    ds_unavailableReplicas (rd_status deployment) = 0%Z).
  { unfold deploymentRuntimeReady. destruct (_ && _ && _)%Z eqn:Es; [split; [done|intros [Hn _]]; lia|]. lia. }
  rewrite <- Hr. clear Hr. destruct (deploymentRuntimeReady deployment) eqn:Hready.
  - assert (Ht : text = "Ready") by (unfold text, deriveRuntimeDiagnostic; by rewrite Hready). by split; [|left].
  - pose proof (deriveRuntimeDiagnostic_verdict replicaSets pods pvcs events collectionErr Hready) as Hv.
    split; [|by right]. split; [|done]. by intros ?%(verdict_not_ready _ _ _ _ _ Hv).
Qed.
End Verdict.

(** ** What the controller writes *)

Section Published.
Context `{!LabelSelectors, !RetryOnConflict ocall error is_conflict} (FormatRFC3339 : Z → string) (statusAPIReader : bool).

Implicit Types k : list oevent.
Implicit Types tr : list (event rcall).

(** The operator as it was read, through the cache or past it. *)
Definition operator_read (name ns : string) (now : operator) k : Prop :=
  Ev (OpGet name ns) (Ok now) ∈ k ∨ Ev (OpReaderGet name ns) (Ok now) ∈ k.

(** A write of the runtime's status, over the operator read. *)
Definition runtime_update name ns (set : operator_status → operator_status) k (e : oevent) : Prop :=
  op_write e = None ∧ ∀ new, op_status_write e = Some new → ∃ now, operator_read name ns now k ∧ new = on_status set now.

Lemma runtime_update_reads name ns set k (e : oevent) : op_reads e = true → runtime_update name ns set k e.
Proof. intros He. destruct e as [R c r]. by destruct c. Qed.

Lemma GetMiddlewareOperator_read name ns (D : list oevent → oevent → Prop) (HD : ∀ k e, op_reads e = true → D k e) k :
  spec D (GetMiddlewareOperator name ns) k
    (λ k' r, match r with Ok now => operator_read name ns now k' | Err _ => True end).
Proof.
  unfold GetMiddlewareOperator. eapply (spec_bind _ _ _ (λ k' r, k' = k ++ [Ev (OpGet name ns) r])); [by apply spec_call; auto|].
  intros k' [now|e] _ ->; [|by apply spec_ret].
  eapply (spec_bind _ _ _ (λ k' _, operator_read name ns now k')); [|intros; by apply spec_ret].
  apply spec_call; [auto|]. intros u. left. rewrite !elem_of_app. left. right. by left.
Qed.

Lemma runtime_updates name ns status available ready runtime :
  holds (UpdateMiddlewareOperatorRuntimeStatus statusAPIReader name ns status available ready runtime) []
    (λ k _, each (runtime_update name ns (with_runtime status available ready runtime)) k).
Proof.
  set (D := runtime_update _ _ _). assert (HD : ∀ k e, op_reads e = true → D k e) by (intros; by apply runtime_update_reads).
  enough (Hs : spec D (UpdateMiddlewareOperatorRuntimeStatus statusAPIReader name ns status available ready runtime) [] (λ _ _, True))
    by (eapply holds_mono; [apply Hs, each_nil|by intros ?? (? & _ & _)]).
  unfold UpdateMiddlewareOperatorRuntimeStatus. eapply (spec_bind _ _ _ (λ _ _, True)); [|intros; by apply spec_ret].
  apply (spec_retry _ _ _ (λ _ _, True)); [|done]. intros attempt k _.
  apply (spec_bind _ _ _ (λ k' r, match r with Ok now => operator_read name ns now k' | Err _ => True end)).
  - unfold read_for_status. eapply (spec_bind _ _ _ (λ k' r, match r with Ok now => operator_read name ns now k' | Err _ => True end));
      [|by intros k' [now|e] _ ?; apply spec_ret].
    destruct (_ && _); [|by apply GetMiddlewareOperator_read].
    apply spec_call; [auto|]. intros [now|e]; [|done]. right. apply elem_of_app. right. by left.
  - intros k' [now|e] _ Hread; [|by apply spec_ret]. eapply (spec_bind _ _ _ (λ _ _, True)).
    + apply spec_call; [|done]. intros r. unfold D, runtime_update. split; [done|]. intros new [= <-]. by exists now.
    + intros k2 err _ _. apply spec_ret. split; [done|]. by destruct err.
Qed.

Definition items {A} (r : result error (list A)) : list A := match r with Ok l => l | Err _ => [] end.

(** The snapshot is what the four listings answered, with an error when one
    of them failed. *)
Definition collected (ns : string) (snapshot : runtimeObjectSnapshot) tr : Prop :=
  ∃ r1 r2 r3 r4,
    Ev (ListReplicaSets ns) r1 ∈ tr ∧ Ev (ListPods ns) r2 ∈ tr ∧ Ev (ListPVCs ns) r3 ∈ tr ∧ Ev (ListEvents ns) r4 ∈ tr ∧
    sn_replicaSets snapshot = items r1 ∧ sn_pods snapshot = items r2 ∧ sn_pvcs snapshot = items r3 ∧
    sn_events snapshot = items r4 ∧
    (sn_err snapshot = None ↔ is_ok r1 && is_ok r2 && is_ok r3 && is_ok r4 = true).

(** What a run of the controller may write: the status of the operator that
    owns the Deployment it was asked for, over that operator as read in this
    run; the report is of the Deployment as read, with the verdict on what was
    listed. *)
Definition published (ns name : string) tr (e : event rcall) : Prop :=
  match e with
  | Ev c r =>
      match c with
      | RtOp c => λ r, op_write (Ev c r) = None ∧ ∀ new, op_status_write (Ev c r) = Some new →
          ∃ deployment moName mo now snapshot available,
            Ev (RtDeployment ns name) (Ok deployment) ∈ tr ∧
            middlewareOperatorNameFromDeployment deployment = Ok moName ∧
            Ev (RtOp (OpGet moName (rd_namespace deployment))) (Ok mo) ∈ tr ∧
            (Ev (RtOp (OpGet moName (rd_namespace deployment))) (Ok now) ∈ tr ∨
             Ev (RtOp (OpReaderGet moName (rd_namespace deployment))) (Ok now) ∈ tr) ∧
            collected (rd_namespace deployment) snapshot tr ∧
            new = on_status (with_runtime
              (<[rd_name deployment := rd_status deployment]> (os_operatorStatus (mo_status mo))) available
              (deploymentRuntimeReady deployment)
              (deriveRuntimeDiagnostic FormatRFC3339 moName deployment (sn_replicaSets snapshot) (sn_pods snapshot)
                 (sn_pvcs snapshot) (sn_events snapshot) (sn_err snapshot))) now
      | _ => λ _, True
      end r
  end.
Definition is_list_call (e : event rcall) : bool :=
  match e with Ev c _ => match c with ListReplicaSets _ | ListPods _ | ListPVCs _ | ListEvents _ => true | _ => false end end.

Lemma collect_runtime_spec (D : list (event rcall) → event rcall → Prop) deployment tr
    (HD : ∀ l e, is_list_call e = true → D l e) :
  spec D (collectRuntimeObjects deployment) tr (λ tr' snapshot, collected (rd_namespace deployment) snapshot tr').
Proof.
  unfold collectRuntimeObjects.
  assert (Hcall : ∀ R (c : rcall R) tr0, (∀ r, is_list_call (Ev c r) = true) → spec D (call c) tr0 (λ tr' r, Ev c r ∈ tr')).
  { intros R c tr0 Hc. apply spec_call; [auto|]. intros r. apply elem_of_app. right. by left. }
  eapply spec_bind; [by apply Hcall|]. intros tr1 r1 _ H1.
  destruct (listed "ReplicaSets" r1 None) as [l1 e1] eqn:E1. eapply spec_bind; [by apply Hcall|]. intros tr2 r2 P2 H2.
  destruct (listed "Pods" r2 e1) as [l2 e2] eqn:E2. eapply spec_bind; [by apply Hcall|]. intros tr3 r3 P3 H3.
  destruct (listed "PVCs" r3 e2) as [l3 e3] eqn:E3. eapply spec_bind; [by apply Hcall|]. intros tr4 r4 P4 H4.
  destruct (listed "Events" r4 e3) as [l4 e4] eqn:E4. apply spec_ret. exists r1, r2, r3, r4.
  assert (P24 : tr2 `prefix_of` tr4) by (by etrans).
  split_and!; [eapply elem_of_prefix; [eapply elem_of_prefix; [exact H1|exact P2]|exact P24]|
               eapply elem_of_prefix; [exact H2|exact P24]|eapply elem_of_prefix; [exact H3|exact P4]|exact H4|..].
  all: unfold listed in *; destruct r1, r2, r3, r4; simplify_eq/=; try done.
Qed.

Lemma embedded_elem k (e : oevent) : e ∈ k → embedded (@RtOp _) e ∈ map (embedded (@RtOp _)) k.
Proof. intros Hin. apply list_elem_of_fmap. eauto. Qed.

Lemma collected_prefix ns snapshot tr tr' : collected ns snapshot tr → tr `prefix_of` tr' → collected ns snapshot tr'.
Proof.
  intros (r1 & r2 & r3 & r4 & ? & ? & ? & ? & ?) Hpre. exists r1, r2, r3, r4.
  split_and!; try (eapply elem_of_prefix; eassumption); tauto.
Qed.

(** The verdict adds nothing to whether the Deployment is ready. *)
Lemma ready_verdict moName deployment replicaSets pods pvcs events err :
  deploymentRuntimeReady deployment &&
    String.eqb (deriveRuntimeDiagnostic FormatRFC3339 moName deployment replicaSets pods pvcs events err) "Ready" =
  deploymentRuntimeReady deployment.
Proof. unfold deriveRuntimeDiagnostic. by destruct (deploymentRuntimeReady deployment) eqn:E. Qed.

Lemma read_published ns name tr (e : oevent) : op_reads e = true → published ns name tr (embedded (@RtOp _) e).
Proof. intros He. destruct e as [R c r]. by destruct c. Qed.

Lemma get_operator_holds name ns :
  holds (GetMiddlewareOperator name ns) [] (λ k r, each (λ _ e, op_reads e = true) k ∧
    match r with Ok now => Ev (OpGet name ns) (Ok now) ∈ k | Err _ => True end).
Proof.
  intros [now|e].
  - intros u. split; [|by left]. by repeat (apply each_snoc; split; [|done]); apply each_nil.
  - split; [|done]. apply (each_snoc _ []). split; [apply each_nil|done].
Qed.

(** C27: The runtime controller reports what it saw: the only writes of a run
    are of the status of the operator that the owner references of the
    requested Deployment name, over that operator as read in the run; they keep
    everything but the runtime's fields, and these say of the Deployment read
    whether it is ready, with the verdict on the objects that were listed. *)
Theorem runtime_status_published {W} (h : handler rcall W) (w : W) ns name :
  each (published ns name) (run h (Reconcile_runtime FormatRFC3339 statusAPIReader ns name) w).2.
Proof.
  apply (spec_run _ _ _ (λ _ _, True)). unfold Reconcile_runtime.
  eapply (spec_bind _ _ _ (λ tr r, Ev (RtDeployment ns name) r ∈ tr)).
  { apply spec_call; [done|]. intros r. by left. }
  intros tr1 [deployment|e] _ Hd; [|by apply spec_ret].
  destruct (middlewareOperatorNameFromDeployment deployment) as [moName|e] eqn:Hname; [|by apply spec_ret].
  eapply (spec_bind _ _ _ (λ tr' r, Ev (RtDeployment ns name) (Ok deployment) ∈ tr' ∧ match r with
    | Ok mo => Ev (RtOp (OpGet moName (rd_namespace deployment))) (Ok mo) ∈ tr' | Err _ => True end)).
  { eapply spec_mono; [apply (spec_embed (@RtOp _) _ _ _ (λ l r, match r with
      | Ok mo => Ev (OpGet moName (rd_namespace deployment)) (Ok mo) ∈ l | Err _ => True end))|].
    - eapply holds_mono; [apply get_operator_holds|]. simpl. intros l r [Hreads Hr]. split; [|done].
      intros l1 e l2 ->. apply read_published. by eapply Hreads.
    - intros tr' r _ (l & -> & Hr). split; [apply elem_of_app; by left|]. destruct r as [mo|]; [|done].
      apply elem_of_app. right. exact (embedded_elem _ _ Hr). }
  intros tr2 [mo|e] _ [Hd2 Hmo]; [|by apply spec_ret]. cbv zeta.
  eapply spec_bind; [apply collect_runtime_spec; intros l [R c r] He; by destruct c|]. intros tr3 snapshot P3 Hcol.
  eapply spec_mono; [apply (spec_embed (@RtOp _) _ _ _ (λ _ _, True))|done].
  eapply holds_mono; [apply runtime_updates|]. simpl. intros k _ Hall. split; [|done]. intros k1 e k2 ->.
  destruct (Hall k1 e k2 eq_refl) as [Hw Hs]. destruct e as [R c r]. split; [done|]. intros new Hnew.
  destruct (Hs new Hnew) as (now & Hread & ->). exists deployment, moName, mo, now, snapshot.
  eexists. split_and!.
  - apply elem_of_app. left. eapply elem_of_prefix; [exact Hd2|exact P3].
  - done.
  - apply elem_of_app. left. eapply elem_of_prefix; [exact Hmo|exact P3].
  - destruct Hread as [Hin|Hin]; [left|right]; apply elem_of_app; right; exact (embedded_elem _ _ Hin).
  - eapply collected_prefix; [exact Hcol|by apply prefix_app_r].
  - by rewrite ready_verdict.
Qed.
End Published.

(** ** Requests *)

Section Requests.
Context `{!LabelSelectors}.
Implicit Types tr : list (event rcall).

(** A Deployment of an operator, seen in this run. *)
Definition known tr (r : request) : Prop :=
  (∃ d, Ev (RtDeployment r.1 r.2) (Ok d) ∈ tr ∧ hasMiddlewareOperatorOwner d = true) ∨
  ∃ ns ds d, Ev (ListDeployments ns) (Ok ds) ∈ tr ∧ d ∈ ds ∧ hasMiddlewareOperatorOwner d = true ∧ r = deployment_request d.
Definition all_known tr (rs : list request) : Prop := NoDup rs ∧ ∀ r, r ∈ rs → known tr r.
Abbreviation finds p tr := (spec (λ _ _, True) p tr all_known).

Lemma known_prefix tr tr' r : known tr r → tr `prefix_of` tr' → known tr' r.
Proof.
  intros [(d & Hd & ?)|(ns & ds & d & Hd & ?)] Hpre; [left; exists d|right; exists ns, ds, d];
    (split; [eapply elem_of_prefix; [exact Hd|exact Hpre]|done]).
Qed.

Lemma requestsFromMap_elem m r : r ∈ requestsFromMap m ↔ is_Some (m !! r).
Proof.
  unfold requestsFromMap. rewrite sort_by_Permutation, list_elem_of_fmap. split.
  - intros ([r' u] & -> & Hin). apply elem_of_map_to_list in Hin. eauto.
  - intros [u Hu]. exists (r, u). split; [done|]. by apply elem_of_map_to_list.
Qed.

Lemma requestsFromMap_NoDup m : NoDup (requestsFromMap m).
Proof. unfold requestsFromMap. rewrite sort_by_Permutation. apply NoDup_fst_map_to_list. Qed.

Lemma requests_of_elem l r : is_Some (requests_of l !! r) → r ∈ l.
Proof.
  intros [u Hu]. apply elem_of_list_to_map_2, list_elem_of_fmap in Hu as (r' & [= ->] & Hin). done.
Qed.

Lemma listed_requests (P : runtime_deployment → Prop) `{!∀ d, Decision (P d)} ns ds tr :
  (∀ d, P d → hasMiddlewareOperatorOwner d = true) → Ev (ListDeployments ns) (Ok ds) ∈ tr →
  all_known tr (requestsFromMap (requests_of (map deployment_request (filter P ds)))).
Proof.
  intros HP Hin. split; [apply requestsFromMap_NoDup|].
  intros r (d & -> & [Hd Hds]%list_elem_of_filter)%requestsFromMap_elem%requests_of_elem%list_elem_of_fmap. right. eauto 10.
Qed.

Lemma none_known tr : all_known tr [].
Proof. split; [constructor|by intros ? ?%elem_of_nil]. Qed.

(** A call, and what it answered. *)
Lemma ask {R A} (c : rcall R) (f : R → prog rcall A) tr Q :
  (∀ tr' r, Ev c r ∈ tr' → spec (λ _ _, True) (f r) tr' Q) → spec (λ _ _, True) (r ← call c; f r) tr Q.
Proof.
  intros Hf. eapply (spec_bind _ _ _ (λ tr' r, Ev c r ∈ tr')); [|auto].
  apply spec_call; [done|]. intros r. apply elem_of_app. right. by left.
Qed.

Lemma by_name ns name tr : finds (deploymentNameToRuntimeRequest ns name) tr.
Proof.
  apply ask. intros tr' [d|e] Hd; apply spec_ret; [|apply none_known].
  destruct (hasMiddlewareOperatorOwner d) eqn:Ho; simpl; [|apply none_known].
  split; [apply NoDup_singleton|]. intros r ->%list_elem_of_singleton. left. eauto.
Qed.

Lemma by_namespace ns tr : finds (middlewareOperatorDeploymentRequestsForNamespace ns) tr.
Proof. apply ask. intros tr' [ds|e] Hd; apply spec_ret; [by eapply listed_requests|apply none_known]. Qed.

Lemma by_replica_set ns name tr : finds (replicaSetNameToDeploymentRequests ns name) tr.
Proof.
  apply ask. intros tr' [rs|e] _; [|apply by_namespace]. destruct (list_find _ _) as [[i o]|]; [apply by_name|].
  apply spec_ret, none_known.
Qed.

Lemma by_pod pod tr : finds (podToDeploymentRequests pod) tr.
Proof.
  unfold podToDeploymentRequests. destruct (list_find _ _) as [[i o]|]; [destruct (String.eqb _ _); [apply by_name|apply by_replica_set]|].
  apply ask. intros tr' [ds|e] Hd; apply spec_ret; [|apply none_known]. eapply listed_requests; [|done]. tauto.
Qed.

Lemma by_pods pods claim m tr : (∀ r, is_Some (m !! r) → known tr r) →
  spec (λ _ _, True) (requests_of_pods pods claim m) tr (λ tr' m', ∀ r, is_Some (m' !! r) → known tr' r).
Proof.
  revert m tr. induction pods as [|pod pods IH]; intros m tr Hm; [by apply spec_ret|].
  cbn [requests_of_pods]. destruct (negb _); [by apply IH|].
  eapply spec_bind; [apply by_pod|]. intros tr' rs Hpre [_ Hrs]. apply IH.
  assert (Hm' : ∀ r, is_Some (m !! r) → known tr' r) by (intros r Hr; eapply known_prefix; [by apply Hm|done]).
  clear -Hm' Hrs. revert m Hm'. induction rs as [|r rs IH]; intros m Hm'; [done|]. simpl. apply IH.
  - intros r' Hr'. apply Hrs. by right.
  - intros r' Hr'. destruct (decide (r' = r)) as [->|Hne]; [apply Hrs; by left|].
    apply Hm'. by rewrite lookup_insert_ne in Hr'.
Qed.

Lemma by_claim ns name tr : finds (runtimePVCToDeploymentRequests ns name) tr.
Proof.
  apply ask. intros tr' [pods|e] _; [|apply by_namespace].
  eapply spec_bind; [apply by_pods; intros r; rewrite lookup_empty; by intros []|]. intros tr2 m _ Hm. simpl in Hm.
  destruct (decide (m = ∅)); [apply by_namespace|]. apply spec_ret. split; [apply requestsFromMap_NoDup|].
  intros r Hr%requestsFromMap_elem. by apply Hm.
Qed.

(** Whatever an event is about, the Deployments it makes the controller look
    at are ones of operators, each once. *)
Lemma event_requests_known event tr : finds (runtimeEventToDeploymentRequests event) tr.
Proof.
  unfold runtimeEventToDeploymentRequests. destruct (isInterestingEvent event); simpl; [|apply spec_ret, none_known].
  destruct (String.eqb _ "Deployment"); [apply by_name|]. destruct (String.eqb _ "ReplicaSet"); [apply by_replica_set|].
  destruct (String.eqb _ "Pod"); [apply ask; intros tr' [pod|e] _; [apply by_pod|apply by_namespace]|].
  destruct (String.eqb _ _); [apply by_claim|apply spec_ret, none_known].
Qed.
End Requests.

(** ** Examples *)

(** Selectors that ask for the labels they list. *)
Definition equality_selectors : LabelSelectors :=
  {| label_selector := list (string * string);
     LabelSelectorAsSelector s :=
       Some (bool_decide (s = []), λ labels, forallb (λ kv, bool_decide (labels !! kv.1 = Some kv.2)) s) |}.

(** A new image that cannot be pulled: the pod of the new replica set is named,
    not the one of the old, which runs. *)
Definition demo_deployment : @runtime_deployment equality_selectors :=
  @RuntimeDeployment equality_selectors "db" "redis-operator" 3 [OwnerReference "" "MiddlewareOperator" "redis" "u1" (Some true)]
    (Some 1%Z) (Some [("app", "redis-operator")]) (DeploymentStatus 3 2 1 1 1 1 None []).
Definition demo_pod (name : string) (waiting : option waiting_state) : runtime_pod :=
  RuntimePod "db" name {[ "app" := "redis-operator" ]} [] "node-1" "redis-operator" []
    (PodStatus [] [ContainerStatus "manager" "redis-operator:2" waiting JNull] [] JNull).
Definition demo_verdict : string :=
  @deriveRuntimeDiagnostic equality_selectors (λ _, "") "redis" demo_deployment []
    [demo_pod "redis-operator-b" (Some (Waiting "ImagePullBackOff" "back-off pulling image")); demo_pod "redis-operator-a" None] [] [] None.

Example pull_failure_named :
  contains "failedObject=v1/Pod db/redis-operator-b" demo_verdict = true ∧
  contains "actual=ImagePullBackOff" demo_verdict = true ∧
  contains "causeCategory=ImagePull" demo_verdict = true.
Proof. vm_compute. done. Qed.
