(* ===== verification/Triggers.v ===== *)
(** * What wakes the controllers

    The event filters of the [SetupWithManager] functions under
    [internal/controller], and, for the runtime controller of operators, the
    Deployments that an event leads to.  An informer hands over created, updated
    and deleted objects; an object of another type, or none, is [None]. *)
From Stdlib Require Import ZArith Lia.
From stdpp Require Import base gmap strings list option.
From S2P Require Import Prelude GoStrings Labels Conditions Prog Errors Json WorkloadPhase Middleware IntentMerge Operator OperatorRuntime.

Inductive informed (T : Type) :=
  | Created (new : option T)
  | Updated (old new : option T)
  | Deleted (old : option T)
  | Generic (obj : option T).
Arguments Created {T} _. Arguments Updated {T} _ _. Arguments Deleted {T} _. Arguments Generic {T} _.

(** [handler.EnqueueRequestsFromMapFunc] maps every object of an event. *)
Definition objects {T} (e : informed T) : list T :=
  match e with
  | Created o | Deleted o | Generic o => option_list o
  | Updated old new => option_list old ++ option_list new
  end.

(** ** Filters *)

(** Updates of the status are skipped. *)
(** [MiddlewareReconciler.SetupWithManager], internal/controller/middleware_controller.go:333-352 *)
Definition middleware_passes (e : informed middleware) : bool :=
  match e with Updated (Some oldObj) (Some newObj) => bool_decide (m_status oldObj = m_status newObj) | _ => true end.
(** [MiddlewareOperatorReconciler.SetupWithManager], internal/controller/middlewareoperator_controller.go:418-433 *)
Definition operator_passes (e : informed operator) : bool :=
  match e with Updated (Some oldObj) (Some newObj) => bool_decide (mo_status oldObj = mo_status newObj) | _ => true end.

(** A claim with the rest of its status. *)
Record claim_seen := ClaimSeen { cl_claim : volume_claim; cl_rest : json }.

Section Runtime.
Context `{!LabelSelectors}.

(** [MiddlewareOperatorRuntimeReconciler.SetupWithManager], internal/controller/middlewareoperator_runtime_controller.go:102-119 *)
Definition deployment_passes (e : informed runtime_deployment) : bool :=
  match e with
  | Created (Some deployment) => hasMiddlewareOperatorOwner deployment
  | Updated (Some oldDeployment) (Some newDeployment) =>
      if negb (hasMiddlewareOperatorOwner newDeployment) && negb (hasMiddlewareOperatorOwner oldDeployment) then false
      else deploymentRuntimeStatusChanged oldDeployment newDeployment
  | _ => false
  end.
(** [MiddlewareOperatorRuntimeReconciler.SetupWithManager], internal/controller/middlewareoperator_runtime_controller.go:123-134 *)
Definition pod_passes (e : informed runtime_pod) : bool :=
  match e with
  | Created object => bool_decide (is_Some object)
  | Updated (Some oldPod) (Some newPod) => runtimePodChanged (Some oldPod) (Some newPod)
  | _ => false
  end.
(** [MiddlewareOperatorRuntimeReconciler.SetupWithManager], internal/controller/middlewareoperator_runtime_controller.go:138-149 *)
Definition claim_passes (e : informed claim_seen) : bool :=
  match e with
  | Created object => bool_decide (is_Some object)
  | Updated (Some oldPVC) (Some newPVC) =>
      negb (bool_decide (vc_phase (cl_claim oldPVC) = vc_phase (cl_claim newPVC))) || negb (bool_decide (cl_rest oldPVC = cl_rest newPVC))
  | _ => false
  end.
(** [MiddlewareOperatorRuntimeReconciler.SetupWithManager], internal/controller/middlewareoperator_runtime_controller.go:153-166 *)
Definition event_passes (e : informed core_event) : bool :=
  match e with
  | Created (Some eventObj) => isInterestingEvent eventObj
  | Updated (Some oldEvent) (Some newEvent) => isInterestingEvent newEvent && runtimeEventChanged (Some oldEvent) (Some newEvent)
  | _ => false
  end.

(** ** Requests of the runtime controller *)

Inductive runtime_watch :=
  | DeploymentSeen (e : informed runtime_deployment)
  | PodSeen (e : informed runtime_pod)
  | ClaimEvent (e : informed claim_seen)
  | EventSeen (e : informed core_event).
Abbreviation rprog := (prog rcall).
Abbreviation revent := (event rcall).

Fixpoint map_requests {T} (f : T → rprog (list request)) (l : list T) : rprog (list request) :=
  match l with
  | [] => Ret []
  | o :: l => requests ← f o; rest ← map_requests f l; Ret (requests ++ rest)
  end.

(** [MiddlewareOperatorRuntimeReconciler.SetupWithManager], internal/controller/middlewareoperator_runtime_controller.go *)
Definition runtime_requests (w : runtime_watch) : rprog (list request) :=
  match w with
  | DeploymentSeen e => Ret (if deployment_passes e then deployment_request <$> objects e else [])
  | PodSeen e => if pod_passes e then map_requests podToDeploymentRequests (objects e) else Ret []
  | ClaimEvent e =>
      if claim_passes e
      then map_requests (λ c, runtimePVCToDeploymentRequests (vc_namespace (cl_claim c)) (vc_name (cl_claim c))) (objects e)
      else Ret []
  | EventSeen e => if event_passes e then map_requests runtimeEventToDeploymentRequests (objects e) else Ret []
  end.
End Runtime.

(** ** Which Deployments are asked for *)

Section Routing.
Context `{!LabelSelectors}.
Implicit Types (l : list (event rcall)) (r : request).

(** A program that finds known Deployments, as what it returns. *)
Lemma finds_known (p : prog rcall (list request)) l rs r :
  spec (λ _ _, True) p [] all_known → Prog.outcome p l rs → r ∈ rs → known l r.
Proof. intros Hp Ho Hr. destruct (outcome_spec _ _ _ _ _ Hp Ho) as [_ [_ Hk]]. by apply Hk. Qed.

Lemma known_more l l' r : known l r → l ⊆ l' → known l' r.
Proof. intros [(d & ? & ?)|(ns & ds & d & ? & ?)] Hsub; [left; exists d|right; exists ns, ds, d]; split; auto. Qed.

Lemma map_known {T} (f : T → prog rcall (list request)) xs l rs r :
  (∀ x tr, spec (λ _ _, True) (f x) tr all_known) → Prog.outcome (map_requests f xs) l rs → r ∈ rs → known l r.
Proof.
  intros Hf. revert l rs. induction xs as [|x xs IH]; intros l rs; [by intros [_ ->] ?%elem_of_nil|]. cbn [map_requests].
  intros (l1 & l2 & rs1 & -> & H1 & (l3 & l4 & rs2 & -> & H2 & [-> ->])%outcome_bind)%outcome_bind [Hr|Hr]%elem_of_app;
    (eapply known_more; [first [by eapply finds_known|by eapply IH]|]); intros e He; rewrite !elem_of_app; tauto.
Qed.

(** What an object of the event asks for by itself. *)
Lemma map_of {T} (f : T → prog rcall (list request)) xs l rs x :
  Prog.outcome (map_requests f xs) l rs → x ∈ xs → ∃ l' rs', Prog.outcome (f x) l' rs' ∧ l' ⊆ l ∧ rs' ⊆ rs.
Proof.
  revert l rs. induction xs as [|y xs IH]; intros l rs; [by intros _ ?%elem_of_nil|]. cbn [map_requests].
  intros (l1 & l2 & rs1 & -> & H1 & (l3 & l4 & rs2 & -> & H2 & [-> ->])%outcome_bind)%outcome_bind [->|Hx]%elem_of_cons.
  - exists l1, rs1. split_and!; [done| |]; intros e He; apply elem_of_app; by left.
  - destruct (IH _ _ H2 Hx) as (l' & rs' & ? & Hl & Hrs). exists l', rs'. split_and!; [done| |]; intros e He; rewrite !elem_of_app; auto.
Qed.

(** The Deployment that a pod names first among its owners. *)
Definition names_deployment (pod : runtime_pod) (name : string) : Prop :=
  ∃ i owner, list_find (λ ref, or_kind ref = "Deployment" ∨ or_kind ref = "ReplicaSet") (rp_owners pod) = Some (i, owner) ∧
    or_kind owner = "Deployment" ∧ or_name owner = name.

(** What wakes the runtime controller.  Whatever the cluster answers, an
    event leads only to requests for Deployments that have an operator as their
    owner: the Deployment of the event, or one that was read or listed as such.
    What a filter rejects leads to no call; and the change of a pod that a
    Deployment owns leads to a request for that Deployment, unless reading it
    fails or shows no operator as its owner. *)
Theorem runtime_events_routed {W} (h : handler rcall W) (w : W) watch :
  let '(rs, l) := run h (runtime_requests watch) w in
  (∀ r, r ∈ rs → known l r ∨
     ∃ e d, watch = DeploymentSeen e ∧ d ∈ objects e ∧ deployment_request d = r ∧
       (∃ d', d' ∈ objects e ∧ hasMiddlewareOperatorOwner d' = true)) ∧
  match watch with
  | DeploymentSeen e => l = [] ∧ (deployment_passes e = false → rs = [])
  | PodSeen e =>
      if pod_passes e
      then ∀ pod name, pod ∈ objects e → names_deployment pod name →
        (rp_namespace pod, name) ∈ rs ∨
        (∃ x, Ev (RtDeployment (rp_namespace pod) name) x ∈ l ∧ ∀ d, x = Ok d → hasMiddlewareOperatorOwner d = false)
      else l = [] ∧ rs = []
  | ClaimEvent e => claim_passes e = false → l = [] ∧ rs = []
  | EventSeen e => event_passes e = false → l = [] ∧ rs = []
  end.
Proof.
  pose proof (holds_run_pair h (runtime_requests watch) w (λ l rs, Prog.outcome (runtime_requests watch) l rs)) as Hr.
  destruct (run h _ w) as [rs l]. assert (Ho := Hr (proj2 (holds_outcome _ [] _) ltac:(done))). clear Hr. simpl in Ho.
  destruct watch as [e|e|e|e]; cbn [runtime_requests] in Ho.
  - destruct Ho as [-> ->]. split; [|split; [done|by intros ->]]. intros r Hr. right. destruct (deployment_passes e) eqn:Hp; [|by apply elem_of_nil in Hr].
    apply list_elem_of_fmap in Hr as (d & -> & Hd). exists e, d. split_and!; [done..|].
    destruct e as [[n|]|[o|] [n|]|?|?]; try done; cbn [deployment_passes] in Hp; [exists n; split; [by left|done]|].
    destruct (hasMiddlewareOperatorOwner n) eqn:Hn; [exists n; split; [right; by left|done]|].
    destruct (hasMiddlewareOperatorOwner o) eqn:Hoo; [exists o; split; [by left|done]|done].
  - split; [intros r Hr; left; destruct (pod_passes e); [eapply map_known; [intros; apply by_pod|done..]|destruct Ho as [-> ->]; by apply elem_of_nil in Hr]|].
    destruct (pod_passes e); [|by destruct Ho as [-> ->]]. intros pod name Hin (i & owner & Hf & Hk & <-).
    destruct (map_of _ _ _ _ _ Ho Hin) as (l' & rs' & Ho' & Hl & Hrs). unfold podToDeploymentRequests in Ho'. rewrite Hf, Hk in Ho'. simpl in Ho'.
    destruct Ho' as (x & l2 & -> & -> & ->).
    assert (Hx : Ev (RtDeployment (rp_namespace pod) (or_name owner)) x ∈ l) by (apply Hl; by left).
    destruct x as [d|err]; [|right; by exists (Err err)]. destruct (hasMiddlewareOperatorOwner d) eqn:Hd; [left; apply Hrs; by left|right].
    exists (Ok d). split; [done|]. by intros d' [= <-].
  - split; [intros r Hr; left; destruct (claim_passes e); [eapply map_known; [intros; apply by_claim|done..]|destruct Ho as [-> ->]; by apply elem_of_nil in Hr]|].
    intros Hp. rewrite Hp in Ho. by destruct Ho.
  - split; [intros r Hr; left; destruct (event_passes e); [eapply map_known; [intros; apply event_requests_known|done..]|destruct Ho as [-> ->]; by apply elem_of_nil in Hr]|].
    intros Hp. rewrite Hp in Ho. by destruct Ho.
Qed.
End Routing.

(** ** Examples *)

(** An update that changes the spec and the status at once, as after a new list
    of the informer, is taken for one of the status. *)
Lemma combined_update_dropped (oldObj newObj : middleware) :
  m_status oldObj ≠ m_status newObj → middleware_passes (Updated (Some oldObj) (Some newObj)) = false.
Proof. intros Hs. cbn [middleware_passes]. by apply bool_decide_eq_false. Qed.

(** A change of a Deployment's spec passes no event to the runtime controller,
    although it would find the status stale. *)
Example stale_deployment_unnoticed :
  let scaled := @RuntimeDeployment equality_selectors "db" "redis-operator" in
  let owners := [OwnerReference "" "MiddlewareOperator" "redis" "u1" (Some true)] in
  let status := DeploymentStatus 3 1 1 1 1 0 None [] in
  let before := scaled 3%Z owners (Some 1%Z) (Some [("app", "redis-operator")]) status in
  let after := scaled 4%Z owners (Some 2%Z) (Some [("app", "redis-operator")]) status in
  @deployment_passes equality_selectors (Updated (Some before) (Some after)) = false ∧
  @deploymentRuntimeReady equality_selectors before = true ∧ @deploymentRuntimeReady equality_selectors after = false.
Proof. vm_compute. done. Qed.
