(* ===== verification/Readiness.v ===== *)
(** * Why a Middleware is not ready

    [internal/service/synchronizer/readiness_diagnostic.go]: what the pods and
    claims of a Middleware say against it, what a first start may still lack
    without being reported, and the recheck that ends that window
    ([sync_v2.go]).

    Pods and claims are those of [OperatorRuntime]; times are in nanoseconds
    and the zero time is 0.  Letters are those of ASCII where they are
    lowered. *)
From Stdlib Require Import ZArith Lia Ascii String.
From stdpp Require Import base gmap strings list option sorting.
From S2P Require Import Prelude GoStrings Labels Errors Conditions Prog Diagnostic Middleware Json WorkloadPhase OperatorRuntime.

(** ** Strings *)

(** [strings.Cut] *)
Definition Cut (s sep : string) : string * string * bool :=
  match String.index 0 sep s with
  | Some i => (String.substring 0 i s, drop_string (i + String.length sep) s, true)
  | None => (s, "", false)
  end.

(** [strings.FieldsFunc], of bytes *)
Fixpoint split_func (sep : ascii → bool) (s : string) : list string :=
  match s with
  | EmptyString => [""]
  | String a s =>
      if sep a then "" :: split_func sep s
      else match split_func sep s with x :: l => String a x :: l | [] => [String a ""] end
  end.
Definition FieldsFunc (s : string) (sep : ascii → bool) : list string := filter (λ f, f ≠ "") (split_func sep s).

(** [sortedMapKeys], internal/service/synchronizer/readiness_diagnostic.go *)
Definition sortedMapKeys {A} (m : gmap string A) : list string := sort_by id (map_to_list m).*1.

(** ** The window of a first start *)

(** The primary resource: what the diagnosis looks at. *)
Record started_object := StartedObject {
  so_ref : object_ref; so_generation : Z; so_creationTimestamp : Z }.

(** [initialReadinessGracePeriod], internal/service/synchronizer/readiness_diagnostic.go:31-35 *)
Definition initialReadinessGracePeriod : Z := 2 * 60 * 1000000000.

(** [initialReadinessDeadline], internal/service/synchronizer/readiness_diagnostic.go *)
Definition initialReadinessDeadline (cr : option started_object) : option Z :=
  match cr with
  | None => None
  | Some cr =>
      if negb (so_generation cr =? 1)%Z then None
      else if (so_creationTimestamp cr =? 0)%Z then None
      else Some (so_creationTimestamp cr + initialReadinessGracePeriod)%Z
  end.

(** [initialReadinessGraceDeadline], internal/service/synchronizer/readiness_diagnostic.go *)
Definition initialReadinessGraceDeadline (mid : option middleware) (cr : option started_object) : option Z :=
  match mid with
  | None => None
  | Some mid => if negb (String.eqb (cr_phase (ms_customResources (m_status mid))) PhaseCreating) then None
                else initialReadinessDeadline cr
  end.

(** [isWithinInitialReadinessGrace], internal/service/synchronizer/readiness_diagnostic.go *)
Definition isWithinInitialReadinessGrace (mid : option middleware) (cr : option started_object) (now : Z) : bool :=
  match initialReadinessGraceDeadline mid cr, cr with
  | Some deadline, Some cr => ((so_creationTimestamp cr <=? now) && (now <? deadline))%Z
  | _, _ => false
  end.

(** ** Containers that wait *)

(** [isTransientMiddlewareWaitingReason], internal/service/synchronizer/readiness_diagnostic.go *)
Definition isTransientMiddlewareWaitingReason (reason : string) : bool :=
  String.eqb reason "ContainerCreating" || String.eqb reason "PodInitializing".

(** The first of the statuses that waits for something else; [field] is where they are. *)
(** [firstMiddlewareWaitingContainer], internal/service/synchronizer/readiness_diagnostic.go:261-272 *)
Fixpoint first_stuck (field : string) (statuses : list container_status) : option waitingContainer :=
  match statuses with
  | [] => None
  | c :: statuses =>
      match cst_waiting c with
      | None => first_stuck field statuses
      | Some w =>
          if isTransientMiddlewareWaitingReason (w_reason w) then first_stuck field statuses
          else Some (WaitingContainer (cst_name c) (cst_image c) (w_reason w) (w_message w)
                       ("status." +:+ field +:+ "[name=" +:+ cst_name c +:+ "].state.waiting"))
      end
  end.

(** [firstMiddlewareWaitingContainer], internal/service/synchronizer/readiness_diagnostic.go *)
Definition firstMiddlewareWaitingContainer (pod : runtime_pod) : option waitingContainer :=
  match first_stuck "initContainerStatuses" (pst_init (rp_status pod)) with
  | Some w => Some w
  | None => first_stuck "containerStatuses" (pst_containers (rp_status pod))
  end.

Definition waits_transiently (c : container_status) : bool :=
  match cst_waiting c with Some w => isTransientMiddlewareWaitingReason (w_reason w) | None => false end.

(** [hasTransientMiddlewareWaitingContainer], internal/service/synchronizer/readiness_diagnostic.go *)
Definition hasTransientMiddlewareWaitingContainer (pod : runtime_pod) : bool :=
  existsb waits_transiently (pst_init (rp_status pod)) || existsb waits_transiently (pst_containers (rp_status pod)).

Definition pvcBindingReason : string := "pod has unbound immediate persistentvolumeclaims".

(** [isInitialPVCBindingPendingCondition], internal/service/synchronizer/readiness_diagnostic.go *)
Definition isInitialPVCBindingPendingCondition (condition : pod_condition) : bool :=
  if negb (String.eqb (pc_type condition) "PodScheduled") || negb (String.eqb (pc_reason condition) "Unschedulable") then false
  else
    let message := ToLower (TrimSpace (pc_message condition)) in
    if negb (contains pvcBindingReason message) then false
    else
      let message := match Cut message ":" with (_, reasons, true) => reasons | _ => message end in
      let message := match Cut message ". preemption:" with (reasons, _, true) => reasons | _ => message end in
      let reasons := FieldsFunc message (λ r, Ascii.eqb r "," || Ascii.eqb r ";") in
      forallb (contains pvcBindingReason) reasons && negb (bool_decide (reasons = [])).

(** ** The diagnosis *)

Section Diagnosis.
Context (mid : middleware) (cr : option started_object).

(** [objectRefFromUnstructured], internal/service/synchronizer/readiness_diagnostic.go *)
Definition objectRefFromUnstructured (obj : option started_object) : object_ref :=
  match obj with None => no_object | Some obj => so_ref obj end.

(** [middlewareRuntimeDiagnostic], internal/service/synchronizer/readiness_diagnostic.go *)
Definition middlewareRuntimeDiagnostic (d : diagnostic) (cause : error) : string :=
  let resource := ObjectRef "middleware.cn/v1" "Middleware" (m_namespace mid) (m_name mid) in
  let owner := if String.eqb (ref_kind (d_owner d)) "" then match cr with Some _ => objectRefFromUnstructured cr | None => d_owner d end
               else d_owner d in
  Message (Diagnostic (d_phase d) "middleware-synchronizer" resource (d_failedObject d) owner (d_fieldPath d) (d_expected d)
    (d_actual d) (d_generation d) (d_observedGeneration d) (d_next d)) (Some cause).

(** What the three diagnostics have in common. *)
(** [middlewarePodWaitingDiagnostic], internal/service/synchronizer/readiness_diagnostic.go:180-200 *)
Definition readiness_report (failed : object_ref) (fieldPath expected actual next : string) (cause : list string) : string :=
  middlewareRuntimeDiagnostic (Diagnostic PhaseWorkloadReadiness "" no_object failed (objectRefFromUnstructured cr) fieldPath
    expected actual (m_generation mid) (ms_observedGeneration (m_status mid)) next) (new_error (runtimeCause cause)).

(** The first thing said, in the order of the keys. *)
Definition first_report {A} (m : gmap string A) (f : A → option string) : string :=
  default "" (head (omap (λ key, m !! key ≫= f) (sortedMapKeys m))).

(** [middlewarePodWaitingDiagnostic], internal/service/synchronizer/readiness_diagnostic.go:179-202 *)
Definition waiting_report (pod : runtime_pod) : option string :=
  waiting ← firstMiddlewareWaitingContainer pod;
  Some (readiness_report (podObjectRef pod) (wc_fieldPath waiting) "container ready" (wc_reason waiting)
    (describe "pod" (rp_namespace pod) (rp_name pod))
    ["container=" +:+ wc_container waiting; "image=" +:+ wc_image waiting; diagnosticValue "nodeName" (rp_nodeName pod);
     diagnosticValue "serviceAccountName" (rp_serviceAccountName pod); "reason=" +:+ wc_reason waiting;
     "message=" +:+ wc_message waiting]).

(** [middlewarePodWaitingDiagnostic], internal/service/synchronizer/readiness_diagnostic.go *)
Definition middlewarePodWaitingDiagnostic (pods : gmap string runtime_pod) : string := first_report pods waiting_report.

(** [middlewarePodConditionDiagnostic], internal/service/synchronizer/readiness_diagnostic.go:103-132 *)
Definition condition_report (withinInitialGrace : bool) (pod : runtime_pod) (condition : pod_condition) : option string :=
  if negb (String.eqb (pc_status condition) "False") && negb (String.eqb (pc_status condition) "Unknown") then None
  else if negb (String.eqb (pc_type condition) "PodScheduled") && negb (String.eqb (pc_type condition) "ContainersReady") &&
          negb (String.eqb (pc_type condition) "Ready") then None
  else if negb (String.eqb (pc_type condition) "PodScheduled") &&
          (hasTransientMiddlewareWaitingContainer pod || withinInitialGrace) then None
  else if withinInitialGrace && isInitialPVCBindingPendingCondition condition then None
  else Some (readiness_report (podObjectRef pod) ("status.conditions[type=" +:+ pc_type condition +:+ "]") "pod condition True"
    (pc_status condition) (describe "pod" (rp_namespace pod) (rp_name pod))
    ["podCondition=" +:+ pc_type condition; diagnosticValue "nodeName" (rp_nodeName pod);
     diagnosticValue "serviceAccountName" (rp_serviceAccountName pod); "reason=" +:+ pc_reason condition;
     "message=" +:+ pc_message condition]).

(** [middlewarePodConditionDiagnostic], internal/service/synchronizer/readiness_diagnostic.go *)
Definition middlewarePodConditionDiagnostic (pods : gmap string runtime_pod) (withinInitialGrace : bool) : string :=
  first_report pods (λ pod, head (omap (condition_report withinInitialGrace pod) (pst_conditions (rp_status pod)))).

(** [middlewarePVCPendingDiagnostic], internal/service/synchronizer/readiness_diagnostic.go:208-233 *)
Definition claim_report (withinInitialGrace : bool) (pvc : volume_claim) : option string :=
  if negb (String.eqb (vc_phase pvc) "Pending") then None
  else if withinInitialGrace then None
  else Some (readiness_report (pvcObjectRef pvc) "status.phase" "Bound" (vc_phase pvc)
    (describe "pvc" (vc_namespace pvc) (vc_name pvc))
    ["pvc pending"; "phase=" +:+ vc_phase pvc; diagnosticValue "storageClassName" (pvcStorageClassName pvc);
     diagnosticValue "accessModes" (pvcAccessModes pvc); diagnosticValue "requestedStorage" (vc_requestedStorage pvc)]).

(** [middlewarePVCPendingDiagnostic], internal/service/synchronizer/readiness_diagnostic.go *)
Definition middlewarePVCPendingDiagnostic (pvcs : gmap string volume_claim) (withinInitialGrace : bool) : string :=
  first_report pvcs (claim_report withinInitialGrace).

(** [deriveMiddlewareReadinessDiagnosticAt], internal/service/synchronizer/readiness_diagnostic.go *)
Definition deriveMiddlewareReadinessDiagnosticAt (pods : gmap string runtime_pod) (pvcs : gmap string volume_claim) (now : Z) :
    string :=
  let withinInitialGrace := isWithinInitialReadinessGrace (Some mid) cr now in
  let diagnostic := middlewarePodWaitingDiagnostic pods in
  if negb (String.eqb diagnostic "") then diagnostic
  else
    let diagnostic := middlewarePodConditionDiagnostic pods withinInitialGrace in
    if negb (String.eqb diagnostic "") then diagnostic
    else
      let diagnostic := middlewarePVCPendingDiagnostic pvcs withinInitialGrace in
      if negb (String.eqb diagnostic "") then diagnostic else "".
End Diagnosis.

(** ** The recheck at the end of the window

    The timer of a recheck, and what its goroutine does when it wakes up: with
    several channels ready the first [select] takes any of them. *)

(** [initialReadinessRecheckDeadline], internal/service/synchronizer/sync_v2.go *)
Definition initialReadinessRecheckDeadline (cr : option started_object) (GetCustomResource : started_object → result error started_object) :
    option Z :=
  match cr with
  | None => None
  | Some cr => match GetCustomResource cr with
               | Err _ => None
               | Ok nowCr => initialReadinessDeadline (Some nowCr)
               end
  end.

(** The delay after which the timer is due; none when no goroutine is started. *)
(** [scheduleInitialReadinessRecheck], internal/service/synchronizer/sync_v2.go:900-906 *)
Definition recheck_delay (deadline now : Z) : option Z :=
  let delay := (deadline - now)%Z in if (delay <=? 0)%Z then None else Some delay.

Inductive ready_channel := CtxDone | StopClosed | TimerFired.
#[export] Instance ready_channel_eq_dec : EqDecision ready_channel.
Proof. solve_decision. Defined.

(** Whether [trigger] is called, when the first [select] takes [taken] and the
    other channels are as [ready] says at the second one. *)
(** [scheduleInitialReadinessRecheck], internal/service/synchronizer/sync_v2.go *)
Definition scheduleInitialReadinessRecheck (taken : ready_channel) (ready : ready_channel → bool) : bool :=
  match taken with
  | CtxDone | StopClosed => false
  | TimerFired => if ready CtxDone then false else if ready StopClosed then false else true
  end.

(** ** What is held against a Middleware *)

Section Verdict.
Context (mid : middleware) (cr : option started_object).
Implicit Types pod : runtime_pod.

(** The first start: the resource is new, was never changed, and the Middleware
    is still being created. *)
Definition first_start (now : Z) : Prop :=
  ∃ o, cr = Some o ∧ so_generation o = 1%Z ∧ so_creationTimestamp o ≠ 0%Z ∧
    cr_phase (ms_customResources (m_status mid)) = PhaseCreating ∧
    (so_creationTimestamp o ≤ now < so_creationTimestamp o + 120 * 10 ^ 9)%Z.

Definition transient : list string := ["ContainerCreating"; "PodInitializing"].
Definition statuses pod : list container_status := pst_init (rp_status pod) ++ pst_containers (rp_status pod).
Definition waits pod (w : waiting_state) : Prop := ∃ c, c ∈ statuses pod ∧ cst_waiting c = Some w.
(** A container waits, and not because it is being started. *)
Definition stuck pod : Prop := ∃ w, waits pod w ∧ w_reason w ∉ transient.
Definition starting pod : Prop := ∃ w, waits pod w ∧ w_reason w ∈ transient.

(** A condition that is reported: an unscheduled pod, unless all it lacks on the
    first start are its claims; a pod that is not ready, unless it is being
    started. *)
Definition held_against (within : Prop) pod (c : pod_condition) : Prop :=
  pc_status c ∈ ["False"; "Unknown"] ∧
  (pc_type c = "PodScheduled" ∧ ¬ (within ∧ isInitialPVCBindingPendingCondition c = true) ∨
   pc_type c ∈ ["ContainersReady"; "Ready"] ∧ ¬ within ∧ ¬ starting pod).
Definition unfit (within : Prop) pod : Prop := ∃ c, c ∈ pst_conditions (rp_status pod) ∧ held_against within pod c.

(** The entry of a map with the least key that has [P]. *)
Definition first_key {A} (P : A → Prop) (m : gmap string A) (x : A) : Prop :=
  ∃ k, m !! k = Some x ∧ P x ∧ ∀ k' x', m !! k' = Some x' → P x' → String.le k k'.

(** The text is a diagnostic of the synchronizer on [mid] about [failed]. *)
Definition says (failed : object_ref) (actual text : string) : Prop :=
  ∃ d cause, text = Message d (Some cause) ∧ d_controller d = "middleware-synchronizer" ∧
    d_resource d = ObjectRef "middleware.cn/v1" "Middleware" (m_namespace mid) (m_name mid) ∧
    d_owner d = objectRefFromUnstructured cr ∧ d_failedObject d = failed ∧ d_actual d = actual ∧
    d_generation d = m_generation mid ∧ d_observedGeneration d = ms_observedGeneration (m_status mid).

Lemma report_says failed fieldPath expected actual next cause :
  says failed actual (readiness_report mid cr failed fieldPath expected actual next cause).
Proof.
  unfold readiness_report, middlewareRuntimeDiagnostic. eexists _, _. split_and!; try done. simpl.
  destruct (String.eqb _ _), cr; done.
Qed.

Lemma says_something failed actual text : says failed actual text → text ≠ "".
Proof.
  intros (d & cause & -> & Hc & _) Heq.
  assert (contains ("controller=" +:+ d_controller d) (Message d (Some cause)) = true) as Hin.
  { apply in_message. unfold message_parts. rewrite Hc. in_parts. }
  by rewrite Heq, Hc in Hin.
Qed.

Lemma sortedMapKeys_elem {A} (m : gmap string A) k : k ∈ sortedMapKeys m ↔ is_Some (m !! k).
Proof.
  unfold sortedMapKeys. rewrite sort_by_Permutation, list_elem_of_fmap. split.
  - intros ([k' x] & -> & Hin). apply elem_of_map_to_list in Hin. eauto.
  - intros [x Hx]. exists (k, x). split; [done|]. by apply elem_of_map_to_list.
Qed.

(** Of a sorted list of keys the first one that is reported is the least one. *)
Lemma first_report_spec {A} (P : A → Prop) (m : gmap string A) (f : A → option string)
    (Hf : ∀ x, match f x with Some text => P x ∧ text ≠ "" | None => ¬ P x end) :
  let text := first_report m f in
  text = "" ∧ (∀ k x, m !! k = Some x → ¬ P x) ∨ text ≠ "" ∧ ∃ x, first_key P m x ∧ f x = Some text.
Proof.
  cbv zeta. unfold first_report.
  assert (Hkeys : ∀ k, k ∈ sortedMapKeys m → is_Some (m !! k)) by (intros; by apply sortedMapKeys_elem).
  assert (Hall : ∀ k x, m !! k = Some x → P x → k ∈ sortedMapKeys m).
  { intros k x Hk _. apply sortedMapKeys_elem. eauto. }
  assert (Hs : Sorted (key_le id) (sortedMapKeys m)) by apply sort_by_sorted.
  induction (sortedMapKeys m) as [|k keys IH].
  { left. split; [done|]. intros k x Hk HP. specialize (Hall k x Hk HP). by apply elem_of_nil in Hall. }
  destruct (Hkeys k ltac:(by left)) as [x Hx]. cbn [omap list_omap]. rewrite Hx. cbn [mbind option_bind]. specialize (Hf x) as Hfx.
  destruct (f x) as [text|] eqn:Ef.
  - destruct Hfx as [HP Hne]. right. split; [done|]. exists x. split; [|done]. exists k. split_and!; [done..|].
    intros k' x' Hk' HP'. apply Hall in Hk'; [|done]. apply elem_of_cons in Hk' as [-> | Hin]; [done|].
    apply Sorted_StronglySorted in Hs; [|apply _]. apply StronglySorted_inv in Hs as [_ Hle].
    rewrite list.Forall_forall in Hle. by apply Hle.
  - apply IH.
    + intros k' Hin. apply Hkeys. by right.
    + intros k' x' Hk' HP'. pose proof (Hall k' x' Hk' HP') as [-> | Hin]%elem_of_cons; [congruence|done].
    + by apply Sorted_inv in Hs as [? _].
Qed.

Lemma transient_reason reason : isTransientMiddlewareWaitingReason reason = true ↔ reason ∈ transient.
Proof.
  unfold isTransientMiddlewareWaitingReason, transient. rewrite orb_true_iff, !String.eqb_eq. set_solver.
Qed.

Lemma first_stuck_spec field l :
  match first_stuck field l with
  | Some wc => ∃ c w, c ∈ l ∧ cst_waiting c = Some w ∧ w_reason w ∉ transient ∧ wc_reason wc = w_reason w
  | None => ∀ c w, c ∈ l → cst_waiting c = Some w → w_reason w ∈ transient
  end.
Proof.
  induction l as [|c l IH]; [by intros ? ? ?%elem_of_nil|]. cbn [first_stuck].
  destruct (cst_waiting c) as [w|] eqn:Ew; [destruct (isTransientMiddlewareWaitingReason (w_reason w)) eqn:Et|].
  2:{ exists c, w. split_and!; [by left|done|by rewrite <- transient_reason, Et|done]. }
  all: destruct (first_stuck field l) as [wc|]; [destruct IH as (c' & w' & ? & ?); exists c', w'; split; [by right|done]|].
  all: intros c' w' [-> | Hin]%elem_of_cons Hw'; [|by eapply IH].
  - rewrite Ew in Hw'. simplify_eq. by apply transient_reason.
  - congruence.
Qed.

Lemma waiting_report_spec pod :
  match waiting_report mid cr pod with
  | Some text => ∃ w, waits pod w ∧ w_reason w ∉ transient ∧ says (podObjectRef pod) (w_reason w) text
  | None => ¬ stuck pod
  end.
Proof.
  unfold waiting_report, firstMiddlewareWaitingContainer.
  pose proof (first_stuck_spec "initContainerStatuses" (pst_init (rp_status pod))) as Hi.
  pose proof (first_stuck_spec "containerStatuses" (pst_containers (rp_status pod))) as Hc.
  assert (Hsay : ∀ wc w, wc_reason wc = w_reason w → says (podObjectRef pod) (w_reason w)
    (readiness_report mid cr (podObjectRef pod) (wc_fieldPath wc) "container ready" (wc_reason wc)
      (describe "pod" (rp_namespace pod) (rp_name pod))
      ["container=" +:+ wc_container wc; "image=" +:+ wc_image wc; diagnosticValue "nodeName" (rp_nodeName pod);
       diagnosticValue "serviceAccountName" (rp_serviceAccountName pod); "reason=" +:+ wc_reason wc;
       "message=" +:+ wc_message wc])) by (intros wc w <-; apply report_says).
  destruct (first_stuck _ (pst_init _)) as [wc|].
  { destruct Hi as (c & w & ? & ? & ? & ?). exists w. split_and!; [|done|by apply Hsay]. exists c. split; [|done]. by apply in_left. }
  destruct (first_stuck _ (pst_containers _)) as [wc|].
  { destruct Hc as (c & w & ? & ? & ? & ?). exists w. split_and!; [|done|by apply Hsay]. exists c. split; [|done]. by apply in_right. }
  intros (w & (c & [Hin|Hin]%elem_of_app & Hw) & Hn); [by apply Hn, (Hi c)|by apply Hn, (Hc c)].
Qed.

Lemma starting_spec pod : hasTransientMiddlewareWaitingContainer pod = true ↔ starting pod.
Proof.
  unfold hasTransientMiddlewareWaitingContainer. rewrite <- existsb_app, existsb_exists. unfold starting, waits, waits_transiently.
  split.
  - intros (c & Hin%list_elem_of_In & Hw). destruct (cst_waiting c) as [w|] eqn:Ew; [|done]. exists w. rewrite <- transient_reason. eauto.
  - intros (w & (c & Hin & Hw) & Ht). exists c. rewrite <- list_elem_of_In, Hw. split; [done|]. by apply transient_reason.
Qed.

Lemma condition_report_spec (b : bool) (within : Prop) pod c (Hb : b = true ↔ within) :
  match condition_report mid cr b pod c with
  | Some text => held_against within pod c ∧ says (podObjectRef pod) (pc_status c) text
  | None => ¬ held_against within pod c
  end.
Proof.
  unfold condition_report, held_against. pose proof (starting_spec pod) as Hs.
  assert (Hpair : ∀ x y z : string, x ∈ [y; z] ↔ x = y ∨ x = z) by set_solver.
  destruct (String.eqb_spec (pc_status c) "False"), (String.eqb_spec (pc_status c) "Unknown"); cbn [negb andb]; [congruence| | |rewrite Hpair; tauto].
  all: destruct (String.eqb_spec (pc_type c) "PodScheduled"), (String.eqb_spec (pc_type c) "ContainersReady"),
    (String.eqb_spec (pc_type c) "Ready"); cbn [negb andb]; try congruence.
  all: destruct (hasTransientMiddlewareWaitingContainer pod), b, (isInitialPVCBindingPendingCondition c); cbn [andb orb].
  all: try (split; [|apply report_says]); rewrite ?Hpair; intuition congruence.
Qed.

Lemma unfit_spec (b : bool) (within : Prop) pod (Hb : b = true ↔ within) :
  match head (omap (condition_report mid cr b pod) (pst_conditions (rp_status pod))) with
  | Some text => ∃ c, c ∈ pst_conditions (rp_status pod) ∧ held_against within pod c ∧ says (podObjectRef pod) (pc_status c) text
  | None => ¬ unfit within pod
  end.
Proof.
  unfold unfit. induction (pst_conditions (rp_status pod)) as [|c l IH]; [by intros (? & ?%elem_of_nil & _)|].
  cbn [omap list_omap]. pose proof (condition_report_spec b within pod c Hb) as Hc.
  destruct (condition_report mid cr b pod c) as [text|]; [exists c; split; [by left|done]|].
  change (list_omap string) with (@omap list _ pod_condition string) in IH |- *.
  destruct (head _) as [text|].
  - destruct IH as (c' & ? & ?). exists c'. split; [by right|done].
  - intros (c' & [-> | Hin]%elem_of_cons & ?); [done|]. apply IH. eauto.
Qed.

Lemma within_spec now : isWithinInitialReadinessGrace (Some mid) cr now = true ↔ first_start now.
Proof.
  unfold isWithinInitialReadinessGrace, initialReadinessGraceDeadline, first_start.
  destruct (String.eqb_spec (cr_phase (ms_customResources (m_status mid))) PhaseCreating) as [Hp|Hp]; simpl;
    [|split; [done|intros (o & ? & ? & ? & ? & ?); done]].
  destruct cr as [o|]; simpl; [|split; [done|intros (o & ? & ?); done]].
  destruct (Z.eqb_spec (so_generation o) 1); simpl; [|split; [done|intros (o' & [= <-] & ? & ?); done]].
  destruct (Z.eqb_spec (so_creationTimestamp o) 0); simpl; [split; [done|intros (o' & [= <-] & ? & ? & ?); done]|].
  unfold initialReadinessGracePeriod. split.
  - intros Hb. exists o. split_and!; try done; lia.
  - intros (o' & [= <-] & _ & _ & _ & Hb). lia.
Qed.

Lemma claim_report_spec (b : bool) (within : Prop) pvc (Hb : b = true ↔ within) :
  match claim_report mid cr b pvc with
  | Some text => (vc_phase pvc = "Pending" ∧ ¬ within) ∧ says (pvcObjectRef pvc) "Pending" text
  | None => ¬ (vc_phase pvc = "Pending" ∧ ¬ within)
  end.
Proof.
  unfold claim_report. destruct (String.eqb_spec (vc_phase pvc) "Pending") as [Hp|Hp]; simpl; [|tauto].
  destruct b; [tauto|]. split; [intuition congruence|]. rewrite Hp. apply report_says.
Qed.

(** C29: The readiness diagnosis of a Middleware is empty exactly when no pod
    has a container stuck for a reason other than being started, no condition
    of a pod is held against it and, outside the window of the first start, no
    claim is pending.  The window is that of a first-generation resource, for
    two minutes from its creation and only while the Middleware is being
    created; in it only pending claims, the readiness of pods and a scheduling
    failure about claims alone are withheld.  A diagnosis that is not empty
    names the first pod by key that is stuck, with the reason; without one, the
    first pod with a condition held against it, with its status; without one,
    the first pending claim. *)
Theorem readiness_verdict (pods : gmap string runtime_pod) (pvcs : gmap string volume_claim) now :
  let text := deriveMiddlewareReadinessDiagnosticAt mid cr pods pvcs now in
  let within := first_start now in
  let pending pvc := vc_phase pvc = "Pending" ∧ ¬ within in
  let no_stuck := ∀ name pod, pods !! name = Some pod → ¬ stuck pod in
  let no_unfit := ∀ name pod, pods !! name = Some pod → ¬ unfit within pod in
  let no_pending := ∀ name pvc, pvcs !! name = Some pvc → ¬ pending pvc in
  (text = "" ∧ no_stuck ∧ no_unfit ∧ no_pending) ∨
  text ≠ "" ∧
  ((∃ pod w, first_key stuck pods pod ∧ waits pod w ∧ w_reason w ∉ transient ∧ says (podObjectRef pod) (w_reason w) text) ∨
   no_stuck ∧
   ((∃ pod c, first_key (unfit within) pods pod ∧ c ∈ pst_conditions (rp_status pod) ∧ held_against within pod c ∧
       says (podObjectRef pod) (pc_status c) text) ∨
    no_unfit ∧ ∃ pvc, first_key pending pvcs pvc ∧ says (pvcObjectRef pvc) "Pending" text)).
Proof.
  cbv zeta. unfold deriveMiddlewareReadinessDiagnosticAt. cbv zeta. pose proof (within_spec now) as Hb.
  set (b := isWithinInitialReadinessGrace (Some mid) cr now) in *.
  assert (H1 : ∀ pod, match waiting_report mid cr pod with Some text => stuck pod ∧ text ≠ "" | None => ¬ stuck pod end).
  { intros pod. pose proof (waiting_report_spec pod) as Hw. destruct (waiting_report mid cr pod) as [text|]; [|done].
    destruct Hw as (w & ? & ? & ?%says_something). split; [by exists w|done]. }
  assert (H2 : ∀ pod, match head (omap (condition_report mid cr b pod) (pst_conditions (rp_status pod))) with
    | Some text => unfit (first_start now) pod ∧ text ≠ "" | None => ¬ unfit (first_start now) pod end).
  { intros pod. pose proof (unfit_spec b _ pod Hb) as Hu. destruct (head _) as [text|]; [|done].
    destruct Hu as (c & ? & ? & ?%says_something). split; [by exists c|done]. }
  assert (H3 : ∀ pvc, match claim_report mid cr b pvc with
    | Some text => (vc_phase pvc = "Pending" ∧ ¬ first_start now) ∧ text ≠ "" | None => ¬ (vc_phase pvc = "Pending" ∧ ¬ first_start now) end).
  { intros pvc. pose proof (claim_report_spec b _ pvc Hb) as Hc. destruct (claim_report mid cr b pvc) as [text|]; [|done].
    destruct Hc as (? & ?%says_something). done. }
  destruct (first_report_spec _ pods _ H1) as [[E1 N1]|(E1 & pod & Hfirst & Hrep)]; fold (middlewarePodWaitingDiagnostic mid cr pods) in *.
  2:{ rewrite (proj2 (String.eqb_neq _ _) E1). cbn [negb]. right. split; [done|]. left.
      pose proof (waiting_report_spec pod) as Hw. rewrite Hrep in Hw. destruct Hw as (w & ? & ? & ?). by exists pod, w. }
  rewrite E1. cbn [negb String.eqb].
  destruct (first_report_spec _ pods _ H2) as [[E2 N2]|(E2 & pod & Hfirst & Hrep)]; fold (middlewarePodConditionDiagnostic mid cr pods b) in *.
  2:{ rewrite (proj2 (String.eqb_neq _ _) E2). cbn [negb]. right. split; [done|]. right. split; [done|]. left.
      pose proof (unfit_spec b _ pod Hb) as Hu. rewrite Hrep in Hu. destruct Hu as (c & ? & ? & ?). by exists pod, c. }
  rewrite E2. cbn [negb String.eqb].
  destruct (first_report_spec _ pvcs _ H3) as [[E3 N3]|(E3 & pvc & Hfirst & Hrep)]; fold (middlewarePVCPendingDiagnostic mid cr pvcs b) in *.
  - rewrite E3. left. by split_and!.
  - rewrite (proj2 (String.eqb_neq _ _) E3). cbn [negb]. right. split; [done|]. right. split; [done|]. right. split; [done|].
    exists pvc. split; [done|]. pose proof (claim_report_spec b _ pvc Hb) as Hc. rewrite Hrep in Hc. tauto.
Qed.

(** When the timer of a recheck is due the window of that resource is over. *)
Lemma recheck_ends_window get deadline start delay now :
  initialReadinessRecheckDeadline cr get = Some deadline → (∀ o, cr = Some o → get o = Ok o) →
  recheck_delay deadline start = Some delay → (start + delay ≤ now)%Z → ¬ first_start now.
Proof.
  intros Hd Hget Hdelay Hnow (o & -> & Hg & Hc & Hp & Hlt). cbn [initialReadinessRecheckDeadline] in Hd.
  rewrite (Hget o eq_refl) in Hd. simpl in Hd. rewrite Hg, (proj2 (Z.eqb_neq _ _) Hc) in Hd. simpl in Hd.
  unfold recheck_delay in Hdelay. destruct (_ <=? 0)%Z; simplify_eq. unfold initialReadinessGracePeriod in *. lia.
Qed.
End Verdict.

(** A trigger never follows a wake-up that found the session over. *)
Lemma recheck_respects_stop taken ready :
  scheduleInitialReadinessRecheck taken ready = true → taken = TimerFired ∧ ready CtxDone = false ∧ ready StopClosed = false.
Proof. destruct taken; simpl; [done..|]. destruct (ready CtxDone), (ready StopClosed); done. Qed.

(** ** Examples *)

Section Demo.
Definition demo_mid (phase : string) : middleware :=
  Middleware "redis" "db" "u1" 1 None ∅ ∅ [] (MiddlewareSpec (OperatorBaseline "" "") "b" "" [] "" None [])
    (MiddlewareStatus 1 [] (CustomResources 0 phase ∅ ∅ 0 "" "" (Include [] [] [] [] [] []) None) "" "" [] 0 None).
Definition demo_cr : started_object := StartedObject (ObjectRef "redis.io/v1" "Redis" "db" "redis") 1 (1000 * 10 ^ 9).
Definition demo_claim : volume_claim := PersistentVolumeClaim "db" "data-redis-0" ∅ [] None ["ReadWriteOnce"] "1Gi" "Pending".
Definition scheduling_condition (message : string) : pod_condition :=
  PodCondition "PodScheduled" "False" "Unschedulable" message JNull.
Definition unscheduled (message : string) : runtime_pod :=
  RuntimePod "db" "redis-0" ∅ [] "" "" [] (PodStatus [] [] [scheduling_condition message] JNull).
Definition unbound : string :=
  "0/3 nodes are available: pod has unbound immediate PersistentVolumeClaims. preemption: 0/3 nodes are available: 3 Preemption is not helpful for scheduling.".

Definition demo_readiness (phase message : string) (now : Z) : string :=
  deriveMiddlewareReadinessDiagnosticAt (demo_mid phase) (Some demo_cr) {[ "redis-0" := unscheduled message ]}
    {[ "data-redis-0" := demo_claim ]} now.

(** On the first start a pod that waits for its claims is not reported; with a
    second cause, after two minutes, or once the Middleware was running, it is. *)
Example first_start_withholds :
  demo_readiness PhaseCreating unbound (1119 * 10 ^ 9) = "" ∧
  contains "failedObject=v1/Pod db/redis-0" (demo_readiness PhaseCreating
    "0/3 nodes are available: 1 Insufficient cpu, pod has unbound immediate PersistentVolumeClaims." (1119 * 10 ^ 9)) = true ∧
  contains "failedObject=v1/Pod db/redis-0" (demo_readiness PhaseCreating unbound (1120 * 10 ^ 9)) = true ∧
  contains "failedObject=v1/Pod db/redis-0" (demo_readiness PhaseRunning unbound (1119 * 10 ^ 9)) = true.
Proof. vm_compute. done. Qed.

(** A recheck scheduled when the window has just ended is none, although a
    diagnosis made shortly before withheld the pending claim: nothing reports
    it until the next event. *)
Example recheck_missed :
  demo_readiness PhaseCreating unbound (1120 * 10 ^ 9 - 1) = "" ∧
  initialReadinessRecheckDeadline (Some demo_cr) Ok = Some (1120 * 10 ^ 9)%Z ∧
  recheck_delay (1120 * 10 ^ 9) (1120 * 10 ^ 9) = None.
Proof. vm_compute. done. Qed.
End Demo.
