(* ===== verification/Catalog.v ===== *)
(** * The catalog: what packages install, and the Secrets they come from

    A package is a Secret that holds a compressed archive.  Installing it
    creates cluster-wide catalog objects of four kinds, whose Go code is four
    copies of the same functions: [internal/k8s/middleware*baseline.go],
    [middlewareconfiguration.go] and [internal/service/middleware*baseline].
    One definition here stands for the four copies and takes the kind; each
    copy is an instance of it.  The file also has the clients of packages and
    Secrets ([internal/k8s/middlewarepackage.go], [secret.go]). *)
From Stdlib Require Import ZArith Lia.
From stdpp Require Import base gmap strings list option pretty.
From S2P Require Import Prelude GoStrings Labels Conditions Prog Json Middleware StatusRule.

(** ** Data *)

Inductive catalog_kind := KBaseline | KOperatorBaseline | KActionBaseline | KConfiguration.
#[export] Instance catalog_kind_eq_dec : EqDecision catalog_kind.
Proof. solve_decision. Defined.

(** A custom resource that an operator baseline declares. *)
(** [GVK], api/v1/common.go *)
Record declared_gvk := DeclaredGVK { dg_name : string; dg_gvk : gvk; dg_statusRules : list string }.

(** [MiddlewareBaselineSpec], api/v1/middlewarebaseline_types.go *)
Record baseline_spec := BaselineSpec {
  bs_operatorBaseline : operator_baseline;
  bs_gvk : gvk;
  bs_necessary : string;
  bs_preActions : list pre_action;
  bs_parameters : string;
  bs_configurations : list configuration_ref;
}.

(** [Output], api/v1/middlewareactionbaseline_types.go *)
Record step_output := Output { out_expose : bool; out_type : string }.
(** [Http], api/v1/middlewareactionbaseline_types.go *)
Record http_request := Http {
  ht_method : string;
  ht_url : string;
  ht_header : gmap string string;
  ht_body : string;
}.
(** [Step], api/v1/middlewareactionbaseline_types.go *)
Record action_step := Step {
  st_name : string;
  st_type : string;
  st_output : step_output;
  st_cue : string;
  st_command : list string;
  st_http : http_request;
}.

(** The part of each spec that the code looks at, and the rest. *)
(** [MiddlewareOperatorBaselineSpec], api/v1/middlewareoperatorbaseline_types.go *)
Inductive catalog_spec :=
  | MiddlewareBaselineSpec (spec : baseline_spec)
  | MiddlewareOperatorBaselineSpec (GVKs : list declared_gvk) (rest : json)
  | MiddlewareActionBaselineSpec (BaselineType : string) (Steps : list action_step) (rest : json)
  | MiddlewareConfigurationSpec (Template : string).

(** [MiddlewareBaselineStatus], api/v1/middlewarebaseline_types.go *)
Record catalog_status := CatalogStatus { cs_observedGeneration : Z; cs_conditions : list condition; cs_state : string }.

(** [MiddlewareBaseline], api/v1/middlewarebaseline_types.go *)
Record catalog_object := CatalogObject {
  co_name : string;
  co_generation : Z;
  co_labels : gmap string string;
  co_annotations : gmap string string;
  co_controller : option string;   (** the UID of the controlling owner *)
  co_spec : catalog_spec;
  co_status : catalog_status;
}.

Definition kind_of (o : catalog_object) : catalog_kind :=
  match co_spec o with
  | MiddlewareBaselineSpec _ => KBaseline
  | MiddlewareOperatorBaselineSpec _ _ => KOperatorBaseline
  | MiddlewareActionBaselineSpec _ _ _ => KActionBaseline
  | MiddlewareConfigurationSpec _ => KConfiguration
  end.

Definition with_labels (labels : gmap string string) (o : catalog_object) : catalog_object :=
  CatalogObject (co_name o) (co_generation o) labels (co_annotations o) (co_controller o) (co_spec o) (co_status o).
Definition with_controller (uid : string) (o : catalog_object) : catalog_object :=
  CatalogObject (co_name o) (co_generation o) (co_labels o) (co_annotations o) (Some uid) (co_spec o) (co_status o).
Definition with_template (t : string) (o : catalog_object) : catalog_object :=
  CatalogObject (co_name o) (co_generation o) (co_labels o) (co_annotations o) (co_controller o) (MiddlewareConfigurationSpec t) (co_status o).
Definition with_status (st : catalog_status) (o : catalog_object) : catalog_object :=
  CatalogObject (co_name o) (co_generation o) (co_labels o) (co_annotations o) (co_controller o) (co_spec o) st.

(** A Secret; the cached reads of package Secrets come without [Data]. *)
Record secret := Secret {
  s_name : string;
  s_namespace : string;
  s_resourceVersion : string;
  s_deletionTimestamp : option Z;
  s_labels : gmap string string;
  s_annotations : gmap string string;
  s_finalizers : list string;
  s_data : gmap string string;
}.

(** [Metadata], internal/service/packages/packages.go *)
Record metadata := Metadata {
  md_name : string; md_version : string; md_app : list string * list string;
  md_owner : string; md_type : string; md_description : string;
}.

(** The formatted creation time of its Secret, which nothing modelled reads, is left out. *)
(** [Package], internal/service/packages/packages.go *)
Record package := Package {
  pk_name : string;
  pk_files : gmap string string;
  pk_component : string;
  pk_metadata : metadata;
  pk_enabled : bool;
}.

(** [MiddlewarePackageSpec], api/v1/middlewarepackage_types.go *)
Record package_spec := MiddlewarePackageSpec {
  pks_name : string; pks_version : string; pks_owner : string; pks_type : string; pks_description : string;
  pks_crds : list string; pks_baselines : list string; pks_configurations : list string; pks_actions : list string;
}.

(** [MiddlewarePackage], api/v1/middlewarepackage_types.go *)
Record middleware_package := MiddlewarePackage {
  mp_name : string;
  mp_uid : string;
  mp_generation : Z;
  mp_labels : gmap string string;
  mp_annotations : gmap string string;
  mp_spec : package_spec;
  mp_status : catalog_status;
}.

(** What a template sees. *)
(** [TemplateValues], pkg/tools/template.go *)
Record template_values := TemplateValues {
  tv_values : gmap string json;
  tv_globe : gmap string json;
  tv_necessary : gmap string json;
  tv_step : gmap string json;
  tv_capabilities : json;
  tv_parameters : gmap string json;
}.
Definition with_values (values : gmap string json) (tv : template_values) : template_values :=
  TemplateValues values (tv_globe tv) (tv_necessary tv) (tv_step tv) (tv_capabilities tv) (tv_parameters tv).
Definition with_parameters (parameters : gmap string json) (tv : template_values) : template_values :=
  TemplateValues (tv_values tv) (tv_globe tv) (tv_necessary tv) (tv_step tv) (tv_capabilities tv) parameters.
Definition with_necessary (necessary : gmap string json) (tv : template_values) : template_values :=
  TemplateValues (tv_values tv) (tv_globe tv) necessary (tv_step tv) (tv_capabilities tv) (tv_parameters tv).

(** A Middleware or MiddlewareOperator in a listing. *)
Record listed := Listed { li_namespace : string; li_name : string; li_baseline : string; li_state : string }.

(** [packageUsage], internal/service/middlewarepackage/middlewarepackage.go *)
Record package_usage := PackageUsage {
  pu_kind : string; pu_namespace : string; pu_name : string; pu_baseline : string; pu_state : string;
}.
#[export] Instance package_usage_eq_dec : EqDecision package_usage.
Proof. solve_decision. Defined.

(** ** What the package code calls *)

Inductive pcall : Type → Type :=
  | CatalogGet (k : catalog_kind) (name : string) : pcall (result error catalog_object)
  | CatalogReaderGet (k : catalog_kind) (name : string) : pcall (result error catalog_object)
  | CatalogCreate (o : catalog_object) : pcall (option error)
  | CatalogUpdate (o : catalog_object) : pcall (option error)
  | CatalogDelete (o : catalog_object) : pcall (option error)
  | CatalogStatusUpdate (o : catalog_object) : pcall (option error)
  | CatalogCacheGet (k : catalog_kind) (key : string) : pcall (option catalog_object)
  | CatalogCacheSet (k : catalog_kind) (key : string) (o : catalog_object) : pcall unit
  (** Secrets *)
  | SecretGet (name ns : string) : pcall (result error secret)
  | SecretReaderGet (name ns : string) : pcall (result error secret)
  | SecretCreate (s : secret) : pcall (option error)
  | SecretDelete (s : secret) : pcall (option error)
  | SecretPatch (from to : secret) : pcall (option error)   (** the merge patch between the two *)
  | SecretList (ns : string) (projects : list string) (labels : gmap string string) : pcall (result error (list secret))
  | SecretCacheSet (key : string) (s : secret) : pcall unit
  (** the cache of parsed packages *)
  | ParsedGet (name : string) : pcall (option (string * package))
  | ParsedSet (name resourceVersion : string) (p : package) : pcall unit
  (** MiddlewarePackages *)
  | PackageGet (name : string) : pcall (result error middleware_package)
  | PackageReaderGet (name : string) : pcall (result error middleware_package)
  | PackageCreate (m : middleware_package) : pcall (option error)
  | PackageUpdate (m : middleware_package) : pcall (option error)
  | PackageDelete (m : middleware_package) : pcall (option error)
  | PackageStatusUpdate (m : middleware_package) : pcall (option error)
  | PackageList (projects : list string) (labels : gmap string string) : pcall (result error (list middleware_package))
  | PackageCacheSet (key : string) (m : middleware_package) : pcall unit
  (** rendering *)
  | TemplateParse (template : string) (values : template_values) : pcall (result error string)
  (** the Middlewares and MiddlewareOperators of all namespaces with a package label *)
  | MiddlewareList (package : string) : pcall (result error (list listed))
  | OperatorList (package : string) : pcall (result error (list listed)).
Abbreviation pprog := (prog pcall).
Abbreviation pevent := (event pcall).

(** ** Projects ([internal/service/consts]) *)

(** [ProjectOpenSaola], internal/service/consts/consts.go *)
Definition ProjectOpenSaola : string := "opensaola".
(** [ProjectZeusOperator], internal/service/consts/consts.go *)
Definition ProjectZeusOperator : string := "zeus-operator".
(** [CompatibleProjects], internal/service/consts/consts.go:53-56 *)
Definition CompatibleProjects : list string := [ProjectOpenSaola; ProjectZeusOperator].
(** [IsOpenSaolaProject], internal/service/consts/consts.go *)
Definition IsOpenSaolaProject (project : string) : bool := existsb (String.eqb project) CompatibleProjects.

(** ** Client functions *)

Section Client.
Context `{!RetryOnConflict pcall error is_conflict} (statusAPIReader : bool).

Definition GroupResource (k : catalog_kind) : string :=
  match k with
  | KBaseline => "MiddlewareBaseline.middleware.cn"
  | KOperatorBaseline => "MiddlewareOperatorBaseline.middleware.cn"
  | KActionBaseline => "MiddlewareActionBaseline.middleware.cn"
  | KConfiguration => "MiddlewareConfiguration.middleware.cn"
  end.
Definition quoted (s : string) : string := String double_quote (s +:+ String double_quote EmptyString).
Definition already_exists (resource name : string) : error := Error AlreadyExists (resource +:+ " " +:+ quoted name +:+ " already exists").
Definition not_found (resource name : string) : error := Error NotFound (resource +:+ " " +:+ quoted name +:+ " not found").

(** Any error of the read counts as absence. *)
Definition create_catalog (o : catalog_object) : pprog (option error) :=
  r ← call (CatalogGet (kind_of o) (co_name o));
  match r with
  | Ok _ => Ret (Some (already_exists (GroupResource (kind_of o)) (co_name o)))
  | Err _ => call (CatalogCreate o)
  end.

Definition update_catalog_status (reader : bool) (what : string) (o : catalog_object) : pprog (option error) :=
  r ← retry 0 (λ attempt,
    let st := CatalogStatus (co_generation o) (cs_conditions (co_status o)) (cs_state (co_status o)) in
    r ← (if (0 <? attempt) && reader then call (CatalogReaderGet (kind_of o) (co_name o))
         else call (CatalogGet (kind_of o) (co_name o)));
    match r with
    | Err e => Ret (Some (wrap_error ("get " +:+ what +:+ " error") e), attempt)
    | Ok now =>
        err ← call (CatalogStatusUpdate (with_status st now));
        Ret (option_map (wrap_error ("update " +:+ what +:+ " status error")) err, S attempt)
    end);
  Ret r.1.

(** [CreateMiddlewareBaseline], internal/k8s/middlewarebaseline.go *)
Definition CreateMiddlewareBaseline := create_catalog.
(** [CreateMiddlewareOperatorBaseline], internal/k8s/middlewareoperatorbaseline.go *)
Definition CreateMiddlewareOperatorBaseline := create_catalog.
(** [CreateMiddlewareActionBaseline], internal/k8s/middlewareactionbaseline.go *)
Definition CreateMiddlewareActionBaseline := create_catalog.
(** [CreateMiddlewareConfiguration], internal/k8s/middlewareconfiguration.go *)
Definition CreateMiddlewareConfiguration := create_catalog.

(** [GetMiddlewareBaseline], internal/k8s/middlewarebaseline.go *)
Definition GetMiddlewareBaseline_live (name : string) := call (CatalogGet KBaseline name).
(** [GetMiddlewareOperatorBaseline], internal/k8s/middlewareoperatorbaseline.go *)
Definition GetMiddlewareOperatorBaseline_live (name : string) := call (CatalogGet KOperatorBaseline name).
(** [GetMiddlewareActionBaseline], internal/k8s/middlewareactionbaseline.go *)
Definition GetMiddlewareActionBaseline_live (name : string) := call (CatalogGet KActionBaseline name).
(** [GetMiddlewareConfiguration], internal/k8s/middlewareconfiguration.go *)
Definition GetMiddlewareConfiguration_live (name : string) := call (CatalogGet KConfiguration name).

(** [UpdateMiddlewareBaselineStatus], internal/k8s/middlewarebaseline.go *)
Definition UpdateMiddlewareBaselineStatus := update_catalog_status statusAPIReader "middleware baseline".
(** [UpdateMiddlewareOperatorBaselineStatus], internal/k8s/middlewareoperatorbaseline.go *)
Definition UpdateMiddlewareOperatorBaselineStatus := update_catalog_status statusAPIReader "middleware operator baseline".
(** Its retries read from the cache, too. *)
(** [UpdateMiddlewareActionBaselineStatus], internal/k8s/middlewareactionbaseline.go *)
Definition UpdateMiddlewareActionBaselineStatus := update_catalog_status false "middleware baseline".
(** [UpdateMiddlewareConfigurationStatus], internal/k8s/middlewareconfiguration.go *)
Definition UpdateMiddlewareConfigurationStatus := update_catalog_status statusAPIReader "middleware configuration".
(** [UpdateStatus], internal/service/middlewareconfiguration/deploy.go *)
Definition UpdateStatus_configuration := update_catalog_status false "middleware configuration".
(** [UpdateStatus], internal/service/middlewareoperatorbaseline/middlewareoperatorbaseline.go *)
Definition UpdateStatus_operator_baseline := update_catalog_status false "middleware operator baseline".

(** *** MiddlewarePackages *)

(** [GetMiddlewarePackage], internal/k8s/middlewarepackage.go *)
Definition GetMiddlewarePackage (name : string) : pprog (result error middleware_package) :=
  r ← retry None (λ _,
    r ← call (PackageGet name);
    match r with
    | Err e => Ret (Some (wrap_error "get middleware package error" e), None)
    | Ok m => _ ← call (PackageCacheSet ("/" +:+ name) m); Ret (None, Some m)
    end);
  Ret (match r with
       | (Some e, _) => Err e
       | (None, Some m) => Ok m
       | (None, None) => Err (new_error "unreachable")
       end).

(** [CreateMiddlewarePackage], internal/k8s/middlewarepackage.go *)
Definition CreateMiddlewarePackage (m : middleware_package) : pprog (option error) :=
  r ← GetMiddlewarePackage (mp_name m);
  match r with
  | Ok _ => Ret (Some (already_exists "MiddlewarePackage.middleware.cn" (mp_name m)))
  | Err _ => call (PackageCreate m)
  end.

(** [UpdateMiddlewarePackage], internal/k8s/middlewarepackage.go *)
Definition UpdateMiddlewarePackage (m : middleware_package) : pprog (option error) :=
  r ← retry tt (λ _,
    r ← GetMiddlewarePackage (mp_name m);
    match r with
    | Err e => Ret (Some e, tt)
    | Ok now =>
        err ← call (PackageUpdate (MiddlewarePackage (mp_name now) (mp_uid now) (mp_generation now) (mp_labels m)
                      (mp_annotations m) (mp_spec m) (mp_status now)));
        Ret (err, tt)
    end);
  Ret r.1.

(** [UpdateMiddlewarePackageStatus], internal/k8s/middlewarepackage.go *)
Definition UpdateMiddlewarePackageStatus (m : middleware_package) : pprog (option error) :=
  r ← retry 0 (λ attempt,
    let st := CatalogStatus (mp_generation m) (cs_conditions (mp_status m)) (cs_state (mp_status m)) in
    r ← (if (0 <? attempt) && statusAPIReader then call (PackageReaderGet (mp_name m)) else GetMiddlewarePackage (mp_name m));
    match r with
    | Err e => Ret (Some (wrap_error "get middleware package error" e), attempt)
    | Ok now =>
        err ← call (PackageStatusUpdate (MiddlewarePackage (mp_name now) (mp_uid now) (mp_generation now) (mp_labels now)
                      (mp_annotations now) (mp_spec now) st));
        Ret (option_map (wrap_error "update middleware configuration status error") err, S attempt)
    end);
  Ret r.1.

(** *** Secrets *)

(** [CreateSecret], internal/k8s/secret.go *)
Definition CreateSecret (s : secret) : pprog (option error) :=
  r ← call (SecretGet (s_name s) (s_namespace s));
  match r with
  | Ok _ => Ret None
  | Err e => if is_not_found e then call (SecretCreate s) else Ret (Some (wrap_error "get  error" e))
  end.

(** [DeleteSecret], internal/k8s/secret.go *)
Definition DeleteSecret (name ns : string) : pprog (option error) :=
  r ← call (SecretGet name ns);
  match r with
  | Ok s => call (SecretDelete s)
  | Err e => if is_not_found e then Ret None else Ret (Some e)
  end.

(** The labels and annotations of [s] on [now]. *)
Definition with_secret_meta (labels annotations : gmap string string) (now : secret) : secret :=
  Secret (s_name now) (s_namespace now) (s_resourceVersion now) (s_deletionTimestamp now) labels annotations
    (s_finalizers now) (s_data now).

(** [UpdateSecret], internal/k8s/secret.go *)
Definition UpdateSecret (s : secret) : pprog (option error) :=
  r ← retry tt (λ _,
    r ← call (SecretGet (s_name s) (s_namespace s));
    match r with
    | Err e => Ret (Some e, tt)
    | Ok now => err ← call (SecretPatch now (with_secret_meta (s_labels s) (s_annotations s) now)); Ret (err, tt)
    end);
  Ret r.1.

(** [GetSecret], internal/k8s/secret.go *)
Definition GetSecret (name ns : string) : pprog (result error secret) :=
  r ← call (SecretGet name ns);
  match r with
  | Ok s => _ ← call (SecretCacheSet (ns +:+ "/" +:+ name) s); Ret (Ok s)
  | Err e => Ret (Err e)
  end.

(** [GetSecrets], internal/k8s/secret.go *)
Definition GetSecrets (ns : string) (projects : list string) (labels : gmap string string) : pprog (result error (list secret)) :=
  r ← call (SecretList ns projects labels);
  Ret (match r with Ok l => Ok l | Err e => Err (wrap_error "list  error" e) end).
End Client.
