(* ===== verification/Packages.v ===== *)
(** * Packages: reading them, and finding catalog objects in them

    [internal/service/packages], the archive reader of [pkg/tools/tar.go], the
    four [Get] functions that look a catalog object up in the cluster, in a
    cache and in its package, and the rendering loop of
    [middlewareconfiguration.go].  Decompression, the archive format and the
    YAML decoders are parameters.  Go ranges over the files of a package in an
    unspecified order, which is a parameter too. *)
From Stdlib Require Import ZArith Lia Ascii.
From stdpp Require Import base gmap strings list option.
From S2P Require Import Prelude GoStrings Labels Conditions Prog Json Middleware StatusRule Adoption Catalog.

(** An entry of an archive. *)
Record tar_entry := TarEntry { te_regular : bool; te_name : string; te_content : result error string }.

Definition slash : ascii := Ascii.ascii_of_nat 47.

(** [zstd] and [archive/tar]; a YAML document is decoded into an object whose
    fields it does not mention keep their values. *)
Class PackageFormat := {
  DeCompress : string → result error string;
  tar_entries : string → list (result error tar_entry);
  decode_metadata : string → result error metadata;
  decode_catalog : catalog_object → string → result error catalog_object;
  zero : catalog_kind → catalog_object;
  decode_kind o s o' : decode_catalog o s = Ok o' → kind_of o' = kind_of o;
  zero_kind k : kind_of (zero k) = k;
}.

Section Packages.
Context `{!RetryOnConflict pcall error is_conflict, !PackageFormat, !MapOrder}.
(** Whether [SetAPIReader] was called, and the namespace of the Secrets. *)
Context (apiReader : bool) (DataNamespace : string).

(** ** Archives *)

Definition join (sep : string) (l : list string) : string :=
  match l with [] => "" | x :: l => x +:+ foldr (λ y acc, sep +:+ y +:+ acc) "" l end.

(** The first component of the path is dropped. *)
(** [ReadTarInfo], pkg/tools/tar.go:45-62 *)
Fixpoint read_entries (entries : list (result error tar_entry)) (files : gmap string string) : result error (gmap string string) :=
  match entries with
  | [] => Ok files
  | Err e :: _ => Err e
  | Ok hdr :: entries =>
      if te_regular hdr then
        match te_content hdr with
        | Ok content => read_entries entries (<[join "/" (tail (split_on slash (te_name hdr))) := content]> files)
        | Err e => Err e
        end
      else read_entries entries files
  end.

(** [ReadTarInfo], pkg/tools/tar.go *)
Definition ReadTarInfo (data : string) : result error (gmap string string) := read_entries (tar_entries data) ∅.

(** [ReadFile], pkg/tools/tar.go *)
Definition ReadFile (files : gmap string string) (name : string) : result error string :=
  match list_find (λ '(k, _), contains name k = true) (visit files) with
  | Some (_, (_, v)) => Ok v
  | None => Err (new_error "file not found")
  end.

(** ** Packages *)

(** [Release], internal/service/packages/packages.go:51-51 *)
Definition Release : string := "package".

(** What [Get] makes of a Secret. *)
(** [Get], internal/service/packages/packages.go:207-230 *)
Definition parse (s : secret) : result error package :=
  match DeCompress (default "" (s_data s !! Release)) with
  | Err e => Err (wrap_error "decompress data failed" e)
  | Ok decompressed =>
      match ReadTarInfo decompressed with
      | Err e => Err (wrap_error "read tar info failed" e)
      | Ok files =>
          match decode_metadata (default "" (files !! "metadata.yaml")) with
          | Err e => Err (wrap_error "unmarshal metadata failed" e)
          | Ok metadata =>
              Ok (Package (s_name s) files ((s_labels s).[LabelComponent]) metadata
                    (String.eqb ((s_labels s).[LabelEnabled]) "true"))
          end
      end
  end.

Definition read_secret (name : string) : pprog (result error secret) :=
  if apiReader then call (SecretReaderGet name DataNamespace) else GetSecret name DataNamespace.

(** [Get], internal/service/packages/packages.go *)
Definition Get (name : string) : pprog (result error package) :=
  r ← read_secret name;
  match r with
  | Err e => Ret (Err (wrap_error "get secret failed" e))
  | Ok s =>
      ce ← call (ParsedGet name);
      let fresh :=
        match parse s with
        | Err e => Ret (Err e)
        | Ok pkg => _ ← call (ParsedSet name (s_resourceVersion s) pkg); Ret (Ok pkg)
        end in
      match ce with
      | Some (rv, pkg) => if String.eqb rv (s_resourceVersion s) then Ret (Ok pkg) else fresh
      | None => fresh
      end
  end.

(** [GetInstallStatus], internal/service/packages/packages.go *)
Definition GetInstallStatus (name : string) : pprog (result error (bool * string)) :=
  r ← GetSecret name DataNamespace;
  Ret (match r with
       | Err e => Err e
       | Ok s => Ok (String.eqb ((s_labels s).[LabelEnabled]) "true", (s_annotations s).[AnnotationInstallError])
       end).

(** [SelectPreferredMiddlewarePackages], internal/service/packages/packages.go *)
Definition SelectPreferredMiddlewarePackages (items : list middleware_package) : list middleware_package :=
  let of_project p := filter (λ item, (mp_labels item).[LabelProject] = p) items in
  match of_project ProjectOpenSaola with
  | [] => of_project ProjectZeusOperator
  | current => current
  end.

(** [ListCompatibleMiddlewarePackages], internal/service/packages/packages.go *)
Definition ListCompatibleMiddlewarePackages (labels : gmap string string) : pprog (result error (list middleware_package)) :=
  r ← call (PackageList CompatibleProjects labels);
  Ret (match r with Ok items => Ok (SelectPreferredMiddlewarePackages items) | Err e => Err e end).

Fixpoint get_all (names : list string) : pprog (result error (list package)) :=
  match names with
  | [] => Ret (Ok [])
  | name :: names => pkg ←? Get name; pkgs ←? get_all names; Ret (Ok (pkg :: pkgs))
  end.

(** [List], internal/service/packages/packages.go *)
Definition List_packages (component version : string) : pprog (result error (list package)) :=
  let lbs := if String.eqb component "" then ∅ else {[LabelComponent := component]} in
  let lbs := if String.eqb version "" then lbs else <[LabelPackageVersion := version]> lbs in
  secrets ←? GetSecrets DataNamespace CompatibleProjects lbs;
  get_all (s_name <$> secrets).

(** [GetMetadata], internal/service/packages/packages.go *)
Definition GetMetadata (packageName : string) : pprog (result error metadata) :=
  pkg ←? Get packageName;
  pure (decode_metadata (default "" (pk_files pkg !! "metadata.yaml"))).

(** ** The catalog objects of a package *)

(** What the files of a kind contain. *)
Definition kind_marker (k : catalog_kind) : string :=
  match k with
  | KBaseline => "kind: MiddlewareBaseline"
  | KOperatorBaseline => "kind: MiddlewareOperatorBaseline"
  | KActionBaseline => "kind: MiddlewareActionBaseline"
  | KConfiguration => "kind: MiddlewareConfiguration"
  end.

Fixpoint decode_files (k : catalog_kind) (files : list (string * string)) : result error (list catalog_object) :=
  match files with
  | [] => Ok []
  | (_, v) :: files =>
      if contains (kind_marker k) v then
        o ← decode_catalog (zero k) v; os ← decode_files k files; Ok (o :: os)
      else decode_files k files
  end.

(** The objects of a kind in a package. *)
Definition catalog_of (k : catalog_kind) (pkg : package) : result error (list catalog_object) :=
  decode_files k (visit (pk_files pkg)).

Definition get_catalog (k : catalog_kind) (packageName : string) : pprog (result error (list catalog_object)) :=
  pkg ←? Get packageName; pure (catalog_of k pkg).

(** [GetMiddlewareBaselines], internal/service/packages/packages.go *)
Definition GetMiddlewareBaselines := get_catalog KBaseline.
(** [GetMiddlewareOperatorBaselines], internal/service/packages/packages.go *)
Definition GetMiddlewareOperatorBaselines := get_catalog KOperatorBaseline.
(** [GetMiddlewareActionBaselines], internal/service/packages/packages.go *)
Definition GetMiddlewareActionBaselines := get_catalog KActionBaseline.

Definition by_name (os : list catalog_object) : gmap string catalog_object :=
  foldl (λ m o, <[co_name o := o]> m) ∅ os.

(** [GetConfigurations], internal/service/packages/packages.go *)
Definition GetConfigurations (packageName : string) : pprog (result error (gmap string catalog_object)) :=
  os ←? get_catalog KConfiguration packageName; Ret (Ok (by_name os)).

(** Every file is decoded into the same object. *)
(** [GetMiddlewareBaseline], internal/service/packages/packages.go:350-363 *)
Fixpoint find_baseline (name : string) (files : list (string * string)) (md : catalog_object) : result error (option catalog_object) :=
  match files with
  | [] => Ok None
  | (_, v) :: files =>
      if contains (kind_marker KBaseline) v then
        md ← decode_catalog md v;
        if String.eqb (co_name md) name then Ok (Some md) else find_baseline name files md
      else find_baseline name files md
  end.

(** [GetMiddlewareBaseline], internal/service/packages/packages.go *)
Definition GetMiddlewareBaseline (name packageName : string) : pprog (result error catalog_object) :=
  pkg ←? Get packageName;
  Ret (match find_baseline name (visit (pk_files pkg)) (zero KBaseline) with
       | Err e => Err e
       | Ok (Some md) => Ok md
       | Ok None => Err (not_found (GroupResource KBaseline) name)
       end).

(** [GetMiddlewareOperatorBaseline], internal/service/packages/packages.go *)
Definition GetMiddlewareOperatorBaseline (name packageName : string) : pprog (result error catalog_object) :=
  pkg ←? Get packageName;
  Ret (match list_find (λ '(_, v), (contains (kind_marker KOperatorBaseline) v && contains ("name: " +:+ name) v)%bool = true)
               (visit (pk_files pkg)) with
       | Some (_, (_, v)) => decode_catalog (zero KOperatorBaseline) v
       | None => Err (not_found (GroupResource KOperatorBaseline) name)
       end).

(** ** Looking a catalog object up *)

Definition package_labels (component version pkgName : string) : gmap string string :=
  <[LabelPackageName := pkgName]> (<[LabelPackageVersion := version]> {[LabelComponent := component]}).

(** The object named [name] of a package, with its labels, from the package. *)
Definition from_package (k : catalog_kind) (missing : string) (name pkgName : string) (found : option catalog_object) :
    pprog (result error catalog_object) :=
  match found with
  | None => Ret (Err (new_error (missing +:+ " " +:+ name +:+ " not found")))
  | Some o =>
      metadata ←? GetMetadata pkgName;
      let o := with_labels (package_labels (md_name metadata) (md_version metadata) pkgName) o in
      _ ← call (CatalogCacheSet k (pkgName +:+ "/" +:+ name) o); Ret (Ok o)
  end.

(** From the cluster if it is of that package, else from the cache, else from
    the package. *)
Definition lookup_catalog (k : catalog_kind) (missing : string) (name pkgName : string) : pprog (result error catalog_object) :=
  let key := pkgName +:+ "/" +:+ name in
  let elsewhere :=
    cached ← call (CatalogCacheGet k key);
    match cached with
    | Some o => Ret (Ok o)
    | None =>
        if decide (k = KConfiguration) then
          configurations ←? GetConfigurations pkgName; from_package k missing name pkgName (configurations !! name)
        else
          baselines ←? get_catalog k pkgName; from_package k missing name pkgName (snd <$> list_find (λ o, co_name o = name) baselines)
    end in
  r ← call (CatalogGet k name);
  match r with
  | Err e => if is_not_found e then elsewhere else Ret (Err e)
  | Ok o =>
      if String.eqb ((co_labels o).[LabelPackageName]) pkgName
      then _ ← call (CatalogCacheSet k key o); Ret (Ok o)
      else elsewhere
  end.

(** [Get], internal/service/middlewarebaseline/middlewarebaseline.go *)
Definition Get_baseline := lookup_catalog KBaseline "middlewarebaseline".
(** [Get], internal/service/middlewareoperatorbaseline/middlewareoperatorbaseline.go *)
Definition Get_operator_baseline := lookup_catalog KOperatorBaseline "configuration".
(** [Get], internal/service/middlewareactionbaseline/middlewareactionbaseline.go *)
Definition Get_action_baseline := lookup_catalog KActionBaseline "configuration".
(** [Get], internal/service/middlewareconfiguration/middlewareconfiguration.go *)
Definition Get_configuration := lookup_catalog KConfiguration "configuration".

(** ** The configurations of a Middleware or operator, rendered *)

(** [json.Unmarshal] into a map that has entries keeps those it does not set. *)
Definition unmarshal_values `{!JsonLib} (text : string) (values : gmap string json) : result error (gmap string json) :=
  match Unmarshal text with
  | Some (JObj new) => Ok (new ∪ values)
  | Some JNull => Ok ∅
  | _ => Err (new_error "cannot unmarshal the values")
  end.

(** The values as they are left for the next configuration. *)
(** [GetTemplateParsedMiddlewareConfigurations], internal/service/middlewareconfiguration/middlewareconfiguration.go:117-134 *)
Definition assign_values `{!JsonLib} (raw : string) (tv : template_values) : pprog (result error template_values) :=
  if String.eqb raw "" then Ret (Ok tv)
  else
    parsed ←? call (TemplateParse raw tv);
    pure (values ← unmarshal_values parsed (tv_values tv); Ok (with_values values tv)).

(** [GetTemplateParsedMiddlewareConfigurations], internal/service/middlewareconfiguration/middlewareconfiguration.go *)
Fixpoint GetTemplateParsedMiddlewareConfigurations `{!JsonLib} (cfgs : list (string * string)) (pkgName : string)
    (tv : template_values) : pprog (result error (list catalog_object)) :=
  match cfgs with
  | [] => Ret (Ok [])
  | (name, raw) :: cfgs =>
      r ← Get_configuration name pkgName;
      match r with
      | Err e => Ret (Err (wrap_error ("get configuration " +:+ name +:+ " error") e))
      | Ok mc =>
          tv ←? assign_values raw tv;
          r ← call (TemplateParse (match co_spec mc with MiddlewareConfigurationSpec t => t | _ => "" end) tv);
          match r with
          | Err e => Ret (Err (wrap_error ("failed to handle template: " +:+ name) e))
          | Ok template =>
              rest ←? GetTemplateParsedMiddlewareConfigurations cfgs pkgName tv;
              Ret (Ok (with_template template mc :: rest))
          end
      end
  end.
End Packages.

(** ** Proofs *)

(** A discipline that the whole of a trace keeps, its prefixes keep. *)
Lemma each_prefix {E} (P : list (event E) → event E → Prop) l tr : l `prefix_of` tr → each P tr → each P l.
Proof. intros [k ->] Hall a e b ->. apply (Hall a e (b ++ k)). by rewrite <- app_assoc. Qed.

(** What holds of an event that occurs, with the calls before it. *)
Lemma each_elem {E} (P : list (event E) → event E → Prop) tr e :
  each P tr → e ∈ tr → ∃ l, l `prefix_of` tr ∧ P l e.
Proof. intros Hall (l & l' & ->)%list_elem_of_split. exists l. split; [by eexists|by eapply Hall]. Qed.

Section PackageCache.
Context `{!RetryOnConflict pcall error is_conflict, !PackageFormat, !MapOrder}.
Context (apiReader : bool) (DataNamespace : string).
Notation Get := (Get apiReader DataNamespace).

Definition read_call (name : string) : pcall (result error secret) :=
  if apiReader then SecretReaderGet name DataNamespace else SecretGet name DataNamespace.

(** An entry of the cache is the package of the Secret read with that version. *)
Definition set_justified (l : list pevent) (e : pevent) : Prop :=
  match e with
  | Ev c _ => match c with
    | ParsedSet name rv p => ∃ s, Ev (read_call name) (Ok s) ∈ l ∧ s_resourceVersion s = rv ∧ parse s = Ok p
    | _ => True
    end
  end.

(** The cache answers what was set. *)
Definition parsed_honest (l : list pevent) (e : pevent) : Prop :=
  match e with
  | Ev c r => match c in pcall R return R → Prop with
    | ParsedGet name => λ r, match r with Some (rv, p) => Ev (ParsedSet name rv p) tt ∈ l | None => True end
    | _ => λ _, True
    end r
  end.

(** A resource version identifies the content. *)
Definition versions_identify (tr : list pevent) : Prop :=
  ∀ name s s', Ev (read_call name) (Ok s) ∈ tr → Ev (read_call name) (Ok s') ∈ tr →
    s_resourceVersion s = s_resourceVersion s' → s = s'.

(** Reading without the cache. *)
Definition uncached (answer : result error secret) : result error package :=
  match answer with Ok s => parse s | Err e => Err (wrap_error "get secret failed" e) end.

Lemma cached_is_parsed tr name s p :
  each set_justified tr → versions_identify tr → Ev (read_call name) (Ok s) ∈ tr →
  Ev (ParsedSet name (s_resourceVersion s) p) tt ∈ tr → parse s = Ok p.
Proof.
  intros Hset Hver Hread (l & Hl & s' & Hread' & Hrv & Hp)%(each_elem _ _ _ Hset).
  rewrite (Hver name s s'); [done|done| |done]. by apply (elem_of_prefix l).
Qed.

Lemma read_secret_spec name tr :
  spec set_justified (read_secret apiReader DataNamespace name) tr (λ tr' a, ∃ rest, tr' = tr ++ Ev (read_call name) a :: rest).
Proof.
  unfold read_secret, read_call, GetSecret. destruct apiReader.
  - apply spec_call; [done|]. intros r. by exists [].
  - eapply (spec_bind _ _ _ (λ tr' r, tr' = tr ++ [Ev (SecretGet name DataNamespace) r])); [by apply spec_call|].
    intros tr1 [s|e] _ ->; [|by apply spec_ret; exists []].
    eapply (spec_bind _ _ _ (λ tr' _, ∃ rest, tr' = tr ++ Ev (SecretGet name DataNamespace) (Ok s) :: rest)).
    { apply spec_call; [done|]. intros u. rewrite <- app_assoc. by eexists. }
    intros tr2 _ _ ?. by apply spec_ret.
Qed.

Lemma parse_and_set_spec name s tr (Q : list pevent → result error package → Prop) :
  Ev (read_call name) (Ok s) ∈ tr → (∀ rest, Q (tr ++ rest) (parse s)) →
  spec set_justified
    (match parse s with
     | Err e => Ret (Err e)
     | Ok pkg => _ ← call (ParsedSet name (s_resourceVersion s) pkg); Ret (Ok pkg)
     end) tr Q.
Proof.
  intros Hread HQ. destruct (parse s) as [pkg|e] eqn:Hp.
  - eapply (spec_bind _ _ _ (λ tr' _, Q tr' (Ok pkg))); [|intros; by apply spec_ret].
    apply spec_call; [|done]. intros u. by exists s.
  - apply spec_ret. rewrite <- (app_nil_r tr). apply HQ.
Qed.

(** The package of [Get] is the one of the Secret it read. *)
Definition reads_package (name : string) (tr tr' : list pevent) (r : result error package) : Prop :=
  each set_justified tr' → each parsed_honest tr' → versions_identify tr' →
  ∃ a rest, tr' = tr ++ Ev (read_call name) a :: rest ∧ r = uncached a.

Lemma Get_spec name tr : spec set_justified (Get name) tr (reads_package name tr).
Proof.
  unfold Packages.Get. eapply spec_bind; [apply read_secret_spec|]. intros tr1 a _ [rest1 ->].
  destruct a as [s|e]; [|by apply spec_ret; exists (Err e), rest1].
  set (tr1 := tr ++ Ev (read_call name) (Ok s) :: rest1).
  assert (Hread : Ev (read_call name) (Ok s) ∈ tr1) by (unfold tr1; apply elem_of_app; right; apply elem_of_cons; by left).
  assert (Hfresh : ∀ rest, reads_package name tr (tr1 ++ rest) (parse s)).
  { intros rest _ _ _. exists (Ok s), (rest1 ++ rest). split; [|done]. unfold tr1. by rewrite <- app_assoc. }
  clearbody tr1. eapply (spec_bind _ _ _ (λ tr' ce, tr' = tr1 ++ [Ev (ParsedGet name) ce])); [by apply spec_call|].
  intros tr2 ce _ ->.
  assert (Hread2 : Ev (read_call name) (Ok s) ∈ tr1 ++ [Ev (ParsedGet name) ce]) by (apply elem_of_app; by left).
  assert (Hrest : ∀ rest, reads_package name tr ((tr1 ++ [Ev (ParsedGet name) ce]) ++ rest) (parse s))
    by (intros rest; rewrite <- app_assoc; apply Hfresh).
  destruct ce as [[rv p]|]; [destruct (String.eqb_spec rv (s_resourceVersion s)) as [-> | ?]|]; [|by apply parse_and_set_spec..].
  apply spec_ret. intros Hset Hhonest Hver.
  rewrite <- (cached_is_parsed _ name s p Hset Hver Hread2); [by apply Hfresh|].
  apply each_snoc in Hhonest as [_ Hin]. apply elem_of_app. by left.
Qed.

(** C35: Reading a package through the cache gives what reading its Secret and
    parsing it gives, on errors too, after any earlier reads, as long as a
    resource version identifies the content of a Secret and the cache answers
    what was stored; and it stores only what later reads may rely on. *)
Theorem package_cache_transparent log name {W} (h : handler pcall W) w :
  each set_justified log →
  let '(r, tr) := run h (Get name) w in
  each parsed_honest (log ++ tr) → versions_identify (log ++ tr) →
  each set_justified (log ++ tr) ∧ ∃ a rest, tr = Ev (read_call name) a :: rest ∧ r = uncached a.
Proof.
  intros Hlog. pose proof (holds_run h (Get name) w log _ (Get_spec name log Hlog)) as Hrun.
  destruct (run h (Get name) w) as [r tr]. cbn [fst snd] in Hrun. destruct Hrun as (Hset & _ & HQ). intros Hhonest Hver.
  split; [done|]. destruct (HQ Hset Hhonest Hver) as (a & rest & Heq & ->). apply app_inv_head in Heq as ->. eauto.
Qed.
End PackageCache.

Fixpoint no_slash (s : string) : bool :=
  match s with EmptyString => true | String a s => negb (Ascii.eqb a slash) && no_slash s end.

Lemma slash_split p q a b : no_slash p = true → no_slash q = true →
  p +:+ "/" +:+ a = q +:+ "/" +:+ b → p = q ∧ a = b.
Proof.
  revert q. induction p as [|x p IH]; intros [|y q] Hp Hq Heq; cbn in Heq.
  - by injection Heq.
  - injection Heq as <- _. discriminate Hq.
  - injection Heq as -> _. discriminate Hp.
  - injection Heq as -> Heq. apply andb_true_iff in Hp as [_ Hp], Hq as [_ Hq].
    by destruct (IH q Hp Hq Heq) as [-> ->].
Qed.

Section Lookup.
Context `{!RetryOnConflict pcall error is_conflict, !PackageFormat, !MapOrder}.
Context (apiReader : bool) (DataNamespace : string).

(** The cluster answers the object asked for; the cache answers what was set. *)
Definition served (l : list pevent) (e : pevent) : Prop :=
  match e with
  | Ev c r => match c in pcall R return R → Prop with
    | CatalogGet k name => λ r, match r with Ok o => co_name o = name | Err _ => True end
    | CatalogCacheGet k key => λ r, match r with Some o => Ev (CatalogCacheSet k key o) tt ∈ l | None => True end
    | _ => λ _, True
    end r
  end.

(** An object is cached under its package and its name. *)
Definition cached_by_name (l : list pevent) (e : pevent) : Prop :=
  match e with
  | Ev c _ => match c with
    | CatalogCacheSet k key o => each served l →
        no_slash ((co_labels o).[LabelPackageName]) = true ∧ key = (co_labels o).[LabelPackageName] +:+ "/" +:+ co_name o
    | _ => True
    end
  end.

Definition catalog_plain (_ : list pevent) (e : pevent) : Prop :=
  match e with Ev c _ => match c with CatalogCacheSet _ _ _ => False | _ => True end end.

Lemma plain_cached l e : catalog_plain l e → cached_by_name l e.
Proof. destruct e as [R c r]. by destruct c. Qed.

Lemma only_plain_Get name : only catalog_plain (Get apiReader DataNamespace name).
Proof.
  unfold Get, read_secret, GetSecret. apply only_bind.
  { destruct apiReader; [by apply only_call|]. apply only_bind; [by apply only_call|].
    intros [s|e]; [|apply only_ret]. apply only_bind; [by apply only_call|intros; apply only_ret]. }
  intros [s|e]; [|apply only_ret]. apply only_bind; [by apply only_call|]. intros ce.
  assert (Hfresh : only catalog_plain (match parse s with
     | Err e => Ret (Err e)
     | Ok pkg => _ ← call (ParsedSet name (s_resourceVersion s) pkg); Ret (Ok pkg) end)).
  { destruct (parse s); [|apply only_ret]. apply only_bind; [by apply only_call|intros; apply only_ret]. }
  destruct ce as [[rv p]|]; [|done]. destruct (String.eqb _ _); [apply only_ret|done].
Qed.

Lemma only_try {E Er A B} K (p : prog E (result Er A)) (f : A → prog E (result Er B)) :
  only K p → (∀ a, only K (f a)) → only K (try p f).
Proof. intros Hp Hf. apply only_bind; [done|]. intros [a|e]; [apply Hf|apply only_ret]. Qed.

Lemma only_plain_catalog k pkgName : only catalog_plain (get_catalog apiReader DataNamespace k pkgName).
Proof. apply only_try; [apply only_plain_Get|]. intros. apply only_ret. Qed.

(** The object asked for. *)
Definition is_asked (name pkgName : string) (tr' : list pevent) (r : result error catalog_object) : Prop :=
  each cached_by_name tr' → each served tr' →
  match r with Ok o => (co_labels o).[LabelPackageName] = pkgName ∧ co_name o = name | Err _ => True end.

Lemma from_package_spec k missing name pkgName found tr :
  no_slash pkgName = true → (∀ o, found = Some o → co_name o = name) →
  spec cached_by_name (from_package apiReader DataNamespace k missing name pkgName found) tr (is_asked name pkgName).
Proof.
  intros Hslash Hname. destruct found as [o|]; [|by apply spec_ret].
  assert (Hlabel : ∀ md, (co_labels (with_labels (package_labels (md_name md) (md_version md) pkgName) o)).[LabelPackageName] = pkgName).
  { intros md. unfold str_at, package_labels. simpl. by rewrite lookup_insert_eq. }
  unfold from_package. eapply (spec_bind _ _ _ (λ _ _, True)).
  { apply (only_spec catalog_plain); [|intros; by apply plain_cached].
    apply only_try; [apply only_plain_Get|]. intros. apply only_ret. }
  intros tr1 [md|e] _ _; [|by apply spec_ret].
  eapply (spec_bind _ _ _ (λ _ _, True)).
  - apply spec_call; [|done]. intros _ _. rewrite Hlabel. split; [done|]. simpl. by rewrite (Hname o).
  - intros tr2 _ _ _. apply spec_ret. intros _ _. split; [apply Hlabel|]. simpl. by apply Hname.
Qed.

Lemma by_name_lookup os (m : gmap string catalog_object) name o :
  (∀ n o', m !! n = Some o' → co_name o' = n) →
  foldl (λ m o, <[co_name o := o]> m) m os !! name = Some o → co_name o = name.
Proof.
  revert m. induction os as [|o' os IH]; intros m Hm; simpl; [apply Hm|]. apply IH.
  intros n o''. destruct (decide (n = co_name o')) as [-> | Hn]; [rewrite lookup_insert_eq|rewrite lookup_insert_ne by done]; naive_solver.
Qed.

Lemma lookup_spec k missing name pkgName tr : no_slash pkgName = true →
  spec cached_by_name (lookup_catalog apiReader DataNamespace k missing name pkgName) tr (is_asked name pkgName).
Proof.
  intros Hslash. unfold lookup_catalog.
  eapply (spec_bind _ _ _ (λ tr' r, tr' = tr ++ [Ev (CatalogGet k name) r])); [by apply spec_call|].
  intros tr1 r _ ->. set (tr1 := tr ++ [Ev (CatalogGet k name) r]).
  match goal with |- context [if is_not_found _ then ?p else _] => assert (Helse : spec cached_by_name p tr1 (is_asked name pkgName)) end.
  { eapply (spec_bind _ _ _ (λ tr' c, tr' = tr1 ++ [Ev (CatalogCacheGet k (pkgName +:+ "/" +:+ name)) c])); [by apply spec_call|].
    intros tr2 [o|] _ ->.
    - apply spec_ret. intros Hok Hserved. apply each_snoc in Hserved as [Hserved1 Hin].
      apply each_snoc in Hok as [Hok _].
      destruct (each_elem _ _ _ Hok Hin) as (l & Hl & Hset). destruct (Hset (each_prefix _ _ _ Hl Hserved1)) as [Hq Hkey].
      by apply slash_split in Hkey as [-> ->].
    - case_decide.
      + eapply (spec_bind _ _ _ (λ _ r, match r with Ok m => ∀ n o, m !! n = Some o → co_name o = n | Err _ => True end)).
        { eapply (spec_bind _ _ _ (λ _ _, True)).
          - apply (only_spec catalog_plain); [apply only_plain_catalog|]. intros; by apply plain_cached.
          - intros tr3 [os|e] _ _; apply spec_ret; [|done]. intros n o. by apply by_name_lookup. }
        intros tr3 [m|e] _ Hm; [|by apply spec_ret]. apply from_package_spec; [done|]. intros o. apply Hm.
      + eapply (spec_bind _ _ _ (λ _ _, True)).
        { apply (only_spec catalog_plain); [apply only_plain_catalog|]. intros; by apply plain_cached. }
        intros tr3 [os|e] _ _; [|by apply spec_ret]. apply from_package_spec; [done|].
        intros o ([i o'] & Hfind & ->)%fmap_Some. by apply list_find_Some in Hfind as (_ & ? & _). }
  destruct r as [o|e]; [|destruct (is_not_found e); [done|by apply spec_ret]].
  destruct (String.eqb_spec ((co_labels o).[LabelPackageName]) pkgName) as [Hp|]; [|done].
  assert (Hnamed : each served tr1 → co_name o = name).
  { intros [_ Hs]%each_snoc. exact Hs. }
  eapply (spec_bind _ _ _ (λ tr' _, tr1 `prefix_of` tr')).
  - apply spec_call; [|intros; by apply prefix_app_r]. intros _ Hs. by rewrite Hp, Hnamed.
  - intros tr2 _ _ Hpre. apply spec_ret. intros _ Hs. split; [done|]. apply Hnamed. by eapply each_prefix.
Qed.

(** Asked for a baseline, action or configuration of a package, the
    operator uses an object of that name that carries that package's label,
    never one that another package installed under the same name: from the
    cluster, the cache or the package itself.  Names of packages contain no
    slash, so the cache key names both. *)
Theorem catalog_object_of_package k missing log name pkgName {W} (h : handler pcall W) w :
  no_slash pkgName = true → each cached_by_name log →
  let '(r, tr) := run h (lookup_catalog apiReader DataNamespace k missing name pkgName) w in
  each cached_by_name (log ++ tr) ∧ is_asked name pkgName (log ++ tr) r.
Proof.
  intros Hslash Hlog. pose proof (holds_run h _ w log _ (lookup_spec k missing name pkgName log Hslash Hlog)) as Hrun.
  destruct (run h _ w) as [r tr]. cbn [fst snd] in Hrun. naive_solver.
Qed.
End Lookup.

(** ** Runs at concrete inputs *)

Section Demo.
(** A format: the archive is a fixed list of files, a document a list of lines
    [name: ...] and [spec: ...]. *)
Definition field (name text : string) : option string :=
  (λ p : nat * string, drop_string (String.length name + 2) p.2) <$>
    list_find (λ l, HasPrefix l (name +:+ ": ") = true) (split_on newline text).

Definition demo_spec (parameters : string) : catalog_spec :=
  MiddlewareBaselineSpec (BaselineSpec (OperatorBaseline "" "") (GVK "" "" "") "" [] parameters []).

Definition set_rest (v : string) (sp : catalog_spec) : catalog_spec :=
  match sp with
  | MiddlewareBaselineSpec _ => demo_spec v
  | MiddlewareOperatorBaselineSpec g _ => MiddlewareOperatorBaselineSpec g (JStr v)
  | MiddlewareActionBaselineSpec t s _ => MiddlewareActionBaselineSpec t s (JStr v)
  | MiddlewareConfigurationSpec _ => MiddlewareConfigurationSpec v
  end.

Definition demo_decode (o : catalog_object) (s : string) : result error catalog_object :=
  Ok (CatalogObject (default (co_name o) (field "name" s)) (co_generation o) (co_labels o) (co_annotations o) (co_controller o)
        (match field "spec" s with Some v => set_rest v (co_spec o) | None => co_spec o end) (co_status o)).

Definition demo_zero (k : catalog_kind) : catalog_object :=
  CatalogObject "" 0 ∅ ∅ None
    (match k with
     | KBaseline => demo_spec ""
     | KOperatorBaseline => MiddlewareOperatorBaselineSpec [] JNull
     | KActionBaseline => MiddlewareActionBaselineSpec "" [] JNull
     | KConfiguration => MiddlewareConfigurationSpec ""
     end) (CatalogStatus 0 [] "").

Lemma demo_decode_kind o s o' : demo_decode o s = Ok o' → kind_of o' = kind_of o.
Proof. unfold demo_decode. intros [= <-]. unfold kind_of. simpl. by destruct (field "spec" s), (co_spec o). Qed.

Lemma demo_zero_kind k : kind_of (demo_zero k) = k.
Proof. by destruct k. Qed.

Definition demo_format (files : list (string * string)) : PackageFormat :=
  {| DeCompress := Ok;
     tar_entries _ := (λ f : string * string, Ok (TarEntry true ("pkg/" +:+ f.1) (Ok f.2))) <$> files;
     decode_metadata _ := Ok (Metadata "redis" "1.0" ([], []) "" "" "");
     decode_catalog := demo_decode; zero := demo_zero;
     decode_kind := demo_decode_kind; zero_kind := demo_zero_kind |}.

Definition lines (l : list string) : string := join (String newline EmptyString) l.
Definition demo_files : list (string * string) :=
  [("baselines/a.yaml", lines ["kind: MiddlewareBaseline"; "name: redis"; "spec: cluster"]);
   ("baselines/b.yaml", lines ["kind: MiddlewareOperatorBaseline"; "name: redis-operator-v2"])].
Definition demo_secret : secret :=
  Secret "redis-1" "default" "41" None {[LabelProject := ProjectOpenSaola; LabelComponent := "redis"]} ∅ [] {[Release := "data"]}.
Definition demo_package (files : list (string * string)) : package :=
  Package "redis-1" (list_to_map files) "redis" (Metadata "redis" "1.0" ([], []) "" "" "") false.

(** A cluster with that Secret and one catalog object or none, and its caches. *)
Definition demo_cluster (parsed : option (string * package)) (live cached : option catalog_object) : handler pcall unit := λ R c w,
  (match c in pcall R return R with
   | SecretGet _ _ | SecretReaderGet _ _ => Ok demo_secret
   | SecretList _ _ _ => Ok [demo_secret]
   | ParsedGet _ => parsed
   | CatalogGet _ _ | CatalogReaderGet _ _ => match live with Some o => Ok o | None => Err (Error NotFound "") end
   | CatalogCacheGet _ _ => cached
   | PackageGet _ | PackageReaderGet _ => Err (Error NotFound "")
   | PackageList _ _ => Ok []
   | MiddlewareList _ | OperatorList _ => Ok []
   | TemplateParse t _ => Ok t
   | CatalogCreate _ | CatalogUpdate _ | CatalogDelete _ | CatalogStatusUpdate _ | SecretCreate _ | SecretDelete _
   | SecretPatch _ _ | PackageCreate _ | PackageUpdate _ | PackageDelete _ | PackageStatusUpdate _ => None
   | CatalogCacheSet _ _ _ | SecretCacheSet _ _ | ParsedSet _ _ _ | PackageCacheSet _ _ => tt
   end, w).

Definition demo_get (parsed : option (string * package)) : result error package * list pevent :=
  run (demo_cluster parsed None None)
    (@Get (demo_format demo_files) true "default" "redis-1") tt.

Definition read_answer (e : pevent) : option secret :=
  match e with
  | Ev c r => match c in pcall R return R → option secret with
    | SecretReaderGet _ _ => λ r, match r with Ok s => Some s | Err _ => None end
    | _ => λ _, None
    end r
  end.

(** The first read stores the package, the second finds it. *)
Definition demo_log : list pevent := (demo_get None).2.
Definition demo_second : list pevent := (demo_get (Some ("41", demo_package demo_files))).2.

Definition demo_read : pevent := Ev (SecretReaderGet "redis-1" "default") (Ok demo_secret).
Lemma demo_log_eq : demo_log =
  [demo_read; Ev (ParsedGet "redis-1") None; Ev (ParsedSet "redis-1" "41" (demo_package demo_files)) tt].
Proof. reflexivity. Qed.
Lemma demo_second_eq : demo_second = [demo_read; Ev (ParsedGet "redis-1") (Some ("41", demo_package demo_files))].
Proof. reflexivity. Qed.

Lemma each_all {E} (P : list (event E) → event E → Prop) tr : Forall (λ e, ∀ l, P l e) tr → each P tr.
Proof. rewrite list.Forall_forall. intros Hall l e l' ->. apply Hall, elem_of_app. right. apply elem_of_cons. by left. Qed.

(** Every read of the traces is of the same Secret. *)
Lemma demo_versions tr : Forall (λ e, ∀ s, read_answer e = Some s → s = demo_secret) tr → versions_identify true "default" tr.
Proof.
  rewrite list.Forall_forall. intros Hall name s s' Hs Hs' _.
  by rewrite (Hall _ Hs s eq_refl), (Hall _ Hs' s' eq_refl).
Qed.

Lemma package_cache_transparent_witness :
  each (@set_justified (demo_format demo_files) true "default") (demo_log ++ demo_second) ∧
  (demo_get (Some ("41", demo_package demo_files))).1 = @parse (demo_format demo_files) demo_secret.
Proof.
  pose proof (λ log parsed, @package_cache_transparent (demo_format demo_files) true "default" log "redis-1" unit
    (demo_cluster parsed None None) tt) as Hthm.
  pose proof (Hthm [] None (each_nil _)) as Hfirst.
  change (run _ _ _) with (demo_get None) in Hfirst. rewrite (surjective_pairing (demo_get None)) in Hfirst.
  change ([] ++ (demo_get None).2) with demo_log in Hfirst.
  destruct Hfirst as [Hlog _].
  { rewrite demo_log_eq. apply each_all. repeat constructor. }
  { apply demo_versions. rewrite demo_log_eq. repeat constructor; simpl; congruence. }
  pose proof (Hthm demo_log (Some ("41", demo_package demo_files)) Hlog) as Hsecond.
  change (run _ _ _) with (demo_get (Some ("41", demo_package demo_files))) in Hsecond.
  rewrite (surjective_pairing (demo_get _)) in Hsecond.
  change ((demo_get (Some ("41", demo_package demo_files))).2) with demo_second in Hsecond.
  destruct Hsecond as (Hset & _).
  { rewrite demo_log_eq, demo_second_eq. apply (each_snoc _ [_; _; _; _]). split; [apply each_all; repeat constructor|].
    simpl. apply elem_of_cons. right. apply elem_of_cons. right. apply elem_of_cons. by left. }
  { apply demo_versions. rewrite demo_log_eq, demo_second_eq. repeat constructor; simpl; congruence. }
  split; [exact Hset|reflexivity].
Defined.

(** The cluster's object is of another package; the one in the package is
    returned, with the package's labels. *)
Definition demo_other : catalog_object :=
  CatalogObject "redis" 3 {[LabelPackageName := "valkey-1"]} ∅ None (demo_spec "other") (CatalogStatus 3 [] StateAvailable).

Lemma catalog_object_of_package_witness :
  let r := run (demo_cluster None (Some demo_other) None)
    (@lookup_catalog (demo_format demo_files) list_order true "default" KBaseline "middlewarebaseline" "redis" "redis-1") tt in
  (match r.1 with Ok o => Some (co_name o, co_spec o) | Err _ => None end) = Some ("redis", demo_spec "cluster") ∧
  is_asked "redis" "redis-1" r.2 r.1.
Proof.
  cbv zeta. split; [reflexivity|].
  pose proof (@catalog_object_of_package (demo_format demo_files) list_order true "default" KBaseline "middlewarebaseline" []
    "redis" "redis-1" unit (demo_cluster None (Some demo_other) None) tt eq_refl (each_nil _)) as Hthm.
  destruct (run _ _ _) as [r tr]. exact (proj2 Hthm).
Defined.

(** A baseline that says nothing of a field gets what an earlier file says. *)
Lemma baseline_mixes_documents :
  let files := [("a", lines ["kind: MiddlewareBaseline"; "name: redis"; "spec: cluster"]);
                ("b", lines ["kind: MiddlewareBaseline"; "name: sentinel"])] in
  (match @find_baseline (demo_format files) "sentinel" files (demo_zero KBaseline) with
   | Ok (Some o) => Some (co_spec o)
   | _ => None
   end) = Some (demo_spec "cluster").
Proof. reflexivity. Qed.

(** Asked for [redis-operator], the package's [redis-operator-v2] is returned. *)
Lemma operator_baseline_of_another_name :
  (match (run (demo_cluster None None None)
     (@GetMiddlewareOperatorBaseline (demo_format demo_files) list_order true "default" "redis-operator" "redis-1") tt).1 with
   | Ok o => Some (co_name o)
   | Err _ => None
   end) = Some "redis-operator-v2".
Proof. reflexivity. Qed.

(** A configuration without values is rendered with those of the one before
    it, and one with values sees those it does not set itself. *)
Lemma configuration_values_leak `{!JsonLib} tv text new key value :
  assign_values "" tv = Ret (Ok tv) ∧
  (Unmarshal text = Some (JObj new) → new !! key = None → tv_values tv !! key = Some value →
   ∃ values, unmarshal_values text (tv_values tv) = Ok values ∧ values !! key = Some value).
Proof.
  split; [done|]. intros Hum Hnew Hold. exists (new ∪ tv_values tv). unfold unmarshal_values. rewrite Hum.
  split; [done|]. by rewrite lookup_union_r.
Qed.
End Demo.
