(* ===== verification/PackageInstall.v ===== *)
(** * Installing and removing packages

    [internal/service/middlewarepackage] and the controller that calls it,
    [internal/controller/middlewarepackage_controller.go].  A package Secret
    asks for its installation or removal by an annotation, and for its removal
    by being deleted: a finalizer keeps it until nobody uses the package and
    its catalog objects are gone. *)
From Stdlib Require Import ZArith Lia Ascii.
From stdpp Require Import base gmap strings list option.
From S2P Require Import Prelude GoStrings Labels Conditions Prog Json Middleware MiddlewareController Catalog Packages.

(** How a call ends; a Go panic is recovered by the controller's worker. *)
Inductive outcome := Returns (err : option error) | Panics.

Section Install.
Context `{!RetryOnConflict pcall error is_conflict, !PackageFormat, !MapOrder, !ControllerUtil, !MetaConditions}.
Context (statusAPIReader apiReader : bool) (DataNamespace : string) (now : Z).
(** Why [ctrl.SetControllerReference], which does not return errors of the API,
    refuses a package as owner of a new object, and the SHA-256 digest in hexadecimal. *)
Context (ControllerReference : middleware_package → catalog_object → option string).
Context (sha256_hex : string → string).
Implicit Types (s : secret) (o : catalog_object).
Notation Get := (Get apiReader DataNamespace).

(** ** Small functions *)

(** [packageReleaseDigest], internal/service/middlewarepackage/middlewarepackage.go *)
Definition packageReleaseDigest s : string :=
  let b := default "" (s_data s !! Release) in if String.eqb b "" then "" else sha256_hex b.

(** [truncateBytes], internal/service/middlewarepackage/middlewarepackage.go *)
Definition truncateBytes (s : string) (max : nat) : string :=
  if (max =? 0) || (String.length s <=? max) then s else String.substring 0 max s.

(** [isTerminalInstallError], internal/service/middlewarepackage/middlewarepackage.go *)
Definition isTerminalInstallError (err : error) : bool :=
  bool_decide (e_kind err = Invalid) || bool_decide (e_kind err = BadRequest) ||
  contains "error converting YAML to JSON" (e_msg err) || contains "yaml:" (e_msg err) || contains "invalid map key" (e_msg err).

(** [normalizedPackageLabels], internal/service/middlewarepackage/middlewarepackage.go *)
Definition normalizedPackageLabels (source : gmap string string) : gmap string string :=
  <[LabelProject := ProjectOpenSaola]> source.

Definition with_secret_labels (l : gmap string string) s : secret := with_secret_meta l (s_annotations s) s.
Definition with_secret_annotations (a : gmap string string) s : secret := with_secret_meta (s_labels s) a s.
Definition with_secret_finalizers (fs : list string) s : secret :=
  Secret (s_name s) (s_namespace s) (s_resourceVersion s) (s_deletionTimestamp s) (s_labels s) (s_annotations s) fs (s_data s).
Definition enable (value : string) s : secret :=
  with_secret_labels (<[LabelProject := ProjectOpenSaola]> (<[LabelEnabled := value]> (s_labels s))) s.
Definition forget (keys : list string) s : secret :=
  with_secret_annotations (foldr delete (s_annotations s) keys) s.

(** ** Who uses a package *)

Definition usage_of (kind : string) (item : listed) : package_usage :=
  PackageUsage kind (li_namespace item) (li_name item) (li_baseline item) (li_state item).
Definition usage_key (u : package_usage) : string := pu_kind u +:+ "/" +:+ pu_namespace u +:+ "/" +:+ pu_name u.

(** [findPackageUsages], internal/service/middlewarepackage/middlewarepackage.go *)
Definition findPackageUsages (packageName : string) : pprog (result error (list package_usage)) :=
  middlewares ← call (MiddlewareList packageName);
  match middlewares with
  | Err e => Ret (Err (wrap_error ("list Middleware by package " +:+ quoted packageName) e))
  | Ok middlewares =>
      operators ← call (OperatorList packageName);
      match operators with
      | Err e => Ret (Err (wrap_error ("list MiddlewareOperator by package " +:+ quoted packageName) e))
      | Ok operators =>
          Ret (Ok (sort_by usage_key ((usage_of "middleware" <$> middlewares) ++ (usage_of "middlewareoperator" <$> operators))))
      end
  end.

(** [formatPackageUsageMessage], internal/service/middlewarepackage/middlewarepackage.go:142-153 *)
Definition format_usage (u : package_usage) : string :=
  " " +:+ pu_kind u +:+ " " +:+ pu_namespace u +:+ "/" +:+ pu_name u +:+
  (if negb (String.eqb (pu_baseline u) "") then
     "(baseline=" +:+ pu_baseline u +:+ (if negb (String.eqb (pu_state u) "") then ",state=" +:+ pu_state u else "") +:+ ")"
   else if negb (String.eqb (pu_state u) "") then "(state=" +:+ pu_state u +:+ ")" else "").

(** [formatPackageUsageMessage], internal/service/middlewarepackage/middlewarepackage.go *)
Definition formatPackageUsageMessage (packageName : string) (usages : list package_usage) : string :=
  match usages with
  | [] => ""
  | _ => "package " +:+ quoted packageName +:+
         " is still used; uninstall deployed Middleware or MiddlewareOperator resources first:" +:+
         foldr (λ u acc, format_usage u +:+ acc) "" usages
  end.

(** ** The catalog objects of a package *)

Definition deploy_catalog (component version pkgname : string) (dryrun : bool) o (owner : middleware_package) : pprog (option error) :=
  let o := with_labels (package_labels component version pkgname) o in
  match ControllerReference owner o with
  | Some msg => Ret (Some (new_error msg))
  | None => if dryrun then Ret None else create_catalog (with_controller (mp_uid owner) o)
  end.
(** [Deploy], internal/service/middlewarebaseline/middlewarebaseline.go *)
Definition Deploy_baseline := deploy_catalog.
(** [Deploy], internal/service/middlewareoperatorbaseline/middlewareoperatorbaseline.go *)
Definition Deploy_operator_baseline := deploy_catalog.
(** Its creation time is set, too. *)
(** [Deploy], internal/service/middlewareactionbaseline/middlewareactionbaseline.go *)
Definition Deploy_action_baseline := deploy_catalog.
(** [Deploy], internal/service/middlewareconfiguration/deploy.go *)
Definition Deploy_configuration := deploy_catalog.

Definition is_already_exists (e : error) : bool := bool_decide (e_kind e = AlreadyExists).

(** The objects deployed or found, up to the first error. *)
Fixpoint deploy_all (deploy : catalog_object → pprog (option error)) (os : list catalog_object) :
    pprog (list catalog_object * option error) :=
  match os with
  | [] => Ret ([], None)
  | o :: os =>
      err ← deploy o;
      let rest := '(deployed, err) ← deploy_all deploy os; Ret (o :: deployed, err) in
      match err with
      | Some e => if is_already_exists e then rest else Ret ([], Some e)
      | None => rest
      end
  end.

(** A rollback ignores errors. *)
Fixpoint rollback (os : list catalog_object) : pprog unit :=
  match os with [] => Ret tt | o :: os => _ ← call (CatalogDelete o); rollback os end.

(** The lists of what was deployed stay empty for the first three kinds; the
    deferred rollbacks of the earlier kinds run in reverse order. *)
(** [HandleResource], internal/service/middlewarepackage/middlewarepackage.go:523-639 *)
Definition publish (baselines operatorBaselines actionBaselines configurations : list catalog_object)
    (pkg : package) (mp : middleware_package) : pprog (option error) :=
  let md := pk_metadata pkg in
  let deploy := λ o, deploy_catalog (md_name md) (md_version md) (pk_name pkg) false o mp in
  '(_, err) ← deploy_all deploy baselines;
  match err with
  | Some e => Ret (Some e)
  | None =>
      '(_, err) ← deploy_all deploy operatorBaselines;
      match err with
      | Some e => _ ← rollback baselines; Ret (Some e)
      | None =>
          '(_, err) ← deploy_all deploy actionBaselines;
          match err with
          | Some e => _ ← rollback operatorBaselines; _ ← rollback baselines; Ret (Some e)
          | None =>
              '(deployed, err) ← deploy_all deploy configurations;
              match err with
              | Some e =>
                  _ ← rollback deployed; _ ← rollback actionBaselines; _ ← rollback operatorBaselines;
                  _ ← rollback baselines; Ret (Some e)
              | None => Ret None
              end
          end
      end
  end.

(** [deletePackageResource], internal/service/middlewarepackage/middlewarepackage.go *)
Definition deletePackageResource o : pprog (option error) :=
  err ← call (CatalogDelete o);
  Ret (match err with Some e => if is_not_found e then None else Some e | None => None end).

(** Every object is tried; the first error is returned. *)
(** [HandleResource], internal/service/middlewarepackage/middlewarepackage.go:642-684 *)
Fixpoint delete_all (os : list catalog_object) : pprog (option error) :=
  match os with
  | [] => Ret None
  | o :: os => err ← deletePackageResource o; err' ← delete_all os; Ret (match err with Some e => Some e | None => err' end)
  end.

(** [HandleResource], internal/service/middlewarepackage/middlewarepackage.go:481-520 *)
Definition package_contents (secretName : string) :
    pprog (result error (middleware_package * package * list catalog_object * list catalog_object * list catalog_object * list catalog_object)) :=
  mp ←? GetMiddlewarePackage secretName;
  pkg ←? Get secretName;
  baselines ←? GetMiddlewareBaselines apiReader DataNamespace (pk_name pkg);
  operatorBaselines ←? GetMiddlewareOperatorBaselines apiReader DataNamespace (pk_name pkg);
  actionBaselines ←? GetMiddlewareActionBaselines apiReader DataNamespace (pk_name pkg);
  configurations ←? GetConfigurations apiReader DataNamespace (pk_name pkg);
  Ret (Ok (mp, pkg, baselines, operatorBaselines, actionBaselines, snd <$> visit configurations)).

(** [HandleResource], internal/service/middlewarepackage/middlewarepackage.go *)
Definition HandleResource (act : action) (secretName : string) : pprog (option error) :=
  r ← package_contents secretName;
  match r with
  | Err e => Ret (Some e)
  | Ok (mp, pkg, baselines, operatorBaselines, actionBaselines, configurations) =>
      match act with
      | HandleActionPublish => publish baselines operatorBaselines actionBaselines configurations pkg mp
      | HandleActionDelete => delete_all (baselines ++ operatorBaselines ++ actionBaselines ++ configurations)
      | HandleActionUpdate => Ret None
      end
  end.

(** ** The Secret of a package *)

(** [finalizePackageSecret], internal/service/middlewarepackage/middlewarepackage.go:188-200 *)
Definition finalized s : secret :=
  with_secret_finalizers (RemoveFinalizer (s_finalizers s) FinalizerPackageSecret)
    (forget [LabelUnInstall; AnnotationInstallDigest; AnnotationInstallError; AnnotationUninstallError] (enable "false" s)).

(** [finalizePackageSecret], internal/service/middlewarepackage/middlewarepackage.go *)
Definition finalizePackageSecret s (mp : option middleware_package) : pprog (option error) :=
  if negb (ContainsFinalizer (s_finalizers s) FinalizerPackageSecret) then Ret None
  else
    usages ← findPackageUsages (s_name s);
    match usages with
    | Err e => Ret (Some e)
    | Ok (_ :: _ as usages) =>
        let message := truncateBytes (formatPackageUsageMessage (s_name s) usages) 1024 in
        err ← UpdateSecret (with_secret_annotations (<[AnnotationUninstallError := message]> (s_annotations s)) s);
        Ret (Some (match err with Some e => e | None => new_error message end))
    | Ok [] =>
        err ← HandleResource HandleActionDelete (s_name s);
        match err with
        | Some e => Ret (Some e)
        | None =>
            err ← (match mp with
                   | Some mp => e ← call (PackageDelete mp);
                                Ret (match e with Some e => if is_not_found e then None else Some e | None => None end)
                   | None => Ret None
                   end);
            match err with Some e => Ret (Some e) | None => call (SecretPatch s (finalized s)) end
        end
    end.

(** The second part of the paths under a directory: indexing panics where there
    is none. *)
(** [HandleSecret], internal/service/middlewarepackage/middlewarepackage.go:261-274 *)
Definition catalog_names (prefix : string) (files : list string) : option (list string) :=
  mapM (λ k, split_on slash k !! 1) (filter (λ k, HasPrefix k prefix = true) files).

(** [HandleSecret], internal/service/middlewarepackage/middlewarepackage.go:254-298 *)
Definition package_object s (pkg : package) : option middleware_package :=
  let files := fst <$> visit (pk_files pkg) in
  let md := pk_metadata pkg in
  crds ← catalog_names "crds" files;
  configurations ← catalog_names "configurations" files;
  actions ← catalog_names "actions" files;
  baselines ← catalog_names "baselines" files;
  Some (MiddlewarePackage (s_name s) "" 0 (normalizedPackageLabels (s_labels s)) ∅
    (MiddlewarePackageSpec (md_name md) (md_version md) (md_owner md) (md_type md) (md_description md)
       crds baselines configurations actions) (CatalogStatus 0 [] "")).

(** Created, or updated where it exists. *)
(** [HandleSecret], internal/service/middlewarepackage/middlewarepackage.go:300-309 *)
Definition register_package (mp : middleware_package) : pprog (option error) :=
  err ← CreateMiddlewarePackage mp;
  match err with
  | Some e => if is_already_exists e then UpdateMiddlewarePackage mp else Ret (Some e)
  | None => Ret None
  end.

(** The other enabled packages of the component; errors are logged. *)
(** [HandleSecret], internal/service/middlewarepackage/middlewarepackage.go:329-341 *)
Fixpoint disable_enabled (items : list secret) : pprog unit :=
  match items with
  | [] => Ret tt
  | item :: items =>
      err ← HandleResource HandleActionDelete (s_name item);
      _ ← (match err with
           | Some _ => Ret None
           | None => UpdateSecret (with_secret_labels
               (<[LabelProject := ProjectOpenSaola]> (delete LabelEnabled (s_labels item))) item)
           end);
      disable_enabled items
  end.

(** [HandleSecret], internal/service/middlewarepackage/middlewarepackage.go:311-375 *)
Definition install s : pprog (option error) :=
  let digest := packageReleaseDigest s in
  if negb (String.eqb digest "") && String.eqb ((s_annotations s).[AnnotationInstallDigest]) digest &&
     negb (String.eqb ((s_annotations s).[AnnotationInstallError]) "") then Ret None
  else
    enabled ← GetSecrets DataNamespace CompatibleProjects
                (<[LabelEnabled := "true"]> {[LabelComponent := (s_labels s).[LabelComponent]]});
    match enabled with
    | Err e => Ret (Some e)
    | Ok items =>
        _ ← disable_enabled items;
        err ← HandleResource HandleActionPublish (s_name s);
        match err with
        | Some e =>
            if isTerminalInstallError e then
              updateErr ← UpdateSecret (with_secret_annotations
                (<[AnnotationInstallError := truncateBytes (e_msg e) 1024]> (<[AnnotationInstallDigest := digest]> (s_annotations s))) s);
              Ret (match updateErr with Some _ => Some e | None => None end)
            else Ret (Some e)
        | None => UpdateSecret (forget [LabelInstall; AnnotationInstallDigest; AnnotationInstallError] (enable "true" s))
        end
    end.

(** [HandleSecret], internal/service/middlewarepackage/middlewarepackage.go:376-416 *)
Definition uninstall s : pprog (option error) :=
  usages ← findPackageUsages (s_name s);
  match usages with
  | Err e => Ret (Some e)
  | Ok (_ :: _ as usages) =>
      UpdateSecret (with_secret_labels (<[LabelProject := ProjectOpenSaola]> (s_labels s))
        (forget [LabelUnInstall] (with_secret_annotations
          (<[AnnotationUninstallError := truncateBytes (formatPackageUsageMessage (s_name s) usages) 1024]> (s_annotations s)) s)))
  | Ok [] =>
      err ← HandleResource HandleActionDelete (s_name s);
      match err with
      | Some e => Ret (Some e)
      | None => UpdateSecret (forget [LabelUnInstall; AnnotationInstallDigest; AnnotationInstallError; AnnotationUninstallError]
                  (enable "false" s))
      end
  end.

(** [HandleSecret], internal/service/middlewarepackage/middlewarepackage.go:233-416 *)
Definition handle_present s (mp : option middleware_package) : pprog outcome :=
  if bool_decide (is_Some (s_deletionTimestamp s)) then e ← finalizePackageSecret s mp; Ret (Returns e)
  else
    let hasInstall := bool_decide (is_Some (s_annotations s !! LabelInstall)) in
    let hasUnInstall := bool_decide (is_Some (s_annotations s !! LabelUnInstall)) in
    if bool_decide (is_Some mp) && negb hasInstall && negb hasUnInstall then Ret (Returns None)
    else
      pkg ← Get (s_name s);
      match pkg with
      | Err e => Ret (Returns (Some e))
      | Ok pkg =>
          match package_object s pkg with
          | None => Ret Panics
          | Some mp =>
              err ← register_package mp;
              match err with
              | Some e => Ret (Returns (Some e))
              | None =>
                  e ← (if hasInstall then install s else if hasUnInstall then uninstall s else Ret None); Ret (Returns e)
              end
          end
      end.

(** [HandleSecret], internal/service/middlewarepackage/middlewarepackage.go *)
Definition HandleSecret s (act : action) : pprog outcome :=
  r ← GetMiddlewarePackage (s_name s);
  match r with
  | Err e => if is_not_found e then
               match act with HandleActionDelete => Ret (Returns None) | _ => handle_present s None end
             else Ret (Returns (Some e))
  | Ok mp =>
      match act with
      | HandleActionDelete => e ← call (PackageDelete mp); Ret (Returns e)
      | _ => handle_present s (Some mp)
      end
  end.

(** [Check], internal/service/middlewarepackage/middlewarepackage.go *)
Definition Check_package (mp : middleware_package) : pprog (option error) :=
  let '(cs, p) := GetCondition now (cs_conditions (mp_status mp)) CondTypeChecked in
  match p ≫= (cs !!.) with
  | Some c =>
      if negb (String.eqb (c_status c) ConditionTrue) || (c_observedGeneration c <? mp_generation mp)%Z then
        UpdateMiddlewarePackageStatus statusAPIReader
          (MiddlewarePackage (mp_name mp) (mp_uid mp) (mp_generation mp) (mp_labels mp) (mp_annotations mp) (mp_spec mp)
             (CatalogStatus (cs_observedGeneration (mp_status mp)) (alter (Success now (mp_generation mp)) (default 0 p) cs)
                (cs_state (mp_status mp))))
      else Ret None
  | None => Ret None   (** not returned by [GetCondition] *)
  end.

(** ** The controller ([middlewarepackage_controller.go]) *)

(** [secretRequestPrefix], internal/controller/middlewarepackage_controller.go *)
Definition secretRequestPrefix : string := "__secret__/".

(** [HandleSecret], internal/controller/middlewarepackage_controller.go *)
Definition HandleSecret_controller (name namespace : string) : pprog outcome :=
  r ← GetSecret name namespace;
  match r with
  | Ok s => HandleSecret s HandleActionPublish
  | Err e =>
      if is_not_found e then HandleSecret (Secret name namespace "" None ∅ ∅ [] ∅) HandleActionDelete
      else Ret (Returns (Some e))
  end.

(** [HandlePackage], internal/controller/middlewarepackage_controller.go *)
Definition HandlePackage (name : string) : pprog (option error) :=
  r ← GetMiddlewarePackage name;
  match r with Ok mp => Check_package mp | Err e => Ret (Some e) end.

(** [middlewarePackageSecretErrorResult], internal/controller/middlewarepackage_controller.go *)
Definition middlewarePackageSecretErrorResult (err : option error) : ctrl_result * option error :=
  match err with
  | None => (done_result, None)
  | Some e => if is_not_found e then (CtrlResult false 2, None) else (done_result, Some e)
  end.

(** [None]: a panic.  An event reads the package it is about. *)
(** [Reconcile], internal/controller/middlewarepackage_controller.go *)
Definition Reconcile_package (name namespace : string) : pprog (option (ctrl_result * option error)) :=
  if HasPrefix name secretRequestPrefix then
    let secretName := TrimPrefix name secretRequestPrefix in
    r ← HandleSecret_controller secretName namespace;
    match r with
    | Panics => Ret None
    | Returns (Some e) => _ ← GetMiddlewarePackage secretName; Ret (Some (middlewarePackageSecretErrorResult (Some e)))
    | Returns None => Ret (Some (done_result, None))
    end
  else
    err ← HandlePackage name;
    match err with
    | Some e => if is_not_found e then Ret (Some (done_result, None))
                else _ ← GetMiddlewarePackage name; Ret (Some (done_result, Some e))
    | None => Ret (Some (done_result, None))
    end.

(** [isOpenSaolaSecret], internal/controller/middlewarepackage_controller.go *)
Definition isOpenSaolaSecret s : bool := IsOpenSaolaProject ((s_labels s).[LabelProject]).

(** [secretPredicate], internal/controller/middlewarepackage_controller.go:164-171 *)
Definition annotationChanged (old new : secret) (key : string) : bool :=
  bool_decide (s_annotations old !! key ≠ s_annotations new !! key).

(** The [UpdateFunc]; the other events need only the project. *)
(** [secretPredicate], internal/controller/middlewarepackage_controller.go *)
Definition secret_updated (old new : secret) : bool :=
  isOpenSaolaSecret new &&
  (negb (Bool.eqb (bool_decide (s_deletionTimestamp old = None)) (bool_decide (s_deletionTimestamp new = None))) ||
   bool_decide (s_data old ≠ s_data new) ||
   annotationChanged old new LabelInstall || annotationChanged old new LabelUnInstall).

(** [secretToRequests], internal/controller/middlewarepackage_controller.go *)
Definition secretToRequests s : list (string * string) :=
  if isOpenSaolaSecret s then [(s_namespace s, secretRequestPrefix +:+ s_name s)] else [].
End Install.

(** ** Proofs *)

Definition op_delete (e : pevent) : option catalog_object :=
  match e with Ev c _ => match c with CatalogDelete o => Some o | _ => None end end.
Definition deletes (tr : list pevent) : list catalog_object := omap op_delete tr.

Lemma deletes_snoc tr e : deletes (tr ++ [e]) = deletes tr ++ match op_delete e with Some o => [o] | None => [] end.
Proof. unfold deletes. rewrite omap_app. simpl. by destruct (op_delete e). Qed.

(** Reads, creations and status writes. *)
Definition plain (e : pevent) : Prop :=
  match e with Ev c _ => match c with CatalogDelete _ | PackageDelete _ | SecretPatch _ _ => False | _ => True end end.

Lemma plain_deletes tr e : plain e → deletes (tr ++ [e]) = deletes tr.
Proof. intros He. rewrite deletes_snoc. destruct e as [R c r]. destruct c; simpl in *; try done; by rewrite app_nil_r. Qed.

(** The object was created, or is there under its name. *)
Definition present (tr : list pevent) (o : catalog_object) : Prop :=
  (∃ live, Ev (CatalogGet (kind_of o) (co_name o)) (Ok live) ∈ tr) ∨
  (∃ o' r, Ev (CatalogCreate o') r ∈ tr ∧ kind_of o' = kind_of o ∧ co_name o' = co_name o ∧ co_spec o' = co_spec o ∧
    match r with Some e => e_kind e = AlreadyExists | None => True end).

(** The object was deleted, or was not there. *)
Definition gone (tr : list pevent) (o : catalog_object) : Prop :=
  ∃ r, Ev (CatalogDelete o) r ∈ tr ∧ match r with Some e => e_kind e = NotFound | None => True end.

Lemma present_mono tr tr' o : tr `prefix_of` tr' → present tr o → present tr' o.
Proof.
  intros Hpre [(live & ?)|(o' & r & ? & ?)]; [left; exists live|right; exists o', r; split; [|done]]; by eapply elem_of_prefix.
Qed.

Lemma gone_mono tr tr' o : tr `prefix_of` tr' → gone tr o → gone tr' o.
Proof. intros Hpre (r & ? & ?). exists r. split; [|done]. by eapply elem_of_prefix. Qed.

Lemma Forall_mono (P P' : catalog_object → Prop) os : (∀ o, P o → P' o) → Forall P os → Forall P' os.
Proof. intros HP. apply Forall_impl. exact HP. Qed.

(** Part of a list of the four kinds. *)
Ltac within := let x := fresh in let Hx := fresh in intros x Hx; rewrite !elem_of_app; auto.

(** Chains of prefixes. *)
Ltac pre := solve [reflexivity | eassumption | etrans; [eassumption|pre]].

Section Catalog.
Context (D : list pevent → pevent → Prop) (Hplain : ∀ l e, plain e → D l e).
Context (ControllerReference : middleware_package → catalog_object → option string).
Implicit Types (o : catalog_object).
Notation deploy_catalog := (deploy_catalog ControllerReference).

Lemma plain_call {R} (c : pcall R) tr (Q : list pevent → R → Prop) :
  (∀ r, plain (Ev c r)) → (∀ r, deletes (tr ++ [Ev c r]) = deletes tr → Q (tr ++ [Ev c r]) r) → spec D (call c) tr Q.
Proof. intros Hc HQ. apply spec_call; intros r; [apply Hplain, Hc|]. apply HQ, plain_deletes, Hc. Qed.

Lemma deploy_spec component version pkgname mp o tr :
  spec D (deploy_catalog component version pkgname false o mp) tr (λ tr' err,
    deletes tr' = deletes tr ∧ match err with Some e => e_kind e = AlreadyExists → present tr' o | None => present tr' o end).
Proof.
  unfold PackageInstall.deploy_catalog, create_catalog. set (o' := with_labels _ o).
  destruct (ControllerReference mp o') as [msg|]; [by apply spec_ret|]. cbn [kind_of co_name with_controller co_spec].
  set (new := with_controller _ o').
  eapply (spec_bind _ _ _ (λ tr' r, deletes tr' = deletes tr ∧ Ev (CatalogGet (kind_of o) (co_name o)) r ∈ tr')).
  { apply plain_call; [done|]. intros r ?. split; [done|]. apply elem_of_app. right. by apply elem_of_cons; left. }
  intros tr1 [live|e] _ [Hd Hin]; [apply spec_ret; split; [done|]; intros _; left; by exists live|].
  apply plain_call; [done|]. intros r Hd'. split; [by rewrite Hd'|].
  assert (Hnew : Ev (CatalogCreate new) r ∈ tr1 ++ [Ev (CatalogCreate new) r]) by (apply elem_of_app; right; by apply elem_of_cons; left).
  destruct r as [e'|]; [intros He|]; right; exists new; eexists; split_and!; [exact Hnew|done..].
Qed.

Lemma deploy_all_spec component version pkgname mp os tr :
  spec D (deploy_all (λ o, deploy_catalog component version pkgname false o mp) os) tr (λ tr' r,
    deletes tr' = deletes tr ∧ Forall (present tr') r.1 ∧
    match r.2 with
    | None => r.1 = os
    | Some e => e_kind e ≠ AlreadyExists ∧ ∃ o rest, os = r.1 ++ o :: rest
    end).
Proof.
  revert tr. induction os as [|o os IH]; intros tr; [by apply spec_ret|]. simpl.
  eapply spec_bind; [apply deploy_spec|]. intros tr1 err _ [Hd Hp].
  assert (Hrest : present tr1 o → spec D (deploy_all (λ o, deploy_catalog component version pkgname false o mp) os ≫=
      (λ '(deployed, err), Ret (o :: deployed, err))) tr1 (λ tr' r,
    deletes tr' = deletes tr ∧ Forall (present tr') r.1 ∧
    match r.2 with
    | None => r.1 = o :: os
    | Some e => e_kind e ≠ AlreadyExists ∧ ∃ o' rest, o :: os = r.1 ++ o' :: rest
    end)).
  { intros Ho. eapply spec_bind; [apply IH|]. intros tr2 [deployed err'] Hpre (Hd' & Hall & Herr). apply spec_ret. simpl in *.
    split_and!; [by rewrite Hd'| |].
    - constructor; [by eapply present_mono|done].
    - destruct err' as [e|]; [|by subst]. destruct Herr as (? & o' & rest & ->). split; [done|]. by exists o', rest. }
  destruct err as [e|]; [|by apply Hrest]. unfold is_already_exists. destruct (decide (e_kind e = AlreadyExists)) as [He|He].
  - rewrite bool_decide_true by done. by apply Hrest, Hp.
  - rewrite bool_decide_false by done. apply spec_ret. simpl. split_and!; [done|constructor|done|]. by exists o, os.
Qed.

Lemma rollback_spec os tr :
  (∀ l o r, tr `prefix_of` l → o ∈ os → D l (Ev (CatalogDelete o) r)) →
  spec D (rollback os) tr (λ tr' _, deletes tr' = deletes tr ++ os).
Proof.
  revert tr. induction os as [|o os IH]; intros tr Hdel; [apply spec_ret; by rewrite app_nil_r|].
  cbn [rollback]. eapply (spec_bind _ _ _ (λ tr' _, deletes tr' = deletes tr ++ [o])).
  { apply spec_call; [intros; apply Hdel; [done|by left]|]. intros r. by rewrite deletes_snoc. }
  intros tr1 _ Hpre Hd. eapply spec_mono; [apply IH|].
  - intros l o' r ??. apply Hdel; [by etrans|by right].
  - intros tr2 _ _ ->. by rewrite Hd, <- app_assoc.
Qed.

Lemma delete_all_gone os tr :
  (∀ l o r, tr `prefix_of` l → o ∈ os → D l (Ev (CatalogDelete o) r)) →
  spec D (delete_all os) tr (λ tr' err, deletes tr' = deletes tr ++ os ∧ (err = None → Forall (gone tr') os)).
Proof.
  revert tr. induction os as [|o os IH]; intros tr Hdel; [apply spec_ret; by rewrite app_nil_r|].
  cbn [delete_all]. unfold deletePackageResource. eapply (spec_bind _ _ _ (λ tr' err, deletes tr' = deletes tr ++ [o] ∧ (err = None → gone tr' o))).
  { eapply (spec_bind _ _ _ (λ tr' r, deletes tr' = deletes tr ++ [o] ∧ Ev (CatalogDelete o) r ∈ tr')).
    - apply spec_call; [intros; apply Hdel; [done|by left]|]. intros r. rewrite deletes_snoc. split; [done|].
      apply elem_of_app. right. by apply elem_of_cons; left.
    - intros tr1 r _ [Hd Hin]. apply spec_ret. split; [done|]. intros Hr. exists r. split; [done|].
      destruct r as [e|]; [|done]. unfold is_not_found in Hr. by case_bool_decide. }
  intros tr1 err Hpre [Hd Hgone].
  eapply (spec_bind _ _ _ (λ tr' err', (deletes tr' = deletes tr1 ++ os ∧ (err' = None → Forall (gone tr') os)) ∧ tr1 `prefix_of` tr')).
  { intros Htr. eapply holds_mono; [apply IH; [|done]|]. 
    - intros l o' r ??. apply Hdel; [by etrans|by right].
    - intros tr2 a (? & ? & ?). done. }
  intros tr2 err' _ [[Hd' Hall] Hpre']. apply spec_ret. split; [by rewrite Hd', Hd, <- app_assoc|].
  destruct err; [done|]. intros ->. constructor; [eapply gone_mono; [done|]; by apply Hgone|by apply Hall].
Qed.

(** The catalog is written in the order of the kinds; what is rolled back after
    a failure depends on the kind that failed. *)
Definition published (baselines operatorBaselines actionBaselines configurations : list catalog_object)
    (before tr : list pevent) (err : option error) : Prop :=
  let done os := Forall (present tr) os in
  let fails os deployed := ∃ o rest, os = deployed ++ o :: rest ∧ Forall (present tr) deployed in
  match err with
  | None => done (baselines ++ operatorBaselines ++ actionBaselines ++ configurations) ∧ deletes tr = deletes before
  | Some e => e_kind e ≠ AlreadyExists ∧ ∃ deployed,
      (fails baselines deployed ∧ deletes tr = deletes before) ∨
      (done baselines ∧ fails operatorBaselines deployed ∧ deletes tr = deletes before ++ baselines) ∨
      (done (baselines ++ operatorBaselines) ∧ fails actionBaselines deployed ∧
       deletes tr = deletes before ++ operatorBaselines ++ baselines) ∨
      (done (baselines ++ operatorBaselines ++ actionBaselines) ∧ fails configurations deployed ∧
       deletes tr = deletes before ++ deployed ++ actionBaselines ++ operatorBaselines ++ baselines)
  end.

Lemma fails_mono os tr tr' deployed : tr `prefix_of` tr' →
  (∃ o rest, os = deployed ++ o :: rest) ∧ Forall (present tr) deployed →
  ∃ o rest, os = deployed ++ o :: rest ∧ Forall (present tr') deployed.
Proof. intros Hpre [(o & rest & ->) Hall]. exists o, rest. split; [done|]. eapply Forall_mono; [|done]. intros ?. by apply present_mono. Qed.

Lemma publish_rollback_spec b ob ab cf pkg mp tr :
  (∀ l o r, tr `prefix_of` l → o ∈ b ++ ob ++ ab ++ cf → D l (Ev (CatalogDelete o) r)) →
  spec D (publish ControllerReference b ob ab cf pkg mp) tr (published b ob ab cf tr).
Proof.
  intros Hdel. unfold publish, published. set (md := pk_metadata pkg).
  set (deploy := λ o, deploy_catalog (md_name md) (md_version md) (pk_name pkg) false o mp).
  assert (Hall : ∀ os l, spec D (deploy_all deploy os) l (λ l' r, deletes l' = deletes l ∧ Forall (present l') r.1 ∧
      match r.2 with None => r.1 = os | Some e => e_kind e ≠ AlreadyExists ∧ ∃ o rest, os = r.1 ++ o :: rest end))
    by (intros; apply deploy_all_spec).
  assert (Hback : ∀ os l, os ⊆ b ++ ob ++ ab ++ cf → tr `prefix_of` l →
    spec D (rollback os) l (λ l' _, deletes l' = deletes l ++ os ∧ l `prefix_of` l')).
  { intros os l Hos Hl Hd. eapply holds_mono; [apply rollback_spec; [|done]|];
      [intros l' o r ??; apply Hdel; [by etrans|by apply Hos]|].
    intros l' a (? & ? & ?). done. }
  assert (Hm : ∀ l l' os, l `prefix_of` l' → Forall (present l) os → Forall (present l') os).
  { intros l l' os ?. apply Forall_mono. intros o. by apply present_mono. }
  clearbody deploy. eapply spec_bind; [apply Hall|].
  intros tr1 [d1 [e|]] Hp1 (Hd1 & Hall1 & H1); simpl in *.
  { apply spec_ret. destruct H1. split; [done|]. exists d1. left. split; [eapply (fails_mono _ tr1); [pre|done]|done]. }
  subst d1. eapply spec_bind; [apply Hall|]. intros tr2 [d2 [e|]] Hp2 (Hd2 & Hall2 & H2); simpl in *.
  { destruct H2. eapply spec_bind; [apply Hback; [by within|pre]|]. intros tr3 _ _ [Hd3 Hp3]. apply spec_ret. split; [done|].
    exists d2. right; left. split_and!; [eapply (Hm tr1); [pre|done]|eapply (fails_mono _ tr2); [pre|done]|]. by rewrite Hd3, Hd2, Hd1. }
  subst d2. eapply spec_bind; [apply Hall|]. intros tr3 [d3 [e|]] Hp3 (Hd3 & Hall3 & H3); simpl in *.
  { destruct H3. eapply spec_bind; [apply Hback; [by within|pre]|]. intros tr4 _ _ [Hd4 Hp4].
    eapply spec_bind; [apply Hback; [by within|pre]|]. intros tr5 _ _ [Hd5 Hp5]. apply spec_ret. split; [done|].
    exists d3. do 2 right; left. split_and!.
    - apply list.Forall_app; split; first [eapply (Hm tr1); [pre|done]|eapply (Hm tr2); [pre|done]|eapply (Hm tr3); [pre|done]|eapply (Hm tr4); [pre|done]].
    - eapply (fails_mono _ tr3); [pre|done].
    - by rewrite Hd5, Hd4, Hd3, Hd2, Hd1, <- app_assoc. }
  subst d3. eapply spec_bind; [apply Hall|]. intros tr4 [d4 [e|]] Hp4 (Hd4 & Hall4 & H4); simpl in *.
  { destruct H4. eapply spec_bind; [apply Hback; [|pre]; destruct H0 as (? & ? & ->); within|]. intros tr5 _ _ [Hd5 Hp5].
    eapply spec_bind; [apply Hback; [by within|pre]|]. intros tr6 _ _ [Hd6 Hp6].
    eapply spec_bind; [apply Hback; [by within|pre]|]. intros tr7 _ _ [Hd7 Hp7].
    eapply spec_bind; [apply Hback; [by within|pre]|]. intros tr8 _ _ [Hd8 Hp8]. apply spec_ret. split; [done|].
    exists d4. do 3 right. split_and!.
    - rewrite !list.Forall_app; split_and!; first [eapply (Hm tr1); [pre|done]|eapply (Hm tr2); [pre|done]|eapply (Hm tr3); [pre|done]|eapply (Hm tr4); [pre|done]].
    - eapply (fails_mono _ tr4); [pre|done].
    - by rewrite Hd8, Hd7, Hd6, Hd5, Hd4, Hd3, Hd2, Hd1, <- !app_assoc. }
  subst d4. apply spec_ret. split; [|congruence].
  rewrite !list.Forall_app; split_and!; first [eapply (Hm tr1); [pre|done]|eapply (Hm tr2); [pre|done]|eapply (Hm tr3); [pre|done]|eapply (Hm tr4); [pre|done]].
Qed.
End Catalog.

Section Contents.
Context `{!RetryOnConflict pcall error is_conflict, !PackageFormat, !MapOrder}.
Context (apiReader : bool) (DataNamespace : string).
Context (D : list pevent → pevent → Prop) (Hplain : ∀ l e, plain e → D l e).
Notation Get := (Get apiReader DataNamespace).

(** A package of that name was read, or found in the cache. *)
Definition seen (tr : list pevent) (name : string) (p : package) : Prop :=
  (∃ s, Ev (read_call apiReader DataNamespace name) (Ok s) ∈ tr ∧ parse s = Ok p) ∨
  (∃ rv, Ev (ParsedGet name) (Some (rv, p)) ∈ tr).

Lemma package_seen_mono tr tr' name p : tr `prefix_of` tr' → seen tr name p → seen tr' name p.
Proof. intros Hpre [(s & ? & ?)|(rv & ?)]; [left; exists s; split; [|done]|right; exists rv]; by eapply elem_of_prefix. Qed.

(** The objects of a kind, as [HandleResource] lists them. *)
Definition objects_of (k : catalog_kind) (p : package) : result error (list catalog_object) :=
  os ← catalog_of k p; Ok (if decide (k = KConfiguration) then snd <$> visit (by_name os) else os).

Definition contents (tr : list pevent) (name : string) (k : catalog_kind) (os : list catalog_object) : Prop :=
  ∃ pkg p, seen tr name pkg ∧ seen tr (pk_name pkg) p ∧ objects_of k p = Ok os.

Lemma contents_mono tr tr' name k os : tr `prefix_of` tr' → contents tr name k os → contents tr' name k os.
Proof. intros Hpre (pkg & p & ? & ? & ?). exists pkg, p. split_and!; [by eapply package_seen_mono..|done]. Qed.

Lemma plain_step {R} (c : pcall R) tr :
  (∀ r, plain (Ev c r)) → spec D (call c) tr (λ tr' r, deletes tr' = deletes tr ∧ Ev c r ∈ tr').
Proof.
  intros Hc. apply plain_call; [done|done|]. intros r ?. split; [done|]. apply elem_of_app. right. by apply elem_of_cons; left.
Qed.

Lemma read_secret_seen name tr :
  spec D (read_secret apiReader DataNamespace name) tr (λ tr' a, deletes tr' = deletes tr ∧ Ev (read_call apiReader DataNamespace name) a ∈ tr').
Proof.
  unfold read_secret, read_call, GetSecret. destruct apiReader; [by apply plain_step|].
  eapply spec_bind; [by apply plain_step|]. intros tr1 [s|e] _ [Hd Hin]; [|by apply spec_ret].
  eapply (spec_bind _ _ _ (λ tr' _, deletes tr' = deletes tr ∧ Ev (SecretGet name DataNamespace) (Ok s) ∈ tr')).
  { apply plain_call; [done|done|]. intros u Hu. split; [by rewrite Hu|]. apply elem_of_app. by left. }
  intros. by apply spec_ret.
Qed.

Lemma Get_seen name tr : spec D (Get name) tr (λ tr' r, deletes tr' = deletes tr ∧ ∀ p, r = Ok p → seen tr' name p).
Proof.
  unfold Packages.Get. eapply spec_bind; [apply read_secret_seen|]. intros tr1 [s|e] _ [Hd1 Hread]; [|by apply spec_ret].
  eapply (spec_bind _ _ _ (λ tr' ce, (deletes tr' = deletes tr ∧ Ev (ParsedGet name) ce ∈ tr') ∧ Ev (read_call apiReader DataNamespace name) (Ok s) ∈ tr')).
  { apply plain_call; [done|done|]. intros r Hr. split_and!; [by rewrite Hr| |]; apply elem_of_app; [right; by apply elem_of_cons; left|by left]. }
  intros tr2 ce _ [[Hd2 Hce] Hread2].
  assert (Hfresh : spec D (match parse s with
     | Err e => Ret (Err e)
     | Ok pkg => _ ← call (ParsedSet name (s_resourceVersion s) pkg); Ret (Ok pkg) end) tr2
     (λ tr' r, deletes tr' = deletes tr ∧ ∀ p, r = Ok p → seen tr' name p)).
  { destruct (parse s) as [pkg|e] eqn:Hp; [|by apply spec_ret].
    eapply (spec_bind _ _ _ (λ tr' _, deletes tr' = deletes tr ∧ Ev (read_call apiReader DataNamespace name) (Ok s) ∈ tr')).
    { apply plain_call; [done|done|]. intros u Hu. split; [by rewrite Hu|]. apply elem_of_app. by left. }
    intros tr3 _ _ [? ?]. apply spec_ret. split; [done|]. intros ? [= <-]. left. by exists s. }
  destruct ce as [[rv p]|]; [|done]. destruct (String.eqb _ _); [|done].
  apply spec_ret. split; [done|]. intros ? [= <-]. right. by exists rv.
Qed.

Lemma only_plain_deletes {A} (p : pprog A) tr : only (λ _ e, plain e) p → spec D p tr (λ tr' _, deletes tr' = deletes tr).
Proof.
  intros Hp Htr. eapply holds_mono.
  { apply (Hp (λ l e, tr `prefix_of` l → D l e ∧ deletes (l ++ [e]) = deletes l) tr).
    - intros l e He _. split; [by apply Hplain|by apply plain_deletes].
    - intros l e l' Heq Hpre. destruct Hpre as [k ->]. exfalso. apply (f_equal length) in Heq.
      rewrite !length_app in Heq. simpl in Heq. lia. }
  intros ev a Hall. split_and!; [|by apply prefix_app_r|].
  - intros l e l' Heq. destruct (app_eq_inv _ _ _ _ (eq_sym Heq)) as [(k & -> & Hk)|(k & -> & Hk)].
    + eapply Hall; [done|]. by apply prefix_app_r.
    + destruct k as [|e' k]; simplify_eq/=.
      * eapply (Hall l e l'); [by rewrite !app_nil_r|by rewrite app_nil_r].
      * by eapply Htr.
  - clear Htr. induction ev as [|e ev IH] using rev_ind; [by rewrite app_nil_r|].
    rewrite app_assoc in Hall |- *. destruct (Hall (tr ++ ev) e []) as [_ ->]; [done|by apply prefix_app_r|].
    apply IH. by apply each_snoc in Hall as [? _].
Qed.

Lemma get_catalog_seen k name tr : spec D (get_catalog apiReader DataNamespace k name) tr (λ tr' r,
  deletes tr' = deletes tr ∧ ∀ os, r = Ok os → ∃ p, seen tr' name p ∧ catalog_of k p = Ok os).
Proof.
  unfold get_catalog, try. eapply spec_bind; [apply Get_seen|]. intros tr1 [p|e] _ [Hd Hs]; apply spec_ret; [|done].
  split; [done|]. intros os Hos. exists p. split; [by apply Hs|done].
Qed.

Lemma only_GetMiddlewarePackage name : only (λ _ e, plain e) (GetMiddlewarePackage name).
Proof.
  unfold GetMiddlewarePackage. apply only_bind; [apply only_retry; intros _|intros; apply only_ret].
  apply only_bind; [by apply only_call|]. intros [m|e]; [|apply only_ret].
  apply only_bind; [by apply only_call|intros; apply only_ret].
Qed.

Definition contents_read (tr' : list pevent) (name : string)
    (r : result error (middleware_package * package * list catalog_object * list catalog_object * list catalog_object * list catalog_object)) : Prop :=
  match r with
  | Ok (mp, pkg, b, ob, ab, cf) =>
      contents tr' name KBaseline b ∧ contents tr' name KOperatorBaseline ob ∧
      contents tr' name KActionBaseline ab ∧ contents tr' name KConfiguration cf
  | Err _ => True
  end.

Lemma contents_of tr tr' tr'' name pkg k p os os' :
  seen tr name pkg → seen tr' (pk_name pkg) p → catalog_of k p = Ok os →
  os' = (if decide (k = KConfiguration) then snd <$> visit (by_name os) else os) →
  tr `prefix_of` tr'' → tr' `prefix_of` tr'' → contents tr'' name k os'.
Proof.
  intros ?? Hos -> ??. exists pkg, p. split_and!; [by apply (package_seen_mono tr)|by apply (package_seen_mono tr')|]. unfold objects_of. by rewrite Hos.
Qed.

Lemma package_contents_spec name tr : spec D (package_contents apiReader DataNamespace name) tr (λ tr' r,
  deletes tr' = deletes tr ∧ contents_read tr' name r).
Proof.
  unfold package_contents, try, GetMiddlewareBaselines, GetMiddlewareOperatorBaselines, GetMiddlewareActionBaselines, GetConfigurations.
  eapply spec_bind; [apply only_plain_deletes, only_GetMiddlewarePackage|]. intros tr0 [mp|e] _ Hd0; [|by apply spec_ret].
  eapply spec_bind; [apply Get_seen|]. intros tr1 [pkg|e] Hp1 [Hd1 Hs]; [|apply spec_ret; split; [congruence|done]].
  specialize (Hs pkg eq_refl).
  eapply spec_bind; [apply get_catalog_seen|]. intros tr2 [b|e] Hp2 [Hd2 Hb]; [|apply spec_ret; split; [congruence|done]].
  eapply spec_bind; [apply get_catalog_seen|]. intros tr3 [ob|e] Hp3 [Hd3 Hob]; [|apply spec_ret; split; [congruence|done]].
  eapply spec_bind; [apply get_catalog_seen|]. intros tr4 [ab|e] Hp4 [Hd4 Hab]; [|apply spec_ret; split; [congruence|done]].
  eapply (spec_bind _ _ _ (λ tr' r, deletes tr' = deletes tr4 ∧ ∀ cf, r = Ok cf → ∃ p os, seen tr' (pk_name pkg) p ∧ catalog_of KConfiguration p = Ok os ∧ cf = by_name os)).
  { eapply spec_bind; [apply get_catalog_seen|]. intros tr5 [os|e] _ [Hd5 Hcf]; apply spec_ret; [|done].
    split; [done|]. intros cf [= <-]. destruct (Hcf os eq_refl) as (p & ? & ?). by exists p, os. }
  intros tr5 [cf|e] Hp5 [Hd5 Hcf]; apply spec_ret; (split; [congruence|]); [|done]. simpl.
  destruct (Hb b eq_refl) as (p1 & S1 & C1), (Hob ob eq_refl) as (p2 & S2 & C2), (Hab ab eq_refl) as (p3 & S3 & C3),
    (Hcf cf eq_refl) as (p4 & os & S4 & C4 & ->).
  split_and!; [eapply (contents_of _ _ _ _ _ _ _ _ _ Hs S1 C1)|eapply (contents_of _ _ _ _ _ _ _ _ _ Hs S2 C2)
    |eapply (contents_of _ _ _ _ _ _ _ _ _ Hs S3 C3)|eapply (contents_of _ _ _ _ _ _ _ _ _ Hs S4 C4)]; first [reflexivity|pre].
Qed.
End Contents.

(** ** What a package's Secret allows *)

Section Guard.
Context `{!RetryOnConflict pcall error is_conflict, !PackageFormat, !MapOrder, !ControllerUtil, !MetaConditions}.
Context (apiReader : bool) (DataNamespace : string).
Context (ControllerReference : middleware_package → catalog_object → option string) (sha256_hex : string → string).
Context (s : secret).
Notation contents := (contents apiReader DataNamespace).
Notation HandleResource := (HandleResource apiReader DataNamespace ControllerReference).

(** Nobody uses the package. *)
Definition unused (l : list pevent) : Prop :=
  Ev (MiddlewareList (s_name s)) (Ok []) ∈ l ∧ Ev (OperatorList (s_name s)) (Ok []) ∈ l.

(** Of every kind, all objects of the package. *)
Definition all_objects (P : list pevent → catalog_object → Prop) (l : list pevent) : Prop :=
  ∀ k, ∃ os, contents l (s_name s) k os ∧ Forall (P l) os.

Definition enabled (x : secret) : Prop := (s_labels x).[LabelEnabled] = "true".
Definition asks_install : Prop := s_deletionTimestamp s = None ∧ is_Some (s_annotations s !! LabelInstall).

(** An object of the package of a Secret, as its content was read. *)
Definition in_package (l : list pevent) (name : string) (o : catalog_object) : Prop :=
  ∃ k os, contents l name k os ∧ o ∈ os.

(** The package that is installed, or one listed as enabled for the component. *)
Definition replaced (l : list pevent) (name : string) : Prop :=
  name = s_name s ∨
  ∃ items item, item ∈ items ∧ s_name item = name ∧
    Ev (SecretList DataNamespace CompatibleProjects
          (<[LabelEnabled := "true"]> {[LabelComponent := (s_labels s).[LabelComponent]]})) (Ok items) ∈ l.

(** Why the objects of the package of a Secret may be deleted. *)
Definition may_delete (l : list pevent) (name : string) : Prop :=
  (unused l ∧ name = s_name s) ∨ (asks_install ∧ replaced l name).

(** The MiddlewarePackage under the Secret's name. *)
Definition registered (l : list pevent) (mp : middleware_package) : Prop := Ev (PackageGet (s_name s)) (Ok mp) ∈ l.

Definition guarded (l : list pevent) (e : pevent) : Prop :=
  match e with
  | Ev c _ => match c with
    | CatalogDelete o => ∃ name, may_delete l name ∧ in_package l name o
    | PackageDelete mp => unused l ∧ is_Some (s_deletionTimestamp s) ∧ all_objects gone l ∧ registered l mp
    | SecretPatch from to =>
        (FinalizerPackageSecret ∈ s_finalizers from → FinalizerPackageSecret ∉ s_finalizers to →
           unused l ∧ is_Some (s_deletionTimestamp s) ∧ all_objects gone l) ∧
        (enabled to → enabled from ∨ enabled s ∨ (asks_install ∧ all_objects present l))
    | _ => True
    end
  end.

(** What is left to do for a Secret that is gone: its MiddlewarePackage goes. *)
Definition unregisters (l : list pevent) (e : pevent) : Prop :=
  match e with Ev c _ => match c with PackageDelete mp => registered l mp | _ => plain e end end.

Lemma plain_guarded l e : plain e → guarded l e.
Proof. destruct e as [R c r]. by destruct c. Qed.

Lemma unused_mono l l' : l `prefix_of` l' → unused l → unused l'.
Proof. intros Hpre [? ?]. split; by eapply elem_of_prefix. Qed.

Lemma in_package_mono l l' name o : l `prefix_of` l' → in_package l name o → in_package l' name o.
Proof. intros ? (k & os & ? & ?). exists k, os. split; [by eapply contents_mono|done]. Qed.

Lemma may_delete_mono l l' name : l `prefix_of` l' → may_delete l name → may_delete l' name.
Proof.
  intros ? [[? ->]|[? [->|(items & item & ? & ? & ?)]]]; [left; split; [by eapply unused_mono|done]|right; split; [done|by left]|].
  right. split; [done|right]. exists items, item. split_and!; [done..|by eapply elem_of_prefix].
Qed.

Lemma all_objects_mono (P : list pevent → catalog_object → Prop) l l' :
  (∀ o, P l o → P l' o) → l `prefix_of` l' → all_objects P l → all_objects P l'.
Proof.
  intros HP Hpre Hall k. destruct (Hall k) as (os & Hc & Hos). exists os. split; [by eapply contents_mono|].
  eapply Forall_mono; [exact HP|done].
Qed.

Lemma guarded_plain {A} (p : pprog A) tr : only (λ _ e, plain e) p → spec guarded p tr (λ _ _, True).
Proof. intros Hp. eapply only_spec; [done|]. intros. by apply plain_guarded. Qed.

(** An update of labels and annotations keeps the finalizers. *)
Lemma UpdateSecret_guarded s' tr :
  (enabled s' → enabled s ∨ (asks_install ∧ all_objects present tr)) →
  spec guarded (UpdateSecret s') tr (λ _ _, True).
Proof.
  intros Hen. unfold UpdateSecret. eapply (spec_bind _ _ _ (λ _ _, True)); [|intros; by apply spec_ret].
  apply (spec_retry _ _ _ (λ _ l, tr `prefix_of` l)); [|done]. intros u l Hl.
  eapply (spec_bind _ _ _ (λ l' _, tr `prefix_of` l')).
  { apply spec_call; [done|]. intros r. by apply prefix_app_r. }
  intros l1 [cur|e] _ Hl1; [|apply spec_ret; simpl; auto].
  eapply (spec_bind _ _ _ (λ l' _, tr `prefix_of` l')).
  { apply spec_call; [|intros r; by apply prefix_app_r]. intros r. split; simpl; [done|].
    intros Hto. right. destruct (Hen Hto) as [?|[? Hall]]; [by left|right; split; [done|]].
    eapply all_objects_mono; [|exact Hl1|exact Hall]. intros o. by apply present_mono. }
  intros l2 err _ ?. apply spec_ret. split; [done|]. destruct err; simpl; auto.
Qed.

Lemma in_contents l name b ob ab cf o :
  contents l name KBaseline b → contents l name KOperatorBaseline ob → contents l name KActionBaseline ab →
  contents l name KConfiguration cf → o ∈ b ++ ob ++ ab ++ cf → in_package l name o.
Proof. intros ????. rewrite !elem_of_app. intros [?|[?|[?|?]]]; eexists _, _; (split; [|eassumption]); eassumption. Qed.

Lemma HandleResource_delete_guarded name tr :
  may_delete tr name →
  spec guarded (HandleResource HandleActionDelete name) tr (λ tr' err,
    err = None → name = s_name s → all_objects gone tr').
Proof.
  intros Hok. unfold PackageInstall.HandleResource.
  eapply spec_bind; [apply (package_contents_spec _ _ _ plain_guarded)|].
  intros tr1 [[[[[[mp pkg] b] ob] ab] cf]|e] Hpre [_ Hc]; [|by apply spec_ret].
  destruct Hc as (K1 & K2 & K3 & K4).
  assert (Hdel : spec guarded (delete_all (b ++ ob ++ ab ++ cf)) tr1 (λ tr' err,
    (err = None → Forall (gone tr') (b ++ ob ++ ab ++ cf)) ∧ tr1 `prefix_of` tr')).
  { intros Htr. eapply holds_mono; [apply delete_all_gone; [|done]|].
    - intros l o r Hl Ho. exists name. split; [eapply (may_delete_mono tr); [by etrans|done]|]. eapply in_package_mono; [exact Hl|].
      by eapply in_contents.
    - intros tr2 a (? & ? & ? & ?). done. }
  eapply spec_mono; [exact Hdel|]. intros tr2 err _ [Hgone Hpre2] Herr ->.
  specialize (Hgone Herr). rewrite !list.Forall_app in Hgone. destruct Hgone as (? & ? & ? & ?).
  intros []; [exists b|exists ob|exists ab|exists cf]; (split; [by eapply contents_mono|done]).
Qed.

Lemma HandleResource_publish_guarded tr :
  asks_install →
  spec guarded (HandleResource HandleActionPublish (s_name s)) tr (λ tr' err, err = None → all_objects present tr').
Proof.
  intros Hok. unfold PackageInstall.HandleResource.
  eapply spec_bind; [apply (package_contents_spec _ _ _ plain_guarded)|].
  intros tr1 [[[[[[mp pkg] b] ob] ab] cf]|e] Hpre [_ Hc]; [|by apply spec_ret].
  destruct Hc as (K1 & K2 & K3 & K4).
  assert (Hpub : spec guarded (publish ControllerReference b ob ab cf pkg mp) tr1 (λ tr' err,
    published b ob ab cf tr1 tr' err ∧ tr1 `prefix_of` tr')).
  { intros Htr. eapply holds_mono; [apply (publish_rollback_spec _ plain_guarded); [|done]|].
    { intros l o r Hl Ho. exists (s_name s). split; [right; split; [done|by left]|]. eapply in_package_mono; [exact Hl|].
      by eapply in_contents. }
    intros tr2 a (? & ? & ?). done. }
  eapply spec_mono; [exact Hpub|]. intros tr2 err _ [Hpubd Hpre2] ->.
  destruct Hpubd as [Hall _]. rewrite !list.Forall_app in Hall. destruct Hall as (? & ? & ? & ?).
  intros []; [exists b|exists ob|exists ab|exists cf]; (split; [by eapply contents_mono|done]).
Qed.

Lemma findPackageUsages_guarded tr : spec guarded (findPackageUsages (s_name s)) tr (λ tr' r, r = Ok [] → unused tr').
Proof.
  unfold findPackageUsages. eapply (spec_bind _ _ _ (λ tr' r, Ev (MiddlewareList (s_name s)) r ∈ tr')).
  { apply spec_call; [done|]. intros r. apply elem_of_app. right. by apply elem_of_cons; left. }
  intros tr1 [ms|e] _ Hm; [|by apply spec_ret].
  eapply (spec_bind _ _ _ (λ tr' r, Ev (OperatorList (s_name s)) r ∈ tr' ∧ tr1 `prefix_of` tr')).
  { apply spec_call; [done|]. intros r. split; [|by apply prefix_app_r]. apply elem_of_app. right. by apply elem_of_cons; left. }
  intros tr2 [os|e] _ [Ho Hpre]; apply spec_ret; [|done]. intros [= Hnil].
  pose proof (sort_by_Permutation usage_key ((usage_of "middleware" <$> ms) ++ (usage_of "middlewareoperator" <$> os))) as Hperm.
  rewrite Hnil in Hperm. apply Permutation_nil, app_nil in Hperm as [Hms%fmap_nil_inv Hos%fmap_nil_inv]. subst.
  split; [by eapply elem_of_prefix|done].
Qed.

Lemma finalize_guarded mp tr :
  is_Some (s_deletionTimestamp s) → (∀ p, mp = Some p → registered tr p) →
  spec guarded (finalizePackageSecret apiReader DataNamespace ControllerReference s mp) tr (λ _ _, True).
Proof.
  intros Hdel Hmp. unfold finalizePackageSecret. destruct (negb _); [by apply spec_ret|].
  eapply spec_bind; [apply findPackageUsages_guarded|]. intros tr1 [[|u us]|e] Hpre1 Hu; [|..|by apply spec_ret].
  2: { eapply spec_bind; [|intros; by apply spec_ret]. apply UpdateSecret_guarded. by left. }
  specialize (Hu eq_refl). eapply (spec_bind _ _ _ (λ tr' err, unused tr' ∧ (err = None → all_objects gone tr'))).
  { intros Htr. eapply holds_mono; [apply HandleResource_delete_guarded; [by left|done]|].
    intros tr2 err (? & Hpre & Hgone). split_and!; [done|done|by eapply unused_mono|auto]. }
  intros tr2 [e|] Hpre2 [Hu2 Hgone]; [by apply spec_ret|]. specialize (Hgone eq_refl).
  eapply (spec_bind _ _ _ (λ tr' _, unused tr' ∧ all_objects gone tr')).
  { destruct mp as [mp|]; [|by apply spec_ret].
    eapply (spec_bind _ _ _ (λ tr' _, unused tr' ∧ all_objects gone tr')); [|intros; by apply spec_ret].
    apply spec_call; [intros r; split_and!; [done..|]; eapply elem_of_prefix; [by apply Hmp|by etrans]|].
    intros r. assert (Hpre : tr2 `prefix_of` tr2 ++ [Ev (PackageDelete mp) r]) by (by apply prefix_app_r).
    split; [by eapply unused_mono|]. eapply all_objects_mono; [|exact Hpre|done]. intros o. by apply gone_mono. }
  intros tr3 [e|] _ [Hu3 Hgone3]; [by apply spec_ret|]. apply spec_call; [|done]. intros r. split; [done|].
  intros Hen. exfalso. unfold enabled, finalized, enable in Hen. simpl in Hen. unfold str_at in Hen.
  rewrite lookup_insert_ne, lookup_insert_eq in Hen by done. done.
Qed.

Lemma disable_guarded items tr :
  asks_install → (∀ l item, tr `prefix_of` l → item ∈ items → replaced l (s_name item)) →
  spec guarded (disable_enabled apiReader DataNamespace ControllerReference items) tr (λ _ _, True).
Proof.
  intros Hask. revert tr. induction items as [|item items IH]; intros tr Hlisted; [by apply spec_ret|]. cbn [disable_enabled].
  eapply spec_bind; [apply HandleResource_delete_guarded; right; split; [done|apply Hlisted; [done|by left]]|]. intros tr1 err Hpre _.
  eapply (spec_bind _ _ _ (λ _ _, True)); [|intros tr2 _ Hpre2 _; apply IH; intros; apply Hlisted; [by do 2 etrans|by right]].
  destruct err; [by apply spec_ret|].
  apply UpdateSecret_guarded. unfold enabled. simpl. unfold str_at.
  rewrite lookup_insert_ne, lookup_delete_eq by done. done.
Qed.

Lemma install_guarded tr :
  asks_install →
  spec guarded (install apiReader DataNamespace ControllerReference sha256_hex s) tr (λ _ _, True).
Proof.
  intros Hask. unfold install. destruct (_ && _); [by apply spec_ret|].
  eapply (spec_bind _ _ _ (λ tr' r, ∀ items l item, r = Ok items → tr' `prefix_of` l → item ∈ items → replaced l (s_name item))).
  { eapply (spec_bind _ _ _ (λ tr' r, tr' = tr ++ [Ev (SecretList DataNamespace CompatibleProjects
      (<[LabelEnabled := "true"]> {[LabelComponent := (s_labels s).[LabelComponent]]})) r])); [by apply spec_call|].
    intros tr1 r _ ->. apply spec_ret. destruct r as [items'|]; [|done]. intros items l item [= <-] Hpre Hin.
    right. exists items', item. split_and!; [done..|]. eapply elem_of_prefix; [|exact Hpre]. apply elem_of_app. right. by left. }
  intros tr1 [items|e] _ Hitems; [|by apply spec_ret].
  eapply (spec_bind _ _ _ (λ _ _, True)); [apply disable_guarded; eauto|]. intros tr2 _ _ _.
  eapply spec_bind; [by apply HandleResource_publish_guarded|]. intros tr3 [e|] _ Hpub.
  - destruct (isTerminalInstallError e); [|by apply spec_ret].
    eapply spec_bind; [|intros; by apply spec_ret]. apply UpdateSecret_guarded. by left.
  - apply UpdateSecret_guarded. intros _. right. split; [done|by apply Hpub].
Qed.

Lemma uninstall_guarded tr : spec guarded (uninstall apiReader DataNamespace ControllerReference s) tr (λ _ _, True).
Proof.
  unfold uninstall. eapply spec_bind; [apply findPackageUsages_guarded|].
  intros tr1 [[|u us]|e] _ Hu; [|..|by apply spec_ret].
  - specialize (Hu eq_refl). eapply spec_bind; [apply HandleResource_delete_guarded; by left|].
    intros tr2 [e|] _ _; [by apply spec_ret|]. apply UpdateSecret_guarded. unfold enabled. simpl. unfold str_at.
    rewrite lookup_insert_ne, lookup_insert_eq by done. done.
  - apply UpdateSecret_guarded. unfold enabled. simpl. unfold str_at. rewrite lookup_insert_ne by done. by left.
Qed.

Lemma only_register mp : only (λ _ e, plain e) (register_package mp).
Proof.
  unfold register_package, CreateMiddlewarePackage, UpdateMiddlewarePackage. apply only_bind.
  { apply only_bind; [apply only_GetMiddlewarePackage|]. intros [m|e]; [apply only_ret|by apply only_call]. }
  intros [e|]; [|apply only_ret]. destruct (is_already_exists e); [|apply only_ret].
  apply only_bind; [apply only_retry; intros _|intros; apply only_ret].
  apply only_bind; [apply only_GetMiddlewarePackage|]. intros [m|e']; [|apply only_ret].
  apply only_bind; [by apply only_call|intros; apply only_ret].
Qed.

Lemma GetMiddlewarePackage_registered D tr : (∀ l e, plain e → D l e) →
  spec D (GetMiddlewarePackage (s_name s)) tr (λ tr' r, ∀ mp, r = Ok mp → registered tr' mp).
Proof.
  intros HD. unfold GetMiddlewarePackage.
  eapply (spec_bind _ _ _ (λ tr' r, ∀ mp, r.2 = Some mp → registered tr' mp)).
  { apply (spec_retry _ _ _ (λ _ _, True)); [|done]. intros _ l _.
    eapply (spec_bind _ _ _ (λ tr' r, Ev (PackageGet (s_name s)) r ∈ tr')).
    { apply spec_call; [intros; by apply HD|]. intros r. apply elem_of_app. right. by left. }
    intros tr1 [mp|e] _ Hin; [|by apply spec_ret].
    apply (spec_bind _ _ _ (λ tr' _, registered tr' mp)).
    { apply spec_call; [intros; by apply HD|]. intros u. apply elem_of_app. by left. }
    intros tr2 u _ Hr. apply spec_ret. split; [|done]. by intros ? [= <-]. }
  intros tr1 [[e|] [mp|]] _ Hr; apply spec_ret; try done. intros ? [= <-]. by apply Hr.
Qed.

Lemma handle_present_guarded mp tr : (∀ p, mp = Some p → registered tr p) →
  spec guarded (handle_present apiReader DataNamespace ControllerReference sha256_hex s mp) tr (λ _ _, True).
Proof.
  intros Hmp. unfold handle_present. case_bool_decide as Hdel.
  { eapply spec_bind; [by apply finalize_guarded|]. intros; by apply spec_ret. }
  destruct (_ && _); [by apply spec_ret|].
  eapply spec_bind; [apply (Get_seen _ _ _ plain_guarded)|]. intros tr1 [pkg|e] _ _; [|by apply spec_ret].
  destruct (package_object s pkg); [|by apply spec_ret].
  eapply (spec_bind _ _ _ (λ _ _, True)); [apply guarded_plain, only_register|].
  intros tr2 [e|] _ _; [by apply spec_ret|].
  eapply (spec_bind _ _ _ (λ _ _, True)); [|intros; by apply spec_ret]. case_bool_decide.
  - apply install_guarded. split; [|done]. destruct (s_deletionTimestamp s); [by destruct Hdel|done].
  - case_bool_decide; [apply uninstall_guarded|by apply spec_ret].
Qed.

(** What [HandleSecret] does once the Secret is gone. *)
Definition unregistered (out : outcome) (tr : list pevent) : Prop :=
  each unregisters tr ∧
  ((∃ l mp r, tr = l ++ [Ev (PackageDelete mp) r] ∧ registered l mp ∧ out = Returns r) ∨
   ((∀ mp r, Ev (PackageDelete mp) r ∉ tr) ∧
    ∃ e, answered (GetMiddlewarePackage (s_name s)) tr (Err e) ∧ out = Returns (if is_not_found e then None else Some e))).

Lemma unregistered_spec :
  spec unregisters (HandleSecret apiReader DataNamespace ControllerReference sha256_hex s HandleActionDelete) []
    (λ tr out, each unregisters tr → unregistered out tr).
Proof.
  unfold HandleSecret. set (p := GetMiddlewarePackage (s_name s)).
  assert (Hp : spec unregisters p [] (λ tr r, (∀ mp, r = Ok mp → registered tr mp) ∧ each (λ _ e, plain e) tr ∧ answered p tr r)).
  { eapply spec_mono; [apply spec_holds; [apply spec_holds|]|].
    - apply GetMiddlewarePackage_registered. intros l [R c a]. by destruct c.
    - apply (only_GetMiddlewarePackage (s_name s) (λ _ e, plain e)); [done|apply each_nil].
    - apply answered_here.
    - by intros tr r _ [[? ?] ?]. }
  eapply spec_bind; [exact Hp|]. intros tr [mp|e] _ (Hr & Hpl & Ha).
  - eapply (spec_bind _ _ _ (λ tr' r, tr' = tr ++ [Ev (PackageDelete mp) r])).
    { apply spec_call; [|done]. intros r. by apply Hr. }
    intros tr' r _ ->. apply spec_ret. intros Hall. split; [done|]. left. exists tr, mp, r. split_and!; [done|by apply Hr|done].
  - assert (Hret : spec unregisters (Ret (Returns (if is_not_found e then None else Some e))) tr
      (λ tr out, each unregisters tr → unregistered out tr)).
    { apply spec_ret. intros Hall. split; [done|]. right. split; [|by exists e].
      intros mp r (l & l' & ->)%list_elem_of_split. by destruct (Hpl l (Ev (PackageDelete mp) r) l'). }
    by destruct (is_not_found e).
Qed.

(** C17: While its Secret is there, a package's catalog objects, as its content
    was read, are deleted only when no Middleware and no operator carries the
    package's label, or to make room for an installation that the Secret asks
    for: those of the packages listed as enabled for the component, and of the
    installed package itself when it is rolled back.  Its MiddlewarePackage
    goes, and the Secret's finalizer is taken, only while the Secret is being
    deleted, the package is unused and every object of every kind was deleted
    or found gone; and the Secret becomes enabled only after every object of
    the package was created or found, unless the copy this pass works on was
    enabled already.  Once the Secret is gone nothing is checked: the
    MiddlewarePackage of its name, if there is one, is deleted whether or not
    the package is used, and nothing else is touched. *)
Theorem package_removal_guarded act {W} (h : handler pcall W) w :
  let '(out, tr) := run h (HandleSecret apiReader DataNamespace ControllerReference sha256_hex s act) w in
  match act with HandleActionDelete => unregistered out tr | _ => each guarded tr end.
Proof.
  assert (Hwith : act ≠ HandleActionDelete →
    spec guarded (HandleSecret apiReader DataNamespace ControllerReference sha256_hex s act) [] (λ _ _, True)).
  { intros Hact. unfold HandleSecret. eapply spec_bind; [apply GetMiddlewarePackage_registered, plain_guarded|].
    intros tr [mp|e] _ Hr; [|destruct (is_not_found e); [|by apply spec_ret]];
      (destruct act; [apply handle_present_guarded..|done]); intros p [= <-]; auto. }
  destruct act; [specialize (Hwith ltac:(done)); apply (spec_run_pair _ h w) in Hwith as [Hall _]; by destruct (run _ _ _)..|].
  pose proof (spec_run_pair _ h w _ unregistered_spec) as [Hall Hd]. destruct (run _ _ _). by apply Hd.
Qed.
End Guard.

(** C32: Publishing a package creates the objects of its four kinds in order
    and counts those that exist as published.  When it succeeds, every object
    is there and nothing was deleted.  When it fails, the objects of the kinds
    before the failing one are deleted, the later kinds first, also those that
    had existed before; of the failing kind only configurations are, as many
    as were deployed. *)
Theorem publish_rolls_back ControllerReference b ob ab cf pkg mp {W} (h : handler pcall W) w :
  let '(err, tr) := run h (publish ControllerReference b ob ab cf pkg mp) w in published b ob ab cf [] tr err.
Proof.
  pose proof (spec_run_pair _ h w _ (publish_rollback_spec (λ _ _, True) (λ _ _ _, I) ControllerReference b ob ab cf pkg mp [] (λ _ _ _ _ _, I))) as [_ Hp].
  destruct (run _ _ _). exact Hp.
Qed.

(** ** Runs at concrete inputs *)

Section Demo.
Definition demo_mp : middleware_package :=
  MiddlewarePackage "redis-1" "uid-p" 1 ∅ ∅ (MiddlewarePackageSpec "redis" "1.0" "" "" "" [] [] [] []) (CatalogStatus 0 [] "").
Definition invalid (o : catalog_object) : option error := Some (Error Invalid ("invalid " +:+ co_name o)).

(** The Secret [s], its package [mp], the names that exist, and what creating
    an object answers. *)
Definition install_server (s : secret) (mp : result error middleware_package) (existing : list string)
    (create : catalog_object → option error) : handler pcall unit := λ R c w,
  match c in pcall R return R * unit with
  | SecretGet _ _ | SecretReaderGet _ _ => (Ok s, w)
  | SecretList _ _ _ => (Ok [s], w)
  | PackageGet _ | PackageReaderGet _ => (mp, w)
  | CatalogGet k name => ((if bool_decide (name ∈ existing) then Ok (demo_zero k) else Err (Error NotFound "")), w)
  | CatalogCreate o => (create o, w)
  | c => demo_cluster None None None _ c w
  end.

Definition package_secret (deleting : option Z) (labels annotations : gmap string string) : secret :=
  Secret "redis-1" "default" "41" deleting (<[LabelProject := ProjectOpenSaola]> labels) annotations
    [FinalizerPackageSecret] {[Release := "data"]}.

Definition demo_handle (s : secret) (mp : result error middleware_package) (create : catalog_object → option error) :
    outcome * list pevent :=
  run (install_server s mp [] create)
    (@HandleSecret (bounded_retry is_conflict 4) (demo_format demo_files) list_order util_by_list true "default"
       (λ _ _, None) (λ x, x) s HandleActionPublish) tt.

Definition op_patch (e : pevent) : option secret :=
  match e with Ev c _ => match c with SecretPatch _ to => Some to | _ => None end end.
Definition patches (tr : list pevent) : list secret := omap op_patch tr.
Definition names (os : list catalog_object) : list string := co_name <$> os.

(** An unused package whose Secret is deleted: both objects go, then the
    finalizer.  A Secret that is gone: the MiddlewarePackage goes, used or not. *)
Lemma package_removal_guarded_witness :
  let deleted := package_secret (Some 3%Z) ∅ ∅ in
  let r := demo_handle deleted (Ok demo_mp) (λ _, None) in
  let unregistering := run (install_server deleted (Ok demo_mp) [] (λ _, None))
    (@HandleSecret (bounded_retry is_conflict 4) (demo_format demo_files) list_order util_by_list true "default"
       (λ _ _, None) (λ x, x) deleted HandleActionDelete) tt in
  names (deletes r.2) = ["redis"; "redis-operator-v2"] ∧
  s_finalizers <$> patches r.2 = [[]] ∧
  Ev (PackageDelete demo_mp) None ∈ unregistering.2 ∧
  each (@guarded (demo_format demo_files) list_order true "default" deleted) r.2 ∧
  @unregistered (bounded_retry is_conflict 4) deleted unregistering.1 unregistering.2.
Proof.
  cbv zeta. split_and!; [reflexivity..|right; right; by left| |].
  - exact (@package_removal_guarded (bounded_retry is_conflict 4) (demo_format demo_files) list_order util_by_list true "default"
      (λ _ _, None) (λ x, x) (package_secret (Some 3%Z) ∅ ∅) HandleActionPublish unit
      (install_server (package_secret (Some 3%Z) ∅ ∅) (Ok demo_mp) [] (λ _, None)) tt).
  - exact (@package_removal_guarded (bounded_retry is_conflict 4) (demo_format demo_files) list_order util_by_list true "default"
      (λ _ _, None) (λ x, x) (package_secret (Some 3%Z) ∅ ∅) HandleActionDelete unit
      (install_server (package_secret (Some 3%Z) ∅ ∅) (Ok demo_mp) [] (λ _, None)) tt).
Defined.

(** Without its MiddlewarePackage the Secret keeps its finalizer, and the
    controller asks to be called again after two seconds, every time. *)
Lemma orphan_secret_keeps_finalizer :
  let r := demo_handle (package_secret (Some 3%Z) ∅ ∅) (Err (Error NotFound "not found")) (λ _, None) in
  patches r.2 = [] ∧
  match r.1 with Returns err => middlewarePackageSecretErrorResult err = (CtrlResult false 2, None) | Panics => False end.
Proof. cbv zeta. split; reflexivity. Qed.

(** A package that is enabled and asked to be installed again: its objects are
    deleted, the installation fails for good, and the stale copy of the labels
    marks it enabled. *)
Lemma failed_reinstall_stays_enabled :
  let s := package_secret None {[LabelEnabled := "true"; LabelComponent := "redis"]} {[LabelInstall := "true"]} in
  let r := demo_handle s (Ok demo_mp) invalid in
  names (deletes r.2) = ["redis"; "redis-operator-v2"] ∧
  (λ to, ((s_labels to).[LabelEnabled], (s_annotations to).[AnnotationInstallError])) <$> patches r.2 =
    [("", ""); ("true", "invalid redis")].
Proof. cbv zeta. split; reflexivity. Qed.

(** The first operator baseline was created and stays; the baseline existed
    before and goes. *)
Lemma rollback_misses_and_overshoots :
  let o k name := CatalogObject name 1 ∅ ∅ None (co_spec (demo_zero k)) (CatalogStatus 0 [] "") in
  let create o := if String.eqb (co_name o) "bad" then invalid o else None in
  let r := run (install_server (package_secret None ∅ ∅) (Ok demo_mp) ["old"] create)
    (publish (λ _ _, None) [o KBaseline "old"] [o KOperatorBaseline "new"; o KOperatorBaseline "bad"] [] []
       (demo_package []) demo_mp) tt in
  is_Some r.1 ∧ names (deletes r.2) = ["old"].
Proof. cbv zeta. split; [by eexists|reflexivity]. Qed.

(** A file at the top of the archive whose name starts like a directory. *)
Lemma top_level_file_panics :
  @package_object list_order (package_secret None ∅ ∅) (demo_package [("baselines.md", "")]) = None.
Proof. reflexivity. Qed.

(** As the cache strips the data of Secrets, neither the digest nor a change
    of the content is ever seen. *)
Lemma stripped_data_is_invisible sha256_hex s old new :
  s_data s = ∅ → s_data old = ∅ → s_data new = ∅ →
  packageReleaseDigest sha256_hex s = "" ∧
  (secret_updated old new = true ↔ isOpenSaolaSecret new = true ∧
     ((s_deletionTimestamp old = None ↔ s_deletionTimestamp new ≠ None) ∨
      s_annotations old !! LabelInstall ≠ s_annotations new !! LabelInstall ∨
      s_annotations old !! LabelUnInstall ≠ s_annotations new !! LabelUnInstall)).
Proof.
  intros Hs Hold Hnew. split; [unfold packageReleaseDigest; by rewrite Hs|].
  unfold secret_updated, annotationChanged. rewrite Hold, Hnew. rewrite (bool_decide_false (∅ ≠ ∅)) by naive_solver.
  rewrite andb_true_iff, !orb_true_iff, !bool_decide_eq_true, negb_true_iff, eqb_false_iff.
  destruct (s_deletionTimestamp old), (s_deletionTimestamp new); simpl; naive_solver.
Qed.

(** What is recorded of a failure has at most 1024 bytes. *)
Lemma truncateBytes_length s max : 0 < max → String.length (truncateBytes s max) ≤ max.
Proof.
  intros Hmax. unfold truncateBytes. destruct max as [|max]; [lia|]. simpl.
  destruct (Nat.leb_spec (String.length s) (S max)); [lia|].
  assert (Hsub : ∀ n t, String.length (String.substring 0 n t) ≤ n).
  { induction n as [|n IH]; intros [|a t]; simpl; try lia. specialize (IH t). lia. }
  apply Hsub.
Qed.
End Demo.
