(* ===== verification/CatalogCheck.v ===== *)
(** * Checking catalog objects

    The [Check] functions of [internal/service/middlewarebaseline],
    [middlewareoperatorbaseline], [middlewareactionbaseline] and
    [middlewareconfiguration], and the four controllers that call them: a new
    generation of a catalog object is validated and its state published. *)
From Stdlib Require Import ZArith Lia.
From stdpp Require Import base gmap strings list option pretty.
From S2P Require Import Prelude GoStrings Labels Conditions Prog Json Middleware MiddlewareController StatusRule Catalog Packages.

Section Check.
Context `{!RetryOnConflict pcall error is_conflict, !MetaConditions, !CelEngine}.
Context (statusAPIReader : bool) (now : Z).
Implicit Types (o : catalog_object).

(** The condition is marked in the object's slice. *)
Definition to_check o : option (list condition * nat) :=
  let '(cs, p) := GetCondition now (cs_conditions (co_status o)) CondTypeChecked in
  match p ≫= (cs !!.) with
  | Some c => if negb (String.eqb (c_status c) ConditionTrue) || (c_observedGeneration c <? co_generation o)%Z
              then Some (cs, default 0 p) else None
  | None => None   (** not returned by [GetCondition] *)
  end.

(** What is wrong ([None]: nothing), and the state to publish. *)
Definition conclude o (cs : list condition) (i : nat) (wrong : option string) (state : string) : catalog_object :=
  with_status (CatalogStatus (cs_observedGeneration (co_status o))
    (alter (match wrong with Some msg => Failed now msg (co_generation o) | None => Success now (co_generation o) end) i cs) state) o.

Definition wrapped (what : string) (p : pprog (option error)) : pprog (option error) :=
  err ← p; Ret (option_map (wrap_error what) err).

(** [Check], internal/service/middlewarebaseline/middlewarebaseline.go *)
Definition Check_baseline o : pprog (option error) :=
  match to_check o with
  | None => Ret None
  | Some (cs, i) => wrapped "failed to update middlewareBaseline status"
      (UpdateMiddlewareBaselineStatus statusAPIReader (conclude o cs i None StateAvailable))
  end.

(** [Check], internal/service/middlewareconfiguration/middlewareconfiguration.go *)
Definition Check_configuration o : pprog (option error) :=
  match to_check o with
  | None => Ret None
  | Some (cs, i) => wrapped "failed to update MiddlewareConfiguration status"
      (UpdateMiddlewareConfigurationStatus statusAPIReader (conclude o cs i None StateAvailable))
  end.

Definition rules_error_text (rules : list string) (e : rules_error) : string :=
  match e with
  | TooManyRules => "too many rules: got " +:+ pretty (length rules) +:+ ", maximum is 32"
  | RuleError index msg => "statusRules[" +:+ pretty index +:+ "]: " +:+ msg
  | BaselineError msg => msg
  end.

(** [Check], internal/service/middlewareoperatorbaseline/middlewareoperatorbaseline.go:53-63 *)
Fixpoint check_gvks (index : nat) (GVKs : list declared_gvk) (programs : program_cache) : list string * program_cache :=
  match GVKs with
  | [] => ([], programs)
  | g :: GVKs =>
      let named := if String.eqb (dg_name g) "" then ["name must not be empty"] else [] in
      let complete := if String.eqb (gvk_group (dg_gvk g)) "" || String.eqb (gvk_version (dg_gvk g)) "" ||
                         String.eqb (gvk_kind (dg_gvk g)) "" then ["GVK must not be empty"] else [] in
      let '(err, programs) := Validate (dg_statusRules g) programs in
      let ruled := match err with
                   | Some e => ["gvks[" +:+ pretty index +:+ "] status rules: " +:+ rules_error_text (dg_statusRules g) e]
                   | None => []
                   end in
      let '(errs, programs) := check_gvks (S index) GVKs programs in
      (named ++ complete ++ ruled ++ errs, programs)
  end.

(** An empty list is reported but keeps the state. *)
Definition verdict o (empty : string) (items : nat) (errs : list string) : option string * string :=
  if (items =? 0)%nat then (Some empty, cs_state (co_status o))
  else match errs with
       | [] => (None, StateAvailable)
       | _ => (Some (join ";" errs), StateUnavailable)
       end.

(** The program cache is returned. *)
(** [Check], internal/service/middlewareoperatorbaseline/middlewareoperatorbaseline.go *)
Definition Check_operator_baseline o (programs : program_cache) : pprog (option error * program_cache) :=
  match to_check o with
  | None => Ret (None, programs)
  | Some (cs, i) =>
      let GVKs := match co_spec o with MiddlewareOperatorBaselineSpec g _ => g | _ => [] end in
      let '(errs, programs) := check_gvks 0 GVKs programs in
      let '(wrong, state) := verdict o "gvks must not be empty" (length GVKs) errs in
      err ← wrapped "failed to update middlewareOperatorBaseline status"
              (UpdateMiddlewareOperatorBaselineStatus statusAPIReader (conclude o cs i wrong state));
      Ret (err, programs)
  end.

(** [checkStep], internal/service/middlewareactionbaseline/middlewareactionbaseline.go *)
Definition checkStep (step : action_step) : option string :=
  if String.eqb (st_name step) "" then Some "name must not be empty" else None.

(** [Check], internal/service/middlewareactionbaseline/middlewareactionbaseline.go *)
Definition Check_action_baseline o : pprog (option error) :=
  match to_check o with
  | None => Ret None
  | Some (cs, i) =>
      let Steps := match co_spec o with MiddlewareActionBaselineSpec _ s _ => s | _ => [] end in
      let errs := omap (λ step, option_map (λ msg, st_name step +:+ " validation failed: " +:+ msg) (checkStep step)) Steps in
      let '(wrong, state) := verdict o "steps must not be empty" (length Steps) errs in
      wrapped "failed to update MiddlewareActionBaseline status" (UpdateMiddlewareActionBaselineStatus (conclude o cs i wrong state))
  end.

(** ** The controllers *)

Definition check_named (k : catalog_kind) (check : catalog_object → pprog (option error)) (name : string) :
    pprog (ctrl_result * option error) :=
  r ← call (CatalogGet k name);
  match r with
  | Err e => Ret (done_result, if is_not_found e then None else Some e)
  | Ok o => err ← check o; Ret (done_result, err)
  end.

(** [Reconcile], internal/controller/middlewarebaseline_controller.go *)
Definition Reconcile_baseline := check_named KBaseline Check_baseline.
(** [Reconcile], internal/controller/middlewareconfiguration_controller.go *)
Definition Reconcile_configuration := check_named KConfiguration Check_configuration.
(** [Reconcile], internal/controller/middlewareactionbaseline_controller.go *)
Definition Reconcile_action_baseline := check_named KActionBaseline Check_action_baseline.
(** [Reconcile], internal/controller/middlewareoperatorbaseline_controller.go *)
Definition Reconcile_operator_baseline (programs : program_cache) :=
  check_named KOperatorBaseline (λ o, r ← Check_operator_baseline o programs; Ret r.1).
End Check.

(** ** Proofs *)

Section Proofs.
Context `{!RetryOnConflict pcall error is_conflict, !MetaConditions, !CelEngine}.
Context (statusAPIReader : bool) (now : Z).
Implicit Types (o : catalog_object).

(** The [Check] of an object's kind. *)
Definition Check_catalog o (programs : program_cache) : pprog (option error) :=
  match kind_of o with
  | KBaseline => Check_baseline statusAPIReader now o
  | KConfiguration => Check_configuration statusAPIReader now o
  | KActionBaseline => Check_action_baseline now o
  | KOperatorBaseline => r ← Check_operator_baseline statusAPIReader now o programs; Ret r.1
  end.

Definition valid_gvk (g : declared_gvk) : Prop :=
  dg_name g ≠ "" ∧ gvk_group (dg_gvk g) ≠ "" ∧ gvk_version (dg_gvk g) ≠ "" ∧ gvk_kind (dg_gvk g) ≠ "" ∧
  length (dg_statusRules g) ≤ maxRulesPerGVK ∧ Forall (λ rule, is_ok (compile_fresh rule)) (dg_statusRules g).

(** What the object declares, and what is valid. *)
Definition declares_nothing o : Prop :=
  match co_spec o with
  | MiddlewareOperatorBaselineSpec GVKs _ => GVKs = []
  | MiddlewareActionBaselineSpec _ Steps _ => Steps = []
  | _ => False
  end.
Definition valid_object o : Prop :=
  match co_spec o with
  | MiddlewareOperatorBaselineSpec GVKs _ => GVKs ≠ [] ∧ Forall valid_gvk GVKs
  | MiddlewareActionBaselineSpec _ Steps _ => Steps ≠ [] ∧ Forall (λ step, st_name step ≠ "") Steps
  | _ => True
  end.

Lemma Validate_spec rules c : cache_ok c →
  ((Validate rules c).1 = None ↔ length rules ≤ maxRulesPerGVK ∧ Forall (λ rule, is_ok (compile_fresh rule)) rules) ∧
  cache_ok (Validate rules c).2.
Proof.
  intros Hc. unfold Validate. destruct (Nat.ltb_spec maxRulesPerGVK (length rules)); [split; [split; [done|lia]|done]|].
  destruct (validate_all_spec 0 rules c Hc) as [Hs ?]. split; [|done].
  destruct (validate_all 0 rules c).1 as [e|] eqn:E.
  - split; [done|]. intros [_ Hall]. by apply Hs in Hall; [|by eexists].
  - split; [|done]. intros _. split; [lia|]. destruct (decide (Forall (λ rule, is_ok (compile_fresh rule)) rules)) as [|Hn]; [done|].
    apply Hs in Hn as [? [=]].
Qed.

Lemma eqb_empty x : String.eqb x "" = true ↔ x = "".
Proof. apply String.eqb_eq. Qed.

Lemma check_gvks_spec i GVKs c : cache_ok c →
  ((check_gvks i GVKs c).1 = [] ↔ Forall valid_gvk GVKs) ∧ cache_ok (check_gvks i GVKs c).2.
Proof.
  revert i c. induction GVKs as [|g GVKs IH]; intros i c Hc; [done|]. simpl.
  destruct (Validate_spec (dg_statusRules g) c Hc) as [Hv Hc']. destruct (Validate (dg_statusRules g) c) as [err c1]. simpl in *.
  destruct (IH (S i) c1 Hc') as [Hs Hc'']. destruct (check_gvks (S i) GVKs c1) as [errs c2]. simpl in *.
  split; [|done]. rewrite !app_nil, Hs, list.Forall_cons. unfold valid_gvk.
  assert (Hn : (if String.eqb (dg_name g) "" then ["name must not be empty"] else []) = [] ↔ dg_name g ≠ "")
    by (destruct (String.eqb_spec (dg_name g) ""); naive_solver).
  assert (Hg : (if String.eqb (gvk_group (dg_gvk g)) "" || String.eqb (gvk_version (dg_gvk g)) "" ||
                   String.eqb (gvk_kind (dg_gvk g)) "" then ["GVK must not be empty"] else []) = [] ↔
          gvk_group (dg_gvk g) ≠ "" ∧ gvk_version (dg_gvk g) ≠ "" ∧ gvk_kind (dg_gvk g) ≠ "").
  { destruct (String.eqb_spec (gvk_group (dg_gvk g)) ""), (String.eqb_spec (gvk_version (dg_gvk g)) ""),
      (String.eqb_spec (gvk_kind (dg_gvk g)) ""); simpl; naive_solver. }
  assert (Hr : match err with
                | Some e => ["gvks[" +:+ pretty i +:+ "] status rules: " +:+ rules_error_text (dg_statusRules g) e]
                | None => []
                end = [] ↔ length (dg_statusRules g) ≤ maxRulesPerGVK ∧ Forall (λ rule, is_ok (compile_fresh rule)) (dg_statusRules g)).
  { rewrite <- Hv. by destruct err. }
  rewrite Hn, Hg, Hr. tauto.
Qed.

(** What is published of an object. *)
Definition published_verdict o (_ : list pevent) (e : pevent) : Prop :=
  match e with
  | Ev c _ => match c with
    | CatalogStatusUpdate new =>
        let st := co_status new in
        (∃ i c, FindStatusCondition (cs_conditions st) CondTypeChecked = Some i ∧ cs_conditions st !! i = Some c ∧
           c_observedGeneration c = co_generation o ∧ (c_status c = ConditionTrue ↔ valid_object o)) ∧
        filter (λ c, c_type c ≠ CondTypeChecked) (cs_conditions st) =
          filter (λ c, c_type c ≠ CondTypeChecked) (cs_conditions (co_status o)) ∧
        cs_observedGeneration st = co_generation o ∧
        (valid_object o → cs_state st = StateAvailable) ∧
        (declares_nothing o → cs_state st = cs_state (co_status o)) ∧
        (¬ valid_object o → ¬ declares_nothing o → cs_state st = StateUnavailable)
    | _ => True
    end
  end.

(** Checked at this generation or a later one. *)
Definition up_to_date o : Prop :=
  ∃ i c, FindStatusCondition (cs_conditions (co_status o)) CondTypeChecked = Some i ∧ cs_conditions (co_status o) !! i = Some c ∧
    c_status c = ConditionTrue ∧ (co_generation o ≤ c_observedGeneration c)%Z.

Definition right_verdict o (wrong : option string) (state : string) : Prop :=
  (wrong = None ↔ valid_object o) ∧ (valid_object o → state = StateAvailable) ∧
  (declares_nothing o → state = cs_state (co_status o)) ∧
  (¬ valid_object o → ¬ declares_nothing o → state = StateUnavailable).

Context (Hnow : now ≠ 0%Z).

Lemma to_check_spec o :
  match to_check now o with
  | None => up_to_date o
  | Some (cs, i) => ∃ c, FindStatusCondition cs CondTypeChecked = Some i ∧ cs !! i = Some c ∧ c_type c = CondTypeChecked ∧
      filter (λ c, c_type c ≠ CondTypeChecked) cs = filter (λ c, c_type c ≠ CondTypeChecked) (cs_conditions (co_status o))
  end.
Proof.
  unfold to_check. destruct (GetCondition_spec now (cs_conditions (co_status o)) CondTypeChecked Hnow)
    as (cs & i & c & -> & Hi & Ht & Hf & Hfilter & Hcase). simpl. rewrite Hi.
  destruct (negb (String.eqb (c_status c) ConditionTrue) || (c_observedGeneration c <? co_generation o)%Z) eqn:E; [by exists c|].
  apply orb_false_iff in E as [E1%negb_false_iff%String.eqb_eq E2%Z.ltb_ge].
  destruct Hcase as [[Hf' ->]|[_ ->]]; [by exists i, c|done].
Qed.

Lemma conclude_published o cs i wrong state current l r :
  to_check now o = Some (cs, i) → right_verdict o wrong state →
  let new := with_status (CatalogStatus (co_generation o) (cs_conditions (co_status (conclude now o cs i wrong state)))
                            (cs_state (co_status (conclude now o cs i wrong state)))) current in
  published_verdict o l (Ev (CatalogStatusUpdate new) r).
Proof.
  intros Hcheck (Hwrong & Hvalid & Hempty & Hinvalid). pose proof (to_check_spec o) as Hspec. rewrite Hcheck in Hspec.
  destruct Hspec as (c & Hf & Hi & Ht & Hfilter). simpl.
  set (f := match wrong with Some msg => Failed now msg (co_generation o) | None => Success now (co_generation o) end).
  assert (Halter : alter f i cs = <[i := f c]> cs).
  { apply list_eq. intros j. destruct (decide (i = j)) as [<-|].
    - rewrite list_lookup_alter_eq, Hi, list_lookup_insert_eq by (by eapply lookup_lt_Some). done.
    - by rewrite list_lookup_alter_ne, list_lookup_insert_ne by done. }
  assert (Hft : c_type (f c) = CondTypeChecked) by (unfold f; by destruct wrong).
  rewrite Halter. split_and!; try done.
  - exists i, (f c). split_and!; [by apply find_update|apply list_lookup_insert_eq; by eapply lookup_lt_Some| |].
    + unfold f. by destruct wrong.
    + rewrite <- Hwrong. unfold f. by destruct wrong.
  - rewrite <- Hfilter. by apply filter_insert_type with (c := c).
Qed.

(** An update of the status that ends without an error was made. *)
Definition was_published (tr : list pevent) (err : option error) : Prop :=
  err = None → ∃ new, Ev (CatalogStatusUpdate new) None ∈ tr.

Lemma check_published reader what what' o cs i wrong state tr :
  to_check now o = Some (cs, i) → right_verdict o wrong state →
  spec (published_verdict o) (wrapped what' (update_catalog_status reader what (conclude now o cs i wrong state))) tr was_published.
Proof.
  intros Hcheck Hright. unfold wrapped, update_catalog_status.
  assert (Hpub : ∀ current l r, published_verdict o l (Ev (CatalogStatusUpdate
    (with_status (CatalogStatus (co_generation o) (cs_conditions (co_status (conclude now o cs i wrong state)))
       (cs_state (co_status (conclude now o cs i wrong state)))) current)) r)) by (intros; by apply conclude_published).
  eapply (spec_bind _ _ _ was_published); [|intros tr' err _ Hp; apply spec_ret; by destruct err].
  eapply (spec_bind _ _ _ (λ tr' r, was_published tr' r.1)); [|intros; by apply spec_ret].
  apply (spec_retry _ _ _ (λ _ _, True)); [|done]. intros attempt l _.
  eapply (spec_bind _ _ _ (λ _ _, True)); [destruct (_ && _); by apply spec_call|].
  intros l1 [current|e] _ _; [|apply spec_ret; simpl; auto; done].
  eapply (spec_bind _ _ _ (λ tr' r, Ev (CatalogStatusUpdate (with_status (CatalogStatus (co_generation o)
    (cs_conditions (co_status (conclude now o cs i wrong state))) (cs_state (co_status (conclude now o cs i wrong state)))) current)) r ∈ tr')).
  { apply spec_call; [intros; apply Hpub|]. intros r. apply elem_of_app. right. by apply elem_of_cons; left. }
  intros l2 [e|] _ Hin; apply spec_ret; simpl; (split; [|done]); [done|]. intros _. by eexists.
Qed.

Lemma verdict_right o empty items errs :
  (valid_object o ↔ items ≠ 0 ∧ errs = []) → (items = 0 ↔ declares_nothing o) →
  right_verdict o (verdict o empty items errs).1 (verdict o empty items errs).2.
Proof.
  intros Hv Hd. unfold right_verdict, verdict. destruct (Nat.eqb_spec items 0) as [Hz|Hz]; [|destruct errs]; simpl; naive_solver.
Qed.

Lemma steps_valid Steps :
  omap (λ step, option_map (λ msg, st_name step +:+ " validation failed: " +:+ msg) (checkStep step)) Steps = [] ↔
  Forall (λ step, st_name step ≠ "") Steps.
Proof.
  induction Steps as [|step Steps IH]; [done|]. rewrite list.Forall_cons, <- IH. simpl. unfold checkStep.
  destruct (String.eqb_spec (st_name step) ""); simpl; naive_solver.
Qed.

(** A catalog object of any kind that was not checked at its generation is
    checked and the verdict published: the Checked condition of that
    generation is true exactly if the object is valid (an operator baseline
    declares resources with a name, a full kind and rules that compile; an
    action baseline has steps, all with a name), the other conditions stay,
    and the state is Available or Unavailable accordingly, except that an
    object that declares nothing keeps its state. *)
Theorem catalog_verdict_published o programs {W} (h : handler pcall W) w :
  cache_ok programs →
  let '(err, tr) := run h (Check_catalog o programs) w in
  each (published_verdict o) tr ∧ (err = None → up_to_date o ∨ ∃ new, Ev (CatalogStatusUpdate new) None ∈ tr).
Proof.
  intros Hc. pose proof (spec_run_pair (D := published_verdict o) (Check_catalog o programs) h w
    (λ tr err, err = None → up_to_date o ∨ ∃ new, Ev (CatalogStatusUpdate new) None ∈ tr)) as Hrun.
  destruct (run h (Check_catalog o programs) w) as [err tr]. apply Hrun. clear Hrun.
  pose proof (to_check_spec o) as Hto. unfold Check_catalog, kind_of,
    Check_baseline, Check_operator_baseline, Check_action_baseline, Check_configuration.
  destruct (co_spec o) as [rest|GVKs rest|type Steps rest|Template] eqn:Hspec;
    destruct (to_check now o) as [[cs i]|] eqn:Hcheck; try (apply spec_ret; by left).
  - eapply spec_mono; [apply check_published; [done|]|intros tr' err' _ Hp Hn; right; by apply Hp].
    unfold right_verdict, valid_object, declares_nothing. rewrite Hspec. naive_solver.
  - destruct (check_gvks_spec 0 GVKs programs Hc) as [Hgvks _]. destruct (check_gvks 0 GVKs programs) as [errs c2]. simpl in Hgvks.
    pose proof (verdict_right o "gvks must not be empty" (length GVKs) errs) as Hright.
    destruct (verdict o "gvks must not be empty" (length GVKs) errs) as [wrong state].
    cbv beta iota zeta. eapply spec_bind; [|intros tr' r _ Hp; apply spec_ret; exact Hp].
    eapply (spec_bind _ _ _ was_published); [|intros tr' err' _ Hp; apply spec_ret; intros Hn; right; by apply Hp].
    apply check_published; [done|]. apply Hright; unfold valid_object, declares_nothing; rewrite Hspec, ?Hgvks, length_zero_iff_nil; naive_solver.
  - pose proof (verdict_right o "steps must not be empty" (length Steps)
      (omap (λ step, option_map (λ msg, st_name step +:+ " validation failed: " +:+ msg) (checkStep step)) Steps)) as Hright.
    destruct (verdict _ _ _ _) as [wrong state].
    eapply spec_mono; [apply check_published; [done|]|intros tr' err' _ Hp Hn; right; by apply Hp].
    apply Hright; unfold valid_object, declares_nothing; rewrite Hspec, ?steps_valid, length_zero_iff_nil; naive_solver.
  - eapply spec_mono; [apply check_published; [done|]|intros tr' err' _ Hp Hn; right; by apply Hp].
    unfold right_verdict, valid_object, declares_nothing. rewrite Hspec. naive_solver.
Qed.
End Proofs.

(** ** Runs at concrete inputs *)

Section Demo.
Definition accepted : CelEngine := Build_CelEngine unit (λ _, Ok tt) (λ _ _ _, Err "no engine") (λ _, None) (λ s, s).
Definition operator_object (GVKs : list declared_gvk) : catalog_object :=
  CatalogObject "redis-operator" 2 ∅ ∅ None (MiddlewareOperatorBaselineSpec GVKs JNull)
    (CatalogStatus 1 [Condition CondTypeChecked ConditionTrue 1 5 "" ""] StateAvailable).
Definition demo_gvk (kind : string) : declared_gvk := DeclaredGVK "redis" (GVK "redis.io" "v1" kind) [].
Definition demo_check (o : catalog_object) : option error * list pevent :=
  run (demo_cluster None (Some o) None)
    (@Check_catalog (bounded_retry is_conflict 4) meta_by_list accepted true 9 o ∅) tt.
Definition op_status (e : pevent) : option (string * string) :=
  match e with
  | Ev c _ => match c with
    | CatalogStatusUpdate new =>
        Some (match list.head (cs_conditions (co_status new)) with Some c => c_status c | None => "" end, cs_state (co_status new))
    | _ => None
    end
  end.
Definition statuses (tr : list pevent) : list (string * string) := omap op_status tr.

Lemma catalog_verdict_published_witness :
  statuses (demo_check (operator_object [demo_gvk "Redis"])).2 = [(ConditionTrue, StateAvailable)] ∧
  statuses (demo_check (operator_object [demo_gvk ""])).2 = [(ConditionFalse, StateUnavailable)] ∧
  each (@published_verdict meta_by_list accepted (operator_object [demo_gvk ""])) (demo_check (operator_object [demo_gvk ""])).2.
Proof.
  split; [reflexivity|]. split; [reflexivity|].
  pose proof (@catalog_verdict_published (bounded_retry is_conflict 4) meta_by_list accepted true 9 ltac:(done)
    (operator_object [demo_gvk ""]) ∅ unit (demo_cluster None (Some (operator_object [demo_gvk ""])) None) tt (@cache_ok_empty accepted)) as Hthm.
  unfold demo_check. destruct (run _ _ _) as [err tr]. exact (proj1 Hthm).
Defined.

(** A new generation that declares nothing fails the check and stays Available. *)
Lemma empty_baseline_stays_available :
  statuses (demo_check (operator_object [])).2 = [(ConditionFalse, StateAvailable)].
Proof. reflexivity. Qed.
End Demo.
