(* ===== verification/MiddlewareRender.v ===== *)
(** * Rendering a Middleware with its baseline

    [internal/service/middleware/middleware.go]: the merge of a Middleware with
    its baseline, the check of the required parameters and the rendering of
    parameters, pre-actions, configurations and metadata; the values that
    templates see ([pkg/tools/template.go]); and the calls of this package's
    programs ([MiddlewareUpgrade], [MiddlewareApply]).

    A raw extension is its bytes, up to the formatting of JSON.  A value that
    does not decode leaves its target as it was. *)
From Stdlib Require Import ZArith Lia.
From stdpp Require Import base gmap strings list option pretty.
From S2P Require Import Prelude GoStrings YamlTemplates Labels Conditions Prog Diagnostic Middleware Json Adoption JsonTools Catalog Packages.

(** ** What the programs of the package call

    Calls of the API server on Middlewares ([Mid]), of the catalog and of
    packages ([Pack]), and of the components that handle children. *)
Inductive acall : Type → Type :=
  | Mid {R} (c : mcall R) : acall R
  | Pack {R} (c : pcall R) : acall R
  | Capabilities : acall json   (** what discovery answers, or nothing *)
  | HandlePreActions (m : middleware) : acall (option error * middleware)
  | RenderPreActions (m : middleware) : acall (option error * middleware)
  | ReconcileConfigurations (m : middleware) (a : action) (rendered : list catalog_object)
      (previous : list rendered_resource) : acall (result error (list rendered_resource))
  | DeleteConfigurations (m : middleware) : acall (option error)
  | ReadPausePrimary (g : gvk) (ns name : string) : acall (result error unstructured)
  | PreparePauseSnapshot (m : middleware) (live : unstructured) : acall (result error pause_status)
  | LoadPauseSnapshot (m : middleware) (snapshot : pause_status) :
      acall (result error (gmap string json * option reconcile_overrides))   (** the actual spec and the previous overrides *)
  | AdoptObservedSpec (before after desired : unstructured) : acall (result error unstructured)
  | SetControllerReference (m : middleware) (cr : unstructured) : acall (result error unstructured)
  | WriteManaged (m : middleware) (cr : unstructured) : acall (option error)
  | EnsureCRWatcher (cr : unstructured) (name ns : string) : acall (option error)
  | ReleaseCRWatcher (cr : unstructured) : acall unit
  | StartSync (cr : unstructured) (m : middleware) : acall unit   (** [go SyncCustomResourceV2] *)
  | StopSync (cr : unstructured) : acall unit
  | CliDelete (cr : unstructured) : acall (option error)
  | CliUpdateObject (cr : unstructured) : acall (option error).
Abbreviation aprog := (prog acall).
Abbreviation aevent := (event acall).

(** Programs of the client and of the catalog as part of these. *)
Definition mid {A} (p : mprog A) : aprog A := interp (λ R c, call (Mid c)) p.
Definition pack {A} (p : pprog A) : aprog A := interp (λ R c, call (Pack c)) p.

(** ** Programs that change the caller's object and may fail

    The object is returned as it is when the function returns, whether with an
    error or not. *)
Definition objM (A : Type) : Type := middleware → aprog (result error A * middleware).
#[export] Instance objM_ret : MRet objM := λ A a m, Ret (Ok a, m).
#[export] Instance objM_bind : MBind objM := λ A B f p m,
  r ← p m; match r with (Ok a, m) => f a m | (Err e, m) => Ret (Err e, m) end.

Definition get : objM middleware := λ m, Ret (Ok m, m).
Definition modify (f : middleware → middleware) : objM unit := λ m, Ret (Ok tt, f m).
Definition lift {A} (p : aprog (result error A)) : objM A := λ m, r ← p; Ret (r, m).
Definition check {A} (r : result error A) : objM A := λ m, Ret (r, m).
Definition failed {A} (e : error) : objM A := check (Err e).
(** A step on the error of which [fmt.Errorf("...: %w")] wraps. *)
Definition wrapped {A} (msg : string) (p : objM A) : objM A := λ m,
  r ← p m; Ret (match r.1 with Ok a => Ok a | Err e => Err (wrap_error msg e) end, r.2).
Definition done (r : result error unit * middleware) : option error * middleware :=
  (match r.1 with Ok _ => None | Err e => Some e end, r.2).

(** ** Libraries

    [sigs.k8s.io/yaml] goes through JSON. *)
Class YamlLib := {
  YamlMarshal : json → string;
  YAMLToJSON : string → result error json;
  yaml_roundtrip j : YAMLToJSON (YamlMarshal j) = Ok j;
}.

(** The codec of [metav1.ObjectMeta]. *)
Class MetaCodec := {
  EncodeMeta : middleware → json;
  DecodeMeta : json → middleware → result error middleware;
  decode_encode_meta m : DecodeMeta (EncodeMeta m) m = Ok m;
  decode_meta_rest j m m' : DecodeMeta j m = Ok m' → m_spec m' = m_spec m ∧ m_status m' = m_status m;
}.

(** ** Encoding and decoding *)

Section Codecs.
Context `{!JsonLib}.

(** [RawExtension]: absent bytes are [null], and decoding [null] changes nothing. *)
Definition raw_json (raw : string) : option json := if String.eqb raw "" then Some JNull else Unmarshal raw.
Definition decode_raw (j : json) (current : string) : string := match j with JNull => current | _ => Marshal j end.

Definition omit_empty (k s : string) (m : gmap string json) : gmap string json :=
  if String.eqb s "" then m else <[k := JStr s]> m.
Definition omit_false (k : string) (b : bool) (m : gmap string json) : gmap string json :=
  if b then <[k := JBool true]> m else m.

Definition decode_string (v : option json) (current : string) : option string :=
  match v with None | Some JNull => Some current | Some (JStr s) => Some s | _ => None end.
Definition decode_bool (v : option json) (current : bool) : option bool :=
  match v with None | Some JNull => Some current | Some (JBool b) => Some b | _ => None end.
Definition decode_raw_field (v : option json) (current : string) : string :=
  match v with None => current | Some j => decode_raw j current end.

(** [Configuration], api/v1/common.go *)
Definition configuration_json (c : configuration_ref) : option json :=
  values ← raw_json (cf_values c); Some (JObj (omit_empty "name" (cf_name c) {["values" := values]})).
(** [Configuration], api/v1/common.go *)
Definition decode_configuration (j : json) (c : configuration_ref) : option configuration_ref :=
  match j with
  | JNull => Some c
  | JObj m => name ← decode_string (m !! "name") (cf_name c);
              Some (Configuration name (decode_raw_field (m !! "values") (cf_values c)))
  | _ => None
  end.

(** [PreAction], api/v1/common.go *)
Definition pre_action_json (p : pre_action) : option json :=
  parameters ← raw_json (pa_parameters p);
  Some (JObj (omit_empty "name" (pa_name p) (omit_false "fixed" (pa_fixed p)
    (omit_false "exposed" (pa_exposed p) {["parameters" := parameters]})))).
(** [PreAction], api/v1/common.go *)
Definition decode_pre_action (j : json) (p : pre_action) : option pre_action :=
  match j with
  | JNull => Some p
  | JObj m =>
      name ← decode_string (m !! "name") (pa_name p);
      fixed ← decode_bool (m !! "fixed") (pa_fixed p);
      exposed ← decode_bool (m !! "exposed") (pa_exposed p);
      Some (PreAction name fixed exposed (decode_raw_field (m !! "parameters") (pa_parameters p)))
  | _ => None
  end.

(** [json.Unmarshal] into a slice decodes each element over the one that is
    there. *)
Fixpoint decode_elements {A} (decode : json → A → option A) (zero : A) (l : list json) (current : list A) : option (list A) :=
  match l with
  | [] => Some []
  | j :: l =>
      let '(x, current) := match current with x :: current => (x, current) | [] => (zero, []) end in
      y ← decode j x; rest ← decode_elements decode zero l current; Some (y :: rest)
  end.
Definition decode_slice {A} (decode : json → A → option A) (zero : A) (j : json) (current : list A) : option (list A) :=
  match j with JNull => Some [] | JArr l => decode_elements decode zero l current | _ => None end.
Definition encode_slice {A} (encode : A → option json) (l : list A) : option json :=
  match l with [] => Some JNull | _ => JArr <$> mapM encode l end.

Definition decode_configurations : json → list configuration_ref → option (list configuration_ref) :=
  decode_slice decode_configuration (Configuration "" "").
Definition decode_pre_actions : json → list pre_action → option (list pre_action) :=
  decode_slice decode_pre_action (PreAction "" false false "").

(** A map of strings; nil and empty maps merge alike. *)
Definition decode_strings (j : json) (m : gmap string string) : option (gmap string string) :=
  match j with
  | JNull => Some ∅
  | JObj o => new ← map_fold (λ k v (acc : option (gmap string string)),
                acc ← acc; s ← decode_string (Some v) ""; Some (<[k := s]> acc)) (Some ∅) o;
              Some (new ∪ m)
  | _ => None
  end.

(** [tools.StructMerge] of typed values: the new value afterwards. *)
Definition merge_into {A} (encode : A → option json) (decode : json → A → option A) (typo : StructMergeType) (old new : A) :
    result error A :=
  match encode old, encode new with
  | None, _ => Err (new_error "failed to marshal old object")
  | _, None => Err (new_error "failed to marshal new object")
  | Some oldJson, Some newJson =>
      match StructMerge oldJson newJson typo with
      | Untouched => Ok new
      | Decode j => match decode j new with Some x => Ok x | None => Err (new_error "cannot unmarshal") end
      | MergeFails msg => Err (new_error msg)
      | MergePanics => Err (new_error "panic")   (** not of typed values: [configurations_merge] *)
      end
  end.

Definition merge_raw : string → string → result error string :=
  merge_into raw_json (λ j s, Some (decode_raw j s)) StructMergeMapType.
Definition merge_configurations : list configuration_ref → list configuration_ref → result error (list configuration_ref) :=
  merge_into (encode_slice configuration_json) decode_configurations StructMergeArrayType.
Definition merge_pre_action : pre_action → pre_action → result error pre_action :=
  merge_into pre_action_json decode_pre_action StructMergeMapType.
Definition merge_labels : gmap string string → gmap string string → result error (gmap string string) :=
  merge_into (λ m, Some (strings_json m)) decode_strings StructMergeMapType.
End Codecs.

(** ** Required parameters *)

(** [NecessaryIgnore], internal/service/middleware/middleware.go *)
Definition NecessaryIgnore : list string := ["repository"].

(** [fmt.Sprintf("%T")] of a decoded value. *)
Definition go_type (v : json) : string :=
  match v with
  | JNull => "<nil>" | JBool _ => "bool" | JNum _ => "float64" | JStr _ => "string"
  | JArr _ => "[]interface {}" | JObj _ => "map[string]interface {}"
  end.

(** A missing field: its path, what was expected and what is there. *)
Definition missing_field : Type := string * string * string.

Section Missing.
Context `{!MapOrder}.

(** The loop over the keys, given what is missing of each key's value. *)
(** [missingNecessaryFieldPath], internal/service/middleware/middleware.go:109-144 *)
Fixpoint first_missing (required : list (string * (option json → string → option missing_field)))
    (actual : gmap string json) (prefix : string) : option missing_field :=
  match required with
  | [] => None
  | (key, missing) :: required =>
      if existsb (String.eqb key) NecessaryIgnore then first_missing required actual prefix
      else match missing (actual !! key) (prefix +:+ "." +:+ key) with
           | Some field => Some field
           | None => first_missing required actual prefix
           end
  end.

(** [missingNecessaryFieldPath], internal/service/middleware/middleware.go:122-141 *)
Fixpoint missing_value (requiredValue : json) (actual : option json) (path : string) : option missing_field :=
  match actual with
  | None => Some (path, "present", "missing")
  | Some actualNested =>
      match requiredValue with
      | JObj requiredMap =>
          match actualNested with
          | JObj actualMap => first_missing (visit (missing_value <$> requiredMap)) actualMap path
          | _ => Some (path, "object", go_type actualNested)
          end
      | _ => None
      end
  end.

(** [missingNecessaryFieldPath], internal/service/middleware/middleware.go *)
Definition missingNecessaryFieldPath (required actual : gmap string json) (prefix : string) : option missing_field :=
  first_missing (visit (missing_value <$> required)) actual prefix.
End Missing.

(** ** Template values *)

(** What templates are rendered for. *)
(** [Quoter], pkg/tools/template.go *)
Record quoter := Quoter {
  q_name : string; q_namespace : string; q_labels : gmap string string; q_annotations : gmap string string;
  q_unified : string; q_middlewareName : string;
}.

(** The getters of a Middleware. *)
(** [GetUnified], api/v1/middleware_types.go:245-259 *)
Definition middleware_quoter (m : middleware) : quoter :=
  Quoter (m_name m) (m_namespace m) (m_labels m) (m_annotations m) (sp_necessary (m_spec m)) (m_name m).

(** [GetNecessaryGlobe], pkg/tools/template.go *)
Definition GetNecessaryGlobe (q : quoter) : gmap string json :=
  {["Name" := JStr (q_name q); "Namespace" := JStr (q_namespace q); "Labels" := strings_json (q_labels q);
    "Annotations" := strings_json (q_annotations q); "PackageName" := JStr ((q_labels q).[LabelPackageName]);
    "MiddlewareName" := JStr (q_middlewareName q)]}.

(** A unified value that is [null] would leave a nil map, and the assignments to
    it panic; such a value is never decoded into a raw extension. *)
(** [GetTemplateValues], pkg/tools/template.go *)
Definition GetTemplateValues `{!JsonLib} (step : gmap string json) (q : quoter) : aprog (result error template_values) :=
  unified ←? pure (if String.eqb (q_unified q) "" then Ok (∅, ∅) else
    match Unmarshal (q_unified q) with
    | Some (JObj u) => Ok (u, u)
    | Some JNull => Err (new_error "panic: assignment to entry in nil map")
    | _ => Err (new_error "unmarshal globe error")
    end);
  capabilities ← call Capabilities;
  Ret (Ok (TemplateValues ∅ (unified.1 ∪ GetNecessaryGlobe q) unified.2 step capabilities ∅)).

(** ** Rendering *)

Section Render.
Context `{!JsonLib, !YamlLib, !MetaCodec, !PackageFormat, !MapOrder}.
Context (apiReader : bool) (DataNamespace : string) (step : gmap string json).

Definition set_template_spec (configurations : list configuration_ref) (parameters : string) (preActions : list pre_action)
    (m : middleware) : middleware :=
  let sp := m_spec m in
  set_spec (MiddlewareSpec (sp_operatorBaseline sp) (sp_baseline sp) (sp_necessary sp) preActions parameters
    (sp_reconcileOverrides sp) configurations) m.
Definition set_parameters (p : string) (m : middleware) : middleware :=
  set_template_spec (sp_configurations (m_spec m)) p (sp_preActions (m_spec m)) m.
Definition set_configurations (c : list configuration_ref) (m : middleware) : middleware :=
  set_template_spec c (sp_parameters (m_spec m)) (sp_preActions (m_spec m)) m.
Definition set_preActions (p : list pre_action) (m : middleware) : middleware :=
  set_template_spec (sp_configurations (m_spec m)) (sp_parameters (m_spec m)) p m.

Definition spec_of_baseline (o : catalog_object) : baseline_spec :=
  match co_spec o with
  | MiddlewareBaselineSpec s => s
  | _ => BaselineSpec (OperatorBaseline "" "") (GVK "" "" "") "" [] "" []
  end.

(** [middlewarebaseline.Get] for a Middleware. *)
Definition baseline_of (m : middleware) : aprog (result error catalog_object) :=
  pack (Get_baseline apiReader DataNamespace (sp_baseline (m_spec m)) ((m_labels m).[LabelPackageName])).

(** The baseline's pre-actions, those not fixed merged with the first of the
    resource of the same name. *)
(** [renderMiddlewareWithBaseline], internal/service/middleware/middleware.go:345-358 *)
Fixpoint merge_preActions (baseline : list pre_action) (preActions : list pre_action) : result error (list pre_action) :=
  match baseline with
  | [] => Ok []
  | baselinePre :: baseline =>
      merged ← (if pa_fixed baselinePre then Ok baselinePre
                else match list_find (λ pre, pa_name pre = pa_name baselinePre) preActions with
                     | Some (_, pre) => merge_pre_action baselinePre pre
                     | None => Ok baselinePre
                     end);
      rest ← merge_preActions baseline preActions; Ok (merged :: rest)
  end.

(** [renderMiddlewareWithBaseline], internal/service/middleware/middleware.go:325-360 *)
Definition merge_baseline (baseline : catalog_object) : objM unit :=
  let bs := spec_of_baseline baseline in
  let merging {A} (r : result error A) : objM A := wrapped "struct merge error" (check r) in
  m ← get; p ← merging (merge_raw (bs_parameters bs) (sp_parameters (m_spec m))); _ ← modify (set_parameters p);
  m ← get; c ← merging (merge_configurations (bs_configurations bs) (sp_configurations (m_spec m))); _ ← modify (set_configurations c);
  m ← get; l ← merging (merge_labels (co_labels baseline) (m_labels m)); _ ← modify (set_labels l);
  m ← get; a ← merging (merge_labels (co_annotations baseline) (m_annotations m)); _ ← modify (set_annotations a);
  m ← get; p ← merging (merge_preActions (bs_preActions bs) (sp_preActions (m_spec m))); modify (set_preActions p).

(** [renderMiddlewareWithBaseline], internal/service/middleware/middleware.go:364-384 *)
Definition necessary_map (raw : string) : result error (gmap string json) :=
  match raw_json raw with
  | Some (JObj m) => Ok m
  | Some JNull => Ok ∅
  | Some _ => Err (new_error "unmarshal necessary error")
  | None => Err (new_error "marshal necessary error")
  end.

(** [middlewareObjectRef], internal/service/middleware/middleware.go *)
Definition middlewareObjectRef (m : option middleware) : object_ref :=
  match m with
  | None => ObjectRef "middleware.cn/v1" "Middleware" "" ""
  | Some m => ObjectRef "middleware.cn/v1" "Middleware" (m_namespace m) (m_name m)
  end.

(** [missingNecessaryDiagnostic], internal/service/middleware/middleware.go *)
Definition missingNecessaryDiagnostic (m : middleware) (baselineName : string) (field : missing_field) : error :=
  let '(fieldPath, expected, actual) := field in
  diagnostic_error
    (Diagnostic PhaseConfigValidation "middleware" (middlewareObjectRef (Some m)) no_object no_object fieldPath expected actual
       (m_generation m) (ms_observedGeneration (m_status m))
       ("set " +:+ fieldPath +:+ " on Middleware " +:+ m_namespace m +:+ "/" +:+ m_name m +:+
        " or provide a default in MiddlewareBaseline " +:+ (m_labels m).[LabelPackageName] +:+ "/" +:+ baselineName +:+
        " spec.necessary"))
    (Some (new_error ("required parameter missing: " +:+ fieldPath))).

(** [renderMiddlewareWithBaseline], internal/service/middleware/middleware.go:363-388 *)
Definition check_necessary (baseline : catalog_object) : objM unit :=
  m ← get;
  necessaryMap ← check (necessary_map (sp_necessary (m_spec m)));
  necessaryBaselineMap ← check (necessary_map (bs_necessary (spec_of_baseline baseline)));
  match missingNecessaryFieldPath necessaryBaselineMap necessaryMap "spec.necessary" with
  | Some field => failed (missingNecessaryDiagnostic m (co_name baseline) field)
  | None => mret tt
  end.

Definition encoded (j : option json) : objM json :=
  check (match j with Some j => Ok j | None => Err (new_error "cannot marshal") end).
Definition decoded {A} (a : option A) : objM A :=
  check (match a with Some a => Ok a | None => Err (new_error "cannot unmarshal") end).
Definition parse (text : string) (tv : template_values) : objM string :=
  wrapped "template parse error" (lift (call (Pack (TemplateParse text tv)))).

(** [renderMiddlewareWithBaseline], internal/service/middleware/middleware.go:390-417 *)
Definition render_parameters (tv : template_values) : objM string :=
  m ← get;
  j ← encoded (raw_json (sp_parameters (m_spec m)));
  parametersParse ← parse (ProcessYAMLGoTemp (YamlMarshal j)) tv;
  j ← wrapped "unmarshal mid error" (check (YAMLToJSON parametersParse));
  _ ← modify (λ m, set_parameters (decode_raw j (sp_parameters (m_spec m))) m);
  mret parametersParse.

(** [renderMiddlewareWithBaseline], internal/service/middleware/middleware.go:419-433 *)
Definition render_preActions (tv : template_values) : objM unit :=
  m ← get;
  j ← wrapped "marshal pre actions error" (encoded (encode_slice pre_action_json (sp_preActions (m_spec m))));
  text ← parse (YamlMarshal j) tv;
  j ← wrapped "unmarshal pre actions error" (check (YAMLToJSON text));
  p ← wrapped "unmarshal pre actions error" (decoded (decode_pre_actions j (sp_preActions (m_spec m))));
  modify (set_preActions p).

(** The values of the parameters as the configurations see them. *)
(** [renderMiddlewareWithBaseline], internal/service/middleware/middleware.go:444-449 *)
Definition parsed_parameters (text : string) : result error (gmap string json) :=
  j ← YAMLToJSON text;
  match j with JObj m => Ok m | JNull => Ok ∅ | _ => Err (new_error "cannot unmarshal parameters") end.

(** [renderMiddlewareWithBaseline], internal/service/middleware/middleware.go:436-460 *)
Definition render_configurations (parametersParse : string) (tv : template_values) : objM template_values :=
  m ← get;
  j ← encoded (encode_slice configuration_json (sp_configurations (m_spec m)));
  parameters ← check (parsed_parameters parametersParse);
  let tv := with_parameters parameters tv in
  text ← parse (ProcessYAMLGoTemp (YamlMarshal j)) tv;
  j ← wrapped "unmarshal mid error" (check (YAMLToJSON text));
  c ← wrapped "unmarshal mid error" (decoded (decode_configurations j (sp_configurations (m_spec m))));
  _ ← modify (set_configurations c);
  mret tv.

(** [renderMiddlewareWithBaseline], internal/service/middleware/middleware.go:463-478 *)
Definition render_metadata (tv : template_values) : objM unit :=
  m ← get;
  text ← parse (ProcessYAMLGoTemp (YamlMarshal (EncodeMeta m))) tv;
  j ← wrapped "unmarshal metadata error" (check (YAMLToJSON text));
  m' ← wrapped "unmarshal metadata error" (check (DecodeMeta j m));
  modify (λ _, m').

(** [renderMiddlewareWithBaseline], internal/service/middleware/middleware.go *)
Definition renderMiddlewareWithBaseline : objM unit :=
  m ← get;
  baseline ← wrapped "get baseline error" (lift (baseline_of m));
  _ ← merge_baseline baseline;
  _ ← check_necessary baseline;
  m ← get;
  templateValues ← wrapped "get template values error" (lift (GetTemplateValues step (middleware_quoter m)));
  parametersParse ← render_parameters templateValues;
  _ ← render_preActions templateValues;
  templateValues ← render_configurations parametersParse templateValues;
  render_metadata templateValues.
End Render.

(** ** The required parameters are complete *)

(** [actual] has what [required] has, objects within objects, whatever the
    other values are. *)
Inductive provides : json → json → Prop :=
  | provides_any v w : is_object v = false → provides v w
  | provides_object r a :
      (∀ k v, r !! k = Some v → k ∉ NecessaryIgnore → ∃ w, a !! k = Some w ∧ provides v w) → provides (JObj r) (JObj a).

(** [keys] leads to a field that is required, but absent or not an object. *)
Fixpoint lacks (keys : list string) (required actual : gmap string json) : Prop :=
  match keys with
  | [] => False
  | k :: keys =>
      k ∉ NecessaryIgnore ∧ ∃ v, required !! k = Some v ∧
        match actual !! k with
        | None => keys = []
        | Some w => match v, w with
            | JObj r, JObj a => lacks keys r a
            | JObj _, _ => keys = []
            | _, _ => False
            end
        end
  end.

Fixpoint dotted (prefix : string) (keys : list string) : string :=
  match keys with [] => prefix | k :: keys => dotted (prefix +:+ "." +:+ k) keys end.

Section MissingProofs.
Context `{!MapOrder}.

Definition ignored (k : string) : bool := existsb (String.eqb k) NecessaryIgnore.
Lemma ignored_spec k : ignored k = true ↔ k ∈ NecessaryIgnore.
Proof.
  unfold ignored. rewrite existsb_exists. split.
  - intros (k' & Hin & ->%String.eqb_eq). by apply list_elem_of_In.
  - intros Hin. exists k. by rewrite String.eqb_refl, <- list_elem_of_In.
Qed.

Definition handler_of (required : gmap string json) : list (string * (option json → string → option missing_field)) :=
  visit (missing_value <$> required).

Lemma visited required k f : (k, f) ∈ handler_of required ↔ ∃ v, required !! k = Some v ∧ f = missing_value v.
Proof.
  unfold handler_of. rewrite visit_perm, elem_of_map_to_list, lookup_fmap, fmap_Some. naive_solver.
Qed.

Lemma first_missing_none hs actual prefix :
  first_missing hs actual prefix = None ↔
  ∀ k f, (k, f) ∈ hs → k ∉ NecessaryIgnore → f (actual !! k) (prefix +:+ "." +:+ k) = None.
Proof.
  induction hs as [|[key f] hs IH]; cbn [first_missing]; [split; [intros _ k f; by rewrite elem_of_nil|done]|].
  change (existsb (String.eqb key) NecessaryIgnore) with (ignored key).
  pose proof (ignored_spec key) as Hig. destruct (ignored key).
  - rewrite IH. split; intros Hall k g; [rewrite elem_of_cons|intros; apply Hall; [apply elem_of_cons; by right|done]].
    intros [[= -> ->]|?] Hno; [by destruct Hno; apply Hig|auto].
  - assert (Hno : key ∉ NecessaryIgnore) by (intros ?%Hig; done). destruct (f _ _) as [field|] eqn:Ef.
    + split; [done|]. intros Hall. rewrite (Hall key f) in Ef; [done|apply elem_of_cons; by left|done].
    + rewrite IH. split; intros Hall k g; [rewrite elem_of_cons|intros; apply Hall; [apply elem_of_cons; by right|done]].
      intros [[= -> ->]|?] ?; auto.
Qed.

Lemma first_missing_some hs actual prefix field :
  first_missing hs actual prefix = Some field →
  ∃ k f, (k, f) ∈ hs ∧ k ∉ NecessaryIgnore ∧ f (actual !! k) (prefix +:+ "." +:+ k) = Some field.
Proof.
  induction hs as [|[key f] hs IH]; cbn [first_missing]; [done|].
  change (existsb (String.eqb key) NecessaryIgnore) with (ignored key).
  assert (Hrest : first_missing hs actual prefix = Some field →
    ∃ k f', (k, f') ∈ (key, f) :: hs ∧ k ∉ NecessaryIgnore ∧ f' (actual !! k) (prefix +:+ "." +:+ k) = Some field).
  { intros (k & g & Hin & ?)%IH. exists k, g. split; [apply elem_of_cons; by right|done]. }
  pose proof (ignored_spec key) as Hig. destruct (ignored key); [done|].
  assert (Hno : key ∉ NecessaryIgnore) by (intros ?%Hig; done). destruct (f _ _) as [field'|] eqn:Ef; [|done].
  intros [= ->]. exists key, f. split; [apply elem_of_cons; by left|done].
Qed.

Lemma missing_value_object r a path :
  missing_value (JObj r) (Some (JObj a)) path = missingNecessaryFieldPath r a path.
Proof. done. Qed.

Lemma missing_value_none v w path : missing_value v (Some w) path = None ↔ provides v w.
Proof.
  revert w path. induction v as [|b|q|s|l IH|r IH] using json_strong_ind; intros w path;
    try (split; [intros _; by apply provides_any|done]).
  destruct w as [| | | | |a]; try (split; [done|inversion 1; done]).
  rewrite missing_value_object. unfold missingNecessaryFieldPath. fold (handler_of r). rewrite first_missing_none. split.
  - intros Hall. apply provides_object. intros k v Hk Hno.
    specialize (Hall k (missing_value v)). rewrite visited in Hall. specialize (Hall (ex_intro _ v (conj Hk eq_refl)) Hno).
    destruct (a !! k) as [w|]; [|by destruct v]. exists w. split; [done|]. by eapply (IH k v Hk).
  - inversion 1 as [|? ? Hp]; subst; [done|]. intros k f (v & Hk & ->)%visited Hno.
    destruct (Hp k v Hk Hno) as (w & -> & Hw). by apply (IH k v Hk).
Qed.

Lemma missing_value_some v actual path field :
  missing_value v actual path = Some field →
  ∃ keys, field.1.1 = dotted path keys ∧
    match actual with
    | None => keys = []
    | Some w => match v, w with JObj r, JObj a => lacks keys r a | JObj _, _ => keys = [] | _, _ => False end
    end.
Proof.
  revert actual path field. induction v as [|b|q|s|l IH|r IH] using json_strong_ind; intros [w|] path field;
    try (by intros [= <-]; exists []); try done.
  destruct w as [| | | | |a]; try (by intros [= <-]; exists []).
  rewrite missing_value_object. intros (k & f & (v & Hk & ->)%visited & Hno & Hf)%first_missing_some.
  destruct (IH k v Hk _ _ _ Hf) as (keys & Hpath & Hlacks). exists (k :: keys). split; [done|].
  simpl. split; [done|]. exists v. by split.
Qed.
End MissingProofs.

(** The check of the required parameters accepts exactly the values that
    have every field the baseline requires (objects within objects, the image
    repository excepted), whatever the order in which maps are visited; and a
    field it reports is required and absent, or not an object where one is. *)
Theorem required_parameters_complete `{!MapOrder} required actual prefix :
  (missingNecessaryFieldPath required actual prefix = None ↔ provides (JObj required) (JObj actual)) ∧
  ∀ path expected found, missingNecessaryFieldPath required actual prefix = Some (path, expected, found) →
    ∃ keys, path = dotted prefix keys ∧ lacks keys required actual.
Proof.
  rewrite <- missing_value_object. split; [apply missing_value_none|].
  intros path expected found Hm. destruct (missing_value_some _ _ _ _ Hm) as (keys & Hpath & Hl). by exists keys.
Qed.

(** ** The merge with the baseline *)

Section MergeProofs.
Context `{!JsonLib}.

(** Each pre-action is the baseline's, but for its parameters and flags where
    it is not fixed and the resource has one of its name. *)
Definition from_baseline (preActions : list pre_action) (b r : pre_action) : Prop :=
  pa_name r = pa_name b ∧
  (r = b ∨ pa_fixed b = false ∧ ∃ pre, pre ∈ preActions ∧ pa_name pre = pa_name b ∧ merge_pre_action b pre = Ok r).

Lemma pre_action_name m p : pre_action_json p = Some m → ∃ o, m = JObj o ∧
  o !! "name" = if String.eqb (pa_name p) "" then None else Some (JStr (pa_name p)).
Proof.
  unfold pre_action_json. destruct (raw_json (pa_parameters p)) as [j|]; [|done]. intros [= <-]. eexists. split; [done|].
  unfold omit_empty, omit_false. destruct (String.eqb (pa_name p) ""), (pa_fixed p), (pa_exposed p); reflexivity.
Qed.

Lemma decode_pre_action_name j p r : decode_pre_action j p = Some r →
  j = JNull ∧ r = p ∨ ∃ o, j = JObj o ∧ decode_string (o !! "name") (pa_name p) = Some (pa_name r).
Proof.
  destruct j as [| | | | |o]; try done; [intros [= <-]; by left|]. simpl. intros Hd. right. exists o. split; [done|].
  destruct (decode_string (o !! "name") (pa_name p)) as [n|]; [|done]. simpl in Hd.
  destruct (decode_bool (o !! "fixed") (pa_fixed p)); [|done]. simpl in Hd.
  destruct (decode_bool (o !! "exposed") (pa_exposed p)); [|done]. by injection Hd as <-.
Qed.

Lemma merge_pre_action_name b p r : pa_name p = pa_name b → merge_pre_action b p = Ok r → pa_name r = pa_name b.
Proof.
  intros Hn. unfold merge_pre_action, merge_into. destruct (pre_action_json b) as [bj|] eqn:Eb; [|done].
  destruct (pre_action_json p) as [pj|] eqn:Ep; [|done].
  destruct (pre_action_name _ _ Eb) as (bo & -> & Hbo), (pre_action_name _ _ Ep) as (po & -> & Hpo). simpl.
  pose proof (merge_entries_spec merge_value bo po) as Hs. unfold MergeMap.
  destruct (merge_entries merge_value bo po) as [m|]; [|intros [= <-]; done]. destruct Hs as [Hl _].
  destruct (decode_pre_action (JObj m) p) as [x|] eqn:Ed; [|done]. intros [= <-].
  apply decode_pre_action_name in Ed as [[? ?]|(o & [= <-] & Hd)]; [done|]. rewrite Hl in Hd. unfold merged_at in Hd.
  rewrite Hpo, Hbo, Hn in Hd. destruct (String.eqb (pa_name b) ""); simpl in Hd; congruence.
Qed.

Lemma merge_preActions_spec baseline preActions l :
  merge_preActions baseline preActions = Ok l → Forall2 (from_baseline preActions) baseline l.
Proof.
  revert l. induction baseline as [|b baseline IH]; intros l; cbn [merge_preActions]; [intros [= <-]; constructor|].
  intros Hm. assert (∃ r rest, l = r :: rest ∧ merge_preActions baseline preActions = Ok rest ∧ from_baseline preActions b r)
    as (r & rest & -> & Hrest & Hr); [|constructor; auto].
  destruct (pa_fixed b) eqn:Ef; simpl in Hm.
  - destruct (merge_preActions baseline preActions) as [rest|]; [|done]. injection Hm as <-.
    exists b, rest. split_and!; [done|done|]. by split; [|left].
  - destruct (list_find _ preActions) as [[i pre]|] eqn:El.
    + apply list_find_Some in El as (Hi & Hn & _). destruct (merge_pre_action b pre) as [r|] eqn:Em; [|done]. simpl in Hm.
      destruct (merge_preActions baseline preActions) as [rest|]; [|done]. injection Hm as <-. exists r, rest.
      split_and!; [done|done|]. split; [by eapply merge_pre_action_name|]. right. split; [done|]. exists pre.
      split_and!; [by eapply list_elem_of_lookup_2|done|done].
    + simpl in Hm. destruct (merge_preActions baseline preActions) as [rest|]; [|done]. injection Hm as <-.
      exists b, rest. split_and!; [done|done|]. by split; [|left].
Qed.

Lemma decode_strings_json new m : decode_strings (strings_json new) m = Some (new ∪ m).
Proof.
  unfold decode_strings, strings_json. set (fold := map_fold _ _ _). assert (fold = Some new) as ->; [|done].
  enough (∃ a, fold = Some a ∧ ∀ k, (JStr <$> new) !! k = JStr <$> a !! k) as (a & -> & Ha).
  { f_equal. apply map_eq. intros k. specialize (Ha k). rewrite lookup_fmap in Ha.
    destruct (new !! k), (a !! k); simplify_eq/=; done. }
  assert (Hs : ∀ k v, (JStr <$> new) !! k = Some v → ∃ s, v = JStr s).
  { intros k v. rewrite lookup_fmap. destruct (new !! k); naive_solver. }
  revert Hs. unfold fold. generalize (JStr <$> new) as o. clear fold new.
  apply (map_fold_weak_ind (λ (acc : option (gmap string string)) (o : gmap string json),
    (∀ k v, o !! k = Some v → ∃ s, v = JStr s) → ∃ a, acc = Some a ∧ ∀ k, o !! k = JStr <$> a !! k)).
  - intros _. exists ∅. split; [done|]. intros k. by rewrite !lookup_empty.
  - intros i v o acc Hi IH Hall. destruct IH as (a & -> & Ha).
    { intros k w Hk. apply (Hall k w). rewrite lookup_insert_ne; congruence. }
    destruct (Hall i v) as [s ->]; [by rewrite lookup_insert_eq|]. simpl. exists (<[i := s]> a). split; [done|].
    intros k. destruct (decide (i = k)) as [->|Hne]; [by rewrite !lookup_insert_eq|by rewrite !lookup_insert_ne].
Qed.

Lemma merge_labels_union old new : merge_labels old new = Ok (new ∪ old).
Proof.
  unfold merge_labels, merge_into. rewrite StructMerge_strings, decode_strings_json. f_equal.
  apply map_eq. intros k. rewrite !lookup_union. by destruct (new !! k), (old !! k).
Qed.
End MergeProofs.

(** Nothing else of the object changes. *)
Definition rendered_from (m m' : middleware) : Prop :=
  m_name m' = m_name m ∧ m_namespace m' = m_namespace m ∧ m_uid m' = m_uid m ∧ m_generation m' = m_generation m ∧
  m_deletionTimestamp m' = m_deletionTimestamp m ∧ m_finalizers m' = m_finalizers m ∧ m_status m' = m_status m ∧
  sp_baseline (m_spec m') = sp_baseline (m_spec m) ∧ sp_necessary (m_spec m') = sp_necessary (m_spec m) ∧
  sp_operatorBaseline (m_spec m') = sp_operatorBaseline (m_spec m) ∧
  sp_reconcileOverrides (m_spec m') = sp_reconcileOverrides (m_spec m).

#[local] Ltac steps := cbn -[merge_labels merge_raw merge_configurations merge_preActions union].

(** C24: The merge of a Middleware with its baseline calls nothing and changes
    only labels, annotations, parameters, configurations and pre-actions.
    When it succeeds the resource's labels and annotations win over the
    baseline's, and the pre-actions are those of the baseline, in its order
    and under its names: one that is fixed is exactly the baseline's, and none
    is added. *)
Theorem baseline_merged `{!JsonLib} baseline m :
  ∃ r m', merge_baseline baseline m = Ret (r, m') ∧ rendered_from m m' ∧
    (r = Ok tt →
      m_labels m' = m_labels m ∪ co_labels baseline ∧ m_annotations m' = m_annotations m ∪ co_annotations baseline ∧
      merge_raw (bs_parameters (spec_of_baseline baseline)) (sp_parameters (m_spec m)) = Ok (sp_parameters (m_spec m')) ∧
      merge_configurations (bs_configurations (spec_of_baseline baseline)) (sp_configurations (m_spec m)) =
        Ok (sp_configurations (m_spec m')) ∧
      Forall2 (from_baseline (sp_preActions (m_spec m))) (bs_preActions (spec_of_baseline baseline)) (sp_preActions (m_spec m'))).
Proof.
  unfold merge_baseline, wrapped, check, get, modify, mbind, objM_bind.
  steps. destruct (merge_raw _ _) as [p|e] eqn:Ep; steps; [|eexists _, m; split_and!; try done; split_and!; done].
  destruct (merge_configurations _ _) as [c|e] eqn:Ec; steps; [|eexists _, _; split_and!; try done; split_and!; done].
  rewrite merge_labels_union. steps. rewrite merge_labels_union. steps.
  destruct (merge_preActions _ _) as [l|e] eqn:El; steps; [|eexists _, _; split_and!; try done; split_and!; done].
  eexists _, _. split; [done|]. split; [split_and!; done|]. intros _. steps. split_and!; try done. by apply merge_preActions_spec.
Qed.

(** A configuration without values takes those of the resource's configuration
    at its position: the merged list is decoded over the resource's own. *)
Lemma configuration_takes_neighbour `{!JsonLib} values (o : gmap string json) :
  Unmarshal values = Some (JObj o) → values ≠ "" →
  merge_configurations [Configuration "acl" ""] [Configuration "cnf" values] =
    Ok [Configuration "acl" values; Configuration "cnf" (Marshal (JObj o))].
Proof.
  intros Hu Hne. unfold merge_configurations, merge_into, encode_slice, configuration_json, raw_json. simpl.
  destruct (String.eqb_spec values ""); [done|]. rewrite Hu. reflexivity.
Qed.

(** ** Rendering only reads *)

Definition pack_read {R} (c : pcall R) : bool :=
  match c with
  | CatalogCreate _ | CatalogUpdate _ | CatalogDelete _ | CatalogStatusUpdate _ | SecretCreate _ | SecretDelete _
  | SecretPatch _ _ | PackageCreate _ | PackageUpdate _ | PackageDelete _ | PackageStatusUpdate _ => false
  | _ => true
  end.
Definition pack_reads (e : pevent) : Prop := match e with Ev c _ => Is_true (pack_read c) end.
Definition render_reads (_ : list aevent) (e : aevent) : Prop :=
  match e with Ev c r => match c with
    | Pack c => λ r, pack_reads (Ev c r)
    | Capabilities | RenderPreActions _ => λ _, True
    | _ => λ _, False
    end r end.

Section Reads.
Context `{!JsonLib, !YamlLib, !MetaCodec, !PackageFormat, !MapOrder}.
Context (apiReader : bool) (DataNamespace : string) (step : gmap string json).

Ltac reads_step :=
  match goal with
  | |- only _ (Ret _) => apply only_ret
  | |- only _ (pure _) => apply only_ret
  | |- only _ (call _) => apply only_call; intros; exact I
  | |- only _ (try _ _) => apply only_bind; [|intros [?|?]]
  | |- only _ (match ?x with _ => _ end) => destruct x
  | |- only _ (_ ≫= _) => apply only_bind; [|intros]
  end.

Lemma Get_reads name : only (λ _, pack_reads) (Get apiReader DataNamespace name).
Proof. unfold Get, read_secret, GetSecret. repeat reads_step. Qed.

Lemma get_all_reads names : only (λ _, pack_reads) (get_all apiReader DataNamespace names).
Proof. induction names as [|n names IH]; simpl; repeat (apply Get_reads || apply IH || reads_step). Qed.

Lemma lookup_reads k missing name pkgName : only (λ _, pack_reads) (lookup_catalog apiReader DataNamespace k missing name pkgName).
Proof.
  unfold lookup_catalog, from_package, GetConfigurations, get_catalog, GetMetadata, List_packages, GetSecrets.
  repeat (apply Get_reads || apply get_all_reads || reads_step).
Qed.

(** A step of rendering, on any object. *)
Definition only_reads {A} (p : objM A) : Prop := ∀ m, only render_reads (p m).

Lemma reads_bind {A B} (p : objM A) (f : A → objM B) : only_reads p → (∀ a, only_reads (f a)) → only_reads (p ≫= f).
Proof. intros Hp Hf m. apply only_bind; [apply Hp|]. intros [[a|e] m']; [apply Hf|apply only_ret]. Qed.
Lemma reads_wrapped {A} msg (p : objM A) : only_reads p → only_reads (wrapped msg p).
Proof. intros Hp m. apply only_bind; [apply Hp|]. intros. apply only_ret. Qed.
Lemma reads_lift {A} (p : aprog (result error A)) : only render_reads p → only_reads (lift p).
Proof. intros Hp m. apply only_bind; [apply Hp|]. intros. apply only_ret. Qed.
Lemma reads_ret {A} (f : middleware → result error A * middleware) : only_reads (λ m, Ret (f m)).
Proof. intros m. apply only_ret. Qed.

Lemma baseline_reads m : only render_reads (baseline_of apiReader DataNamespace m).
Proof. eapply only_embed; [apply lookup_reads|]. by intros l [R c r] l' Hr. Qed.

Lemma values_reads q : only render_reads (GetTemplateValues step q).
Proof. unfold GetTemplateValues. repeat reads_step. Qed.

Lemma render_only_reads : only_reads (renderMiddlewareWithBaseline apiReader DataNamespace step).
Proof.
  unfold renderMiddlewareWithBaseline, merge_baseline, check_necessary, render_parameters, render_preActions,
    render_configurations, render_metadata, parse, encoded, decoded.
  repeat first
    [ apply reads_bind; [|intros]
    | apply reads_wrapped
    | apply reads_lift; first [apply baseline_reads | apply values_reads | apply only_call; intros; exact I]
    | match goal with |- only_reads (match ?x with _ => _ end) => destruct x end
    | apply reads_ret ].
Qed.
End Reads.

(** ** A YAML library, for the witnesses *)

(** A code with every character on a line of its own. *)
Fixpoint spread (s : string) : string := match s with String a s => String a (String newline (spread s)) | EmptyString => "" end.
Fixpoint gather (s : string) : string := match s with String a (String _ s) => String a (gather s) | _ => "" end.
Lemma gather_spread s : gather (spread s) = s.
Proof. induction s as [|a s IH]; [done|]. exact (f_equal (String a) IH). Qed.
Definition code_yaml (j : json) : string := spread (code j).
Definition uncode_yaml (s : string) : result error json :=
  match uncode (gather s) with Some j => Ok j | None => Err (new_error "yaml") end.
Lemma uncode_yaml_code j : uncode_yaml (code_yaml j) = Ok j.
Proof. unfold uncode_yaml, code_yaml. by rewrite gather_spread, uncode_code. Qed.
Definition coded_yaml : YamlLib := Build_YamlLib code_yaml uncode_yaml uncode_yaml_code.
