(* ===== verification/MiddlewareUpgrade.v ===== *)
(** * Checking and upgrading a Middleware

    [Check] and [ReplacePackage] of [internal/service/middleware/middleware.go]:
    the switch of a Middleware to another version of its package.  The mutex
    that serialises upgrades in the process is left out; a pointer to a
    condition is its index in the slice. *)
From Stdlib Require Import ZArith Lia.
From stdpp Require Import base gmap strings list option pretty.
From S2P Require Import Prelude Labels Conditions Prog Middleware MiddlewareController Json Adoption JsonTools Catalog Packages.
From S2P Require Import MiddlewareRender.

(** ** Conditions of the caller's object *)

Section Conditions.
Context `{!MetaConditions} (now : Z).

Definition with_conditions (cs : list condition) (m : middleware) : middleware :=
  set_status (set_conditions cs (m_status m)) m.

(** The pointer to a condition, which is appended if there is none. *)
Definition point_at (t : string) (m : middleware) : middleware * option nat :=
  let '(cs, p) := GetCondition now (ms_conditions (m_status m)) t in (with_conditions cs m, p).
Definition update_at (p : option nat) (f : condition → condition) (m : middleware) : middleware :=
  match p with Some i => with_conditions (alter f i (ms_conditions (m_status m))) m | None => m end.
Definition condition_at (p : option nat) (m : middleware) : option condition := p ≫= (ms_conditions (m_status m) !!.).

(** [Success] or [Failed] through a pointer. *)
Definition report_at (p : option nat) (err : option error) (m : middleware) : middleware :=
  update_at p (match err with
    | Some e => Failed now (e_msg e) (m_generation m) | None => Success now (m_generation m) end) m.
Definition is_true (c : option condition) : bool :=
  match c with Some c => bool_decide (c_status c = ConditionTrue) | None => false end.
End Conditions.

Section Upgrade.
Context `{!MetaConditions, !RetryOnConflict mcall error is_conflict,
          !PackageFormat, !MapOrder}.
Context (reader apiReader : bool) (DataNamespace : string) (now : Z).

Abbreviation UpdateStatus m := (mid (UpdateMiddlewareStatus reader m)).

(** [Check], internal/service/middleware/middleware.go *)
Definition Check (m : middleware) : aprog (option error * middleware) :=
  let '(m, p) := point_at now CondTypeChecked m in
  let current := match condition_at p m with
    | Some c => bool_decide (c_status c = ConditionTrue) && negb (c_observedGeneration c <? m_generation m)%Z
    | None => false end in
  if current then Ret (None, m)
  else
    '(err, m) ← UpdateStatus (report_at now p None m);
    Ret (option_map (wrap_error "failed to update Middleware status") err, m).

(** [targetUpgradeBaseline], internal/service/middleware/middleware.go *)
Definition targetUpgradeBaseline (m : middleware) : string :=
  let baseline := (m_annotations m).[LabelBaseline] in
  if negb (String.eqb baseline "") then baseline else sp_baseline (m_spec m).

Definition without_update (m : middleware) : middleware := set_annotations (delete LabelUpdate (m_annotations m)) m.

(** What is returned, the variable [err] as the deferred function finds it, and
    the object. *)
Definition upgrade_end : Type := option error * option error * middleware.
Definition failing (e : error) (m : middleware) : upgrade_end := (Some e, Some e, m).
(** Returned without being assigned to [err]. *)
Definition not_ready (m : middleware) : upgrade_end := (Some (Error PackageNotReady "middleware package is not ready yet"), None, m).

(** The object switched to the package. *)
(** [ReplacePackage], internal/service/middleware/middleware.go:236-252 *)
Definition switched (m : middleware) (baseline package : string) : middleware :=
  let sp := m_spec m in
  set_annotations (delete LabelUpdate (m_annotations m))
    (set_labels (<[LabelPackageName := package]> (<[LabelPackageVersion := (m_annotations m).[LabelUpdate]]> (m_labels m)))
      (set_spec (MiddlewareSpec (sp_operatorBaseline sp) baseline (sp_necessary sp) (sp_preActions sp) (sp_parameters sp)
         (sp_reconcileOverrides sp) (sp_configurations sp)) m)).

(** From the new baseline on; [rollback] restores the object. *)
(** [ReplacePackage], internal/service/middleware/middleware.go:217-270 *)
Definition switch_package (package : string) (m : middleware) : aprog upgrade_end :=
  baseline ← pack (GetMiddlewareBaseline apiReader DataNamespace (targetUpgradeBaseline m) package);
  match baseline with
  | Err e => Ret (failing e m)
  | Ok baseline =>
      let new := switched m (co_name baseline) package in
      pkg ← pack (Get apiReader DataNamespace package);
      match pkg with
      | Ok pkg =>
          if negb (pk_enabled pkg) then Ret (not_ready m)
          else
            err ← mid (UpdateMiddleware new);
            match err with
            | Some e => Ret (failing e m)
            | None => _ ← mid (GetMiddleware (m_name new) (m_namespace new)); Ret (None, None, new)
            end
      | Err _ => Ret (not_ready m)
      end
  end.

(** The request is dropped; a failed write is only logged. *)
(** [ReplacePackage], internal/service/middleware/middleware.go:196-211 *)
Definition drop_request (live : middleware) (installErr : string) (m : middleware) : aprog upgrade_end :=
  _ ← mid (UpdateMiddleware (without_update live));
  Ret (failing (Error PackageInstallFailed installErr) (without_update m)).

(** The body of the upgrade, for a Middleware that is checked. *)
(** [ReplacePackage], internal/service/middleware/middleware.go:174-214 *)
Definition upgrade_body (live m : middleware) : aprog upgrade_end :=
  mp ← pack (ListCompatibleMiddlewarePackages
    {[LabelComponent := (m_labels m).[LabelComponent]; LabelPackageVersion := (m_annotations m).[LabelUpdate]]});
  match mp with
  | Err e => Ret (failing e m)
  | Ok [mp] =>
      status ← pack (GetInstallStatus DataNamespace (mp_name mp));
      match status with
      | Ok (true, _) => switch_package (mp_name mp) m
      | Ok (false, installErr) =>
          if negb (String.eqb installErr "") then drop_request live installErr m else Ret (not_ready m)
      | Err _ => Ret (not_ready m)
      end
  | Ok mp => Ret (failing (new_error ("failed to get new package: expected 1 package but got " +:+ pretty (length mp))) m)
  end.

(** The error of the deferred status write is assigned to a variable that is
    not returned. *)
(** [ReplacePackage], internal/service/middleware/middleware.go *)
Definition ReplacePackage (m : middleware) : aprog (option error * middleware) :=
  match m_annotations m !! LabelUpdate with
  | None => Ret (None, m)
  | Some _ =>
      live ← mid (GetMiddleware (m_name m) (m_namespace m));
      match live with
      | Err e => Ret (Some (wrap_error "failed to get Middleware" e), m)
      | Ok live =>
          match m_annotations live !! LabelUpdate with
          | None => Ret (Some (new_error "no upgrade annotation found, skipping"), m)
          | Some _ =>
              let '(m, checked) := point_at now CondTypeChecked m in
              let checked := is_true (condition_at checked m) in
              let '(m, p) := point_at now CondTypeUpdating m in
              let m := set_status (MiddlewareStatus (ms_observedGeneration (m_status m)) (ms_conditions (m_status m))
                (ms_customResources (m_status m)) StateUpdating (ms_reason (m_status m)) (ms_rendered (m_status m))
                (ms_renderedGeneration (m_status m)) (ms_reconcilePause (m_status m))) m in
              '(err, m) ← UpdateStatus m;
              match err with
              | Some e => Ret (Some e, m)
              | None =>
                  '(ret, err, m) ← (if (checked : bool) then upgrade_body live m else Ret ((None, None, m) : upgrade_end));
                  '(_, m) ← UpdateStatus (report_at now p err m);
                  Ret (ret, m)
              end
          end
      end
  end.
End Upgrade.

(** ** When a Middleware is switched, and when the request is dropped *)

(** The object an event writes, and the objects read. *)
Definition obj_write (e : aevent) : option middleware :=
  match e with Ev c _ => match c with Mid c => match c with CliUpdate m => Some m | _ => None end | _ => None end end.
Definition was_read (l : list aevent) (now : middleware) : Prop :=
  ∃ e, read_of e = Some now ∧ embedded (@Mid) e ∈ l.
(** The calls of the client among those of the whole. *)
Definition mid_event (e : aevent) : option mevent :=
  match e with Ev c r => match c in acall R return R → option mevent with Mid c => λ r, Some (Ev c r) | _ => λ _, None end r end.
Definition mid_events (l : list aevent) : list mevent := omap mid_event l.
(** The Middleware read last, and the one read first. *)
Definition latest_read (l : list aevent) : option middleware := last_read (mid_events l).
Definition earliest_read (l : list aevent) : option middleware := first_read (mid_events l).
Definition writes_nothing (_ : list aevent) (e : aevent) : Prop := obj_write e = None.

Lemma pack_writes_nothing {A} (p : pprog A) : only writes_nothing (pack p).
Proof. eapply only_embed; [apply only_any|]. by intros l [R c r] l' _. Qed.

Section ClientWrites.
Context `{!RetryOnConflict mcall error is_conflict} (reader : bool).

Lemma get_writes_nothing name ns : only writes_nothing (mid (GetMiddleware name ns)).
Proof.
  apply (only_embed _ (λ _ e, write_of e = None)); [|by intros l [R c r] l' He; destruct c].
  unfold GetMiddleware. repeat first [only_step | apply only_call; reflexivity].
Qed.

Lemma status_writes_nothing m : only writes_nothing (mid (UpdateMiddlewareStatus reader m)).
Proof.
  apply (only_embed _ (λ _ e, write_of e = None)); [|by intros l [R c r] l' He; destruct c].
  unfold UpdateMiddlewareStatus, attempt_status_update, GetMiddleware.
  repeat first [only_step | apply only_call; reflexivity].
Qed.

(** A write of [m] over what was read last. *)
Definition writes_as (m : middleware) (l : list mevent) (e : mevent) : Prop :=
  ∀ m', write_of e = Some m' → ∃ now, last_read l = Some now ∧ m' = updated m now.

Lemma UpdateMiddleware_holds m :
  holds (UpdateMiddleware m) [] (λ l err, each (writes_as m) l ∧
    (err = None → ∃ now, last_read l = Some now ∧ Ev (CliUpdate (updated m now)) None ∈ l)).
Proof.
  unfold UpdateMiddleware. apply holds_bind.
  apply (retry_holds _ _ _ (λ _ l, each (writes_as m) l)); [|apply each_nil]. intros _ tr Htr.
  assert (Hno : ∀ l e, write_of e = None → writes_as m l e) by (intros l e He m' Hm'; congruence).
  apply (holds_get _ _ _ (writes_as m)); [intros; by apply Hno|done| |].
  - intros tr1 now _ Htr1 Hlast. simpl. intros err. set (tr2 := tr1 ++ _).
    assert (each (writes_as m) tr2) by (apply each_snoc; split; [done|]; intros m' [= <-]; by exists now).
    split; [|by destruct err]. split; [done|]. simpl. intros ->. exists now. unfold tr2. rewrite last_read_snoc. simpl.
    split; [done|]. apply elem_of_app. right. by apply list_elem_of_singleton.
  - intros tr1 e _ Htr1. simpl. split; [split; [done|]|done]. by intros.
Qed.
End ClientWrites.

Lemma last_read_elem l now : last_read l = Some now → ∃ e, e ∈ l ∧ read_of e = Some now.
Proof.
  induction l as [|e l IH] using rev_ind; [done|]. rewrite last_read_snoc.
  destruct (read_of e) eqn:He; [intros [= ->]; exists e; split; [apply elem_of_app; right; by apply list_elem_of_singleton|done]|].
  intros (e' & Hin & ?)%IH. exists e'. split; [apply elem_of_app; by left|done].
Qed.

Lemma mid_events_mid (l : list mevent) : mid_events (map (embedded (@Mid)) l) = l.
Proof. induction l as [|[R c r] l IH]; [done|]. simpl. by rewrite IH. Qed.

Lemma last_read_app l l' now : last_read l' = Some now → last_read (l ++ l') = Some now.
Proof.
  induction l' as [|e l' IH] using rev_ind; [done|]. rewrite app_assoc, !last_read_snoc. destruct (read_of e); [done|apply IH].
Qed.

Lemma latest_read_app tr l now : last_read l = Some now → latest_read (tr ++ map (embedded (@Mid)) l) = Some now.
Proof. unfold latest_read, mid_events. rewrite omap_app. fold (mid_events (map (embedded (@Mid)) l)). rewrite mid_events_mid. apply last_read_app. Qed.

Lemma earliest_read_prefix l l' now : earliest_read l = Some now → l `prefix_of` l' → earliest_read l' = Some now.
Proof. intros Hl [k ->]. unfold earliest_read, mid_events in *. rewrite omap_app. by apply first_read_app. Qed.

Lemma latest_read_was l now : latest_read l = Some now → was_read l now.
Proof.
  intros (e & Hin & He)%last_read_elem. exists e. split; [done|]. apply list_elem_of_omap in Hin as ([R c r] & Hin & Hm).
  destruct c; simplify_eq/=. exact Hin.
Qed.

Section UpdateSpec.
Context `{!RetryOnConflict mcall error is_conflict} (D : list aevent → aevent → Prop).
Context (HD : ∀ l e, obj_write e = None → D l e).

Lemma UpdateMiddleware_spec m tr :
  (∀ l e now, tr `prefix_of` l → latest_read l = Some now → obj_write e = Some (updated m now) → D l e) →
  spec D (mid (UpdateMiddleware m)) tr (λ tr' err,
    err = None → ∃ now, latest_read tr' = Some now ∧ Ev (Mid (CliUpdate (updated m now))) None ∈ tr').
Proof.
  intros Hw. eapply spec_mono; [apply (spec_embed (@Mid) D (UpdateMiddleware m) tr (λ l err,
    err = None → ∃ now, last_read l = Some now ∧ Ev (CliUpdate (updated m now)) None ∈ l))|].
  - eapply holds_mono; [apply UpdateMiddleware_holds|]. intros l err [Hall Hok]. simpl in *. split; [|done].
    intros l1 e l2 ->. specialize (Hall l1 e l2 eq_refl). destruct (write_of e) as [m'|] eqn:He.
    + destruct (Hall m' He) as (now & Hlast & ->). apply (Hw _ _ now); [by apply prefix_app_r|by apply latest_read_app|].
      destruct e as [R c r]. by destruct c.
    + apply HD. destruct e as [R c r]. by destruct c.
  - intros tr' err _ (l & -> & Hok) Herr. destruct (Hok Herr) as (now & Hlast & Hin). exists now.
    split; [by apply latest_read_app|]. apply elem_of_app. right. apply list_elem_of_In, in_map_iff.
    exists (Ev (CliUpdate (updated m now)) None). by rewrite <- list_elem_of_In.
Qed.

Lemma quiet_spec {A} (p : aprog A) tr : only writes_nothing p → spec D p tr (λ _ _, True).
Proof. intros Hp. eapply only_spec; [exact Hp|]. intros l e _ He. by apply HD. Qed.
End UpdateSpec.

Section Proofs.
Context `{!MetaConditions, !RetryOnConflict mcall error is_conflict,
          !PackageFormat, !MapOrder}.
Context (reader apiReader : bool) (DataNamespace : string) (now : Z).
Implicit Types (m live : middleware) (l tr : list aevent).

Definition package_labels_of m : gmap string string :=
  {[LabelComponent := (m_labels m).[LabelComponent]; LabelPackageVersion := (m_annotations m).[LabelUpdate]]}.

(** The one package of the requested version, and its Secret as it was read. *)
Definition target_package m l (package : string) (s : secret) : Prop :=
  ∃ items mp, Ev (Pack (PackageList CompatibleProjects (package_labels_of m))) (Ok items) ∈ l ∧
    SelectPreferredMiddlewarePackages items = [mp] ∧ mp_name mp = package ∧
    Ev (Pack (SecretGet package DataNamespace)) (Ok s) ∈ l.

(** The baseline of the request in the package, and the package, both as they
    were read; the package is enabled. *)
Definition target_found m l (package base : string) : Prop :=
  (∃ b, answered (pack (GetMiddlewareBaseline apiReader DataNamespace (targetUpgradeBaseline m) package)) l (Ok b) ∧ base = co_name b) ∧
  (∃ pkg, answered (pack (Get apiReader DataNamespace package)) l (Ok pkg) ∧ pk_enabled pkg = true).

Definition switching m l (m' : middleware) : Prop :=
  ∃ package s base latest, target_package m l package s ∧ (s_labels s).[LabelEnabled] = "true" ∧ target_found m l package base ∧
    latest_read l = Some latest ∧ m' = updated (switched m base package) latest.

Definition dropping m l (m' : middleware) : Prop :=
  ∃ package s live latest, target_package m l package s ∧ (s_labels s).[LabelEnabled] ≠ "true" ∧
    (s_annotations s).[AnnotationInstallError] ≠ "" ∧ earliest_read l = Some live ∧ latest_read l = Some latest ∧
    m' = updated (without_update live) latest.

Definition upgrade_justified m l (e : aevent) : Prop :=
  ∀ m', obj_write e = Some m' → switching m l m' ∨ dropping m l m'.

(** Another status only. *)
Definition like m m' : Prop := m' = set_status (m_status m') m.

(** What the caller's object becomes. *)
Definition kept m m' : Prop :=
  m_spec m' = m_spec m ∧ m_labels m' = m_labels m ∧
  (m_annotations m' = m_annotations m ∨ m_annotations m' = delete LabelUpdate (m_annotations m)).
Definition upgraded m tr m' : Prop :=
  ∃ package s base latest, target_package m tr package s ∧ (s_labels s).[LabelEnabled] = "true" ∧ target_found m tr package base ∧
    Ev (Mid (CliUpdate (updated (switched m base package) latest))) None ∈ tr ∧ like (switched m base package) m'.

Lemma no_object_write_justified m l e : obj_write e = None → upgrade_justified m l e.
Proof. intros He m' Hm'. congruence. Qed.
#[local] Hint Resolve no_object_write_justified : core.

Lemma like_refl m : like m m.
Proof. by destruct m. Qed.
Lemma like_with m m' st : like m m' → like m (set_status st m').
Proof. intros ->. by destruct m. Qed.
Lemma like_kept m m' : like m m' → kept m m'.
Proof. intros ->. destruct m. split_and!; auto. Qed.
Lemma middleware_like_switched m m' base package : like m m' → like (switched m base package) (switched m' base package).
Proof. intros ->. by destruct m. Qed.
Lemma like_target m m' : like m m' → targetUpgradeBaseline m' = targetUpgradeBaseline m.
Proof. intros ->. by destruct m. Qed.
Lemma updated_like m m' latest : like m m' → updated m' latest = updated m latest.
Proof. intros ->. by destruct m. Qed.

Lemma target_package_prefix m l l' package s : target_package m l package s → l `prefix_of` l' → target_package m l' package s.
Proof.
  intros (items & mp & Hl & Hs & Hn & Hr) Hpre. exists items, mp. split_and!; [by eapply elem_of_prefix|done|done|by eapply elem_of_prefix].
Qed.

Lemma target_found_prefix m l l' package base : target_found m l package base → l `prefix_of` l' → target_found m l' package base.
Proof.
  intros [(b & Hb & ->) (pkg & Hpkg & ?)] Hpre. split; [exists b|exists pkg]; (split; [by eapply answered_prefix|done]).
Qed.

(** *** The steps *)

Definition upgrade_outcome m tr (r : upgrade_end) : Prop :=
  match r.1.1 with Some _ => kept m r.2 | None => upgraded m tr r.2 end.

Lemma middleware_switch_spec m m' tr package s :
  like m m' → target_package m tr package s → (s_labels s).[LabelEnabled] = "true" →
  spec (upgrade_justified m) (switch_package apiReader DataNamespace package m') tr (upgrade_outcome m).
Proof.
  intros Hlike Htarget Hen. unfold switch_package. rewrite (like_target _ _ Hlike).
  eapply spec_bind; [apply spec_holds; [apply quiet_spec; [auto|apply pack_writes_nothing]|apply answered_here]|].
  intros tr1 [baseline|e] Hpre1 [_ Hbase]; [|apply spec_ret; by apply like_kept]. cbv zeta.
  eapply spec_bind; [apply spec_holds; [apply quiet_spec; [auto|apply pack_writes_nothing]|apply answered_here]|].
  intros tr2 [pkg|e] Hpre2 [_ Hpkg]; [|apply spec_ret; by apply like_kept].
  destruct (pk_enabled pkg) eqn:Henabled; cbn [negb]; [|apply spec_ret; by apply like_kept].
  assert (Hfound : target_found m tr2 package (co_name baseline)).
  { split; [exists baseline; split; [by eapply answered_prefix|done]|by exists pkg]. }
  assert (Hlike' := middleware_like_switched m m' (co_name baseline) package Hlike).
  assert (Htarget2 : target_package m tr2 package s) by (eapply target_package_prefix; [done|by etrans]).
  eapply spec_bind.
  { apply UpdateMiddleware_spec; [auto|]. intros l e latest Hpre Hread Hw m'' Hm''. left.
    rewrite Hm'' in Hw. injection Hw as ->. exists package, s, (co_name baseline), latest.
    split_and!; [by eapply target_package_prefix|done|by eapply target_found_prefix|done|by apply updated_like]. }
  intros tr3 [e|] Hpre3 Hok; [apply spec_ret; by apply like_kept|]. destruct (Hok eq_refl) as (latest & _ & Hin).
  rewrite (updated_like _ _ latest Hlike') in Hin.
  eapply spec_bind; [apply quiet_spec; [auto|apply get_writes_nothing]|]. intros tr4 r Hpre4 _. apply spec_ret.
  exists package, s, (co_name baseline), latest.
  split_and!; [eapply target_package_prefix; [done|by etrans]|done|eapply target_found_prefix; [done|by etrans]|by eapply elem_of_prefix|done].
Qed.

Lemma give_up_spec m m' live tr package s :
  like m m' → target_package m tr package s → (s_labels s).[LabelEnabled] ≠ "true" →
  (s_annotations s).[AnnotationInstallError] ≠ "" → earliest_read tr = Some live →
  spec (upgrade_justified m) (drop_request live ((s_annotations s).[AnnotationInstallError]) m') tr (upgrade_outcome m).
Proof.
  intros Hlike Htarget Hno Herr Hlive. unfold drop_request. eapply spec_bind.
  { apply UpdateMiddleware_spec; [auto|]. intros l e latest Hpre Hread Hw m'' Hm''. right.
    rewrite Hm'' in Hw. injection Hw as ->. exists package, s, live, latest.
    split_and!; [by eapply target_package_prefix|done|done|by eapply earliest_read_prefix|done|done]. }
  intros tr1 r _ _. apply spec_ret. unfold upgrade_outcome, failing. simpl. rewrite Hlike. destruct m. split_and!; auto.
Qed.

Lemma middleware_upgrade_body_spec m m' live tr :
  like m m' → earliest_read tr = Some live →
  spec (upgrade_justified m) (upgrade_body apiReader DataNamespace live m') tr (upgrade_outcome m).
Proof.
  intros Hlike Hlive. unfold upgrade_body.
  assert (m_labels m' = m_labels m ∧ m_annotations m' = m_annotations m) as [-> ->] by (rewrite Hlike; by destruct m).
  fold (package_labels_of m).
  apply (spec_bind _ _ _ (λ tr' r, ∀ mp, r = Ok [mp] → ∃ items,
    Ev (Pack (PackageList CompatibleProjects (package_labels_of m))) (Ok items) ∈ tr' ∧ SelectPreferredMiddlewarePackages items = [mp])).
  { apply (spec_bind _ _ _ (λ tr' r, Ev (Pack (PackageList CompatibleProjects (package_labels_of m))) r ∈ tr'));
      [apply spec_call; [auto|intros; apply elem_of_app; right; by left]|].
    intros tr' [items|e] _ Hin; apply spec_ret; [|done]. intros mp [= Heq]. eauto. }
  intros tr1 [[|mp [|]]|e] Hpre1 Hlist; try (apply spec_ret; by apply like_kept).
  destruct (Hlist mp eq_refl) as (items & Hitems & Hsel).
  apply (spec_bind _ _ _ (λ tr' r, ∀ en ie, r = Ok (en, ie) → ∃ s, Ev (Pack (SecretGet (mp_name mp) DataNamespace)) (Ok s) ∈ tr' ∧
    en = String.eqb ((s_labels s).[LabelEnabled]) "true" ∧ ie = (s_annotations s).[AnnotationInstallError])).
  { apply (spec_bind _ _ _ (λ tr' r, Ev (Pack (SecretGet (mp_name mp) DataNamespace)) r ∈ tr'));
      [apply spec_call; [auto|intros; apply elem_of_app; right; by left]|].
    intros tr' [s|e] _ Hin; [|by apply spec_ret].
    apply (spec_bind _ _ _ (λ _ _, True)); [by apply spec_call; [auto|]|]. intros tr'' [] Hpre'' _. apply spec_ret.
    intros en ie [= <- <-]. exists s. split; [by eapply elem_of_prefix|done]. }
  intros tr2 [[en ie]|e] Hpre2 Hst; [|apply spec_ret; by apply like_kept].
  destruct (Hst en ie eq_refl) as (s & Hs & Hen & Hie).
  assert (Htarget : target_package m tr2 (mp_name mp) s).
  { exists items, mp. split_and!; [by eapply elem_of_prefix|done|done|done]. }
  destruct (String.eqb_spec ((s_labels s).[LabelEnabled]) "true") as [Ht|Ht]; subst en.
  - by eapply middleware_switch_spec.
  - destruct (String.eqb_spec ie ""); [apply spec_ret; by apply like_kept|]. cbn [negb]. subst ie.
    apply (give_up_spec m m' live tr2 (mp_name mp)); try done. eapply earliest_read_prefix; [done|by etrans].
Qed.

Definition checked m : bool := let '(m, p) := point_at now CondTypeChecked m in is_true (condition_at p m).

Definition upgrade_result m tr (r : option error * middleware) : Prop :=
  match m_annotations m !! LabelUpdate with
  | None => r = (None, m) ∧ tr = []
  | Some _ =>
      match r.1 with
      | Some _ => kept m r.2
      | None => upgraded m tr r.2 ∨ checked m = false ∧ kept m r.2
      end
  end.

Lemma like_point t m m' : like m m' → like m (point_at now t m').1.
Proof. intros Hl. unfold point_at. destruct (GetCondition _ _ _). by apply like_with. Qed.

Lemma middleware_like_report p err m m' : like m m' → like m (report_at now p err m').
Proof. intros Hl. unfold report_at, update_at, with_conditions. destruct p; [by apply like_with|done]. Qed.

Lemma middleware_kept_trans m m1 m2 : kept m m1 → like m1 m2 → kept m m2.
Proof. intros (? & ? & ?) ->. by destruct m1. Qed.
Lemma middleware_upgraded_trans m tr tr' m1 m2 : upgraded m tr m1 → tr `prefix_of` tr' → like m1 m2 → upgraded m tr' m2.
Proof.
  intros (package & s & base & latest & Ht & Hen & Hfound & Hin & Hl) Hpre Hlike. exists package, s, base, latest.
  split_and!; [by eapply target_package_prefix|done|by eapply target_found_prefix|by eapply elem_of_prefix|]. rewrite Hlike, Hl. by destruct m.
Qed.

(** A status update changes the status of the caller's object only. *)
Lemma middleware_UpdateStatus_spec m tr m0 :
  spec (upgrade_justified m) (mid (UpdateMiddlewareStatus reader m0)) tr (λ _ r, like m0 r.2).
Proof.
  eapply spec_mono; [apply spec_holds; [apply quiet_spec; [apply no_object_write_justified|apply status_writes_nothing]|]|].
  - apply (holds_embed (@Mid) _ []), UpdateMiddlewareStatus_caller.
  - intros tr' r _ [_ (k & _ & g & ->)]. by apply like_with, like_refl.
Qed.

Lemma replace_middleware_package_spec m :
  spec (upgrade_justified m) (ReplacePackage reader apiReader DataNamespace now m) [] (upgrade_result m).
Proof.
  unfold ReplacePackage, upgrade_result. destruct (m_annotations m !! LabelUpdate); [|by apply spec_ret].
  assert (Hkept : kept m m) by apply like_kept, like_refl.
  apply (spec_bind _ _ _ (λ tr r, ∀ live, r = Ok live → earliest_read tr = Some live)).
  { eapply spec_mono; [apply (spec_embed (@Mid) _ (GetMiddleware (m_name m) (m_namespace m)) []
      (λ k r, ∀ live, r = Ok live → first_read k = Some live))|].
    - unfold GetMiddleware. simpl. assert (Hq : ∀ k, Forall (λ e, write_of e = None) k → ∀ k1 e k2, k = k1 ++ e :: k2 →
        upgrade_justified m (map (embedded (@Mid)) k1) (embedded (@Mid) e)).
      { intros k Hall k1 e k2 ->. apply list.Forall_app in Hall as [_ [He _]%list.Forall_cons].
        apply no_object_write_justified. destruct e as [R c x]. by destruct c. }
      intros [live|e]; simpl; [intros u|]; (split; [apply Hq; by repeat constructor|]); [|done].
      intros live' [= ->]. done.
    - intros tr' r _ (k & -> & Hl) live Heq. unfold earliest_read. simpl. rewrite mid_events_mid. by apply Hl. }
  intros tr1 [live|e] _ Hlive; [|by apply spec_ret]. specialize (Hlive live eq_refl).
  destruct (m_annotations live !! LabelUpdate); [|by apply spec_ret].
  pose proof (like_point CondTypeChecked m m (like_refl m)) as Hp. assert (Hch : checked m =
    let '(m, p) := point_at now CondTypeChecked m in is_true (condition_at p m)) by done.
  destruct (point_at now CondTypeChecked m) as [m1 p1]. simpl in Hp. cbv zeta.
  pose proof (like_point CondTypeUpdating m m1 Hp) as Hp2. destruct (point_at now CondTypeUpdating m1) as [m2 p2]. simpl in Hp2.
  set (m3 := set_status _ m2). assert (Hm3 : like m m3) by by apply like_with.
  eapply spec_bind; [apply middleware_UpdateStatus_spec|]. intros tr2 [err m4] Hpre2 Hm4. simpl in Hm4.
  assert (Hlike4 : like m m4) by (rewrite Hm4; by apply like_with).
  destruct err as [e|]; [apply spec_ret; by apply like_kept|].
  apply (spec_bind _ _ _ (λ tr r, match r.1.1 with
    | Some _ => kept m r.2 | None => upgraded m tr r.2 ∨ checked m = false ∧ kept m r.2 end)).
  { rewrite Hch. destruct (is_true (condition_at p1 m1)) eqn:Ht; [|apply spec_ret; right; split; [done|by apply like_kept]].
    eapply spec_mono; [apply middleware_upgrade_body_spec; [exact Hlike4|]|].
    - by eapply earliest_read_prefix.
    - intros tr' r _. unfold upgrade_outcome. destruct (r.1.1); auto. }
  intros tr3 [[ret err] m5] Hpre3 Hout. simpl in Hout.
  eapply spec_bind; [apply middleware_UpdateStatus_spec|]. intros tr4 [err' m6] Hpre4 Hm6. simpl in Hm6. apply spec_ret. simpl.
  assert (Hlast : like m5 m6) by (rewrite Hm6; apply like_with, middleware_like_report, like_refl).
  destruct ret; [by eapply middleware_kept_trans|]. destruct Hout as [Hup|[? ?]]; [left; by eapply middleware_upgraded_trans|right].
  split; [done|by eapply middleware_kept_trans].
Qed.

(** C11: A Middleware is written during an upgrade only over the object read
    last, and only to switch it to the one package that matches the requested
    version, with its Secret and the package read as enabled, and to the baseline
    that the request names there, or, when that package failed to install, to
    drop the request of the object read first; without a request nothing is
    called.  Success means switched, or not yet checked; after an error the
    caller's specification and labels are as they were. *)
Theorem middleware_upgrade_guarded m {W} (h : handler acall W) w :
  let '(r, tr) := run h (ReplacePackage reader apiReader DataNamespace now m) w in
  each (upgrade_justified m) tr ∧ upgrade_result m tr r.
Proof.
  pose proof (spec_run_pair (D := upgrade_justified m) _ h w _ (replace_middleware_package_spec m)) as Hrun.
  by destruct (run h (ReplacePackage reader apiReader DataNamespace now m) w).
Qed.
End Proofs.

(** ** Runs at concrete inputs

    A cluster with one Middleware, one package of version 2.0 and its Secret;
    pre-actions change nothing, and the components that handle children answer
    as [children] says. *)

Section Demo.
Record demo_children := DemoChildren {
  dc_primary : result error unstructured;
  dc_write : option error;
  dc_cleanup : option error;
}.
Definition quiet_children : demo_children := DemoChildren (Err (Error NotFound "")) None None.

Definition demo_mid (m : middleware) {R} (c : mcall R) : R :=
  match c in mcall R return R with
  | CliGet _ _ | ReaderGet _ _ => Ok m
  | CliUpdate _ | StatusUpdate _ => None
  | CacheSet _ _ => tt
  | CacheGet _ => None
  | CheckMiddleware m | HandleResource _ m | Middleware.ReplacePackage m => (None, m)
  | ValidatePauseSnapshot _ _ | PublishPauseSnapshot _ _ _ | CleanupPauseSnapshot _ _ => None
  | BuildPauseSnapshot _ => Err (new_error "none")
  | AdoptPausedPrimary _ _ => Err (new_error "none")
  | PausedSpecMatchesAdoption _ => Ok false
  end.

Definition demo_package_2 : middleware_package :=
  MiddlewarePackage "redis-2" "uid-p" 1 {[LabelProject := ProjectOpenSaola]} ∅
    (MiddlewarePackageSpec "redis" "2.0" "" "" "" [] [] [] []) (CatalogStatus 0 [] "").
Definition demo_secret_2 (labels annotations : gmap string string) : secret :=
  Secret "redis-2" "default" "41" None labels annotations [] {[Release := "data"]}.

Definition demo_pack (s : secret) (live : option catalog_object) {R} (c : pcall R) : R :=
  match c in pcall R return R with
  | SecretGet _ _ | SecretReaderGet _ _ => Ok s
  | SecretList _ _ _ => Ok [s]
  | ParsedGet _ => None
  | CatalogGet _ _ | CatalogReaderGet _ _ => match live with Some o => Ok o | None => Err (Error NotFound "") end
  | CatalogCacheGet _ _ => live
  | PackageGet _ | PackageReaderGet _ => Err (Error NotFound "")
  | PackageList _ _ => Ok [demo_package_2]
  | MiddlewareList _ | OperatorList _ => Ok []
  | TemplateParse t _ => Ok t
  | CatalogCreate _ | CatalogUpdate _ | CatalogDelete _ | CatalogStatusUpdate _ | SecretCreate _ | SecretDelete _
  | SecretPatch _ _ | PackageCreate _ | PackageUpdate _ | PackageDelete _ | PackageStatusUpdate _ => None
  | CatalogCacheSet _ _ _ | SecretCacheSet _ _ | ParsedSet _ _ _ | PackageCacheSet _ _ => tt
  end.

Definition demo_world (m : middleware) (s : secret) (live : option catalog_object) (children : demo_children) :
    handler acall unit := λ R c w,
  (match c in acall R return R with
   | Mid c => demo_mid m c
   | Pack c => demo_pack s live c
   | Capabilities => JNull
   | HandlePreActions m | RenderPreActions m => (None, m)
   | ReconcileConfigurations _ _ _ previous => Ok previous
   | DeleteConfigurations _ => dc_cleanup children
   | ReadPausePrimary _ _ _ => dc_primary children
   | PreparePauseSnapshot _ _ | LoadPauseSnapshot _ _ => Err (Error NotFound "")
   | AdoptObservedSpec _ after _ => Ok after
   | SetControllerReference _ cr => Ok cr
   | WriteManaged _ _ => dc_write children
   | EnsureCRWatcher _ _ _ => None
   | ReleaseCRWatcher _ | StartSync _ _ | StopSync _ => tt
   | CliDelete _ | CliUpdateObject _ => None
   end, w).

Definition upgrading_middleware : middleware :=
  set_annotations {[LabelUpdate := "2.0"]} (set_labels {[LabelComponent := "redis"; LabelPackageName := "redis-1"]}
    (set_spec (MiddlewareSpec (OperatorBaseline "" "") "redis" "" [] "" None [])
      (demo 1 0 None [Condition CondTypeChecked ConditionTrue 1 5 "" ""]))).

Definition demo_upgrade (labels annotations : gmap string string) : option error * middleware * list aevent :=
  run (demo_world upgrading_middleware (demo_secret_2 labels annotations) None quiet_children)
    (@ReplacePackage meta_by_list (bounded_retry is_conflict 4) (demo_format demo_files) list_order
      true true "default" 9 upgrading_middleware) tt.

Definition object_writes (tr : list aevent) : list (string * option string * option string) :=
  (λ m, ((m_labels m).[LabelPackageName], m_labels m !! LabelPackageVersion, m_annotations m !! LabelUpdate)) <$> omap obj_write tr.
Definition updating_of (st : middleware_status) : list string :=
  c_status <$> filter (λ c, c_type c = CondTypeUpdating) (ms_conditions st).
Definition status_write (e : aevent) : option middleware :=
  match e with Ev c _ => match c with Mid c => match c with StatusUpdate m => Some m | _ => None end | _ => None end end.

(** An enabled package: one write switches the object. *)
Lemma middleware_upgrade_guarded_witness :
  let r := demo_upgrade {[LabelEnabled := "true"]} ∅ in
  object_writes r.2 = [("redis-2", Some "2.0", None)] ∧ r.1.1 = None ∧
  each (@upgrade_justified (demo_format demo_files) list_order true "default" upgrading_middleware) r.2.
Proof.
  split; [reflexivity|]. split; [reflexivity|].
  pose proof (@middleware_upgrade_guarded meta_by_list (bounded_retry is_conflict 4)
    (demo_format demo_files) list_order true true "default" 9 upgrading_middleware unit
    (demo_world upgrading_middleware (demo_secret_2 {[LabelEnabled := "true"]} ∅) None quiet_children) tt) as Hthm.
  unfold demo_upgrade. destruct (run _ _ _) as [r tr]. exact (proj1 Hthm).
Defined.

(** A package that is not ready: the caller is told so, and the Updating
    condition is published as true. *)
Lemma not_ready_published_as_success :
  let r := demo_upgrade ∅ ∅ in
  (e_kind <$> r.1.1) = Some PackageNotReady ∧ object_writes r.2 = [] ∧
  (updating_of ∘ m_status) <$> omap status_write r.2 = [[ConditionUnknown]; [ConditionTrue]].
Proof. split; [reflexivity|]. split; reflexivity. Qed.

(** A failed installation drops the request. *)
Lemma failed_install_drops_request :
  let r := demo_upgrade ∅ {[AnnotationInstallError := "bad name"]} in
  (e_kind <$> r.1.1) = Some PackageInstallFailed ∧ object_writes r.2 = [("redis-1", None, None)] ∧
  (updating_of ∘ m_status) <$> omap status_write r.2 = [[ConditionUnknown]; [ConditionFalse]].
Proof. split; [reflexivity|]. split; reflexivity. Qed.
End Demo.
