(* ===== verification/MiddlewareApply.v ===== *)
(** * Publishing and deleting what a Middleware renders to

    [internal/service/middleware/resource.go] and
    [internal/service/customresource/customresource.go]: the stages of a
    reconciliation (templates, pre-actions, configurations, primary custom
    resource) and of the deletion.  The goroutine of the synchronizer is a call
    that starts it.  A nil Middleware is not modelled. *)
From Stdlib Require Import ZArith Lia.
From stdpp Require Import base gmap strings list option pretty.
From S2P Require Import Prelude Labels Conditions Prog Diagnostic Middleware MiddlewareController Json Adoption JsonTools WorkloadPhase.
From S2P Require Import Catalog Packages PackageInstall MiddlewareRender MiddlewareUpgrade.

(** The errors of [reconcile_adoption.go] as error values. *)
(** [ErrReconcilePauseResourceMissing], internal/service/middleware/reconcile_adoption.go:38-44 *)
Definition adoption_err (e : adoption_error) : error :=
  match e with
  | ErrReconcileOverrideTargetChanged => new_error "reconcile override target changed"
  | ErrReconcilePauseResourceMissing => new_error "paused primary custom resource is missing"
  | ErrReconcilePauseResourceChanged => new_error "paused primary custom resource identity changed"
  | ErrReconcilePauseLiveSpecChanged => Error ObservedSpecChanged "paused primary custom resource spec changed after adoption"
  | ErrOther msg => new_error msg
  end.
Definition of_adoption {A} (r : ares A) : result error A :=
  match r with Ok a => Ok a | Err e => Err (adoption_err e) end.

Section Apply.
Context `{!JsonLib, !YamlLib, !MetaCodec, !PackageFormat, !MapOrder, !MetaConditions,
          !RetryOnConflict mcall error is_conflict}.
Context (reader apiReader : bool) (DataNamespace : string) (step : gmap string json) (scheme : bool) (now : Z).

Abbreviation UpdateStatus m := (mid (UpdateMiddlewareStatus reader m)).

(** ** The context of a deletion *)

(** [hydrateDeleteContext], internal/service/middleware/resource.go:86-95 *)
Definition hydrate_spec (bs : baseline_spec) (m : middleware) : middleware :=
  let sp := m_spec m in
  let ob := sp_operatorBaseline sp in
  let or_else (s other : string) := if String.eqb s "" then other else s in
  set_spec (MiddlewareSpec
    (OperatorBaseline (or_else (ob_name ob) (ob_name (bs_operatorBaseline bs)))
                      (or_else (ob_gvkName ob) (ob_gvkName (bs_operatorBaseline bs))))
    (sp_baseline sp) (or_else (sp_necessary sp) (bs_necessary bs)) (sp_preActions sp) (sp_parameters sp)
    (sp_reconcileOverrides sp) (sp_configurations sp)) m.

(** [hydrateDeleteContext], internal/service/middleware/resource.go *)
Definition hydrateDeleteContext : objM unit :=
  m ← get;
  baseline ← wrapped "get baseline error" (lift (baseline_of apiReader DataNamespace m));
  let bs := spec_of_baseline baseline in
  c ← wrapped "struct merge configurations error" (check (merge_configurations (bs_configurations bs) (sp_configurations (m_spec m))));
  _ ← modify (set_configurations c);
  l ← wrapped "struct merge labels error" (check (merge_labels (co_labels baseline) (m_labels m)));
  _ ← modify (set_labels l);
  a ← wrapped "struct merge annotations error" (check (merge_labels (co_annotations baseline) (m_annotations m)));
  _ ← modify (set_annotations a);
  modify (hydrate_spec bs).

(** ** The primary custom resource *)

(** [HandleGvk], internal/service/customresource/customresource.go *)
Definition HandleGvk (m : middleware) : aprog (result error gvk) :=
  r ← baseline_of apiReader DataNamespace m;
  match r with
  | Err e => Ret (Err (wrap_error "get middleware baseline error" e))
  | Ok baseline =>
      let bs := spec_of_baseline baseline in
      let ob := sp_operatorBaseline (m_spec m) in
      let gvkName := if String.eqb (ob_gvkName ob) "" then ob_gvkName (bs_operatorBaseline bs) else ob_gvkName ob in
      let operatorBaselineName := if String.eqb (ob_name ob) "" then ob_name (bs_operatorBaseline bs) else ob_name ob in
      if String.eqb operatorBaselineName "" then Ret (Ok (bs_gvk bs))
      else
        r ← pack (Get_operator_baseline apiReader DataNamespace operatorBaselineName ((m_labels m).[LabelPackageName]));
        match r with
        | Err e => Ret (Err (wrap_error "get operatorBaseline error" e))
        | Ok operatorBaseline =>
            let declared := match co_spec operatorBaseline with MiddlewareOperatorBaselineSpec GVKs _ => GVKs | _ => [] end in
            match list_find (λ d, dg_name d = gvkName) declared with
            | Some (_, d) => Ret (Ok (dg_gvk d))
            | None => Ret (Err (new_error ("gvkName " +:+ gvkName +:+ " not exist")))
            end
        end
  end.

(** A field with no entries; setting it to nil removes it. *)
Definition metadata_strings (k : string) (m : gmap string string) (o : gmap string json) : gmap string json :=
  if decide (m = ∅) then o else <[k := strings_json m]> o.

(** Kind, namespace and name are kept apart from the other fields. *)
(** [GetNeedPublishCustomResource], internal/service/customresource/customresource.go:137-147 *)
Definition published_resource (g : gvk) (spec : json) (m : middleware) : unstructured :=
  Unstructured g (m_namespace m) (m_name m) "" false
    {["spec" := spec;
      "metadata" := JObj (metadata_strings "labels" (m_labels m) (metadata_strings "annotations" (m_annotations m) ∅))]}.

(** [GetNeedPublishCustomResource], internal/service/customresource/customresource.go *)
Definition GetNeedPublishCustomResource (m : middleware) : aprog (result error unstructured) :=
  parameters ←? pure (match Unmarshal (sp_parameters (m_spec m)) with
    | Some (JObj o) => Ok (JObj o)
    | Some JNull => Ok JNull
    | _ => Err (new_error "unmarshal parameters error")
    end);
  gvk ←? HandleGvk m;
  Ret (Ok (published_resource gvk parameters m)).

(** The manager of each managed field of the new object. *)
(** [RestoreIfIllegalUpdate], internal/service/customresource/customresource.go *)
Definition RestoreIfIllegalUpdate (oldObj : unstructured) (newManagers : list string) : aprog (option error) :=
  if existsb (String.eqb "kubectl") newManagers then
    err ← call (CliUpdateObject oldObj);
    Ret (option_map (wrap_error "failed to revert resource") err)
  else Ret None.

(** ** Stages that report in a condition *)

(** The deferred function of a stage: its condition is what the pointer taken
    at the start points to, and the error of the status write is returned only
    after a success. *)
(** [buildCustomResource], internal/service/middleware/resource.go:288-302 *)
Definition reporting (t : string) (diagnose : middleware → option error → option error) (report : bool) (body : objM unit) :
    middleware → aprog (option error * middleware) := λ m,
  let '(m, p) := point_at now t m in
  r ← body m;
  let '(err, m) := done r in
  let err := diagnose m err in
  if report then
    '(updateErr, m) ← UpdateStatus (report_at now p err m);
    Ret (match err with Some _ => err | None => updateErr end, m)
  else Ret (err, m).

Definition undiagnosed (m : middleware) (err : option error) : option error := err.
Definition is_delete (a : action) : bool := match a with HandleActionDelete => true | _ => false end.

(** [TemplateParseWithBaseline], internal/service/middleware/middleware.go:283-296 *)
Definition template_diagnostic (m : middleware) (err : option error) : option error :=
  WrapDiagnostic err (Diagnostic PhaseTemplateRender "middleware" (middlewareObjectRef (Some m)) no_object no_object "" "" ""
    (m_generation m) (ms_observedGeneration (m_status m))
    ("check Middleware " +:+ m_namespace m +:+ "/" +:+ m_name m +:+ ", MiddlewareBaseline " +:+
     (m_labels m).[LabelPackageName] +:+ "/" +:+ sp_baseline (m_spec m) +:+
     ", and rendered template inputs under spec.parameters/spec.configurations")).

(** [TemplateParseWithBaseline], internal/service/middleware/middleware.go *)
Definition TemplateParseWithBaseline : middleware → aprog (option error * middleware) :=
  reporting CondTypeTemplateParseWithBaseline template_diagnostic true
    (renderMiddlewareWithBaseline apiReader DataNamespace step).

(** [handleExtraResource], internal/service/middleware/resource.go:236-243 *)
Definition set_inventory (inventory : list rendered_resource) (m : middleware) : middleware :=
  let st := m_status m in
  set_status (MiddlewareStatus (ms_observedGeneration st) (ms_conditions st) (ms_customResources st) (ms_state st)
    (ms_reason st) inventory (m_generation m) (ms_reconcilePause st)) m.

(** [GetTemplateParsedMiddlewareConfigurations] for a Middleware. *)
Definition rendered_configurations (m : middleware) : aprog (result error (list catalog_object)) :=
  r ← GetTemplateValues step (middleware_quoter m);
  match r with
  | Err e => Ret (Err (wrap_error "failed to get template values" e))
  | Ok templateValues =>
      pack (GetTemplateParsedMiddlewareConfigurations apiReader DataNamespace
        (map (λ c, (cf_name c, cf_values c)) (sp_configurations (m_spec m))) ((m_labels m).[LabelPackageName]) templateValues)
  end.

(** [handleExtraResource], internal/service/middleware/resource.go:217-245 *)
Definition extra_resource (act : action) : objM unit :=
  if is_delete act then λ m, err ← call (DeleteConfigurations m); Ret (match err with Some e => Err e | None => Ok tt end, m)
  else
    m ← get;
    mcs ← lift (rendered_configurations m);
    inventory ← lift (call (ReconcileConfigurations m act mcs (ms_rendered (m_status m))));
    modify (set_inventory inventory).

(** [handleExtraResource], internal/service/middleware/resource.go *)
Definition handleExtraResource (act : action) : middleware → aprog (option error * middleware) :=
  reporting CondTypeBuildExtraResource undiagnosed (negb (is_delete act)) (extra_resource act).

(** ** The apply *)

(** [seedInitialCustomResourcePhase], internal/service/middleware/resource.go:259-264 *)
Definition seed_phase (st : middleware_status) : middleware_status * string :=
  let cr := ms_customResources st in
  let cr := if String.eqb (cr_phase cr) PhaseUnknown
    then CustomResources (cr_creationTimestamp cr) PhaseCreating (cr_limits cr) (cr_requests cr) (cr_replicas cr)
           (cr_reason cr) (cr_type cr) (cr_include cr) (cr_disaster cr)
    else cr in
  (MiddlewareStatus (ms_observedGeneration st) (ms_conditions st) cr (ms_state st) (ms_reason st) (ms_rendered st)
     (ms_renderedGeneration st) (ms_reconcilePause st), cr_phase cr).

Definition set_phase (phase : string) (m : middleware) : middleware :=
  let st := m_status m in
  let cr := ms_customResources st in
  set_status (MiddlewareStatus (ms_observedGeneration st) (ms_conditions st)
    (CustomResources (cr_creationTimestamp cr) phase (cr_limits cr) (cr_requests cr) (cr_replicas cr) (cr_reason cr)
       (cr_type cr) (cr_include cr) (cr_disaster cr))
    (ms_state st) (ms_reason st) (ms_rendered st) (ms_renderedGeneration st) (ms_reconcilePause st)) m.

(** [seedInitialCustomResourcePhase], internal/service/middleware/resource.go *)
Definition seedInitialCustomResourcePhase (a : action) : objM unit := λ m,
  match a with
  | HandleActionPublish =>
      if negb (String.eqb (cr_phase (ms_customResources (m_status m))) PhaseUnknown) then Ret (Ok tt, m)
      else
        '(err, effectivePhase) ← mid (PatchMiddlewareStatusFields reader (m_name m) (m_namespace m)
                                        (cr_phase (ms_customResources (m_status m))) (λ st, seed_phase st));
        match (err : option error) with
        | Some e => Ret (Err (wrap_error "seed initial custom resource phase" e), m)
        | None => Ret (Ok tt, set_phase effectivePhase m)
        end
  | _ => Ret (Ok tt, m)
  end.

(** The live resource is read only for a snapshot that fits. *)
(** [VerifyPausedPrimaryCustomResourceForApply], internal/service/middleware/reconcile_adoption.go:377-392 *)
Definition verify_paused (snapshot : pause_status) (cr : unstructured) : aprog (result error unit) :=
  if String.eqb (ps_adoptedLiveSpecHash snapshot) "" then Ret (Err (adoption_err ErrReconcilePauseLiveSpecChanged))
  else match matchesSnapshotTarget snapshot cr with
  | Err e => Ret (Err (adoption_err e))
  | Ok _ =>
      live ← call (ReadPausePrimary (ps_gvk snapshot) (ps_namespace snapshot) (ps_name snapshot));
      Ret (of_adoption (VerifyPausedPrimaryCustomResourceForApply (λ _ _ _, live) (Some snapshot) cr))
  end.

(** [buildCustomResource], internal/service/middleware/resource.go:338-342 *)
Definition verify_resume (cr : unstructured) : objM unit :=
  m ← get;
  match ReconcileResumePolicyFor (m_annotations m), ms_reconcilePause (m_status m) with
  | Some ResumeMerge, Some snapshot =>
      wrapped "verify paused primary custom resource before resume apply" (lift (verify_paused snapshot cr))
  | _, _ => mret tt
  end.

(** The diagnostics of the apply. *)
(** [buildCustomResource], internal/service/middleware/resource.go:354-390 *)
Definition apply_diagnostic (m : middleware) (cr : unstructured) (owner : object_ref) (next : string) (e : error) : error :=
  let g := u_gvk cr in
  default e (WrapDiagnostic (Some e) (Diagnostic PhaseRuntimeReconcile "middleware" (middlewareObjectRef (Some m))
    (ObjectRefFromObject (u_namespace cr) (u_name cr) (gvk_group g) (gvk_version g) (gvk_kind g)) owner "" "" ""
    (m_generation m) (ms_observedGeneration (m_status m)) next)).
Definition diagnosing {A} (f : middleware → error → error) (p : objM A) : objM A := λ m,
  r ← p m; Ret (match r.1 with Ok a => Ok a | Err e => Err (f r.2 e) end, r.2).

(** [buildCustomResource], internal/service/middleware/resource.go:315-325 *)
Definition desired_resource : objM unstructured :=
  m ← get;
  cr ← wrapped "parse cr error" (lift (GetNeedPublishCustomResource m));
  wrapped "apply reconcile overrides" (check (of_adoption (ApplyReconcileOverrides (sp_reconcileOverrides (m_spec m)) cr))).

(** An existing resource is no error. *)
(** [buildCustomResource], internal/service/middleware/resource.go:366-393 *)
Definition write_primary (cr : unstructured) : objM unit :=
  m ← get;
  diagnosing (λ m, apply_diagnostic m cr (middlewareObjectRef (Some m))
      ("run kubectl describe " +:+ ToLower (gvk_kind (u_gvk cr)) +:+ " " +:+ u_name cr +:+ " -n " +:+ u_namespace cr +:+
       " and kubectl get events -n " +:+ u_namespace cr +:+ " --field-selector involvedObject.name=" +:+ u_name cr))
    (λ m, err ← call (WriteManaged m cr);
          Ret (match err with Some e => if is_already_exists e then Ok tt else Err e | None => Ok tt end, m)).

(** [buildCustomResource], internal/service/middleware/resource.go:336-417 *)
Definition apply_resource (a : action) (cr : unstructured) : objM unit :=
  _ ← verify_resume cr;
  _ ← (if scheme then mret tt else failed (new_error "get scheme from context"));
  m ← get;
  owned ← diagnosing (λ m, apply_diagnostic m cr (middlewareObjectRef (Some m))
      "check the rendered custom resource metadata.ownerReferences and Middleware controller scheme registration")
    (lift (call (SetControllerReference m cr)));
  _ ← write_primary owned;
  _ ← seedInitialCustomResourcePhase a;
  m ← get;
  _ ← diagnosing (λ m, apply_diagnostic m owned no_object
      "check the dynamic custom-resource watcher registration and informer logs")
    (λ m, err ← call (EnsureCRWatcher owned (m_name m) (m_namespace m));
          Ret (match err with Some e => Err e | None => Ok tt end, m));
  m ← get;
  lift (_ ← call (StartSync owned m); Ret (Ok tt)).

(** [buildCustomResource], internal/service/middleware/resource.go:306-314 *)
Definition deleted_resource : objM unstructured :=
  m ← get;
  gvk ← wrapped "handle gvk error" (lift (HandleGvk m));
  mret (Unstructured gvk (m_namespace m) (m_name m) "" false ∅).

(** [buildCustomResource], internal/service/middleware/resource.go:418-431 *)
Definition delete_resource (cr : unstructured) : objM unit :=
  lift (_ ← call (ReleaseCRWatcher cr);
        _ ← call (StopSync cr);
        err ← call (CliDelete cr);
        Ret (match err with Some e => if is_not_found e then Ok tt else Err e | None => Ok tt end)).

(** [buildCustomResource], internal/service/middleware/resource.go *)
Definition buildCustomResource (a : action) : middleware → aprog (option error * middleware) :=
  reporting CondTypeApplyCluster undiagnosed (negb (is_delete a))
    (if is_delete a then cr ← deleted_resource; delete_resource cr
     else cr ← desired_resource; apply_resource a cr).

(** ** [HandleResource] *)

(** A function that returns an error and the object, as a step. *)
Definition stage (p : middleware → aprog (option error * middleware)) : objM unit := λ m,
  '(err, m) ← p m; Ret (match err with Some e => Err e | None => Ok tt end, m).

(** [HandleResource], internal/service/middleware/resource.go:118-153 *)
Definition delete_stages : objM unit :=
  _ ← wrapped "hydrate delete context error" hydrateDeleteContext;
  _ ← wrapped "build extra resource error" (stage (handleExtraResource HandleActionDelete));
  wrapped "build cr error" (stage (buildCustomResource HandleActionDelete)).

(** [HandleResource], internal/service/middleware/resource.go:156-176 *)
Definition apply_stages (a : action) : objM unit :=
  _ ← stage TemplateParseWithBaseline;
  _ ← wrapped "handle preActions error" (stage (λ m, call (HandlePreActions m)));
  _ ← wrapped "build extra resource error" (stage (handleExtraResource a));
  wrapped "build cr error" (stage (buildCustomResource a)).

(** [HandleResource], internal/service/middleware/resource.go *)
Definition HandleResource (a : action) (m : middleware) : aprog (option error * middleware) :=
  if negb (is_delete a) && IsMiddlewareReconcileWriteSuspended (m_annotations m) (ms_conditions (m_status m))
  then Ret (None, m)
  else if is_delete a then r ← delete_stages m; Ret (done r)
  else
    let '(m, checked) := point_at now CondTypeChecked m in
    if is_true (condition_at checked m) then r ← apply_stages a m; Ret (done r) else Ret (None, m).

(** ** Rendering without writing *)

(** The caller's object is copied. *)
(** [renderPrimaryCustomResource], internal/service/middleware/resource.go *)
Definition renderPrimaryCustomResource (m : middleware) (applyOverrides : bool) : aprog (result error unstructured) :=
  r ← (_ ← renderMiddlewareWithBaseline apiReader DataNamespace step;
       _ ← wrapped "render pre actions" (stage (λ m, call (RenderPreActions m)));
       rendered ← get;
       cr ← lift (GetNeedPublishCustomResource rendered);
       if (applyOverrides : bool) then check (of_adoption (ApplyReconcileOverrides (sp_reconcileOverrides (m_spec rendered)) cr))
       else mret cr) m;
  Ret r.1.
End Apply.

(** ** The order of the stages

    [ospec]: a step keeps the discipline and, when it succeeds, ends as [Q] says. *)

Section ObjectSpec.
Context {D : list aevent → aevent → Prop}.
Implicit Types (m : middleware) (tr : list aevent).

Definition ospec {A} (p : objM A) m tr (Q : list aevent → A → middleware → Prop) : Prop :=
  spec D (p m) tr (λ tr' r, match r with (Ok a, m') => Q tr' a m' | (Err _, _) => True end).

Lemma ospec_mono {A} (p : objM A) m tr Q Q' :
  ospec p m tr Q → (∀ tr' a m', tr `prefix_of` tr' → Q tr' a m' → Q' tr' a m') → ospec p m tr Q'.
Proof. intros Hp HQ. eapply spec_mono; [exact Hp|]. intros tr' [[a|e] m'] Hpre; [by apply HQ|done]. Qed.

Lemma ospec_bind {A B} (p : objM A) (f : A → objM B) m tr Q Q' :
  ospec p m tr Q → (∀ tr' a m', tr `prefix_of` tr' → Q tr' a m' → ospec (f a) m' tr' Q') → ospec (p ≫= f) m tr Q'.
Proof.
  intros Hp Hf. eapply spec_bind; [exact Hp|]. intros tr' [[a|e] m'] Hpre HQ; [by apply Hf|by apply spec_ret].
Qed.

Lemma ospec_ret {A} (a : A) m tr (Q : list aevent → A → middleware → Prop) : Q tr a m → ospec (mret a) m tr Q.
Proof. intros HQ. by apply spec_ret. Qed.
Lemma ospec_get m tr (Q : list aevent → middleware → middleware → Prop) : Q tr m m → ospec get m tr Q.
Proof. intros HQ. by apply spec_ret. Qed.
Lemma ospec_modify f m tr (Q : list aevent → unit → middleware → Prop) : Q tr tt (f m) → ospec (modify f) m tr Q.
Proof. intros HQ. by apply spec_ret. Qed.
Lemma ospec_check {A} (r : result error A) m tr (Q : list aevent → A → middleware → Prop) :
  (∀ a, r = Ok a → Q tr a m) → ospec (check r) m tr Q.
Proof. intros HQ. apply spec_ret. destruct r; auto. Qed.
Lemma ospec_lift {A} (p : aprog (result error A)) m tr Q :
  spec D p tr (λ tr' r, ∀ a, r = Ok a → Q tr' a m) → ospec (lift p) m tr Q.
Proof.
  intros Hp. eapply spec_bind; [exact Hp|]. intros tr' r _ HQ. apply spec_ret. destruct r; auto.
Qed.
Lemma ospec_wrapped {A} msg (p : objM A) m tr Q : ospec p m tr Q → ospec (wrapped msg p) m tr Q.
Proof. intros Hp. eapply spec_bind; [exact Hp|]. intros tr' [[a|e] m'] _ HQ; by apply spec_ret. Qed.
Lemma ospec_diagnosing {A} f (p : objM A) m tr Q : ospec p m tr Q → ospec (diagnosing f p) m tr Q.
Proof. intros Hp. eapply spec_bind; [exact Hp|]. intros tr' [[a|e] m'] _ HQ; by apply spec_ret. Qed.
Lemma ospec_stage (p : middleware → aprog (option error * middleware)) m tr (Q : list aevent → unit → middleware → Prop) :
  spec D (p m) tr (λ tr' r, r.1 = None → Q tr' tt r.2) → ospec (stage p) m tr Q.
Proof.
  intros Hp. eapply spec_bind; [exact Hp|]. intros tr' [[e|] m'] _ HQ; apply spec_ret; [done|by apply HQ].
Qed.
(** A step whose calls are all accepted. *)
Lemma ospec_quiet {A} K (p : objM A) m tr :
  only K (p m) → (∀ l e, K l e → D l e) → ospec p m tr (λ _ _ _, True).
Proof. intros Hp HK. eapply spec_mono; [eapply only_spec; [exact Hp|auto]|]. by intros ? [[] ?]. Qed.
End ObjectSpec.
Arguments ospec D {A} p m tr Q.

Section Order.
Context `{!JsonLib, !YamlLib, !MetaCodec, !PackageFormat, !MapOrder, !MetaConditions,
          !RetryOnConflict mcall error is_conflict}.
Context (reader apiReader : bool) (DataNamespace : string) (step : gmap string json) (scheme : bool) (now : Z).
Implicit Types (m : middleware) (l tr : list aevent) (cr : unstructured).

(** The children of [m] may be reconciled by the action [a]. *)
Definition open_gate (a : action) m : Prop :=
  is_delete a = false ∧ IsMiddlewareReconcileWriteSuspended (m_annotations m) (ms_conditions (m_status m)) = false ∧
  checked now m = true.

Definition handled_preActions l : Prop := ∃ m m', Ev (HandlePreActions m) (None, m') ∈ l.
Definition configured l : Prop :=
  ∃ m a mcs previous inventory, Ev (ReconcileConfigurations m a mcs previous) (Ok inventory) ∈ l.
Definition accepted (err : option error) : Prop := err = None ∨ ∃ e, err = Some e ∧ e_kind e = AlreadyExists.
Definition written cr l : Prop := ∃ m err, Ev (WriteManaged m cr) err ∈ l ∧ accepted err.
Definition cleaned l : Prop := ∃ m, Ev (DeleteConfigurations m) None ∈ l.

(** The resource is what [m] renders to, with its overrides. *)
Definition rendered_as m cr : Prop :=
  ∃ g spec, Unmarshal (sp_parameters (m_spec m)) = Some spec ∧
    ApplyReconcileOverrides (sp_reconcileOverrides (m_spec m)) (published_resource g spec m) = Ok cr.

(** A resume that merges: the live resource is the one of the adoption. *)
Definition resume_verified m cr l : Prop :=
  ∀ s, ReconcileResumePolicyFor (m_annotations m) = Some ResumeMerge → ms_reconcilePause (m_status m) = Some s →
    ∃ live, Ev (ReadPausePrimary (ps_gvk s) (ps_namespace s) (ps_name s)) (Ok live) ∈ l ∧
      VerifyPausedPrimaryCustomResourceForApply (λ _ _ _, Ok live) (Some s) cr = Ok tt.

(** What each call of [HandleResource a m] comes after. *)
Definition resource_order (a : action) m l (e : aevent) : Prop :=
  match e with Ev c r => match c with
    | Mid c => λ _, match c with
        | CliGet _ _ | ReaderGet _ _ | CacheSet _ _ => True | StatusUpdate _ => open_gate a m | _ => False end
    | Pack c => λ r, pack_reads (Ev c r)
    | Capabilities | RenderPreActions _ => λ _, True
    | HandlePreActions _ | ReadPausePrimary _ _ _ => λ _, open_gate a m
    | ReconcileConfigurations _ a' _ _ => λ _, open_gate a m ∧ a' = a ∧ handled_preActions l
    | SetControllerReference m' cr => λ _, open_gate a m ∧ configured l ∧ rendered_as m' cr ∧ resume_verified m' cr l
    | WriteManaged m' cr => λ _, open_gate a m ∧ configured l ∧ ∃ cr0, Ev (SetControllerReference m' cr0) (Ok cr) ∈ l ∧
        rendered_as m' cr0 ∧ resume_verified m' cr0 l
    | EnsureCRWatcher cr _ _ => λ _, open_gate a m ∧ written cr l
    | StartSync cr _ => λ _, open_gate a m ∧ written cr l ∧ ∃ name ns, Ev (EnsureCRWatcher cr name ns) None ∈ l
    | DeleteConfigurations _ => λ _, is_delete a = true
    | ReleaseCRWatcher _ | StopSync _ => λ _, is_delete a = true ∧ cleaned l
    | CliDelete cr => λ _, is_delete a = true ∧ cleaned l ∧ Ev (ReleaseCRWatcher cr) tt ∈ l ∧ Ev (StopSync cr) tt ∈ l
    | CliUpdateObject _ | PreparePauseSnapshot _ _ | LoadPauseSnapshot _ _ | AdoptObservedSpec _ _ _ => λ _, False
    end r end.

Definition status_event (_ : list mevent) (e : mevent) : Prop :=
  match e with Ev c _ => match c with CliGet _ _ | ReaderGet _ _ | StatusUpdate _ | CacheSet _ _ => True | _ => False end end.

Lemma status_only m : only status_event (UpdateMiddlewareStatus reader m).
Proof. unfold UpdateMiddlewareStatus, attempt_status_update, GetMiddleware. repeat only_step. Qed.
Lemma patch_only {X} name ns (x : X) f : only status_event (PatchMiddlewareStatusFields reader name ns x f).
Proof. unfold PatchMiddlewareStatusFields. repeat only_step. Qed.

Lemma configured_prefix l l' : configured l → l `prefix_of` l' → configured l'.
Proof. intros (m & a & mcs & prev & inv & Hin) Hpre. exists m, a, mcs, prev, inv. by eapply elem_of_prefix. Qed.
Lemma written_prefix cr l l' : written cr l → l `prefix_of` l' → written cr l'.
Proof. intros (m & err & Hin & ?) Hpre. exists m, err. split; [by eapply elem_of_prefix|done]. Qed.
Lemma cleanup_prefix l l' : cleaned l → l `prefix_of` l' → cleaned l'.
Proof. intros (m & Hin) Hpre. exists m. by eapply elem_of_prefix. Qed.
Lemma handled_prefix l l' : handled_preActions l → l `prefix_of` l' → handled_preActions l'.
Proof. intros (m & m' & Hin) Hpre. exists m, m'. by eapply elem_of_prefix. Qed.
Lemma verified_prefix m cr l l' : resume_verified m cr l → l `prefix_of` l' → resume_verified m cr l'.
Proof. intros Hv Hpre s Hp Hs. destruct (Hv s Hp Hs) as (live & Hin & ?). exists live. split; [by eapply elem_of_prefix|done]. Qed.
Lemma in_last {E} (l : list (event E)) e : e ∈ l ++ [e].
Proof. apply elem_of_app. right. by apply list_elem_of_singleton. Qed.

Section Stages.
Context (a : action) (m0 : middleware).
Abbreviation D := (resource_order a m0).

Lemma reads_ordered l e : render_reads l e → D l e.
Proof. destruct e as [R c r]. by destruct c. Qed.
Lemma status_ordered k e l : open_gate a m0 → status_event k e → D l (embedded (@Mid) e).
Proof. intros Hg. destruct e as [R c r]. by destruct c. Qed.

Lemma UpdateStatus_ordered m tr : open_gate a m0 → spec D (mid (UpdateMiddlewareStatus reader m)) tr (λ _ _, True).
Proof.
  intros Hg. eapply (only_spec (λ l e, D l e)); [|by intros].
  eapply only_embed; [apply status_only|]. intros k e l He. by eapply status_ordered.
Qed.

(** A reporting stage, for facts that only the calls made so far tell. *)
Lemma reporting_spec t diagnose report body m tr (Q : list aevent → Prop) :
  (report = true → open_gate a m0) → (∀ l l', Q l → l `prefix_of` l' → Q l') → (∀ m, diagnose m None = None) →
  ospec D body (point_at now t m).1 tr (λ tr' _ _, Q tr') →
  (∀ m e, diagnose m (Some e) ≠ None) →
  spec D (reporting reader now t diagnose report body m) tr (λ tr' r, r.1 = None → Q tr').
Proof.
  intros Hr HQ Hnone Hbody Hsome. unfold reporting. destruct (point_at now t m) as [m1 p]. simpl in Hbody.
  eapply spec_bind; [exact Hbody|]. intros tr1 [r m2] Hpre1 Hq. cbn [done fst snd].
  destruct report.
  - eapply spec_bind; [apply UpdateStatus_ordered; auto|]. intros tr2 [err m3] Hpre2 _. apply spec_ret. simpl.
    destruct r as [[]|e]; simpl; [intros _; by eapply HQ|].
    destruct (diagnose m2 (Some e)) eqn:Ed; [done|by destruct (Hsome m2 e)].
  - apply spec_ret. simpl. destruct r as [[]|e]; [done|]. intros Hd. by destruct (Hsome m2 e).
Qed.

Lemma render_ordered m tr : ospec D (renderMiddlewareWithBaseline apiReader DataNamespace step) m tr (λ _ _ _, True).
Proof. eapply ospec_quiet; [apply render_only_reads|apply reads_ordered]. Qed.

Lemma TemplateParse_ordered m tr : open_gate a m0 →
  spec D (TemplateParseWithBaseline reader apiReader DataNamespace step now m) tr (λ _ _, True).
Proof.
  intros Hg. eapply spec_mono; [apply (reporting_spec _ _ _ _ _ _ (λ _, True))|done]; try done; [apply render_ordered|].
  intros m1 e. unfold template_diagnostic, WrapDiagnostic. by destruct (e_diagnosed e).
Qed.

Lemma HandleGvk_reads m : only render_reads (HandleGvk apiReader DataNamespace m).
Proof.
  unfold HandleGvk. apply only_bind; [apply baseline_reads|]. intros [b|e]; [|apply only_ret]. cbv zeta.
  match goal with |- only _ (if ?b then _ else _) => destruct b end; [apply only_ret|].
  apply only_bind; [eapply only_embed; [apply lookup_reads|]; by intros l [R c r] l' Hr|].
  intros [o|e]; [|apply only_ret]. cbv zeta. destruct (list_find _ _) as [[]|]; apply only_ret.
Qed.

Lemma rendered_configurations_reads m : only render_reads (rendered_configurations apiReader DataNamespace step m).
Proof.
  unfold rendered_configurations. apply only_bind; [apply values_reads|]. intros [tv|e]; [|apply only_ret].
  eapply (only_embed _ (λ _, pack_reads)); [|by intros l [R c r] l' Hr]. generalize (map (λ c, (cf_name c, cf_values c)) (sp_configurations (m_spec m))) as cfgs.
  intros cfgs. revert tv. induction cfgs as [|[n raw] cfgs IH]; intros tv; cbn [GetTemplateParsedMiddlewareConfigurations]; [apply only_ret|].
  apply only_bind; [apply lookup_reads|]. intros [mc|e]; [|apply only_ret].
  apply only_bind.
  { unfold assign_values. destruct (String.eqb raw ""); [apply only_ret|].
    apply only_bind; [by apply only_call|]. intros [?|?]; apply only_ret. }
  intros [tv'|e]; [|apply only_ret]. apply only_bind; [by apply only_call|]. intros [t|e]; [|apply only_ret].
  apply only_bind; [apply IH|]. intros [?|?]; apply only_ret.
Qed.

Lemma extra_applied m tr : open_gate a m0 → handled_preActions tr →
  ospec D (extra_resource apiReader DataNamespace step a) m tr (λ tr' _ _, configured tr').
Proof.
  intros Hg Hh. unfold extra_resource. rewrite (proj1 Hg).
  eapply ospec_bind; [by apply ospec_get; instantiate (1 := λ _ _ _, True)|]. intros tr1 m1 m2 Hpre1 _.
  eapply ospec_bind.
  { apply ospec_lift. eapply spec_mono; [eapply only_spec; [apply rendered_configurations_reads|by intros; apply reads_ordered]|].
    intros ? ? _ _ ? _. exact I. }
  intros tr2 mcs m3 Hpre2 _. eapply (ospec_bind _ _ _ _ (λ tr' _ _, configured tr')).
  { apply ospec_lift, spec_call.
    - intros r. split_and!; [done|done|]. eapply handled_prefix; [done|by etrans].
    - intros r inv ->. exists m1, a, mcs, (ms_rendered (m_status m1)), inv. apply in_last. }
  intros tr3 inv m4 _ Hc. by apply ospec_modify.
Qed.

Lemma extra_deleted m tr : is_delete a = true →
  ospec D (extra_resource apiReader DataNamespace step a) m tr (λ tr' _ _, cleaned tr').
Proof.
  intros Hd. unfold extra_resource. rewrite Hd. eapply (spec_bind _ _ _ (λ tr' err, err = None → cleaned tr')).
  - apply spec_call; [by intros|]. intros r ->. exists m. apply in_last.
  - intros tr' [e|] _ Hc; apply spec_ret; [done|by apply Hc].
Qed.

Lemma undiagnosed_some m (e : error) : undiagnosed m (Some e) ≠ None.
Proof. done. Qed.

Lemma handleExtra_applied m tr : open_gate a m0 → handled_preActions tr →
  spec D (handleExtraResource reader apiReader DataNamespace step now a m) tr (λ tr' r, r.1 = None → configured tr').
Proof.
  intros Hg Hh. apply reporting_spec; try done; [apply configured_prefix|by apply extra_applied].
Qed.

Lemma handleExtra_deleted m tr : is_delete a = true →
  spec D (handleExtraResource reader apiReader DataNamespace step now a m) tr (λ tr' r, r.1 = None → cleaned tr').
Proof.
  intros Hd. apply reporting_spec; try done; [by rewrite Hd|apply cleanup_prefix|by apply extra_deleted].
Qed.

(** *** The apply and the deletion *)

Lemma resource_rendered m tr :
  ospec D (desired_resource apiReader DataNamespace) m tr (λ _ cr m', m' = m ∧ rendered_as m cr).
Proof.
  unfold desired_resource. eapply (ospec_bind _ _ _ _ (λ _ m1 m', m1 = m ∧ m' = m)); [by apply ospec_get|].
  intros tr1 ? ? _ [-> ->].
  eapply (ospec_bind _ _ _ _ (λ _ cr m', m' = m ∧ ∃ g spec, Unmarshal (sp_parameters (m_spec m)) = Some spec ∧
    cr = published_resource g spec m)).
  { apply ospec_wrapped, ospec_lift. unfold GetNeedPublishCustomResource. apply spec_try_pure; [done|].
    intros params Hp. assert (Hu : Unmarshal (sp_parameters (m_spec m)) = Some params).
    { destruct (Unmarshal _) as [[]|]; by simplify_eq. }
    eapply spec_bind; [eapply only_spec; [apply HandleGvk_reads|by intros; apply reads_ordered]|].
    intros tr2 [g|e] _ _; apply spec_ret; [|done]. intros cr [= <-]. split; [done|]. by exists g, params. }
  intros tr2 cr ? _ (-> & g & spec & Hu & ->). apply ospec_wrapped, ospec_check. intros cr' Ho. split; [done|].
  exists g, spec. split; [done|]. by destruct (ApplyReconcileOverrides _ _); simplify_eq/=.
Qed.

Lemma verify_ordered m cr tr : open_gate a m0 →
  ospec D (verify_resume cr) m tr (λ tr' _ m', m' = m ∧ resume_verified m cr tr').
Proof.
  intros Hg. unfold verify_resume. eapply (ospec_bind _ _ _ _ (λ _ m1 m', m1 = m ∧ m' = m)); [by apply ospec_get|].
  intros tr1 ? ? _ [-> ->].
  destruct (ReconcileResumePolicyFor (m_annotations m)) as [[]|] eqn:Ep; [|by apply ospec_ret; split; [|intros s Hs; congruence]..].
  destruct (ms_reconcilePause (m_status m)) as [s|] eqn:Es; [|by apply ospec_ret; split; [|intros s ? Hs; congruence]].
  apply ospec_wrapped, ospec_lift. unfold verify_paused.
  destruct (String.eqb (ps_adoptedLiveSpecHash s) ""); [by apply spec_ret|].
  destruct (matchesSnapshotTarget s cr) eqn:Em; [|by apply spec_ret].
  eapply (spec_bind _ _ _ (λ tr' r, Ev (ReadPausePrimary (ps_gvk s) (ps_namespace s) (ps_name s)) r ∈ tr')).
  { apply spec_call; [done|]. intros r. apply in_last. }
  intros tr2 live _ Hin. apply spec_ret. intros [] Hv. split; [done|]. intros s' _ Hs'. assert (s' = s) as -> by congruence.
  destruct (VerifyPausedPrimaryCustomResourceForApply _ _ _) as [[]|] eqn:Hver; [|done].
  destruct live as [live|e]; [by exists live|]. exfalso. revert Hver.
  unfold VerifyPausedPrimaryCustomResourceForApply, PausedPrimaryCustomResourceSpecMatchesAdoption.
  destruct (String.eqb (ps_adoptedLiveSpecHash s) ""); [done|]. rewrite Em. simpl. by destruct (is_not_found e).
Qed.

Lemma patch_ordered {X} name ns (x : X) f tr : open_gate a m0 →
  spec D (mid (PatchMiddlewareStatusFields reader name ns x f)) tr (λ _ _, True).
Proof.
  intros Hg. eapply (only_spec (λ l e, D l e)); [|by intros]. eapply only_embed; [apply patch_only|].
  intros k e l He. by eapply status_ordered.
Qed.

Lemma seed_ordered m tr : open_gate a m0 → ospec D (seedInitialCustomResourcePhase reader a) m tr (λ _ _ _, True).
Proof.
  intros Hg. pose proof (@patch_ordered string) as Hpatch. unfold seedInitialCustomResourcePhase. unfold ospec.
  destruct a; [|by apply spec_ret..]. destruct (negb _); [by apply spec_ret|].
  eapply spec_bind; [by apply Hpatch|]. intros tr1 [[e|] phase] _ _; by apply spec_ret.
Qed.

Definition applied l : Prop := ∃ cr m, written cr l ∧ Ev (StartSync cr m) tt ∈ l.

Lemma apply_ordered m cr tr : open_gate a m0 → configured tr → rendered_as m cr →
  ospec D (apply_resource reader scheme a cr) m tr (λ tr' _ _, configured tr' ∧ applied tr').
Proof.
  intros Hg Hc Hren. unfold apply_resource.
  eapply ospec_bind; [by apply verify_ordered|]. intros tr1 [] ? Hpre1 [-> Hver].
  eapply (ospec_bind _ _ _ _ (λ _ _ m', m' = m)).
  { destruct scheme; [by apply ospec_ret|by apply ospec_check]. }
  intros tr2 [] ? Hpre2 ->. eapply (ospec_bind _ _ _ _ (λ _ m1 m', m1 = m ∧ m' = m)); [by apply ospec_get|].
  intros tr3 ? ? Hpre3 [-> ->]. assert (Hpre : tr1 `prefix_of` tr3) by by etrans.
  assert (Hc3 : configured tr3) by (eapply configured_prefix; [exact Hc|by etrans]).
  assert (Hver3 : resume_verified m cr tr3) by by eapply verified_prefix.
  eapply (ospec_bind _ _ _ _ (λ tr' owned m', m' = m ∧ Ev (SetControllerReference m cr) (Ok owned) ∈ tr')).
  { apply ospec_diagnosing, ospec_lift, spec_call; [by intros|]. intros r owned ->. split; [done|apply in_last]. }
  intros tr4 owned ? Hpre4 [-> Howned]. assert (Hc4 : configured tr4) by by eapply configured_prefix.
  eapply (ospec_bind _ _ _ _ (λ tr' _ _, written owned tr')).
  { unfold write_primary. eapply (ospec_bind _ _ _ _ (λ tr' m1 m', m1 = m ∧ m' = m ∧ tr4 `prefix_of` tr')); [by apply ospec_get|].
    intros tr5 ? ? _ (-> & -> & Hpre5). apply ospec_diagnosing. eapply (spec_bind _ _ _ (λ tr' err, Ev (WriteManaged m owned) err ∈ tr')).
    - apply spec_call; [|intros; apply in_last]. intros r. split_and!; [done|by eapply configured_prefix|]. exists cr.
      split_and!; [by eapply elem_of_prefix|done|]. eapply verified_prefix; [done|by etrans].
    - intros tr6 [e|] _ Hin; [|apply spec_ret; exists m, None; split; [done|by left]].
      destruct (is_already_exists e) eqn:Ee; apply spec_ret; [|done]. exists m, (Some e). split; [done|]. right.
      exists e. split; [done|]. unfold is_already_exists in Ee. by apply bool_decide_eq_true in Ee. }
  intros tr5 [] m5 Hpre5 Hw. eapply ospec_bind; [by apply seed_ordered|]. intros tr6 [] m6 Hpre6 _.
  eapply (ospec_bind _ _ _ _ (λ _ _ _, True)); [by apply ospec_get|]. intros tr7 m7 m8 Hpre7 _.
  assert (Hpre57 : tr5 `prefix_of` tr7) by by etrans.
  eapply (ospec_bind _ _ _ _ (λ tr' _ _, ∃ name ns, Ev (EnsureCRWatcher owned name ns) None ∈ tr')).
  { apply ospec_diagnosing. eapply (spec_bind _ _ _ (λ tr' err, Ev (EnsureCRWatcher owned (m_name m8) (m_namespace m8)) err ∈ tr')).
    - apply spec_call; [|intros; apply in_last]. intros r. split; [done|by eapply written_prefix].
    - intros tr8 [e|] _ Hin; apply spec_ret; [done|]. eauto. }
  intros tr8 [] m9 Hpre8 Hens. eapply (ospec_bind _ _ _ _ (λ tr' _ _, tr8 `prefix_of` tr')); [by apply ospec_get|].
  intros tr9 m10 m11 _ Hpre9. assert (Hw9 : written owned tr9) by (eapply written_prefix; [exact Hw|by etrans; [|etrans]]).
  apply ospec_lift. eapply (spec_bind _ _ _ (λ tr' _, tr9 `prefix_of` tr' ∧ Ev (StartSync owned m10) tt ∈ tr')).
  { apply spec_call; [|intros []; split; [by apply prefix_app_r|apply in_last]]. intros r. split_and!; [done|done|].
    destruct Hens as (name & ns & Hin). exists name, ns. by eapply elem_of_prefix. }
  intros tr10 [] _ [Hpre10 Hsync]. apply spec_ret. intros [] _. split.
  - eapply configured_prefix; [exact Hc4|]. by repeat (etrans; [eassumption|]).
  - exists owned, m10. split; [by eapply written_prefix|done].
Qed.

Definition removed l : Prop := ∃ cr err, Ev (CliDelete cr) err ∈ l ∧ (err = None ∨ ∃ e, err = Some e ∧ e_kind e = NotFound).

Lemma delete_ordered m cr tr : is_delete a = true → cleaned tr →
  ospec D (delete_resource cr) m tr (λ tr' _ _, removed tr').
Proof.
  intros Hd Hc. apply ospec_lift.
  eapply (spec_bind _ _ _ (λ tr' _, Ev (ReleaseCRWatcher cr) tt ∈ tr')).
  { apply spec_call; [by intros|]. intros []. apply in_last. }
  intros tr1 _ Hpre1 Hrel. eapply (spec_bind _ _ _ (λ tr' _, Ev (StopSync cr) tt ∈ tr')).
  { apply spec_call; [intros r; split; [done|by eapply cleanup_prefix]|]. intros []. apply in_last. }
  intros tr2 _ Hpre2 Hstop. eapply (spec_bind _ _ _ (λ tr' err, Ev (CliDelete cr) err ∈ tr')).
  { apply spec_call; [|intros; apply in_last]. intros r. split_and!; [done|eapply cleanup_prefix; [done|by etrans]| |done].
    by eapply elem_of_prefix. }
  intros tr3 [e|] _ Hin; apply spec_ret; [|by intros; exists cr, None; auto].
  destruct (is_not_found e) eqn:Ee; [|done]. intros _ _. exists cr, (Some e). split; [done|]. right. exists e.
  split; [done|]. by apply bool_decide_eq_true in Ee.
Qed.

Lemma build_applied m tr : open_gate a m0 → configured tr →
  spec D (buildCustomResource reader apiReader DataNamespace scheme now a m) tr
    (λ tr' r, r.1 = None → configured tr' ∧ applied tr').
Proof.
  intros Hg Hc. apply reporting_spec; try done.
  - intros l l' [? (cr & m' & ? & ?)] Hpre. split; [by eapply configured_prefix|]. exists cr, m'.
    split; [by eapply written_prefix|by eapply elem_of_prefix].
  - rewrite (proj1 Hg). eapply ospec_bind; [apply resource_rendered|].
    intros tr1 cr ? Hpre1 [-> Hren]. apply apply_ordered; [done|by eapply configured_prefix|done].
Qed.

Lemma build_deleted m tr : is_delete a = true → cleaned tr →
  spec D (buildCustomResource reader apiReader DataNamespace scheme now a m) tr (λ tr' r, r.1 = None → removed tr').
Proof.
  intros Hd Hc. apply reporting_spec; try done; [by rewrite Hd|..].
  - intros l l' (cr & err & Hin & ?) Hpre. exists cr, err. split; [by eapply elem_of_prefix|done].
  - rewrite Hd. eapply (ospec_bind _ _ _ _ (λ _ _ _, True)).
    + unfold deleted_resource. eapply (ospec_bind _ _ _ _ (λ _ _ _, True)); [by apply ospec_get|]. intros tr1 m1 m2 _ _.
      eapply (ospec_bind _ _ _ _ (λ _ _ _, True)); [|by intros; apply ospec_ret].
      apply ospec_wrapped, ospec_lift. eapply spec_mono; [eapply only_spec; [apply HandleGvk_reads|by intros; apply reads_ordered]|].
      intros ? ? _ _ ? _. exact I.
    + intros tr1 cr m1 Hpre _. apply delete_ordered; [done|by eapply cleanup_prefix].
Qed.

Lemma apply_stages_ordered m tr : open_gate a m0 →
  ospec D (apply_stages reader apiReader DataNamespace step scheme now a) m tr (λ tr' _ _, configured tr' ∧ applied tr').
Proof.
  intros Hg. unfold apply_stages.
  eapply (ospec_bind _ _ _ _ (λ _ _ _, True)).
  { apply ospec_stage. eapply spec_mono; [by apply TemplateParse_ordered|done]. }
  intros tr1 [] m1 _ _. eapply (ospec_bind _ _ _ _ (λ tr' _ _, handled_preActions tr')).
  { apply ospec_wrapped, ospec_stage, spec_call; [by intros|]. intros [err m2] Herr. simpl in Herr. subst err.
    exists m1, m2. apply in_last. }
  intros tr2 [] m2 _ Hh. eapply (ospec_bind _ _ _ _ (λ tr' _ _, configured tr')).
  { apply ospec_wrapped, ospec_stage. by apply handleExtra_applied. }
  intros tr3 [] m3 _ Hc. apply ospec_wrapped, ospec_stage. by apply build_applied.
Qed.

Lemma delete_stages_ordered m tr : a = HandleActionDelete →
  ospec D (delete_stages reader apiReader DataNamespace step scheme now) m tr (λ tr' _ _, cleaned tr' ∧ removed tr').
Proof.
  intros Ha. assert (Hd : is_delete a = true) by by rewrite Ha. unfold delete_stages. rewrite <- Ha.
  eapply (ospec_bind _ _ _ _ (λ _ _ _, True)).
  { apply ospec_wrapped. unfold hydrateDeleteContext. eapply ospec_quiet; [|apply reads_ordered].
    repeat first
      [ apply reads_bind; [|intros]
      | apply reads_wrapped
      | apply reads_lift, baseline_reads
      | apply reads_ret ]. }
  intros tr1 [] m1 _ _. eapply (ospec_bind _ _ _ _ (λ tr' _ _, cleaned tr')).
  { apply ospec_wrapped, ospec_stage. by apply handleExtra_deleted. }
  intros tr2 [] m2 Hpre2 Hc. eapply (ospec_mono _ _ _ (λ tr' _ _, removed tr')).
  { apply ospec_wrapped, ospec_stage. by apply build_deleted. }
  intros tr3 [] m3 Hpre3 Hr. split; [by eapply cleanup_prefix|done].
Qed.
End Stages.

Definition resource_outcome (a : action) m tr tr' (r : option error * middleware) : Prop :=
  (is_delete a = false → ¬ open_gate a m → tr' = tr ∧ r.1 = None) ∧
  (r.1 = None →
     (is_delete a = true → cleaned tr' ∧ removed tr') ∧
     (open_gate a m → configured tr' ∧ applied tr')).

Lemma HandleResource_spec a m tr :
  spec (resource_order a m) (HandleResource reader apiReader DataNamespace step scheme now a m) tr (resource_outcome a m tr).
Proof.
  unfold HandleResource. destruct (is_delete a) eqn:Ed; cbn [negb andb].
  - assert (Ha : a = HandleActionDelete) by by destruct a.
    eapply spec_bind; [apply (delete_stages_ordered _ m m tr Ha)|]. intros tr1 [[[]|e] m'] _ Hq; apply spec_ret.
    + split; [by rewrite Ed|]. intros _. split; [done|]. intros [Hno _]. congruence.
    + split; [by rewrite Ed|done].
  - destruct (IsMiddlewareReconcileWriteSuspended _ _) eqn:Es.
    + assert (¬ open_gate a m) by (intros (_ & Hs & _); congruence). apply spec_ret. split; [done|].
      intros _. split; [by rewrite Ed|done].
    + destruct (point_at now CondTypeChecked m) as [m1 p] eqn:Ep.
      assert (Hck : checked now m = is_true (condition_at p m1)) by (unfold checked; by rewrite Ep).
      destruct (is_true (condition_at p m1)) eqn:Et.
      * assert (Hg : open_gate a m) by by split_and!.
        eapply spec_bind; [by apply apply_stages_ordered|]. intros tr1 [[[]|e] m'] _ Hq; apply spec_ret.
        -- split; [done|]. intros _. split; [by rewrite Ed|done].
        -- split; [done|]. by intros.
      * assert (¬ open_gate a m) by (intros (_ & _ & Hc); congruence). apply spec_ret. split; [done|].
        intros _. split; [by rewrite Ed|done].
Qed.


(** Rendering the primary resource writes nothing. *)
Lemma render_primary_reads m applyOverrides :
  only render_reads (renderPrimaryCustomResource apiReader DataNamespace step m applyOverrides).
Proof.
  unfold renderPrimaryCustomResource. apply only_bind; [|intros; apply only_ret].
  apply reads_bind; [apply render_only_reads|]. intros [].
  apply reads_bind; [apply reads_wrapped; intros m1; apply only_bind; [by apply only_call|intros [[]]; apply only_ret]|]. intros [].
  apply reads_bind; [apply reads_ret|]. intros m1. apply reads_bind; [|intros; destruct applyOverrides; apply reads_ret].
  apply reads_lift. unfold GetNeedPublishCustomResource. apply only_bind; [apply only_ret|]. intros [p|e]; [|apply only_ret].
  apply only_bind; [apply HandleGvk_reads|]. intros [g|e]; apply only_ret.
Qed.
End Order.

(** ** What the conditions say *)

Section Keeps.
Context `{!JsonLib, !YamlLib, !MetaCodec, !PackageFormat, !MapOrder, !MetaConditions,
          !RetryOnConflict mcall error is_conflict}.
Context (reader apiReader : bool) (DataNamespace : string) (step : gmap string json) (scheme : bool) (now : Z).
Context {X} (F : list condition → X).
Implicit Types (m : middleware) (tr : list aevent).

(** A step that leaves what [F] tells of the conditions as it is. *)
Definition keeps {A} (p : objM A) : Prop :=
  ∀ m tr, holds (p m) tr (λ _ r, F (ms_conditions (m_status r.2)) = F (ms_conditions (m_status m))).

Lemma keeps_bind {A B} (p : objM A) (f : A → objM B) : keeps p → (∀ a, keeps (f a)) → keeps (p ≫= f).
Proof.
  intros Hp Hf m tr. apply holds_bind. eapply holds_mono; [apply Hp|]. intros tr' [[a|e] m'] Hm'; [|done].
  eapply holds_mono; [apply Hf|]. intros tr'' r Hr. simpl in *. congruence.
Qed.
Lemma keeps_pure {A} (f : middleware → result error A * middleware) :
  (∀ m, F (ms_conditions (m_status (f m).2)) = F (ms_conditions (m_status m))) → keeps (λ m, Ret (f m)).
Proof. intros Hf m tr. apply Hf. Qed.
Lemma keeps_calls {A B} (p : middleware → aprog B) (f : B → result error A) : keeps (λ m, r ← p m; Ret (f r, m)).
Proof. intros m tr. apply holds_bind. eapply holds_mono; [apply holds_true|]. by intros. Qed.
Lemma keeps_then {A B} (p : objM A) (f : result error A * middleware → result error B) :
  keeps p → keeps (λ m, r ← p m; Ret (f r, r.2)).
Proof. intros Hp m tr. apply holds_bind. eapply holds_mono; [apply Hp|]. by intros. Qed.

Lemma metadata_keeps tv : keeps (render_metadata tv).
Proof.
  intros m tr. unfold render_metadata, parse, wrapped, check, modify, mbind, objM_bind. simpl. intros [text|e]; simpl; [|done].
  destruct (YAMLToJSON text) as [j|]; simpl; [|done]. destruct (DecodeMeta j m) as [m'|] eqn:Hd; simpl; [|done].
  by apply decode_meta_rest in Hd as [_ ->].
Qed.

Lemma keeps_wrapped {A} msg (p : objM A) : keeps p → keeps (wrapped msg p).
Proof. intros Hp. apply (keeps_then p (λ r, match r.1 with Ok a => Ok a | Err e => Err (wrap_error msg e) end) Hp). Qed.
Lemma keeps_lift {A} (p : aprog (result error A)) : keeps (lift p).
Proof. apply (keeps_calls (λ _, p) id). Qed.
Lemma keeps_check {A} (r : result error A) : keeps (check r).
Proof. by apply keeps_pure. Qed.
Lemma keeps_get : keeps get.
Proof. by apply keeps_pure. Qed.
Lemma keeps_modify f : (∀ m, F (ms_conditions (m_status (f m))) = F (ms_conditions (m_status m))) → keeps (modify f).
Proof. intros Hf. by apply keeps_pure. Qed.

Ltac keep :=
  repeat match goal with
  | |- keeps (render_metadata _) => apply metadata_keeps
  | |- keeps (_ ≫= _) => apply keeps_bind; [|intros]
  | |- keeps (wrapped _ _) => apply keeps_wrapped
  | |- keeps (lift _) => apply keeps_lift
  | |- keeps (check _) => apply keeps_check
  | |- keeps (failed _) => apply keeps_check
  | |- keeps get => apply keeps_get
  | |- keeps (modify _) => by apply keeps_modify
  | |- keeps (mret _) => by apply keeps_pure
  | |- keeps (match ?x with _ => _ end) => destruct x
  end.

Lemma render_keeps : keeps (renderMiddlewareWithBaseline apiReader DataNamespace step).
Proof.
  unfold renderMiddlewareWithBaseline, merge_baseline, check_necessary, render_parameters, render_preActions,
    render_configurations, parse, encoded, decoded. keep.
Qed.

Lemma extra_keeps a : keeps (extra_resource apiReader DataNamespace step a).
Proof.
  unfold extra_resource. destruct (is_delete a); [|keep].
  apply (keeps_calls (λ m, call (DeleteConfigurations m)) (λ err, match err with Some e => Err e | None => Ok tt end)).
Qed.

Lemma seed_keeps a : keeps (seedInitialCustomResourcePhase reader a).
Proof.
  intros m tr. unfold seedInitialCustomResourcePhase. destruct a; try done. destruct (negb _); [done|].
  apply holds_bind. eapply holds_mono; [apply holds_true|]. by intros tr' [[e|] phase] _.
Qed.

Lemma keeps_diagnosing {A} f (p : objM A) : keeps p → keeps (diagnosing f p).
Proof.
  intros Hp m tr. apply holds_bind. eapply holds_mono; [apply Hp|]. by intros tr' r Hr.
Qed.

Lemma apply_resource_keeps a cr : keeps (apply_resource reader scheme a cr).
Proof.
  unfold apply_resource, verify_resume, write_primary.
  repeat first
    [ progress keep
    | apply seed_keeps
    | apply keeps_diagnosing
    | apply (keeps_calls (λ m, call (WriteManaged m _))
        (λ err, match err with Some e => if is_already_exists e then Ok tt else Err e | None => Ok tt end))
    | apply (keeps_calls (λ m, call (EnsureCRWatcher _ (m_name m) (m_namespace m)))
        (λ err, match err with Some e => Err e | None => Ok tt end)) ].
Qed.

Lemma published_keeps a : keeps (cr ← desired_resource apiReader DataNamespace; apply_resource reader scheme a cr).
Proof. apply keeps_bind; [|intros; apply apply_resource_keeps]. unfold desired_resource. keep. Qed.

(** What the deletion leaves: a condition that is missing is added as unknown. *)
Context (HF : ∀ cs t, (now ≠ 0)%Z → F (GetCondition now cs t).1 = F cs) (Hnow : (now ≠ 0)%Z).

Lemma silent_keeps t diagnose body : keeps body →
  keeps (stage (reporting reader now t diagnose false body)).
Proof.
  intros Hb m tr. apply holds_bind. eapply (holds_mono _ _ (λ _ r, F (ms_conditions (m_status r.2)) = F (ms_conditions (m_status m)))).
  - unfold reporting, point_at. pose proof (HF (ms_conditions (m_status m)) t Hnow) as Hg.
    destruct (GetCondition now (ms_conditions (m_status m)) t) as [cs p]. simpl in Hg.
    apply holds_bind. eapply holds_mono; [apply Hb|]. intros tr1 [r m1] Hm1. simpl in *. congruence.
  - by intros tr1 [[e|] m1] Hm1.
Qed.

Lemma delete_keeps : keeps (delete_stages reader apiReader DataNamespace step scheme now).
Proof.
  unfold delete_stages, hydrateDeleteContext.
  apply keeps_bind; [apply keeps_wrapped; keep|]. intros [].
  apply keeps_bind; [apply keeps_wrapped, silent_keeps, extra_keeps|]. intros [].
  apply keeps_wrapped, silent_keeps. apply keeps_bind; [unfold deleted_resource; keep|]. intros cr. apply keeps_lift.
Qed.
End Keeps.

Section Reports.
Context `{!JsonLib, !YamlLib, !MetaCodec, !PackageFormat, !MapOrder, !MetaConditions,
          !RetryOnConflict mcall error is_conflict}.
Context (reader apiReader : bool) (DataNamespace : string) (step : gmap string json) (scheme : bool) (now : Z).
Implicit Types (m : middleware) (tr : list aevent).

(** The condition of a type, as [FindStatusCondition] finds it. *)
Definition condition_of (t : string) m : option condition :=
  FindStatusCondition (ms_conditions (m_status m)) t ≫= (ms_conditions (m_status m) !!.).

(** What the condition of a stage says of what the stage returns: it is true
    for the generation, or false with the error as its message. *)
Definition outcome_reported (t : string) (r : option error * middleware) : Prop :=
  ∃ c, condition_of t r.2 = Some c ∧ c_observedGeneration c = m_generation r.2 ∧
    (c_status c = ConditionTrue ∨ ∃ e, r.1 = Some e ∧ c_status c = ConditionFalse ∧ c_message c = e_msg e).

Lemma reported_at t p i c err m : p = Some i → c_type c = t → ms_conditions (m_status m) !! i = Some c →
  FindStatusCondition (ms_conditions (m_status m)) t = Some i →
  ∃ c', condition_of t (report_at now p err m) = Some c' ∧ c_observedGeneration c' = m_generation m ∧
    match err with None => c_status c' = ConditionTrue
                 | Some e => c_status c' = ConditionFalse ∧ c_message c' = e_msg e end.
Proof.
  intros -> Ht Hi Hf. unfold report_at, update_at, with_conditions, condition_of. cbn [m_status set_status ms_conditions set_conditions].
  set (f := match err with Some e => _ | None => _ end). assert (Hft : c_type (f c) = t) by (subst f; by destruct err).
  assert (Ha : alter f i (ms_conditions (m_status m)) = <[i := f c]> (ms_conditions (m_status m))).
  { apply list_eq. intros j. destruct (decide (i = j)) as [<-|Hne].
    - rewrite list_lookup_alter_eq, list_lookup_insert_eq by (by eapply lookup_lt_Some). by rewrite Hi.
    - by rewrite list_lookup_alter_ne, list_lookup_insert_ne. }
  exists (f c). rewrite Ha, (find_update _ _ _ _ Hf Hft). simpl.
  rewrite list_lookup_insert_eq by (by eapply lookup_lt_Some). subst f. by destruct err.
Qed.

Lemma reporting_reports t diagnose body m tr :
  (now ≠ 0)%Z → keeps id body → (∀ m, diagnose m None = None) →
  holds (reporting reader now t diagnose true body m) tr (λ _ r, outcome_reported t r).
Proof.
  intros Hnow Hkeeps Hnone. unfold reporting, point_at.
  destruct (GetCondition_spec now (ms_conditions (m_status m)) t Hnow) as (cs & i & c & -> & Hi & Ht & Hf & _ & _).
  apply holds_bind. eapply holds_mono; [apply Hkeeps|]. intros tr1 [r m1] Hm1. simpl in Hm1. cbn [done fst snd].
  set (err := diagnose m1 _). apply holds_bind.
  eapply holds_mono; [apply (holds_embed (@Mid) _ []), UpdateMiddlewareStatus_caller|].
  intros tr2 [updateErr m2] (k & _ & g & Hm2). simpl in Hm2. subst m2. simpl.
  assert (Hi1 : ms_conditions (m_status m1) !! i = Some c) by by rewrite Hm1.
  assert (Hf1 : FindStatusCondition (ms_conditions (m_status m1)) t = Some i) by by rewrite Hm1.
  destruct (reported_at t (Some i) i c err m1 eq_refl Ht Hi1 Hf1) as (c' & Hc' & Hg & Hs).
  exists c'. split_and!; [exact Hc'|by destruct err|]. destruct err as [e|]; [|by left]. right. exists e.
  split; [done|]. exact Hs.
Qed.

(** The conditions of the three stages say what the stages returned: the
    condition is current, and true unless the stage returned an error, which
    is then its message (an error of the status write alone leaves it true). *)
Theorem stage_outcome_reported a m {W} (h : handler acall W) w :
  (now ≠ 0)%Z → is_delete a = false →
  outcome_reported CondTypeTemplateParseWithBaseline
    (run h (TemplateParseWithBaseline reader apiReader DataNamespace step now m) w).1 ∧
  outcome_reported CondTypeBuildExtraResource
    (run h (handleExtraResource reader apiReader DataNamespace step now a m) w).1 ∧
  outcome_reported CondTypeApplyCluster
    (run h (buildCustomResource reader apiReader DataNamespace scheme now a m) w).1.
Proof.
  intros Hnow Ha. unfold TemplateParseWithBaseline, handleExtraResource, buildCustomResource. rewrite Ha. cbn [negb].
  assert (Hall : ∀ t diagnose body, keeps id body → (∀ m, diagnose m None = None) →
    outcome_reported t (run h (reporting reader now t diagnose true body m) w).1).
  { intros t diagnose body Hk Hn. apply (holds_run h _ w [] (λ _ r, outcome_reported t r)). by apply reporting_reports. }
  split_and!; apply Hall; try done.
  - apply render_keeps.
  - apply extra_keeps.
  - apply published_keeps.
Qed.
End Reports.

(** A deletion leaves what the conditions say of created children. *)
Section Skippable.
Context `{!JsonLib, !YamlLib, !MetaCodec, !PackageFormat, !MapOrder, !MetaConditions,
          !RetryOnConflict mcall error is_conflict}.
Context (reader apiReader : bool) (DataNamespace : string) (step : gmap string json) (scheme : bool) (now : Z).

Lemma unknown_is_not_true cs t t' : (now ≠ 0)%Z →
  condition_is_true (GetCondition now cs t).1 t' = condition_is_true cs t'.
Proof.
  intros Hnow. unfold GetCondition. destruct (FindStatusCondition cs t) eqn:Ef; [done|].
  apply find_none in Ef. cbn [fst]. rewrite set_absent by done. clear Ef.
  induction cs as [|c cs IH]; simpl; [by case_decide|]. by case_decide.
Qed.

Lemma delete_skippable m tr : (now ≠ 0)%Z →
  holds (HandleResource reader apiReader DataNamespace step scheme now HandleActionDelete m) tr
    (λ _ r, CanSkipDeleteCleanup (Some r.2) = CanSkipDeleteCleanup (Some m)).
Proof.
  intros Hnow. set (F := λ cs, (condition_is_true cs CondTypeBuildExtraResource, condition_is_true cs CondTypeApplyCluster)).
  assert (HF : ∀ cs t, (now ≠ 0)%Z → F (GetCondition now cs t).1 = F cs).
  { intros cs t _. unfold F. by rewrite !unknown_is_not_true. }
  pose proof (delete_keeps reader apiReader DataNamespace step scheme now F HF Hnow m tr) as Hk.
  unfold HandleResource. cbn [is_delete negb andb]. apply holds_bind. eapply holds_mono; [exact Hk|].
  intros tr1 [r m1] Hm1. unfold F in Hm1. simpl in *. injection Hm1 as -> ->. by destruct r.
Qed.
End Skippable.

(** ** Runs at concrete inputs *)

Section Demo.
Definition read_meta (j : json) (m : middleware) : result error middleware := Ok m.
Lemma read_meta_rest j m m' : read_meta j m = Ok m' → m_spec m' = m_spec m ∧ m_status m' = m_status m.
Proof. by intros [= <-]. Qed.
Definition fixed_meta : MetaCodec := Build_MetaCodec (λ _, JNull) read_meta (λ m, eq_refl) read_meta_rest.

Definition redis_baseline : catalog_object :=
  CatalogObject "redis" 1 {[LabelPackageName := "redis-1"]} ∅ None
    (MiddlewareBaselineSpec (BaselineSpec (OperatorBaseline "" "") redis_gvk "" [] "{}" []))
    (CatalogStatus 0 [] "").

Definition publishing (annotations : gmap string string) (pause : option pause_status) : middleware :=
  set_annotations annotations (set_labels {[LabelPackageName := "redis-1"]}
    (set_spec (MiddlewareSpec (OperatorBaseline "" "") "redis" "" [] "{}" None [])
      (set_status (set_pause pause (m_status (demo 1 0 None [Condition CondTypeChecked ConditionTrue 1 5 "" ""])))
        (demo 1 0 None [Condition CondTypeChecked ConditionTrue 1 5 "" ""])))).

Definition handle_demo (a : action) (m : middleware) (children : demo_children) : option error * middleware * list aevent :=
  run (demo_world m (demo_secret_2 ∅ ∅) (Some redis_baseline) children)
    (@HandleResource coded_json coded_yaml fixed_meta (demo_format demo_files) list_order meta_by_list
      (bounded_retry is_conflict 4) true true "default" ∅ true 9 a m) tt.

Definition child_calls (tr : list aevent) : list string :=
  omap (λ e, match e with Ev c _ => match c with
    | HandlePreActions _ => Some "preActions" | ReconcileConfigurations _ _ _ _ => Some "configurations"
    | DeleteConfigurations _ => Some "delete configurations" | ReadPausePrimary _ _ _ => Some "read"
    | SetControllerReference _ _ => Some "own" | WriteManaged _ _ => Some "write" | EnsureCRWatcher _ _ _ => Some "watch"
    | ReleaseCRWatcher _ => Some "release" | StartSync _ _ => Some "sync" | StopSync _ => Some "stop"
    | CliDelete _ => Some "delete" | _ => None end end) tr.

Definition demo_snapshot : pause_status :=
  ReconcilePauseStatus "sec" redis_gvk "prod" "redis" "uid-7" 3 "hash" 10 (@specHash coded_json (code (JObj ∅))).
Definition resuming : middleware := publishing {[AnnotationResumePolicy := "merge"]} (Some demo_snapshot).
Definition live_redis (spec : gmap string json) : unstructured :=
  Unstructured redis_gvk "prod" "redis" "uid-7" false {["spec" := JObj spec]}.

(** The stages of a publication and of a deletion; a failed cleanup keeps the
    primary resource. *)
Lemma publication_run :
  let r := handle_demo HandleActionPublish (publishing ∅ None) quiet_children in
  r.1.1 = None ∧ child_calls r.2 = ["preActions"; "configurations"; "own"; "write"; "watch"; "sync"].
Proof. by vm_compute. Qed.
Lemma deletion_run :
  let r := handle_demo HandleActionDelete (publishing ∅ None) quiet_children in
  r.1.1 = None ∧ child_calls r.2 = ["delete configurations"; "release"; "stop"; "delete"].
Proof. by vm_compute. Qed.
Lemma failed_cleanup_keeps_primary :
  let r := handle_demo HandleActionDelete (publishing ∅ None) (DemoChildren (Err (Error NotFound "")) None (Some (new_error "busy"))) in
  (e_msg <$> r.1.1) = Some "build extra resource error: busy" ∧ child_calls r.2 = ["delete configurations"].
Proof. by vm_compute. Qed.

(** A resume that merges writes over the adopted resource, and over no other. *)
Lemma merged_resume_runs :
  (child_calls (handle_demo HandleActionUpdate resuming (DemoChildren (Ok (live_redis ∅)) None None)).2 =
     ["preActions"; "configurations"; "read"; "own"; "write"; "watch"; "sync"]) ∧
  (child_calls (handle_demo HandleActionUpdate resuming
      (DemoChildren (Ok (live_redis {["size" := JStr "3"]})) None None)).2 = ["preActions"; "configurations"; "read"]).
Proof. split; by vm_compute. Qed.

Lemma stage_outcome_reported_witness :
  @outcome_reported meta_by_list CondTypeApplyCluster
    (run (demo_world (publishing ∅ None) (demo_secret_2 ∅ ∅) (Some redis_baseline)
            (DemoChildren (Err (Error NotFound "")) (Some (new_error "webhook denied")) None))
       (@buildCustomResource coded_json (demo_format demo_files) list_order meta_by_list (bounded_retry is_conflict 4)
          true true "default" true 9 HandleActionPublish (publishing ∅ None)) tt).1.
Proof.
  apply (@stage_outcome_reported coded_json coded_yaml fixed_meta (demo_format demo_files) list_order meta_by_list
    (bounded_retry is_conflict 4) true true "default" ∅ true 9 HandleActionPublish (publishing ∅ None) unit
    (demo_world (publishing ∅ None) (demo_secret_2 ∅ ∅) (Some redis_baseline)
      (DemoChildren (Err (Error NotFound "")) (Some (new_error "webhook denied")) None)) tt); [discriminate|reflexivity].
Defined.
End Demo.
