(* ===== verification/PauseAdoption.v ===== *)
(** * Adopting what was changed during a pause

    [internal/service/middleware/reconcile_adoption.go]: the snapshot taken
    when a pause begins and, when it ends, the overrides that keep the changes
    made to the primary resource meanwhile.  The records of snapshots and the
    merge of observed changes are calls ([IntentGC], [IntentMerge]). *)
From Stdlib Require Import ZArith Lia.
From stdpp Require Import base gmap strings list option.
From S2P Require Import Prelude Labels Conditions Prog Errors Middleware MiddlewareController Json Adoption JsonTools.
From S2P Require Import Catalog Packages PackageInstall MiddlewareRender MiddlewareUpgrade MiddlewareApply.

(** ** The difference of two objects

    A merge patch cannot put a null into place: a value with one is not
    reached. *)

Fixpoint no_null (j : json) : bool :=
  match j with
  | JNull => false
  | JArr l => forallb no_null l
  | JObj m => map_fold (λ _ v (acc : bool), no_null v && acc) true m
  | _ => true
  end.
Definition null_free (m : gmap string json) : Prop := no_null (JObj m) = true.

(** [jsonpatch.CreateMergePatch]: a patch that makes the second document of the
    first. *)
Class MergePatchLib `{JsonLib} := {
  CreateMergePatch : string → string → option string;
  CreateMergePatch_spec a b : null_free b → ∃ patch,
    CreateMergePatch (Marshal (JObj a)) (Marshal (JObj b)) = Some (Marshal (JObj patch)) ∧
    merge_patch (Some (JObj a)) (JObj patch) = JObj b;
}.

Section Adoption.
Context `{!JsonLib, !MergePatchLib, !YamlLib, !MetaCodec, !PackageFormat, !MapOrder}.
Context (apiReader : bool) (DataNamespace : string) (step : gmap string json).

Definition wrapping {A} (msg : string) (r : result error A) : result error A :=
  match r with Ok a => Ok a | Err e => Err (wrap_error msg e) end.

(** [BuildReconcilePauseSnapshot], internal/service/middleware/reconcile_adoption.go *)
Definition BuildReconcilePauseSnapshot (m : middleware) : aprog (result error pause_status) :=
  r ← HandleGvk apiReader DataNamespace m;
  match r with
  | Err e => Ret (Err (wrap_error "resolve primary custom resource" e))
  | Ok gvk =>
      r ← call (ReadPausePrimary gvk (m_namespace m) (m_name m));
      match r with
      | Err e => if is_not_found e then Ret (Err (adoption_err ErrReconcilePauseResourceMissing))
                 else Ret (Err (wrap_error "get primary custom resource" e))
      | Ok live => call (PreparePauseSnapshot m live)
      end
  end.

(** What was observed during the pause, on top of what is desired. *)
(** [AdoptPausedPrimaryCustomResource], internal/service/middleware/reconcile_adoption.go:127-143 *)
Definition observed_on_desired (current : unstructured) (base actual desired : gmap string json) :
    aprog (result error (gmap string json)) :=
  if decide (base = actual) then Ret (Ok desired)
  else
    adopted ←? call (AdoptObservedSpec (set_spec_field base current) (set_spec_field actual current) current);
    Ret (of_adoption (merged ← primarySpec (Some adopted); Ok merged.1)).

(** The overrides that make the merged spec of the rendered one. *)
(** [AdoptPausedPrimaryCustomResource], internal/service/middleware/reconcile_adoption.go:156-190 *)
Definition overrides_for (withoutOverrides : unstructured) (renderRaw : string) (merged : gmap string json) (hash : string) :
    result error adoption :=
  match CreateMergePatch renderRaw (Marshal (JObj merged)) with
  | None => Err (new_error "create reconcile override patch")
  | Some patch =>
      if String.eqb patch "{}" then Ok (PausedPrimaryCustomResourceAdoption None hash)
      else
        patchObject ← wrapping "decode reconcile override patch" (of_adoption (decodeSpec patch));
        Ok (PausedPrimaryCustomResourceAdoption
              (Some (ReconcileOverrides (Marshal (JObj patchObject)) renderRaw (u_gvk withoutOverrides)
                       (u_namespace withoutOverrides) (u_name withoutOverrides))) hash)
  end.

(** [AdoptPausedPrimaryCustomResource], internal/service/middleware/reconcile_adoption.go *)
Definition AdoptPausedPrimaryCustomResource (m : middleware) (snapshot : pause_status) : aprog (result error adoption) :=
  '(actualSpec, previousOverrides) ←? call (LoadPauseSnapshot m snapshot);
  base ←? pure (match decodeSpec (Marshal (JObj actualSpec)) with
                | Ok base => Ok base
                | Err _ => Err (Error PauseSnapshotInvalid "reconcile pause snapshot is invalid")
                end);
  r ← renderPrimaryCustomResource apiReader DataNamespace step (set_overrides previousOverrides m) true;
  current ←? pure (wrapping "render current primary custom resource" r);
  _ ←? pure (of_adoption (matchesSnapshotTarget snapshot current));
  r ← call (ReadPausePrimary (u_gvk current) (u_namespace current) (u_name current));
  match r with
  | Err e => if is_not_found e then Ret (Err (adoption_err ErrReconcilePauseResourceMissing))
             else Ret (Err (wrap_error "get current primary custom resource" e))
  | Ok live =>
      if negb (String.eqb (ps_resourceUID snapshot) (u_uid live)) || u_deleting live
      then Ret (Err (adoption_err ErrReconcilePauseResourceChanged))
      else
        '(_, currentRaw) ←? pure (of_adoption (primarySpec (Some current)));
        desired ←? pure (wrapping "decode current desired spec" (of_adoption (decodeSpec currentRaw)));
        '(actual, actualRaw) ←? pure (wrapping "read actual primary custom resource spec" (of_adoption (primarySpec (Some live))));
        merged ←? observed_on_desired current base actual desired;
        r ← renderPrimaryCustomResource apiReader DataNamespace step m false;
        withoutOverrides ←? pure (wrapping "render primary custom resource without overrides" r);
        _ ←? pure (of_adoption (matchesSnapshotTarget snapshot withoutOverrides));
        '(_, renderRaw) ←? pure (of_adoption (primarySpec (Some withoutOverrides)));
        Ret (overrides_for withoutOverrides renderRaw merged (specHash actualRaw))
  end.
End Adoption.

(** ** Merge patches *)

Lemma null_free_entry m k v : null_free m → m !! k = Some v → no_null v = true.
Proof.
  unfold null_free. cbn [no_null]. intros Hm. revert Hm k v.
  apply (map_fold_weak_ind (λ (b : bool) (m : gmap string json), b = true → ∀ k v, m !! k = Some v → no_null v = true)).
  - intros _ k v. by rewrite lookup_empty.
  - intros i w m' b Hi IH [Hw Hb]%andb_true_iff k v. rewrite lookup_insert_Some. intros [[-> ->]|[_ Hk]]; [done|by eapply IH].
Qed.

(** The entries of a merged object. *)
Definition object_of (v : option json) : gmap string json := match v with Some (JObj m) => m | _ => ∅ end.
Definition merged_entry (old : option json) (patch : option json) : option json :=
  match patch with None => old | Some JNull => None | Some pv => Some (merge_patch old pv) end.

Lemma merged_object t patch :
  ∃ m, merge_patch t (JObj patch) = JObj m ∧ ∀ k, m !! k = merged_entry (object_of t !! k) (patch !! k).
Proof.
  destruct (merge_is_object t patch) as [m Hm]. exists m. split; [done|]. intros k.
  pose proof (merge_lookup t patch k) as Hl. rewrite Hm in Hl. exact Hl.
Qed.

Lemma merged_object_eq t patch m :
  (∀ k, m !! k = merged_entry (object_of t !! k) (patch !! k)) → merge_patch t (JObj patch) = JObj m.
Proof.
  intros Hm. destruct (merged_object t patch) as (m' & -> & Hm'). f_equal. apply map_eq. intros k. by rewrite Hm, Hm'.
Qed.

Lemma merge_non_object t v : (∀ m, v ≠ JObj m) → merge_patch t v = v.
Proof. by destruct v; intros Hv; try done; destruct (Hv m). Qed.

(** A patch filtered against what it was made for does the same. *)
Lemma filter_same v b :
  merged_entry b (filterReconcileOverridePatchValue b b v) = merged_entry b (Some v).
Proof.
  revert b. induction v as [|x|q|s|l _|pm IH] using json_strong_ind; intros b; rewrite filter_value_eq;
    try (by rewrite decide_True).
  destruct (valueAsMap b) as [bm|] eqn:Hb; [|by rewrite decide_True]. destruct b as [[]|]; simplify_eq/=.
  assert (Heq : merge_patch (Some (JObj bm)) (JObj (filterReconcileOverridePatch bm bm pm)) = merge_patch (Some (JObj bm)) (JObj pm)).
  { destruct (merged_object (Some (JObj bm)) pm) as (m' & -> & Hm'). apply merged_object_eq. intros k. rewrite Hm', filter_patch_lookup.
    simpl. destruct (pm !! k) as [pv|] eqn:Ek; [|done]. symmetry. exact (IH k pv Ek (bm !! k)). }
  case_decide as He; [|unfold merged_entry; by rewrite Heq]. transitivity (Some (merge_patch (Some (JObj bm)) (JObj ∅))).
  - done.
  - rewrite <- He. exact (f_equal Some Heq).
Qed.

Lemma filter_patch_same base patch :
  merge_patch (Some (JObj base)) (JObj (filterReconcileOverridePatch base base patch)) = merge_patch (Some (JObj base)) (JObj patch).
Proof.
  destruct (merged_object (Some (JObj base)) patch) as (m & -> & Hm). apply merged_object_eq. intros k.
  rewrite Hm, filter_patch_lookup. simpl. destruct (patch !! k) as [pv|]; [|done]. symmetry. apply filter_same.
Qed.

(** ** What is adopted *)

Section Reapplied.
Context `{!JsonLib, !MergePatchLib}.
Implicit Types (cr plain : unstructured) (spec merged : gmap string json).

Definition spec_of cr spec : Prop := default (JObj ∅) (u_object cr !! "spec") = JObj spec.

Lemma primarySpec_spec cr spec raw :
  primarySpec (Some cr) = Ok (spec, raw) ↔ spec_of cr spec ∧ raw = Marshal (JObj spec).
Proof.
  unfold primarySpec, spec_of, decodeSpec. rewrite unmarshal_marshal.
  destruct (String.eqb_spec (Marshal (default (JObj ∅) (u_object cr !! "spec"))) "") as [He|_]; [by destruct (marshal_not_empty _ He)|].
  destruct (default (JObj ∅) (u_object cr !! "spec")); simpl; naive_solver.
Qed.

(** The target of the overrides can be named. *)
Definition named_target plain : Prop :=
  gvk_group (u_gvk plain) ≠ "" ∧ gvk_version (u_gvk plain) ≠ "" ∧ gvk_kind (u_gvk plain) ≠ "".

(** [cr] is [plain] with the given spec. *)
Definition with_spec plain spec cr : Prop :=
  spec_of cr spec ∧ u_gvk cr = u_gvk plain ∧ u_namespace cr = u_namespace plain ∧ u_name cr = u_name plain ∧
  delete "spec" (u_object cr) = delete "spec" (u_object plain).

Lemma set_spec_with plain spec : with_spec plain spec (set_spec_field spec plain).
Proof. unfold with_spec, spec_of. simpl. rewrite lookup_insert_eq. split_and!; try done. by rewrite delete_insert_eq. Qed.

Lemma patch_applied plain rendered patch merged :
  spec_of plain rendered → merge_patch (Some (JObj rendered)) (JObj patch) = JObj merged → named_target plain →
  ∃ cr, ApplyReconcileOverrides (Some (ReconcileOverrides (Marshal (JObj patch)) (Marshal (JObj rendered)) (u_gvk plain)
      (u_namespace plain) (u_name plain))) plain = Ok cr ∧ with_spec plain merged cr.
Proof.
  intros Hspec Hmerge (Hg & Hv & Hk). unfold ApplyReconcileOverrides. cbn [ro_specPatch].
  destruct (String.eqb_spec (Marshal (JObj patch)) "") as [He|_]; [by destruct (marshal_not_empty _ He)|].
  match goal with |- context [validateReconcileOverrideTarget (Some ?o) _] =>
    assert (Hb : validateReconcileOverrideTarget (Some o) (Some plain) = Ok tt) by (by apply validate_target_spec) end.
  rewrite Hb. cbn [mbind result_bind].
  rewrite (proj2 (primarySpec_spec plain rendered (Marshal (JObj rendered)))) by done. cbn [mbind result_bind].
  unfold effectiveReconcileOverridePatch. cbn [ro_baseSpec ro_specPatch]. rewrite !decodeSpec_marshal. cbn [mbind result_bind].
  set (r := filterReconcileOverridePatch rendered rendered patch).
  assert (Hr : merge_patch (Some (JObj rendered)) (JObj r) = JObj merged) by (by unfold r; rewrite filter_patch_same).
  destruct (String.eqb_spec (Marshal (JObj r)) "") as [He|_]; [by destruct (marshal_not_empty _ He)|].
  destruct (String.eqb_spec (Marshal (JObj r)) "{}") as [He|_]; cbn [orb].
  - rewrite <- marshal_empty_object in He. apply marshal_inj in He. simplify_eq. rewrite He in Hr.
    exists plain. split; [done|]. split_and!; try done. unfold spec_of in *. rewrite Hspec, <- Hr.
    symmetry. apply merged_object_eq. intros k. by rewrite lookup_empty.
  - destruct (MergePatch_spec rendered r) as (raw & -> & Hraw). rewrite Hr in Hraw.
    exists (set_spec_field merged plain). split; [|apply set_spec_with].
    unfold decodeSpec. rewrite Hraw. destruct (String.eqb_spec raw "") as [->|]; [by rewrite unmarshal_empty in Hraw|done].
Qed.

(** The overrides computed for a resource make of it what was merged. *)
Lemma overrides_reapplied plain rendered merged hash :
  spec_of plain rendered → null_free merged → named_target plain →
  ∃ ad, overrides_for plain (Marshal (JObj rendered)) merged hash = Ok ad ∧ ad_liveSpecHash ad = hash ∧
    ∃ cr, ApplyReconcileOverrides (ad_overrides ad) plain = Ok cr ∧ with_spec plain merged cr.
Proof.
  intros Hspec Hnull Hname. unfold overrides_for. destruct (CreateMergePatch_spec rendered merged Hnull) as (patch & -> & Hmerge).
  destruct (String.eqb_spec (Marshal (JObj patch)) "{}") as [He|_].
  - rewrite <- marshal_empty_object in He. apply marshal_inj in He. simplify_eq.
    exists (PausedPrimaryCustomResourceAdoption None hash). split_and!; [done..|]. exists plain. split; [done|].
    split_and!; try done. unfold spec_of in *. rewrite Hspec, <- Hmerge. symmetry. apply merged_object_eq. intros k. by rewrite lookup_empty.
  - rewrite decodeSpec_marshal. cbn [of_adoption wrapping mbind result_bind].
    eexists. split; [done|]. split; [done|]. by apply patch_applied.
Qed.
End Reapplied.

(** ** A run of the adoption *)

Section Run.
Context `{!JsonLib, !MergePatchLib, !YamlLib, !MetaCodec, !PackageFormat, !MapOrder}.
Context (apiReader : bool) (DataNamespace : string) (step : gmap string json).
Implicit Types (m : middleware) (snapshot : pause_status) (l tr : list aevent).

(** The adoption renders and reads. *)
Definition adoption_reads (tr : list aevent) (e : aevent) : Prop :=
  render_reads tr e ∨
  match e with Ev c _ => match c with ReadPausePrimary _ _ _ | LoadPauseSnapshot _ _ | AdoptObservedSpec _ _ _ => True | _ => False end end.

Definition targets snapshot cr : Prop :=
  ps_gvk snapshot = u_gvk cr ∧ ps_namespace snapshot = u_namespace cr ∧ ps_name snapshot = u_name cr.
Definition renders_to m (applyOverrides : bool) cr : Prop :=
  ∃ l, Prog.outcome (renderPrimaryCustomResource apiReader DataNamespace step m applyOverrides) l (Ok cr).

(** The session after the adoption. *)
Definition adopted_session snapshot (ad : adoption) : pause_status :=
  ReconcilePauseStatus (ps_snapshotSecret snapshot) (ps_gvk snapshot) (ps_namespace snapshot) (ps_name snapshot)
    (ps_resourceUID snapshot) (ps_generation snapshot) (ps_hash snapshot) (ps_capturedAt snapshot) (ad_liveSpecHash ad).

(** What is desired with what was observed since the snapshot. *)
Definition merged_with_observed tr current actualSpec actual desired merged : Prop :=
  (actual = actualSpec ∧ merged = desired) ∨
  (actual ≠ actualSpec ∧ ∃ adopted, spec_of adopted merged ∧
     Ev (AdoptObservedSpec (set_spec_field actualSpec current) (set_spec_field actual current) current) (Ok adopted) ∈ tr).

Definition adopted m snapshot tr (ad : adoption) : Prop :=
  ∃ actualSpec previous current live desired actual plain rendered merged,
    Ev (LoadPauseSnapshot m snapshot) (Ok (actualSpec, previous)) ∈ tr ∧
    renders_to (set_overrides previous m) true current ∧ targets snapshot current ∧ spec_of current desired ∧
    Ev (ReadPausePrimary (ps_gvk snapshot) (ps_namespace snapshot) (ps_name snapshot)) (Ok live) ∈ tr ∧
    u_uid live = ps_resourceUID snapshot ∧ u_deleting live = false ∧ spec_of live actual ∧
    ad_liveSpecHash ad = specHash (Marshal (JObj actual)) ∧
    merged_with_observed tr current actualSpec actual desired merged ∧
    renders_to m false plain ∧ targets snapshot plain ∧ spec_of plain rendered ∧
    (null_free merged → named_target plain →
      ∃ cr, ApplyReconcileOverrides (ad_overrides ad) plain = Ok cr ∧ with_spec plain merged cr ∧
        (ps_resourceUID snapshot ≠ "" → ad_liveSpecHash ad ≠ "" →
           VerifyPausedPrimaryCustomResourceForApply (λ _ _ _, Ok live) (Some (adopted_session snapshot ad)) cr = Ok tt)).

Lemma wrapping_ok {A} msg (r : result error A) a : wrapping msg r = Ok a → r = Ok a.
Proof. by destruct r; simpl; intros; simplify_eq. Qed.
Lemma of_adoption_ok {A} (r : ares A) a : of_adoption r = Ok a → r = Ok a.
Proof. by destruct r; simpl; intros; simplify_eq. Qed.
Lemma matches_target snapshot cr u : matchesSnapshotTarget snapshot cr = Ok u → targets snapshot cr.
Proof. unfold matchesSnapshotTarget. by case_decide. Qed.

Lemma observed_outcome current base actual desired l merged :
  Prog.outcome (observed_on_desired current base actual desired) l (Ok merged) →
  merged_with_observed l current base actual desired merged.
Proof.
  unfold observed_on_desired. case_decide as Heq; [intros [-> [= ->]]; by left|].
  intros (l1 & l2 & adopted & -> & ->%outcome_call & [-> Hp])%outcome_try. right. split; [congruence|].
  symmetry in Hp. apply of_adoption_ok in Hp. destruct (primarySpec (Some adopted)) as [[spec raw]|] eqn:Ep; simplify_eq/=.
  apply primarySpec_spec in Ep as [? _]. exists adopted. split; [done|]. by left.
Qed.

Lemma overrides_hash plain raw merged hash ad : overrides_for plain raw merged hash = Ok ad → ad_liveSpecHash ad = hash.
Proof.
  unfold overrides_for. destruct (CreateMergePatch _ _) as [patch|]; [|done]. destruct (String.eqb _ _); [by intros [= <-]|].
  destruct (wrapping _ _); simpl; [by intros [= <-]|done].
Qed.

(** The rest of a run, from the live resource on. *)
Lemma adoption_result snapshot plain rendered merged live actual ad :
  targets snapshot plain → spec_of plain rendered → spec_of live actual → u_uid live = ps_resourceUID snapshot →
  overrides_for plain (Marshal (JObj rendered)) merged (specHash (Marshal (JObj actual))) = Ok ad →
  null_free merged → named_target plain →
  ∃ cr, ApplyReconcileOverrides (ad_overrides ad) plain = Ok cr ∧ with_spec plain merged cr ∧
    (ps_resourceUID snapshot ≠ "" → ad_liveSpecHash ad ≠ "" →
       VerifyPausedPrimaryCustomResourceForApply (λ _ _ _, Ok live) (Some (adopted_session snapshot ad)) cr = Ok tt).
Proof.
  intros (Hg & Hn & Hm) Hspec Hlive Huid Had Hnull Hname.
  destruct (overrides_reapplied plain rendered merged (specHash (Marshal (JObj actual))) Hspec Hnull Hname)
    as (ad' & Had' & Hh & cr & Hcr & Hw). rewrite Had in Had'. injection Had' as <-.
  exists cr. split_and!; [done..|]. intros Hu Hne. destruct Hw as (_ & Hg' & Hn' & Hm' & _).
  apply resumed_write_verified. exists (adopted_session snapshot ad), live, actual. split_and!; simpl; congruence || done.
Qed.

#[local] Opaque renderPrimaryCustomResource.
Lemma adoption_outcome m snapshot l ad :
  Prog.outcome (AdoptPausedPrimaryCustomResource apiReader DataNamespace step m snapshot) l (Ok ad) → adopted m snapshot l ad.
Proof.
  unfold AdoptPausedPrimaryCustomResource.
  intros (l1 & l1' & [actualSpec previous] & -> & ->%outcome_call & Ho)%outcome_try.
  apply outcome_try_pure in Ho as (base & Hbase & Ho). rewrite decodeSpec_marshal in Hbase. simplify_eq.
  apply outcome_bind in Ho as (l2 & l2' & r & -> & Hcur & Ho).
  apply outcome_try_pure in Ho as (current & ->%wrapping_ok & Ho).
  apply outcome_try_pure in Ho as ([] & Ht%of_adoption_ok%matches_target & Ho).
  apply outcome_bind in Ho as (l3 & l3' & [live|e] & -> & ->%outcome_call & Ho); [|by destruct (is_not_found e), Ho].
  destruct (negb _ || _) eqn:Huid; [by destruct Ho|]. apply orb_false_iff in Huid as [Huid%negb_false_iff Hdel].
  apply String.eqb_eq in Huid.
  apply outcome_try_pure in Ho as ([desired raw] & [Hdes ->]%of_adoption_ok%primarySpec_spec & Ho).
  apply outcome_try_pure in Ho as (desired' & Hd & Ho). rewrite decodeSpec_marshal in Hd. simplify_eq/=.
  apply outcome_try_pure in Ho as ([actual raw] & [Hact ->]%wrapping_ok%of_adoption_ok%primarySpec_spec & Ho).
  apply outcome_try in Ho as (l4 & l4' & merged & -> & Hmerge%observed_outcome & Ho).
  apply outcome_bind in Ho as (l5 & l5' & r & -> & Hplain & Ho).
  apply outcome_try_pure in Ho as (plain & ->%wrapping_ok & Ho).
  apply outcome_try_pure in Ho as ([] & Ht'%of_adoption_ok%matches_target & Ho).
  apply outcome_try_pure in Ho as ([rendered raw] & [Hren ->]%of_adoption_ok%primarySpec_spec & [-> Had]).
  symmetry in Had. exists base, previous, current, live, desired', actual, plain, rendered, merged.
  destruct Ht as (Hg & Hn & Hm). split_and!; try done.
  - by left.
  - by exists l2.
  - rewrite Hg, Hn, Hm. right. apply elem_of_app. right. by left.
  - by eapply overrides_hash.
  - destruct Hmerge as [|(? & adopted & ? & Hin)]; [by left|right]. split; [done|]. exists adopted. split; [done|].
    right. apply elem_of_app. right. right. apply elem_of_app. by left.
  - by exists l5.
  - intros. by eapply adoption_result.
Qed.

Lemma render_adoption_reads m b : only adoption_reads (renderPrimaryCustomResource apiReader DataNamespace step m b).
Proof. eapply only_mono; [|apply render_primary_reads]. intros l e He. by left. Qed.

Lemma adoption_only_reads m snapshot : only adoption_reads (AdoptPausedPrimaryCustomResource apiReader DataNamespace step m snapshot).
Proof.
  unfold AdoptPausedPrimaryCustomResource, observed_on_desired, try.
  repeat match goal with
  | |- only _ (renderPrimaryCustomResource _ _ _ _ _) => apply render_adoption_reads
  | |- only _ (call _) => apply only_call; intros; by right
  | |- only _ (pure _) => apply only_ret
  | |- only _ (Ret _) => apply only_ret
  | |- only _ (_ ≫= _) => apply only_bind; [|intros]
  | |- only _ (let '(_, _) := ?x in _) => destruct x
  | |- only _ (match ?x with _ => _ end) => destruct x
  end.
Qed.

(** C5: The adoption of what was changed during a pause only renders and reads,
    and when it succeeds it is complete: the live resource was read under the
    identity of the session, with its UID and not being deleted; what is to be
    kept is the render with the overrides from before the pause, merged with
    what was observed when the live spec is no longer the one of the snapshot;
    and the overrides, applied to what the Middleware renders to without any,
    give exactly that spec (if it has no nulls), on an object that the check
    before the resumed write lets through as long as the live spec stays the
    one that was read. *)
Theorem adoption_reapplied {W} (h : handler acall W) (w : W) m snapshot :
  let '(r, tr) := run h (AdoptPausedPrimaryCustomResource apiReader DataNamespace step m snapshot) w in
  each adoption_reads tr ∧ match r with Ok ad => adopted m snapshot tr ad | Err _ => True end.
Proof.
  set (p := AdoptPausedPrimaryCustomResource apiReader DataNamespace step m snapshot).
  assert (Hp : holds p [] (λ tr r, each adoption_reads tr ∧ match r with Ok ad => adopted m snapshot tr ad | Err _ => True end)).
  { apply holds_outcome. intros l r Ho. split; [eapply outcome_only; [apply adoption_only_reads|exact Ho]|].
    destruct r as [ad|e]; [by apply adoption_outcome|done]. }
  pose proof (holds_run h p w [] _ Hp) as Hr. by destruct (run h p w).
Qed.
End Run.

(** ** A difference that meets its specification *)

Fixpoint diff_value (old : option json) (new : json) : option json :=
  match new, old with
  | JObj nm, Some (JObj om) =>
      let changed := map_filter_entries (λ k v, diff_value (om !! k) v) nm in
      let d := changed ∪ ((λ _, JNull) <$> (om ∖ nm)) in
      if decide (d = ∅) then None else Some (JObj d)
  | _, _ => if decide (old = Some new) then None else Some new
  end.
Definition diff (a b : gmap string json) : gmap string json :=
  map_filter_entries (λ k v, diff_value (a !! k) v) b ∪ ((λ _, JNull) <$> (a ∖ b)).

Lemma diff_value_eq old new :
  diff_value old new =
  match new, old with
  | JObj nm, Some (JObj om) => if decide (diff om nm = ∅) then None else Some (JObj (diff om nm))
  | _, _ => if decide (old = Some new) then None else Some new
  end.
Proof. by destruct new, old as [[]|]. Qed.

Lemma diff_lookup a b k :
  diff a b !! k = match b !! k with Some v => diff_value (a !! k) v | None => (λ _, JNull) <$> (a !! k) end.
Proof.
  unfold diff. rewrite lookup_union, map_filter_entries_lookup, lookup_fmap, lookup_difference.
  destruct (b !! k) as [v|]; simpl; [by destruct (diff_value _ v)|]. by destruct (a !! k).
Qed.

(** A value without nulls replaces what is no object. *)
Lemma merge_fresh t v : no_null v = true → object_of t = ∅ → merge_patch t v = v.
Proof.
  revert t. induction v as [|x|q|s|l _|m IH] using json_strong_ind; intros t Hn Ht; try done.
  apply merged_object_eq. intros k. rewrite Ht, lookup_empty. destruct (m !! k) as [v|] eqn:Ek; [|done].
  pose proof (null_free_entry m k v Hn Ek) as Hv. simpl. rewrite (IH k v Ek) by done. by destruct v.
Qed.

Lemma diff_entry old new : no_null new = true → merged_entry old (diff_value old new) = Some new.
Proof.
  revert old. induction new as [|x|q|s|l _|nm IH] using json_strong_ind; intros old Hn; rewrite diff_value_eq; try done;
    try (case_decide as He; [done|]; simpl; done).
  destruct old as [[| | | | |om]|];
    try (rewrite decide_False by done; unfold merged_entry; by rewrite merge_fresh).
  assert (Hm : merge_patch (Some (JObj om)) (JObj (diff om nm)) = JObj nm).
  { apply merged_object_eq. intros k. rewrite diff_lookup. simpl. destruct (nm !! k) as [v|] eqn:Ek.
    - symmetry. apply (IH k v Ek). by eapply null_free_entry.
    - by destruct (om !! k). }
  case_decide as He; [|unfold merged_entry; by rewrite Hm]. rewrite He in Hm. exact (f_equal Some Hm).
Qed.

Lemma diff_merges a b : null_free b → merge_patch (Some (JObj a)) (JObj (diff a b)) = JObj b.
Proof.
  intros Hb. apply merged_object_eq. intros k. rewrite diff_lookup. simpl. destruct (b !! k) as [v|] eqn:Ek.
  - symmetry. apply diff_entry. by eapply null_free_entry.
  - by destruct (a !! k).
Qed.

Definition create_patch (original modified : string) : option string :=
  match @Unmarshal coded_json original, @Unmarshal coded_json modified with
  | Some (JObj a), Some (JObj b) => Some (@Marshal coded_json (JObj (diff a b)))
  | _, _ => None
  end.
Lemma create_patch_spec a b : null_free b → ∃ patch,
  create_patch (@Marshal coded_json (JObj a)) (@Marshal coded_json (JObj b)) = Some (@Marshal coded_json (JObj patch)) ∧
  merge_patch (Some (JObj a)) (JObj patch) = JObj b.
Proof.
  intros Hb. exists (diff a b). split; [|by apply diff_merges]. unfold create_patch. by rewrite !unmarshal_marshal.
Qed.
Definition coded_diff : @MergePatchLib coded_json := Build_MergePatchLib coded_json create_patch create_patch_spec.

(** ** A run at a concrete input *)

Section Demo.
#[local] Existing Instance coded_json.
#[local] Existing Instance coded_diff.

Definition adoption_world (before live : gmap string json) : handler acall unit := λ R c w,
  (match c in acall R return R → R with
   | LoadPauseSnapshot _ _ => λ _, Ok (before, None)
   | AdoptObservedSpec _ after _ => λ _, Ok after
   | _ => id
   end (demo_world (publishing ∅ None) (demo_secret_2 ∅ ∅) (Some redis_baseline)
          (DemoChildren (Ok (live_redis live)) None None) R c w).1, w).

Definition adoption_demo (before live : gmap string json) : result error adoption :=
  (run (adoption_world before live)
     (@AdoptPausedPrimaryCustomResource _ _ coded_yaml fixed_meta (demo_format demo_files) list_order
        true "default" ∅ (publishing ∅ None) demo_snapshot) tt).1.

Definition reapplied (r : result error adoption) : option json :=
  match r with
  | Ok ad => match ApplyReconcileOverrides (ad_overrides ad) (live_redis ∅) with Ok cr => u_object cr !! "spec" | Err _ => None end
  | Err _ => None
  end.

(** A size that was changed during the pause is kept; without a change there
    is nothing to keep, whatever the live spec is. *)
Example adoption_run :
  reapplied (adoption_demo {["size" := JStr "1"]} {["size" := JStr "3"]}) = Some (JObj {["size" := JStr "3"]}) ∧
  adoption_demo {["size" := JStr "3"]} {["size" := JStr "3"]} =
    Ok (PausedPrimaryCustomResourceAdoption None (specHash (code (JObj {["size" := JStr "3"]})))).
Proof. split; by vm_compute. Qed.

(** A null that was put into the live spec cannot be adopted: the patch removes
    the field instead. *)
Example adopted_null_lost :
  reapplied (adoption_demo {["size" := JStr "1"]} {["size" := JNull]}) = Some (JObj ∅).
Proof. by vm_compute. Qed.
End Demo.
