(* ===== verification/WatcherEvents.v ===== *)
(** * What the watchers of custom resources do

    [internal/service/watcher/customresource.go]: what an event about a custom
    resource leads to, and which resources are watched when a leader starts.
    The shared watchers themselves are in [CRWatcher], the debouncers that are
    notified in [Debouncer].

    An informer hands over any value; those of another type are [NoResource]. *)
From Stdlib Require Import ZArith Lia.
From stdpp Require Import base gmap strings list option.
From S2P Require Import Prelude Labels Conditions Prog Errors Middleware Json Adoption IntentMerge.
From S2P Require Import Catalog Packages PackageInstall MiddlewareRender MiddlewareUpgrade MiddlewareApply.

(** ** Events *)

Record watched := Watched {
  wt_resource : unstructured;
  wt_labels : gmap string string;
  wt_owners : list owner_reference;
  wt_resourceVersion : string;
}.
Definition wt_namespace (cr : watched) : string := u_namespace (wt_resource cr).
Definition wt_name (cr : watched) : string := u_name (wt_resource cr).

(** What an informer hands over: an object, or a tombstone (by value or by
    pointer, which may be nil) with the last known state. *)
Inductive delivered :=
  | Resource (cr : watched)
  | NoResource
  | DeletedFinalStateUnknown (obj : delivered)
  | DeletedFinalStateUnknownPtr (obj : option delivered).

(** [customResourceEventObject], internal/service/watcher/customresource.go *)
Definition customResourceEventObject (obj : delivered) : option watched :=
  let assert_resource obj := match obj with Resource cr => Some cr | _ => None end in
  match obj with
  | DeletedFinalStateUnknown obj => assert_resource obj
  | DeletedFinalStateUnknownPtr None => None
  | DeletedFinalStateUnknownPtr (Some obj) => assert_resource obj
  | _ => assert_resource obj
  end.

(** [middlewareNameForCustomResource], internal/service/watcher/customresource.go *)
Definition middlewareNameForCustomResource (cr : watched) : string :=
  match list_find (λ r, or_kind r = "Middleware" ∧ or_apiVersion r = "middleware.cn/v1" ∧ or_name r ≠ "") (wt_owners cr) with
  | Some (_, reference) => or_name reference
  | None => wt_name cr
  end.

(** An absent status and an explicit null one are both nil in Go. *)
Definition wt_status (cr : watched) : json := default JNull (u_object (wt_resource cr) !! "status").

(** [customResourceStatusChanged], internal/service/watcher/customresource.go *)
Definition customResourceStatusChanged (oldCR newCR : watched) : bool :=
  if String.eqb (wt_resourceVersion oldCR) (wt_resourceVersion newCR) then false
  else negb (bool_decide (wt_status oldCR = wt_status newCR)).

(** [metav1.GetControllerOf] *)
Definition GetControllerOf (owners : list owner_reference) : option owner_reference :=
  snd <$> list_find (λ r, or_controller r = Some true) owners.

(** The queue of the controller takes a request, or not. *)
Inductive send_result := Sent | SendCanceled | QueueFull.

Inductive vcall : Type → Type :=
  | Env {R} (c : acall R) : vcall R
  | NotifyMiddleware (ns name : string) : vcall bool
  | NotifyNamespace (ns : string) : vcall unit
  | ReadOwner (ns name : string) : vcall (result error middleware)
  | RequestReconcile (m : middleware) : vcall send_result
  | ListMiddlewares : vcall (result error (list middleware))
  | WaitRetry : vcall bool   (** false: the context is done *)
  | GetCustomResource (name ns : string) (g : gvk) : vcall (result error unstructured).
Abbreviation vprog := (prog vcall).
Abbreviation vevent := (event vcall).
Definition in_env {A} (p : aprog A) : vprog A := interp (λ R c, call (Env c)) p.

Section Handlers.
(** [schema.ParseGroupVersion], of which the group is used. *)
Context (ParseGroup : string → option string).

(** [notifyCustomResourceSync], internal/service/watcher/customresource.go *)
Definition notifyCustomResourceSync (namespace middlewareName : string) : vprog unit :=
  if String.eqb middlewareName "" then call (NotifyNamespace namespace)
  else
    notified ← call (NotifyMiddleware namespace middlewareName);
    if (notified : bool) then Ret tt else call (NotifyNamespace namespace).

Definition of_package (cr : watched) : bool := bool_decide (is_Some (wt_labels cr !! LabelPackageName)).

(** [newResourceEventHandlerFuncs], internal/service/watcher/customresource.go:417-430 *)
Definition AddFunc (obj : delivered) : vprog unit :=
  match customResourceEventObject obj with
  | None => Ret tt
  | Some cr => if negb (of_package cr) then Ret tt
               else notifyCustomResourceSync (wt_namespace cr) (middlewareNameForCustomResource cr)
  end.

(** [newResourceEventHandlerFuncs], internal/service/watcher/customresource.go:431-455 *)
Definition UpdateFunc (oldObj newObj : delivered) : vprog unit :=
  match customResourceEventObject oldObj, customResourceEventObject newObj with
  | Some oldCR, Some newCR =>
      if negb (of_package oldCR) then Ret tt
      else if customResourceStatusChanged oldCR newCR
           then notifyCustomResourceSync (wt_namespace newCR) (middlewareNameForCustomResource newCR)
           else Ret tt
  | _, _ => Ret tt
  end.

(** What is done about a resource that is gone, with the owner that controlled it. *)
(** [newResourceEventHandlerFuncs], internal/service/watcher/customresource.go:479-508 *)
Definition rebuild_or_release (cr : watched) (ref : owner_reference) : vprog unit :=
  r ← call (ReadOwner (wt_namespace cr) (or_name ref));
  match r with
  | Err e =>
      if is_not_found e then
        _ ← call (Env (ReleaseCRWatcher (wt_resource cr)));
        call (Env (StopSync (wt_resource cr)))
      else Ret tt
  | Ok mid =>
      if negb (String.eqb (m_uid mid) (or_uid ref)) || bool_decide (is_Some (m_deletionTimestamp mid)) ||
         IsMiddlewareReconcileWriteSuspended (m_annotations mid) (ms_conditions (m_status mid))
      then Ret tt
      else _ ← call (RequestReconcile mid); Ret tt
  end.

(** [newResourceEventHandlerFuncs], internal/service/watcher/customresource.go:456-510 *)
Definition DeleteFunc (obj : delivered) : vprog unit :=
  match customResourceEventObject obj with
  | None => Ret tt
  | Some cr =>
      if negb (of_package cr) then Ret tt
      else match GetControllerOf (wt_owners cr) with
      | None => Ret tt
      | Some ref =>
          if negb (String.eqb (or_kind ref) "Middleware") || String.eqb (or_uid ref) "" then Ret tt
          else match ParseGroup (or_apiVersion ref) with
          | Some group => if String.eqb group "middleware.cn" then rebuild_or_release cr ref else Ret tt
          | None => Ret tt
          end
      end
  end.
End Handlers.

(** ** The start of the watchers *)

Section Start.
Context `{!PackageFormat, !MapOrder}.
Context (apiReader : bool) (DataNamespace : string).

Definition no_gvk : gvk := GVK "" "" "".

(** Which resource of a Middleware is watched. *)
(** [startCRWatcherImpl], internal/service/watcher/customresource.go:306-346 *)
Definition watched_gvk (mid : middleware) : aprog (result error gvk) :=
  r ← baseline_of apiReader DataNamespace mid;
  match r with
  | Err e => Ret (Err e)
  | Ok baseline =>
      let bs := spec_of_baseline baseline in
      let own := ob_name (sp_operatorBaseline (m_spec mid)) in
      let operatorBaselineName := if negb (String.eqb own "") then own else ob_name (bs_operatorBaseline bs) in
      if negb (String.eqb operatorBaselineName "") then
        r ← pack (Get_operator_baseline apiReader DataNamespace operatorBaselineName ((m_labels mid).[LabelPackageName]));
        match r with
        | Err e => Ret (Err e)
        | Ok operatorBaseline =>
            let declared := match co_spec operatorBaseline with MiddlewareOperatorBaselineSpec GVKs _ => GVKs | _ => [] end in
            match list_find (λ d, dg_name d = ob_gvkName (bs_operatorBaseline bs)) declared with
            | Some (_, d) => Ret (Ok (dg_gvk d))
            | None => Ret (Ok no_gvk)
            end
        end
      else Ret (Ok (bs_gvk bs))
  end.

(** [startCRWatcherImpl], internal/service/watcher/customresource.go:350-378 *)
Definition start_one (mid : middleware) : vprog (option error) :=
  r ← in_env (watched_gvk mid);
  match r with
  | Err _ => Ret None
  | Ok gvk =>
      r ← call (GetCustomResource (m_name mid) (m_namespace mid) gvk);
      match r with
      | Err _ => Ret None
      | Ok cr =>
          let cr := Unstructured gvk (m_namespace mid) (m_name mid) (u_uid cr) (u_deleting cr) (u_object cr) in
          _ ← call (Env (StartSync cr mid));
          call (Env (EnsureCRWatcher cr (m_name mid) (m_namespace mid)))
      end
  end.

(** [startCRWatcherImpl], internal/service/watcher/customresource.go:304-380 *)
Fixpoint start_all (middlewares : list middleware) : vprog (option error) :=
  match middlewares with
  | [] => Ret None
  | mid :: middlewares =>
      err ← start_one mid;
      match err with Some e => Ret (Some e) | None => start_all middlewares end
  end.

(** The list is retried until it succeeds or the context is done; [attempts]
    bounds how often, and [None] says that it is still being retried. *)
(** [startCRWatcherImpl], internal/service/watcher/customresource.go:286-300 *)
Fixpoint initial_list (attempts : nat) : vprog (option (result error (list middleware))) :=
  match attempts with
  | 0 => Ret None
  | S attempts =>
      r ← call ListMiddlewares;
      match r with
      | Ok middlewares => Ret (Some (Ok middlewares))
      | Err e =>
          waited ← call WaitRetry;
          if (waited : bool) then initial_list attempts else Ret (Some (Err (new_error "context canceled")))
      end
  end.

(** The restart after an error or a panic is not part of it. *)
(** [startCRWatcherImpl], internal/service/watcher/customresource.go *)
Definition startCRWatcherImpl (attempts : nat) : vprog (option (option error)) :=
  r ← initial_list attempts;
  match r with
  | None => Ret None
  | Some (Err e) => Ret (Some (Some e))
  | Some (Ok middlewares) => err ← start_all middlewares; Ret (Some err)
  end.
End Start.

(** ** Reactions to events *)

Section Reactions.
Context (ParseGroup : string → option string).
Implicit Types (cr : watched) (tr l : list vevent).

Inductive cluster_event := Added (obj : delivered) | Updated (oldObj newObj : delivered) | Deleted (obj : delivered).
Definition handle (event : cluster_event) : vprog unit :=
  match event with
  | Added obj => AddFunc obj
  | Updated oldObj newObj => UpdateFunc oldObj newObj
  | Deleted obj => DeleteFunc ParseGroup obj
  end.

(** The resource that an informer hands over, itself or as the last known state. *)
Inductive carries : delivered → watched → Prop :=
  | the_object cr : carries (Resource cr) cr
  | the_last_state cr : carries (DeletedFinalStateUnknown (Resource cr)) cr
  | the_last_state_by_pointer cr : carries (DeletedFinalStateUnknownPtr (Some (Resource cr))) cr.

(** A resource that a package put into the cluster. *)
Definition managed (obj : delivered) cr : Prop := carries obj cr ∧ is_Some (wt_labels cr !! LabelPackageName).

(** The first element with a property. *)
Definition first_with {A} (P : A → Prop) (xs : list A) (x : A) : Prop :=
  ∃ before after, xs = before ++ x :: after ∧ P x ∧ Forall (λ y, ¬ P y) before.

(** The Middleware a resource belongs to: the first that its owner references
    name, or else the one of its own name. *)
Definition names_middleware (r : owner_reference) : Prop :=
  or_kind r = "Middleware" ∧ or_apiVersion r = "middleware.cn/v1" ∧ or_name r ≠ "".
Definition belongs_to cr (name : string) : Prop :=
  (∃ r, first_with names_middleware (wt_owners cr) r ∧ name = or_name r) ∨
  (Forall (λ r, ¬ names_middleware r) (wt_owners cr) ∧ name = wt_name cr).

(** The debouncer of its Middleware, or else every one in the namespace. *)
Definition notified cr tr : Prop :=
  ∃ name, belongs_to cr name ∧
  (name ≠ "" ∧ tr = [Ev (NotifyMiddleware (wt_namespace cr) name) true] ∨
   name ≠ "" ∧ tr = [Ev (NotifyMiddleware (wt_namespace cr) name) false; Ev (NotifyNamespace (wt_namespace cr)) tt] ∨
   name = "" ∧ tr = [Ev (NotifyNamespace (wt_namespace cr)) tt]).

(** The controller of a resource is a Middleware, by its UID. *)
Definition controlled_by cr (ref : owner_reference) : Prop :=
  first_with (λ r, or_controller r = Some true) (wt_owners cr) ref ∧ or_kind ref = "Middleware" ∧ or_uid ref ≠ "" ∧
  ParseGroup (or_apiVersion ref) = Some "middleware.cn".

(** The owner that was read is the controller, and wants the resource back. *)
Definition wants_back (ref : owner_reference) (m : middleware) : Prop :=
  m_uid m = or_uid ref ∧ m_deletionTimestamp m = None ∧
  IsMiddlewareReconcileWriteSuspended (m_annotations m) (ms_conditions (m_status m)) = false.

(** All that a deletion leads to.  The request is sent once, also to a queue
    that is full and drops it. *)
Inductive deletion_handled cr : list vevent → Prop :=
  | not_controlled : (∀ ref, ¬ controlled_by cr ref) → deletion_handled cr []
  | owner_gone ref e : controlled_by cr ref → e_kind e = NotFound →
      deletion_handled cr [Ev (ReadOwner (wt_namespace cr) (or_name ref)) (Err e);
                           Ev (Env (ReleaseCRWatcher (wt_resource cr))) tt; Ev (Env (StopSync (wt_resource cr))) tt]
  | owner_not_read ref e : controlled_by cr ref → e_kind e ≠ NotFound →
      deletion_handled cr [Ev (ReadOwner (wt_namespace cr) (or_name ref)) (Err e)]
  | rebuild_requested ref m sent : controlled_by cr ref → wants_back ref m →
      deletion_handled cr [Ev (ReadOwner (wt_namespace cr) (or_name ref)) (Ok m); Ev (RequestReconcile m) sent]
  | not_wanted_back ref m : controlled_by cr ref → ¬ wants_back ref m →
      deletion_handled cr [Ev (ReadOwner (wt_namespace cr) (or_name ref)) (Ok m)].

Lemma carries_spec obj cr : carries obj cr ↔ customResourceEventObject obj = Some cr.
Proof.
  split; [by intros []|]. destruct obj as [| |[]|[[]|]]; simpl; intros [= ->]; constructor.
Qed.

Lemma first_with_spec {A} (P : A → Prop) `{!∀ x, Decision (P x)} xs :
  match list_find P xs with Some (_, x) => first_with P xs x | None => Forall (λ x, ¬ P x) xs end.
Proof.
  destruct (list_find P xs) as [[i x]|] eqn:Hf; [|exact (proj1 (list_find_None _ _) Hf)].
  apply list_find_Some in Hf as (Hi & Hx & Hbefore). exists (take i xs), (drop (S i) xs).
  split_and!; [by rewrite take_drop_middle|done|]. apply list.Forall_forall. intros y (j & Hj)%list_elem_of_lookup.
  apply lookup_take_Some in Hj as [Hj ?]. by eapply Hbefore.
Qed.

Lemma first_with_unique {A} (P : A → Prop) xs x y : first_with P xs x → first_with P xs y → x = y.
Proof.
  intros (l & r & -> & Hx & Hl) (l' & r' & Heq & Hy & Hl').
  destruct (app_eq_inv _ _ _ _ Heq) as [(k & -> & Hk)|(k & -> & Hk)]; destruct k as [|z k]; simplify_eq/=; try done.
  - by apply list.Forall_app in Hl as [_ [? _]%list.Forall_cons].
  - by apply list.Forall_app in Hl' as [_ [? _]%list.Forall_cons].
Qed.

Lemma middleware_name_spec cr : belongs_to cr (middlewareNameForCustomResource cr).
Proof.
  unfold middlewareNameForCustomResource, belongs_to. pose proof (first_with_spec names_middleware (wt_owners cr)) as Hf.
  unfold names_middleware in *. destruct (list_find _ _) as [[i x]|]; [left; by exists x|by right].
Qed.

Lemma GetControllerOf_spec cr ref : first_with (λ r, or_controller r = Some true) (wt_owners cr) ref ↔ GetControllerOf (wt_owners cr) = Some ref.
Proof.
  unfold GetControllerOf. pose proof (first_with_spec (λ r, or_controller r = Some true) (wt_owners cr)) as Hf.
  destruct (list_find _ _) as [[i x]|]; simpl.
  - split; [intros ?; f_equal; by eapply first_with_unique|by intros [= <-]].
  - split; [|done]. intros (l & r & Heq & Hx & _). rewrite Heq in Hf. by apply list.Forall_app in Hf as [_ [? _]%list.Forall_cons].
Qed.

Lemma notify_outcome cr l u :
  Prog.outcome (notifyCustomResourceSync (wt_namespace cr) (middlewareNameForCustomResource cr)) l u → notified cr l.
Proof.
  unfold notifyCustomResourceSync. intros Ho. exists (middlewareNameForCustomResource cr). split; [apply middleware_name_spec|].
  revert Ho. destruct (String.eqb_spec (middlewareNameForCustomResource cr) "") as [->|Hne].
  - intros ->%outcome_call. destruct u. tauto.
  - intros (l1 & l2 & [] & -> & ->%outcome_call & Ho)%outcome_bind; [left|right; left].
    + by destruct Ho as [-> _].
    + apply outcome_call in Ho as ->. by destruct u.
Qed.

Lemma of_package_spec cr : of_package cr = true ↔ is_Some (wt_labels cr !! LabelPackageName).
Proof. unfold of_package. apply bool_decide_eq_true. Qed.

Lemma rebuild_outcome cr ref l u : controlled_by cr ref → Prog.outcome (rebuild_or_release cr ref) l u → deletion_handled cr l.
Proof.
  intros Href (l1 & l2 & [m|e] & -> & ->%outcome_call & Ho)%outcome_bind.
  - assert (Hw : negb (String.eqb (m_uid m) (or_uid ref)) || bool_decide (is_Some (m_deletionTimestamp m)) ||
      IsMiddlewareReconcileWriteSuspended (m_annotations m) (ms_conditions (m_status m)) = false ↔ wants_back ref m).
    { rewrite !orb_false_iff, negb_false_iff, String.eqb_eq, bool_decide_eq_false, <- eq_None_not_Some. unfold wants_back. tauto. }
    destruct (negb _ || _ || _).
    + destruct Ho as [-> _]. apply not_wanted_back; [done|]. intros Hb%Hw. done.
    + apply outcome_bind in Ho as (l3 & l4 & sent & -> & ->%outcome_call & [-> _]). apply rebuild_requested; [done|by apply Hw].
  - unfold is_not_found in Ho. case_bool_decide.
    + apply outcome_bind in Ho as (l3 & l4 & [] & -> & ->%outcome_call & ->%outcome_call). destruct u. by apply owner_gone.
    + destruct Ho as [-> _]. by apply owner_not_read.
Qed.

Lemma deletion_outcome obj cr l u : managed obj cr → Prog.outcome (DeleteFunc ParseGroup obj) l u → deletion_handled cr l.
Proof.
  intros [Hobj%carries_spec Hp%of_package_spec]. unfold DeleteFunc. rewrite Hobj, Hp. cbn [negb].
  destruct (GetControllerOf (wt_owners cr)) as [ref|] eqn:Hc.
  2:{ intros [-> _]. apply not_controlled. intros ref ([= ?]%GetControllerOf_spec & _). congruence. }
  assert (Hnone : ¬ controlled_by cr ref → deletion_handled cr []).
  { intros Hno. apply not_controlled. intros ref' Hr. apply Hno. destruct Hr as (Hf & ?). pose proof Hf as Hf'%GetControllerOf_spec.
    rewrite Hc in Hf'. simplify_eq. by split. }
  assert (Hif : ∀ (b : bool) (p : vprog unit) k, (b = true → ¬ controlled_by cr ref) →
    Prog.outcome (if b then Ret tt else p) k u → b = true ∧ deletion_handled cr k ∨ b = false ∧ Prog.outcome p k u).
  { intros [] p k Hb Ho; [left|by right]. split; [done|]. destruct Ho as [-> _]. auto. }
  intros [[_ ?]|[Hb Ho]]%Hif; [done| |].
  2:{ unfold controlled_by. intros [Hk%negb_true_iff|Hu]%orb_true_iff (_ & ? & ? & _); [by apply String.eqb_neq in Hk|by apply String.eqb_eq in Hu]. }
  apply orb_false_iff in Hb as [Hk%negb_false_iff%String.eqb_eq Hu%String.eqb_neq].
  destruct (ParseGroup (or_apiVersion ref)) as [group|] eqn:Hg.
  2:{ destruct Ho as [-> _]. apply Hnone. intros (_ & _ & _ & ?). congruence. }
  destruct (String.eqb_spec group "middleware.cn") as [->|].
  - eapply rebuild_outcome; [|exact Ho]. split_and!; [by apply GetControllerOf_spec|done..].
  - destruct Ho as [-> _]. apply Hnone. intros (_ & _ & _ & ?). congruence.
Qed.

(** C36: All that an event about a custom resource of a package leads to.  A new
    resource, and one whose version and status changed, notifies exactly once:
    the debouncer of the first Middleware its owner references name (or of the
    resource's own name), and when it has none, all of its namespace; any other
    update, and what is no resource of a package, does nothing.  For a deleted
    resource whose controller is a Middleware, that Middleware is read, and
    exactly one request to rebuild is sent for it when it has the UID of the
    reference, is not being deleted and not suspended; the request may be
    dropped by a full queue or a cancelled context, and is not repeated.  When
    the Middleware is not found, the watcher and the session are released,
    once each, and in every other case nothing is done. *)
Theorem events_handled {W} (h : handler vcall W) (w : W) event :
  let tr := (run h (handle event) w).2 in
  match event with
  | Added obj => (∃ cr, managed obj cr ∧ notified cr tr) ∨ ((∀ cr, ¬ managed obj cr) ∧ tr = [])
  | Updated oldObj newObj =>
      let changed oldCR newCR := managed oldObj oldCR ∧ carries newObj newCR ∧
        wt_resourceVersion oldCR ≠ wt_resourceVersion newCR ∧ wt_status oldCR ≠ wt_status newCR in
      (∃ oldCR newCR, changed oldCR newCR ∧ notified newCR tr) ∨ ((∀ oldCR newCR, ¬ changed oldCR newCR) ∧ tr = [])
  | Deleted obj => (∃ cr, managed obj cr ∧ deletion_handled cr tr) ∨ ((∀ cr, ¬ managed obj cr) ∧ tr = [])
  end.
Proof.
  cbv zeta. set (tr := (run h (handle event) w).2).
  assert (Hout : Prog.outcome (handle event) tr tt).
  { unfold tr. pose proof (holds_run h (handle event) w [] (λ l u, Prog.outcome (handle event) l u)) as Hr.
    destruct (run h (handle event) w) as [[] l]. apply Hr, holds_outcome. done. }
  clearbody tr. destruct event as [obj|oldObj newObj|obj]; cbn [handle] in Hout.
  - destruct (customResourceEventObject obj) as [cr|] eqn:Ho; unfold AddFunc in Hout; rewrite Ho in Hout.
    2:{ right. destruct Hout as [-> _]. split; [|done]. intros cr [?%carries_spec _]. congruence. }
    destruct (of_package cr) eqn:Hp; cbn [negb] in Hout.
    + left. exists cr. split; [split; [by apply carries_spec|by apply of_package_spec]|]. by eapply notify_outcome.
    + right. destruct Hout as [-> _]. split; [|done]. intros cr' [Hc%carries_spec Hs%of_package_spec]. congruence.
  - unfold UpdateFunc in Hout. destruct (customResourceEventObject oldObj) as [oldCR|] eqn:Ho.
    2:{ right. destruct Hout as [-> _]. split; [|done]. intros o n [[?%carries_spec _] _]. congruence. }
    destruct (customResourceEventObject newObj) as [newCR|] eqn:Hn.
    2:{ right. destruct Hout as [-> _]. split; [|done]. intros o n (_ & ?%carries_spec & _). congruence. }
    destruct (of_package oldCR) eqn:Hp; cbn [negb] in Hout.
    2:{ right. destruct Hout as [-> _]. split; [|done]. intros o n ([Hc%carries_spec Hs%of_package_spec] & _). congruence. }
    unfold customResourceStatusChanged in Hout.
    destruct (String.eqb_spec (wt_resourceVersion oldCR) (wt_resourceVersion newCR)) as [Hv|Hv].
    { right. destruct Hout as [-> _]. split; [|done]. intros o n ([?%carries_spec _] & ?%carries_spec & ? & _). congruence. }
    case_bool_decide as Hst; cbn [negb] in Hout.
    + right. destruct Hout as [-> _]. split; [|done]. intros o n ([?%carries_spec _] & ?%carries_spec & _ & ?). congruence.
    + left. exists oldCR, newCR. split; [|by eapply notify_outcome].
      split_and!; [split; [by apply carries_spec|by apply of_package_spec]|by apply carries_spec|done..].
  - destruct (customResourceEventObject obj) as [cr|] eqn:Ho.
    2:{ right. unfold DeleteFunc in Hout. rewrite Ho in Hout. destruct Hout as [-> _]. split; [|done].
        intros cr [?%carries_spec _]. congruence. }
    destruct (of_package cr) eqn:Hp.
    + assert (managed obj cr) by (split; [by apply carries_spec|by apply of_package_spec]).
      left. exists cr. split; [done|]. by eapply deletion_outcome.
    + right. unfold DeleteFunc in Hout. rewrite Ho, Hp in Hout. destruct Hout as [-> _]. split; [|done].
      intros cr' [Hc%carries_spec Hs%of_package_spec]. congruence.
Qed.
End Reactions.

(** ** What is watched after a start *)

Section Started.
Context `{!PackageFormat, !MapOrder}.
Context (apiReader : bool) (DataNamespace : string).
Implicit Types (m : middleware) (l : list vevent).

(** Unless a Middleware names a kind of its own, its watcher is for the
    resource that its controller publishes. *)
Lemma watched_as_published m (l : list aevent) g : ob_gvkName (sp_operatorBaseline (m_spec m)) = "" →
  Prog.outcome (HandleGvk apiReader DataNamespace m) l (Ok g) → Prog.outcome (watched_gvk apiReader DataNamespace m) l (Ok g).
Proof.
  intros Hown. unfold HandleGvk, watched_gvk. rewrite Hown. cbn [String.eqb].
  intros (l1 & l2 & [baseline|e] & -> & Hb & Ho)%outcome_bind; [|by destruct Ho].
  apply outcome_bind. exists l1, l2, (Ok baseline). split_and!; [done..|]. cbv zeta in Ho |- *.
  destruct (String.eqb_spec (ob_name (sp_operatorBaseline (m_spec m))) "") as [He|Hne]; cbn [negb].
  - destruct (String.eqb_spec (ob_name (bs_operatorBaseline (spec_of_baseline baseline))) ""); cbn [negb]; [done|].
    apply outcome_bind in Ho as (l3 & l4 & [ob|e] & -> & Hob & Ho); [|by destruct Ho].
    apply outcome_bind. exists l3, l4, (Ok ob). split_and!; [done..|].
    by destruct (list_find _ _) as [[i d]|]; [|destruct Ho].
  - rewrite (proj2 (String.eqb_neq _ _) Hne) in Ho |- *. cbn [negb].
    apply outcome_bind in Ho as (l3 & l4 & [ob|e] & -> & Hob & Ho); [|by destruct Ho].
    apply outcome_bind. exists l3, l4, (Ok ob). split_and!; [done..|].
    by destruct (list_find _ _) as [[i d]|]; [|destruct Ho].
Qed.

(** The watcher and the synchronizer of a Middleware were started, or its
    resource was not found. *)
Definition started m l : Prop :=
  ∃ (k : list aevent) r, Prog.outcome (watched_gvk apiReader DataNamespace m) k r ∧
  ∀ g, r = Ok g → ∃ x, Ev (GetCustomResource (m_name m) (m_namespace m) g) x ∈ l ∧
  ∀ cr, x = Ok cr → let cr := Unstructured g (m_namespace m) (m_name m) (u_uid cr) (u_deleting cr) (u_object cr) in
    Ev (Env (StartSync cr m)) tt ∈ l ∧ Ev (Env (EnsureCRWatcher cr (m_name m) (m_namespace m))) None ∈ l.

Lemma started_more m l l' : started m l → l ⊆ l' → started m l'.
Proof.
  intros (k & r & Ho & Hg) Hsub. exists k, r. split; [done|]. intros g Hr. destruct (Hg g Hr) as (x & Hin & Hx).
  exists x. split; [by apply Hsub|]. intros cr Hcr. destruct (Hx cr Hcr). split; by apply Hsub.
Qed.

Lemma start_one_outcome m l : Prog.outcome (start_one apiReader DataNamespace m) l None → started m l.
Proof.
  unfold start_one. intros (l1 & l2 & r & -> & (trE & Hg & _)%interp_outcome & Ho)%outcome_bind. exists trE, r. split; [done|].
  intros g ->. apply outcome_bind in Ho as (l3 & l4 & x & -> & ->%outcome_call & Ho). exists x.
  split; [rewrite !elem_of_app; right; left; by left|]. intros cr ->. cbv zeta in Ho |- *.
  apply outcome_bind in Ho as (l5 & l6 & [] & -> & ->%outcome_call & ->%outcome_call).
  rewrite !elem_of_app. split; [right; right; left; by left|right; right; right; by left].
Qed.

Lemma start_all_outcome ms l : Prog.outcome (start_all apiReader DataNamespace ms) l None → ∀ m, m ∈ ms → started m l.
Proof.
  revert l. induction ms as [|m ms IH]; intros l; [by intros _ m' ?%elem_of_nil|]. cbn [start_all].
  intros (l1 & l2 & [e|] & -> & Hm & Ho)%outcome_bind; [by destruct Ho|]. intros m' [->|Hin]%elem_of_cons.
  - apply (started_more _ l1); [by apply start_one_outcome|]. intros e ?. apply elem_of_app. by left.
  - apply (started_more _ l2); [by apply IH|]. intros e ?. apply elem_of_app. by right.
Qed.

(** A start that ends without an error has listed the Middlewares, and one that
    cannot be resolved does not keep the others from being watched. *)
Lemma watchers_started attempts l :
  Prog.outcome (startCRWatcherImpl apiReader DataNamespace attempts) l (Some None) →
  ∃ middlewares, Ev ListMiddlewares (Ok middlewares) ∈ l ∧ ∀ m, m ∈ middlewares → started m l.
Proof.
  unfold startCRWatcherImpl. intros (l1 & l2 & r & -> & Hl & Ho)%outcome_bind.
  destruct r as [[ms|e]|]; [|by destruct Ho as [_ [= ]]|by destruct Ho].
  apply outcome_bind in Ho as (l3 & l4 & err & -> & Hall & [-> [= <-]]). rewrite app_nil_r. exists ms.
  assert (Hin : Ev ListMiddlewares (Ok ms) ∈ l1).
  { clear -Hl. revert l1 Hl. induction attempts as [|n IH]; intros l1; [by intros [_ ?]|]. cbn [initial_list].
    intros (l2 & l3 & [ms'|e] & -> & ->%outcome_call & Ho)%outcome_bind; [destruct Ho as [-> [= ->]]; by left|].
    apply outcome_bind in Ho as (l4 & l5 & [] & -> & ->%outcome_call & Ho); [|by destruct Ho as [_ ?]].
    right. right. by apply IH. }
  split; [apply elem_of_app; by left|]. intros m Hm. apply (started_more _ l3); [by eapply start_all_outcome|].
  intros e ?. apply elem_of_app. by right.
Qed.
End Started.

(** ** Examples *)

Section Demo.
Definition two_kinds : catalog_object :=
  CatalogObject "redis-operator" 1 {[LabelPackageName := "redis-1"]} ∅ None
    (MiddlewareOperatorBaselineSpec [DeclaredGVK "cluster" (GVK "redis.io" "v1" "RedisCluster") [];
                                     DeclaredGVK "sentinel" (GVK "redis.io" "v1" "RedisSentinel") []] JNull)
    (CatalogStatus 0 [] "").
Definition cluster_baseline : catalog_object :=
  CatalogObject "redis" 1 {[LabelPackageName := "redis-1"]} ∅ None
    (MiddlewareBaselineSpec (BaselineSpec (OperatorBaseline "redis-operator" "cluster") no_gvk "" [] "{}" []))
    (CatalogStatus 0 [] "").

Definition of_kind (gvkName : string) : middleware :=
  set_spec (MiddlewareSpec (OperatorBaseline "" gvkName) "redis" "" [] "{}" None []) (publishing ∅ None).
Definition two_world : handler acall unit := λ R c w,
  (match c in acall R return R → R with
   | Pack c => match c in pcall R return R → R with
               | CatalogGet KOperatorBaseline _ => λ _, Ok two_kinds
               | CatalogGet _ _ => λ _, Ok cluster_baseline
               | _ => id
               end
   | _ => id
   end (demo_world (publishing ∅ None) (demo_secret_2 ∅ ∅) None quiet_children R c w).1, w).

(** A Middleware that names a kind of its own is published as that kind, but
    after a start the kind of its baseline is watched. *)
Example own_kind_not_watched :
  (run two_world (@HandleGvk (demo_format demo_files) list_order true "default" (of_kind "sentinel")) tt).1 =
    Ok (GVK "redis.io" "v1" "RedisSentinel") ∧
  (run two_world (@watched_gvk (demo_format demo_files) list_order true "default" (of_kind "sentinel")) tt).1 =
    Ok (GVK "redis.io" "v1" "RedisCluster").
Proof. by vm_compute. Qed.

(** A suspended owner is not asked to rebuild what was deleted. *)
Definition deleted_redis : watched :=
  Watched (live_redis ∅) {[LabelPackageName := "redis-1"]} [OwnerReference "middleware.cn/v1" "Middleware" "redis" "u" (Some true)] "7".
Definition owner_world (owner : result error middleware) : handler vcall unit := λ R c w,
  (match c in vcall R return R with
   | Env c => (demo_world (publishing ∅ None) (demo_secret_2 ∅ ∅) None quiet_children _ c tt).1
   | NotifyMiddleware _ _ => true
   | NotifyNamespace _ => tt
   | ReadOwner _ _ => owner
   | RequestReconcile _ => Sent
   | ListMiddlewares => Ok []
   | WaitRetry => false
   | GetCustomResource _ _ _ => Err (Error NotFound "")
   end, w).
Definition reactions (owner : result error middleware) : list string :=
  omap (λ e, match e with Ev c _ => match c with
    | RequestReconcile _ => Some "rebuild"
    | Env c => match c with ReleaseCRWatcher _ => Some "release" | StopSync _ => Some "stop" | _ => None end
    | _ => None end end)
    (run (owner_world owner) (DeleteFunc (λ _, Some "middleware.cn") (DeletedFinalStateUnknown (Resource deleted_redis))) tt).2.
Definition owner_of (uid : string) (annotations : gmap string string) : middleware :=
  let m := publishing annotations None in
  Middleware (m_name m) (m_namespace m) uid (m_generation m) None (m_labels m) (m_annotations m) (m_finalizers m) (m_spec m) (m_status m).
Example deletion_reactions :
  reactions (Ok (owner_of "u" ∅)) = ["rebuild"] ∧ reactions (Ok (owner_of "v" ∅)) = [] ∧
  reactions (Ok (owner_of "u" {[AnnotationSuspendReconcile := "true"]})) = [] ∧
  reactions (Err (Error NotFound "")) = ["release"; "stop"].
Proof. by vm_compute. Qed.
End Demo.
