(* ===== verification/RbacClients.v ===== *)
(** * The RBAC objects of an operator in the cluster

    [internal/k8s/rbac.go]: reading, creating, updating and deleting service
    accounts, roles and bindings; and the objects that
    [internal/service/middlewareoperator/rbac.go] asks for.  [OperatorResources]
    decides which are written when; here its calls become requests. *)
From Stdlib Require Import ZArith Lia.
From stdpp Require Import base gmap strings list option.
From S2P Require Import Prelude Labels Conditions Prog Json Adoption Middleware Errors WorkloadPhase Operator OperatorUpgrade OperatorResources OperatorController.

(** ** Objects

    A kind's own fields are its body: every field of the kind but the metadata. *)
Record subject := Subject { sub_kind : string; sub_name : string; sub_namespace : string }.
Record role_ref := RoleRef { ref_apiGroup : string; ref_kind : string; ref_name : string }.
Inductive rbac_body :=
  | ServiceAccountBody (automount : option bool) (imagePullSecrets : list string) (secrets : list json)
  | RoleBody (rules : list json)
  | ClusterRoleBody (rules : list json) (aggregationRule : option json)
  | BindingBody (subjects : list subject) (roleRef : role_ref).
Record rbac_live := RbacLive {
  rl_kind : rbac_kind; rl_namespace : string; rl_name : string; rl_resourceVersion : string;
  rl_controller : option string; rl_labels : gmap string string; rl_annotations : gmap string string;
  rl_body : rbac_body;
}.
#[export] Instance subject_eq_dec : EqDecision subject.
Proof. solve_decision. Defined.
#[export] Instance role_ref_eq_dec : EqDecision role_ref.
Proof. solve_decision. Defined.
#[export] Instance rbac_body_eq_dec : EqDecision rbac_body.
Proof. solve_decision. Defined.
#[export] Instance rbac_live_eq_dec : EqDecision rbac_live.
Proof. solve_decision. Defined.

Definition empty_body (kind : rbac_kind) : rbac_body :=
  match kind with
  | ServiceAccount => ServiceAccountBody None [] []
  | Role => RoleBody []
  | ClusterRole => ClusterRoleBody [] None
  | RoleBinding | ClusterRoleBinding => BindingBody [] (RoleRef "" "" "")
  end.
(** [new(rbacv1.Role)] and the like. *)
Definition zero_object (kind : rbac_kind) : rbac_live := RbacLive kind "" "" "" None ∅ ∅ (empty_body kind).

Record rkey := RKey { rk_kind : rbac_kind; rk_namespace : string; rk_name : string }.
#[export] Instance rkey_eq_dec : EqDecision rkey.
Proof. solve_decision. Defined.
Definition key_of (o : rbac_live) : rkey := RKey (rl_kind o) (rl_namespace o) (rl_name o).
Definition cluster_wide (kind : rbac_kind) : bool := match kind with ClusterRole | ClusterRoleBinding => true | _ => false end.

(** ** Requests *)

Inductive kcall : Type → Type :=
  | KGet (k : rkey) : kcall (result error rbac_live)
  | KCreate (o : rbac_live) : kcall (option error)
  | KUpdate (o : rbac_live) : kcall (option error)
  | KDelete (k : rkey) : kcall (option error)
  | OpCall {R} (c : ocall R) : kcall R.
Abbreviation kprog := (prog kcall).
Abbreviation kevent := (event kcall).

(** [cmp.Equal]: what it finds equal is equal; a nil and an empty slice, which
    are the same list here, it tells apart. *)
Class GoCmp := {
  cmp_bodies : rbac_body → rbac_body → bool;
  cmp_bodies_sound b b' : cmp_bodies b b' = true → b = b';
}.

Section Clients.
Context `{!GoCmp, !RetryOnConflict kcall error is_conflict}.
Implicit Types (o now : rbac_live).

Definition get_object (what : string) (k : rkey) : kprog (result error rbac_live) :=
  r ← call (KGet k);
  Ret (match r with Ok o => Ok o | Err e => Err (wrap_error ("get " +:+ what +:+ " " +:+ rk_name k +:+ " error") e) end).
(** [GetServiceAccount], internal/k8s/rbac.go *)
Definition GetServiceAccount (name namespace : string) := get_object "service account" (RKey ServiceAccount namespace name).
(** [GetRole], internal/k8s/rbac.go *)
Definition GetRole (name namespace : string) := get_object "role" (RKey Role namespace name).
(** [GetClusterRole], internal/k8s/rbac.go *)
Definition GetClusterRole (name : string) := get_object "cluster role" (RKey ClusterRole "" name).
(** [GetRoleBinding], internal/k8s/rbac.go *)
Definition GetRoleBinding (name namespace : string) := get_object "role binding" (RKey RoleBinding namespace name).
(** [GetClusterRoleBinding], internal/k8s/rbac.go *)
Definition GetClusterRoleBinding (name : string) := get_object "cluster role binding" (RKey ClusterRoleBinding "" name).

(** What is there, the zero object after a creation, or an error. *)
(** [CreateRole], internal/k8s/rbac.go:129-141 *)
Definition create_missing (what looked : string) (k : rkey) o : kprog (result error rbac_live) :=
  r ← call (KGet k);
  match r with
  | Ok found => Ret (Ok found)
  | Err e =>
      if is_not_found e then
        err ← call (KCreate o);
        Ret (match err with Some e => Err (wrap_error ("create " +:+ what +:+ " error") e) | None => Ok (zero_object (rk_kind k)) end)
      else Ret (Err (wrap_error ("get " +:+ looked +:+ " error") e))
  end.
Definition unless_differs (message : string) (differs : rbac_live → bool) o (p : kprog (result error rbac_live)) : kprog (option error) :=
  r ← p;
  Ret (match r with
       | Err e => Some e
       | Ok found => if differs found then Some (new_error (message +:+ rl_name o)) else None
       end).
Definition same_name o found : bool := String.eqb (rl_name o) (rl_name found).
Definition same_namespace o found : bool := String.eqb (rl_namespace o) (rl_namespace found).
Definition rules_of (b : rbac_body) : rbac_body :=
  match b with ClusterRoleBody rules _ | RoleBody rules => RoleBody rules | b => b end.
Definition other_rules o found : bool := negb (cmp_bodies (rules_of (rl_body o)) (rules_of (rl_body found))).
Definition other_binding o found : bool := negb (cmp_bodies (rl_body o) (rl_body found)).

(** [CreateServiceAccount], internal/k8s/rbac.go *)
Definition CreateServiceAccount o : kprog (option error) :=
  unless_differs "" (λ _, false) o
    (create_missing "service account" "service account" (RKey ServiceAccount (rl_namespace o) (rl_name o)) o).
(** [CreateRole], internal/k8s/rbac.go *)
Definition CreateRole o : kprog (option error) :=
  unless_differs "role with same name but different rules already exists: "
    (λ found, same_name o found && same_namespace o found && other_rules o found) o
    (create_missing "role" "role" (RKey Role "" (rl_name o)) o).
(** [CreateClusterRole], internal/k8s/rbac.go *)
Definition CreateClusterRole o : kprog (option error) :=
  unless_differs "cluster role with same name but different rules already exists: "
    (λ found, same_name o found && other_rules o found) o
    (create_missing "cluster role" "cluster role" (RKey ClusterRole "" (rl_name o)) o).
(** [CreateRoleBinding], internal/k8s/rbac.go *)
Definition CreateRoleBinding o : kprog (option error) :=
  unless_differs "role binding with same name but different spec already exists: "
    (λ found, same_name o found && same_namespace o found && other_binding o found) o
    (create_missing "role binding" "role" (RKey RoleBinding "" (rl_name o)) o).
(** [CreateClusterRoleBinding], internal/k8s/rbac.go *)
Definition CreateClusterRoleBinding o : kprog (option error) :=
  unless_differs "cluster role binding with same name but different spec already exists: "
    (λ found, same_name o found && other_binding o found) o
    (create_missing "cluster role binding" "service account" (RKey ClusterRoleBinding "" (rl_name o)) o).

(** The object read, with the labels, the annotations and the fields of [o]. *)
Definition refreshed o now : rbac_live :=
  RbacLive (rl_kind now) (rl_namespace now) (rl_name now) (rl_resourceVersion now) (rl_controller now)
    (rl_labels o) (rl_annotations o) (rl_body o).
Definition update_object (what : string) (k : rkey) o : kprog (option error) :=
  r ← retry tt (λ _,
    r ← call (KGet k);
    match r with
    | Err e => Ret (Some e, tt)
    | Ok now =>
        err ← call (KUpdate (refreshed o now));
        Ret (option_map (wrap_error ("update " +:+ what +:+ " error")) err, tt)
    end);
  Ret r.1.
(** [UpdateServiceAccount], internal/k8s/rbac.go *)
Definition UpdateServiceAccount o := update_object "service account" (RKey ServiceAccount (rl_namespace o) (rl_name o)) o.
(** [UpdateRole], internal/k8s/rbac.go *)
Definition UpdateRole o := update_object "role" (RKey Role (rl_namespace o) (rl_name o)) o.
(** [UpdateClusterRole], internal/k8s/rbac.go *)
Definition UpdateClusterRole o := update_object "cluster role" (RKey ClusterRole "" (rl_name o)) o.
(** [UpdateRoleBinding], internal/k8s/rbac.go *)
Definition UpdateRoleBinding o := update_object "role binding" (RKey RoleBinding (rl_namespace o) (rl_name o)) o.
(** [UpdateClusterRoleBinding], internal/k8s/rbac.go *)
Definition UpdateClusterRoleBinding o := update_object "cluster role binding" (RKey ClusterRoleBinding "" (rl_name o)) o.

Definition create_or_update (get : kprog (result error rbac_live)) (create update : kprog (option error)) : kprog (option error) :=
  r ← get;
  match r with
  | Err e => if is_not_found e then create else Ret (Some e)
  | Ok _ => update
  end.
(** [CreateOrUpdateServiceAccount], internal/k8s/rbac.go *)
Definition CreateOrUpdateServiceAccount o :=
  create_or_update (GetServiceAccount (rl_name o) (rl_namespace o)) (CreateServiceAccount o) (UpdateServiceAccount o).
(** [CreateOrUpdateRole], internal/k8s/rbac.go *)
Definition CreateOrUpdateRole o := create_or_update (GetRole (rl_name o) (rl_namespace o)) (CreateRole o) (UpdateRole o).
(** [CreateOrUpdateClusterRole], internal/k8s/rbac.go *)
Definition CreateOrUpdateClusterRole o := create_or_update (GetClusterRole (rl_name o)) (CreateClusterRole o) (UpdateClusterRole o).
(** [CreateOrUpdateRoleBinding], internal/k8s/rbac.go *)
Definition CreateOrUpdateRoleBinding o :=
  create_or_update (GetRoleBinding (rl_name o) (rl_namespace o)) (CreateRoleBinding o) (UpdateRoleBinding o).
(** [CreateOrUpdateClusterRoleBinding], internal/k8s/rbac.go *)
Definition CreateOrUpdateClusterRoleBinding o :=
  create_or_update (GetClusterRoleBinding (rl_name o)) (CreateClusterRoleBinding o) (UpdateClusterRoleBinding o).

(** [DeleteServiceAccount], internal/k8s/rbac.go *)
Definition DeleteServiceAccount o : kprog (option error) := call (KDelete (key_of o)).
Definition delete_read (message : string) (get : kprog (result error rbac_live)) : kprog (option error) :=
  r ← get;
  match r with
  | Err e => Ret (Some (wrap_error message e))
  | Ok o => call (KDelete (key_of o))
  end.
(** [DeleteRole], internal/k8s/rbac.go *)
Definition DeleteRole (name namespace : string) := delete_read "get role error" (GetRole name namespace).
(** [DeleteClusterRole], internal/k8s/rbac.go *)
Definition DeleteClusterRole (name : string) : kprog (option error) :=
  r ← GetClusterRole name;
  match r with
  | Err e => Ret (if is_not_found e then None else Some (wrap_error "delete cluster role error" e))
  | Ok cr => call (KDelete (key_of cr))
  end.
(** [DeleteRoleBinding], internal/k8s/rbac.go *)
Definition DeleteRoleBinding (name namespace : string) := delete_read "get role binding error" (GetRoleBinding name namespace).
(** [DeleteClusterRoleBinding], internal/k8s/rbac.go *)
Definition DeleteClusterRoleBinding (name : string) := delete_read "get cluster role binding error" (GetClusterRoleBinding name).

(** ** The objects of an operator *)

(** The subject is in the namespace of the operator, the role in the group of
    the API. *)
(** [handleRoleBinding], internal/service/middlewareoperator/rbac.go:214-226 *)
Definition binding_body (namespace : string) (roleKind name : string) : rbac_body :=
  BindingBody [Subject "ServiceAccount" name namespace] (RoleRef "rbac.authorization.k8s.io" roleKind name).
Definition live_of (r : rbac_object) : rbac_live :=
  RbacLive (ro_kind r) (ro_namespace r) (ro_name r) "" (ro_controller r) (ro_labels r) ∅
    (match ro_kind r with
     | ServiceAccount => ServiceAccountBody None [] []
     | Role => RoleBody (ro_rules r)
     | ClusterRole => ClusterRoleBody (ro_rules r) None
     | RoleBinding => binding_body (ro_subjectNamespace r) "Role" (ro_name r)
     | ClusterRoleBinding => binding_body (ro_subjectNamespace r) "ClusterRole" (ro_name r)
     end).

Definition create_rbac o : kprog (option error) :=
  match rl_kind o with
  | ServiceAccount => CreateServiceAccount o
  | Role => CreateRole o
  | ClusterRole => CreateClusterRole o
  | RoleBinding => CreateRoleBinding o
  | ClusterRoleBinding => CreateClusterRoleBinding o
  end.
Definition create_or_update_rbac o : kprog (option error) :=
  match rl_kind o with
  | ServiceAccount => CreateOrUpdateServiceAccount o
  | Role => CreateOrUpdateRole o
  | ClusterRole => CreateOrUpdateClusterRole o
  | RoleBinding => CreateOrUpdateRoleBinding o
  | ClusterRoleBinding => CreateOrUpdateClusterRoleBinding o
  end.
Definition delete_rbac o : kprog (option error) :=
  match rl_kind o with
  | ServiceAccount => DeleteServiceAccount o
  | Role => DeleteRole (rl_name o) (rl_namespace o)
  | ClusterRole => DeleteClusterRole (rl_name o)
  | RoleBinding => DeleteRoleBinding (rl_name o) (rl_namespace o)
  | ClusterRoleBinding => DeleteClusterRoleBinding (rl_name o)
  end.

(** What the calls of [handleRBAC] do. *)
Definition rbac_client (R : Type) (c : ocall R) : kprog R :=
  match c in ocall R return kprog R with
  | RbacCreate r => create_rbac (live_of r)
  | RbacCreateOrUpdate r => create_or_update_rbac (live_of r)
  | RbacDelete r => delete_rbac (live_of r)
  | c => call (OpCall c)
  end.
End Clients.

(** [handleRBAC] with these clients. *)
Definition reconcile_rbac `{!MetaConditions, !RetryOnConflict ocall error is_conflict, !GoCmp, !RetryOnConflict kcall error is_conflict}
    (reader : bool) (clock : Z) (ControllerReference : operator → option error) (a : action) (o : operator) :
    kprog (option error * operator) :=
  interp rbac_client (handleRBAC reader clock ControllerReference a o).

(** ** What the requests are *)

Section Discipline.
Context `{!GoCmp, !RetryOnConflict kcall error is_conflict}.
Implicit Types (w now : rbac_live) (l tr : list kevent) (a : action).

(** Where a creation looks for the object: a service account under its key,
    the others under their name without a namespace. *)
Definition lookup_key w : rkey :=
  match rl_kind w with
  | ServiceAccount => key_of w
  | kind => RKey kind "" (rl_name w)
  end.
Definition absent k l : Prop := ∃ l' e, l = l' ++ [Ev (KGet k) (Err e)] ∧ e_kind e = NotFound.
(** What a creation follows at once: the lookup that found nothing, and, for an
    update, a read of the object's own key before it that found nothing. *)
Definition found_absent a w l : Prop :=
  absent (lookup_key w) l ∧ (a = HandleActionUpdate → ∃ l' x, l = l' ++ [x] ∧ absent (key_of w) l').

(** Requests for one object [w]: it is created only right after it was looked
    up and not found, updated only as it was just read but for what it is to
    say, and deleted only as it was just read (a service account by its name). *)
Definition request_for a w l (e : kevent) : Prop :=
  match e with Ev c _ => match c with
  | KGet k => k = key_of w ∨ a ≠ HandleActionDelete ∧ k = lookup_key w
  | KCreate u => a ≠ HandleActionDelete ∧ u = w ∧ found_absent a w l
  | KUpdate u => a = HandleActionUpdate ∧ ∃ l' now, l = l' ++ [Ev (KGet (key_of w)) (Ok now)] ∧ u = refreshed w now
  | KDelete k => a = HandleActionDelete ∧
      (rl_kind w = ServiceAccount ∧ k = key_of w ∨ ∃ l' now, l = l' ++ [Ev (KGet (key_of w)) (Ok now)] ∧ k = key_of now)
  | OpCall _ => False
  end end.

(** Two objects of a kind have the same rules, or subjects and role; a creation
    does not compare service accounts, which have neither. *)
Definition agrees w old : Prop :=
  match rl_kind w with
  | ServiceAccount => True
  | Role | ClusterRole => rules_of (rl_body w) = rules_of (rl_body old)
  | RoleBinding | ClusterRoleBinding => rl_body w = rl_body old
  end.

(** The object was written as it is to be, or the lookup of a creation found
    one, which has the same content if it is the object looked for. *)
Definition settled w l : Prop :=
  Ev (KCreate w) None ∈ l ∨
  (∃ now, Ev (KGet (key_of w)) (Ok now) ∈ l ∧ Ev (KUpdate (refreshed w now)) None ∈ l) ∨
  (∃ old, Ev (KGet (lookup_key w)) (Ok old) ∈ l ∧ (rl_name old = rl_name w → rl_namespace old = rl_namespace w → agrees w old)).

(** A cluster-wide object has no namespace. *)
Definition well_placed w : Prop := cluster_wide (rl_kind w) = true → rl_namespace w = "".

Lemma settled_more w l l' : settled w l → l ⊆ l' → settled w l'.
Proof. unfold settled. intros Hs Hsub. destruct Hs as [?|[(now & ? & ?)|(old & ? & ?)]]; [left|right; left|right; right]; eauto 10. Qed.

Lemma create_missing_spec a what looked k w tr : a ≠ HandleActionDelete → k = lookup_key w →
  (a = HandleActionUpdate → absent (key_of w) tr) →
  spec (request_for a w) (create_missing what looked k w) tr
    (λ tr' r, ∀ old, r = Ok old → Ev (KCreate w) None ∈ tr' ∨ Ev (KGet (lookup_key w)) (Ok old) ∈ tr').
Proof.
  intros Ha -> Hfirst. unfold create_missing. set (k := lookup_key w).
  eapply (spec_bind _ _ _ (λ tr' r, tr' = tr ++ [Ev (KGet k) r])); [apply spec_call; [intros; by right|done]|].
  intros tr1 [old|e] _ ->; [apply spec_ret; intros ? [= <-]; right; apply elem_of_app; right; by left|].
  destruct (is_not_found e) eqn:He; [|by apply spec_ret]. apply bool_decide_eq_true in He.
  eapply (spec_bind _ _ _ (λ tr' r, r = None → Ev (KCreate w) None ∈ tr')).
  - apply spec_call; [|intros r ->; apply elem_of_app; right; by left]. intros r. split_and!; [done..|].
    split; [by exists tr, e|]. intros Hu. exists tr, (Ev (KGet k) (Err e)). auto.
  - intros tr2 [err|] _ Hin; apply spec_ret; intros old; [done|]. left. by apply Hin.
Qed.

Lemma create_rbac_spec a w tr : a ≠ HandleActionDelete → (a = HandleActionUpdate → absent (key_of w) tr) →
  spec (request_for a w) (create_rbac w) tr (λ tr' r, r = None → settled w tr').
Proof.
  intros Ha Hfirst.
  assert (Hgen : ∀ what looked k message differs, k = lookup_key w →
    (∀ old, differs old = false → rl_name old = rl_name w → rl_namespace old = rl_namespace w → agrees w old) →
    spec (request_for a w) (unless_differs message differs w (create_missing what looked k w)) tr
      (λ tr' r, r = None → settled w tr')).
  { intros what looked k message differs Hk Hd. unfold unless_differs. eapply spec_bind; [by apply create_missing_spec|].
    intros tr1 [old|e] _ Hin; apply spec_ret; [|done]. destruct (differs old) eqn:Hdo; [done|]. intros _.
    destruct (Hin old eq_refl) as [?|?]; [by left|right; right]. exists old. auto. }
  unfold create_rbac, CreateServiceAccount, CreateRole, CreateClusterRole, CreateRoleBinding, CreateClusterRoleBinding.
  destruct (rl_kind w) eqn:Hk; (apply Hgen; [by unfold lookup_key, key_of; rewrite Hk|]);
    unfold agrees, same_name, same_namespace, other_rules, other_binding; rewrite Hk;
    intros old Hd Hn Hs; try done;
    rewrite Hn, ?Hs, !String.eqb_refl in Hd; by apply negb_false_iff, cmp_bodies_sound in Hd.
Qed.

Lemma update_object_spec what w tr :
  spec (request_for HandleActionUpdate w) (update_object what (key_of w) w) tr (λ tr' r, r = None → settled w tr').
Proof.
  unfold update_object. eapply (spec_bind _ _ _ (λ tr' r, r.1 = None → settled w tr')); [|intros; by apply spec_ret].
  apply (spec_retry _ _ _ (λ _ _, True)); [|done]. intros [] tr1 _.
  eapply (spec_bind _ _ _ (λ tr' r, tr' = tr1 ++ [Ev (KGet (key_of w)) r])); [apply spec_call; [intros; by left|done]|].
  intros tr2 [now|e] _ ->; [|by apply spec_ret].
  eapply (spec_bind _ _ _ (λ tr' r, r = None → settled w tr')).
  - apply spec_call; [intros r; split; [done|]; by exists tr1, now|]. intros r ->. right. left. exists now.
    rewrite !elem_of_app. split; [left; right; by left|right; by left].
  - intros tr3 [err|] _ Hs; apply spec_ret; (split; [|done]); [done|auto].
Qed.

Lemma get_spec a what w tr :
  spec (request_for a w) (get_object what (key_of w)) tr
    (λ tr' r, match r with
       | Ok now => ∃ l', tr' = l' ++ [Ev (KGet (key_of w)) (Ok now)]
       | Err e => is_not_found e = true → absent (key_of w) tr' end).
Proof.
  unfold get_object. eapply (spec_bind _ _ _ (λ tr' r, tr' = tr ++ [Ev (KGet (key_of w)) r])); [apply spec_call; [intros; by left|done]|].
  intros tr1 [now|e] _ ->; apply spec_ret; [by eexists|]. intros He%bool_decide_eq_true. by exists tr, e.
Qed.

Lemma create_or_update_spec w tr : well_placed w →
  spec (request_for HandleActionUpdate w) (create_or_update_rbac w) tr (λ tr' r, r = None → settled w tr').
Proof.
  intros Hw.
  assert (Hgen : ∀ what what', spec (request_for HandleActionUpdate w)
    (create_or_update (get_object what (key_of w)) (create_rbac w) (update_object what' (key_of w) w)) tr (λ tr' r, r = None → settled w tr')).
  { intros what what'. unfold create_or_update. eapply spec_bind; [by apply get_spec|]. intros tr1 [now|e] _ Hget; [apply update_object_spec|].
    destruct (is_not_found e); [apply create_rbac_spec; auto|by apply spec_ret]. }
  unfold well_placed in Hw. unfold create_or_update_rbac, CreateOrUpdateServiceAccount, CreateOrUpdateRole, CreateOrUpdateClusterRole,
    CreateOrUpdateRoleBinding, CreateOrUpdateClusterRoleBinding, GetServiceAccount, GetRole, GetClusterRole, GetRoleBinding,
    GetClusterRoleBinding, UpdateServiceAccount, UpdateRole, UpdateClusterRole, UpdateRoleBinding, UpdateClusterRoleBinding.
  unfold create_rbac, key_of in Hgen. destruct (rl_kind w); try rewrite (Hw eq_refl) in Hgen; apply Hgen.
Qed.

Lemma delete_rbac_spec w tr : well_placed w → spec (request_for HandleActionDelete w) (delete_rbac w) tr (λ _ _, True).
Proof.
  intros Hw.
  assert (Hgen : ∀ what message, spec (request_for HandleActionDelete w) (delete_read message (get_object what (key_of w))) tr (λ _ _, True)).
  { intros what message. unfold delete_read. eapply spec_bind; [by apply get_spec|]. intros tr1 [now|e] _ Hin; [|by apply spec_ret].
    destruct Hin as [l' ->]. apply spec_call; [|done]. intros r. split; [done|]. right. by exists l', now. }
  assert (Hcr : rl_kind w = ClusterRole → spec (request_for HandleActionDelete w) (DeleteClusterRole (rl_name w)) tr (λ _ _, True)).
  { intros Hk. unfold DeleteClusterRole, GetClusterRole. replace (RKey ClusterRole "" (rl_name w)) with (key_of w).
    2:{ unfold key_of. by rewrite Hw, Hk by (by rewrite Hk). }
    eapply spec_bind; [by apply get_spec|]. intros tr1 [now|e] _ Hin; [|by apply spec_ret].
    destruct Hin as [l' ->]. apply spec_call; [|done]. intros r. split; [done|]. right. by exists l', now. }
  unfold well_placed in Hw. unfold delete_rbac, DeleteServiceAccount, DeleteRole, DeleteRoleBinding, DeleteClusterRoleBinding, GetRole, GetRoleBinding,
    GetClusterRoleBinding. unfold key_of in Hgen.
  destruct (rl_kind w) eqn:Hk; try (rewrite (Hw eq_refl) in Hgen); try apply Hgen; [|by apply Hcr].
  apply spec_call; [|done]. intros r. split; [done|]. by left.
Qed.
End Discipline.

(** ** The RBAC objects that are asked for *)

Section Asked.
Context `{!MetaConditions, !RetryOnConflict ocall error is_conflict}.
Context (reader : bool) (clock : Z) (ControllerReference : operator → option error).
Implicit Types (a : action) (o : operator) (r : rbac_object) (l : list oevent).

(** The account, the role and the binding of a permission: those of a namespace
    belong to the operator, cluster-wide ones to nobody. *)
Definition rbac_objects a o (p : permission) : list rbac_object :=
  rbac_of ServiceAccount p o (if is_delete a then None else Some (mo_uid o)) ::
  (if String.eqb (op_permissionScope (mo_spec o)) PermissionScopeCluster
   then [rbac_of ClusterRole p o None; rbac_of ClusterRoleBinding p o None]
   else if String.eqb (op_permissionScope (mo_spec o)) PermissionScopeNamespace
   then [rbac_of Role p o (Some (mo_uid o)); rbac_of RoleBinding p o (Some (mo_uid o))]
   else []).
Definition asked a o r : Prop := ∃ p, p ∈ op_permissions (mo_spec o) ∧ r ∈ rbac_objects a o p.

(** Reads and status writes of the operator. *)
Definition own_status (e : oevent) : Prop := op_reads e = true ∨ is_Some (op_status_write e).
(** The call that an action makes for an object. *)
Definition asks a o (_ : list oevent) (e : oevent) : Prop :=
  own_status e ∨ match e with Ev c _ => match c with
  | RbacCreate r => a = HandleActionPublish ∧ asked a o r
  | RbacCreateOrUpdate r => a = HandleActionUpdate ∧ asked a o r
  | RbacDelete r => a = HandleActionDelete ∧ asked a o r
  | _ => False
  end end.
Definition made a r : oevent :=
  match a with
  | HandleActionPublish => Ev (RbacCreate r) None
  | HandleActionUpdate => Ev (RbacCreateOrUpdate r) None
  | HandleActionDelete => Ev (RbacDelete r) None
  end.

Lemma rbac_write_asks a o r : asked a o r → only (asks a o) (rbac_write a r).
Proof.
  unfold rbac_write. intros Hr. destruct a; [..|apply only_bind; [|intros; apply only_ret]]; apply only_call; intros; by right.
Qed.

Lemma scoped_asks nk ck p a o :
  (String.eqb (op_permissionScope (mo_spec o)) PermissionScopeCluster = true → asked a o (rbac_of ck p o None)) →
  (String.eqb (op_permissionScope (mo_spec o)) PermissionScopeCluster = false →
   String.eqb (op_permissionScope (mo_spec o)) PermissionScopeNamespace = true → asked a o (rbac_of nk p o (Some (mo_uid o)))) →
  only (asks a o) (scoped ControllerReference nk ck p a o).
Proof.
  intros Hc Hn. unfold scoped. destruct (String.eqb _ PermissionScopeCluster); [by apply rbac_write_asks, Hc|].
  destruct (String.eqb _ PermissionScopeNamespace); [|apply only_ret].
  destruct (ControllerReference o); [apply only_ret|by apply rbac_write_asks, Hn].
Qed.

Lemma permissions_ask ps a o : ps ⊆ op_permissions (mo_spec o) → only (asks a o) (handle_permissions ControllerReference ps a o).
Proof.
  induction ps as [|p ps IH]; intros Hps; cbn [handle_permissions]; [apply only_ret|].
  assert (Hin : ∀ r, r ∈ rbac_objects a o p → asked a o r) by (intros r Hr; exists p; split; [apply Hps; by left|done]).
  apply only_bind; [|intros e1]. 
  { unfold handleServiceAccount. unfold rbac_objects in Hin. destruct (is_delete a); [by apply rbac_write_asks, Hin; left|].
    destruct (ControllerReference o); [apply only_ret|by apply rbac_write_asks, Hin; left]. }
  apply only_bind; [|intros e2].
  { apply scoped_asks; [intros Hs|intros Hs Hs']; apply Hin; unfold rbac_objects; rewrite Hs, ?Hs'; right; by left. }
  apply only_bind; [|intros e3].
  { apply scoped_asks; [intros Hs|intros Hs Hs']; apply Hin; unfold rbac_objects; rewrite Hs, ?Hs'; right; right; by left. }
  apply only_bind; [|intros; apply only_ret]. apply IH. intros q Hq. apply Hps. by right.
Qed.

Lemma rbac_asks a o : only (asks a o) (handleRBAC reader clock ControllerReference a o).
Proof.
  unfold handleRBAC. apply only_bind.
  - assert (Heq : ∀ l e, asks a (touch_condition clock CondTypeApplyRBAC o) l e → asks a o l e) by done.
    eapply only_mono; [exact Heq|]. by apply permissions_ask.
  - intros errs. apply only_bind; [|intros []; apply only_ret]. unfold report_step. destruct (is_delete a); [apply only_ret|].
    eapply (only_mono (λ _ e, own_status e)); [intros l e ?; by left|]. unfold UpdateMiddlewareOperatorStatus, read_for_status, GetMiddlewareOperator.
    repeat lazymatch goal with
    | |- only _ (Ret _) => apply only_ret
    | |- only _ (call (OpStatusUpdate _)) => apply only_call; intros; right; by eexists
    | |- only _ (call _) => apply only_call; intros; by left
    | |- only _ (retry _ _) => apply only_retry; intros
    | |- only _ (match ?x with _ => _ end) => destruct x
    | |- only _ (_ ≫= _) => apply only_bind; [|intros]
    end.
Qed.

Lemma rbac_write_outcome a r l : is_delete a = false → Prog.outcome (rbac_write a r) l None → made a r ∈ l.
Proof. destruct a; [..|done]; intros _ ->%outcome_call; by left. Qed.

Lemma scoped_outcome nk ck p a o l : is_delete a = false → Prog.outcome (scoped ControllerReference nk ck p a o) l None →
  (String.eqb (op_permissionScope (mo_spec o)) PermissionScopeCluster = true → made a (rbac_of ck p o None) ∈ l) ∧
  (String.eqb (op_permissionScope (mo_spec o)) PermissionScopeCluster = false →
   String.eqb (op_permissionScope (mo_spec o)) PermissionScopeNamespace = true → made a (rbac_of nk p o (Some (mo_uid o))) ∈ l).
Proof.
  intros Ha. unfold scoped. destruct (String.eqb _ PermissionScopeCluster); [split; [|done]; intros _; by apply rbac_write_outcome|].
  destruct (String.eqb _ PermissionScopeNamespace); [|done].
  destruct (ControllerReference o); [by intros [_ ?]|]. split; [done|]. intros _ _. by apply rbac_write_outcome.
Qed.

Lemma note_error_nil what err : note_error what err = [] → err = None.
Proof. by destruct err. Qed.

Lemma permissions_outcome ps a o l : is_delete a = false →
  Prog.outcome (handle_permissions ControllerReference ps a o) l [] → ∀ p r, p ∈ ps → r ∈ rbac_objects a o p → made a r ∈ l.
Proof.
  intros Ha. revert l. induction ps as [|p ps IH]; intros l; [by intros _ p r ?%elem_of_nil|]. cbn [handle_permissions].
  intros (l1 & k1 & e1 & -> & H1 & (l2 & k2 & e2 & -> & H2 & (l3 & k3 & e3 & -> & H3 & (l4 & k4 & errs & -> & H4 & [-> He])%outcome_bind)%outcome_bind)%outcome_bind)%outcome_bind.
  symmetry in He. rewrite !app_nil in He. destruct He as (->%note_error_nil & ->%note_error_nil & ->%note_error_nil & ->).
  intros q r [->|Hq]%elem_of_cons Hr; rewrite !elem_of_app.
  2:{ right. right. right. left. by apply (IH l4 H4 q). }
  apply (scoped_outcome Role ClusterRole) in H2 as [H2 H2']; [|done].
  apply (scoped_outcome RoleBinding ClusterRoleBinding) in H3 as [H3 H3']; [|done].
  unfold rbac_objects in Hr. apply elem_of_cons in Hr as [->|Hr].
  { left. unfold handleServiceAccount in H1. rewrite Ha in H1 |- *. destruct (ControllerReference o); [by destruct H1|].
    by apply rbac_write_outcome. }
  destruct (String.eqb _ PermissionScopeCluster), (String.eqb _ PermissionScopeNamespace);
    rewrite ?elem_of_cons, ?elem_of_nil in Hr; naive_solver.
Qed.

Lemma rbac_made a o l o' : is_delete a = false →
  Prog.outcome (handleRBAC reader clock ControllerReference a o) l (None, o') → ∀ r, asked a o r → made a r ∈ l.
Proof.
  intros Ha. unfold handleRBAC. intros (l1 & l2 & errs & -> & Hp & Hr)%outcome_bind r (p & Hpp & Hrp).
  rewrite Ha in Hr. cbn [orb] in Hr. apply outcome_bind in Hr as (l3 & l4 & [statusErr o2] & -> & _ & [-> He]).
  destruct statusErr; [done|]. case_bool_decide as Herr; [subst errs|done].
  apply elem_of_app. left. by apply (permissions_outcome _ _ _ _ Ha Hp p).
Qed.
End Asked.

(** ** Requests of an operator *)

Section Requests.
Context `{!MetaConditions, !RetryOnConflict ocall error is_conflict, !GoCmp, !RetryOnConflict kcall error is_conflict}.
Context (reader : bool) (clock : Z) (ControllerReference : operator → option error).
Implicit Types (a : action) (o : operator) (r : rbac_object) (l tr : list kevent).

(** Reads and status writes of the operator, and the requests for one of its objects. *)
Definition rbac_request a o l (e : kevent) : Prop :=
  (∃ R (c : ocall R) x, e = Ev (OpCall c) x ∧ own_status (Ev c x)) ∨
  (∃ r, asked a o r ∧ request_for a (live_of r) l e).

Lemma absent_later k l l' : absent k l → absent k (l' ++ l).
Proof. intros (l0 & e & -> & ?). exists (l' ++ l0), e. by rewrite <- app_assoc. Qed.
Lemma request_later a w l l' e : request_for a w l e → request_for a w (l' ++ l) e.
Proof.
  destruct e as [R c x]. destruct c; simpl; try done.
  - intros (? & ? & Ha & Hu). split_and!; [done..|]. split; [by apply absent_later|]. intros (k & y & -> & Hk)%Hu.
    exists (l' ++ k), y. rewrite app_assoc. split; [done|by apply absent_later].
  - intros (? & k & now & -> & ?). split; [done|]. exists (l' ++ k), now. by rewrite <- app_assoc.
  - intros (? & [?|(y & now & -> & ?)]); (split; [done|]); [by left|right]. exists (l' ++ y), now. by rewrite <- app_assoc.
Qed.

Lemma asked_placed a o r : asked a o r → well_placed (live_of r).
Proof.
  intros (p & _ & Hr). unfold rbac_objects in Hr. unfold well_placed, live_of. simpl. intros Hk.
  destruct (String.eqb (op_permissionScope (mo_spec o)) PermissionScopeCluster), (String.eqb (op_permissionScope (mo_spec o)) PermissionScopeNamespace);
    repeat (apply elem_of_cons in Hr as [-> | Hr]; [done|]); by apply elem_of_nil in Hr.
Qed.

Lemma client_requests a o {R} (c : ocall R) x (l0 : list oevent) l :
  asks a o l0 (Ev c x) → Prog.outcome (rbac_client R c) l x → each (rbac_request a o) l.
Proof.
  intros Hask Ho.
  assert (Hreq : ∀ r, asked a o r → each (request_for a (live_of r)) l → each (rbac_request a o) l).
  { intros r Hr Hall l1 e l2 ->. right. exists r. split; [done|]. by eapply Hall. }
  assert (Hplain : own_status (Ev c x) → l = [Ev (OpCall c) x] → each (rbac_request a o) l).
  { intros Hp -> l1 e l2 Heq. left. exists R, c, x. split; [|done]. destruct l1 as [|? [|??]]; by injection Heq. }
  destruct Hask as [Hp|Hask].
  - destruct c; try (by destruct Hp as [?|[? ?]]); apply Hplain; try done; by apply outcome_call.
  - destruct c; try done; destruct Hask as [-> Hr]; apply (Hreq r Hr); cbn [rbac_client] in Ho.
    + by destruct (outcome_spec _ _ _ _ _ (create_rbac_spec HandleActionPublish (live_of r) [] ltac:(done) ltac:(done)) Ho).
    + by destruct (outcome_spec _ _ _ _ _ (create_or_update_spec (live_of r) [] (asked_placed _ _ _ Hr)) Ho).
    + by destruct (outcome_spec _ _ _ _ _ (delete_rbac_spec (live_of r) [] (asked_placed _ _ _ Hr)) Ho).
Qed.

(** C16: The service account, the role and the binding of every permission of
    an operator.  Requests are for these objects only: one is created only right
    after the creation looked it up and found nothing (by its key for a service
    account, by its name without a namespace for the others: for a namespaced
    role or binding this is not the object's own key), and, when the operator is
    updated, only after a read of its own key just before that found nothing;
    one is updated only as it was just read, but for the labels, annotations and
    fields that it is to have (so that its owner stays), and deleted only when
    the operator is.  When publishing or updating ends without an error, each of
    them was created or updated, or the lookup of the creation found an object;
    if that one has the same name and namespace, its rules, or its subjects and
    role, are the same (service accounts are not compared). *)
Theorem operator_rbac_settled {W} (h : handler kcall W) (w : W) a o :
  let '((err, _), tr) := run h (reconcile_rbac reader clock ControllerReference a o) w in
  each (rbac_request a o) tr ∧
  (is_delete a = false ∧ err = None → ∀ r, asked a o r → settled (live_of r) tr).
Proof.
  pose proof (holds_run_pair h (reconcile_rbac reader clock ControllerReference a o) w
    (λ tr res, Prog.outcome (reconcile_rbac reader clock ControllerReference a o) tr res)) as Hr.
  destruct (run h _ w) as [[err o'] tr]. assert (Ho := Hr (proj2 (holds_outcome _ [] _) ltac:(done))). clear Hr.
  apply interp_outcome in Ho as (trE & Ho & Hs).
  assert (Hasks : each (asks a o) trE) by (by eapply outcome_only; [apply rbac_asks|]). split.
  - intros l e l' ->. apply segments_split in Hs as (t1 & R & c & x & t2 & l1 & s1 & s2 & -> & _ & -> & Hc).
    pose proof (client_requests a o c x t1 _ (Hasks t1 _ t2 eq_refl) Hc s1 e s2 eq_refl) as [Hp|(r & Hr & He)]; [by left|].
    right. exists r. split; [done|]. by apply request_later.
  - intros [Ha ->] r Hr. pose proof (rbac_made reader clock ControllerReference a o trE o' Ha Ho r Hr) as Hin.
    destruct a; [..|done]; destruct (segments_of _ _ _ _ _ Hs Hin) as (l & Hl & Hsub); cbn [rbac_client] in Hl; eapply settled_more; try done.
    + by apply (outcome_spec _ _ _ _ _ (create_rbac_spec HandleActionPublish (live_of r) [] ltac:(done) ltac:(done)) Hl).
    + by apply (outcome_spec _ _ _ _ _ (create_or_update_spec (live_of r) [] (asked_placed _ _ _ Hr)) Hl).
Qed.
End Requests.

(** ** Examples *)

Section Demo.
(** A server that keeps the objects created, and to which the operator [o] is known. *)
Definition store : Type := list (rkey * rbac_live).
Definition stored (k : rkey) (s : store) : option rbac_live := snd <$> (snd <$> list_find (λ e, fst e = k) s).
Definition put (x : rbac_live) (s : store) : store := (key_of x, x) :: filter (λ e, fst e ≠ key_of x) s.
Definition rbac_server (o : operator) : handler kcall store := λ R c s,
  match c in kcall R return R * store with
  | KGet k => (match stored k s with Some x => Ok x | None => Err (Error NotFound "") end, s)
  | KCreate x => match stored (key_of x) s with Some _ => (Some (Error AlreadyExists ""), s) | None => (None, put x s) end
  | KUpdate x => (None, put x s)
  | KDelete k => match stored k s with Some _ => (None, filter (λ e, fst e ≠ k) s) | None => (Some (Error NotFound ""), s) end
  | OpCall c => ((demo_server o None _ c tt).1, s)
  end.

#[local] Instance demo_cmp : GoCmp :=
  {| cmp_bodies b b' := bool_decide (b = b'); cmp_bodies_sound b b' := bool_decide_eq_true_1 (b = b') |}.
#[local] Existing Instance meta_by_list.
#[local] Existing Instance coded_json.
#[local] Existing Instance list_order.
#[local] Instance no_spec : SpecText := {| encode_deployment_spec _ := JObj ∅; result_text _ := ""; sprint_text _ := "" |}.
#[local] Instance demo_oretry : RetryOnConflict ocall error is_conflict := bounded_retry is_conflict 4.
#[local] Instance demo_kretry : RetryOnConflict kcall error is_conflict := bounded_retry is_conflict 4.

Definition demo_rbac_operator (scope ns : string) : operator :=
  MiddlewareOperator "redis-op" ns ("uid-" +:+ ns) 1 None ∅ ∅ [FinalizerMiddlewareOperator]
    (MiddlewareOperatorSpec "base" None [] scope [Permission "redis-sa" [JStr "get pods"]] "{}" [])
    (MiddlewareOperatorStatus 1 [Condition CondTypeChecked ConditionTrue 1 0 "" ""; Condition CondTypeApplyOperator ConditionTrue 1 0 "" ""]
       "" ∅ "" "" false "" [] 0).
Definition rbac_pass (a : action) (o : operator) (s : store) : option err_kind * store :=
  let fix end_of {A} (p : kprog A) (s : store) : A * store :=
    match p with Ret r => (r, s) | Do c k => let '(x, s) := rbac_server o _ c s in end_of (k x) s end in
  let '((err, _), s) := end_of (reconcile_rbac false 7 (λ _, None) a o) s in (e_kind <$> err, s).
Definition subjects_of (s : store) : list string :=
  omap (λ e, match rl_body (snd e) with BindingBody (s :: _) _ => Some (sub_namespace s) | _ => None end) s.

(** What a first publication creates, an update finds, and a deletion deletes. *)
Example rbac_lifecycle :
  let s := (rbac_pass HandleActionPublish (demo_rbac_operator "Namespace" "prod") []).2 in
  (rk_kind ∘ fst) <$> s = [RoleBinding; Role; ServiceAccount] ∧
  rbac_pass HandleActionUpdate (demo_rbac_operator "Namespace" "prod") s = (None, s) ∧
  rbac_pass HandleActionDelete (demo_rbac_operator "Namespace" "prod") s = (None, []).
Proof. vm_compute. done. Qed.

(** [CreateRole] and [CreateRoleBinding] look for the object without its
    namespace and do not find it: publishing again fails.  A cluster-wide
    operator can be published again. *)
Example republished_role_not_found :
  let again scope := let o := demo_rbac_operator scope "prod" in
    (rbac_pass HandleActionPublish o (rbac_pass HandleActionPublish o []).2).1 in
  again "Namespace" = Some OtherError ∧ again "Cluster" = None.
Proof. vm_compute. done. Qed.

(** So the Deployment of such an operator is not created again when it is
    missing: the roles come first. *)
Definition regenerated (scope : string) : bool * bool :=
  let o := demo_rbac_operator scope "prod" in
  let s := (rbac_pass HandleActionPublish o []).2 in
  let '(err, tr) := run (rbac_server o)
    (interp rbac_client (handleDeployment false 7 (λ _, None) demo_deployment "redis-op" "prod")) s in
  (bool_decide (err = None),
   existsb (λ e, match e with Ev (OpCall c) _ => match c with DepCreate _ => true | _ => false end | _ => false end) tr).
Example missing_deployment_stays_missing :
  regenerated "Namespace" = (false, false) ∧ regenerated "Cluster" = (true, true).
Proof. vm_compute. done. Qed.

(** Cluster-wide operators with the same account name share one binding, and
    each update takes it for its own namespace. *)
Example shared_binding_taken :
  let s := (rbac_pass HandleActionPublish (demo_rbac_operator "Cluster" "prod") []).2 in
  subjects_of s = ["prod"] ∧ subjects_of (rbac_pass HandleActionUpdate (demo_rbac_operator "Cluster" "dev") s).2 = ["dev"].
Proof. vm_compute. done. Qed.
End Demo.
