(* ===== verification/Templates.v ===== *)
(** * Templates

    [pkg/tools]: the functions that templates may call ([funcs.go]), the lookup
    of objects in the cluster ([lookup_func.go]), and the execution of a
    template with its capabilities ([template.go]).

    The engine itself is Go's [text/template]: what it parses is a
    [rendering], the text that comes out of it or the next function of the
    operator that it calls.  Functions without effects are part of the
    rendering. *)
From Stdlib Require Import ZArith Lia Ascii String.
From stdpp Require Import base gmap strings list option.
From S2P Require Import Prelude Prog Errors Json GoStrings Adoption Catalog MiddlewareRender.

(** ** Decoding and encoding for templates *)

Section Codecs.
Context `{!JsonLib, !YamlLib}.
(** The message when a value that is no object or no array is decoded into
    one, the TOML encoder, and [strings.TrimSuffix] of a newline. *)
Context (json_error type_error : string → string) (EncodeTOML : json → result error string).

Definition TrimNewline (s : string) : string :=
  match reverse "" s with String a s' => if Ascii.eqb a newline then reverse "" s' else s | EmptyString => s end.

(** [toYAML], pkg/tools/funcs.go *)
Definition toYAML (v : json) : string := TrimNewline (YamlMarshal v).
(** [toTOML], pkg/tools/funcs.go *)
Definition toTOML (v : json) : string := match EncodeTOML v with Ok s => s | Err e => e_msg e end.
(** [toJSON], pkg/tools/funcs.go *)
Definition toJSON (v : json) : string := Marshal v.

Definition as_object (str : string) (decoded : result error json) : gmap string json :=
  match decoded with
  | Ok (JObj m) => m
  | Ok JNull => ∅
  | Ok _ => {["Error" := JStr (type_error str)]}
  | Err e => {["Error" := JStr (e_msg e)]}
  end.
Definition as_array (str : string) (decoded : result error json) : list json :=
  match decoded with
  | Ok (JArr l) => l
  | Ok JNull => []
  | Ok _ => [JStr (type_error str)]
  | Err e => [JStr (e_msg e)]
  end.
Definition decoded_json (str : string) : result error json :=
  match Unmarshal str with Some j => Ok j | None => Err (new_error (json_error str)) end.

(** [fromYAML], pkg/tools/funcs.go *)
Definition fromYAML (str : string) : gmap string json := as_object str (YAMLToJSON str).
(** [fromYAMLArray], pkg/tools/funcs.go *)
Definition fromYAMLArray (str : string) : list json := as_array str (YAMLToJSON str).
(** [fromJSON], pkg/tools/funcs.go *)
Definition fromJSON (str : string) : gmap string json := as_object str (decoded_json str).
(** [fromJSONArray], pkg/tools/funcs.go *)
Definition fromJSONArray (str : string) : list json := as_array str (decoded_json str).

Lemma json_object_roundtrip m : fromJSON (toJSON (JObj m)) = m.
Proof. unfold fromJSON, toJSON, decoded_json. by rewrite unmarshal_marshal. Qed.
Lemma json_array_roundtrip l : fromJSONArray (toJSON (JArr l)) = l.
Proof. unfold fromJSONArray, toJSON, decoded_json. by rewrite unmarshal_marshal. Qed.

(** [TemplateParse], pkg/tools/template.go:134-155 *)
Definition required (warn : string) (val : option json) : result error json :=
  match val with
  | None | Some JNull => Err (new_error warn)
  | Some (JStr s) => if String.eqb s "" then Err (new_error warn) else Ok (JStr s)
  | Some v => Ok v
  end.
(** [TemplateParse], pkg/tools/template.go:157-164 *)
Definition fail (msg : string) : result error string := Err (new_error msg).
End Codecs.

(** ** Values as CUE *)

Section Cue.
Context `{!MapOrder} (format_number : Qcanon.Qc → string).

Fixpoint escape_quotes (s : string) : string :=
  match s with
  | String a s => if Ascii.eqb a double_quote then String "\" (String a (escape_quotes s)) else String a (escape_quotes s)
  | EmptyString => EmptyString
  end.
Definition quoted (s : string) : string := String double_quote (s +:+ String double_quote "").

(** The values in Go are the decoded ones; a key is not escaped. *)
(** [toCue], pkg/tools/funcs.go *)
Fixpoint toCue (v : json) : string :=
  match v with
  | JNull => "null"
  | JBool b => if b then "true" else "false"
  | JNum q => format_number q
  | JStr s => quoted (escape_quotes s)
  | JArr l => "[" +:+ String.concat ", " (toCue <$> l) +:+ "]"
  | JObj m => "{" +:+ String.concat ", " ((λ '(k, v), quoted k +:+ ": " +:+ v) <$> visit (toCue <$> m)) +:+ "}"
  end.

(** A CUE string on one line, as far as it uses the escapes of quotes and
    backslashes, and what follows it. *)
Fixpoint read_literal (s : string) : option (string * string) :=
  match s with
  | EmptyString => None
  | String a s =>
      if Ascii.eqb a double_quote then Some ("", s)
      else if Ascii.eqb a newline then None
      else if Ascii.eqb a "\" then
        match s with
        | String b s =>
            if Ascii.eqb b double_quote || Ascii.eqb b "\"
            then '(r, rest) ← read_literal s; Some (String b r, rest) else None
        | EmptyString => None
        end
      else '(r, rest) ← read_literal s; Some (String a r, rest)
  end.
Definition read_string (s : string) : option (string * string) :=
  match s with String a s => if Ascii.eqb a double_quote then read_literal s else None | EmptyString => None end.

Fixpoint plain_text (s : string) : bool :=
  match s with String a s => negb (Ascii.eqb a "\") && negb (Ascii.eqb a newline) && plain_text s | EmptyString => true end.

(** A string without backslashes and newlines reads back as it is. *)
Lemma cue_string_reads s rest : plain_text s = true → read_string (toCue (JStr s) +:+ rest) = Some (s, rest).
Proof.
  intros Hs. change (toCue (JStr s) +:+ rest) with (String double_quote ((escape_quotes s +:+ String double_quote "") +:+ rest)).
  unfold read_string. rewrite Ascii.eqb_refl.
  induction s as [|a s IH]; [done|]. cbn [plain_text] in Hs. apply andb_true_iff in Hs as [[Hb Hn]%andb_true_iff Hs].
  specialize (IH Hs). cbn [escape_quotes]. destruct (Ascii.eqb_spec a double_quote) as [->|Hq].
  - change (read_literal (String "\" (String double_quote ((escape_quotes s +:+ String double_quote "") +:+ rest))) = Some (String double_quote s, rest)).
    cbn [read_literal]. replace (Ascii.eqb "\" double_quote) with false by done. replace (Ascii.eqb "\" newline) with false by done.
    rewrite !Ascii.eqb_refl. cbn [orb]. by rewrite IH.
  - change (read_literal (String a ((escape_quotes s +:+ String double_quote "") +:+ rest)) = Some (String a s, rest)).
    cbn [read_literal]. rewrite (proj2 (Ascii.eqb_neq _ _) Hq). apply negb_true_iff in Hn, Hb. rewrite Hn, Hb. by rewrite IH.
Qed.
End Cue.

(** A backslash is not escaped: before a quote it ends the string early, and
    what follows is read as CUE. *)
Example backslash_ends_string :
  let value := JStr (String "\" (String double_quote ", other: 1")) in
  read_string (@toCue list_order (λ _, "") value) = Some ("\", ", other: 1" +:+ String double_quote "").
Proof. by vm_compute. Qed.

(** ** Requests to the cluster *)

Record api_resource := APIResource { ar_name : string; ar_kind : string; ar_namespaced : bool }.
(** [schema.GroupVersionResource] *)
Record gvr := GVR { gvr_group : string; gvr_version : string; gvr_resource : string }.
Record server_version := ServerVersionInfo { sv_string : string; sv_major : string; sv_minor : string; sv_gitVersion : string }.

Inductive lcall : Type → Type :=
  | GetDiscoveryClient : lcall (option error)
  | GetDynClient : lcall (option error)
  | ServerVersion : lcall (result error server_version)
  (** the versions of each group *)
  | ServerGroups : lcall (result error (list (list string)))
  | ServerResourcesForGroupVersion (gv : string) : lcall (result error (list api_resource))
  | DynGet (r : gvr) (ns : option string) (name : string) : lcall (result error (gmap string json))
  | DynList (r : gvr) (ns : option string) : lcall (result error (gmap string json)).
Abbreviation lprog := (prog lcall).
Abbreviation levent := (event lcall).

Definition slash : ascii := "/".
Definition has_slash (s : string) : bool := bool_decide (length (split_on slash s) ≠ 1).

Section Lookup.
(** [schema.FromAPIVersionAndKind] *)
Context (ParseAPIVersion : string → option (string * string)).

Definition group_version (group version : string) : string :=
  if String.eqb group "" then version else group +:+ "/" +:+ version.

(** A kind that is not listed leaves the zero resource. *)
(** [getAPIResourceForGVK], pkg/tools/lookup_func.go *)
Definition getAPIResourceForGVK (group version kind : string) : lprog (result error (gvr * bool)) :=
  err ← call GetDiscoveryClient;
  match err with
  | Some e => Ret (Err e)
  | None =>
      r ← call (ServerResourcesForGroupVersion (group_version group version));
      Ret (match r with
           | Err e => Err e
           | Ok resources =>
               match list_find (λ r, ar_kind r = kind ∧ has_slash (ar_name r) = false) resources with
               | Some (_, r) => Ok (GVR group version (ar_name r), ar_namespaced r)
               | None => Ok (GVR "" "" "", false)
               end
           end)
  end.

(** [getDynamicClientOnKind], pkg/tools/lookup_func.go *)
Definition getDynamicClientOnKind (apiversion kind : string) : lprog (result error (gvr * bool)) :=
  let '(group, version) := default ("", "") (ParseAPIVersion apiversion) in
  r ← getAPIResourceForGVK group version kind;
  match r with
  | Err e => Ret (Err (wrap_error "unable to get apiresource from unstructured" e))
  | Ok found =>
      err ← call GetDynClient;
      Ret (match err with Some e => Err e | None => Ok found end)
  end.

Definition empty_when_missing (r : result error (gmap string json)) : result error (gmap string json) :=
  match r with Err e => if is_not_found e then Ok ∅ else Err e | Ok o => Ok o end.

(** [newLookupFunction], pkg/tools/lookup_func.go *)
Definition lookup_object (apiversion kind namespace name : string) : lprog (result error (gmap string json)) :=
  r ← getDynamicClientOnKind apiversion kind;
  match r with
  | Err e => Ret (Err e)
  | Ok (resource, namespaced) =>
      let ns := if (namespaced : bool) && negb (String.eqb namespace "") then Some namespace else None in
      r ← (if negb (String.eqb name "") then call (DynGet resource ns name) else call (DynList resource ns));
      Ret (empty_when_missing r)
  end.
End Lookup.

(** ** Capabilities *)

(** [APIVersions], pkg/tools/template.go *)
Record api_versions := APIVersions { av_versions : gset string; av_resources : gset string }.
Definition no_versions : api_versions := APIVersions ∅ ∅.

(** [Has], pkg/tools/template.go *)
Definition Has (av : option api_versions) (apiVersionOrResource : string) : bool :=
  match av with
  | None => false
  | Some av => bool_decide (apiVersionOrResource ∈ av_resources av) || bool_decide (apiVersionOrResource ∈ av_versions av)
  end.

(** [buildAPIVersions], pkg/tools/template.go:264-273 *)
Fixpoint add_resources (groupVersion : string) (resources : list api_resource) (av : api_versions) : api_versions :=
  match resources with
  | [] => av
  | r :: resources =>
      add_resources groupVersion resources
        (if has_slash (ar_name r) then av
         else APIVersions (av_versions av) ({[groupVersion +:+ "/" +:+ ar_kind r]} ∪ av_resources av))
  end.
(** [buildAPIVersions], pkg/tools/template.go:246-275 *)
Fixpoint add_versions (versions : list string) (av : api_versions) : lprog api_versions :=
  match versions with
  | [] => Ret av
  | groupVersion :: versions =>
      let av := APIVersions ({[groupVersion]} ∪ av_versions av) (av_resources av) in
      r ← call (ServerResourcesForGroupVersion groupVersion);
      add_versions versions (match r with Ok resources => add_resources groupVersion resources av | Err _ => av end)
  end.
(** [buildAPIVersions], pkg/tools/template.go *)
Definition buildAPIVersions : lprog (result error api_versions) :=
  r ← call ServerGroups;
  match r with
  | Err e => Ret (Err (wrap_error "failed to get server groups" e))
  | Ok groups => av ← add_versions (concat groups) no_versions; Ret (Ok av)
  end.

(** Rendering goes on without what cannot be found out. *)
(** [GetTemplateValues], pkg/tools/template.go:318-351 *)
Definition discover_capabilities : lprog (option server_version * api_versions) :=
  err ← call GetDiscoveryClient;
  match err with
  | Some _ => Ret (None, no_versions)
  | None =>
      v ← call ServerVersion;
      av ← buildAPIVersions;
      Ret (match v with Ok v => Some v | Err _ => None end, match av with Ok av => av | Err _ => no_versions end)
  end.

Definition listed (l : list levent) (x : string) : Prop :=
  ∃ groupVersion resources r, Ev (ServerResourcesForGroupVersion groupVersion) (Ok resources) ∈ l ∧
    r ∈ resources ∧ has_slash (ar_name r) = false ∧ x = groupVersion +:+ "/" +:+ ar_kind r.

Lemma add_resources_has gv resources av :
  av_versions (add_resources gv resources av) = av_versions av ∧
  ∀ x, x ∈ av_resources (add_resources gv resources av) ↔
    x ∈ av_resources av ∨ ∃ r, r ∈ resources ∧ has_slash (ar_name r) = false ∧ x = gv +:+ "/" +:+ ar_kind r.
Proof.
  revert av. induction resources as [|r resources IH]; intros av; cbn [add_resources].
  { split; [done|]. intros x. split; [by left|]. intros [?|(r & ?%elem_of_nil & _)]; done. }
  destruct (IH (if has_slash (ar_name r) then av
                else APIVersions (av_versions av) ({[gv +:+ "/" +:+ ar_kind r]} ∪ av_resources av))) as [-> Hres].
  destruct (has_slash (ar_name r)) eqn:Hs; (split; [done|]); intros x; rewrite (Hres x); cbn [av_resources]; clear IH Hres.
  - split; (intros [Hx|(r' & Hin & Hr')]; [by left|right]); exists r'; (split; [|done]); [by right|].
    apply elem_of_cons in Hin as [-> | ?]; [|done]. destruct Hr' as [Hr' _]. congruence.
  - rewrite elem_of_union, elem_of_singleton. split.
    + intros [[Hx|Hx]|(r' & ? & ?)]; [right; exists r; split; [by left|done]|by left|right; exists r'; split; [by right|done]].
    + intros [Hx|(r' & [-> | ?]%elem_of_cons & Hr')]; [by left; right|left; left; apply Hr'|right; eauto].
Qed.

Lemma add_versions_has versions av l av' : Prog.outcome (add_versions versions av) l av' →
  (∀ x, x ∈ av_versions av' ↔ x ∈ av_versions av ∨ x ∈ versions) ∧
  (∀ x, x ∈ av_resources av' ↔ x ∈ av_resources av ∨ listed l x).
Proof.
  revert av l. induction versions as [|gv versions IH]; intros av l; cbn [add_versions].
  - intros [-> ->]. split; intros x; [rewrite elem_of_nil; tauto|]. split; [by left|]. intros [?|(? & ? & ? & ?%elem_of_nil & _)]; done.
  - intros (l1 & l2 & r & -> & ->%outcome_call & Ho)%outcome_bind.
    set (av1 := APIVersions ({[gv]} ∪ av_versions av) (av_resources av)) in *.
    assert (Hl : ∀ x, listed ([Ev (ServerResourcesForGroupVersion gv) r] ++ l2) x ↔ listed l2 x ∨
      ∃ resources r', r = Ok resources ∧ r' ∈ resources ∧ has_slash (ar_name r') = false ∧ x = gv +:+ "/" +:+ ar_kind r').
    { intros x. unfold listed. split.
      - intros (gv' & resources & r' & [Heq|Hin]%elem_of_cons & ?); [right|left; eauto 10].
        set (P := λ e : levent, match e with
          | Ev c r => match c in lcall R return R → Prop with
                      | ServerResourcesForGroupVersion g => λ r, g = gv' ∧ r = Ok resources | _ => λ _, True end r end).
        assert (Hp : P (Ev (ServerResourcesForGroupVersion gv) r)) by (rewrite <- Heq; done). destruct Hp as [-> ->]. eauto 10.
      - intros [(gv' & resources & r' & ? & ?)|(resources & r' & -> & ?)].
        + exists gv', resources, r'. split; [by right|done].
        + exists gv, resources, r'. split; [by left|done]. }
    destruct r as [resources|e]; destruct (IH _ _ Ho) as [Hv Hr]; clear IH.
    + destruct (add_resources_has gv resources av1) as [Hv1 Hr1]. split; intros x.
      * rewrite Hv, Hv1. cbn [av_versions av1]. rewrite elem_of_union, elem_of_singleton, elem_of_cons. tauto.
      * rewrite Hr, Hr1, Hl. simpl. naive_solver.
    + split; intros x; [rewrite Hv; cbn [av_versions av1]; rewrite elem_of_union, elem_of_singleton, elem_of_cons; tauto|]. rewrite Hr, Hl. simpl. naive_solver.
Qed.

(** What [Has] says is what the cluster listed: the versions of its groups and
    the kinds of those whose resources could be listed, without subresources. *)
Lemma has_exact l av : Prog.outcome buildAPIVersions l (Ok av) →
  ∃ groups, Ev ServerGroups (Ok groups) ∈ l ∧ ∀ x, Has (Some av) x = true ↔ (∃ g, g ∈ groups ∧ x ∈ g) ∨ listed l x.
Proof.
  unfold buildAPIVersions. intros (l1 & l2 & r & -> & ->%outcome_call & Ho)%outcome_bind.
  destruct r as [groups|e]; [|by destruct Ho]. exists groups. split; [by left|].
  apply outcome_bind in Ho as (l3 & l4 & av' & -> & Ho & [-> [= <-]]). rewrite app_nil_r.
  destruct (add_versions_has _ _ _ _ Ho) as [Hv Hr]. intros x. unfold Has.
  rewrite orb_true_iff, !bool_decide_eq_true, Hv, Hr. cbn [av_versions av_resources no_versions].
  assert (Hl : listed (Ev ServerGroups (Ok groups) :: l3) x ↔ listed l3 x).
  { unfold listed. split; intros (gv & resources & r & Hin & ?); exists gv, resources, r; (split; [|done]).
    - apply elem_of_cons in Hin as [?|?]; done.
    - by right. }
  rewrite Hl, !elem_of_empty. rewrite list_elem_of_In, in_concat. setoid_rewrite <- list_elem_of_In. naive_solver.
Qed.

(** ** The engine *)

(** What comes out of a template, or the next call of it: [include], [tpl] and
    [lookup] with what follows. *)
Inductive template_data := Root (tv : template_values) | Data (j : json).
Inductive rendering :=
  | Text (r : result error string)
  | CallInclude (name : string) (data : template_data) (k : result error string → rendering)
  | CallTpl (text : string) (vals : template_data) (k : result error string → rendering)
  | CallLookup (apiversion kind namespace name : string) (k : result error (gmap string json) → rendering).
Abbreviation body := (template_data → rendering).

(** [Parse] of a text under a name: what executing it does, and the templates
    that it adds to the set. *)
Class TemplateEngine := {
  Parse : string → string → result error (body * gmap string body);
}.
(** The name that a template was created with, and the set it is in. *)
Record template := Template { t_name : string; t_set : gmap string body }.

Definition recursionMaxNums : Z := 1000.
Definition count (counts : gmap string Z) (name : string) : Z := default 0%Z (counts !! name).

(** [strings.ReplaceAll(s, "<no value>", "")] *)
Fixpoint drop_no_value (skip : nat) (s : string) : string :=
  match s with
  | EmptyString => EmptyString
  | String a s' =>
      match skip with
      | S skip => drop_no_value skip s'
      | 0 => if HasPrefix s "<no value>" then drop_no_value 9 s' else String a (drop_no_value 0 s')
      end
  end.

Section Engine.
Context `{!TemplateEngine} (ParseAPIVersion : string → option (string * string)).
Implicit Types (t : template) (counts : gmap string Z) (p : rendering).

(** The result and the counts of the names being included; [None] is an
    execution that was cut off. *)
Definition executed : Type := option (result error string * gmap string Z).

(** [execute t counts p] executes in the set of [t]. *)
Section Functions.
Context (execute : template → gmap string Z → rendering → lprog executed).

(** [includeFun], pkg/tools/funcs.go *)
Definition includeFun t (name : string) (data : template_data) counts : lprog executed :=
  let run counts :=
    x ← match t_set t !! name with
        | Some b => execute t counts (b data)
        | None => Ret (Some (Err (new_error ("no template " +:+ name)), counts))
        end;
    Ret (option_map (λ '(r, counts), (r, <[name := (count counts name - 1)%Z]> counts)) x) in
  match counts !! name with
  | Some v =>
      if (recursionMaxNums <? v)%Z
      then Ret (Some (Err (new_error ("rendering template has a nested reference name: " +:+ name +:+ ": unable to execute template")), counts))
      else run (<[name := (v + 1)%Z]> counts)
  | None => run (<[name := 1%Z]> counts)
  end.

(** A template of [text/template] can always be cloned. *)
(** [tplFun], pkg/tools/funcs.go *)
Definition tplFun t (text : string) (vals : template_data) counts : lprog executed :=
  match Parse (t_name t) text with
  | Err e => Ret (Some (Err (wrap_error "cannot parse template" e), counts))
  | Ok (main, gained) =>
      x ← execute (Template (t_name t) (gained ∪ t_set t)) counts (main vals);
      Ret (option_map (λ '(r, counts),
        (match r with Ok s => Ok (drop_no_value 0 s) | Err e => Err (wrap_error "error during tpl function execution" e) end, counts)) x)
  end.

Definition continue (x : executed) (k : result error string → gmap string Z → lprog executed) : lprog executed :=
  match x with None => Ret None | Some (r, counts) => k r counts end.

Fixpoint steps t p counts : lprog executed :=
  match p with
  | Text r => Ret (Some (r, counts))
  | CallInclude name data k => x ← includeFun t name data counts; continue x (λ r counts, steps t (k r) counts)
  | CallTpl text vals k => x ← tplFun t text vals counts; continue x (λ r counts, steps t (k r) counts)
  | CallLookup apiversion kind namespace name k =>
      r ← lookup_object ParseAPIVersion apiversion kind namespace name;
      steps t (k r) counts
  end.
End Functions.

(** Executions inside an execution are at most [n] deep. *)
Fixpoint execute (n : nat) t counts p : lprog executed :=
  match n with 0 => Ret None | S n => steps (execute n) t p counts end.

(** The name is a fresh UUID. *)
(** [TemplateParse], pkg/tools/template.go *)
Definition TemplateParse (n : nat) (uuid temp : string) (templateValues : template_values) : lprog (option (result error string)) :=
  match Parse uuid temp with
  | Err e => Ret (Some (Err e))
  | Ok (main, gained) =>
      x ← execute n (Template uuid gained) ∅ (main (Root templateValues));
      Ret (option_map fst x)
  end.

(** *** Includes are bounded *)

(** No text is executed with [tpl]. *)
Fixpoint without_tpl p : Prop :=
  match p with
  | Text _ => True
  | CallInclude _ _ k => ∀ r, without_tpl (k r)
  | CallTpl _ _ _ => False
  | CallLookup _ _ _ _ k => ∀ r, without_tpl (k r)
  end.
Definition set_without_tpl t : Prop := ∀ name b data, t_set t !! name = Some b → without_tpl (b data).

(** How often the names of a set may still be included within each other. *)
Definition room counts (name : string) : nat := Z.to_nat (recursionMaxNums + 1 - count counts name).
Definition slack (names : list string) counts : nat := foldr (λ name n, room counts name + n) 0 names.
Definition same_counts counts counts' : Prop := ∀ name, count counts' name = count counts name.

Lemma slack_cons x names counts : slack (x :: names) counts = room counts x + slack names counts.
Proof. done. Qed.

Lemma slack_same names counts counts' : same_counts counts counts' → slack names counts' = slack names counts.
Proof. intros Hc. induction names as [|x names IH]; [done|]. rewrite !slack_cons, IH. unfold room. by rewrite Hc. Qed.

Lemma count_insert counts name v x : count (<[name := v]> counts) x = if decide (name = x) then v else count counts x.
Proof. unfold count. case_decide; [subst; by rewrite lookup_insert_eq|by rewrite lookup_insert_ne]. Qed.

(** Including a name takes one from the slack. *)
Lemma slack_include names counts name : (count counts name ≤ recursionMaxNums)%Z → name ∈ names → NoDup names →
  slack names counts = S (slack names (<[name := (count counts name + 1)%Z]> counts)).
Proof.
  intros Hv Hin Hnd. induction Hnd as [|x names Hx Hnd IH]; [by apply elem_of_nil in Hin|].
  rewrite !slack_cons. assert (Hroom : ∀ v y, room (<[name := v]> counts) y = if decide (name = y) then Z.to_nat (recursionMaxNums + 1 - v) else room counts y).
  { intros v y. unfold room. rewrite count_insert. by case_decide. }
  rewrite Hroom. case_decide as Hd.
  - subst x. replace (slack names (<[name := (count counts name + 1)%Z]> counts)) with (slack names counts); [unfold room, recursionMaxNums in *; lia|].
    clear -Hx Hroom. induction names as [|y names IH]; [done|]. rewrite !slack_cons, not_elem_of_cons in *. destruct Hx as [Hy Hx].
    rewrite <- IH, Hroom by done. by rewrite decide_False.
  - apply elem_of_cons in Hin as [Heq|Hin]; [congruence|]. rewrite IH by done. lia.
Qed.

Definition set_names t : list string := elements (dom (t_set t)).

Lemma execute_ends n t counts p tr : set_without_tpl t → without_tpl p → slack (set_names t) counts < n →
  holds (execute n t counts p) tr (λ _ x, ∃ r counts', x = Some (r, counts') ∧ same_counts counts counts').
Proof.
  revert counts p tr. induction n as [|n IH]; intros counts p tr Ht Hp Hn; [lia|]. cbn [execute].
  revert counts tr Hn. induction p as [r|name data k IHk|text vals k IHk|av kind ns name k IHk]; intros counts tr Hn; cbn [steps].
  - simpl. by exists r, counts.
  - apply holds_bind. apply holds_mono with (λ _ x, ∃ r counts', x = Some (r, counts') ∧ same_counts counts counts').
    + assert (Hrun : ∀ c, (count counts name ≤ recursionMaxNums)%Z → c = <[name := (count counts name + 1)%Z]> counts →
        holds (x ← match t_set t !! name with
                   | Some b => execute n t c (b data)
                   | None => Ret (Some (Err (new_error ("no template " +:+ name)), c))
                   end;
               Ret (option_map (λ '(r, c'), (r, <[name := (count c' name - 1)%Z]> c')) x)) tr
          (λ _ x, ∃ r counts', x = Some (r, counts') ∧ same_counts counts counts')).
      { intros c Hv ->. apply holds_bind.
        apply holds_mono with (λ _ x, ∃ r counts', x = Some (r, counts') ∧ same_counts (<[name := (count counts name + 1)%Z]> counts) counts').
        - destruct (t_set t !! name) as [b|] eqn:Hb; [|simpl; by eexists _, _].
          apply IH; [done|by eapply Ht|]. rewrite (slack_include _ counts name) in Hn; [lia|done| |unfold set_names; apply NoDup_elements].
          unfold set_names. rewrite elem_of_elements, elem_of_dom. by exists b.
        - intros tr' x (r & counts' & -> & Hs). simpl. eexists _, _. split; [done|]. intros y. specialize (Hs y).
          rewrite count_insert in Hs. rewrite count_insert. case_decide; [subst y; lia|done]. }
      unfold includeFun. destruct (counts !! name) as [v|] eqn:Hc.
      * destruct (Z.ltb_spec recursionMaxNums v); [simpl; by eexists _, _|].
        apply Hrun; unfold count; rewrite Hc; [done|done].
      * apply Hrun; unfold count; rewrite Hc; [done|done].
    + intros tr' x (r & counts' & -> & Hs). simpl. eapply holds_mono.
      * apply IHk; [apply Hp|]. by rewrite (slack_same _ _ _ Hs).
      * intros tr'' x (r' & counts'' & -> & Hs'). exists r', counts''. split; [done|]. intros y. by rewrite Hs', Hs.
  - done.
  - apply holds_bind. eapply holds_mono; [apply holds_true|]. intros tr' r _. apply IHk; [apply Hp|done].
Qed.

Lemma slack_empty names : slack names ∅ = 1001 * length names.
Proof. induction names as [|x names IH]; [done|]. rewrite slack_cons, IH. unfold room, count. rewrite lookup_empty. change (Z.to_nat (recursionMaxNums + 1 - default 0%Z None)) with 1001. simpl length. lia. Qed.

(** C33: Templates that include each other always come to an end.  A name is
    included at most 1001 times within itself, so that a template which does
    not use [tpl] is never executed more than 1001 times the number of its
    named templates deep, whatever the lookups find; at that depth the result
    is there, and afterwards every name may be included as before. *)
Theorem include_bounded uuid temp main gained tv n {W} (h : handler lcall W) (w : W) :
  Parse uuid temp = Ok (main, gained) →
  (∀ data, without_tpl (main data)) → (∀ name b data, gained !! name = Some b → without_tpl (b data)) →
  1001 * size gained < n →
  is_Some (run h (TemplateParse n uuid temp tv) w).1 ∧
  ∃ r counts, (run h (execute n (Template uuid gained) ∅ (main (Root tv))) w).1 = Some (r, counts) ∧ same_counts ∅ counts.
Proof.
  intros Hparse Hmain Hset Hn. set (t := Template uuid gained).
  assert (He : ∀ tr, holds (execute n t ∅ (main (Root tv))) tr (λ _ x, ∃ r counts', x = Some (r, counts') ∧ same_counts ∅ counts')).
  { intros tr. apply execute_ends; [exact Hset|apply Hmain|]. rewrite slack_empty. unfold set_names, t. cbn [t_set].
    change (length (elements (dom gained))) with (size (dom gained)). by rewrite size_dom. }
  split; [|apply (holds_run h _ w [] _ (He []))].
  apply (holds_run h (TemplateParse n uuid temp tv) w [] (λ _ x, is_Some x)). unfold TemplateParse. rewrite Hparse.
  apply holds_bind. eapply holds_mono; [apply He|]. intros tr' x (r & counts & -> & _). simpl. by exists r.
Qed.
End Engine.

(** ** Examples *)

Section Demo.
Definition again_body : body := λ data, CallInclude "again" data Text.
Definition tpl_body : body := λ data, CallTpl "{{ tpl .Values.text . }}" data Text.
#[local] Instance demo_engine : TemplateEngine :=
  {| Parse _ text := if String.eqb text "{{ tpl .Values.text . }}" then Ok (tpl_body, ∅) else Ok (again_body, {["again" := again_body]}) |}.
Definition no_values : template_values := TemplateValues ∅ ∅ ∅ ∅ JNull ∅.
Definition no_cluster : handler lcall unit := λ R c w,
  (match c in lcall R return R with
   | GetDiscoveryClient | GetDynClient => None
   | ServerVersion => Ok (ServerVersionInfo "v1.30" "1" "30" "v1.30")
   | ServerGroups => Ok [["v1"]; ["apps/v1"; "apps/v1beta1"]]
   | ServerResourcesForGroupVersion gv =>
       if String.eqb gv "apps/v1" then Ok [APIResource "deployments" "Deployment" true; APIResource "deployments/scale" "Scale" true]
       else if String.eqb gv "v1" then Ok [APIResource "pods" "Pod" true] else Err (new_error "")
   | DynGet _ _ _ | DynList _ _ => Err (Error NotFound "")
   end, w).

(** A template that includes itself ends with an error. *)
Lemma include_bounded_witness :
  (run no_cluster (TemplateParse (λ _, None) 1002 "u" "loop" no_values) tt).1 =
    Some (Err (new_error "rendering template has a nested reference name: again: unable to execute template")) ∧
  is_Some (run no_cluster (TemplateParse (λ _, None) 1002 "u" "loop" no_values) tt).1.
Proof.
  split; [vm_compute; reflexivity|].
  refine (proj1 (include_bounded (λ _, None) "u" "loop" again_body {["again" := again_body]} no_values 1002 no_cluster tt _ _ _ _)).
  - reflexivity.
  - intros data r. exact I.
  - intros name b data Hb. apply lookup_singleton_Some in Hb as [_ <-]. intros r. exact I.
  - apply Nat.leb_le. vm_compute. reflexivity.
Defined.

(** [tpl] has no such limit: a text that executes itself, like a parameter that
    refers to itself, never ends. *)
Lemma tpl_unbounded n t counts data : execute (λ _, None) n t counts (tpl_body data) = Ret None.
Proof.
  revert t counts. induction n as [|n IH]; intros t counts; [done|]. cbn [execute]. unfold tpl_body. cbn [steps].
  unfold tplFun. replace (Parse (t_name t) "{{ tpl .Values.text . }}") with (Ok (E := error) (tpl_body, (∅ : gmap string body))) by done.
  by rewrite IH.
Qed.

(** Subresources and versions that cannot be listed are left out. *)
Example capabilities_listed :
  let av := (run no_cluster discover_capabilities tt).1.2 in
  Has (Some av) "v1/Pod" = true ∧ Has (Some av) "apps/v1/Deployment" = true ∧ Has (Some av) "apps/v1/Scale" = false ∧
  Has (Some av) "apps/v1beta1" = true ∧ Has (Some av) "batch/v1" = false ∧ Has None "v1" = false.
Proof. by vm_compute. Qed.

(** A lookup of an object that is not there finds nothing; one of a version
    that is not served fails. *)
Example lookup_missing :
  let parse x := match x with | "apps/v1" => Some ("apps", "v1") | _ => Some ("batch", "v1") end in
  (run no_cluster (lookup_object parse "apps/v1" "Deployment" "prod" "redis") tt).1 = Ok ∅ ∧
  is_ok (run no_cluster (lookup_object parse "batch/v1" "Job" "prod" "redis") tt).1 = false.
Proof. by vm_compute. Qed.
End Demo.
