(* ===== verification/ActionReport.v ===== *)
(** * What actions report

    [internal/service/middlewareaction/action_diagnostics.go]: the messages of
    steps, with secrets masked and a bounded length, and the bounded reading of
    a response.  The two regular expressions are written as matchers on bytes:
    of the letters that [(?i)] takes for those of the key words only the ASCII
    ones are known here.  What [net/url] makes of a URL is a parameter. *)
From Stdlib Require Import ZArith Lia Ascii String.
From stdpp Require Import base strings list option pretty.
From S2P Require Import Prelude GoStrings Regexp Errors Diagnostic.

(** [maxActionOutputBytes], internal/service/middlewareaction/action_diagnostics.go:27-27 *)
Definition maxActionOutputBytes : Z := 1048576.
(** [maxActionDiagnosticMessageBytes], internal/service/middlewareaction/action_diagnostics.go:28-28 *)
Definition maxActionDiagnosticMessageBytes : Z := 2048.

(** ** Matching *)

(** What ends an unquoted value: [[^,\s;]]. *)
Definition re_value (a : ascii) : bool := negb (re_space a) && negb (Ascii.eqb a ",") && negb (Ascii.eqb a ";").

(** A word, whatever the case of its letters. *)
Fixpoint take_word (w s : string) : option (string * string) :=
  match w, s with
  | EmptyString, _ => Some ("", s)
  | String a w, String b s =>
      if Ascii.eqb (lower_ascii a) (lower_ascii b)
      then '(k, r) ← take_word w s; Some (String b k, r) else None
  | _, EmptyString => None
  end.

(** [\s*[:=]\s*] *)
Definition take_separator (s : string) : option (string * string) :=
  let '(k1, s) := span re_space s in
  match s with
  | String c s => if Ascii.eqb c ":" || Ascii.eqb c "=" then let '(k2, s) := span re_space s in Some (k1 +:+ String c k2, s) else None
  | EmptyString => None
  end.

(** A quoted value, from after the quote. *)
Definition after_quote (q : ascii) (s : string) : option string :=
  match (span (λ a, negb (Ascii.eqb a q)) s).2 with String _ r => Some r | EmptyString => None end.

(** What is left after a value: quoted, or up to a delimiter. *)
Definition skip_value (s : string) : option string :=
  match s with
  | EmptyString => None
  | String a s' =>
      match (if Ascii.eqb a double_quote || Ascii.eqb a single_quote then after_quote a s' else None) with
      | Some r => Some r
      | None => if re_value a then Some (span re_value s').2 else None
      end
  end.

(** The key words; [[-_]?] makes three of one. *)
(** [actionSecretKVPattern], internal/service/middlewareaction/action_diagnostics.go:32-32 *)
Definition secret_words : list string :=
  ["authorization"; "proxy-authorization"; "cookie"; "x-api-key"; "x-auth-token"; "access-key"; "access_key"; "accesskey";
   "secret-key"; "secret_key"; "secretkey"; "api-key"; "api_key"; "apikey"; "token"; "password"; "passwd"; "pwd"; "secret";
   "credential"].

(** A key word, its separator and its value; the value is not kept. *)
Definition secret_after (w s : string) : option (string * string) :=
  '(k, s) ← take_word w s; '(sep, s) ← take_separator s; r ← skip_value s; Some (k +:+ sep, r).
(** [actionSecretKVPattern], internal/service/middlewareaction/action_diagnostics.go *)
Definition actionSecretKVPattern (s : string) : option (string * string) := first_match (map (λ w, secret_after w s) secret_words).

(** The scheme is kept, the credentials are not. *)
Definition credentials_after (w s : string) : option (string * string) :=
  '(k, s) ← take_word w s; '(sep, s) ← take_separator s;
  '(scheme, s) ← first_match [take_word "Bearer" s; take_word "Basic" s];
  match span re_space s with
  | (String _ _, s) => match span re_value s with (String _ _, r) => Some (k +:+ sep +:+ scheme, r) | _ => None end
  | _ => None
  end.
(** [actionAuthHeaderPattern], internal/service/middlewareaction/action_diagnostics.go *)
Definition actionAuthHeaderPattern (s : string) : option (string * string) :=
  first_match (map (λ w, credentials_after w s) ["authorization"; "proxy-authorization"]).

(** ** Messages *)

Fixpoint take_bytes (n : Z) (s : string) : string :=
  match s with String a s => if (n <=? 0)%Z then "" else String a (take_bytes (n - 1) s) | EmptyString => "" end.
Definition bytes (s : string) : Z := Z.of_nat (String.length s).

(** [safeActionDiagnosticMessage], internal/service/middlewareaction/action_diagnostics.go *)
Definition safeActionDiagnosticMessage (message : string) : string :=
  let message := TrimSpace message in
  if String.eqb message "" then "action diagnostic unavailable"
  else
    let message := ReplaceAllString actionAuthHeaderPattern " ***" message in
    let message := ReplaceAllString actionSecretKVPattern "***" message in
    if (maxActionDiagnosticMessageBytes <? bytes message)%Z
    then take_bytes maxActionDiagnosticMessageBytes message +:+ "..." else message.

(** [commandStepSuccessMessage], internal/service/middlewareaction/action_diagnostics.go *)
Definition commandStepSuccessMessage (output : string) : string := "command completed; outputBytes=" +:+ pretty (bytes output).
(** [commandStepError], internal/service/middlewareaction/action_diagnostics.go *)
Definition commandStepError (err : error) (output : string) : error :=
  MkError (e_kind err) ("command failed: " +:+ e_msg err +:+ "; outputBytes=" +:+ pretty (bytes output)) (e_status err) (e_diagnosed err).
(** [kubectlExecSuccessMessage], internal/service/middlewareaction/action_diagnostics.go *)
Definition kubectlExecSuccessMessage (command : list string) (stdout : string) : string :=
  "kubectl exec completed; commandArgs=" +:+ pretty (length command) +:+ " outputBytes=" +:+ pretty (bytes stdout).
(** [kubectlExecError], internal/service/middlewareaction/action_diagnostics.go *)
Definition kubectlExecError (err : error) (command : list string) (stdout stderr : string) : error :=
  MkError (e_kind err) ("execute kubectl error: " +:+ e_msg err +:+ "; commandArgs=" +:+ pretty (length command) +:+
    " stdoutBytes=" +:+ pretty (bytes stdout) +:+ " stderrBytes=" +:+ pretty (bytes stderr)) (e_status err) (e_diagnosed err).

(** [url.Parse], then [String] without user, query and fragment. *)
Class UrlLib := { StrippedURL : string → option string }.

(** [redactedURL], internal/service/middlewareaction/action_diagnostics.go *)
Definition redactedURL `{!UrlLib} (rawURL : string) : string := default "<invalid-url>" (StrippedURL rawURL).

Definition http_facts `{!UrlLib} (method rawURL : string) (statusCode : Z) (output : string) : string :=
  "method=" +:+ method +:+ " url=" +:+ redactedURL rawURL +:+ " status=" +:+ pretty statusCode +:+ " responseBytes=" +:+ pretty (bytes output).
(** [httpStepSuccessMessage], internal/service/middlewareaction/action_diagnostics.go *)
Definition httpStepSuccessMessage `{!UrlLib} (method rawURL : string) (statusCode : Z) (output : string) : string :=
  "http request completed: " +:+ http_facts method rawURL statusCode output.
(** [httpStepError], internal/service/middlewareaction/action_diagnostics.go *)
Definition httpStepError `{!UrlLib} (action method rawURL : string) (statusCode : Z) (output : string) (err : option error) : error :=
  let msg := "execute http " +:+ action +:+ " failed: " +:+ http_facts method rawURL statusCode output in
  match err with Some e => wrap_error msg e | None => new_error msg end.
(** [parseExposedOutputError], internal/service/middlewareaction/action_diagnostics.go *)
Definition parseExposedOutputError (outputType stepName : string) : error :=
  new_error ("parse exposed " +:+ outputType +:+ " output failed for step " +:+ String double_quote (stepName +:+ String double_quote "")).

(** A reader: what it delivers, and whether it then ends or fails. *)
Record reader := Reader { rd_bytes : string; rd_error : option error }.

(** The limit stops the reading before an error that comes later is seen. *)
(** [readBoundedActionOutput], internal/service/middlewareaction/action_diagnostics.go *)
Definition readBoundedActionOutput (r : reader) : result error (string * bool) :=
  let output := take_bytes (maxActionOutputBytes + 1) (rd_bytes r) in
  match (if (bytes output <? maxActionOutputBytes + 1)%Z then rd_error r else None) with
  | Some e => Err e
  | None =>
      if (maxActionOutputBytes <? bytes output)%Z then Ok (take_bytes maxActionOutputBytes output, true) else Ok (output, false)
  end.

(** ** Lengths *)

Lemma bytes_app a b : bytes (a +:+ b) = (bytes a + bytes b)%Z.
Proof. unfold bytes. induction a as [|c a IH]; [done|]. change ((String c a) +:+ b) with (String c (a +:+ b)). simpl String.length in *. lia. Qed.

Lemma take_bytes_spec n s : ∃ rest, s = take_bytes n s +:+ rest ∧ bytes (take_bytes n s) = Z.min (Z.max 0 n) (bytes s).
Proof.
  unfold bytes. revert n. induction s as [|a s IH]; intros n; [exists ""; split; [done|simpl; lia]|]. simpl.
  destruct (Z.leb_spec n 0); [exists (String a s); split; [done|simpl; lia]|].
  destruct (IH (n - 1)%Z) as (rest & Hs & Hl). exists rest. split; [by rewrite Hs at 1|]. simpl String.length. lia.
Qed.

Lemma take_bytes_all n s : (bytes s ≤ n)%Z → take_bytes n s = s.
Proof.
  intros Hle. destruct (take_bytes_spec n s) as (rest & Hs & Hl). pose proof (bytes_app (take_bytes n s) rest) as Ha.
  rewrite <- Hs in Ha. assert (Hr : bytes rest = 0%Z) by (unfold bytes in *; lia).
  destruct rest; [|unfold bytes in Hr; simpl in Hr; lia]. by rewrite string_app_nil in Hs.
Qed.

(** A response is read whole, or at most up to the bound and refused. *)
Lemma read_bounded r :
  match readBoundedActionOutput r with
  | Ok (output, truncated) =>
      (bytes output ≤ maxActionOutputBytes)%Z ∧ (∃ rest, rd_bytes r = output +:+ rest) ∧
      truncated = bool_decide (maxActionOutputBytes < bytes (rd_bytes r))%Z ∧
      (truncated = false → output = rd_bytes r ∧ rd_error r = None)
  | Err e => rd_error r = Some e ∧ (bytes (rd_bytes r) ≤ maxActionOutputBytes)%Z
  end.
Proof.
  unfold readBoundedActionOutput. cbv zeta. assert (Hmax : (0 < maxActionOutputBytes)%Z) by done.
  destruct (take_bytes_spec (maxActionOutputBytes + 1) (rd_bytes r)) as (rest & Hs & Hl).
  set (out := take_bytes (maxActionOutputBytes + 1) (rd_bytes r)) in *.
  destruct (Z.ltb_spec (bytes out) (maxActionOutputBytes + 1)) as [Hlt|Hge].
  - assert (Hout : out = rd_bytes r) by (apply take_bytes_all; lia).
    destruct (rd_error r) as [e|] eqn:He; [split; [done|lia]|].
    rewrite (proj2 (Z.ltb_ge _ _)) by lia. split_and!; [lia|exists ""; by rewrite string_app_nil|rewrite bool_decide_eq_false_2; [done|lia]|done].
  - rewrite (proj2 (Z.ltb_lt _ _)) by lia. destruct (take_bytes_spec maxActionOutputBytes out) as (rest' & Hs' & Hl').
    split_and!; [lia|exists (rest' +:+ rest); by rewrite Hs, Hs' at 1; rewrite string_app_assoc| |done].
    rewrite bool_decide_eq_true_2; [done|]. lia.
Qed.

Lemma message_bounded message : (bytes (safeActionDiagnosticMessage message) ≤ maxActionDiagnosticMessageBytes + 3)%Z.
Proof.
  unfold safeActionDiagnosticMessage. cbv zeta. destruct (String.eqb _ _); [by vm_compute|].
  set (m := ReplaceAllString _ _ _). assert (Hmax : (0 < maxActionDiagnosticMessageBytes)%Z) by done.
  destruct (Z.ltb_spec maxActionDiagnosticMessageBytes (bytes m)); [|lia].
  destruct (take_bytes_spec maxActionDiagnosticMessageBytes m) as (_ & _ & Hl).
  rewrite bytes_app. change (bytes "...") with 3%Z. lia.
Qed.

(** ** Masking

    [masked s t]: [t] is [s] up to where a value begins; there [t] goes on
    with the mask.  What follows the mask is not looked at. *)
Inductive masked : string → string → Prop :=
  | masked_nil : masked "" ""
  | masked_cons a s t : masked s t → masked (String a s) (String a t)
  | masked_value a s t : re_value a = true → masked (String a s) ("*" +:+ t).

Lemma masked_refl s : masked s s.
Proof. induction s; by constructor. Qed.

(** A word without the mask's letter is found in both or in neither. *)
Fixpoint no_star (w : string) : bool :=
  match w with String a w => negb (Ascii.eqb (lower_ascii a) "*") && no_star w | EmptyString => true end.

Lemma take_word_masked w s t k r :
  no_star w = true → masked s t → take_word w t = Some (k, r) → ∃ r', take_word w s = Some (k, r') ∧ masked r' r.
Proof.
  revert s t k r. induction w as [|a w IH]; intros s t k r Hw Hm; [intros [= <- <-]; by exists s|].
  simpl in Hw. apply andb_prop in Hw as [Ha Hw]. destruct Hm as [|b s t Hm|b s t Hb]; [done| |].
  - cbn [take_word]. destruct (Ascii.eqb (lower_ascii a) (lower_ascii b)); [|done]. destruct (take_word w t) as [[k' r']|] eqn:Et; [|done]. intros [= <- <-].
    destruct (IH s t k' r' Hw Hm Et) as (r'' & -> & ?). by exists r''.
  - change ("*" +:+ t) with (String "*" t). cbn [take_word]. change (lower_ascii "*"%char) with "*"%char. apply negb_true_iff in Ha. by rewrite Ha.
Qed.

Lemma re_value_space a : re_value a = true → re_space a = false.
Proof. unfold re_value. by destruct (re_space a). Qed.

Lemma span_masked s t : masked s t → (span re_space s).1 = (span re_space t).1 ∧ masked (span re_space s).2 (span re_space t).2.
Proof.
  induction 1 as [|a s t Hm [IH1 IH2]|a s t Ha]; [split; [done|constructor]| |].
  - simpl. destruct (re_space a); [|split; [done|by constructor]].
    destruct (span re_space s) as [k r], (span re_space t) as [k' r']. simpl in *. by subst.
  - simpl. rewrite (re_value_space _ Ha). split; [done|by constructor].
Qed.

Lemma take_separator_masked s t k r :
  masked s t → take_separator t = Some (k, r) → ∃ r', take_separator s = Some (k, r') ∧ masked r' r.
Proof.
  intros Hm. unfold take_separator. destruct (span_masked s t Hm) as [Hk Hr].
  destruct (span re_space s) as [k1 s1], (span re_space t) as [k1' t1]. simpl in Hk, Hr. subst k1'.
  destruct Hr as [|a s2 t2 Hr|a s2 t2 Ha]; [done| |done].
  destruct (_ || _); [|done]. destruct (span_masked s2 t2 Hr) as [Hk2 Hr2].
  destruct (span re_space s2) as [k2 s3], (span re_space t2) as [k2' t3]. simpl in Hk2, Hr2. subst k2'.
  intros [= <- <-]. by exists s3.
Qed.

(** What may start a value: anything that may be in an unquoted one. *)
Lemma skip_value_head s r : skip_value s = Some r → ∃ a s', s = String a s' ∧ re_value a = true.
Proof.
  destruct s as [|a s]; [done|]. intros Hs. exists a, s. split; [done|]. simpl in Hs.
  destruct (Ascii.eqb_spec a double_quote) as [->|]; [done|]. destruct (Ascii.eqb_spec a single_quote) as [->|]; [done|].
  simpl in Hs. by destruct (re_value a).
Qed.

Lemma skip_value_some a s : re_value a = true → is_Some (skip_value (String a s)).
Proof. intros Ha. cbn [skip_value]. rewrite Ha. by destruct (Ascii.eqb _ _ || _); [destruct (after_quote a s)|]. Qed.

Lemma secret_words_no_star w : w ∈ secret_words → no_star w = true.
Proof.
  intros Hw. assert (Hall : forallb no_star secret_words = true) by done. rewrite forallb_forall in Hall.
  apply Hall. by apply list_elem_of_In.
Qed.

Lemma take_word_app w s k r : take_word w s = Some (k, r) → s = k +:+ r.
Proof.
  revert s k. induction w as [|a w IH]; intros s k; [by intros [= <- <-]|]. destruct s as [|b s]; [done|]. cbn [take_word].
  destruct (Ascii.eqb _ _); [|done]. destruct (take_word w s) as [[k' r']|] eqn:Et; [|done]. intros [= <- <-].
  exact (f_equal (String b) (IH s k' Et)).
Qed.

Lemma take_separator_app s k r : take_separator s = Some (k, r) → s = k +:+ r.
Proof.
  unfold take_separator. rewrite (span_app re_space s) at 2. destruct (span re_space s) as [k1 s1]. simpl.
  destruct s1 as [|c s1]; [done|]. destruct (_ || _); [|done]. rewrite (span_app re_space s1) at 2.
  destruct (span re_space s1) as [k2 s2]. intros [= <- <-]. simpl. rewrite string_app_assoc. done.
Qed.

(** The value of a key word in the masked text is the mask, unless the word had
    a value before. *)
Definition shows_mask (k t : string) : Prop := ∃ rest, t = k +:+ "*" +:+ rest.

Lemma secret_after_masked w s t k r :
  no_star w = true → masked s t → secret_after w t = Some (k, r) → secret_after w s = None → shows_mask k t.
Proof.
  intros Hw Hm. unfold secret_after. destruct (take_word w t) as [[k1 t1]|] eqn:E1; [|done].
  destruct (take_word_masked _ _ _ _ _ Hw Hm E1) as (s1 & -> & Hm1). cbn [mbind option_bind].
  destruct (take_separator t1) as [[sep t2]|] eqn:E2; [|done].
  destruct (take_separator_masked _ _ _ _ Hm1 E2) as (s2 & -> & Hm2). cbn [mbind option_bind].
  destruct (skip_value t2) as [r'|] eqn:E3; [|done]. intros [= <- <-] Hnone.
  apply take_word_app in E1 as ->. apply take_separator_app in E2 as ->.
  destruct (skip_value_head _ _ E3) as (a & t3 & -> & Ha). inversion Hm2 as [|? s3 ? Hm3|? s3 t4 Hb]; subst.
  - destruct (skip_value_some a s3 Ha) as [r2 Hr2]. by rewrite Hr2 in Hnone.
  - exists t4. by rewrite !string_app_assoc.
Qed.

Lemma pattern_masked s t k r :
  masked s t → actionSecretKVPattern s = None → actionSecretKVPattern t = Some (k, r) → shows_mask k t.
Proof.
  unfold actionSecretKVPattern. rewrite first_match_none. intros Hm Hs Ht%first_match_some.
  apply list_elem_of_In, in_map_iff in Ht as (w & Ht & Hw%list_elem_of_In). eapply secret_after_masked; [by apply secret_words_no_star|done|done|].
  apply Hs. apply list_elem_of_In, in_map_iff. exists w. split; [done|]. by apply list_elem_of_In.
Qed.

(** *** Where a value begins is determined by the separator *)

Definition is_sep (a : ascii) : bool := Ascii.eqb a ":" || Ascii.eqb a "=".
Definition key_part (s : string) : option string :=
  let '(x, s) := span (λ a, negb (is_sep a)) s in
  match s with String c s => Some (x +:+ String c (span re_space s).1) | EmptyString => None end.

(** A key word is not empty and has neither separators nor spaces. *)
Definition key_char (a : ascii) : bool := negb (is_sep a) && negb (re_space a) && negb (Ascii.eqb a "*").
Fixpoint key_word (w : string) : bool :=
  match w with String a w => key_char (lower_ascii a) && key_word w | EmptyString => true end.

Lemma key_char_lower a : key_char (lower_ascii a) = key_char a.
Proof. destruct a as [[] [] [] [] [] [] [] []]; reflexivity. Qed.

Lemma take_word_chars w s k r : key_word w = true → take_word w s = Some (k, r) → all_chars key_char k = true.
Proof.
  revert s k. induction w as [|a w IH]; intros s k; [by intros _ [= <- _]|]. intros [Ha Hw]%andb_prop.
  destruct s as [|b s]; [done|]. cbn [take_word]. destruct (Ascii.eqb_spec (lower_ascii a) (lower_ascii b)) as [Hab|]; [|done].
  destruct (take_word w s) as [[k' r']|] eqn:Et; [|done]. intros [= <- <-]. cbn [all_chars].
  rewrite <- key_char_lower, <- Hab, Ha. exact (IH s k' Hw Et).
Qed.

Lemma space_not_sep a : re_space a = true → negb (is_sep a) = true.
Proof. destruct a as [[] [] [] [] [] [] [] []]; by vm_compute. Qed.
Lemma key_not_sep a : key_char a = true → negb (is_sep a) = true.
Proof. unfold key_char. by destruct (is_sep a). Qed.

Lemma take_separator_key s sep r : take_separator s = Some (sep, r) → key_part s = Some sep.
Proof.
  unfold take_separator, key_part. rewrite (span_app re_space s) at 2.
  pose proof (all_chars_mono _ _ _ space_not_sep (span_all_chars re_space s)) as Hsp.
  destruct (span re_space s) as [k1 s1]. simpl in *. destruct s1 as [|c s1]; [done|].
  fold (is_sep c). destruct (is_sep c) eqn:Hc; [|done]. rewrite span_all by done. cbn [span]. rewrite Hc. simpl.
  destruct (span re_space s1) as [k2 s2]. intros [= <- _]. by rewrite string_app_nil.
Qed.

Lemma key_part_app k s x : all_chars key_char k = true → key_part s = Some x → key_part (k +:+ s) = Some (k +:+ x).
Proof.
  intros Hk. unfold key_part. rewrite span_all by (by eapply all_chars_mono; [apply key_not_sep|]).
  destruct (span _ s) as [x' s']. simpl. destruct s' as [|c s']; [done|]. intros [= <-]. by rewrite string_app_assoc.
Qed.

Lemma secret_after_key w s k r : key_word w = true → secret_after w s = Some (k, r) → key_part s = Some k.
Proof.
  intros Hw. unfold secret_after. destruct (take_word w s) as [[k1 s1]|] eqn:E1; [|done]. cbn [mbind option_bind].
  destruct (take_separator s1) as [[sep s2]|] eqn:E2; [|done]. cbn [mbind option_bind].
  destruct (skip_value s2) as [r'|]; [|done]. intros [= <- <-]. pose proof (take_word_chars _ _ _ _ Hw E1) as Hk.
  apply take_word_app in E1 as ->. apply key_part_app; [done|]. by eapply take_separator_key.
Qed.

Lemma secret_words_key w : w ∈ secret_words → key_word w = true ∧ w ≠ "".
Proof.
  intros Hw. assert (Hall : forallb (λ w, key_word w && negb (String.eqb w "")) secret_words = true) by done.
  rewrite forallb_forall in Hall. specialize (Hall w ltac:(by apply list_elem_of_In)). apply andb_prop in Hall as [? He].
  split; [done|]. by intros ->.
Qed.

Lemma pattern_after s k r : actionSecretKVPattern s = Some (k, r) → ∃ w, w ∈ secret_words ∧ secret_after w s = Some (k, r).
Proof.
  intros Hs%first_match_some. apply list_elem_of_In, in_map_iff in Hs as (w & Hs & Hw%list_elem_of_In). eauto.
Qed.

(** A match: key, separator, and then a value that is longer than nothing. *)
Lemma pattern_value s k r : actionSecretKVPattern s = Some (k, r) →
  ∃ a v, s = k +:+ String a v ∧ re_value a = true ∧ String.length r ≤ String.length v.
Proof.
  intros (w & Hw & Hs)%pattern_after. unfold secret_after in Hs.
  destruct (take_word w s) as [[k1 s1]|] eqn:E1; [|done]. cbn [mbind option_bind] in Hs.
  destruct (take_separator s1) as [[sep s2]|] eqn:E2; [|done]. cbn [mbind option_bind] in Hs.
  destruct (skip_value s2) as [r'|] eqn:E3; [|done]. injection Hs as <- <-.
  apply take_word_app in E1 as ->. apply take_separator_app in E2 as ->.
  destruct (skip_value_head _ _ E3) as (a & v & -> & Ha). exists a, v. split_and!; [by rewrite string_app_assoc|done|].
  assert (Hspan : ∀ p x, String.length (span p x).2 ≤ String.length x).
  { intros p x. induction x as [|b x IH]; [done|]. cbn [span]. destruct (p b); [|simpl; lia]. destruct (span p x). simpl in *. lia. }
  cbn [skip_value] in E3. rewrite Ha in E3. unfold after_quote in E3.
  pose proof (Hspan re_value v). pose proof (Hspan (λ b, negb (Ascii.eqb b a)) v).
  destruct (_ || _); [destruct (span (λ b, negb (Ascii.eqb b a)) v) as [x [|c y]]|]; injection E3 as <-; simpl in *; lia.
Qed.

(** A key does not begin at a separator, a space or the mask. *)
Lemma pattern_head a s : key_char a = false → actionSecretKVPattern (String a s) = None.
Proof.
  intros Ha. destruct (actionSecretKVPattern (String a s)) as [[k r]|] eqn:Hs; [|done]. exfalso.
  destruct (pattern_after _ _ _ Hs) as (w & [Hw Hne]%secret_words_key & Hp). unfold secret_after in Hp.
  destruct (take_word w (String a s)) as [[k1 s1]|] eqn:E1; [|done]. pose proof (take_word_chars _ _ _ _ Hw E1) as Hk.
  destruct w as [|b w]; [done|]. cbn [take_word] in E1. destruct (Ascii.eqb _ _); [|done].
  destruct (take_word w s) as [[k' r']|]; [|done]. injection E1 as <- _. cbn [all_chars] in Hk. by rewrite Ha in Hk.
Qed.

(** No value of a key word is left in the text, wherever one looks. *)
Fixpoint all_masked (t : string) : Prop :=
  (∀ k r, actionSecretKVPattern t = Some (k, r) → shows_mask k t) ∧
  match t with String _ t => all_masked t | EmptyString => True end.

Lemma all_masked_suffix front rest k r :
  all_masked (front +:+ rest) → actionSecretKVPattern rest = Some (k, r) → shows_mask k rest.
Proof.
  induction front as [|a front IH]; intros Hall Hm; [|apply IH; [exact (proj2 Hall)|done]].
  change ("" +:+ rest) with rest in Hall. destruct rest; apply (proj1 Hall _ _ Hm).
Qed.

Lemma all_masked_skip x t : all_chars (λ a, negb (key_char a)) x = true → all_masked t → all_masked (x +:+ t).
Proof.
  induction x as [|a x IH]; [done|]. intros [Ha Hx]%andb_prop Ht. split; [|by apply IH].
  intros k r. by rewrite pattern_head by (by apply negb_true_iff).
Qed.

(** The text that is kept of a match, and the mask. *)
Lemma all_masked_kept x ws c t :
  all_chars (λ a, negb (is_sep a)) x = true → is_sep c = true → all_chars re_space ws = true → all_masked t →
  all_masked (x +:+ String c ws +:+ "*" +:+ t).
Proof.
  intros Hx Hc Hws Ht.
  assert (Htail : all_masked (String c ws +:+ "*" +:+ t)).
  { apply all_masked_skip.
    - cbn [all_chars]. apply andb_true_intro. split; [unfold key_char; by rewrite Hc|].
      eapply all_chars_mono; [|exact Hws]. intros a Ha. unfold key_char. rewrite Ha. by destruct (is_sep a).
    - by apply (all_masked_skip "*"). }
  induction x as [|a x IH]; [exact Htail|]. apply andb_prop in Hx as [Ha Hx]. split; [|by apply IH].
  intros k r (w & [Hw _]%secret_words_key & Hp)%pattern_after. pose proof (secret_after_key _ _ _ _ Hw Hp) as Hk.
  assert (Hkey : key_part (String a x +:+ String c ws +:+ "*" +:+ t) = Some (String a x +:+ String c ws)).
  { unfold key_part. rewrite span_all by (cbn [all_chars]; by rewrite Ha).
    change (String c ws +:+ "*" +:+ t) with (String c (ws +:+ "*" +:+ t)). cbn [span]. rewrite Hc. cbn [negb fst snd].
    rewrite span_all by done. simpl. by rewrite !string_app_nil. }
  change (String a (x +:+ String c ws +:+ "*" +:+ t)) with (String a x +:+ String c ws +:+ "*" +:+ t) in *.
  rewrite Hkey in Hk. injection Hk as <-. exists t. by rewrite string_app_assoc.
Qed.

Lemma span_stop p s a r : (span p s).2 = String a r → p a = false.
Proof.
  induction s as [|b s IH]; [done|]. cbn [span]. destruct (p b) eqn:Hb; [|by intros [= <- _]].
  destruct (span p s). exact IH.
Qed.

Lemma key_part_shape s k : key_part s = Some k →
  ∃ x c ws, k = x +:+ String c ws ∧ all_chars (λ a, negb (is_sep a)) x = true ∧ is_sep c = true ∧ all_chars re_space ws = true.
Proof.
  unfold key_part. pose proof (span_all_chars (λ a, negb (is_sep a)) s) as Hx. pose proof (span_stop (λ a, negb (is_sep a)) s) as Hstop.
  destruct (span _ s) as [x s']. simpl in *. destruct s' as [|c s']; [done|]. intros [= <-].
  exists x, c, (span re_space s').1. split_and!; [done|done| |apply span_all_chars].
  specialize (Hstop c s' eq_refl). by destruct (is_sep c).
Qed.

Lemma masked_kept k a v u : re_value a = true → masked (k +:+ String a v) (k +:+ "*" +:+ u).
Proof. intros Ha. induction k as [|b k IH]; [by constructor|]. by apply (masked_cons b). Qed.

Lemma replace_masked fuel s : String.length s ≤ fuel →
  masked s (replace_all fuel actionSecretKVPattern "***" s) ∧ all_masked (replace_all fuel actionSecretKVPattern "***" s).
Proof.
  revert s. induction fuel as [|fuel IH]; intros s Hlen; destruct s as [|a s]; try (simpl in Hlen; lia); try (split; [constructor|by split]).
  cbn [replace_all]. destruct (actionSecretKVPattern (String a s)) as [[k r]|] eqn:Hm.
  - destruct (pattern_value _ _ _ Hm) as (b & v & Hs & Hb & Hr).
    destruct (pattern_after _ _ _ Hm) as (w & [Hw _]%secret_words_key & Hp).
    destruct (key_part_shape _ _ (secret_after_key _ _ _ _ Hw Hp)) as (x & c & ws & -> & Hx & Hc & Hws).
    assert (Hlt : String.length r ≤ fuel).
    { assert (Hl : bytes (String a s) = bytes ((x +:+ String c ws) +:+ String b v)) by (by rewrite Hs).
      rewrite !bytes_app in Hl. unfold bytes in Hl. simpl String.length in *. lia. }
    destruct (IH r Hlt) as [_ Hall]. change ("***" +:+ ?u) with ("*" +:+ "**" +:+ u). split.
    + rewrite Hs. by apply masked_kept.
    + rewrite string_app_assoc. apply all_masked_kept; [done..|]. by apply (all_masked_skip "**").
  - destruct (IH s) as [Hmask Hall]; [simpl in Hlen; lia|]. split; [by constructor|]. split; [|done].
    intros k r Hk. eapply pattern_masked; [by constructor|done|done].
Qed.

(** ** Truncation

    What matches before the cut also matched in the whole text. *)

Lemma take_word_local w s k r x : take_word w s = Some (k, r) → take_word w (k +:+ x) = Some (k, x).
Proof.
  revert s k r. induction w as [|a w IH]; intros s k r; [by intros [= <- _]|]. destruct s as [|b s]; [done|]. cbn [take_word].
  destruct (Ascii.eqb _ _) eqn:Hab; [|done]. destruct (take_word w s) as [[k' r']|] eqn:Et; [|done]. intros [= <- _].
  change (String b k' +:+ x) with (String b (k' +:+ x)). cbn [take_word]. rewrite Hab. by rewrite (IH _ _ _ Et).
Qed.

Lemma take_separator_local s k r a x : re_space a = false →
  take_separator s = Some (k, r) → take_separator (k +:+ String a x) = Some (k, String a x).
Proof.
  intros Ha. unfold take_separator. pose proof (span_all_chars re_space s) as H1. pose proof (span_stop re_space s) as Hst.
  destruct (span re_space s) as [k1 s1]. simpl in H1, Hst. destruct s1 as [|c s1]; [done|]. specialize (Hst _ _ eq_refl).
  destruct (_ || _) eqn:Hc; [|done]. pose proof (span_all_chars re_space s1) as H2.
  destruct (span re_space s1) as [k2 s2]. simpl in H2. intros [= <- _]. rewrite string_app_assoc, span_all by done.
  change (String c k2 +:+ String a x) with (String c (k2 +:+ String a x)). cbn [span fst snd]. rewrite Hst. cbn [fst snd].
  rewrite Hc, span_all by done. cbn [span fst snd]. rewrite Ha. cbn [fst snd]. by rewrite !string_app_nil.
Qed.

Lemma secret_after_local w k a u u' r :
  re_value a = true → secret_after w (k +:+ String a u) = Some (k, r) → is_Some (secret_after w (k +:+ String a u')).
Proof.
  intros Ha. unfold secret_after. destruct (take_word w (k +:+ String a u)) as [[k1 s1]|] eqn:E1; [|done]. cbn [mbind option_bind].
  destruct (take_separator s1) as [[sep s2]|] eqn:E2; [|done]. cbn [mbind option_bind].
  destruct (skip_value s2) as [r'|]; [|done]. intros [= <- _].
  rewrite string_app_assoc, (take_word_local _ _ _ _ _ E1). cbn [mbind option_bind].
  rewrite (take_separator_local _ _ _ _ _ (re_value_space _ Ha) E2). cbn [mbind option_bind].
  destruct (skip_value_some a u' Ha) as [r2 ->]. eauto.
Qed.


(** Two ways to cut a string: one part is a prefix of the other. *)

Lemma key_part_value k a u k' u' : re_space a = false → key_part (k +:+ String a u) = Some k → key_part (k +:+ String a u') = Some k' → k' = k.
Proof.
  intros Ha Hk Hk'. destruct (key_part_shape _ _ Hk) as (x & c & ws & -> & Hx & Hc & Hws). unfold key_part in Hk'.
  rewrite string_app_assoc, span_all in Hk' by done. change (String c ws +:+ String a u') with (String c (ws +:+ String a u')) in Hk'.
  cbn [span fst snd] in Hk'. rewrite Hc in Hk'. cbn [negb fst snd] in Hk'. rewrite span_all in Hk' by done.
  cbn [span fst snd] in Hk'. rewrite Ha in Hk'. injection Hk' as <-. by rewrite !string_app_nil.
Qed.

Lemma all_chars_app p a b : all_chars p (a +:+ b) = all_chars p a && all_chars p b.
Proof. induction a as [|x a IH]; [done|]. change (String x a +:+ b) with (String x (a +:+ b)). cbn [all_chars]. by rewrite IH, andb_assoc. Qed.

(** A key does not reach into the dots. *)
Lemma key_before_dots s k e e' d : key_part s = Some k → k = e +:+ e' → "..." = e' +:+ d → e' = "".
Proof.
  intros (x & c & ws & -> & _ & Hc & Hws)%key_part_shape Hk Hd.
  assert (Hdots : all_chars (Ascii.eqb ".") e' = true).
  { assert (Hall : all_chars (Ascii.eqb ".") (e' +:+ d) = true) by (by rewrite <- Hd). rewrite all_chars_app in Hall. by apply andb_prop in Hall as [? _]. }
  assert (Hnot : ∀ y z, e' = y +:+ String c z → False).
  { intros y z ->. rewrite all_chars_app in Hdots. apply andb_prop in Hdots as [_ [Hdot _]%andb_prop]. apply Ascii.eqb_eq in Hdot as <-. done. }
  destruct (string_app_eq _ _ _ _ Hk) as [(e2 & -> & He)|(e2 & -> & He)]; [|by destruct (Hnot _ _ He)].
  destruct e2 as [|y e2]; [by destruct (Hnot "" ws (eq_sym He))|]. injection He as -> ->.
  rewrite all_chars_app in Hws. apply andb_prop in Hws as [_ Hws]. destruct e' as [|a e']; [done|]. exfalso.
  apply andb_prop in Hws as [Ha _]. apply andb_prop in Hdots as [Hdot _]. apply Ascii.eqb_eq in Hdot as <-. done.
Qed.

Lemma pattern_local w k a u u' : w ∈ secret_words → re_value a = true → key_part (k +:+ String a u) = Some k →
  is_Some (secret_after w (k +:+ String a u)) → ∃ r, actionSecretKVPattern (k +:+ String a u') = Some (k, r).
Proof.
  intros Hw Ha Hk [[k1 r1] Hp]. destruct (secret_words_key w Hw) as [Hkw _].
  assert (k1 = k) as -> by (pose proof (secret_after_key _ _ _ _ Hkw Hp) as Hk1; congruence).
  destruct (secret_after_local _ _ _ _ u' _ Ha Hp) as [x Hx].
  destruct (actionSecretKVPattern (k +:+ String a u')) as [[k2 r2]|] eqn:Hm.
  - exists r2. destruct (pattern_after _ _ _ Hm) as (w' & [Hw' _]%secret_words_key & Hp').
    by rewrite (key_part_value _ _ _ _ _ (re_value_space _ Ha) Hk (secret_after_key _ _ _ _ Hw' Hp')).
  - exfalso. unfold actionSecretKVPattern in Hm. rewrite first_match_none in Hm.
    rewrite (Hm (secret_after w (k +:+ String a u'))) in Hx; [done|]. apply list_elem_of_In, in_map_iff. exists w.
    split; [done|]. by apply list_elem_of_In.
Qed.

(** The cut text. *)
Lemma cut_masked p cut front rest k r : all_masked (p +:+ cut) → p +:+ "..." = front +:+ rest →
  actionSecretKVPattern rest = Some (k, r) → shows_mask k rest ∨ rest = k +:+ "...".
Proof.
  intros Hall Hp Hm. destruct (pattern_after _ _ _ Hm) as (w & Hw & Hsec).
  pose proof (secret_after_key _ _ _ _ (proj1 (secret_words_key w Hw)) Hsec) as Hk.
  destruct (pattern_value _ _ _ Hm) as (a & v & Hrest & Ha & _).
  destruct (string_app_eq _ _ _ _ Hp) as [(e & -> & Hd)|(e & -> & ->)].
  { destruct (key_part_shape _ _ Hk) as (x & c & ws & -> & _ & Hc & _). exfalso.
    assert (Hall' : all_chars (Ascii.eqb ".") "..." = true) by done. rewrite Hd, Hrest, !all_chars_app in Hall'.
    repeat (apply andb_prop in Hall' as [? Hall']). cbn [all_chars] in *.
    match goal with Hx : all_chars _ x && _ = true |- _ => apply andb_prop in Hx as [_ [Hx _]%andb_prop]; apply Ascii.eqb_eq in Hx; subst c end.
    done. }
  destruct (string_app_eq _ _ _ _ Hrest) as [(e' & Hke & Hd)|(e' & -> & Hv)].
  - rewrite (key_before_dots _ _ _ _ _ Hk Hke Hd), string_app_nil in Hke. subst. by right.
  - destruct e' as [|b e']; [right; by rewrite string_app_nil|]. injection Hv as <- ->. left.
    rewrite Hrest in Hk. destruct (pattern_local w k a _ (e' +:+ cut) Hw Ha Hk) as [r' Hr']; [rewrite <- Hrest, Hsec; eauto|].
    assert (Hshow : shows_mask k (k +:+ String a (e' +:+ cut))).
    { eapply all_masked_suffix; [|exact Hr']. instantiate (1 := front). by rewrite !string_app_assoc in Hall. }
    destruct Hshow as [u Hu%string_app_inj]. injection Hu as -> _. exists (e' +:+ "..."). by rewrite string_app_assoc.
Qed.

(** A whole value: in quotes, or up to a delimiter or the end. *)
Definition whole_value (v r : string) : Prop :=
  (∃ q x, q ∈ [double_quote; single_quote] ∧ v = String q (x +:+ String q "") ∧ all_chars (λ a, negb (Ascii.eqb a q)) x = true) ∨
  (v ≠ "" ∧ all_chars re_value v = true ∧ match r with String a _ => re_value a = false | EmptyString => True end).

Lemma after_quote_whole q s r : after_quote q s = Some r → ∃ x, s = x +:+ String q r ∧ all_chars (λ a, negb (Ascii.eqb a q)) x = true.
Proof.
  unfold after_quote. set (p := λ a, negb (Ascii.eqb a q)). intros Hr. exists (span p s).1. split; [|apply span_all_chars].
  pose proof (span_app p s) as Hs. destruct (span p s) as [x [|c y]] eqn:E; [done|]. injection Hr as ->. simpl in *.
  assert (Hc : p c = false) by (by apply (span_stop p s c r); rewrite E). unfold p in Hc. apply negb_false_iff, Ascii.eqb_eq in Hc. by subst.
Qed.

Lemma skip_value_whole s r : skip_value s = Some r → ∃ v, s = v +:+ r ∧ whole_value v r.
Proof.
  destruct s as [|a s]; [done|]. cbn [skip_value].
  destruct (if _ || _ then after_quote a s else None) as [r'|] eqn:Eq.
  - intros [= <-]. destruct (Ascii.eqb a double_quote || Ascii.eqb a single_quote) eqn:Ea; [|done].
    apply after_quote_whole in Eq as (x & -> & Hx). exists (String a (x +:+ String a "")). split.
    + change (String a (x +:+ String a "") +:+ r') with (String a ((x +:+ String a "") +:+ r')). by rewrite string_app_assoc.
    + left. exists a, x. split_and!; [|done..]. rewrite !elem_of_cons. apply orb_prop in Ea as [->%Ascii.eqb_eq | ->%Ascii.eqb_eq]; auto.
  - destruct (re_value a) eqn:Ha; [|done]. intros [= <-]. exists (String a (span re_value s).1). split.
    + change (String a (span re_value s).1 +:+ (span re_value s).2) with (String a ((span re_value s).1 +:+ (span re_value s).2)).
      by rewrite <- span_app.
    + right. split_and!; [done|cbn [all_chars]; by rewrite Ha, span_all_chars|].
      pose proof (span_stop re_value s) as Hst. destruct (span re_value s).2; [done|by eapply Hst].
Qed.

(** A match: a key word, a separator, and the whole value. *)
Lemma pattern_whole s k r : actionSecretKVPattern s = Some (k, r) →
  ∃ w name sep v, w ∈ secret_words ∧ take_word w name = Some (name, "") ∧ take_separator (sep +:+ v +:+ r) = Some (sep, v +:+ r) ∧
    k = name +:+ sep ∧ s = k +:+ v +:+ r ∧ whole_value v r.
Proof.
  intros (w & Hw & Hs)%pattern_after. unfold secret_after in Hs.
  destruct (take_word w s) as [[k1 s1]|] eqn:E1; [|done]. cbn [mbind option_bind] in Hs.
  destruct (take_separator s1) as [[sep s2]|] eqn:E2; [|done]. cbn [mbind option_bind] in Hs.
  destruct (skip_value s2) as [r'|] eqn:E3; [|done]. injection Hs as <- <-.
  apply skip_value_whole in E3 as (v & -> & Hv). exists w, k1, sep, v. pose proof (take_word_local _ _ _ _ "" E1) as Hn.
  rewrite string_app_nil in Hn. apply take_word_app in E1 as ->. pose proof (take_separator_app _ _ _ E2) as ->.
  split_and!; [done|done|done|done|by rewrite !string_app_assoc|done].
Qed.

(** Both patterns match more than nothing. *)
Lemma length_app a b : String.length (a +:+ b) = String.length a + String.length b.
Proof. pose proof (bytes_app a b) as Hb. unfold bytes in Hb. lia. Qed.
Lemma kv_shrinks : shrinks actionSecretKVPattern.
Proof.
  intros s k r (a & v & -> & _ & Hr)%pattern_value. rewrite length_app. simpl. lia.
Qed.
Lemma auth_shrinks : shrinks actionAuthHeaderPattern.
Proof.
  intros s k r Hs%first_match_some. apply list_elem_of_In, in_map_iff in Hs as (w & Hs & _). unfold credentials_after in Hs.
  destruct (take_word w s) as [[k1 s1]|] eqn:E1; [|done]. apply take_word_app in E1 as ->. cbn [mbind option_bind] in Hs.
  destruct (take_separator s1) as [[sep s2]|] eqn:E2; [|done]. apply take_separator_app in E2 as ->. cbn [mbind option_bind] in Hs.
  destruct (first_match _) as [[scheme s3]|] eqn:E3; [|done]. cbn [mbind option_bind] in Hs.
  assert (s2 = scheme +:+ s3) as ->.
  { apply first_match_some in E3. rewrite !elem_of_cons, elem_of_nil in E3.
    destruct E3 as [E3|[E3|[]]]; symmetry in E3; by apply take_word_app in E3. }
  rewrite (span_app re_space s3). destruct (span re_space s3) as [[|c sp] s4]; [done|]. simpl fst. simpl snd.
  rewrite (span_app re_value s4). destruct (span re_value s4) as [[|d v] s5]; [done|]. injection Hs as _ <-.
  rewrite !length_app. simpl. lia.
Qed.

(** The message with the credentials of its headers masked. *)
Definition headers_masked (message : string) : string := ReplaceAllString actionAuthHeaderPattern " ***" (TrimSpace message).
(** Two messages that differ only in credentials, or in the values of key words. *)
Definition same_but_secrets (message message' : string) : Prop :=
  alike actionAuthHeaderPattern (TrimSpace message) (TrimSpace message') ∨
  alike actionSecretKVPattern (headers_masked message) (headers_masked message').

Lemma secrets_hidden message message' :
  same_but_secrets message message' → safeActionDiagnosticMessage message' = safeActionDiagnosticMessage message.
Proof.
  intros Hsame. unfold safeActionDiagnosticMessage. cbv zeta.
  fold (headers_masked message) (headers_masked message').
  assert (Hempty : TrimSpace message = "" ↔ TrimSpace message' = "").
  { destruct Hsame as [Ha|Ha].
    - split; intros He; rewrite He in Ha; [|apply alike_sym in Ha]; (apply alike_empty in Ha; [done|apply auth_shrinks]).
    - unfold headers_masked in Ha. split; intros He; apply (ReplaceAllString_empty actionAuthHeaderPattern " ***"); [done| |done|];
        apply (alike_empty _ _ kv_shrinks); rewrite He in Ha; [|apply alike_sym in Ha]; exact Ha. }
  assert (Htext : ReplaceAllString actionSecretKVPattern "***" (headers_masked message') =
                  ReplaceAllString actionSecretKVPattern "***" (headers_masked message)).
  { destruct Hsame as [Ha|Ha].
    - unfold headers_masked. by rewrite (ReplaceAllString_alike _ " ***" _ _ auth_shrinks Ha).
    - symmetry. by apply ReplaceAllString_alike; [apply kv_shrinks|]. }
  rewrite Htext. destruct (String.eqb_spec (TrimSpace message) ""), (String.eqb_spec (TrimSpace message') ""); tauto.
Qed.

(** C22: A message that a step reports is bounded and shows no secret that the
    patterns know.  It does not depend on them: messages that differ only in the
    credentials of authorization headers, or only in the values of key words, are
    reported as the same text, and a value is the whole of it, up to the closing
    quote, or to a delimiter or the end.  And wherever in the text
    a key word is followed by a separator and a value, that value begins with
    the mask, or it is the mark of a message that was cut just there. *)
Theorem action_message_safe message :
  let text := safeActionDiagnosticMessage message in
  (bytes text ≤ maxActionDiagnosticMessageBytes + 3)%Z ∧
  (∀ message', same_but_secrets message message' → safeActionDiagnosticMessage message' = text) ∧
  (∀ s k r, actionSecretKVPattern s = Some (k, r) → ∃ v, s = k +:+ v +:+ r ∧ whole_value v r) ∧
  ∀ front rest k r, text = front +:+ rest → actionSecretKVPattern rest = Some (k, r) →
    shows_mask k rest ∨ rest = k +:+ "...".
Proof.
  split; [apply message_bounded|]. split; [intros message'; apply secrets_hidden|].
  split; [intros s k r (_ & _ & _ & v & _ & _ & _ & _ & ? & ?)%pattern_whole; by exists v|].
  intros front rest k r. unfold safeActionDiagnosticMessage. cbv zeta.
  destruct (String.eqb _ _).
  { intros Ht Hm. left. refine (all_masked_suffix front rest k r _ Hm). rewrite <- Ht.
    by repeat (split; [by vm_compute|]). }
  unfold ReplaceAllString at 1 3 5. set (m := ReplaceAllString actionAuthHeaderPattern _ _).
  destruct (replace_masked (String.length m) m (le_n _)) as [_ Hall].
  set (t := replace_all _ _ _ m) in *. clearbody t. clear m.
  destruct (_ <? _)%Z; [|intros Ht Hm; left; rewrite Ht in Hall; by eapply all_masked_suffix].
  destruct (take_bytes_spec maxActionDiagnosticMessageBytes t) as (cut & Ht & _).
  set (p := take_bytes _ t) in *. clearbody p. rewrite Ht in Hall. by apply (cut_masked p cut).
Qed.

(** Two passwords, and two credentials, that are reported alike. *)
Lemma action_message_safe_witness :
  safeActionDiagnosticMessage "login password='b c', retry" = safeActionDiagnosticMessage "login password=a, retry" ∧
  safeActionDiagnosticMessage "Authorization: Basic c2VjcmV0" = safeActionDiagnosticMessage "Authorization: Basic xyz".
Proof.
  split; apply action_message_safe; [right|left].
  - change (alike actionSecretKVPattern "login password=a, retry" "login password='b c', retry").
    repeat first [ apply alike_nil | apply alike_char; [reflexivity|reflexivity|] | eapply alike_match; [reflexivity|reflexivity|] ].
  - change (alike actionAuthHeaderPattern "Authorization: Basic xyz" "Authorization: Basic c2VjcmV0").
    eapply alike_match; [reflexivity|reflexivity|]. apply alike_nil.
Defined.

Example masked_message :
  safeActionDiagnosticMessage "Authorization: Bearer s3cr3t password=s3cr3t Token = 's 3 c' done" =
  "Authorization: *** *** password=*** Token = *** done".
Proof. vm_compute. reflexivity. Qed.

(** A key in quotes, as in JSON, is not one of the pattern: its value stays. *)
Definition quoted (s : string) : string := String double_quote (s +:+ String double_quote "").
Lemma json_secret_shown :
  safeActionDiagnosticMessage ("{" +:+ quoted "password" +:+ ":" +:+ quoted "hunter2" +:+ "}") =
  "{" +:+ quoted "password" +:+ ":" +:+ quoted "hunter2" +:+ "}".
Proof. vm_compute. reflexivity. Qed.
