(* ===== verification/Actions.v ===== *)
(** * Actions

    [internal/service/middlewareaction] and
    [internal/controller/middlewareaction_controller.go]: a MiddlewareAction
    runs the steps of its baseline once, each a command, a HTTP request or a
    CUE program that reads, edits or executes in the cluster, and reports each
    in a condition of its status.

    The CUE language is a parameter, and so is what the process, the network
    and the API server answer.  The output that a step exposes is kept in a map
    of the context; a step that fails may leave an entry there, which nothing
    reads any more. *)
From Stdlib Require Import ZArith Lia Ascii String.
From stdpp Require Import base gmap strings list option pretty.
From S2P Require Import Prelude GoStrings Labels Conditions Prog Errors Diagnostic Middleware Json Adoption JsonTools IntentMerge IntentRecord.
From S2P Require Import Catalog Packages MiddlewareRender MiddlewareUpgrade ActionReport.

(** [MiddlewareActionStatus], api/v1/middlewareaction_types.go *)
Record action_status := MiddlewareActionStatus {
  ma_observedGeneration : Z;
  ma_conditions : list condition;
  ma_state : string;
  ma_reason : string;
}.
#[export] Instance action_status_eq_dec : EqDecision action_status.
Proof. solve_decision. Defined.

(** [MiddlewareAction], api/v1/middlewareaction_types.go *)
Record middleware_action := MiddlewareAction {
  ma_name : string;
  ma_namespace : string;
  ma_generation : Z;
  ma_labels : gmap string string;
  ma_annotations : gmap string string;
  ma_baseline : string;
  ma_necessary : string;
  ma_middlewareName : string;
  ma_status : action_status;
}.

Definition set_action_status (st : action_status) (a : middleware_action) : middleware_action :=
  MiddlewareAction (ma_name a) (ma_namespace a) (ma_generation a) (ma_labels a) (ma_annotations a) (ma_baseline a)
    (ma_necessary a) (ma_middlewareName a) st.
Definition conditions_of (a : middleware_action) : list condition := ma_conditions (ma_status a).
Definition set_action_conditions (cs : list condition) (a : middleware_action) : middleware_action :=
  let st := ma_status a in
  set_action_status (MiddlewareActionStatus (ma_observedGeneration st) cs (ma_state st) (ma_reason st)) a.
Definition set_action_state (state reason : string) (a : middleware_action) : middleware_action :=
  let st := ma_status a in
  set_action_status (MiddlewareActionStatus (ma_observedGeneration st) (ma_conditions st) state reason) a.

(** [WorkflowPreAction], api/v1/common.go:259-259 *)
Definition WorkflowPreAction : string := "PreAction".
(** [StepTypeKubectlGet], internal/service/middlewareaction/consts.go:20-20 *)
Definition StepTypeKubectlGet : string := "KubectlGet".
(** [StepTypeKubectlExec], internal/service/middlewareaction/consts.go:21-21 *)
Definition StepTypeKubectlExec : string := "KubectlExec".
(** [StepTypeKubectlEdit], internal/service/middlewareaction/consts.go:22-22 *)
Definition StepTypeKubectlEdit : string := "KubectlEdit".

(** [GetUnified], api/v1/middlewareaction_types.go:88-98 *)
Definition action_quoter (a : middleware_action) : quoter :=
  Quoter (ma_name a) (ma_namespace a) (ma_labels a) (ma_annotations a) (ma_necessary a) (ma_middlewareName a).

(** ** Libraries *)

(** CUE: values, their paths and what they evaluate to. *)
Class CueLib := {
  cue_value : Type;
  CompileString : string → cue_value;
  LookupPath : string → cue_value → cue_value;
  CueString : cue_value → result error string;
  CueList : cue_value → result error (list cue_value);
  CueJSON : cue_value → result error string;
  cue_instance : Type;
  ParseCueFile : string → result error cue_instance;
  BuildInstance : cue_instance → cue_value;
}.

(** A new [unstructured.Unstructured] with its type and key set, and decoding
    into one, which fails without a kind. *)
Class ObjectDecode `{ObjectApi} := {
  NewObject : string → string → string → string → object;
  DecodeObject : json → result error object;
}.

(** What a HTTP request comes to. *)
Inductive http_answer := NotBuilt | NotSent | Responded (statusCode : Z) (body : reader).

(** ** What actions call *)

Inductive xcall : Type → Type :=
  | Env {R} (c : acall R) : xcall R
  | ActionGet (name ns : string) : xcall (result error middleware_action)
  | ActionReaderGet (name ns : string) : xcall (result error middleware_action)
  | ActionCacheSet (key : string) (a : middleware_action) : xcall unit
  | ActionStatusUpdate (a : middleware_action) : xcall (option error)
  | RunCommand (script : string) : xcall (string * option error)   (** [sh -c] *)
  | HttpDo (request : http_request) : xcall http_answer
  | GetClientSet : xcall (option error)
  | GetConfig : xcall (option error)
  | NewSPDYExecutor (kind name ns container : string) (command : list string) : xcall (option error)
  | StreamWithContext (kind name ns container : string) (command : list string) : xcall (string * string * option error)
  | ObjectGet (g : gvk) (name ns : string) : xcall (result error object)
  | ObjectCreate (o : object) : xcall (option error)
  | ObjectApply (o : object) : xcall (option error).
Abbreviation xprog := (prog xcall).
Abbreviation xevent := (event xcall).

Definition env {A} (p : aprog A) : xprog A := embed (@Env) p.
(** A program of the catalog as one of these. *)
Definition catalog {A} (p : pprog A) : xprog A := env (pack p).

Definition wrap_result {A} (msg : string) (r : result error A) : result error A :=
  match r with Ok a => Ok a | Err e => Err (wrap_error msg e) end.

Section Client.
Context `{!RetryOnConflict xcall error is_conflict} (statusAPIReader : bool).

(** [GetMiddlewareAction], internal/k8s/middlewareaction.go *)
Definition GetMiddlewareAction (name ns : string) : xprog (result error middleware_action) :=
  r ← call (ActionGet name ns);
  match r with
  | Err e => Ret (Err e)
  | Ok a => _ ← call (ActionCacheSet (namespaced_name ns name) a); Ret (Ok a)
  end.

(** [UpdateMiddlewareActionStatus], internal/k8s/middlewareaction.go:116-131 *)
Definition read_action_for_status (attempt : nat) (a : middleware_action) : xprog (result error middleware_action) :=
  r ← (if (0 <? attempt) && statusAPIReader then call (ActionReaderGet (ma_name a) (ma_namespace a))
       else GetMiddlewareAction (ma_name a) (ma_namespace a));
  Ret (wrap_result "get MiddlewareAction error" r).

Definition observed (a : middleware_action) : middleware_action :=
  let st := ma_status a in
  set_action_status (MiddlewareActionStatus (ma_generation a) (ma_conditions st) (ma_state st) (ma_reason st)) a.

(** The caller's object observes its generation. *)
(** [UpdateMiddlewareActionStatus], internal/k8s/middlewareaction.go *)
Definition UpdateMiddlewareActionStatus (a : middleware_action) : xprog (option error * middleware_action) :=
  let a := observed a in
  r ← retry 0 (λ attempt,
    r ← read_action_for_status attempt a;
    match r with
    | Err e => Ret (Some e, attempt)
    | Ok now =>
        if decide (ma_status now = ma_status a) then Ret (None, S attempt)
        else
          err ← call (ActionStatusUpdate (set_action_status (ma_status a) now));
          Ret (option_map (wrap_error "update MiddlewareAction status error") err, S attempt)
    end);
  Ret (r.1, a).
End Client.

(** ** Templates *)

Section Actions.
Context `{!JsonLib, !YamlLib, !PackageFormat, !MapOrder, !CueLib, !UrlLib, !MetaConditions}.
Context `{!RetryOnConflict pcall error is_conflict, !RetryOnConflict xcall error is_conflict}.
Context `{ObjectDecode} (statusAPIReader apiReader : bool) (DataNamespace : string) (now : Z).

Definition parse_text (text : string) (tv : template_values) : xprog (result error string) :=
  r ← call (Env (Pack (TemplateParse text tv))); Ret (wrap_result "template parse error" r).

(** [TemplateParseWithBaseline], internal/service/middlewareaction/middlewareaction.go:88-94 *)
Fixpoint parse_texts (texts : list string) (tv : template_values) : xprog (result error (list string)) :=
  match texts with
  | [] => Ret (Ok [])
  | text :: texts => parsed ←? parse_text text tv; rest ←? parse_texts texts tv; Ret (Ok (parsed :: rest))
  end.

(** Decoding an object of strings into a map that may have entries. *)
Definition json_text (v : json) : option string := match v with JStr s => Some s | JNull => Some "" | _ => None end.
Definition unmarshal_strings (text : string) (m : gmap string string) : result error (gmap string string) :=
  match Unmarshal text with
  | Some (JObj o) => if decide (map_Forall (λ _ v, is_Some (json_text v)) o) then Ok (omap json_text o ∪ m)
                     else Err (new_error "cannot unmarshal into a string")
  | Some JNull => Ok ∅
  | _ => Err (new_error "cannot unmarshal into a map of strings")
  end.

(** [TemplateParseWithBaseline], internal/service/middlewareaction/middlewareaction.go:96-130 *)
Definition parse_http (request : http_request) (tv : template_values) : xprog (result error http_request) :=
  if String.eqb (ht_url request) "" then Ret (Ok request)
  else
    url ←? parse_text (ht_url request) tv;
    method ←? parse_text (ht_method request) tv;
    body ←? parse_text (ht_body request) tv;
    headers ←? parse_text (Marshal (strings_json (ht_header request))) tv;
    pure (header ← wrap_result "unmarshal headers error" (unmarshal_strings headers (ht_header request));
          Ok (Http method url header body)).

(** [TemplateParseWithBaseline], internal/service/middlewareaction/middlewareaction.go *)
Definition TemplateParseWithBaseline (step : action_step) (tv : template_values) : xprog (result error action_step) :=
  cue ←? (if String.eqb (st_cue step) "" then Ret (Ok "") else parse_text (st_cue step) tv);
  command ←? parse_texts (st_command step) tv;
  http ←? parse_http (st_http step) tv;
  Ret (Ok (Step (st_name step) (st_type step) (st_output step) cue command http)).

(** The step as it is executed for an action, whose context has [steps]. *)
Definition parse_step (steps : gmap string json) (step : action_step) (a : middleware_action) : xprog (result error action_step) :=
  tv ←? env (GetTemplateValues steps (action_quoter a)); TemplateParseWithBaseline step tv.

(** ** Outputs *)

Definition expose_entry (step : action_step) (entry : gmap string json) (steps : gmap string json) : gmap string json :=
  <[st_name step := JObj entry]> steps.

(** [sigs.k8s.io/yaml] decodes into a map through JSON. *)
Definition yaml_map (text : string) : result error (gmap string json) :=
  match YAMLToJSON text with
  | Ok (JObj m) => Ok m
  | Ok JNull => Ok ∅
  | Ok _ => Err (new_error "cannot unmarshal into a map")
  | Err e => Err e
  end.

(** The three kinds of steps expose their output alike, but for what the
    command's does with line breaks. *)
(** [executeHTTP], internal/service/middlewareaction/execute_http.go:108-131 *)
Definition expose_output (trim : string → string) (step : action_step) (output : string) (steps : gmap string json) :
    result error (gmap string json) :=
  let out := st_output step in
  let parsed (r : result error (gmap string json)) :=
    match r with
    | Ok m => Ok (expose_entry step {["output" := JObj m]} steps)
    | Err _ => Err (parseExposedOutputError (out_type out) (st_name step))
    end in
  if negb (out_expose out) then Ok steps
  else if String.eqb (out_type out) "json" then parsed (JsonToMap output)
  else if String.eqb (out_type out) "yaml" then parsed (yaml_map output)
  else if String.eqb (out_type out) "string" then Ok (expose_entry step {["output" := JStr (trim output)]} steps)
  else Ok (expose_entry step ∅ steps).

(** [bytes.ReplaceAll] of line breaks by nothing. *)
Fixpoint without_newlines (s : string) : string :=
  match s with String a s => if Ascii.eqb a newline then without_newlines s else String a (without_newlines s) | EmptyString => "" end.

(** ** Steps

    What a step that ran answers: a message and the step outputs, or an error;
    with it the status is written by the deferred function. *)
Definition step_result : Type := result error (string * gmap string json).

Definition nil_condition : error := new_error "panic: invalid memory address or nil pointer dereference".

(** [executeCmd], internal/service/middlewareaction/execute_cmd.go:65-70 *)
Definition record_outcome (i : nat) (r : step_result) (a : middleware_action) : middleware_action :=
  let c := match r with
           | Err e => Failed now (safeActionDiagnosticMessage (e_msg e)) (ma_generation a)
           | Ok (msg, _) => SuccessWithMsg now (safeActionDiagnosticMessage msg) (ma_generation a)
           end in
  set_action_conditions (alter c i (conditions_of a)) a.

(** The deferred function: the condition, then the status in the cluster. *)
(** [executeHTTP], internal/service/middlewareaction/execute_http.go:51-62 *)
Definition report_step (i : nat) (r : step_result) (steps : gmap string json) (a : middleware_action) :
    xprog (option error * gmap string json * middleware_action) :=
  '(updateErr, a) ← UpdateMiddlewareActionStatus statusAPIReader (record_outcome i r a);
  Ret (match r with
       | Err e => (Some e, steps, a)
       | Ok (_, steps) => (updateErr, steps, a)
       end).

Definition step_condition (step : action_step) : string := "STEP-" +:+ st_name step.

(** A command whose step succeeded before is not run again, and its status is
    not written.  An action without a name is that of a pre-action. *)
(** [executeCmd], internal/service/middlewareaction/execute_cmd.go *)
Definition executeCmd (step : action_step) (steps : gmap string json) (a : middleware_action) :
    xprog (option error * gmap string json * middleware_action) :=
  let '(cs, p) := GetCondition now (conditions_of a) (step_condition step) in
  let a := set_action_conditions cs a in
  r ← parse_step steps step a;
  match r, p ≫= (λ i, (i,.) <$> cs !! i) with
  | Err e, _ => Ret (Some e, steps, a)
  | Ok _, None => Ret (Some nil_condition, steps, a)
  | Ok step, Some (i, condition) =>
      if decide (c_status condition = ConditionTrue) then Ret (None, steps, a)
      else
        r ← (match st_command step with
             | [] => Ret (Err (new_error "command must not be empty"))
             | command =>
                 '(output, err) ← call (RunCommand (Join command " "));
                 Ret (match err with
                      | Some e => Err (commandStepError e output)
                      | None => steps ← expose_output without_newlines step output steps; Ok (commandStepSuccessMessage output, steps)
                      end)
             end : xprog step_result);
        if String.eqb (ma_name a) ""
        then Ret (match r with Err e => (Some e, steps, record_outcome i r a) | Ok (_, steps) => (None, steps, record_outcome i r a) end)
        else report_step i r steps a
  end.

(** A step whose condition is not yet true runs; the condition of one that does
    not run is reported again, without a message. *)
(** [executeHTTP], internal/service/middlewareaction/execute_http.go:64-75 *)
Definition report_after (body : action_step → xprog step_result) (step : action_step) (steps : gmap string json)
    (a : middleware_action) : xprog (option error * gmap string json * middleware_action) :=
  let '(cs, p) := GetCondition now (conditions_of a) (step_condition step) in
  let a := set_action_conditions cs a in
  parsed ← parse_step steps step a;
  match p ≫= (λ i, (i,.) <$> cs !! i) with
  | None => Ret (Some nil_condition, steps, a)
  | Some (i, condition) =>
      r ← (match parsed with
           | Err e => Ret (Err e)
           | Ok step => if decide (c_status condition = ConditionTrue) then Ret (Ok ("", steps)) else body step
           end);
      report_step i r steps a
  end.

(** [executeHTTP], internal/service/middlewareaction/execute_http.go:76-132 *)
Definition http_body (steps : gmap string json) (step : action_step) : xprog step_result :=
  let request := st_http step in
  let failed action statusCode output err := httpStepError action (ht_method request) (ht_url request) statusCode output err in
  resp ← call (HttpDo request);
  Ret (match resp with
       | NotBuilt => Err (failed "request build" 0%Z "" None)
       | NotSent => Err (failed "request" 0%Z "" None)
       | Responded statusCode body =>
           match readBoundedActionOutput body with
           | Err e => Err (failed "response read" statusCode "" (Some e))
           | Ok (output, truncated) =>
               if truncated
               then Err (failed "response too large" statusCode output
                           (Some (new_error ("response exceeds " +:+ pretty maxActionOutputBytes +:+ " bytes"))))
               else steps ← expose_output id step output steps;
                    Ok (httpStepSuccessMessage (ht_method request) (ht_url request) statusCode output, steps)
           end
       end).

(** [executeHTTP], internal/service/middlewareaction/execute_http.go *)
Definition executeHTTP (step : action_step) (steps : gmap string json) (a : middleware_action) :=
  report_after (http_body steps) step steps a.

(** A string of the CUE program's resource. *)
Definition resource_string (resource : cue_value) (field : string) : result error string :=
  wrap_result ("resource " +:+ field +:+ " error") (CueString (LookupPath field resource)).

Definition ok_or (err : option error) : xprog (result error unit) := Ret (match err with Some e => Err e | None => Ok tt end).

(** [executeCue], internal/service/middlewareaction/execute_cue.go:87-200 *)
Definition kubectl_exec (steps : gmap string json) (step : action_step) : xprog step_result :=
  let resource := LookupPath "parameters.resource" (CompileString (st_cue step)) in
  kind ←? pure (resource_string resource "kind");
  name ←? pure (resource_string resource "name");
  namespace ←? pure (resource_string resource "namespace");
  container ←? pure (resource_string resource "container");
  values ←? pure (wrap_result "resource container error" (CueList (LookupPath "execCommand" resource)));
  err ← call GetClientSet; _ ←? ok_or err;
  execCommand ←? pure (mapM CueString values);
  err ← call GetConfig; _ ←? ok_or (option_map (wrap_error "get kubeconfig error") err);
  err ← call (NewSPDYExecutor kind name namespace container execCommand); _ ←? ok_or err;
  '(stdout, stderr, err) ← call (StreamWithContext kind name namespace container execCommand);
  Ret (match err with
       | Some e => Err (kubectlExecError e execCommand stdout stderr)
       | None => steps ← expose_output id step stdout steps; Ok (kubectlExecSuccessMessage execCommand stdout, steps)
       end).

(** [CreateCustomResource], internal/k8s/customresource.go *)
Definition CreateCustomResource (cr : object) : xprog (option error) :=
  r ← call (ObjectGet (GroupVersionKind cr) (GetName cr) (GetNamespace cr));
  match r with
  | Ok _ => Ret (Some (Error AlreadyExists (GetName cr +:+ " already exists")))
  | Err _ => call (ObjectCreate cr)
  end.

(** [prepareCustomResourceApply], internal/k8s/customresource.go *)
Definition prepareCustomResourceApply (cr : object) : result error object :=
  cr ← (if negb (String.eqb (pointer cr) "") || negb (String.eqb (map_at (GetLabels cr) LabelResourceIntentGCFence) "")
        then if String.eqb (GetUID cr) "" || String.eqb (GetResourceVersion cr) ""
             then Err (managedWriteBlocked "intent-bearing Apply requires the original resource UID and resourceVersion") else Ok cr
        else Ok (SetResourceVersion "" cr));
  Ok (RemoveNestedField ["metadata"; "creationTimestamp"] (SetManagedFieldsNil cr)).

(** [PatchCustomResource], internal/k8s/customresource.go *)
Definition PatchCustomResource (cr : object) : xprog (option error) :=
  if isImmutableResource cr then Ret None
  else match prepareCustomResourceApply cr with
       | Err e => Ret (Some e)
       | Ok cr => call (ObjectApply cr)
       end.

(** The resource of a CUE program: an object with its type and key, and the key. *)
(** [executeCue], internal/service/middlewareaction/execute_cue.go:213-235 *)
Definition cue_object (resource : cue_value) : result error (object * string * string) :=
  apiversion ← resource_string resource "apiversion";
  kind ← resource_string resource "kind";
  name ← resource_string resource "name";
  namespace ← resource_string resource "namespace";
  Ok (NewObject apiversion kind name namespace, name, namespace).

(** [executeCue], internal/service/middlewareaction/execute_cue.go:201-275 *)
Definition kubectl_get (steps : gmap string json) (step : action_step) : xprog step_result :=
  '(obj, name, namespace) ←? pure (cue_object (LookupPath "parameters.resource" (CompileString (st_cue step))));
  r ← call (ObjectGet (GroupVersionKind obj) name namespace);
  found ←? Ret (match r with Ok o => Ok o | Err e => if is_not_found e then Ok ∅ else Err e end);
  let out := st_output step in
  Ret (Ok ("",
    if negb (out_expose out) then steps
    else if String.eqb (out_type out) "json" || String.eqb (out_type out) "yaml"
    then expose_entry step {["output" := JObj found]} steps else expose_entry step ∅ steps)).

(** Labels or annotations of the program, if it has any that evaluate. *)
(** [executeCue], internal/service/middlewareaction/execute_cue.go:309-322 *)
Definition cue_strings (field : string) (resource : cue_value) : result error (option (gmap string string)) :=
  match CueJSON (LookupPath field resource) with
  | Err _ => Ok None
  | Ok text => match Unmarshal text with
               | Some JNull => Ok None
               | _ => Some <$> wrap_result ("unmarshal " +:+ field +:+ " failed") (unmarshal_strings text ∅)
               end
  end.

(** Assigning to the map of an object that has none panics. *)
(** [executeCue], internal/service/middlewareaction/execute_cue.go:381-385 *)
Definition assign_strings (current new : option (gmap string string)) : result error (option (gmap string string)) :=
  match new with
  | None => Ok current
  | Some new =>
      if decide (new = ∅) then Ok current
      else match current with
           | Some m => Ok (Some (new ∪ m))
           | None => Err (new_error "panic: assignment to entry in nil map")
           end
  end.

(** [fmt.Errorf("prefix%w")] *)
Definition prefix_error (prefix : string) (e : error) : error :=
  MkError (e_kind e) (prefix +:+ e_msg e) (e_status e) (e_diagnosed e).

(** [executeCue], internal/service/middlewareaction/execute_cue.go:348-378 *)
Definition edit_absent (obj outputMap : object) : xprog (result error unit) :=
  patch ←? Ret (match MergeMap obj outputMap with Some patch => Ok patch | None => Err nil_condition end);
  obj ←? Ret (wrap_result "json unmarshal error" (DecodeObject (JObj patch)));
  match obj !! "spec" with
  | Some (JObj specMap) =>
      if decide (specMap = ∅) then Ret (Ok tt)
      else err ← CreateCustomResource obj; ok_or (option_map (prefix_error "CreateCustomResource err :") err)
  | _ => Ret (Ok tt)
  end.

(** [executeCue], internal/service/middlewareaction/execute_cue.go:379-417 *)
Definition edit_present (cr outputMap : object) (labels annotations : option (gmap string string)) : xprog (result error unit) :=
  crAnnotations ←? Ret (assign_strings (GetAnnotations cr) annotations);
  let cr := SetAnnotations crAnnotations cr in
  crLabels ←? Ret (assign_strings (GetLabels cr) labels);
  let cr := SetLabels crLabels cr in
  cr ←? Ret (wrap_result "json unmarshal error" (DecodeObject (match MergeMap cr outputMap with Some patch => JObj patch | None => JNull end)));
  err ← PatchCustomResource cr; ok_or (option_map (prefix_error "UpdateCustomResource err :") err).

(** [executeCue], internal/service/middlewareaction/execute_cue.go:276-346 *)
Definition kubectl_edit (steps : gmap string json) (step : action_step) : xprog step_result :=
  let inst := CompileString (st_cue step) in
  let resource := LookupPath "parameters.resource" inst in
  '(obj, name, namespace) ←? pure (cue_object resource);
  labels ←? pure (cue_strings "labels" resource);
  annotations ←? pure (cue_strings "annotations" resource);
  outputJson ←? pure (wrap_result "resource output error" (CueJSON (LookupPath "output" inst)));
  outputMap ←? pure (wrap_result "json to map error" (JsonToMap outputJson));
  r ← call (ObjectGet (GroupVersionKind obj) name namespace);
  _ ←? (match r with
        | Ok cr => edit_present cr outputMap labels annotations
        | Err e => if is_not_found e then edit_absent (SetAnnotations annotations (SetLabels labels obj)) outputMap else Ret (Err e)
        end);
  Ret (Ok ("", steps)).

(** [executeCue], internal/service/middlewareaction/execute_cue.go:85-87 *)
Definition cue_body (steps : gmap string json) (step : action_step) : xprog step_result :=
  if String.eqb (st_type step) StepTypeKubectlExec then kubectl_exec steps step
  else if String.eqb (st_type step) StepTypeKubectlGet then kubectl_get steps step
  else if String.eqb (st_type step) StepTypeKubectlEdit then kubectl_edit steps step
  else Ret (Ok ("", steps)).

(** [executeCue], internal/service/middlewareaction/execute_cue.go *)
Definition executeCue (step : action_step) (steps : gmap string json) (a : middleware_action) :=
  report_after (cue_body steps) step steps a.

(** ** Actions *)

(** [Check], internal/service/middlewareaction/middlewareaction.go *)
Definition Check_action (a : middleware_action) : xprog (option error * middleware_action) :=
  let '(cs, p) := GetCondition now (conditions_of a) CondTypeChecked in
  let a := set_action_conditions cs a in
  match p ≫= (λ i, (i,.) <$> cs !! i) with
  | None => Ret (Some nil_condition, a)
  | Some (i, conditionChecked) =>
      if decide (c_status conditionChecked = ConditionTrue) then Ret (None, a)
      else
        '(err, a) ← UpdateMiddlewareActionStatus statusAPIReader (set_action_conditions (alter (Success now (ma_generation a)) i cs) a);
        Ret (option_map (wrap_error "update middleware operator status error") err, a)
  end.

(** What a step is executed by: the first of its programs that is there. *)
(** [Execute], internal/service/middlewareaction/middlewareaction.go:55-70 *)
Definition execute_step (step : action_step) (steps : gmap string json) (a : middleware_action) :
    xprog (option error * gmap string json * middleware_action) :=
  let run what p := '(err, steps, a) ← p; Ret (option_map (wrap_error ("execute " +:+ what +:+ " error")) err, steps, a) in
  if negb (String.eqb (st_cue step) "") then run "cue" (executeCue step steps a)
  else if negb (bool_decide (st_command step = [])) then run "cmd" (executeCmd step steps a)
  else if negb (String.eqb (ht_url (st_http step)) "") then run "http" (executeHTTP step steps a)
  else Ret (None, steps, a).

(** [Execute], internal/service/middlewareaction/middlewareaction.go:54-75 *)
Fixpoint execute_steps (todo : list action_step) (steps : gmap string json) (a : middleware_action) :
    xprog (option error * middleware_action) :=
  match todo with
  | [] => Ret (None, a)
  | step :: todo =>
      '(err, steps, a) ← execute_step step steps a;
      match err with Some e => Ret (Some e, a) | None => execute_steps todo steps a end
  end.

Definition steps_of (o : catalog_object) : list action_step :=
  match co_spec o with MiddlewareActionBaselineSpec _ steps _ => steps | _ => [] end.
Definition baseline_type (o : catalog_object) : string :=
  match co_spec o with MiddlewareActionBaselineSpec t _ _ => t | _ => "" end.

Definition get_baseline (name pkg : string) : xprog (result error catalog_object) :=
  catalog (Get_action_baseline apiReader DataNamespace name pkg).

(** [Execute], internal/service/middlewareaction/middlewareaction.go *)
Definition Execute (a : middleware_action) : xprog (option error * middleware_action) :=
  r ← get_baseline (ma_baseline a) ((ma_labels a).[LabelPackageName]);
  match r with
  | Err e => Ret (Some (wrap_error "get baseline error" e), a)
  | Ok actionBaseline => execute_steps (steps_of actionBaseline) ∅ a
  end.

(** [Reconcile], internal/controller/middlewareaction_controller.go:68-80 *)
Fixpoint action_verdict (conditions : list condition) : string * string :=
  match conditions with
  | [] => (StateAvailable, "")
  | c :: conditions =>
      if decide (c_status c = ConditionFalse ∨ c_status c = ConditionUnknown)
      then (StateUnavailable, c_type c +:+ "," +:+ c_message c) else action_verdict conditions
  end.

(** [Reconcile], internal/controller/middlewareaction_controller.go:67-86 *)
Definition conclude_action (a : middleware_action) : xprog unit :=
  let '(state, reason) := action_verdict (conditions_of a) in
  _ ← UpdateMiddlewareActionStatus statusAPIReader (set_action_state state reason a); Ret tt.

(** [MiddlewareActionReconciler.Reconcile], internal/controller/middlewareaction_controller.go:88-111 *)
Definition reconcile_action (a : middleware_action) : xprog (option error * middleware_action) :=
  '(err, a) ← Check_action a;
  match err with
  | Some e => Ret (Some e, a)
  | None =>
      r ← get_baseline (ma_baseline a) ((ma_labels a).[LabelPackageName]);
      match r with
      | Err e => Ret (Some e, a)
      | Ok baseline => if String.eqb (baseline_type baseline) WorkflowPreAction then Ret (None, a) else Execute a
      end
  end.

(** [MiddlewareActionReconciler.Reconcile], internal/controller/middlewareaction_controller.go *)
Definition Reconcile_action (ns name : string) : xprog (option error) :=
  r ← GetMiddlewareAction name ns;
  match r with
  | Err e => Ret (if is_not_found e then None else Some e)
  | Ok a =>
      if negb (String.eqb (ma_state (ma_status a)) "") then Ret None
      else '(err, a) ← reconcile_action a; _ ← conclude_action a; Ret err
  end.
End Actions.

(** ** What the programs call *)

(** Calls of rendering and of the catalog that read, or fill a cache. *)
Definition env_read {R} (c : acall R) : bool :=
  match c with Pack c => pack_read c | Capabilities => true | _ => false end.
Definition env_reads (_ : list aevent) (e : aevent) : Prop := match e with Ev c _ => Is_true (env_read c) end.
(** Calls that change something outside the status of the action: whatever is
    not such a read. *)
Definition effect (e : xevent) : bool :=
  match e with
  | Ev c _ => match c with Env c => negb (env_read c) | RunCommand _ | HttpDo _ | StreamWithContext _ _ _ _ _ | ObjectCreate _ | ObjectApply _ => true | _ => false end
  end.
Definition action_written (e : xevent) : option middleware_action :=
  match e with Ev c _ => match c with ActionStatusUpdate a => Some a | _ => None end end.
Definition quiet (e : xevent) : Prop := effect e = false ∧ action_written e = None.

Lemma env_quiet {A} (p : aprog A) : only env_reads p → only (λ _ e, quiet e) (env p).
Proof. intros Hp. eapply only_embed; [exact Hp|]. intros l [R c r] l' Hr. split; [|done]. simpl in *. by destruct (env_read c). Qed.
Lemma catalog_quiet {A} (p : pprog A) : only (λ _, pack_reads) p → only (λ _ e, quiet e) (catalog p).
Proof. intros Hp. apply env_quiet. eapply only_embed; [exact Hp|]. by intros l [R c r] l' Hr. Qed.

Section Calls.
Context `{!JsonLib, !YamlLib, !PackageFormat, !MapOrder, !CueLib, !UrlLib, !MetaConditions}.
Context `{!RetryOnConflict pcall error is_conflict, !RetryOnConflict xcall error is_conflict}.
Context `{ObjectDecode} (statusAPIReader apiReader : bool) (DataNamespace : string) (now : Z).

Implicit Types (a : middleware_action) (step : action_step) (steps : gmap string json) (tv : template_values).

Definition no_write (e : xevent) : Prop := action_written e = None.

(** A step of a program of which a kind of calls is known. *)
Ltac only_step :=
  match goal with
  | |- only _ (Ret _) => apply only_ret
  | |- only _ (call _) => apply only_call; by intros
  | |- only _ (try _ _) => unfold try
  | |- only _ (pure _) => apply only_ret
  | |- only _ (mbind _ _) => apply only_bind; [|intro]
  | |- only _ (let '_ := ?x in _) => destruct x
  | |- only _ (match ?x with _ => _ end) => destruct x
  end.
Ltac only_steps := repeat only_step.

Lemma values_quiet steps q : only (λ _ e, quiet e) (env (GetTemplateValues steps q)).
Proof. apply env_quiet. unfold GetTemplateValues. only_steps. Qed.

Lemma parse_text_quiet text tv : only (λ _ e, quiet e) (parse_text text tv).
Proof. unfold parse_text. only_steps. Qed.

Lemma parse_texts_quiet texts tv : only (λ _ e, quiet e) (parse_texts texts tv).
Proof. induction texts as [|text texts IH]; cbn [parse_texts]; repeat first [apply parse_text_quiet | exact IH | only_step]. Qed.

Lemma step_template_quiet step tv : only (λ _ e, quiet e) (TemplateParseWithBaseline step tv).
Proof.
  unfold TemplateParseWithBaseline, parse_http. repeat first [apply parse_texts_quiet | apply parse_text_quiet | only_step].
Qed.

Lemma parse_step_quiet steps step a : only (λ _ e, quiet e) (parse_step steps step a).
Proof. unfold parse_step. repeat first [apply step_template_quiet | apply values_quiet | only_step]. Qed.

Lemma get_baseline_quiet name pkg : only (λ _ e, quiet e) (get_baseline apiReader DataNamespace name pkg).
Proof. apply catalog_quiet, lookup_reads. Qed.

(** The programs of the steps do not touch the action. *)
Lemma http_no_write steps step : only (λ _ e, no_write e) (http_body steps step).
Proof. unfold http_body. only_steps. Qed.

Lemma cue_no_write steps step : only (λ _ e, no_write e) (cue_body steps step).
Proof.
  unfold cue_body, kubectl_exec, kubectl_get, kubectl_edit, edit_present, edit_absent, PatchCustomResource, CreateCustomResource, ok_or.
  only_steps.
Qed.

(** ** The status that is written *)

(** The cluster has this status: it was written, or it was there. *)
Definition recorded (st : action_status) (e : xevent) : Prop :=
  match e with
  | Ev c r => match c in xcall R return R → Prop with
      | ActionStatusUpdate x => λ r, r = None ∧ ma_status x = st
      | ActionGet _ _ | ActionReaderGet _ _ => λ r, match r with Ok x => ma_status x = st | Err _ => False end
      | _ => λ _, False
      end r
  end.
(** The writes of a status. *)
Definition writes_status (st : action_status) (e : xevent) : Prop :=
  effect e = false ∧ ∀ x, action_written e = Some x → ma_status x = st.

Lemma quiet_writes st e : quiet e → writes_status st e.
Proof. intros [? Hn]. split; [done|]. intros x. by rewrite Hn. Qed.

Lemma get_action_quiet name ns : only (λ _ e, quiet e) (GetMiddlewareAction name ns).
Proof. unfold GetMiddlewareAction. only_steps. Qed.

Lemma read_for_status_quiet attempt a : only (λ _ e, quiet e) (read_action_for_status statusAPIReader attempt a).
Proof. unfold read_action_for_status. repeat first [apply get_action_quiet | only_step]. Qed.

Lemma update_writes a : only (λ _ e, writes_status (ma_status (observed a)) e) (UpdateMiddlewareActionStatus statusAPIReader a).
Proof.
  unfold UpdateMiddlewareActionStatus. cbv zeta. apply only_bind; [|intros; apply only_ret]. apply only_retry. intros attempt.
  apply only_bind; [eapply only_mono; [|apply read_for_status_quiet]; intros l e; apply quiet_writes|].
  intros [x|e]; [|apply only_ret]. destruct (decide _); [apply only_ret|].
  apply only_bind; [|intros; apply only_ret]. apply only_call. intros l r. split; [done|]. by intros y [= <-].
Qed.

Lemma get_action_read name ns tr :
  holds (GetMiddlewareAction name ns) tr (λ tr' r, match r with Ok x => Ev (ActionGet name ns) (Ok x) ∈ tr' | Err _ => True end).
Proof.
  intros [x|e]; [|done]. intros u. apply elem_of_app. left. apply elem_of_app. right. by left.
Qed.

(** The one read of the action, and what it answered. *)
Lemma get_action_answer name ns l r : Prog.outcome (GetMiddlewareAction name ns) l r →
  match r with
  | Ok x => Ev (ActionGet name ns) (Ok x) ∈ l ∧ ∀ y, Ev (ActionGet name ns) (Ok y) ∈ l → y = x
  | Err _ => ∀ y, Ev (ActionGet name ns) (Ok y) ∉ l
  end.
Proof.
  set (P := λ (v : result error middleware_action) (e : xevent), match e with Ev c r => match c in xcall R return R → Prop with
    | ActionGet _ _ => λ r, r = v | _ => λ _, True end r end).
  intros (l1 & l2 & a & -> & ->%outcome_call & Hr)%outcome_bind.
  destruct a as [x|e]; [apply outcome_bind in Hr as (l3 & l4 & u & -> & ->%outcome_call & [-> ->])|destruct Hr as [-> ->]].
  - split; [by left|]. intros y Hin. assert (HP : P (Ok x) (Ev (ActionGet name ns) (Ok y))).
    { apply elem_of_cons in Hin as [-> | ->%list_elem_of_singleton]; done. }
    by injection HP.
  - intros y Hin. assert (HP : P (Err e) (Ev (ActionGet name ns) (Ok y))) by (by apply list_elem_of_singleton in Hin as ->). done.
Qed.

Lemma update_recorded a tr :
  holds (UpdateMiddlewareActionStatus statusAPIReader a) tr
    (λ tr' r, r.2 = observed a ∧ (r.1 = None → ∃ e, e ∈ tr' ∧ recorded (ma_status (observed a)) e)).
Proof.
  unfold UpdateMiddlewareActionStatus. cbv zeta. set (b := observed a). apply holds_bind.
  eapply holds_mono with (Q := λ tr' r, r.1 = None → ∃ e, e ∈ tr' ∧ recorded (ma_status b) e); [|intros tr' r Hr; simpl; by split].
  apply (retry_holds _ _ _ (λ _ _, True)); [|done]. intros attempt tr1 _. apply holds_bind.
  eapply holds_mono with (Q := λ tr' r, match r with Ok x => ∃ e, e ∈ tr' ∧ recorded (ma_status x) e | Err _ => True end).
  - unfold read_action_for_status. apply holds_bind. destruct (_ && _).
    + intros [x|e]; [|done]. simpl. exists (Ev (ActionReaderGet (ma_name b) (ma_namespace b)) (Ok x)).
      split; [apply elem_of_app; right; by left|done].
    + eapply holds_mono; [apply get_action_read|]. intros tr2 [x|e] Hx; [|done]. simpl. by eexists.
  - intros tr2 [x|e] Hx; [|by split; [|done]]. simpl. case_decide as Heq.
    + simpl. split; [|done]. intros _. by rewrite <- Heq.
    + intros err. simpl. split; [|by destruct err]. intros Hn. destruct err; [done|].
      eexists. split; [apply elem_of_app; right; by left|]. simpl. done.
Qed.

(** ** Until its end a run writes no state *)

Section State.
Context (state : string).
Definition keeps_state (l : list xevent) (e : xevent) : Prop := ∀ x, action_written e = Some x → ma_state (ma_status x) = state.
Definition has_state a : Prop := ma_state (ma_status a) = state.

Lemma no_write_state {A} (p : xprog A) tr : only (λ _ e, no_write e) p → spec keeps_state p tr (λ _ _, True).
Proof. intros Hp. eapply only_spec; [exact Hp|]. intros l e _ Hn x. by rewrite Hn. Qed.

Lemma quiet_state {A} (p : xprog A) tr : only (λ _ e, quiet e) p → spec keeps_state p tr (λ _ _, True).
Proof. intros Hp. apply no_write_state. eapply only_mono; [|exact Hp]. by intros l e [? ?]. Qed.

Lemma update_state a tr : has_state a → spec keeps_state (UpdateMiddlewareActionStatus statusAPIReader a) tr (λ _ r, has_state r.2).
Proof.
  intros Ha. eapply spec_mono; [apply spec_holds; [eapply only_spec; [apply update_writes|]|apply update_recorded]|].
  - intros l e _ [_ Hw] x Hx. by rewrite (Hw x Hx).
  - intros tr' r _ [_ [-> _]]. exact Ha.
Qed.

Lemma report_state i r steps a tr : has_state a → spec keeps_state (report_step statusAPIReader now i r steps a) tr (λ _ r, has_state r.2).
Proof.
  intros Ha. unfold report_step. eapply spec_bind; [by apply update_state|]. intros tr' [err a'] _ Ha'.
  destruct r as [[msg steps']|e]; by apply spec_ret.
Qed.

Lemma report_after_state body step steps a tr :
  (∀ step, only (λ _ e, no_write e) (body step)) → has_state a →
  spec keeps_state (report_after statusAPIReader now body step steps a) tr (λ _ r, has_state r.2).
Proof.
  intros Hbody Ha. unfold report_after. destruct (GetCondition _ _ _) as [cs i].
  eapply spec_bind; [apply quiet_state, parse_step_quiet|]. intros tr1 parsed _ _.
  destruct (i ≫= _) as [[j c]|]; [|by apply spec_ret].
  eapply (spec_bind _ _ _ (λ _ _, True)); [|intros; by apply report_state].
  destruct parsed as [st|e]; [|by apply spec_ret]. destruct (decide _); [by apply spec_ret|]. by apply no_write_state.
Qed.

Lemma cmd_state step steps a tr : has_state a → spec keeps_state (executeCmd statusAPIReader now step steps a) tr (λ _ r, has_state r.2).
Proof.
  intros Ha. unfold executeCmd. destruct (GetCondition _ _ _) as [cs i].
  eapply spec_bind; [apply quiet_state, parse_step_quiet|]. intros tr1 [st|e] _ _; [|by apply spec_ret].
  destruct (i ≫= _) as [[j c]|]; [|by apply spec_ret]. destruct (decide _); [by apply spec_ret|].
  eapply (spec_bind _ _ _ (λ _ _, True)).
  - apply no_write_state. destruct (st_command st); only_steps.
  - intros tr2 r _ _. destruct (String.eqb _ _); [|by apply report_state]. destruct r as [[msg steps']|e]; by apply spec_ret.
Qed.

Lemma step_state step steps a tr : has_state a → spec keeps_state (execute_step statusAPIReader now step steps a) tr (λ _ r, has_state r.2).
Proof.
  intros Ha. unfold execute_step. repeat case_match; [..|by apply spec_ret];
    (eapply (spec_bind _ _ _ (λ _ r, has_state r.2)); [|intros tr' [[err steps'] a'] _ Ha'; by apply spec_ret]).
  - apply report_after_state; [intros; apply cue_no_write|done].
  - by apply cmd_state.
  - apply report_after_state; [intros; apply http_no_write|done].
Qed.

Lemma steps_state todo steps a tr : has_state a → spec keeps_state (execute_steps statusAPIReader now todo steps a) tr (λ _ r, has_state r.2).
Proof.
  revert steps a tr. induction todo as [|step todo IH]; intros steps a tr Ha; cbn [execute_steps]; [by apply spec_ret|].
  eapply spec_bind; [by apply step_state|]. intros tr' [[[err|] steps'] a'] _ Ha'; [by apply spec_ret|by apply IH].
Qed.

Lemma reconcile_state a tr : has_state a →
  spec keeps_state (reconcile_action statusAPIReader apiReader DataNamespace now a) tr (λ _ r, has_state r.2).
Proof.
  intros Ha. unfold reconcile_action. eapply (spec_bind _ _ _ (λ _ r, has_state r.2)).
  { unfold Check_action. destruct (GetCondition _ _ _) as [cs i]. destruct (i ≫= _) as [[j c]|]; [|by apply spec_ret].
    destruct (decide _); [by apply spec_ret|]. eapply spec_bind; [by apply update_state|]. intros tr' [err a'] _ Ha'. by apply spec_ret. }
  intros tr1 [[err|] a1] _ Ha1; [by apply spec_ret|].
  eapply spec_bind; [apply quiet_state, get_baseline_quiet|]. intros tr2 [baseline|e] _ _; [|by apply spec_ret].
  destruct (String.eqb _ _); [by apply spec_ret|]. unfold Execute.
  eapply spec_bind; [apply quiet_state, get_baseline_quiet|]. intros tr3 [b|e] _ _; [by apply steps_state|by apply spec_ret].
Qed.
End State.

(** ** Once *)

Definition no_effect (e : xevent) : Prop := effect e = false.

Lemma only_outcome {A} (P : xevent → Prop) (p : xprog A) l r : only (λ _ e, P e) p → Prog.outcome p l r → Forall P l.
Proof.
  intros Hp Ho. pose proof (outcome_only _ _ _ _ Hp Ho) as Hall. apply list.Forall_forall. intros e (l1 & l2 & ->)%list_elem_of_split.
  exact (Hall _ _ _ eq_refl).
Qed.

(** The run ends by writing the state of [b], the action as the run left it,
    over what is read of that action: the first condition that is false or
    unknown, if there is one, makes it Unavailable and is the reason, and nothing
    but state, reason and generation changes.  [err'] is what the write answers. *)
Definition concludes (b : middleware_action) (err' : option error) (l : list xevent) : Prop :=
  ∃ x, x = set_action_status (MiddlewareActionStatus (ma_generation b) (conditions_of b) (ma_state (ma_status x)) (ma_reason (ma_status x))) b ∧
  Prog.outcome (UpdateMiddlewareActionStatus statusAPIReader x) l (err', x) ∧
  Forall (λ e, no_effect e ∧ ∀ y, action_written e = Some y → ma_status y = ma_status x) l ∧
  match list_find (λ c, c_status c = ConditionFalse ∨ c_status c = ConditionUnknown) (conditions_of b) with
  | None => ma_state (ma_status x) = StateAvailable ∧ ma_reason (ma_status x) = ""
  | Some (_, c) => ma_state (ma_status x) = StateUnavailable ∧ ma_reason (ma_status x) = c_type c +:+ "," +:+ c_message c
  end ∧
  (err' = None → ∃ e, e ∈ l ∧ recorded (ma_status x) e).

Lemma verdict_found cs :
  action_verdict cs = match list_find (λ c, c_status c = ConditionFalse ∨ c_status c = ConditionUnknown) cs with
    | None => (StateAvailable, "") | Some (_, c) => (StateUnavailable, c_type c +:+ "," +:+ c_message c) end.
Proof.
  induction cs as [|c cs IH]; [done|]. cbn [action_verdict list_find]. case_decide; [done|]. rewrite IH.
  by destruct (list_find _ cs) as [[]|].
Qed.

Lemma conclude_outcome b l : Prog.outcome (conclude_action statusAPIReader b) l tt → ∃ err', concludes b err' l.
Proof.
  unfold conclude_action. pose proof (verdict_found (conditions_of b)) as Hv.
  destruct (action_verdict _) as [state reason]. set (x := set_action_state state reason b).
  intros (l1 & l2 & [err' y] & -> & Hu & [-> _])%outcome_bind. rewrite app_nil_r.
  pose proof (proj1 (holds_outcome _ [] _) (update_recorded x []) _ _ Hu) as [Hy Hrec]. simpl in Hy, Hrec. subst y.
  exists err', (observed x). split_and!; [done| | | |exact Hrec].
  - exact Hu.
  - eapply (only_outcome (writes_status _)) in Hu; [|apply update_writes]. eapply list.Forall_impl; [exact Hu|]. by intros e [? ?].
  - cbn. destruct (list_find _ _) as [[i c]|]; by injection Hv as -> ->.
Qed.

(** C19: An action is executed once.  A run only reads, unless it read the
    action without a state.  Then its steps are run on the action that was read
    ([reconcile_action]), during which no state is written; whatever came of
    them, the run ends by writing the state of the action as they left it:
    Unavailable, with the first condition that is false or unknown as the
    reason, or Available when there is none; conditions, labels and the rest are
    what the steps left.  What the run answers is what the steps answered.  When
    the write succeeds the cluster has that state, and then no run that reads it
    does anything. *)
Theorem action_runs_once {W} (h : handler xcall W) (w : W) ns name :
  let '(err, tr) := run h (Reconcile_action statusAPIReader apiReader DataNamespace now ns name) w in
  ∃ l0 l1 l2, tr = l0 ++ l1 ++ l2 ∧ Forall quiet l0 ∧
    (l1 = [] ∧ l2 = [] ∧ (∀ a, Ev (ActionGet name ns) (Ok a) ∈ l0 → ma_state (ma_status a) ≠ "") ∨
     ∃ a b err', Ev (ActionGet name ns) (Ok a) ∈ l0 ∧ ma_state (ma_status a) = "" ∧
       Prog.outcome (reconcile_action statusAPIReader apiReader DataNamespace now a) l1 (err, b) ∧
       Forall (λ e, ∀ y, action_written e = Some y → ma_state (ma_status y) = "") l1 ∧ concludes b err' l2).
Proof.
  apply holds_run_pair, holds_outcome. intros tr err (l0 & l & r & -> & Hget & Hrest)%outcome_bind. simpl.
  pose proof (only_outcome quiet _ _ _ (get_action_quiet name ns) Hget) as Hquiet.
  pose proof (get_action_answer name ns _ _ Hget) as Hread.
  destruct r as [a|e].
  - destruct Hread as [Hin Hall]. destruct (String.eqb_spec (ma_state (ma_status a)) "") as [Hstate|Hstate]; simpl in Hrest.
    + apply outcome_bind in Hrest as (l1 & l2 & [err1 b] & -> & Hrec & Hc).
      apply outcome_bind in Hc as (l2' & l3 & [] & -> & Hc & [-> ->]). rewrite app_nil_r.
      destruct (conclude_outcome _ _ Hc) as (err' & Hx). exists l0, l1, l2'. split_and!; [done|done|]. right.
      exists a, b, err'. split_and!; [done|done|done| |done].
      pose proof (outcome_spec _ _ _ _ _ (reconcile_state "" a [] Hstate) Hrec) as [Hst _].
      apply list.Forall_forall. intros e (k1 & k2 & ->)%list_elem_of_split. exact (Hst _ _ _ eq_refl).
    + destruct Hrest as [-> _]. exists l0, [], []. split_and!; [reflexivity|done|]. left. split_and!; [done..|].
      by intros a' ->%Hall.
  - destruct Hrest as [-> _]. exists l0, [], []. split_and!; [reflexivity|done|]. left. split_and!; [done..|]. intros a Ha. by destruct (Hread a).
Qed.

(** ** What a step reports *)

Section Report.
Context (Hnow : now ≠ 0%Z).

(** The condition of a type is the first one of it. *)
Definition found (cs : list condition) (t : string) (c : condition) : Prop :=
  ∃ i, FindStatusCondition cs t = Some i ∧ cs !! i = Some c.
Definition others (t : string) (cs : list condition) : list condition := filter (λ c, c_type c ≠ t) cs.

(** The step's condition says how it ended, in a bounded message. *)
Definition reported (generation : Z) (t : string) (ok : bool) (cs : list condition) : Prop :=
  ∃ c, found cs t c ∧ c_observedGeneration c = generation ∧ c_status c = (if ok then ConditionTrue else ConditionFalse) ∧
    (bytes (c_message c) ≤ maxActionDiagnosticMessageBytes + 3)%Z.

Definition step_ok (r : step_result) : bool := match r with Ok _ => true | Err _ => false end.

Lemma record_reported i r a t c :
  FindStatusCondition (conditions_of a) t = Some i → conditions_of a !! i = Some c → c_type c = t →
  let cs := conditions_of (record_outcome now i r a) in
  reported (ma_generation a) t (step_ok r) cs ∧ others t cs = others t (conditions_of a).
Proof.
  intros Hf Hi Hc. unfold record_outcome. set (f := match r with Ok (msg, _) => _ | Err e => _ end). cbv zeta.
  change (conditions_of (set_action_conditions ?cs a)) with cs.
  assert (Halter : alter f i (conditions_of a) = <[i := f c]> (conditions_of a)).
  { apply list_eq. intros j. destruct (decide (j = i)) as [->|Hne].
    - rewrite list_lookup_alter_eq, Hi. symmetry. apply list_lookup_insert_eq. by eapply lookup_lt_Some.
    - by rewrite list_lookup_alter_ne, list_lookup_insert_ne. }
  assert (Ht : c_type (f c) = t) by (unfold f; by destruct r as [[msg ?]|e]).
  rewrite Halter. split; [|by eapply filter_insert_type].
  exists (f c). split.
  { exists i. split; [by eapply find_update|]. apply list_lookup_insert_eq. by eapply lookup_lt_Some. }
  unfold f. destruct r as [[msg ?]|e]; (split_and!; [done|done|apply message_bounded]).
Qed.

Lemma report_holds i r steps a tr :
  holds (report_step statusAPIReader now i r steps a) tr (λ _ r', let '(err, _, a') := r' in
    conditions_of a' = conditions_of (record_outcome now i r a) ∧ (err = None → step_ok r = true)).
Proof.
  unfold report_step. apply holds_bind. eapply holds_mono; [apply update_recorded|]. intros tr' [err a'] [Ha' _]. simpl in Ha'. subst a'.
  by destruct r as [[msg steps']|e].
Qed.

(** What is known after a step with the given condition type. *)
Definition step_outcome (t : string) (a : middleware_action) (tr : list xevent) (r : option error * gmap string json * middleware_action) : Prop :=
  let '(err, _, a') := r in
  others t (conditions_of a') = others t (conditions_of a) ∧
  (Forall no_effect tr ∨
     (∀ c, found (conditions_of a) t c → c_status c ≠ ConditionTrue) ∧
     ∃ ok, reported (ma_generation a) t ok (conditions_of a') ∧ (err = None → ok = true)) ∧
  (err = None → ∃ c, found (conditions_of a') t c ∧ c_status c = ConditionTrue).

Lemma only_no_effect {A} (p : xprog A) tr : only (λ _ e, no_effect e) p → Forall no_effect tr → holds p tr (λ tr' _, Forall no_effect tr').
Proof.
  intros Hp Htr. apply holds_outcome. intros l r Ho. apply list.Forall_app. split; [done|]. by eapply only_outcome.
Qed.

Lemma quiet_no_effect {A} (p : xprog A) : only (λ _ e, quiet e) p → only (λ _ e, no_effect e) p.
Proof. apply only_mono. by intros l e [? _]. Qed.

Lemma update_no_effect a : only (λ _ e, no_effect e) (UpdateMiddlewareActionStatus statusAPIReader a).
Proof. eapply only_mono; [|apply update_writes]. by intros l e [? _]. Qed.

Lemma report_no_effect i r steps a : only (λ _ e, no_effect e) (report_step statusAPIReader now i r steps a).
Proof. unfold report_step. apply only_bind; [apply update_no_effect|]. intros [err a']. destruct r as [[msg steps']|e]; apply only_ret. Qed.

Lemma found_unique cs t c c' : found cs t c → found cs t c' → c' = c.
Proof. intros (i & Hi & Hc) (j & Hj & Hc'). congruence. Qed.

(** After the condition was found or added at [i]. *)
Definition added (t : string) (a : middleware_action) (cs : list condition) (i : nat) (c : condition) : Prop :=
  FindStatusCondition cs t = Some i ∧ cs !! i = Some c ∧ c_type c = t ∧ others t cs = others t (conditions_of a) ∧
  (c_status c ≠ ConditionTrue → ∀ c', found (conditions_of a) t c' → c_status c' ≠ ConditionTrue).

Lemma condition_added a t : ∃ cs i c, GetCondition now (conditions_of a) t = (cs, Some i) ∧ added t a cs i c.
Proof.
  destruct (GetCondition_spec now (conditions_of a) t Hnow) as (cs & i & c & Hg & Hi & Hc & Hf & Hothers & Hold).
  exists cs, i, c. split; [done|]. split_and!; [done..|]. intros Hne c' (j & Hj & Hc').
  destruct Hold as [[Hfi ->]|[Hnone _]]; congruence.
Qed.

Lemma report_outcome t a cs i c r steps tr :
  added t a cs i c → (Forall no_effect tr ∨ c_status c ≠ ConditionTrue) →
  holds (report_step statusAPIReader now i r steps (set_action_conditions cs a)) tr (step_outcome t a).
Proof.
  intros (Hf & Hi & Hc & Hothers & Hnew) Heff.
  destruct (record_reported i r (set_action_conditions cs a) t c Hf Hi Hc) as [Hrep Hoth].
  assert (Hh : holds (report_step statusAPIReader now i r steps (set_action_conditions cs a)) tr
    (λ tr' r', (Forall no_effect tr → Forall no_effect tr') ∧ let '(err, _, a') := r' in
       conditions_of a' = conditions_of (record_outcome now i r (set_action_conditions cs a)) ∧ (err = None → step_ok r = true))).
  { apply holds_and; [|apply report_holds]. destruct (decide (Forall no_effect tr)) as [Hall|Hnot]; [|by eapply holds_mono; [apply holds_true|]].
    eapply holds_mono; [apply only_no_effect; [apply report_no_effect|exact Hall]|]. by intros. }
  eapply holds_mono; [exact Hh|]. intros tr' [[err steps'] a'] (Hno & Ha' & Hok). unfold step_outcome. rewrite Ha'. split_and!.
  - by rewrite Hoth.
  - destruct Heff as [Hall|Hne]; [left; auto|right]. split; [by apply Hnew|]. exists (step_ok r). split; [exact Hrep|done].
  - intros ->. destruct Hrep as (c' & ? & _ & Hs & _). rewrite (Hok eq_refl) in Hs. by exists c'.
Qed.

Lemma report_after_outcome body step steps a :
  holds (report_after statusAPIReader now body step steps a) [] (step_outcome (step_condition step) a).
Proof.
  unfold report_after. destruct (condition_added a (step_condition step)) as (cs & i & c & -> & Hadd).
  apply holds_bind. eapply holds_mono; [apply only_no_effect; [apply quiet_no_effect, parse_step_quiet|constructor]|].
  intros tr1 parsed Hno. pose proof Hadd as (_ & Hi & _). cbn [mbind option_bind]. rewrite Hi. cbn [fmap option_fmap option_map].
  pose proof (λ r tr, report_outcome _ _ _ _ _ r steps tr Hadd) as Hreport.
  destruct parsed as [st|e]; [|apply Hreport; by left].
  destruct (decide _) as [Ht|Ht]; [apply Hreport; by left|].
  apply holds_bind. eapply holds_mono; [apply holds_true|]. intros. apply Hreport. by right.
Qed.

Lemma cmd_outcome step steps a :
  holds (executeCmd statusAPIReader now step steps a) [] (step_outcome (step_condition step) a).
Proof.
  unfold executeCmd. destruct (condition_added a (step_condition step)) as (cs & i & c & -> & Hadd).
  apply holds_bind. eapply holds_mono; [apply only_no_effect; [apply quiet_no_effect, parse_step_quiet|constructor]|].
  intros tr1 parsed Hno. pose proof Hadd as (Hf & Hi & Hc & Hothers & Hnew). cbn [mbind option_bind]. rewrite Hi.
  cbn [fmap option_fmap option_map]. destruct parsed as [st|e]; [|split_and!; [done|by left|done]].
  destruct (decide _) as [Ht|Ht].
  { split_and!; [done|by left|]. intros _. exists c. split; [by exists i|done]. }
  apply holds_bind. eapply holds_mono; [apply holds_true|]. intros tr2 r _.
  destruct (String.eqb _ _); [|apply report_outcome with (i := i) (c := c); [done|by right]].
  destruct (record_reported i r (set_action_conditions cs a) _ c Hf Hi Hc) as [Hrep Hoth].
  assert (Hfin : step_outcome (step_condition step) a ([] ++ tr1 ++ tr2)
    (match r with Err e => Some e | Ok _ => None end, steps, record_outcome now i r (set_action_conditions cs a))).
  { unfold step_outcome. split_and!; [by rewrite Hoth| |].
    - right. split; [by apply Hnew|]. exists (step_ok r). split; [exact Hrep|by destruct r].
    - intros Hok. destruct Hrep as (c' & ? & _ & Hs & _). exists c'. split; [done|]. by destruct r. }
  destruct r as [[msg steps']|e]; exact Hfin.
Qed.

(** Whether a step has a program. *)
Definition has_program step : bool :=
  negb (String.eqb (st_cue step) "") || negb (bool_decide (st_command step = [])) || negb (String.eqb (ht_url (st_http step)) "").

(** C21: A step that already succeeded is not executed again, and one that is
    executed is reported: afterwards its condition is true or false, for the
    action's generation, with a message of at most 2051 bytes, false only when
    the step answers an error; without an error it is true.  No other condition
    of the action is touched, and a step without a program does nothing. *)
Theorem step_reported {W} (h : handler xcall W) (w : W) step steps a :
  let '(r, tr) := run h (execute_step statusAPIReader now step steps a) w in
  if has_program step then step_outcome (step_condition step) a tr r else r = (None, steps, a) ∧ tr = [].
Proof.
  apply holds_run_pair. unfold execute_step, has_program.
  assert (Hwrap : ∀ f p, holds p [] (step_outcome (step_condition step) a) →
    holds ('(err, steps, a) ← p; Ret (option_map f err, steps, a)) [] (step_outcome (step_condition step) a)).
  { intros f p Hp. apply holds_bind. eapply holds_mono; [exact Hp|]. intros tr [[err steps'] a'] (? & Heff & Hok). simpl.
    split_and!; [done| |by destruct err; auto].
    destruct Heff as [?|(? & ok & ? & Hok')]; [by left|right]. split; [done|]. exists ok. split; [done|]. by destruct err; simpl; auto. }
  destruct (String.eqb (st_cue step) ""); simpl; [|apply Hwrap, report_after_outcome].
  destruct (bool_decide _); simpl; [|apply Hwrap, cmd_outcome].
  destruct (String.eqb _ ""); simpl; [done|apply Hwrap, report_after_outcome].
Qed.
End Report.
End Calls.

(** ** Witnesses *)

Section Demo.
Import ObjectJson.
#[local] Existing Instance coded_json.
#[local] Existing Instance coded_yaml.
#[local] Existing Instance meta_by_list.
#[local] Existing Instance list_order.
#[local] Instance demo_package_format : PackageFormat := demo_format [].
#[local] Instance demo_conflicts : RetryOnConflict pcall error is_conflict := bounded_retry is_conflict 4.
#[local] Instance demo_action_conflicts : RetryOnConflict xcall error is_conflict := bounded_retry is_conflict 4.
#[local] Instance demo_url : UrlLib := {| StrippedURL s := Some s |}.
(** A program is JSON. *)
Definition json_field (field : string) (v : option json) : option json :=
  match v with Some (JObj m) => foldl (λ v f, match v with Some (JObj m) => m !! f | _ => None end) v (split_on "." field) | _ => None end.
#[local] Instance demo_cue : CueLib := {|
  cue_value := option json;
  CompileString := uncode;
  LookupPath := json_field;
  CueString v := match v with Some (JStr s) => Ok s | _ => Err (new_error "not a string") end;
  CueList v := match v with Some (JArr l) => Ok (Some <$> l) | _ => Err (new_error "not a list") end;
  CueJSON v := match v with Some v => Ok (code v) | None => Err (new_error "not found") end;
  cue_instance := option json;
  ParseCueFile s := Ok (uncode s);
  BuildInstance := id |}.
#[local] Instance demo_decode : ObjectDecode := {|
  NewObject apiversion kind name namespace :=
    {["apiVersion" := JStr apiversion; "kind" := JStr kind;
      "metadata" := JObj {["name" := JStr name; "namespace" := JStr namespace]}]};
  DecodeObject v := match v with JObj o => Ok o | _ => Err (new_error "not an object") end |}.

Definition demo_step (name : string) (cue : string) (command : list string) (output : string) : action_step :=
  Step name (if String.eqb cue "" then "" else StepTypeKubectlEdit) (Output true output) cue command (Http "" "" ∅ "").
Definition demo_action (cs : list condition) (state : string) : middleware_action :=
  MiddlewareAction "backup-1" "prod" 1 {[LabelPackageName := "redis-1"]} ∅ "backup" "" "redis" (MiddlewareActionStatus 0 cs state "").
Definition demo_action_baseline (steps : list action_step) : catalog_object :=
  CatalogObject "backup" 1 {[LabelPackageName := "redis-1"]} ∅ None (MiddlewareActionBaselineSpec "NormalAction" steps JNull)
    (CatalogStatus 0 [] "").

(** A world with one action, one baseline and one object; commands succeed. *)
Definition demo_actions (a : middleware_action) (todo : list action_step) (live : option object) : handler xcall unit := λ R c w,
  (match c in xcall R return R with
   | Env c => (demo_world upgrading_middleware (demo_secret_2 ∅ ∅) (Some (demo_action_baseline todo)) quiet_children _ c tt).1
   | ActionGet _ _ | ActionReaderGet _ _ => Ok a
   | ActionCacheSet _ _ => tt
   | ActionStatusUpdate _ => None
   | RunCommand _ => ("dump.rdb", None)
   | HttpDo _ => Responded 200 (Reader "{}" None)
   | GetClientSet | GetConfig | NewSPDYExecutor _ _ _ _ _ => None
   | StreamWithContext _ _ _ _ _ => ("", "", None)
   | ObjectGet _ _ _ => match live with Some o => Ok o | None => Err (Error NotFound "") end
   | ObjectCreate _ | ObjectApply _ => None
   end, w).

Definition effects_of (tr : list xevent) : list string :=
  omap (λ e, match e with Ev c _ => match c with
    | RunCommand script => Some script | HttpDo r => Some (ht_url r) | ObjectCreate _ => Some "create" | ObjectApply _ => Some "apply"
    | _ => None end end) tr.
Definition states_of (tr : list xevent) : list (string * string) :=
  omap (λ e, a ← action_written e; Some (ma_state (ma_status a), ma_reason (ma_status a))) tr.

Definition demo_run (a : middleware_action) (todo : list action_step) (live : option object) : option error * list xevent :=
  run (demo_actions a todo live) (Reconcile_action true true "default" 9 "prod" "backup-1") tt.

(** Two commands run in order and the action is available; it then has a state,
    and nothing runs again. *)
Definition demo_steps : list action_step := [demo_step "save" "" ["redis-cli"; "save"] "string"; demo_step "ship" "" ["cp dump"] "string"].
Example action_runs :
  (demo_run (demo_action [] "") demo_steps None).1 = None ∧
  effects_of (demo_run (demo_action [] "") demo_steps None).2 = ["redis-cli save"; "cp dump"] ∧
  last (states_of (demo_run (demo_action [] "") demo_steps None).2) = Some (StateAvailable, "") ∧
  effects_of (demo_run (demo_action [] StateAvailable) demo_steps None).2 = [].
Proof. by vm_compute. Qed.

(** A step that succeeded before is left out. *)
Definition half_done : list condition := [Condition "STEP-save" ConditionTrue 1 5 "" ""].
Lemma step_reported_witness :
  let '(r, tr) := run (demo_actions (demo_action half_done "") demo_steps None)
                    (execute_step true 9 (demo_step "save" "" ["redis-cli"; "save"] "string") ∅ (demo_action half_done "")) tt in
  effects_of tr = [] ∧ step_outcome "STEP-save" (demo_action half_done "") tr r.
Proof.
  pose proof (step_reported true 9 ltac:(lia) (demo_actions (demo_action half_done "") demo_steps None) tt
    (demo_step "save" "" ["redis-cli"; "save"] "string") ∅ (demo_action half_done "")) as Hr.
  destruct (run _ _ tt) as [r tr] eqn:Erun. simpl in Hr. split; [|exact Hr].
  apply (f_equal snd) in Erun. simpl in Erun. subst tr. by vm_compute.
Defined.

(** An edit that labels an object without labels panics: the step fails. *)
Definition label_cue : string := code (JObj {["parameters" := JObj {["resource" := JObj {[
  "apiVersion" := JNull; "apiversion" := JStr "v1"; "kind" := JStr "ConfigMap"; "name" := JStr "redis"; "namespace" := JStr "prod";
  "labels" := JObj {["tier" := JStr "cache"]}]}]}; "output" := JObj ∅]}).
Definition unlabelled : object :=
  {["apiVersion" := JStr "v1"; "kind" := JStr "ConfigMap"; "metadata" := JObj {["name" := JStr "redis"; "namespace" := JStr "prod"]}]}.
Lemma edit_unlabelled_panics :
  (e_msg <$> (demo_run (demo_action [] "") [demo_step "label" label_cue [] ""] (Some unlabelled)).1) =
    Some "execute cue error: panic: assignment to entry in nil map" ∧
  effects_of (demo_run (demo_action [] "") [demo_step "label" label_cue [] ""] (Some unlabelled)).2 = [].
Proof. by vm_compute. Qed.
End Demo.
