(* ===== verification/PreActions.v ===== *)
(** * Pre-actions

    [internal/service/middlewareaction/preaction.go]: the steps that change a
    Middleware or an operator in memory before it is applied, and their strict
    form for rendering, which must not touch anything.

    The decoders of the API types are parameters: the object a document decodes
    to, and what is left of it when decoding fails. *)
From Stdlib Require Import ZArith Lia Ascii String.
From stdpp Require Import base gmap strings list option pretty.
From S2P Require Import Prelude GoStrings Labels Conditions Prog Errors Diagnostic Middleware Json Adoption JsonTools IntentMerge IntentRecord.
From S2P Require Import Catalog Packages MiddlewareRender Operator ActionReport Actions.

(** What has pre-actions ([tools.Quoter]). *)
Inductive subject := SMiddleware (m : middleware) | SOperator (o : operator).

Definition preActions_of (s : subject) : list pre_action :=
  match s with SMiddleware m => sp_preActions (m_spec m) | SOperator o => op_preActions (mo_spec o) end.
Definition labels_of (s : subject) : gmap string string :=
  match s with SMiddleware m => m_labels m | SOperator o => mo_labels o end.

(** [GetUnified], api/v1/middlewareoperator_types.go:110-124 *)
Definition operator_quoter (o : operator) : quoter :=
  Quoter (mo_name o) (mo_namespace o) (mo_labels o) (mo_annotations o) (default "" (op_globe (mo_spec o))) "".

Class SubjectCodec `{UnstructuredApi} := {
  EncodeSubject : subject → result error json;
  DecodeSubject : object → subject → option error * subject;
  DecodeMiddleware : object → result error middleware;
  DecodeOperator : object → result error operator;
}.

Definition ErrPreActionNotRenderSafe : error := new_error "pre-action is not render-safe".

Section PreActions.
Context `{!JsonLib, !YamlLib, !PackageFormat, !MapOrder, !CueLib, !UrlLib, !MetaConditions}.
Context `{!RetryOnConflict pcall error is_conflict, !RetryOnConflict xcall error is_conflict}.
Context `{ObjectDecode, !SubjectCodec} (statusAPIReader apiReader : bool) (DataNamespace : string) (now : Z).

(** [getPreActionBaseline], internal/service/middlewareaction/preaction.go *)
Definition getPreActionBaseline (preAction : pre_action) (s : subject) : xprog (result error catalog_object) :=
  mad ←? get_baseline apiReader DataNamespace (pa_name preAction) ((labels_of s).[LabelPackageName]);
  Ret (if negb (String.eqb (baseline_type mad) WorkflowPreAction)
       then Err (new_error ("pre action " +:+ co_name mad +:+ " is not pre action")) else Ok mad).

Definition not_render_safe (mad : catalog_object) (step : action_step) : error :=
  wrap_error (e_msg ErrPreActionNotRenderSafe)
    (new_error ("pre-action " +:+ quoted (co_name mad) +:+ " step " +:+ quoted (st_name step) +:+ " has a non-CUE execution path")).

(** [validatePreActionRenderSafe], internal/service/middlewareaction/preaction.go *)
Definition validatePreActionRenderSafe (mad : catalog_object) : option error :=
  not_render_safe mad ∘ snd <$> list_find (λ step, TrimSpace (st_cue step) = "") (steps_of mad).

(** [mapCue], internal/service/middlewareaction/execute_cue.go *)
Definition mapCue (step : action_step) : result error action_step :=
  if String.eqb (st_cue step) "" then Ok step
  else
    bi ← wrap_result "parse and add cue file error" (ParseCueFile (st_cue step));
    instBytes ← wrap_result "inst to string error" (CueJSON (BuildInstance bi));
    Ok (Step (st_name step) (st_type step) (st_output step) instBytes (st_command step) (st_http step)).

Definition describe_key (apiversion kind namespace name : string) : string :=
  "apiVersion=" +:+ apiversion +:+ " kind=" +:+ kind +:+ " namespace=" +:+ namespace +:+ " name=" +:+ name.

(** [executePreActionCue], internal/service/middlewareaction/preaction.go:298-318 *)
Definition wrong_target (obj : object) (generation : Z) (apiversion kind namespace name : string) : error :=
  diagnostic_error (Diagnostic PhaseConfigValidation "middlewareaction" no_object
    (ObjectRefFromObject (GetNamespace obj) (GetName obj) (gvk_group (GroupVersionKind obj)) (gvk_version (GroupVersionKind obj))
       (gvk_kind (GroupVersionKind obj))) no_object
    "parameters.resource" (describe_key apiversion kind namespace name)
    (describe_key (GetAPIVersion obj) (GetKind obj) (GetNamespace obj) (GetName obj)) generation 0
    "check the pre-action CUE parameters.resource block and the MiddlewareAction target object metadata")
    (Some (new_error "pre action CUE target resource does not match input object")).

(** The object with the program's output merged into it; [null] for the output
    of a merge that panicked. *)
(** [executePreActionCue], internal/service/middlewareaction/preaction.go:274-356 *)
Definition patch_object (cueString : string) (obj : object) (generation : Z) : result error object :=
  let inst := CompileString cueString in
  let resource := LookupPath "parameters.resource" inst in
  apiversion ← resource_string resource "apiversion";
  kind ← resource_string resource "kind";
  name ← resource_string resource "name";
  namespace ← resource_string resource "namespace";
  if negb (String.eqb (GetAPIVersion obj) apiversion) || negb (String.eqb (GetKind obj) kind) ||
     negb (String.eqb (GetName obj) name) || negb (String.eqb (GetNamespace obj) namespace)
  then Err (wrong_target obj generation apiversion kind namespace name)
  else
    cueJson ← wrap_result "inst to string error" (CueJSON (LookupPath "output" inst));
    cueMap ← wrap_result "unmarshal cue error" (JsonToMap cueJson);
    wrap_result "unmarshal deployment error"
      (DecodeObject (match MergeMap obj cueMap with Some patches => JObj patches | None => JNull end)).

(** The result, the object and the action with its condition, whose pointer is
    never nil. *)
(** [executePreActionCue], internal/service/middlewareaction/preaction.go *)
Definition executePreActionCue (cueString : string) (obj : object) (a : middleware_action) :
    option error * object * middleware_action :=
  let '(cs, p) := GetCondition now (conditions_of a) CondTypeExecuteCue in
  let conclude f := set_action_conditions (match p with Some i => alter f i cs | None => cs end) a in
  match patch_object cueString obj (ma_generation a) with
  | Err e => (Some e, obj, conclude (Failed now (safeActionDiagnosticMessage (e_msg e)) (ma_generation a)))
  | Ok obj => (None, obj, conclude (Success now (ma_generation a)))
  end.

(** What the templates of a pre-action see. *)
(** [executePreAction], internal/service/middlewareaction/preaction.go:185-234 *)
Definition preaction_values (obj : object) (a : middleware_action) : xprog (result error template_values) :=
  '(q, parameters) ←? Ret (
    if String.eqb (GetKind obj) "Middleware" then
      m ← DecodeMiddleware obj;
      parameters ← JsonToMap (sp_parameters (m_spec m));
      Ok (middleware_quoter m, Some parameters)
    else if String.eqb (GetKind obj) "MiddlewareOperator" then o ← DecodeOperator obj; Ok (operator_quoter o, None)
    else Err nil_condition);
  tv ←? env (GetTemplateValues ∅ q);
  Ret (tv ← (if String.eqb (ma_necessary a) "" then Ok tv
             else necessary ← unmarshal_values (ma_necessary a) (tv_necessary tv); Ok (with_necessary necessary tv));
       Ok (match parameters with Some parameters => with_parameters parameters tv | None => tv end)).

(** [executePreAction], internal/service/middlewareaction/preaction.go:236-258 *)
Fixpoint preaction_steps (todo : list action_step) (mad : catalog_object) (renderOnly : bool) (tv : template_values)
    (outputs : gmap string json) (obj : object) (a : middleware_action) : xprog (option error * object * middleware_action) :=
  match todo with
  | [] => Ret (None, obj, a)
  | step :: todo =>
      r ← TemplateParseWithBaseline step tv;
      match r with
      | Err e => Ret (Some e, obj, a)
      | Ok step =>
          if negb (String.eqb (st_cue step) "") then
            match mapCue step with
            | Err e => Ret (Some (prefix_error ("handle cue error: " +:+ co_name mad +:+ " ") e), obj, a)
            | Ok step =>
                let '(err, obj, a) := executePreActionCue (st_cue step) obj a in
                match err with
                | Some e => Ret (Some (wrap_error "execute cue error" e), obj, a)
                | None => preaction_steps todo mad renderOnly tv outputs obj a
                end
            end
          else if renderOnly then Ret (Some (not_render_safe mad step), obj, a)
          else if bool_decide (st_command step = []) then preaction_steps todo mad renderOnly tv outputs obj a
          else
            '(err, outputs, a) ← executeCmd statusAPIReader now step outputs a;
            match err with
            | Some e => Ret (Some (wrap_error "execute cmd error" e), obj, a)
            | None => preaction_steps todo mad renderOnly tv outputs obj a
            end
      end
  end.

(** [executePreAction], internal/service/middlewareaction/preaction.go *)
Definition executePreAction (obj : object) (mad : catalog_object) (a : middleware_action) (renderOnly : bool) :
    xprog (option error * object * middleware_action) :=
  r ← preaction_values obj a;
  match r with
  | Err e => Ret (Some e, obj, a)
  | Ok tv => preaction_steps (steps_of mad) mad renderOnly tv ∅ obj a
  end.

(** The action of a pre-action has no name. *)
Definition preaction_action (preAction : pre_action) (s : subject) : middleware_action :=
  MiddlewareAction "" "" 0 (labels_of s) ∅ (pa_name preAction) (pa_parameters preAction) "" (MiddlewareActionStatus 0 [] "" "").

(** [applyPreAction], internal/service/middlewareaction/preaction.go *)
Definition applyPreAction (s : subject) (preAction : pre_action) (mad : catalog_object) (renderOnly : bool) :
    xprog (option error * subject) :=
  match (mBytes ← EncodeSubject s; DecodeObject mBytes) with
  | Err e => Ret (Some e, s)
  | Ok temp =>
      '(err, temp, _) ← executePreAction temp mad (preaction_action preAction s) renderOnly;
      Ret (match err with Some e => (Some e, s) | None => DecodeSubject temp s end)
  end.

(** Every pre-action is checked before any is applied. *)
(** [handlePreActions], internal/service/middlewareaction/preaction.go:57-69 *)
Fixpoint resolve_preactions (preActions : list pre_action) (s : subject) : xprog (result error (list (pre_action * catalog_object))) :=
  match preActions with
  | [] => Ret (Ok [])
  | preAction :: preActions =>
      mad ←? getPreActionBaseline preAction s;
      _ ←? Ret (match validatePreActionRenderSafe mad with Some e => Err e | None => Ok tt end);
      resolved ←? resolve_preactions preActions s;
      Ret (Ok ((preAction, mad) :: resolved))
  end.

(** [handlePreActions], internal/service/middlewareaction/preaction.go:70-75 *)
Fixpoint apply_resolved (resolved : list (pre_action * catalog_object)) (s : subject) : xprog (option error * subject) :=
  match resolved with
  | [] => Ret (None, s)
  | (preAction, mad) :: resolved =>
      '(err, s) ← applyPreAction s preAction mad true;
      match err with Some e => Ret (Some e, s) | None => apply_resolved resolved s end
  end.

(** The list is that of the object before the first pre-action: that a program
    may edit the list itself, which decoding writes over the array in use, is
    left out. *)
(** [handlePreActions], internal/service/middlewareaction/preaction.go:78-87 *)
Fixpoint handle_each (preActions : list pre_action) (s : subject) : xprog (option error * subject) :=
  match preActions with
  | [] => Ret (None, s)
  | preAction :: preActions =>
      r ← getPreActionBaseline preAction s;
      match r with
      | Err e => Ret (Some e, s)
      | Ok mad =>
          '(err, s) ← applyPreAction s preAction mad false;
          match err with Some e => Ret (Some e, s) | None => handle_each preActions s end
      end
  end.

(** [handlePreActions], internal/service/middlewareaction/preaction.go *)
Definition handlePreActions (s : subject) (renderOnly : bool) : xprog (option error * subject) :=
  if renderOnly then
    r ← resolve_preactions (preActions_of s) s;
    match r with Err e => Ret (Some e, s) | Ok resolved => apply_resolved resolved s end
  else handle_each (preActions_of s) s.

(** [HandlePreActions], internal/service/middlewareaction/preaction.go *)
Definition HandlePreActions (s : subject) : xprog (option error * subject) := handlePreActions s false.
(** [RenderPreActions], internal/service/middlewareaction/preaction.go *)
Definition RenderPreActions (s : subject) : xprog (option error * subject) := handlePreActions s true.
End PreActions.

(** ** What pre-actions touch *)

Section Confined.
Context `{!JsonLib, !YamlLib, !PackageFormat, !MapOrder, !CueLib, !UrlLib, !MetaConditions}.
Context `{!RetryOnConflict pcall error is_conflict, !RetryOnConflict xcall error is_conflict}.
Context `{ObjectDecode, !SubjectCodec} (statusAPIReader apiReader : bool) (DataNamespace : string) (now : Z).
Implicit Types (s : subject) (a : middleware_action) (mad : catalog_object) (obj : object).

Definition is_command (e : xevent) : bool := match e with Ev c _ => match c with RunCommand _ => true | _ => false end end.
(** A pre-action may run a command; for rendering it may not. *)
Definition confined (renderOnly : bool) (l : list xevent) (e : xevent) : Prop := quiet e ∨ renderOnly = false ∧ is_command e = true.
Definition nameless a : Prop := ma_name a = "".

Lemma quiet_confined {A} renderOnly (p : xprog A) tr : only (λ _ e, quiet e) p → spec (confined renderOnly) p tr (λ _ _, True).
Proof. intros Hp. eapply only_spec; [exact Hp|]. by left. Qed.

Lemma cmd_confined step outputs a tr : nameless a →
  spec (confined false) (executeCmd statusAPIReader now step outputs a) tr (λ _ r, nameless r.2).
Proof.
  intros Ha. unfold executeCmd. destruct (GetCondition _ _ _) as [cs i].
  eapply spec_bind; [apply quiet_confined, parse_step_quiet|]. intros tr1 [st|e] _ _; [|by apply spec_ret].
  destruct (i ≫= _) as [[j c]|]; [|by apply spec_ret]. destruct (decide _); [by apply spec_ret|].
  eapply (spec_bind _ _ _ (λ _ _, True)).
  - destruct (st_command st); [by apply spec_ret|]. eapply (spec_bind _ _ _ (λ _ _, True)); [|intros tr2 [output err] _ _; by apply spec_ret].
    apply spec_call; [|done]. intros r. by right.
  - intros tr2 r _ _. change (ma_name (set_action_conditions cs a)) with (ma_name a). rewrite Ha. simpl.
    destruct r as [[msg steps']|e]; by apply spec_ret.
Qed.

Lemma cue_nameless text obj a : nameless a → nameless (executePreActionCue now text obj a).2.
Proof. intros Ha. unfold executePreActionCue. destruct (GetCondition _ _ _) as [cs i]. by destruct (patch_object _ _ _). Qed.

Lemma steps_confined todo mad renderOnly tv outputs obj a tr : nameless a →
  spec (confined renderOnly) (preaction_steps statusAPIReader now todo mad renderOnly tv outputs obj a) tr (λ _ _, True).
Proof.
  revert outputs obj a tr. induction todo as [|step todo IH]; intros outputs obj a tr Ha; cbn [preaction_steps]; [by apply spec_ret|].
  eapply spec_bind; [apply quiet_confined, step_template_quiet|]. intros tr1 [st|e] _ _; [|by apply spec_ret].
  destruct (String.eqb (st_cue st) ""); simpl.
  - destruct renderOnly; [by apply spec_ret|]. destruct (bool_decide _); [by apply IH|].
    eapply spec_bind; [by apply cmd_confined|]. intros tr2 [[[err|] outputs'] a'] _ Ha'; [by apply spec_ret|by apply IH].
  - destruct (mapCue st) as [st'|e]; [|by apply spec_ret]. pose proof (cue_nameless (st_cue st') obj a Ha) as Ha'.
    destruct (executePreActionCue now (st_cue st') obj a) as [[[err|] obj'] a']; [by apply spec_ret|by apply IH].
Qed.

Lemma apply_confined s preAction mad renderOnly tr :
  spec (confined renderOnly) (applyPreAction statusAPIReader now s preAction mad renderOnly) tr (λ _ _, True).
Proof.
  unfold applyPreAction. destruct (mBytes ← EncodeSubject s; DecodeObject mBytes) as [temp|e]; [|by apply spec_ret].
  eapply (spec_bind _ _ _ (λ _ _, True)); [|intros tr' [[err temp'] a'] _ _; by apply spec_ret].
  unfold executePreAction. eapply (spec_bind _ _ _ (λ _ _, True)).
  - apply quiet_confined. unfold preaction_values. apply only_bind; [apply only_ret|]. intros [[q parameters]|e]; [|apply only_ret].
    apply only_bind; [apply values_quiet|]. intros [tv|e]; apply only_ret.
  - intros tr' [tv|e] _ _; [by apply steps_confined|by apply spec_ret].
Qed.

Lemma baseline_confined renderOnly preAction s tr :
  spec (confined renderOnly) (getPreActionBaseline apiReader DataNamespace preAction s) tr (λ _ _, True).
Proof.
  apply quiet_confined. unfold getPreActionBaseline. apply only_bind; [apply get_baseline_quiet|]. intros [mad|e]; apply only_ret.
Qed.

Lemma each_confined preActions s tr :
  spec (confined false) (handle_each statusAPIReader apiReader DataNamespace now preActions s) tr (λ _ _, True).
Proof.
  revert s tr. induction preActions as [|preAction preActions IH]; intros s tr; cbn [handle_each]; [by apply spec_ret|].
  eapply spec_bind; [apply baseline_confined|]. intros tr1 [mad|e] _ _; [|by apply spec_ret].
  eapply spec_bind; [apply apply_confined|]. intros tr2 [[err|] s'] _ _; [by apply spec_ret|by apply IH].
Qed.

Lemma resolved_confined resolved s tr :
  spec (confined true) (apply_resolved statusAPIReader now resolved s) tr (λ _ _, True).
Proof.
  revert s tr. induction resolved as [|[preAction mad] resolved IH]; intros s tr; cbn [apply_resolved]; [by apply spec_ret|].
  eapply spec_bind; [apply apply_confined|]. intros tr2 [[err|] s'] _ _; [by apply spec_ret|by apply IH].
Qed.

(** A pre-action with a baseline, read in this run, that may be rendered. *)
Definition resolved_ok s tr (preAction : pre_action) (x : pre_action * catalog_object) : Prop :=
  x.1 = preAction ∧ baseline_type x.2 = WorkflowPreAction ∧
  Forall (λ step, TrimSpace (st_cue step) ≠ "") (steps_of x.2) ∧
  ∃ l, l ⊆ tr ∧
    Prog.outcome (get_baseline apiReader DataNamespace (pa_name preAction) ((labels_of s).[LabelPackageName])) l (Ok x.2).

Lemma resolved_more s tr tr' preAction x : tr ⊆ tr' → resolved_ok s tr preAction x → resolved_ok s tr' preAction x.
Proof. intros Hsub (? & ? & ? & l & Hl & Ho). split_and!; [done..|]. exists l. split; [by etrans|done]. Qed.

Lemma validate_safe mad : validatePreActionRenderSafe mad = None → Forall (λ step, TrimSpace (st_cue step) ≠ "") (steps_of mad).
Proof. unfold validatePreActionRenderSafe. by intros Hn%fmap_None%list_find_None. Qed.

Lemma resolve_outcome preActions s l resolved :
  Prog.outcome (resolve_preactions apiReader DataNamespace preActions s) l (Ok resolved) → Forall2 (resolved_ok s l) preActions resolved.
Proof.
  revert l resolved. induction preActions as [|preAction preActions IH]; intros l resolved.
  - intros [_ [= ->]]. constructor.
  - cbn [resolve_preactions]. unfold try. intros (l1 & l2 & r1 & -> & Ho1 & Ho2)%outcome_bind.
    destruct r1 as [mad|e]; [|by destruct Ho2 as [_ ?]]. apply outcome_bind in Ho2 as (l3 & l4 & r2 & -> & Ho3 & Ho4).
    destruct Ho3 as [-> ->]. destruct (validatePreActionRenderSafe mad) as [e|] eqn:Hv; [by destruct Ho4 as [_ ?]|].
    apply outcome_bind in Ho4 as (l5 & l6 & r3 & -> & Ho5 & Ho6). destruct r3 as [rs|e]; [|by destruct Ho6 as [_ ?]].
    destruct Ho6 as [-> [= ->]]. rewrite app_nil_r. constructor.
    + unfold getPreActionBaseline, try in Ho1. apply outcome_bind in Ho1 as (l6 & l7 & r4 & -> & Ho6 & Ho7).
      destruct r4 as [mad'|e]; [|by destruct Ho7 as [_ ?]]. destruct Ho7 as [-> Hm].
      destruct (String.eqb_spec (baseline_type mad') WorkflowPreAction) as [Ht|]; [|done]. injection Hm as <-.
      split_and!; [done|done|by apply validate_safe|]. exists l6. split; [|done]. intros e He. rewrite !elem_of_app. auto.
    + eapply Forall2_impl; [by apply IH|]. intros pa x. apply resolved_more. intros e He. rewrite !elem_of_app. auto.
Qed.

(** Rendering leaves the object alone unless every pre-action was resolved. *)
Lemma render_outcome s l r :
  Prog.outcome (RenderPreActions statusAPIReader apiReader DataNamespace now s) l r →
  r.2 = s ∨ ∃ resolved, Forall2 (resolved_ok s l) (preActions_of s) resolved.
Proof.
  unfold RenderPreActions, handlePreActions. intros (l1 & l2 & [resolved|e] & -> & Ho1 & Ho2)%outcome_bind; [right|left].
  - exists resolved. eapply Forall2_impl; [by apply resolve_outcome|]. intros pa x. apply resolved_more.
    intros e He. rewrite elem_of_app. auto.
  - by destruct Ho2 as [_ ->].
Qed.

(** C20: Pre-actions change the object in memory and nothing in the cluster:
    apart from commands that they run, they only read (an event is [quiet] when
    it is no write of any component, no request and no status write).  Rendering with them runs no command either, and changes the object
    only after every pre-action was found to be one whose steps are all CUE
    programs; otherwise the object is returned as it was. *)
Theorem preactions_confined {W} (h : handler xcall W) (w : W) s :
  Forall (λ e, quiet e ∨ is_command e = true) (run h (HandlePreActions statusAPIReader apiReader DataNamespace now s) w).2 ∧
  let '((err, s'), tr) := run h (RenderPreActions statusAPIReader apiReader DataNamespace now s) w in
  Forall quiet tr ∧ (s' = s ∨ ∃ resolved, Forall2 (resolved_ok s tr) (preActions_of s) resolved).
Proof.
  assert (Hall : ∀ {A} renderOnly (p : xprog A), spec (confined renderOnly) p [] (λ _ _, True) →
    holds p [] (λ tr _, Forall (λ e, quiet e ∨ renderOnly = false ∧ is_command e = true) tr)).
  { intros A renderOnly p Hp. eapply holds_mono; [apply Hp, each_nil|]. intros tr r (Heach & _). apply list.Forall_forall.
    intros e (l1 & l2 & Heq)%list_elem_of_split. exact (Heach _ _ _ Heq). }
  split.
  - pose proof (Hall _ false _ (each_confined (preActions_of s) s [])) as Hh.
    apply (holds_run h _ w) in Hh. simpl in Hh. eapply list.Forall_impl; [exact Hh|]. naive_solver.
  - apply holds_run_pair.
    assert (Hq : holds (RenderPreActions statusAPIReader apiReader DataNamespace now s) [] (λ tr _, Forall quiet tr)).
    { eapply holds_mono; [apply (Hall _ true)|intros tr r Hq; eapply list.Forall_impl; [exact Hq|naive_solver]].
      unfold RenderPreActions, handlePreActions. eapply (spec_bind _ _ _ (λ _ _, True)).
      - generalize (preActions_of s) as pas. intros pas. generalize (@nil xevent) as tr0. induction pas as [|pa pas IH]; intros tr0; cbn [resolve_preactions]; [by apply spec_ret|].
        unfold try. eapply spec_bind; [apply baseline_confined|]. intros tr1 [mad|e] _ _; [|by apply spec_ret].
        eapply (spec_bind _ _ _ (λ _ _, True)); [by apply spec_ret|]. intros tr2 [[]|e] _ _; [|by apply spec_ret].
        eapply spec_bind; [apply IH|]. intros tr3 [rs|e] _ _; by apply spec_ret.
      - intros tr1 [resolved|e] _ _; [apply resolved_confined|by apply spec_ret]. }
    apply holds_outcome. intros l [err s'] Ho. split; [by apply (proj1 (holds_outcome _ [] _) Hq l (err, s'))|].
    by apply render_outcome in Ho.
Qed.
End Confined.

(** ** A pre-action's command is rendered twice

    Once with the values of what it belongs to, and what comes out of that once
    more with those of an action without a name. *)
Section Twice.
Context `{!JsonLib, !YamlLib, !PackageFormat, !MapOrder, !CueLib, !UrlLib}.
Context `{!RetryOnConflict pcall error is_conflict, !RetryOnConflict xcall error is_conflict}.
Context `{ObjectDecode, !SubjectCodec}.

(** A template engine that marks what it renders. *)
Definition marking (answer : ∀ R, acall R → R) : handler xcall unit := λ R c w,
  (match c in xcall R return R with
   | Env c => match c in acall R return R → R with
       | Pack c => match c in pcall R return R → R with TemplateParse t _ => λ _, Ok (t +:+ "'") | _ => id end
       | Capabilities => λ _, JNull
       | _ => id
       end (answer _ c)
   | ActionGet _ _ | ActionReaderGet _ _ => Err (Error NotFound "")
   | ActionCacheSet _ _ => tt
   | ActionStatusUpdate _ => None
   | RunCommand _ => ("", None)
   | HttpDo _ => NotSent
   | GetClientSet | GetConfig | NewSPDYExecutor _ _ _ _ _ => None
   | StreamWithContext _ _ _ _ _ => ("", "", None)
   | ObjectGet _ _ _ => Err (Error NotFound "")
   | ObjectCreate _ | ObjectApply _ => None
   end, w).

#[local] Existing Instance meta_by_list.
Lemma preaction_command_rendered_twice answer mad tv obj preAction s :
  pa_parameters preAction = "" →
  effects_of (run (marking answer)
    (preaction_steps true 9
       [Step "tune" "" (Output false "") "" ["sysctl"] (Http "" "" ∅ "")] mad false tv ∅ obj (preaction_action preAction s)) tt).2 = ["sysctl''"].
Proof. intros Hp. unfold preaction_action. rewrite Hp. reflexivity. Qed.
End Twice.
