(* ===== verification/OperatorRender.v ===== *)
(** * Rendering an operator with its baseline

    [renderOperatorWithBaseline] and [hydrateDeleteContext] of
    [internal/service/middlewareoperator/middlewareoperator.go]: what an operator
    is when it is applied, and what of it is restored when it is deleted.

    A policy rule is its JSON object, decoded over another one by
    [DecodeRule]. *)
From Stdlib Require Import ZArith Lia.
From stdpp Require Import base gmap strings list option.
From S2P Require Import Prelude GoStrings YamlTemplates Labels Conditions Prog Errors Middleware Json Adoption JsonTools Catalog Packages MiddlewareRender MiddlewareUpgrade MiddlewareApply Operator Actions PreActions.

(** ** Encoding and decoding *)

(** The fields of the baseline's spec that an operator's spec has too. *)
(** [MiddlewareOperatorBaselineSpec], api/v1/middlewareoperatorbaseline_types.go *)
Record operator_baseline_spec := OperatorBaselineSpec {
  obs_globe : option string;
  obs_preActions : list pre_action;
  obs_permissionScope : string;
  obs_permissions : list permission;
  obs_deployment : string;
  obs_configurations : list configuration_ref;
}.
Definition no_baseline_spec : operator_baseline_spec := OperatorBaselineSpec None [] "" [] "" [].

Definition omit_nil {A} (k : string) (encode : A → option json) (l : list A) (m : gmap string json) : option (gmap string json) :=
  match l with [] => Some m | _ => js ← mapM encode l; Some (<[k := JArr js]> m) end.
Definition decode_slice_field {A} (decode : json → A → option A) (zero : A) (v : option json) (current : list A) : option (list A) :=
  match v with None => Some current | Some j => decode_slice decode zero j current end.

Section Codecs.
Context `{!JsonLib} (DecodeRule : json → json → option json).

(** [Permission], api/v1/common.go *)
Definition permission_json (p : permission) : option json :=
  m ← omit_nil "rules" Some (pm_rules p) ∅; Some (JObj (omit_empty "serviceAccountName" (pm_serviceAccountName p) m)).
(** [Permission], api/v1/common.go *)
Definition decode_permission (j : json) (p : permission) : option permission :=
  match j with
  | JNull => Some p
  | JObj m =>
      name ← decode_string (m !! "serviceAccountName") (pm_serviceAccountName p);
      rules ← decode_slice_field DecodeRule (JObj ∅) (m !! "rules") (pm_rules p);
      Some (Permission name rules)
  | _ => None
  end.
Definition decode_permissions : json → list permission → option (list permission) :=
  decode_slice decode_permission (Permission "" []).

(** A pointer to a raw extension; [None] and an absent one are nil. *)
Definition raw_pointer (k : string) (raw : option string) (m : gmap string json) : option (gmap string json) :=
  match raw with None => Some m | Some raw => j ← raw_json raw; Some (<[k := j]> m) end.
Definition decode_pointer (v : option json) (current : option string) : option string :=
  match v with None => current | Some JNull => None | Some j => Some (Marshal j) end.
(** The deployment is a nil pointer when its bytes are empty. *)
Definition deployment_pointer (raw : string) : option string := if String.eqb raw "" then None else Some raw.

Definition spec_json (baseline : string) (globe : option string) (preActions : list pre_action) (scope : string)
    (permissions : list permission) (deployment : string) (configurations : list configuration_ref) : option json :=
  m ← omit_nil "configurations" configuration_json configurations ∅;
  m ← raw_pointer "deployment" (deployment_pointer deployment) m;
  m ← omit_nil "permissions" permission_json permissions m;
  m ← omit_nil "preActions" pre_action_json preActions m;
  m ← raw_pointer "globe" globe m;
  Some (JObj (omit_empty "baseline" baseline (omit_empty "permissionScope" scope m))).
(** [MiddlewareOperatorSpec], api/v1/middlewareoperator_types.go *)
Definition operator_spec_json (sp : operator_spec) : option json :=
  spec_json (op_baseline sp) (op_globe sp) (op_preActions sp) (op_permissionScope sp) (op_permissions sp) (op_deployment sp) (op_configurations sp).
(** The declared kinds are left out: an operator's spec does not decode them. *)
(** [MiddlewareOperatorBaselineSpec], api/v1/middlewareoperatorbaseline_types.go *)
Definition baseline_spec_json (bs : operator_baseline_spec) : option json :=
  spec_json "" (obs_globe bs) (obs_preActions bs) (obs_permissionScope bs) (obs_permissions bs) (obs_deployment bs) (obs_configurations bs).

(** [MiddlewareOperatorSpec], api/v1/middlewareoperator_types.go *)
Definition decode_operator_spec (j : json) (sp : operator_spec) : option operator_spec :=
  match j with
  | JNull => Some sp
  | JObj m =>
      baseline ← decode_string (m !! "baseline") (op_baseline sp);
      scope ← decode_string (m !! "permissionScope") (op_permissionScope sp);
      preActions ← decode_slice_field decode_pre_action (PreAction "" false false "") (m !! "preActions") (op_preActions sp);
      permissions ← decode_slice_field decode_permission (Permission "" []) (m !! "permissions") (op_permissions sp);
      configurations ← decode_slice_field decode_configuration (Configuration "" "") (m !! "configurations") (op_configurations sp);
      Some (MiddlewareOperatorSpec baseline (decode_pointer (m !! "globe") (op_globe sp)) preActions scope permissions
        (default "" (decode_pointer (m !! "deployment") (deployment_pointer (op_deployment sp)))) configurations)
  | _ => None
  end.
Definition decode_baseline_spec (j : json) : option operator_baseline_spec :=
  sp ← decode_operator_spec j (MiddlewareOperatorSpec "" None [] "" [] "" []);
  Some (OperatorBaselineSpec (op_globe sp) (op_preActions sp) (op_permissionScope sp) (op_permissions sp) (op_deployment sp) (op_configurations sp)).

(** The spec of a baseline that was read. *)
Definition operator_baseline_spec_of (o : catalog_object) : operator_baseline_spec :=
  match co_spec o with
  | MiddlewareOperatorBaselineSpec _ rest => default no_baseline_spec (decode_baseline_spec rest)
  | _ => no_baseline_spec
  end.

Definition merge_spec (bs : operator_baseline_spec) (sp : operator_spec) : result error operator_spec :=
  match baseline_spec_json bs, operator_spec_json sp with
  | None, _ => Err (new_error "failed to marshal old object")
  | _, None => Err (new_error "failed to marshal new object")
  | Some old, Some new =>
      match StructMerge old new StructMergeMapType with
      | Untouched => Ok sp
      | Decode j => match decode_operator_spec j sp with Some sp => Ok sp | None => Err (new_error "cannot unmarshal") end
      | MergeFails msg => Err (new_error msg)
      | MergePanics => Err (new_error "panic")
      end
  end.
Definition merge_permissions : list permission → list permission → result error (list permission) :=
  merge_into (encode_slice permission_json) decode_permissions StructMergeArrayType.
End Codecs.

(** ** The programs *)

(** Programs that change an operator and may fail. *)
Definition opM (A : Type) : Type := operator → aprog (result error A * operator).
#[export] Instance opM_ret : MRet opM := λ A a o, Ret (Ok a, o).
#[export] Instance opM_bind : MBind opM := λ A B f p o,
  r ← p o; match r with (Ok a, o) => f a o | (Err e, o) => Ret (Err e, o) end.
Definition operator_now : opM operator := λ o, Ret (Ok o, o).
Definition becomes (f : operator → operator) : opM unit := λ o, Ret (Ok tt, f o).
Definition asking {A} (msg : string) (p : aprog (result error A)) : opM A := λ o,
  r ← p; Ret (match r with Ok a => Ok a | Err e => Err (wrap_error msg e) end, o).
Definition doing {A} (p : aprog A) : opM A := λ o, a ← p; Ret (Ok a, o).
Definition either {A} (msg : string) (r : result error A) : opM A := asking msg (Ret r).
Definition ended (r : result error unit * operator) : option error * operator :=
  (match r.1 with Ok _ => None | Err e => Some e end, r.2).

Definition with_permissions (l : list permission) (sp : operator_spec) : operator_spec :=
  MiddlewareOperatorSpec (op_baseline sp) (op_globe sp) (op_preActions sp) (op_permissionScope sp) l (op_deployment sp) (op_configurations sp).
Definition with_configurations (l : list configuration_ref) (sp : operator_spec) : operator_spec :=
  MiddlewareOperatorSpec (op_baseline sp) (op_globe sp) (op_preActions sp) (op_permissionScope sp) (op_permissions sp) (op_deployment sp) l.
Definition with_preActions (l : list pre_action) (sp : operator_spec) : operator_spec :=
  MiddlewareOperatorSpec (op_baseline sp) (op_globe sp) l (op_permissionScope sp) (op_permissions sp) (op_deployment sp) (op_configurations sp).
Definition with_scope (scope : string) (globe : option string) (sp : operator_spec) : operator_spec :=
  MiddlewareOperatorSpec (op_baseline sp) globe (op_preActions sp) scope (op_permissions sp) (op_deployment sp) (op_configurations sp).
Definition on_spec (f : operator_spec → operator_spec) (o : operator) : operator :=
  with_meta (mo_labels o) (mo_annotations o) (f (mo_spec o)) o.
Definition with_operator_labels (l : gmap string string) (o : operator) : operator := with_meta l (mo_annotations o) (mo_spec o) o.
Definition with_operator_annotations (a : gmap string string) (o : operator) : operator := with_meta (mo_labels o) a (mo_spec o) o.

Section Programs.
Context `{!JsonLib, !YamlLib, !PackageFormat, !MapOrder} (DecodeRule : json → json → option json).
Context (apiReader : bool) (DataNamespace : string) (step : gmap string json).

(** [middlewareoperatorbaseline.Get] for an operator. *)
Definition baseline_of_operator (o : operator) : aprog (result error catalog_object) :=
  pack (Get_operator_baseline apiReader DataNamespace (op_baseline (mo_spec o)) ((mo_labels o).[LabelPackageName])).

(** [hydrateDeleteContext], internal/service/middlewareoperator/middlewareoperator.go:466-475 *)
Fixpoint render_names (permissions : list permission) (tv : template_values) : aprog (list permission) :=
  match permissions with
  | [] => Ret []
  | perm :: permissions =>
      perm ← (if contains "{{" (pm_serviceAccountName perm) then
                r ← call (Pack (TemplateParse (pm_serviceAccountName perm) tv));
                Ret (match r with
                     | Ok rendered => Permission (TrimSpace rendered) (pm_rules perm)
                     | Err _ => perm
                     end)
              else Ret perm);
      rest ← render_names permissions tv; Ret (perm :: rest)
  end.

(** [hydrateDeleteContext], internal/service/middlewareoperator/middlewareoperator.go:485-492 *)
Definition fill_scope (bs : operator_baseline_spec) (sp : operator_spec) : operator_spec :=
  with_scope
    (if String.eqb (op_permissionScope sp) "Unknown" || String.eqb (op_permissionScope sp) "" then obs_permissionScope bs else op_permissionScope sp)
    (if String.eqb (default "" (op_globe sp)) "" && bool_decide (is_Some (obs_globe bs)) then obs_globe bs else op_globe sp)
    sp.

(** [hydrateDeleteContext], internal/service/middlewareoperator/middlewareoperator.go *)
Definition hydrate_context : opM unit :=
  o ← operator_now; baseline ← asking "get baseline error" (baseline_of_operator o);
  let bs := operator_baseline_spec_of DecodeRule baseline in
  c ← either "struct merge configurations error" (merge_configurations (obs_configurations bs) (op_configurations (mo_spec o)));
  _ ← becomes (on_spec (with_configurations c));
  p ← either "struct merge permissions error" (merge_permissions DecodeRule (obs_permissions bs) (op_permissions (mo_spec o)));
  _ ← becomes (on_spec (with_permissions p));
  o ← operator_now; templateValues ← asking "get template values for permission rendering" (GetTemplateValues step (operator_quoter o));
  p ← doing (render_names p templateValues);
  _ ← becomes (on_spec (with_permissions p));
  l ← either "struct merge labels error" (merge_labels (co_labels baseline) (mo_labels o));
  _ ← becomes (with_operator_labels l);
  a ← either "struct merge annotations error" (merge_labels (co_annotations baseline) (mo_annotations o));
  _ ← becomes (with_operator_annotations a);
  becomes (on_spec (fill_scope bs)).
(** [hydrateDeleteContext], internal/service/middlewareoperator/middlewareoperator.go *)
Definition hydrateDeleteContext (o : operator) : aprog (option error * operator) := r ← hydrate_context o; Ret (ended r).

(** The first pre-action of a name is merged with the baseline's, unless that is fixed. *)
(** [renderOperatorWithBaseline], internal/service/middlewareoperator/middlewareoperator.go:548-561 *)
Fixpoint merge_operator_preActions (baseline : list pre_action) (preActions : list pre_action) : result error (list pre_action) :=
  match baseline with
  | [] => Ok preActions
  | baselinePre :: baseline =>
      preActions ← (if pa_fixed baselinePre then Ok preActions
        else match list_find (λ pre, pa_name pre = pa_name baselinePre) preActions with
             | Some (idx, pre) => pre ← merge_pre_action baselinePre pre; Ok (<[idx := pre]> preActions)
             | None => Ok preActions
             end);
      merge_operator_preActions baseline preActions
  end.

(** [renderOperatorWithBaseline], internal/service/middlewareoperator/middlewareoperator.go *)
Definition render_operator : opM unit :=
  o ← operator_now; baseline ← asking "get baseline error" (baseline_of_operator o);
  let bs := operator_baseline_spec_of DecodeRule baseline in
  sp ← either "struct merge error" (merge_spec DecodeRule bs (mo_spec o));
  _ ← becomes (on_spec (λ _, sp));
  l ← either "struct merge error" (merge_labels (co_labels baseline) (mo_labels o));
  _ ← becomes (with_operator_labels l);
  p ← either "struct merge error" (merge_operator_preActions (obs_preActions bs) (op_preActions sp));
  _ ← becomes (on_spec (with_preActions p));
  o ← operator_now; templateValues ← asking "get template values error" (GetTemplateValues step (operator_quoter o));
  spec ← either "marshal spec error" (match operator_spec_json (mo_spec o) with Some j => Ok j | None => Err (new_error "cannot marshal") end);
  parse ← asking "template parse error" (call (Pack (TemplateParse (ProcessYAMLGoTemp (YamlMarshal spec)) templateValues)));
  j ← either "unmarshal spec error" (YAMLToJSON parse);
  sp ← either "unmarshal spec error" (match decode_operator_spec DecodeRule j (mo_spec o) with
                                      | Some sp => Ok sp | None => Err (new_error "cannot unmarshal") end);
  becomes (on_spec (λ _, sp)).
(** [renderOperatorWithBaseline], internal/service/middlewareoperator/middlewareoperator.go *)
Definition renderOperatorWithBaseline (o : operator) : aprog (option error * operator) := r ← render_operator o; Ret (ended r).
End Programs.

(** ** What hydration restores *)

(** The same object with other labels, annotations, configurations, permissions,
    scope and global values: what a hydration may change. *)
Definition restored_only (o o' : operator) : Prop :=
  o' = with_meta (mo_labels o') (mo_annotations o')
         (let sp := mo_spec o' in
          MiddlewareOperatorSpec (op_baseline (mo_spec o)) (op_globe sp) (op_preActions (mo_spec o)) (op_permissionScope sp) (op_permissions sp)
            (op_deployment (mo_spec o)) (op_configurations sp)) o.

Section Restored.
Context `{!JsonLib, !YamlLib, !PackageFormat, !MapOrder} (DecodeRule : json → json → option json).
Context (apiReader : bool) (DataNamespace : string) (step : gmap string json).
Implicit Types (o : operator) (l : list aevent).

Lemma restored_only_refl o : restored_only o o.
Proof. by destruct o as [???????? [] ?]. Qed.
Lemma restored_only_trans o1 o2 o3 : restored_only o1 o2 → restored_only o2 o3 → restored_only o1 o3.
Proof. unfold restored_only. intros E1 E2. rewrite E2. cbn. rewrite E1. by destruct o1. Qed.

(** A program that only changes what may be changed, whatever its outcome. *)
Definition keeps {A} (p : opM A) : Prop := ∀ o l r, Prog.outcome (p o) l r → restored_only o r.2.

Lemma keeps_opM_bind {A B} (p : opM A) (f : A → opM B) : keeps p → (∀ a, keeps (f a)) → keeps (p ≫= f).
Proof.
  intros Hp Hf o l r (l1 & l2 & [[a|e] o1] & -> & Ho & Ho')%outcome_bind.
  - eapply restored_only_trans; [by apply (Hp _ _ _ Ho)|by apply (Hf _ _ _ _ Ho')].
  - destruct Ho' as [_ ->]. apply (Hp _ _ _ Ho).
Qed.
Lemma keeps_asking {A} msg (p : aprog (result error A)) : keeps (asking msg p).
Proof. intros o l r (l1 & l2 & a & -> & _ & [_ ->])%outcome_bind. apply restored_only_refl. Qed.
Lemma keeps_doing {A} (p : aprog A) : keeps (doing p).
Proof. intros o l r (l1 & l2 & a & -> & _ & [_ ->])%outcome_bind. apply restored_only_refl. Qed.
Lemma keeps_now : keeps operator_now.
Proof. intros o l r [_ ->]. apply restored_only_refl. Qed.
Lemma keeps_becomes f : (∀ o, restored_only o (f o)) → keeps (becomes f).
Proof. intros Hf o l r [_ ->]. apply Hf. Qed.

Ltac keeps_step :=
  lazymatch goal with
  | |- keeps (_ ≫= _) => apply keeps_opM_bind; [|intros]
  | |- keeps operator_now => apply keeps_now
  | |- keeps (asking _ _) => apply keeps_asking
  | |- keeps (either _ _) => apply keeps_asking
  | |- keeps (doing _) => apply keeps_doing
  | |- keeps (becomes _) => apply keeps_becomes; intros [???????? [] ?]; reflexivity
  end.

Lemma hydrate_keeps : keeps (hydrate_context DecodeRule apiReader DataNamespace step).
Proof. unfold hydrate_context. repeat keeps_step. Qed.

Lemma hydrate_restored o l r : Prog.outcome (hydrateDeleteContext DecodeRule apiReader DataNamespace step o) l r → restored_only o r.2.
Proof. intros (l1 & l2 & a & -> & Ho & [_ ->])%outcome_bind. by apply (hydrate_keeps _ _ _ Ho). Qed.

(** *** Successful runs *)

Lemma bind_ok {A B} (p : opM A) (f : A → opM B) o l b o' : Prog.outcome ((p ≫= f) o) l (Ok b, o') →
  ∃ l1 l2 a o1, l = l1 ++ l2 ∧ Prog.outcome (p o) l1 (Ok a, o1) ∧ Prog.outcome (f a o1) l2 (Ok b, o').
Proof. intros (l1 & l2 & [[a|e] o1] & -> & Ho & Ho')%outcome_bind; [by exists l1, l2, a, o1|by destruct Ho']. Qed.
Lemma asking_ok {A} msg (p : aprog (result error A)) o l a o' : Prog.outcome (asking msg p o) l (Ok a, o') →
  o' = o ∧ Prog.outcome p l (Ok a).
Proof. intros (l1 & l2 & [x|e] & -> & Ho & [-> [= <- <-]])%outcome_bind. by rewrite app_nil_r. Qed.
Lemma either_ok {A} msg (r : result error A) o l a o' : Prog.outcome (either msg r o) l (Ok a, o') → l = [] ∧ o' = o ∧ r = Ok a.
Proof. intros [-> [-> <-]]%asking_ok. done. Qed.
Lemma doing_ok {A} (p : aprog A) o l a o' : Prog.outcome (doing p o) l (Ok a, o') → o' = o ∧ Prog.outcome p l a.
Proof. intros (l1 & l2 & x & -> & Ho & [-> [= <- <-]])%outcome_bind. by rewrite app_nil_r. Qed.

(** The name that a permission gets: as the template engine renders it, or its
    own when it is no template or cannot be rendered. *)
Definition rendered_name (tv : template_values) l (p p' : permission) : Prop :=
  pm_rules p' = pm_rules p ∧
  if contains "{{" (pm_serviceAccountName p)
  then ∃ r, Ev (Pack (TemplateParse (pm_serviceAccountName p) tv)) r ∈ l ∧
       pm_serviceAccountName p' = match r with Ok s => TrimSpace s | Err _ => pm_serviceAccountName p end
  else pm_serviceAccountName p' = pm_serviceAccountName p.

Lemma rendered_name_more tv l l' p p' : rendered_name tv l p p' → l ⊆ l' → rendered_name tv l' p p'.
Proof.
  intros [Hr Hn] Hsub. split; [done|]. destruct (contains "{{" _); [|done]. destruct Hn as (r & Hin & ?). exists r. split; [by apply Hsub|done].
Qed.

Lemma names_rendered ps tv l ps' : Prog.outcome (render_names ps tv) l ps' → Forall2 (rendered_name tv l) ps ps'.
Proof.
  revert l ps'. induction ps as [|p ps IH]; intros l ps'; cbn [render_names]; [by intros [_ ->]|].
  intros (l1 & l2 & p' & -> & Hp & (l3 & l4 & rest & -> & Hrest & [-> ->])%outcome_bind)%outcome_bind. rewrite app_nil_r. constructor.
  - unfold rendered_name. destruct (contains "{{" _); [|by destruct Hp as [_ ->]].
    apply outcome_bind in Hp as (l5 & l6 & r & -> & ->%outcome_call & [-> ->]). split; [by destruct r|]. exists r.
    split; [by left|by destruct r].
  - eapply list.Forall2_impl; [by apply IH|]. intros q q' Hq. eapply rendered_name_more; [exact Hq|].
    intros e He. apply elem_of_app. by right.
Qed.

(** C14: What the deletion of an operator works on.  A hydration that ends
    without an error has read the operator's baseline; the permissions are
    those of the baseline merged with the operator's own, in their order and
    with their rules, each under the name that its template renders to with the
    operator's values; the configurations are merged with the baseline's; the
    operator's labels, annotations, known scope and global values stay, and the
    baseline's fill in the rest.  However it ends, nothing else of the operator
    is changed: its baseline, pre-actions, deployment, identity and status stay. *)
Theorem deletion_restored {W} (h : handler acall W) (w : W) o :
  let '((err, o'), l) := run h (hydrateDeleteContext DecodeRule apiReader DataNamespace step o) w in
  restored_only o o' ∧
  (err = None → ∃ lb baseline merged tv, Prog.outcome (baseline_of_operator apiReader DataNamespace o) lb (Ok baseline) ∧ lb ⊆ l ∧
    let bs := operator_baseline_spec_of DecodeRule baseline in
    merge_permissions DecodeRule (obs_permissions bs) (op_permissions (mo_spec o)) = Ok merged ∧
    (∃ lt, Prog.outcome (GetTemplateValues step (operator_quoter o)) lt (Ok tv) ∧ lt ⊆ l) ∧
    Forall2 (rendered_name tv l) merged (op_permissions (mo_spec o')) ∧
    mo_labels o' = mo_labels o ∪ co_labels baseline ∧ mo_annotations o' = mo_annotations o ∪ co_annotations baseline ∧
    op_permissionScope (mo_spec o') =
      (if decide (op_permissionScope (mo_spec o) ∈ ["Unknown"; ""]) then obs_permissionScope bs else op_permissionScope (mo_spec o)) ∧
    op_globe (mo_spec o') =
      (if decide (default "" (op_globe (mo_spec o)) = "" ∧ obs_globe bs ≠ None) then obs_globe bs else op_globe (mo_spec o)) ∧
    merge_configurations (obs_configurations bs) (op_configurations (mo_spec o)) = Ok (op_configurations (mo_spec o'))).
Proof.
  pose proof (holds_run_pair h (hydrateDeleteContext DecodeRule apiReader DataNamespace step o) w
    (λ tr res, Prog.outcome (hydrateDeleteContext DecodeRule apiReader DataNamespace step o) tr res)) as Hr.
  destruct (run h _ w) as [[err o'] l]. assert (Ho := Hr (proj2 (holds_outcome _ [] _) ltac:(done))). clear Hr.
  split; [apply (hydrate_restored _ _ _ Ho)|]. intros ->.
  apply outcome_bind in Ho as (l1 & l2 & [[[]|e] o1] & -> & Ho & [-> [= <-]]). rewrite app_nil_r. rename l1 into l.
  unfold hydrate_context in Ho.
  apply bind_ok in Ho as (? & ? & ? & ? & -> & [-> [= -> ->]] & Ho).
  apply bind_ok in Ho as (lb & ? & baseline & ? & -> & [-> Hb]%asking_ok & Ho).
  apply bind_ok in Ho as (? & ? & c & ? & -> & (-> & -> & Hc)%either_ok & Ho).
  apply bind_ok in Ho as (? & ? & ? & ? & -> & [-> [= -> ->]] & Ho).
  apply bind_ok in Ho as (? & ? & merged & ? & -> & (-> & -> & Hm)%either_ok & Ho).
  apply bind_ok in Ho as (? & ? & ? & ? & -> & [-> [= -> ->]] & Ho).
  apply bind_ok in Ho as (? & ? & ? & ? & -> & [-> [= -> ->]] & Ho).
  apply bind_ok in Ho as (lt & ? & tv & ? & -> & [-> Ht]%asking_ok & Ho).
  apply bind_ok in Ho as (lr & ? & named & ? & -> & [-> Hn]%doing_ok & Ho).
  apply bind_ok in Ho as (? & ? & ? & ? & -> & [-> [= -> ->]] & Ho).
  apply bind_ok in Ho as (? & ? & labels & ? & -> & (-> & -> & Hl)%either_ok & Ho).
  apply bind_ok in Ho as (? & ? & ? & ? & -> & [-> [= -> ->]] & Ho).
  apply bind_ok in Ho as (? & ? & annotations & ? & -> & (-> & -> & Ha)%either_ok & Ho).
  apply bind_ok in Ho as (? & ? & ? & ? & -> & [-> [= -> ->]] & [-> [= ->]]).
  rewrite merge_labels_union in Hl, Ha. injection Hl as <-. injection Ha as <-. simpl app. rewrite app_nil_r.
  exists lb, baseline, merged, tv. cbv zeta. split_and!; [done|set_solver|exact Hm|exists lt; split; [done|set_solver]| |done|done| | |exact Hc].
  - eapply list.Forall2_impl; [by apply names_rendered|]. intros p p' Hp. eapply rendered_name_more; [exact Hp|set_solver].
  - cbn. case_decide as Hd; rewrite elem_of_cons, list_elem_of_singleton in Hd.
    + destruct Hd as [-> | ->]; [done|]. by destruct (String.eqb "" "Unknown").
    + destruct (String.eqb_spec (op_permissionScope (mo_spec o)) "Unknown"), (String.eqb_spec (op_permissionScope (mo_spec o)) ""); tauto || done.
  - cbn. destruct (String.eqb_spec (default "" (op_globe (mo_spec o))) ""), (obs_globe (operator_baseline_spec_of DecodeRule baseline));
      case_decide as Hd; try done; destruct Hd; done.
Qed.
End Restored.

(** ** Rendering an operator only reads *)

Section OperatorReads.
Context `{!JsonLib, !YamlLib, !PackageFormat, !MapOrder} (DecodeRule : json → json → option json).
Context (apiReader : bool) (DataNamespace : string) (step : gmap string json).

Definition only_env {A} (p : opM A) : Prop := ∀ o, only env_reads (p o).

Lemma env_opM_bind {A B} (p : opM A) (f : A → opM B) : only_env p → (∀ a, only_env (f a)) → only_env (p ≫= f).
Proof. intros Hp Hf o. apply only_bind; [apply Hp|]. intros [[a|e] o']; [apply Hf|apply only_ret]. Qed.
Lemma env_asking {A} msg (p : aprog (result error A)) : only env_reads p → only_env (asking msg p).
Proof. intros Hp o. apply only_bind; [exact Hp|]. intros. apply only_ret. Qed.
Lemma env_doing {A} (p : aprog A) : only env_reads p → only_env (doing p).
Proof. intros Hp o. apply only_bind; [exact Hp|]. intros. apply only_ret. Qed.

Ltac env_step :=
  lazymatch goal with
  | |- only_env (_ ≫= _) => apply env_opM_bind; [|intros]
  | |- only_env operator_now => intros ?; apply only_ret
  | |- only_env (becomes _) => intros ?; apply only_ret
  | |- only_env (asking _ _) => apply env_asking
  | |- only_env (either _ _) => apply env_asking, only_ret
  | |- only_env (doing _) => apply env_doing
  | |- only _ (Ret _) => apply only_ret
  | |- only _ (pure _) => apply only_ret
  | |- only _ (call _) => apply only_call; intros; exact I
  | |- only _ (try _ _) => unfold try
  | |- only _ (match ?x with _ => _ end) => destruct x
  | |- only _ (_ ≫= _) => apply only_bind; [|intros]
  end.

Lemma operator_baseline_env o : only env_reads (baseline_of_operator apiReader DataNamespace o).
Proof. eapply only_embed; [apply lookup_reads|]. by intros l [R c r] l' Hr. Qed.
Lemma operator_values_env q : only env_reads (GetTemplateValues step q).
Proof. unfold GetTemplateValues. repeat env_step. Qed.
Lemma render_names_env ps tv : only env_reads (render_names ps tv).
Proof. induction ps as [|p ps IH]; cbn [render_names]; repeat (exact IH || env_step). Qed.

Lemma hydrate_env o : only env_reads (hydrateDeleteContext DecodeRule apiReader DataNamespace step o).
Proof.
  apply only_bind; [|intros; apply only_ret]. revert o. change (only_env (hydrate_context DecodeRule apiReader DataNamespace step)).
  unfold hydrate_context. repeat (apply operator_baseline_env || apply operator_values_env || apply render_names_env || env_step).
Qed.
Lemma render_operator_env o : only env_reads (renderOperatorWithBaseline DecodeRule apiReader DataNamespace step o).
Proof.
  apply only_bind; [|intros; apply only_ret]. revert o. change (only_env (render_operator DecodeRule apiReader DataNamespace step)).
  unfold render_operator. repeat (apply operator_baseline_env || apply operator_values_env || env_step).
Qed.
End OperatorReads.

(** ** Examples *)

Section Demo.
#[local] Existing Instance coded_json.
#[local] Existing Instance coded_yaml.
Definition any_rule (j _ : json) : option json := Some j.
Definition name_template : string := "{{ .Globe.repository }}-sa".
Definition baseline_with (preActions : list json) : catalog_object :=
  CatalogObject "redis-operator" 1 {[LabelPackageName := "redis-1"; "tier" := "cache"]} ∅ None
    (MiddlewareOperatorBaselineSpec []
       (JObj {["globe" := JObj {["repository" := JStr "acme"]}; "permissionScope" := JStr "Cluster";
               "permissions" := JArr [JObj {["serviceAccountName" := JStr name_template; "rules" := JArr [JStr "get pods"]]}];
               "preActions" := JArr preActions]}))
    (CatalogStatus 0 [] "").
Definition demo_operator_baseline : catalog_object :=
  baseline_with [JObj {["name" := JStr "tune"; "fixed" := JBool true; "parameters" := JObj {["size" := JStr "1"]}]}].
Definition demo_rendered_operator (preActions : list pre_action) : operator :=
  MiddlewareOperator "redis-op" "prod" "uid-o" 1 None {[LabelPackageName := "redis-1"]} ∅ []
    (MiddlewareOperatorSpec "redis-operator" None preActions "" [] "" []) (MiddlewareOperatorStatus 0 [] "" ∅ "" "" false "" [] 0).

(** An engine that knows the one template. *)
Definition expand (tv : template_values) (s : string) : string :=
  if String.eqb s name_template
  then (match tv_globe tv !! "repository" with Some (JStr r) => r | _ => "<no value>" end) +:+ "-sa" else s.
Fixpoint expand_json (tv : template_values) (j : json) : json :=
  match j with
  | JStr s => JStr (expand tv s)
  | JArr l => JArr (expand_json tv <$> l)
  | JObj m => JObj (expand_json tv <$> m)
  | j => j
  end.
Definition operator_world (baseline : catalog_object) : handler acall unit := λ R c w,
  (match c in acall R return R → R with
   | Pack c => match c in pcall R return R → R with
               | CatalogGet _ _ => λ _, Ok baseline
               | TemplateParse t tv => λ _, Ok (match uncode_yaml t with Ok j => code_yaml (expand_json tv j) | Err _ => expand tv t end)
               | _ => id
               end
   | _ => id
   end (demo_world (publishing ∅ None) (demo_secret_2 ∅ ∅) None quiet_children R c w).1, w).
Definition account_names (o : operator) : list string := pm_serviceAccountName <$> op_permissions (mo_spec o).
Definition applied (o : operator) : operator :=
  (run (operator_world demo_operator_baseline) (@renderOperatorWithBaseline _ _ (demo_format demo_files) list_order any_rule true "default" ∅ o) tt).1.2.
Definition hydrated (o : operator) : operator :=
  (run (operator_world demo_operator_baseline) (@hydrateDeleteContext _ (demo_format demo_files) list_order any_rule true "default" ∅ o) tt).1.2.

(** Both fill in what the operator leaves open. *)
Example operator_filled :
  let o := applied (demo_rendered_operator []) in let d := hydrated (demo_rendered_operator []) in
  op_permissionScope (mo_spec o) = "Cluster" ∧ (mo_labels o) !! "tier" = Some "cache" ∧ pm_rules <$> op_permissions (mo_spec o) = [[JStr "get pods"]] ∧
  op_permissionScope (mo_spec d) = "Cluster" ∧ (mo_labels d) !! "tier" = Some "cache" ∧ pm_rules <$> op_permissions (mo_spec d) = [[JStr "get pods"]].
Proof. by vm_compute. Qed.

(** The names are rendered before the baseline's global values are filled in:
    what uses them gets another name when it is deleted than when it was created. *)
Example deleted_under_another_name :
  account_names (applied (demo_rendered_operator [])) = ["acme-sa"] ∧
  account_names (hydrated (demo_rendered_operator [])) = ["<no value>-sa"].
Proof. by vm_compute. Qed.

(** The merge of the whole spec has merged the pre-actions already, also those
    that are fixed. *)
Example fixed_pre_action_overridden :
  let mine := PreAction "tune" false false (Marshal (JObj {["size" := JStr "9"]})) in
  let o := applied (demo_rendered_operator [mine]) in
  (λ p, Unmarshal (pa_parameters p)) <$> op_preActions (mo_spec o) = [Some (JObj {["size" := JStr "9"]})].
Proof. by vm_compute. Qed.

(** A deletion with an operator that has names of its own. *)
Lemma deletion_restored_witness :
  op_permissionScope (mo_spec (hydrated (demo_rendered_operator []))) = "Cluster" ∧
  restored_only (demo_rendered_operator []) (hydrated (demo_rendered_operator [])).
Proof.
  split; [by vm_compute|].
  pose proof (@deletion_restored _ (demo_format demo_files) list_order any_rule true "default" ∅ unit (operator_world demo_operator_baseline) tt
    (demo_rendered_operator [])) as Hr.
  unfold hydrated. destruct (run _ _ _) as [[err o'] l]. exact (proj1 Hr).
Defined.
End Demo.
