(* ===== verification/OperatorSystem.v ===== *)
(** * The operator controller with its components

    The calls of [OperatorController.handleMiddlewareOperator] run as the
    programs of [RbacClients], [OperatorRender], [PreActions] and [Packages], so
    that one pass over an operator is one sequence of requests. *)
From Stdlib Require Import ZArith Lia.
From stdpp Require Import base gmap strings list option.
From S2P Require Import Prelude Labels Conditions Prog Errors Middleware Json Adoption JsonTools IntentMerge IntentRecord Catalog Packages MiddlewareRender MiddlewareController ActionReport Actions Operator OperatorUpgrade OperatorResources OperatorController RbacClients PreActions OperatorRender.

(** ** For which operator the RBAC objects are *)

(** What RBAC objects are for depends on the spec, the labels, the UID and the
    namespace. *)
Definition same_content (o o' : operator) : Prop :=
  mo_spec o' = mo_spec o ∧ mo_labels o' = mo_labels o ∧ mo_uid o' = mo_uid o ∧ mo_namespace o' = mo_namespace o.
Lemma same_content_trans o1 o2 o3 : same_content o1 o2 → same_content o2 o3 → same_content o1 o3.
Proof. intros (? & ? & ? & ?) (? & ? & ? & ?). split_and!; congruence. Qed.
Lemma same_object_content o o' : same_object o o' → same_content o o'.
Proof. intros (-> & _). by destruct o. Qed.
Lemma asked_same a o o' r : same_content o o' → asked a o' r → asked a o r.
Proof.
  intros (Hs & Hl & Hu & Hn) (p & Hp & Hr). exists p. split; [by rewrite <- Hs|].
  unfold rbac_objects, rbac_of in *. by rewrite Hs, Hl, Hu, Hn in Hr.
Qed.

(** RBAC objects are written for the operator as the pre-actions left it, and
    deleted for the operator as it was hydrated; pre-actions run only for an
    operator that was read alive, with the finalizer and not suspended. *)
Definition alive (l : list oevent) (o : operator) : Prop :=
  first_op_read l = Some o ∧ mo_deletionTimestamp o = None ∧
  FinalizerMiddlewareOperator ∈ mo_finalizers o ∧ IsReconcileSuspended (mo_annotations o) = false.
Definition sourced (l : list oevent) (e : oevent) : Prop :=
  match e with Ev c _ => match c with
  | Operator.HandlePreActions _ => ∃ o, alive l o
  | RbacCreate r => ∃ o0 o', Ev (Operator.HandlePreActions o0) (None, o') ∈ l ∧ asked HandleActionPublish o' r
  | RbacCreateOrUpdate r => ∃ o0 o', Ev (Operator.HandlePreActions o0) (None, o') ∈ l ∧ asked HandleActionUpdate o' r
  | RbacDelete r => ∃ o0 o', Ev (HydrateDeleteContext o0) (None, o') ∈ l ∧ asked HandleActionDelete o' r
  | _ => True
  end end.
(** Other calls. *)
Definition inert (_ : list oevent) (e : oevent) : Prop :=
  match e with Ev c _ => match c with
  | Operator.HandlePreActions _ | RbacCreate _ | RbacCreateOrUpdate _ | RbacDelete _ => False
  | _ => True
  end end.

Section Sources.
Context `{!MetaConditions, !ControllerUtil, !RetryOnConflict ocall error is_conflict}.
Context (reader : bool) (now : Z) (ControllerReference : operator → option error).
Context (UnmarshalDeployment : string → result error operator_deployment).
Implicit Types (o : operator) (tr l : list oevent).

Lemma inert_sourced l l' e : inert l' e → sourced l e.
Proof. destruct e as [R c r]. by destruct c. Qed.

Ltac inert_step :=
  lazymatch goal with
  | |- only _ (Ret _) => apply only_ret
  | |- only _ (call _) => by apply only_call
  | |- only _ (retry _ _) => apply only_retry; intros
  | |- only _ (match ?x with _ => _ end) => destruct x
  | |- only _ (_ ≫= _) => apply only_bind; [|intros]
  end.

Lemma status_inert o : only inert (UpdateMiddlewareOperatorStatus reader o).
Proof. unfold UpdateMiddlewareOperatorStatus, read_for_status, GetMiddlewareOperator. repeat inert_step. Qed.
Lemma update_inert o : only inert (UpdateMiddlewareOperator o).
Proof. unfold UpdateMiddlewareOperator, GetMiddlewareOperator. repeat inert_step. Qed.
Lemma check_inert o : only inert (Check_operator reader now o).
Proof. unfold Check_operator. repeat (apply status_inert || inert_step). Qed.
Lemma unavailable_inert p live v r o : only inert (unavailable now p live v r o).
Proof. unfold unavailable, clearUpgradeAnnotation. repeat (apply update_inert || inert_step). Qed.
Lemma switch_inert p live v pk o : only inert (switch_package now p live v pk o).
Proof. unfold switch_package, GetMiddlewareOperator. repeat (apply unavailable_inert || apply update_inert || inert_step). Qed.
Lemma replace_inert o : only inert (ReplacePackage_operator reader now o).
Proof.
  unfold ReplacePackage_operator, upgrade_body, clearUpgradeAnnotation, GetMiddlewareOperator.
  repeat (apply unavailable_inert || apply switch_inert || apply update_inert || apply status_inert || inert_step).
Qed.
Lemma context_inert o : only inert (operator_delete_context o).
Proof. unfold operator_delete_context. destruct (operator_legacy_fallback o). repeat inert_step. Qed.
Lemma removal_inert o : only inert (remove_operator_finalizer o).
Proof. unfold remove_operator_finalizer. repeat inert_step. Qed.
Lemma deployment_inert a o : only inert (build_deployment_body ControllerReference UnmarshalDeployment a o).
Proof.
  unfold build_deployment_body, CreateOrPatchDeployment, PatchDeployment, CreateDeployment, DeleteDeployment. repeat inert_step.
Qed.

(** A program of inert calls, whatever came before. *)
Lemma inert_spec {A} (p : oprog A) tr : only inert p → spec sourced p tr (λ _ _, True).
Proof. intros Hp. apply (only_spec inert); [done|]. intros l e _ He. by eapply inert_sourced. Qed.

Lemma report_spec t a err o tr : spec sourced (report_step reader now t a err o) tr (λ _ r, same_content o r.2).
Proof.
  unfold report_step. destruct (is_delete a); [apply spec_ret; by split_and!|].
  eapply spec_mono; [apply (UpdateStatus_spec reader sourced)|].
  - intros l e He. destruct e as [R c r]. by destruct c.
  - intros l e _ (now' & o' & _ & _ & He). destruct e as [R c r]. by destruct c.
  - intros tr' r _ Hs%same_object_content. eapply same_content_trans; [|exact Hs]. by destruct o.
Qed.

(** The operator that an action's RBAC objects are for. *)
Definition source_of a (l : list oevent) o : Prop :=
  ∃ o0 o', Ev (if is_delete a then HydrateDeleteContext o0 else Operator.HandlePreActions o0) (None, o') ∈ l ∧ same_content o' o.

Lemma asks_sourced a o l e : source_of a l o → asks a o l e → sourced l e.
Proof.
  intros (o0 & o' & Hin & Hs) [Hp|Hr].
  - apply (inert_sourced l l). destruct e as [R c r]. destruct c; try done; by destruct Hp as [?|[? ?]].
  - destruct e as [R c x]. destruct c; try done; destruct Hr as [-> Hr]; exists o0, o'; (split; [done|by eapply asked_same]).
Qed.

Lemma source_more a l l' o o' : source_of a l o → l `prefix_of` l' → same_content o o' → source_of a l' o'.
Proof.
  intros (o0 & o1 & Hin & Hs) Hpre Hs'. exists o0, o1. split; [|by eapply same_content_trans].
  destruct Hpre as [k ->]. apply elem_of_app. by left.
Qed.

Lemma rbac_sourced a o tr : source_of a tr o →
  spec sourced (handleRBAC reader now ControllerReference a o) tr (λ _ r, same_content o r.2).
Proof.
  intros Hsrc. unfold handleRBAC. eapply (spec_bind _ _ _ (λ _ _, True)).
  - apply (only_spec (asks a (touch_condition now CondTypeApplyRBAC o))).
    + by apply permissions_ask.
    + intros l e Hpre. apply asks_sourced. eapply source_more; [exact Hsrc|exact Hpre|by split_and!].
  - intros tr1 errs _ _. eapply (spec_bind _ _ _ (λ _ r, same_content o r.2)).
    + eapply spec_mono; [apply report_spec|]. intros tr2 r _ Hs. eapply same_content_trans; [|exact Hs]. by destruct o.
    + intros tr2 [s o2] _ Hs. by apply spec_ret.
Qed.

Lemma extra_sourced a o tr :
  spec sourced (handleExtraResource_operator reader now a o) tr (λ _ r, same_content o r.2).
Proof.
  unfold handleExtraResource_operator. set (o1 := touch_condition _ _ _).
  eapply (spec_bind _ _ _ (λ _ r, same_content o1 r.2)).
  - destruct a; (eapply (spec_bind _ _ _ (λ _ _, True)); [by apply spec_call|]); intros tr1 r _ _;
      try destruct r; apply spec_ret; by split_and!.
  - intros tr1 [err o2] _ Hs. eapply spec_bind; [apply report_spec|]. intros tr2 [s o3] _ Hs'. apply spec_ret.
    eapply same_content_trans; [|exact Hs']. eapply same_content_trans; [|exact Hs]. by destruct o.
Qed.

Lemma handle_sourced a o tr : (is_delete a = false → ∃ o, alive tr o) →
  spec sourced (HandleResource_operator reader now ControllerReference UnmarshalDeployment a o) tr (λ _ _, True).
Proof.
  intros Halive. unfold HandleResource_operator.
  destruct (negb (is_delete a) && IsReconcileSuspended (mo_annotations o)); [by apply spec_ret|].
  destruct (is_delete a && IsNoOperatorResource o); [by apply spec_ret|].
  destruct (skipNoOperatorResource o) as [[e|] o1]; [by apply spec_ret|]. destruct (is_delete a) eqn:Ha.
  - assert (a = HandleActionDelete) as -> by (by destruct a). unfold delete_resources.
    eapply (spec_bind _ _ _ (λ tr' r, Ev (HydrateDeleteContext o1) r ∈ tr')).
    { apply spec_call; [done|]. intros r. apply elem_of_app. right. by left. }
    intros tr1 [[e|] o2] Hpre1 Hin; [by apply spec_ret|].
    eapply spec_bind; [apply extra_sourced|]. intros tr2 [[e|] o3] Hpre2 Hs3; [by apply spec_ret|].
    eapply spec_bind; [apply rbac_sourced|].
    { exists o1, o2. split; [|exact Hs3]. destruct Hpre2 as [k ->]. apply elem_of_app. by left. }
    intros tr3 [e4 o4] _ _. eapply (spec_bind _ _ _ (λ _ _, True)); [|intros; by apply spec_ret].
    apply inert_spec. unfold DeleteDeployment. repeat inert_step.
  - unfold apply_resources. destruct (condition_status now CondTypeChecked _) as [checked cs].
    destruct (decide (checked = ConditionTrue)) as [Hck|]; [|by apply spec_ret]. unfold and_then, TemplateParse_operator.
    set (o2 := on_status _ o1).
    eapply (spec_bind _ _ _ (λ tr' r, r.1 = None → ∃ o0 o', Ev (Operator.HandlePreActions o0) (None, o') ∈ tr' ∧ r.2 = o')).
    { eapply (spec_bind _ _ _ (λ tr' _, tr `prefix_of` tr')); [apply spec_call; [done|intros; by apply prefix_app_r]|].
      intros tr1 [[e|] o3] _ Hpre; [by apply spec_ret|].
      eapply (spec_bind _ _ _ (λ tr' r, Ev (Operator.HandlePreActions o3) r ∈ tr')).
      - apply spec_call; [|intros; apply elem_of_app; right; by left]. intros r. destruct (Halive eq_refl) as (o' & Hr & Hok).
        exists o'. split; [by eapply first_op_read_prefix|done].
      - intros tr2 [[e|] o4] _ Hin; apply spec_ret; [done|]. intros _. by exists o3, o4. }
    intros tr1 [[e|] o3] _ Hpre; [by apply spec_ret|]. destruct (Hpre eq_refl) as (o0 & o' & Hin & Heq). simpl in Heq. subst o'.
    eapply spec_bind; [apply extra_sourced|]. intros tr2 [[e|] o4] Hpre2 Hs4; [by apply spec_ret|]. simpl in Hs4.
    eapply spec_bind; [apply rbac_sourced|].
    { unfold source_of. rewrite Ha. exists o0, o3. split; [|exact Hs4]. destruct Hpre2 as [k ->]. apply elem_of_app. by left. }
    intros tr3 [[e|] o5] _ _; [by apply spec_ret|]. eapply (spec_bind _ _ _ (λ _ _, True)); [|intros ? [? ?] _ _; by apply spec_ret].
    unfold buildDeployment. eapply (spec_bind _ _ _ (λ _ _, True)); [apply inert_spec, deployment_inert|].
    intros tr4 err _ _. eapply (spec_bind _ _ _ (λ _ _, True)); [|intros ? [? ?] _ _; by apply spec_ret].
    eapply spec_mono; [apply report_spec|done].
Qed.

#[local] Opaque HandleResource_operator.

Lemma pass_sourced name ns : spec sourced (handleMiddlewareOperator reader now ControllerReference UnmarshalDeployment name ns) [] (λ _ _, True).
Proof.
  unfold handleMiddlewareOperator.
  eapply (spec_bind _ _ _ (λ tr r, match r with Ok o => first_op_read tr = Some o | Err _ => True end)).
  { unfold GetMiddlewareOperator. eapply (spec_bind _ _ _ (λ tr r, tr = [Ev (OpGet name ns) r])); [by apply spec_call|].
    intros tr [o|e] _ ->; [|by apply spec_ret]. eapply (spec_bind _ _ _ (λ tr _, first_op_read tr = Some o)); [|intros; by apply spec_ret].
    by apply spec_call. }
  intros tr [o|e] _ Hread; [|by apply spec_ret]. destruct (mo_deletionTimestamp o) eqn:Hdel.
  { destruct (ContainsFinalizer _ _); [|by apply spec_ret]. unfold delete_operator.
    eapply (spec_bind _ _ _ (λ _ _, True)); [apply inert_spec, context_inert|].
    intros tr1 [[[[cp|] legacy] reason] [e|]] _ _; try by apply spec_ret.
    eapply (spec_bind _ _ _ (λ _ _, True)); [by apply handle_sourced|]. intros tr2 [[e|] o2] _ _; [by apply spec_ret|].
    eapply (spec_bind _ _ _ (λ _ _, True)); [apply inert_spec, removal_inert|]. intros tr3 [e|] _ _; [by apply spec_ret|].
    eapply (spec_bind _ _ _ (λ _ _, True)); [by apply spec_call|intros; by apply spec_ret]. }
  destruct (ContainsFinalizer _ _) eqn:Hf; cbn [negb].
  2:{ eapply (spec_bind _ _ _ (λ _ _, True)); [by apply spec_call|intros; by apply spec_ret]. }
  apply contains_finalizer in Hf. destruct (IsReconcileSuspended (mo_annotations o)) eqn:Hs.
  { destruct (default _ _) as [cs changed]. eapply (spec_bind _ _ _ (λ _ _, True)); [|intros; by apply spec_ret].
    apply inert_spec. destruct changed; repeat (apply status_inert || inert_step). }
  eapply (spec_bind _ _ _ (λ _ _, True)).
  2:{ intros tr1 [retErr o1] _ _. eapply (spec_bind _ _ _ (λ _ _, True)); [apply inert_spec, status_inert|intros; by apply spec_ret]. }
  unfold operator_apply. eapply (spec_bind _ _ _ (λ tr' _, tr `prefix_of` tr')).
  { intros Htr. eapply holds_mono; [apply (inert_spec _ _ (check_inert o) Htr)|]. intros tr' a (? & ? & _). done. }
  intros tr1 [[e|] o1] Hpre1 _; [by apply spec_ret|].
  eapply (spec_bind _ _ _ (λ _ _, True)); [apply inert_spec, replace_inert|].
  intros tr2 [[e|] o2] Hpre2 _; [by apply spec_ret|]. destruct (IsNoOperatorResource o2); [by apply spec_ret|].
  assert (Hhandle : ∀ a what, spec sourced ('(err, o3) ← HandleResource_operator reader now ControllerReference UnmarshalDeployment a o2;
    Ret (match err with Some e => (Some (wrap_error what e), o3)
         | None => (None, clear_paused now (hasReconcilePaused (os_conditions (mo_status o))) o3) end)) tr2 (λ _ _, True)).
  { intros a what. eapply (spec_bind _ _ _ (λ _ _, True)); [|intros tr3 [err o3] _ _; by apply spec_ret].
    apply handle_sourced. intros _. exists o. split_and!; try done. eapply first_op_read_prefix; [exact Hread|]. by etrans. }
  destruct (_ =? 0)%Z; [apply Hhandle|]. destruct (_ || _ || _); [apply Hhandle|by apply spec_ret].
Qed.
End Sources.

(** ** The components' programs as calls of the whole

    [Cluster]: requests about RBAC objects, and the calls of the controller that
    are requests themselves ([OpCall]).  [Render]: what rendering, pre-actions and
    packages call. *)
Inductive ycall : Type → Type :=
  | Cluster {R} (c : kcall R) : ycall R
  | Render {R} (c : xcall R) : ycall R.
Abbreviation yprog := (prog ycall).
Abbreviation yevent := (event ycall).

Section System.
Context `{!JsonLib, !YamlLib, !PackageFormat, !MapOrder, !CueLib, !UrlLib, !MetaConditions, !ControllerUtil, !GoCmp}.
Context `{!RetryOnConflict pcall error is_conflict, !RetryOnConflict xcall error is_conflict,
          !RetryOnConflict ocall error is_conflict, !RetryOnConflict kcall error is_conflict}.
Context `{ObjectDecode, !SubjectCodec} (reader statusAPIReader apiReader : bool) (DataNamespace : string) (now : Z).
Context (DecodeRule : json → json → option json) (step : gmap string json).
Context (ControllerReference : operator → option error) (UnmarshalDeployment : string → result error operator_deployment).

Definition requesting {A} (p : kprog A) : yprog A := embed (@Cluster) p.
Definition rendering_with {A} (p : xprog A) : yprog A := embed (@Render) p.
Definition from_packages {A} (p : pprog A) : yprog A := rendering_with (catalog p).

(** The pre-actions of an operator leave an operator. *)
Definition run_preactions (o : operator) : xprog (option error * operator) :=
  '(err, s) ← PreActions.HandlePreActions statusAPIReader apiReader DataNamespace now (SOperator o);
  Ret (err, match s with SOperator o => o | SMiddleware _ => o end).

Definition implement_operator (R : Type) (c : ocall R) : yprog R :=
  match c in ocall R return yprog R with
  | RbacCreate r => requesting (create_rbac (live_of r))
  | RbacCreateOrUpdate r => requesting (create_or_update_rbac (live_of r))
  | RbacDelete r => requesting (delete_rbac (live_of r))
  | HydrateDeleteContext o => rendering_with (env (hydrateDeleteContext DecodeRule apiReader DataNamespace step o))
  | RenderWithBaseline o => rendering_with (env (renderOperatorWithBaseline DecodeRule apiReader DataNamespace step o))
  | Operator.HandlePreActions o => rendering_with (run_preactions o)
  | ListCompatiblePackages component version =>
      r ← from_packages (ListCompatibleMiddlewarePackages {[LabelComponent := component; LabelPackageVersion := version]});
      Ret (match r : result error (list middleware_package) with Ok mps => Ok (mp_name <$> mps) | Err e => Err e end)
  | Operator.GetInstallStatus package => from_packages (Packages.GetInstallStatus DataNamespace package)
  | GetPackageEnabled package =>
      r ← from_packages (Get apiReader DataNamespace package);
      Ret (match r : result error Catalog.package with Ok pkg => Ok (pk_enabled pkg) | Err e => Err e end)
  | GetBaselineFromPackage name package =>
      r ← from_packages (GetMiddlewareOperatorBaseline apiReader DataNamespace name package);
      Ret (match r : result error catalog_object with Ok _ => None | Err e => Some e end)
  | c => call (Cluster (OpCall c))
  end.

(** One pass over an operator, with what it calls. *)
(** [handleMiddlewareOperator], internal/controller/middlewareoperator_controller.go *)
Definition operator_pass (name namespace : string) : yprog (option error) :=
  interp implement_operator (handleMiddlewareOperator reader now ControllerReference UnmarshalDeployment name namespace).

(** *** The requests among the calls *)

Definition op_of (e : yevent) : option oevent :=
  match e with Ev c r => match c in ycall R return R → option oevent with
  | Cluster c => match c in kcall R return R → option oevent with OpCall c => λ r, Some (Ev c r) | _ => λ _, None end
  | Render _ => λ _, None
  end r end.
Definition ops (l : list yevent) : list oevent := omap op_of l.
Definition request_of (e : yevent) : option kevent :=
  match e with Ev c r => match c in ycall R return R → option kevent with Cluster c => λ r, Some (Ev c r) | Render _ => λ _, None end r end.
Definition requests (l : list yevent) : list kevent := omap request_of l.

(** The operator as the pre-actions left it, and as it was hydrated. *)
Definition was_rendered (l : list yevent) (o : operator) : Prop :=
  ∃ o0 k, Prog.outcome (run_preactions o0) k (None, o) ∧ map (embedded (@Render)) k ⊆ l.
Definition was_restored (l : list yevent) (o0 o : operator) : Prop :=
  ∃ k, Prog.outcome (env (hydrateDeleteContext DecodeRule apiReader DataNamespace step o0)) k (None, o) ∧
    map (embedded (@Render)) k ⊆ l.

Definition dying (l : list oevent) (o : operator) : Prop :=
  first_op_read l = Some o ∧ is_Some (mo_deletionTimestamp o) ∧
  FinalizerMiddlewareOperator ∈ mo_finalizers o ∧ IsNoOperatorResource o = false.

(** The children of [o] were cleaned up: its own hydration, or that of what the
    cache fills in, was complete, and what it names is gone. *)
Definition operator_cleaned (o : operator) (l : list yevent) : Prop :=
  IsNoOperatorResource o = true ∨
  ∃ cp o', (cp = o ∨ ∃ cached, cp = operator_backfill o cached) ∧ (operator_requirements_met cp).1 = true ∧ was_restored l cp o' ∧
    Ev (DeleteRenderedConfigurations (touch_condition now CondTypeBuildExtraResource o')) None ∈ ops l ∧
    deployment_gone (mo_name o') (mo_namespace o') (ops l).

(** What precedes each call of the whole. *)
Definition pass_order (l : list yevent) (e : yevent) : Prop :=
  match e with Ev c x => match c in ycall R return R → Prop with
  | Cluster c => λ x, match c with
      | KGet _ => True
      | KCreate _ | KUpdate _ => (∃ o, alive (ops l) o) ∧
          ∃ a o' r, was_rendered l o' ∧ asked a o' r ∧ request_for a (live_of r) (requests l) (Ev c x)
      | KDelete _ => (∃ o, dying (ops l) o) ∧
          ∃ o0 o' r, was_restored l o0 o' ∧ asked HandleActionDelete o' r ∧ request_for HandleActionDelete (live_of r) (requests l) (Ev c x)
      | OpCall c => match c with
          | ReconcileConfigurations _ _ _ | DepCreate _ | DepUpdate _ | DepPatch _ _ => ∃ o, alive (ops l) o
          | DeleteRenderedConfigurations _ | DepDelete _ => ∃ o, dying (ops l) o
          | OpUpdate new => finalizer_kept (ops l) new ∨
              ∃ o, first_op_read (ops l) = Some o ∧ is_Some (mo_deletionTimestamp o) ∧ operator_cleaned o l
          | _ => True
          end
      end
  | Render c => λ x, quiet (Ev c x) ∨ is_command (Ev c x) = true ∧ ∃ o, alive (ops l) o
  end x end.
End System.

(** ** Every pass keeps the order *)

Section SystemProofs.
Context `{!JsonLib, !YamlLib, !PackageFormat, !MapOrder, !CueLib, !UrlLib, !MetaConditions, !ControllerUtil, !GoCmp}.
Context `{!RetryOnConflict pcall error is_conflict, !RetryOnConflict xcall error is_conflict,
          !RetryOnConflict ocall error is_conflict, !RetryOnConflict kcall error is_conflict}.
Context `{ObjectDecode, !SubjectCodec} (reader statusAPIReader apiReader : bool) (DataNamespace : string) (now : Z).
Context (DecodeRule : json → json → option json) (step : gmap string json).
Context (ControllerReference : operator → option error) (UnmarshalDeployment : string → result error operator_deployment).
Implicit Types (l k : list yevent) (trE : list oevent).
Abbreviation impl := (implement_operator statusAPIReader apiReader DataNamespace now DecodeRule step).
Abbreviation order := (pass_order statusAPIReader apiReader DataNamespace now DecodeRule step).
Abbreviation rendered_in := (was_rendered statusAPIReader apiReader DataNamespace now).
Abbreviation restored_in := (was_restored apiReader DataNamespace DecodeRule step).

(** Calls that are requests themselves. *)
Definition passes (e : oevent) : bool :=
  match e with Ev c _ => match c with
  | RbacCreate _ | RbacCreateOrUpdate _ | RbacDelete _ | HydrateDeleteContext _ | RenderWithBaseline _ | Operator.HandlePreActions _
  | ListCompatiblePackages _ _ | Operator.GetInstallStatus _ | GetPackageEnabled _ | GetBaselineFromPackage _ _ => false
  | _ => true
  end end.

Lemma requests_cluster (k : list kevent) : requests (map (embedded (@Cluster)) k) = k.
Proof. induction k as [|[R c r] k IH]; [done|]. simpl. by rewrite IH. Qed.
Lemma ops_render (k : list xevent) : ops (map (embedded (@Render)) k) = [].
Proof. induction k as [|[R c r] k IH]; done. Qed.
Lemma ops_requests w a (k : list kevent) : each (request_for a w) k → ops (map (embedded (@Cluster)) k) = [].
Proof.
  induction k as [|[R c r] k IH] using rev_ind; [done|]. intros [Hall He]%each_snoc.
  rewrite map_app. unfold ops. rewrite omap_app. fold (ops (map (embedded (@Cluster)) k)). rewrite (IH Hall). by destruct c.
Qed.

(** What a call that is no request itself is run as. *)
Definition run_as (c : oevent) l : Prop :=
  (∃ a r (k : list kevent), l = map (embedded (@Cluster)) k ∧ each (request_for a (live_of r)) k ∧
     match c with Ev c _ => match c with
     | RbacCreate r' => a = HandleActionPublish ∧ r' = r
     | RbacCreateOrUpdate r' => a = HandleActionUpdate ∧ r' = r
     | RbacDelete r' => a = HandleActionDelete ∧ r' = r
     | _ => False end end) ∨
  (∃ k : list xevent, l = map (embedded (@Render)) k ∧
     ∀ e, e ∈ k → quiet e ∨ is_command e = true ∧ match c with Ev c _ => match c with Operator.HandlePreActions _ => True | _ => False end end).

Definition placed (c : oevent) : Prop :=
  match c with Ev c _ => match c with
  | RbacCreate r | RbacCreateOrUpdate r | RbacDelete r => well_placed (live_of r) | _ => True end end.

Lemma quiet_run (c : oevent) {A} (p : xprog A) l x :
  only (λ _ e, quiet e) p → Prog.outcome (rendering_with p) l x → run_as c l.
Proof.
  intros Hp (k & -> & Hk)%outcome_embed. right. exists k. split; [done|]. intros e (k1 & k2 & ->)%list_elem_of_split. left.
  exact (outcome_only _ _ _ _ Hp Hk k1 e k2 eq_refl).
Qed.

Lemma list_compatible_reads labels : only (λ _, pack_reads) (ListCompatibleMiddlewarePackages labels).
Proof. apply only_bind; [by apply only_call|intros; apply only_ret]. Qed.
Lemma status_reads package : only (λ _, pack_reads) (Packages.GetInstallStatus DataNamespace package).
Proof.
  unfold Packages.GetInstallStatus, GetSecret. apply only_bind; [|intros; apply only_ret].
  apply only_bind; [by apply only_call|]. intros [s|e]; [|apply only_ret]. apply only_bind; [by apply only_call|intros; apply only_ret].
Qed.
Lemma package_baseline_reads name package : only (λ _, pack_reads) (GetMiddlewareOperatorBaseline apiReader DataNamespace name package).
Proof. unfold GetMiddlewareOperatorBaseline. apply only_bind; [apply Get_reads|]. intros [pkg|e]; apply only_ret. Qed.

Lemma implemented {R} (c : ocall R) l x : placed (Ev c x) → Prog.outcome (impl R c) l x →
  if passes (Ev c x) then l = [Ev (Cluster (OpCall c)) x] else run_as (Ev c x) l.
Proof.
  intros Hpl Ho.
  assert (Hpkg : ∀ {A} (p : pprog A) (f : A → R), only (λ _, pack_reads) p →
    Prog.outcome (r ← from_packages p; Ret (f r)) l x → run_as (Ev c x) l).
  { intros A p f Hr (l1 & l2 & r & -> & Hp & [-> _])%outcome_bind. rewrite app_nil_r.
    eapply quiet_run; [by apply catalog_quiet|exact Hp]. }
  destruct c; cbn [implement_operator passes] in *; try (by apply outcome_call in Ho).
  - exact (Hpkg _ _ _ (list_compatible_reads _) Ho).
  - eapply quiet_run; [apply catalog_quiet, status_reads|exact Ho].
  - exact (Hpkg _ _ _ (Get_reads _ _ _) Ho).
  - exact (Hpkg _ _ _ (package_baseline_reads _ _) Ho).
  - eapply quiet_run; [apply env_quiet, hydrate_env|exact Ho].
  - eapply quiet_run; [apply env_quiet, render_operator_env|exact Ho].
  - apply outcome_embed in Ho as (k & -> & (k1 & k2 & [err s] & -> & Hk & [-> _])%outcome_bind). rewrite app_nil_r. right.
    exists k1. split; [done|]. intros e (j1 & j2 & Heq)%list_elem_of_split.
    destruct (outcome_spec _ _ _ _ _ (each_confined statusAPIReader apiReader DataNamespace now (preActions_of (SOperator o)) (SOperator o) []) Hk) as [Hall _].
    destruct (Hall j1 e j2 Heq) as [?|[_ ?]]; [by left|by right].
  - apply outcome_embed in Ho as (k & -> & Hk). left. exists HandleActionPublish, r, k. split_and!; try done.
    by destruct (outcome_spec _ _ _ _ _ (create_rbac_spec HandleActionPublish (live_of r) [] ltac:(done) ltac:(done)) Hk).
  - apply outcome_embed in Ho as (k & -> & Hk). left. exists HandleActionUpdate, r, k. split_and!; try done.
    by destruct (outcome_spec _ _ _ _ _ (create_or_update_spec (live_of r) [] Hpl) Hk).
  - apply outcome_embed in Ho as (k & -> & Hk). left. exists HandleActionDelete, r, k. split_and!; try done.
    by destruct (outcome_spec _ _ _ _ _ (delete_rbac_spec (live_of r) [] Hpl) Hk).
Qed.

Lemma run_as_ops c l : run_as c l → ops l = [].
Proof. intros [(a & r & k & -> & Hall & _)|(k & -> & _)]; [by eapply ops_requests|apply ops_render]. Qed.

Lemma segments_ops trE l : (∀ e, e ∈ trE → placed e) → segments impl trE l → ops l = List.filter passes trE.
Proof.
  intros Hpl Hs. induction Hs as [|R c r seg trE l Hc Hs IH]; [done|]. unfold ops. rewrite omap_app. fold (ops seg) (ops l).
  rewrite IH by (intros; apply Hpl; by right). pose proof (implemented c seg r (Hpl _ ltac:(by left)) Hc) as Hi. cbn [List.filter].
  destruct (passes (Ev c r)) eqn:Hp; [by subst seg|]. by rewrite (run_as_ops _ _ Hi).
Qed.

(** *** What is known of the controller's calls, of the requests *)

Lemma filter_first trE : first_op_read (List.filter passes trE) = first_op_read trE.
Proof.
  unfold first_op_read. f_equal. induction trE as [|[R c r] trE IH]; [done|]. cbn [List.filter].
  destruct (passes (Ev c r)) eqn:Hp; cbn [omap list_omap]; rewrite IH; [done|]. by destruct c.
Qed.
Lemma filter_in trE e : passes e = true → e ∈ trE → e ∈ List.filter passes trE.
Proof. intros Hp Hin. apply list_elem_of_In, filter_In. by rewrite <- list_elem_of_In. Qed.
Lemma filter_kept trE new : finalizer_kept trE new → finalizer_kept (List.filter passes trE) new.
Proof.
  intros (now' & (l' & name & ns & key & u & ->) & Hk). exists now'. split; [|done]. rewrite List.filter_app. cbn [List.filter passes].
  by exists (List.filter passes l'), name, ns, key, u.
Qed.
Lemma filter_gone name ns trE : deployment_gone name ns trE → deployment_gone name ns (List.filter passes trE).
Proof. intros [(e & ? & ?)|(d & r & ? & ? & ?)]; [left; exists e|right; exists d, r]; split_and!; try done; by apply filter_in. Qed.

(** *** Each call keeps the order *)

Lemma sourced_placed trE : each sourced trE → ∀ e, e ∈ trE → placed e.
Proof.
  intros Hall e (l1 & l2 & ->)%list_elem_of_split. pose proof (Hall l1 e l2 eq_refl) as Hs. destruct e as [R c x].
  destruct c; try done; destruct Hs as (o0 & o' & _ & Hr); by eapply asked_placed.
Qed.

Section Position.
Context (trE : list oevent) (l1 s1 s2 : list yevent) (e : yevent) {R : Type} (c : ocall R) (x : R).
Context (Hsourced : each sourced (trE ++ [Ev c x])) (Hsegments : segments impl trE l1).
Context (Houtcome : Prog.outcome (impl R c) (s1 ++ e :: s2) x).
Context (Hgated : operator_gated now trE (Ev c x)).

Lemma here_placed : (∀ e, e ∈ trE → placed e) ∧ placed (Ev c x) ∧ sourced trE (Ev c x).
Proof.
  split_and!.
  - intros. eapply sourced_placed; [exact Hsourced|]. apply elem_of_app. by left.
  - eapply sourced_placed; [exact Hsourced|]. apply elem_of_app. right. by left.
  - by apply (Hsourced trE (Ev c x) []).
Qed.

Lemma ops_here : ops (l1 ++ s1) = List.filter passes trE.
Proof.
  destruct here_placed as (Hpl & Hplc & _). unfold ops. rewrite omap_app. fold (ops l1) (ops s1).
  rewrite (segments_ops _ _ Hpl Hsegments). pose proof (implemented c _ x Hplc Houtcome) as Hi.
  destruct (passes (Ev c x)).
  - apply single in Hi as [-> _]. apply app_nil_r.
  - apply run_as_ops in Hi. unfold ops in Hi. rewrite omap_app in Hi. apply app_nil in Hi as [Hi _].
    unfold ops. by rewrite Hi, app_nil_r.
Qed.

Lemma alive_here o : alive trE o → alive (ops (l1 ++ s1)) o.
Proof. unfold alive. by rewrite ops_here, filter_first. Qed.
Lemma dying_here o : dying trE o → dying (ops (l1 ++ s1)) o.
Proof. unfold dying. by rewrite ops_here, filter_first. Qed.

Lemma segment_here {S} (c' : ocall S) y : Ev c' y ∈ trE → ∃ k, Prog.outcome (impl S c') k y ∧ k ⊆ l1 ++ s1.
Proof.
  intros Hin. destruct (segments_of _ _ _ _ _ Hsegments Hin) as (k & Ho & Hsub). exists k. split; [done|].
  intros e' He'. apply elem_of_app. left. by apply Hsub.
Qed.
Lemma rendered_here o0 o : Ev (Operator.HandlePreActions o0) (None, o) ∈ trE → rendered_in (l1 ++ s1) o.
Proof. intros Hin. destruct (segment_here _ _ Hin) as (k & (k' & -> & Ho)%outcome_embed & Hsub). by exists o0, k'. Qed.
Lemma restored_here o0 o : Ev (HydrateDeleteContext o0) (None, o) ∈ trE → restored_in (l1 ++ s1) o0 o.
Proof. intros Hin. destruct (segment_here _ _ Hin) as (k & (k' & -> & Ho)%outcome_embed & Hsub). by exists k'. Qed.

Lemma cleaned_here o : cleaned now o trE → operator_cleaned apiReader DataNamespace now DecodeRule step o (l1 ++ s1).
Proof.
  intros [?|(cp & o' & Hcp & Hmet & Hh & Hd & Hg)]; [by left|right]. exists cp, o'. split_and!; [done|done|by apply restored_here| |].
  - rewrite ops_here. by apply filter_in.
  - rewrite ops_here. by apply filter_gone.
Qed.

Lemma requests_here (k : list kevent) : s1 = map (embedded (@Cluster)) k → requests (l1 ++ s1) = requests l1 ++ k.
Proof. intros ->. unfold requests. rewrite omap_app. f_equal. apply requests_cluster. Qed.

(** A call of the controller that is a request itself. *)
Lemma direct_ordered : passes (Ev c x) = true → order (l1 ++ s1) (Ev (Cluster (OpCall c)) x).
Proof.
  intros Hp. destruct Hgated as (Hw & Hd & Hu).
  assert (Hchild : child_write (Ev c x) = true → ∃ o, alive (ops (l1 ++ s1)) o).
  { intros (o & Ho)%Hw. exists o. by apply alive_here. }
  assert (Hgone : child_delete (Ev c x) = true → ∃ o, dying (ops (l1 ++ s1)) o).
  { intros (o & Ho)%Hd. exists o. by apply dying_here. }
  pose proof ops_here as Hops. pose proof cleaned_here as Hcleaned. clear Hsourced Houtcome Hgated.
  destruct c; try done; try (by apply Hchild); try (by apply Hgone).
  destruct (Hu _ eq_refl) as [Hk|(od & Hr & Hdel & Hc)]; [left|right].
  - rewrite Hops. by apply filter_kept.
  - exists od. rewrite Hops, filter_first. split_and!; [done..|by apply Hcleaned].
Qed.

(** A request of one of the components. *)
Lemma component_request : run_as (Ev c x) (s1 ++ e :: s2) → order (l1 ++ s1) e.
Proof.
  destruct here_placed as (_ & _ & Hs). destruct Hgated as (Hw & Hd & _). pose proof requests_here as Hrequests.
  pose proof alive_here as Halive. pose proof dying_here as Hdying. pose proof rendered_here as Hrendered.
  pose proof restored_here as Hrestored. clear Hsourced Houtcome Hgated.
  intros [(a & r & k & Heq & Hall & Hc)|(k & Heq & Hall)].
  - symmetry in Heq. destruct (map_middle _ _ _ _ _ (eq_sym Heq)) as (k1 & [S kc y] & k2 & -> & Hs1 & ->).
    pose proof (Hall k1 (Ev kc y) k2 eq_refl) as Hq. pose proof (Hrequests k1 Hs1) as Hreq.
    pose proof (request_later _ _ _ (requests l1) _ Hq) as Hq'. rewrite <- Hreq in Hq'. clear Heq.
    assert (Hwrite : a ≠ HandleActionDelete → (∃ o, alive (ops (l1 ++ s1)) o) ∧ ∃ o', rendered_in (l1 ++ s1) o' ∧ asked a o' r).
    { intros Ha. destruct c; try done; destruct Hc as [-> ->]; try done; destruct Hs as (o0 & o' & Hin & Hr);
        (split; [destruct (Hw eq_refl) as (o & Ho); exists o; by apply Halive|exists o'; split; [by eapply Hrendered|done]]). }
    destruct kc; try done.
    + destruct Hwrite as (? & o' & ? & ?); [by destruct Hq|]. split; [done|]. exists a, o', r. auto.
    + destruct Hwrite as (? & o' & ? & ?); [by destruct Hq as [-> _]|]. split; [done|]. exists a, o', r. auto.
    + destruct Hq as [-> _]. destruct c; try done; destruct Hc as [? ->]; try done. destruct Hs as (o0 & o' & Hin & Hr). split.
      * destruct (Hd eq_refl) as (o & Ho). exists o. by apply Hdying.
      * exists o0, o', r. split_and!; [by apply Hrestored|done|done].
  - destruct (map_middle _ _ _ _ _ Heq) as (k1 & [S xc y] & k2 & -> & Hs1 & ->).
    destruct (Hall (Ev xc y)) as [Hq|[Hq Hc]]; [apply elem_of_app; right; by left|by left|right]. split; [done|].
    destruct c; try done. destruct Hs as [od Hod]. exists od. by apply Halive.
Qed.

Lemma call_ordered : order (l1 ++ s1) e.
Proof.
  destruct here_placed as (_ & Hplc & _). pose proof (implemented c _ x Hplc Houtcome) as Hi.
  pose proof direct_ordered as Hdirect. destruct (passes (Ev c x)) eqn:Hp; [|by apply component_request].
  destruct (single _ _ _ _ Hi) as [_ He]. rewrite He. by apply Hdirect.
Qed.
End Position.

End SystemProofs.

(** ** Runs at concrete inputs *)

Section Demo.
Import ObjectJson.
#[local] Existing Instance coded_json.
#[local] Existing Instance coded_yaml.
#[local] Existing Instance meta_by_list.
#[local] Existing Instance util_by_list.
#[local] Existing Instance list_order.
#[local] Instance pass_format : PackageFormat := demo_format demo_files.
#[local] Instance pass_url : UrlLib := {| StrippedURL s := Some s |}.
#[local] Instance pass_retry_package : RetryOnConflict pcall error is_conflict := bounded_retry is_conflict 4.
#[local] Instance pass_retry_action : RetryOnConflict xcall error is_conflict := bounded_retry is_conflict 4.
#[local] Instance pass_retry_operator : RetryOnConflict ocall error is_conflict := bounded_retry is_conflict 4.
#[local] Instance pass_retry_cluster : RetryOnConflict kcall error is_conflict := bounded_retry is_conflict 4.
#[local] Existing Instance demo_cue.
#[local] Existing Instance demo_decode.
#[local] Existing Instance demo_cmp.
#[local] Instance pass_subjects : SubjectCodec := {|
  EncodeSubject _ := Err (new_error "no subject");
  DecodeSubject _ s := (None, s);
  DecodeMiddleware _ := Err (new_error "no middleware");
  DecodeOperator _ := Err (new_error "no operator") |}.

(** A server with one operator, the package of its baseline and the RBAC objects created so far. *)
Definition pass_world (o : operator) : handler ycall store := λ R c s,
  match c in ycall R return R * store with
  | Cluster c => rbac_server o _ c s
  | Render c => (match c in xcall R return R with
      | Env c => (operator_world (baseline_with []) _ c tt).1
      | c => (demo_actions (demo_action [] "") [] None _ c tt).1
      end, s)
  end.
Definition pass_program : yprog (option error) :=
  operator_pass false true true "default" 7 any_rule ∅ (λ _, None) demo_deployment "redis-op" "prod".
Definition living (deleting : option Z) (annotations : gmap string string) : operator :=
  MiddlewareOperator "redis-op" "prod" "uid-o" 1 deleting {[LabelPackageName := "redis-1"]} annotations [FinalizerMiddlewareOperator]
    (MiddlewareOperatorSpec "redis-operator" None [] "" [] "{}" []) (MiddlewareOperatorStatus 0 [] "" ∅ "" "" false "" [] 0).
(** What a pass returns, what it creates and deletes, and what is stored after it. *)
Definition pass_of (o : operator) (s : store) : option err_kind * list (rbac_kind * string) * list (rbac_kind * string) :=
  let fix go {A} (p : yprog A) (s : store) : A * store :=
    match p with Ret r => (r, s) | Do c k => let '(x, s) := pass_world o _ c s in go (k x) s end in
  let '(err, s') := go pass_program s in
  (e_kind <$> err, omap (λ e, match e with Ev c _ => match c with
      | KCreate x => Some (rl_kind x, rl_name x) | KDelete k => Some (rk_kind k, rk_name k) | _ => None end end)
    (requests (run (pass_world o) pass_program s).2), (λ e, (rk_kind (fst e), rk_name (fst e))) <$> s').
Definition acme_roles : list (rbac_kind * string) := [(ServiceAccount, "acme-sa"); (ClusterRole, "acme-sa"); (ClusterRoleBinding, "acme-sa")].

(** A first publication creates what the baseline declares; a suspended
    operator is left alone. *)
Example published_and_suspended :
  pass_of (living None ∅) [] = (None, acme_roles, reverse acme_roles) ∧
  pass_of (living None {[AnnotationSuspendReconcile := "true"]}) [] = (Some OperatorReconcilePaused, [], []).
Proof. vm_compute. done. Qed.


(** The deletion looks for the objects under the names that templates have
    without the baseline's global values: what was created stays. *)
Definition published_store : store :=
  (λ x, (key_of x, x)) <$> omap (λ e, match e with Ev c _ => match c with KCreate x => Some x | _ => None end end)
    (requests (run (pass_world (living None ∅)) pass_program []).2).
Example roles_left_behind :
  pass_of (living (Some 3%Z) ∅) published_store = (None, [(ServiceAccount, "<no value>-sa")], acme_roles).
Proof. vm_compute. done. Qed.
End Demo.
