(* ===== verification/MiddlewareSystem.v ===== *)
(** * The Middleware controller with its components

    The calls of [MiddlewareController.Reconcile] run as the programs of
    [MiddlewareUpgrade], [MiddlewareApply] and [PauseAdoption], so that one run
    of the whole is one sequence of calls of the API server and of the
    components that handle children. *)
From Stdlib Require Import ZArith Lia.
From stdpp Require Import base gmap strings list option.
From S2P Require Import Prelude Labels Conditions Prog Diagnostic Middleware MiddlewareController Json Adoption JsonTools.
From S2P Require Import Catalog Packages PackageInstall MiddlewareRender MiddlewareUpgrade MiddlewareApply PauseAdoption.

Section System.
Context `{!JsonLib, !MergePatchLib, !YamlLib, !MetaCodec, !PackageFormat, !MapOrder, !MetaConditions, !ControllerUtil,
          !RetryOnConflict mcall error is_conflict}.
Context (reader apiReader : bool) (DataNamespace : string) (step : gmap string json) (scheme : bool) (now : Z).

(** The live resource is read only for a session with an adopted spec. *)
(** [PausedPrimaryCustomResourceSpecMatchesAdoption], internal/service/middleware/reconcile_adoption.go *)
Definition paused_spec_matches (snapshot : option pause_status) : aprog (result error bool) :=
  match snapshot with
  | None => Ret (Ok false)
  | Some s =>
      if String.eqb (ps_adoptedLiveSpecHash s) "" then Ret (Ok false)
      else
        live ← call (ReadPausePrimary (ps_gvk s) (ps_namespace s) (ps_name s));
        Ret (of_adoption (PausedPrimaryCustomResourceSpecMatchesAdoption (λ _ _ _, live) (Some s)))
  end.

Definition implement (R : Type) (c : mcall R) : aprog R :=
  match c in mcall R return aprog R with
  | CheckMiddleware m => Check reader now m
  | Middleware.ReplacePackage m => ReplacePackage reader apiReader DataNamespace now m
  | Middleware.HandleResource a m => HandleResource reader apiReader DataNamespace step scheme now a m
  | BuildPauseSnapshot m => BuildReconcilePauseSnapshot apiReader DataNamespace m
  | AdoptPausedPrimary m p => AdoptPausedPrimaryCustomResource apiReader DataNamespace step m p
  | PausedSpecMatchesAdoption p => paused_spec_matches p
  | c => call (Mid c)
  end.

Definition reconcile_system (name namespace : string) : aprog (ctrl_result * option error) :=
  interp implement (Reconcile reader now name namespace).

(** ** What precedes each call of the whole *)

(** The run started with the read of [m]. *)
Definition started_with (name namespace : string) (m : middleware) (l : list aevent) : Prop :=
  ∃ rest, l = Ev (Mid (CliGet name namespace)) (Ok m) :: rest.

(** A paused session is resumed only as it was adopted. *)
Definition resumed_as_adopted (m : middleware) (l : list aevent) : Prop :=
  hasReconcilePaused (ms_conditions (m_status m)) = true →
  ReconcileResumePolicyFor (m_annotations m) = Some ResumeMerge →
  reconcileAdoptionSucceeded (ms_conditions (m_status m)) = true ∧
  ∃ s live, ms_reconcilePause (m_status m) = Some s ∧
    Ev (ReadPausePrimary (ps_gvk s) (ps_namespace s) (ps_name s)) (Ok live) ∈ l ∧
    PausedPrimaryCustomResourceSpecMatchesAdoption (λ _ _ _, Ok live) (Some s) = Ok true.

Definition may_apply (name namespace : string) (l : list aevent) : Prop :=
  ∃ m, started_with name namespace m l ∧ FinalizerMiddleware ∈ m_finalizers m ∧ m_deletionTimestamp m = None ∧
    IsMiddlewareReconcileWriteSuspended (m_annotations m) (ms_conditions (m_status m)) = false ∧ resumed_as_adopted m l.
Definition may_delete (name namespace : string) (l : list aevent) : Prop :=
  ∃ m, started_with name namespace m l ∧ FinalizerMiddleware ∈ m_finalizers m ∧ is_Some (m_deletionTimestamp m).

(** The finalizer was gone when the object was read, or the children are
    deleted, or the conditions of the object show that none was created. *)
Definition may_release (name namespace : string) (l : list aevent) : Prop :=
  (∃ latest, was_read l latest ∧ FinalizerMiddleware ∉ m_finalizers latest) ∨
  ∃ m, started_with name namespace m l ∧ is_Some (m_deletionTimestamp m) ∧
    (cleaned l ∧ removed l ∨ CanSkipDeleteCleanup (Some m) = true).

Definition system_order (name namespace : string) (l : list aevent) (e : aevent) : Prop :=
  match e with Ev c _ => match c with
    | HandlePreActions _ | SetControllerReference _ _ | EnsureCRWatcher _ _ _ | StartSync _ _ => may_apply name namespace l
    | ReconcileConfigurations _ _ _ _ => may_apply name namespace l ∧ handled_preActions l
    | WriteManaged m' cr => may_apply name namespace l ∧ configured l ∧
        ∃ cr0, Ev (SetControllerReference m' cr0) (Ok cr) ∈ l ∧ rendered_as m' cr0 ∧ resume_verified m' cr0 l
    | DeleteConfigurations _ => may_delete name namespace l
    | ReleaseCRWatcher _ | StopSync _ | CliDelete _ => may_delete name namespace l ∧ cleaned l
    | CliUpdateObject _ => False
    | Mid c => match c with
        | CliUpdate m' => FinalizerMiddleware ∉ m_finalizers m' → may_release name namespace l
        | _ => True
        end
    | _ => True
    end end.
End System.

(** ** Every run of the whole keeps the order *)

Section SystemProofs.
Context `{!JsonLib, !MergePatchLib, !YamlLib, !MetaCodec, !PackageFormat, !MapOrder, !MetaConditions, !ControllerUtil,
          !RetryOnConflict mcall error is_conflict}.
Context (reader apiReader : bool) (DataNamespace : string) (step : gmap string json) (scheme : bool) (now : Z).
Context (name namespace : string).
Implicit Types (m : middleware) (l tr : list aevent).
Abbreviation impl := (implement reader apiReader DataNamespace step scheme now).
Abbreviation order := (system_order name namespace).

(** *** What is known of some calls is known of more *)

Lemma configured_sub l l' : configured l → l ⊆ l' → configured l'.
Proof. intros (m & a & mcs & prev & inv & Hin) Hsub. exists m, a, mcs, prev, inv. by apply Hsub. Qed.
Lemma cleaned_sub l l' : cleaned l → l ⊆ l' → cleaned l'.
Proof. intros (m & Hin) Hsub. exists m. by apply Hsub. Qed.
Lemma handled_sub l l' : handled_preActions l → l ⊆ l' → handled_preActions l'.
Proof. intros (m & m' & Hin) Hsub. exists m, m'. by apply Hsub. Qed.
Lemma removed_sub l l' : removed l → l ⊆ l' → removed l'.
Proof. intros (cr & err & Hin & ?) Hsub. exists cr, err. split; [by apply Hsub|done]. Qed.
Lemma verified_sub m cr l l' : resume_verified m cr l → l ⊆ l' → resume_verified m cr l'.
Proof. intros Hv Hsub s Hp Hs. destruct (Hv s Hp Hs) as (live & Hin & ?). exists live. split; [by apply Hsub|done]. Qed.
Lemma right_sub {A} (l l' : list A) : l' ⊆ l ++ l'.
Proof. intros x Hx. apply elem_of_app. by right. Qed.
Lemma left_sub {A} (l l' : list A) : l ⊆ l ++ l'.
Proof. intros x Hx. apply elem_of_app. by left. Qed.

(** *** The controller's calls and the calls that implement them *)

Lemma Reconcile_starts :
  holds (Reconcile reader now name namespace) [] (λ k _,
    (∃ e, k = [Ev (CliGet name namespace) (Err e)]) ∨ ∃ m rest, k = Ev (CliGet name namespace) (Ok m) :: rest).
Proof.
  unfold Reconcile, GetMiddleware. simpl. intros [m|e]; simpl; [intros u|by left; exists e].
  eapply holds_mono; [apply holds_extends|]. intros k a Hpre. destruct Hpre as [rest ->]. right. by exists m, (Ev (CacheSet (namespaced_name namespace name) m) u :: rest).
Qed.

Lemma segments_start trE trF m rest :
  segments impl trE trF → trE = Ev (CliGet name namespace) (Ok m) :: rest → started_with name namespace m trF.
Proof.
  intros Hs. destruct Hs as [|R c r seg trE trF Hc Hs]; [done|]. intros Heq.
  set (P := λ e : mevent, match e with Ev c r => Prog.outcome (impl _ c) seg r end).
  assert (HP : P (Ev c r)) by exact Hc. apply (f_equal head) in Heq. simpl in Heq.
  assert (Hev : Ev c r = Ev (CliGet name namespace) (Ok m)) by congruence. revert HP. rewrite Hev. intros ->%outcome_call. by exists trF.
Qed.

Lemma segments_read trE trF m :
  segments impl trE trF → (∃ e, e ∈ trE ∧ read_of e = Some m) → was_read trF m.
Proof.
  intros Hs (e & Hin & He). exists e. split; [done|]. destruct e as [R c r].
  destruct (segments_of _ _ _ _ _ Hs Hin) as (seg & Ho & Hsub). apply Hsub.
  destruct c; try done; apply outcome_call in Ho as ->; by left.
Qed.

Lemma resumed_translated trE trF m :
  segments impl trE trF → gate_open m trE → resumed_as_adopted m trF.
Proof.
  intros Hs [_ Hg] Hp Hm. destruct (Hg Hp Hm) as [Ha Hin]. split; [done|].
  destruct (segments_of _ _ _ _ _ Hs Hin) as (seg & Ho & Hsub). simpl in Ho. unfold paused_spec_matches in Ho.
  destruct (ms_reconcilePause (m_status m)) as [s|]; [|by destruct Ho].
  destruct (String.eqb (ps_adoptedLiveSpecHash s) ""); [by destruct Ho|].
  destruct Ho as (live & l' & -> & -> & Ho).
  destruct live as [live|e].
  - exists s, live. split_and!; [done|apply Hsub; by left|].
    by destruct (PausedPrimaryCustomResourceSpecMatchesAdoption _ _); simplify_eq/=.
  - exfalso. unfold PausedPrimaryCustomResourceSpecMatchesAdoption in Ho.
    destruct (String.eqb (ps_adoptedLiveSpecHash s) ""); [done|]. by destruct (is_not_found e).
Qed.

Lemma settled_translated trE trF m :
  (now ≠ 0)%Z → segments impl trE trF → cleanup_settled m trE →
  cleaned trF ∧ removed trF ∨ CanSkipDeleteCleanup (Some m) = true.
Proof.
  intros Hnow Hs [(cp & cp' & Hin & _ & _)|[(cp & cp' & e & Hin & Hcp & Hskip)|Hskip]]; [left|right|by right];
    destruct (segments_of _ _ _ _ _ Hs Hin) as (seg & Ho & Hsub); simpl in Ho.
  - destruct (outcome_spec _ _ _ _ _ (HandleResource_spec reader apiReader DataNamespace step scheme now HandleActionDelete cp []) Ho)
      as [_ [_ Hd]]. destruct (Hd eq_refl) as [Hd' _]. destruct (Hd' eq_refl). split; [by eapply cleaned_sub|by eapply removed_sub].
  - pose proof (proj1 (holds_outcome _ [] _) (delete_skippable reader apiReader DataNamespace step scheme now cp [] Hnow) _ _ Ho) as Hk.
    cbv beta in Hk. cbn [snd] in Hk. rewrite Hskip in Hk. destruct Hcp as [Hcp _]. rewrite Hcp in Hk. by symmetry.
Qed.

(** *** What each component calls *)

(** No call that handles children, and no object written. *)
Definition harmless (_ : list aevent) (e : aevent) : Prop := ∀ l, order l e.

Definition upgrade_kind (_ : list aevent) (e : aevent) : Prop :=
  match e with Ev c _ => match c with Mid _ | Pack _ => True | _ => False end end.

Lemma mid_kind {A} (p : mprog A) : only upgrade_kind (mid p).
Proof. eapply only_embed; [apply only_any|]. by intros k [R c r] l _. Qed.
Lemma pack_kind {A} (p : pprog A) : only upgrade_kind (pack p).
Proof. eapply only_embed; [apply only_any|]. by intros k [R c r] l _. Qed.

Lemma Check_harmless m : only harmless (Check reader now m).
Proof.
  unfold Check. destruct (point_at _ _ _) as [m1 p]. match goal with |- only _ (if ?b then _ else _) => destruct b end; [apply only_ret|].
  apply only_bind; [|intros [err m2]; apply only_ret].
  eapply only_embed; [apply status_only|]. intros k [R c r] l He l'. by destruct c.
Qed.

Lemma ReplacePackage_kind m : only upgrade_kind (ReplacePackage reader apiReader DataNamespace now m).
Proof.
  unfold ReplacePackage, upgrade_body, switch_package, drop_request.
  repeat match goal with
  | |- only _ (mid _) => apply mid_kind
  | |- only _ (pack _) => apply pack_kind
  | |- only _ (Ret _) => apply only_ret
  | |- only _ (_ ≫= _) => apply only_bind; [|intros]
  | |- only _ (let '(_, _) := ?x in _) => destruct x
  | |- only _ (match ?x with _ => _ end) => destruct x
  end.
Qed.

(** A write of the upgrade keeps the finalizers of an object that was read. *)
Lemma upgrade_finalizers m m' l r seg e s1 s2 :
  Prog.outcome (ReplacePackage reader apiReader DataNamespace now m) seg r → seg = s1 ++ e :: s2 → obj_write e = Some m' →
  ∃ latest, was_read (l ++ s1) latest ∧ m_finalizers m' = m_finalizers latest.
Proof.
  intros Ho -> Hw. destruct (outcome_spec _ _ _ _ _ (replace_middleware_package_spec reader apiReader DataNamespace now m) Ho) as [Hall _].
  assert (Hread : ∀ latest, latest_read s1 = Some latest → was_read (l ++ s1) latest).
  { intros latest (e' & ? & ?)%latest_read_was. exists e'. split; [done|]. by apply right_sub. }
  destruct (Hall s1 e s2 eq_refl m' Hw) as [(? & ? & ? & latest & _ & _ & _ & Hr & ->)|(? & ? & ? & latest & _ & _ & _ & _ & Hr & ->)];
    by exists latest; split; [apply Hread|].
Qed.

Lemma handle_ordered a m l1 s1 s2 e r :
  Prog.outcome (HandleResource reader apiReader DataNamespace step scheme now a m) (s1 ++ e :: s2) r →
  (is_delete a = false → may_apply name namespace (l1 ++ s1)) →
  (is_delete a = true → may_delete name namespace (l1 ++ s1)) →
  order (l1 ++ s1) e.
Proof.
  intros Ho Happly Hdelete.
  destruct (outcome_spec _ _ _ _ _ (HandleResource_spec reader apiReader DataNamespace step scheme now a m []) Ho) as [Hall _].
  specialize (Hall s1 e s2 eq_refl). pose proof (right_sub l1 s1) as Hsub.
  assert (Hopen : open_gate now a m → may_apply name namespace (l1 ++ s1)) by (intros [? _]; auto).
  destruct e as [R c x]. destruct c; cbn [resource_order system_order] in *; try done.
  - by destruct c.
  - auto.
  - destruct Hall as (Hg & _ & Hh). split; [auto|by eapply handled_sub].
  - auto.
  - destruct Hall as (Hg & _). auto.
  - destruct Hall as (Hg & Hc & cr0 & Hin & Hr & Hv).
    split_and!; [auto|by eapply configured_sub|]. exists cr0. split_and!; [by apply Hsub|done|by eapply verified_sub].
  - destruct Hall as [Hg _]. auto.
  - destruct Hall as [Hd Hc]. split; [auto|by eapply cleaned_sub].
  - destruct Hall as [Hg _]. auto.
  - destruct Hall as [Hd Hc]. split; [auto|by eapply cleaned_sub].
  - destruct Hall as (Hd & Hc & _). split; [auto|by eapply cleaned_sub].
Qed.

(** A write of the controller itself. *)
Lemma write_ordered m' r trE l1 :
  (now ≠ 0)%Z → segments impl trE l1 → (∃ m rest, trE = Ev (CliGet name namespace) (Ok m) :: rest) →
  finalizer_guarded trE (Ev (CliUpdate m') r) → FinalizerMiddleware ∉ m_finalizers m' → may_release name namespace l1.
Proof.
  intros Hnow Hs (m & rest & Htr) Hg Hno. assert (Hread : ∃ latest, last_read trE = Some latest).
  { rewrite Htr. clear. induction rest as [|e rest IH] using rev_ind; [by exists m|].
    rewrite app_comm_cons, last_read_snoc. destruct (read_of e) as [m'|]; [by exists m'|exact IH]. }
  destruct Hread as [latest Hlast]. destruct (decide (FinalizerMiddleware ∈ m_finalizers latest)) as [Hin|Hout].
  - right. destruct Hg as (m1 & Hfirst & Hdel & Hset).
    { by exists m', latest. }
    assert (m1 = m) as -> by (rewrite Htr in Hfirst; unfold first_read in Hfirst; simpl in Hfirst; congruence).
    exists m. split_and!; [by eapply segments_start|done|by eapply settled_translated].
  - left. exists latest. split; [|done]. eapply segments_read; [exact Hs|]. by apply last_read_elem.
Qed.

Lemma paused_harmless p : only harmless (paused_spec_matches p).
Proof.
  unfold paused_spec_matches. destruct p as [s|]; [|apply only_ret]. destruct (String.eqb _ _); [apply only_ret|].
  apply only_bind; [by apply only_call|]. intros live. apply only_ret.
Qed.

Lemma reads_harmless l e : render_reads l e → harmless l e.
Proof. destruct e as [R c r]. by destruct c. Qed.

Lemma snapshot_harmless m : only harmless (BuildReconcilePauseSnapshot apiReader DataNamespace m).
Proof.
  unfold BuildReconcilePauseSnapshot. apply only_bind; [eapply only_mono; [apply reads_harmless|apply HandleGvk_reads]|].
  intros [g|e]; [|apply only_ret]. apply only_bind; [by apply only_call|]. intros [live|e]; [by apply only_call|].
  destruct (is_not_found e); apply only_ret.
Qed.

Lemma adoption_harmless m p : only harmless (AdoptPausedPrimaryCustomResource apiReader DataNamespace step m p).
Proof.
  eapply only_mono; [|apply adoption_only_reads]. intros l e [He|He]; [by eapply reads_harmless|].
  destruct e as [R c r]. by destruct c.
Qed.

Definition begun trE : Prop := ∃ m rest, trE = Ev (CliGet name namespace) (Ok m) :: rest.

Lemma first_read_start trE m : begun trE → first_read trE = Some m → ∃ rest, trE = Ev (CliGet name namespace) (Ok m) :: rest.
Proof. intros (m' & rest & ->) [= <-]. by exists rest. Qed.

Lemma handle_allowed trE a m r l1 s1 s2 e :
  segments impl trE l1 → Prog.outcome (HandleResource reader apiReader DataNamespace step scheme now a m) (s1 ++ e :: s2) r →
  child_write_allowed trE (Ev (Middleware.HandleResource a m) r) → begun trE → order (l1 ++ s1) e.
Proof.
  intros Hs Ho Hallowed Hbegun. destruct (Hallowed a m eq_refl) as (m0 & Hfirst & Hfin & Hgate).
  destruct (first_read_start _ _ Hbegun Hfirst) as [rest Hstart].
  assert (Hst : started_with name namespace m0 (l1 ++ s1)).
  { destruct (segments_start _ _ _ _ Hs Hstart) as [rest' ->]. by exists (rest' ++ s1). }
  eapply handle_ordered; [exact Ho|..]; intros Ha; exists m0.
  - assert (Hg : m_deletionTimestamp m0 = None ∧ gate_open m0 trE) by by destruct a.
    destruct Hg as [Hdel Hg]. pose proof (proj1 Hg). split_and!; try done.
    intros Hp Hm. destruct (resumed_translated _ _ _ Hs Hg Hp Hm) as (? & s & live & ? & ? & ?). split; [done|].
    exists s, live. split_and!; [done|apply elem_of_app; by left|done].
  - split_and!; [done|done|]. by destruct a.
Qed.

Lemma component_ordered trE R (c : mcall R) r l1 s1 s2 e :
  (now ≠ 0)%Z → segments impl trE l1 → Prog.outcome (impl R c) (s1 ++ e :: s2) r →
  child_write_allowed trE (Ev c r) → finalizer_guarded trE (Ev c r) →
  begun trE ∨ (∃ x, Ev c r = Ev (CliGet name namespace) x) → order (l1 ++ s1) e.
Proof.
  intros Hnow Hs Ho Hallowed Hguard Hfirst.
  assert (Hharmless : ∀ p : aprog R, only harmless p → Prog.outcome p (s1 ++ e :: s2) r → order (l1 ++ s1) e).
  { intros p Hp Hop. exact (outcome_only _ _ _ _ Hp Hop s1 e s2 eq_refl (l1 ++ s1)). }
  assert (Hdirect : ∀ c' : acall R, Prog.outcome (call c') (s1 ++ e :: s2) r → order l1 (Ev c' r) → order (l1 ++ s1) e).
  { intros c' Hc' Hord. apply outcome_call in Hc'. destruct (single _ _ _ _ Hc') as [-> ->]. by rewrite app_nil_r. }
  destruct c; cbn [implement] in Ho; try (eapply Hdirect; [exact Ho|done]).
  - eapply Hdirect; [exact Ho|]. intros Hno. destruct Hfirst as [Hb|[x Hx]]; [by eapply write_ordered|done].
  - eapply Hharmless; [apply Check_harmless|exact Ho].
  - destruct (obj_write e) as [m'|] eqn:Ew.
    + destruct (upgrade_finalizers _ _ l1 _ _ _ _ _ Ho eq_refl Ew) as (latest & Hr & Hf).
      destruct e as [R0 c0 x]. destruct c0 as [? c0| | | | | | | | | | | | | | | | | |]; try done. destruct c0; try done.
      injection Ew as ->. intros Hno. left. exists latest. split; [done|congruence].
    + pose proof (outcome_only _ _ _ _ (ReplacePackage_kind m) Ho s1 e s2 eq_refl) as Hk.
      destruct e as [R0 c0 x]. destruct c0 as [? c0| | | | | | | | | | | | | | | | | |]; try done. by destruct c0.
  - destruct Hfirst as [Hb|[x Hx]]; [by eapply handle_allowed|done].
  - eapply Hharmless; [apply snapshot_harmless|exact Ho].
  - eapply Hharmless; [apply adoption_harmless|exact Ho].
  - eapply Hharmless; [apply paused_harmless|exact Ho].
Qed.

Lemma system_ordered : (now ≠ 0)%Z →
  holds (reconcile_system reader apiReader DataNamespace step scheme now name namespace) [] (λ tr _, each order tr).
Proof.
  intros Hnow. eapply holds_mono.
  { apply holds_interp, holds_and; [apply (Reconcile_allowed reader now name namespace)|].
    apply holds_and; [apply (Reconcile_guarded reader now name namespace)|apply Reconcile_starts]. }
  intros trF a (trE & Hs & Hallowed & Hguarded & Hstarts) l e l' Htr. simpl in Htr. subst trF.
  destruct (segments_split _ _ _ _ _ Hs) as (trE1 & R & c & r & trE2 & l1 & s1 & s2 & Heq & Hs1 & -> & Ho).
  eapply component_ordered; [done|exact Hs1|exact Ho|by eapply Hallowed|by eapply Hguarded|].
  rewrite Heq in Hstarts. destruct trE1 as [|e1 trE1].
  - right. destruct Hstarts as [[e' Hst]|(m & rest & Hst)]; apply (f_equal head), (inj Some) in Hst; eexists; exact Hst.
  - left. destruct Hstarts as [[e' Hst]|(m & rest & Hst)].
    + apply (f_equal tail) in Hst. by destruct trE1.
    + exists m, trE1. apply (f_equal head), (inj Some) in Hst. by rewrite Hst.
Qed.

(** C3: In every run of the controller with its components, whatever the API
    server and the children's components answer: the children are touched only
    after the Middleware was read with the finalizer, for an apply without a
    deletion timestamp and with writes not suspended, and after a merged resume
    only when the live resource was read and has the adopted spec; the primary
    resource is written only after the configurations, as what the Middleware
    renders to; and the finalizer is dropped only from an object that was read
    without it, or once the children are deleted, or when the conditions of the
    object show that none was created. *)
Theorem system_runs_in_order {W} (h : handler acall W) w :
  (now ≠ 0)%Z →
  each (system_order name namespace)
    (run h (reconcile_system reader apiReader DataNamespace step scheme now name namespace) w).2.
Proof. intros Hnow. apply (holds_run h _ w [] (λ tr _, each order tr)). by apply system_ordered. Qed.
End SystemProofs.

(** ** Runs at concrete inputs *)

Section Demo.
Definition system_demo (m : middleware) (children : demo_children) : ctrl_result * option error * list aevent :=
  run (demo_world m (demo_secret_2 ∅ ∅) (Some redis_baseline) children)
    (@reconcile_system coded_json coded_diff coded_yaml fixed_meta (demo_format demo_files) list_order meta_by_list util_by_list
      (bounded_retry is_conflict 4) true true "default" ∅ true 9 "redis" "prod") tt.

Definition deleting : middleware :=
  let m := publishing ∅ None in
  Middleware (m_name m) (m_namespace m) (m_uid m) (m_generation m) (Some 8%Z) (m_labels m) (m_annotations m)
    (m_finalizers m) (m_spec m) (set_conditions [Condition CondTypeApplyCluster ConditionTrue 1 5 "" ""] (m_status m)).

Definition finalizer_writes (tr : list aevent) : list (list string) := m_finalizers <$> omap obj_write tr.

(** A publication, a pause (for the snapshot the live resource is read), a deletion, and a deletion that fails. *)
Lemma system_publishes :
  let r := system_demo (publishing ∅ None) quiet_children in
  child_calls r.2 = ["preActions"; "configurations"; "own"; "write"; "watch"; "sync"] ∧ finalizer_writes r.2 = [].
Proof. split; reflexivity. Qed.
Lemma system_pauses :
  child_calls (system_demo (publishing {[AnnotationSuspendReconcile := "true"]} None) quiet_children).2 = ["read"].
Proof. reflexivity. Qed.
Lemma system_keeps_finalizer :
  let r := system_demo deleting (DemoChildren (Err (Error NotFound "")) None (Some (new_error "busy"))) in
  child_calls r.2 = ["delete configurations"] ∧ finalizer_writes r.2 = [].
Proof. split; reflexivity. Qed.

Lemma system_runs_in_order_witness :
  let tr := (system_demo deleting quiet_children).2 in
  child_calls tr = ["delete configurations"; "release"; "stop"; "delete"] ∧
  finalizer_writes tr = [[]] ∧ may_release "redis" "prod" (take 12 tr).
Proof.
  intros tr. split; [reflexivity|]. split; [reflexivity|].
  assert (He : tr !! 12 = Some (Ev (Mid (CliUpdate (set_finalizers [] deleting))) None)) by reflexivity.
  refine (each_lookup _ _ _ _ (@system_runs_in_order coded_json coded_diff coded_yaml fixed_meta (demo_format demo_files) list_order
    meta_by_list util_by_list (bounded_retry is_conflict 4) true true "default" ∅ true 9 "redis" "prod" unit
    (demo_world deleting (demo_secret_2 ∅ ∅) (Some redis_baseline) quiet_children) tt ltac:(discriminate)) He _).
  intros Hin. inversion Hin.
Defined.
End Demo.
